(* ===== verification/_CoqProject ===== *)
-Q . S2P
Prelude.v
Bytes.v
Events.v
SeqMatcher.v
KeyMatcher.v
FifoQueue.v
Hist.v
Config.v
BpfGen.v
Pipeline.v
Lensx.v
Hashmap.v
Mem.v
Strset.v
RingBuf.v
RingMgr.v
Nlattr.v
ProgLinfo.v
Errno.v
Btf.v
BtfRaw.v
BtfFile.v
BtfAdd.v
BtfStore.v
BtfBuild.v
BtfMerge.v
Reloc.v
RelocWf.v
RelocTypes.v
RelocCalc.v
RelocPatch.v
RelocCands.v
RelocMatch.v
RelocSelf.v
RelocField.v
BtfDump.v
BtfOrder.v
BtfEmit.v
BtfDecl.v
BtfData.v
BtfBounds.v
BtfDedup.v
BtfSame.v
BtfDedupEq.v
BtfDedupGraph.v
BtfDedupPass.v
BtfDedupStruct.v
BtfDedupRef.v
BtfDedupVisit.v
BtfDedupOut.v
BtfDedupStrs.v
BtfDedupOk.v
Subprog.v
SubprogData.v
SubprogFind.v
SubprogLink.v
SubprogAll.v
