(* ===== verification/Prelude.v ===== *)
(** * Verification of LensX

    LensX measures latencies: a YAML file names probes (kprobes, uprobes, tracepoints),
    a BPF program is generated and compiled that emits an event per probe hit, libbpf
    loads and attaches it, and the events read back through libbpf's ring buffer are
    paired by matchers into latency histograms.  The repository carries libbpf, which
    does the work between the generated text and the kernel; the development models
    LensX itself and the parts of libbpf that carry their own logic.

    ** The parts and how they interact

    LensX (src/src/):
    - Events.v, SeqMatcher.v, KeyMatcher.v, FifoQueue.v: matcher.h and matcher.cpp.
      The matchers are functions from their state and an event to the new state and
      the callbacks' effects; the callbacks act on a world of their caller.
    - Hist.v: [struct Hist] of lensx.cpp, with binary64 arithmetic.
    - Config.v: config.h and config.cpp over the interface [Yaml] of the YAML library.
    - BpfGen.v: bpf_gen.cpp, the text of the BPF program and the commands that compile it.
    - Pipeline.v: the second half of [main], composed of all of the above.
    - Lensx.v: the first half of [main]: arguments, process id, symbols, attachment.

    libbpf (src/libbpf/src/):
    - Hashmap.v (hashmap.c, hashmap.h), Mem.v (the growable arrays at the head of
      btf.c), Strset.v (strset.c, on Hashmap.v and Mem.v), Errno.v (libbpf_errno.c,
      str_error.c).
    - RingBuf.v, RingMgr.v: ringbuf.c.  The consumer makes one access to the shared
      memory per step, so that a producer can be put between any two of them.
    - Nlattr.v: nlattr.c and nlattr.h.  ProgLinfo.v: bpf_prog_linfo.c.
    - Btf.v, BtfRaw.v, BtfAdd.v: the BTF types of btf.c and btf.h: lookup, strings,
      sizes; the binary form read and written; the functions that build BTF, in a
      monad of the object.  BtfFile.v holds the theorems about files; BtfStore.v says
      when an object holds given types and strings and what the steps of building do
      to it, BtfBuild.v specifies the calls and composes them with the files; BtfMerge.v
      copies types from another object.
    - Reloc.v, RelocTypes.v, RelocCalc.v, RelocPatch.v, RelocCands.v: relo_core.c and
      the candidate search of libbpf.c, in the order a relocation runs: the access
      string is parsed to a spec, candidates are found by name, the spec is matched
      to each, the values are computed on both sides, the candidates compared, the
      instruction patched.  RelocWf.v says which BTF is well formed; RelocMatch.v,
      RelocSelf.v and RelocField.v hold the theorems about the search for members,
      about relocating against the same BTF, and about bitfields.
    - Subprog.v: the part of libbpf.c that links the functions of an object into its
      programs and then puts maps, variables and kernel symbols into the instructions.
      SubprogFind.v is about its searches, SubprogLink.v about one main program: the
      layout of the code, the invariant of the loop and its recursion, the infos;
      SubprogData.v about the data relocations; SubprogAll.v about the whole object.

    - BtfDedup.v: the deduplication of btf.c, all its passes over one object.  BtfSame.v
      says when types are the same; BtfDedupEq.v is about the comparisons of two types,
      BtfDedupGraph.v about the map of canonical types and the comparison of type graphs,
      BtfDedupPass.v about the table of candidates and primitive types, BtfDedupStruct.v
      about structs, BtfDedupRef.v about references, BtfDedupVisit.v about the visitors,
      BtfDedupOut.v about compaction and renumbering, BtfDedupStrs.v about strings, each
      with the invariant of its pass; BtfDedupOk.v composes them.
    - BtfDump.v, BtfEmit.v, BtfData.v: btf_dump.c: the state of a dump and the order of
      the definitions in BtfDump.v, what is printed for them in BtfEmit.v, the values of
      typed data in BtfData.v.  BtfOrder.v holds the theorems about the order, BtfDecl.v
      those about declarations, BtfBounds.v those about data.

    Prelude.v (this file) and Bytes.v hold what they share: machine integers with
    their wrap-around, an error-aware fold, byte arrays with checked loads.

    ** Conventions

    A C integer is a [Z]; [u32], [u64], [s32], ... write out where the code wraps.
    [option] marks undefined behaviour: [None] is a load outside an object, a null
    pointer used, a shift by the width, or (with fuel) a loop that does not end.
    Errors of the code are values: negative results, [inr], or the exit of the
    process.  What is outside src/ (the kernel, the C library where it is not
    written out, YAML, libelf, the shell) is an argument of the definitions, and so
    is whether an allocation fails.

    Fuel: the loops of the code that are not bounded by data get as fuel the number
    of things they can visit at most: types of a BTF object for chains of modifiers
    and for the nesting of members (RelocWf.v shows that well-formed BTF never needs
    more), bytes for the scans of strings, records for the ring, the instructions of all programs
    for the linking (a subprogram is begun once), the ids of an
    object for the chains and the recursion of the deduplication, attributes for a
    netlink stream, 4 doublings for the load of a bitfield.  The theorems state that
    a result is returned, not only that a returned result is right.

    ** The theorems

    - LensX: each matcher refines a specification by grouping (per slot, per key,
      bounded queue); from a configuration and a sequence of samples to the reports
      in key, fifo and seq mode; histogram counts and percentiles; parsing and
      validation of the configuration; the generated text holds the whole program of
      every probe, under the name that [main] looks up; attachment and the choice of the process id.
    - Containers: the hash map refines a list of entries call by call, for every strategy
      and with any number of entries for a key (whose order a growth turns round); the
      string set interns.  The messages of libbpf's error codes.
    - Ring buffer: every committed record is delivered once and in order whatever a
      producer does in between; without interference the call ends; mappings are released
      as they were made, but for those whose size wraps (maps of 2^31 bytes or more).
    - Netlink and line info: parsing, and building, where what was added is read back
      byte for byte; lookup; with their limits.
    - BTF: parsing and writing the binary form, either byte order; every call that
      builds BTF refines its specification on lists of types and strings, and what was
      built by any calls, with files written in between, is read back from its file.
      Copying types from another object, one or all, takes names and ids over and
      keeps what was there.
    - Deduplication: it ends, on any cycles of types; every definition becomes one that
      agrees with it in all but the ids, which become ids of types that are the same,
      coinductively and up to forward declarations, as long as each of these stands for
      one definition; and no two types of the result are equal, but for structs, unions,
      variables and sections.
    - Dumping: every definition comes behind those it needs, and the search for the order
      ends; the text of a declaration parses, by the grammar of C, as a declaration of
      the given name with the type that the BTF describes; printing a value with all
      its fields never reads outside of its bytes, however few they are; leaving out
      the fields that are zero, it does not when the bytes are as many as the type has.
    - Linking: every main program becomes its code followed by the code of every
      subprogram it reaches, each once, whatever was linked before; calls land on the
      copies of their callees, infos are where their code is, and relocated instructions
      refer to their map, variable or function of the kernel.
    - Relocations: name matching up to flavors; type compatibility is decided; the
      search finds the first field of a name through anonymous members; against its
      own BTF a relocation writes what it expects, so that a validated one changes
      nothing; a patch writes what was computed or poisons the instruction, touches
      only immediates, offsets and sizes, and can be undone if it was validated; the relocated shifts read exactly the bits of a
      bitfield; the result does not depend on the order of the candidates.

    ** Not modelled

    Of libbpf: loading (libbpf.c beyond the candidate search and the linking, bpf.c, libbpf_probes.c,
    gen_loader.c, linker.c) is mostly system calls and ELF reading through libelf;
    usdt.c and netlink.c drive the kernel.  Of btf.c the .BTF.ext sections are
    left out; the theorems about deduplication are for objects without a base.
    The headers for BPF programs and of the kernel's interface are macros and
    constants; those used are with their users.  Logging is left out everywhere. *)
From stdpp Require Import base gmap strings list sorting.
From Stdlib Require Import ZArith Lia.

#[local] Open Scope Z_scope.

(** * Machine integers

    A C integer of width [w] is a [Z]; the operations below write out where C
    wraps (unsigned arithmetic), where it re-interprets (conversions to a signed
    type) and where it is undefined (shifts by the width or more). *)

Definition wrap (w x : Z) : Z := x `mod` 2 ^ w.

Definition swrap (w x : Z) : Z :=
  let r := wrap w x in if r <? 2 ^ (w - 1) then r else r - 2 ^ w.

Definition in_u (w x : Z) : Prop := (0 ≤ x < 2 ^ w)%Z.

Definition INT_MAX : Z := 2 ^ 31 - 1.
Definition INT_MIN : Z := - 2 ^ 31.

Abbreviation u8 := (wrap 8).
Abbreviation u16 := (wrap 16).
Abbreviation u32 := (wrap 32).
Abbreviation u64 := (wrap 64).
Abbreviation s32 := (swrap 32).
Abbreviation s64 := (swrap 64).

(** [1ULL << s]: undefined in C and C++ unless [0 <= s < 64]. *)
Definition shl1 (s : Z) : option Z :=
  if (0 <=? s) && (s <? 64) then Some (2 ^ s) else None.

(** The test [x & (1ULL << s)] read as a truth value, for a defined shift. *)
Definition has_bit (x s : Z) : bool := negb (Z.land x (2 ^ s) =? 0).

(** * Errno values (asm-generic/errno-base.h and errno.h) *)

Definition EPERM : Z := 1.
Definition ENOENT : Z := 2.
Definition ESRCH : Z := 3.
Definition E2BIG : Z := 7.
Definition ENOMEM : Z := 12.
Definition EEXIST : Z := 17.
Definition EINVAL : Z := 22.
Definition ENOSPC : Z := 28.
Definition EDOM : Z := 33.
Definition ERANGE : Z := 34.
Definition ENAMETOOLONG : Z := 36.
Definition EMSGSIZE : Z := 90.
Definition EOPNOTSUPP : Z := 95.
Definition EUCLEAN : Z := 117.
Definition ENOTSUP : Z := 95.
Definition EBADF : Z := 9.
Definition EPROTO : Z := 71.

(** * Sequencing a step over a list, stopping at the first undefined step *)

Fixpoint foldM {S A : Type} (f : S → A → option S) (s : S) (l : list A) : option S :=
  match l with
  | [] => Some s
  | a :: l => s' ← f s a; foldM f s' l
  end.

(** All ordered pairs [(l[i], l[j])] with [i < j], in the order of the nested
    loops [for i; for j = i + 1]. *)
Fixpoint index_pairs {A : Type} (l : list A) : list (A * A) :=
  match l with
  | [] => []
  | x :: l => map (λ y, (x, y)) l ++ index_pairs l
  end.

(** * Lemmas on machine integers *)

Create HintDb cint.
Create Rewrite HintDb cint_rw.

Lemma pow2_pos w : 0 ≤ w → 0 < 2 ^ w.
Proof. intros. apply Z.pow_pos_nonneg; lia. Qed.

Lemma wrap_range w x : 0 ≤ w → in_u w (wrap w x).
Proof. intros. unfold wrap, in_u. apply Z.mod_pos_bound, pow2_pos; lia. Qed.

Lemma wrap_small w x : in_u w x → wrap w x = x.
Proof. intros [??]. apply Z.mod_small; lia. Qed.

Lemma wrap_wrap w x : 0 ≤ w → wrap w (wrap w x) = wrap w x.
Proof. intros. apply wrap_small, wrap_range; done. Qed.

Lemma wrap_add_l w x y : wrap w (wrap w x + y) = wrap w (x + y).
Proof. apply Zplus_mod_idemp_l. Qed.

Lemma wrap_add_r w x y : wrap w (x + wrap w y) = wrap w (x + y).
Proof. apply Zplus_mod_idemp_r. Qed.

Lemma wrap_sub_self w x : wrap w (x - x) = 0.
Proof. unfold wrap. rewrite Z.sub_diag. apply Zmod_0_l. Qed.

Lemma swrap_range w x : 0 < w → - 2 ^ (w - 1) ≤ swrap w x < 2 ^ (w - 1).
Proof.
  intros Hw. unfold swrap.
  pose proof (wrap_range w x ltac:(lia)) as [H1 H2].
  assert (2 ^ w = 2 * 2 ^ (w - 1)) as E.
  { rewrite <- Z.pow_succ_r by lia. f_equal; lia. }
  destruct (Z.ltb_spec (wrap w x) (2 ^ (w - 1))); lia.
Qed.

Lemma swrap_small w x : 0 < w → - 2 ^ (w - 1) ≤ x < 2 ^ (w - 1) → swrap w x = x.
Proof.
  intros Hw Hx.
  assert (2 ^ w = 2 * 2 ^ (w - 1)) as E.
  { rewrite <- Z.pow_succ_r by lia. f_equal; lia. }
  unfold swrap, wrap. destruct (Z_lt_le_dec x 0) as [Hneg|Hpos].
  - assert (x mod 2 ^ w = x + 2 ^ w) as ->.
    { symmetry. apply Z.mod_unique with (-1); lia. }
    destruct (Z.ltb_spec (x + 2 ^ w) (2 ^ (w - 1))); lia.
  - rewrite Z.mod_small by lia.
    destruct (Z.ltb_spec x (2 ^ (w - 1))); lia.
Qed.

Lemma swrap_ext w x y : wrap w x = wrap w y → swrap w x = swrap w y.
Proof. unfold swrap. by intros ->. Qed.

Lemma wrap_swrap w x : 0 ≤ w → wrap w (swrap w x) = wrap w x.
Proof.
  intros Hw. unfold swrap. destruct (wrap w x <? 2 ^ (w - 1)); [by apply wrap_wrap|].
  replace (wrap w x - 2 ^ w) with (wrap w x + (-1) * 2 ^ w) by lia.
  unfold wrap at 1. pose proof (pow2_pos w Hw). rewrite Z.mod_add by lia. by apply wrap_wrap.
Qed.

Lemma wrap_testbit w x i : 0 ≤ w → 0 ≤ i → Z.testbit (wrap w x) i = (i <? w) && Z.testbit x i.
Proof.
  intros Hw Hi. unfold wrap. destruct (Z.ltb_spec i w) as [H|H]; cbn.
  - by rewrite Z.mod_pow2_bits_low by lia.
  - by rewrite Z.mod_pow2_bits_high by lia.
Qed.

Lemma wrap_bits w x y :
  0 ≤ w → (∀ i, 0 ≤ i < w → Z.testbit x i = Z.testbit y i) → wrap w x = wrap w y.
Proof.
  intros Hw H. apply Z.bits_inj'. intros i Hi. rewrite !wrap_testbit by lia.
  destruct (Z.ltb_spec i w); [|done]. by rewrite H by lia.
Qed.

Lemma wrap_wrap_le w w' x : 0 ≤ w ≤ w' → wrap w (wrap w' x) = wrap w x.
Proof.
  intros Hw. apply wrap_bits; [lia|]. intros i Hi. rewrite wrap_testbit by lia.
  destruct (Z.ltb_spec i w'); [done|lia].
Qed.

Lemma swrap_wrap w w' x : 0 ≤ w ≤ w' → swrap w (wrap w' x) = swrap w x.
Proof. intros Hw. by apply swrap_ext, wrap_wrap_le. Qed.

Lemma swrap_testbit w x i : 0 ≤ i < w → Z.testbit (swrap w x) i = Z.testbit x i.
Proof.
  intros Hi. pose proof (wrap_swrap w x ltac:(lia)) as H.
  apply (f_equal (λ z, Z.testbit z i)) in H. rewrite !wrap_testbit in H by lia.
  destruct (Z.ltb_spec i w); [done|lia].
Qed.

(** * Lemmas on bit masks *)

Lemma shl1_Some s : 0 ≤ s < 64 → shl1 s = Some (2 ^ s).
Proof.
  intros. unfold shl1.
  destruct (Z.leb_spec 0 s), (Z.ltb_spec s 64); try lia; done.
Qed.

Lemma shl1_inv s x : shl1 s = Some x → 0 ≤ s < 64 ∧ x = 2 ^ s.
Proof.
  unfold shl1. destruct (Z.leb_spec 0 s), (Z.ltb_spec s 64); simpl; intros ?; simplify_eq.
  split; [lia|done].
Qed.

Lemma shl1_None s : ¬ (0 ≤ s < 64) → shl1 s = None.
Proof.
  intros. unfold shl1.
  destruct (Z.leb_spec 0 s), (Z.ltb_spec s 64); try lia; done.
Qed.

Lemma has_bit_testbit x s : 0 ≤ s → has_bit x s = Z.testbit x s.
Proof.
  intros Hs. unfold has_bit. destruct (Z.testbit x s) eqn:E.
  - assert (Z.land x (2 ^ s) ≠ 0) as Hne.
    { intros H0. assert (Z.testbit (Z.land x (2 ^ s)) s = false) as Hf.
      { rewrite H0. apply Z.bits_0. }
      rewrite Z.land_spec, E, Z.pow2_bits_true in Hf by lia. done. }
    destruct (Z.eqb_spec (Z.land x (2 ^ s)) 0); done.
  - assert (Z.land x (2 ^ s) = 0) as ->; [|done].
    apply Z.bits_inj'. intros n Hn. rewrite Z.land_spec, Z.bits_0.
    destruct (decide (n = s)) as [->|Hne].
    + by rewrite E.
    + rewrite Z.pow2_bits_false by lia. apply andb_false_r.
Qed.

Lemma testbit_set x s i :
  0 ≤ s → 0 ≤ i → Z.testbit (Z.lor x (2 ^ s)) i = (i =? s) || Z.testbit x i.
Proof.
  intros Hs Hi. rewrite Z.lor_spec. destruct (Z.eqb_spec i s) as [->|Hne].
  - rewrite Z.pow2_bits_true by lia. by rewrite orb_true_r.
  - rewrite Z.pow2_bits_false by lia. by rewrite orb_false_r.
Qed.

(** [(x & m) == m] says every bit of [m] is set in [x]. *)
Lemma land_mask_iff x m :
  Z.land x m = m ↔ ∀ i, 0 ≤ i → Z.testbit m i = true → Z.testbit x i = true.
Proof.
  split.
  - intros H i Hi Hm. rewrite <- H, Z.land_spec in Hm. by apply andb_prop in Hm as [??].
  - intros H. apply Z.bits_inj'. intros n Hn. rewrite Z.land_spec.
    destruct (Z.testbit m n) eqn:E; [rewrite (H n Hn E)|apply andb_false_r]; done.
Qed.

#[export] Hint Rewrite Z.bits_0 Z.land_spec Z.lor_spec : cint_rw.
#[export] Hint Resolve wrap_range wrap_small : cint.

Lemma lor_shift a b n : 0 ≤ n → 0 ≤ b < 2 ^ n → Z.lor (Z.shiftl a n) b = a * 2 ^ n + b.
Proof.
  intros Hn Hb. rewrite <- Z.shiftl_mul_pow2 by done.
  destruct (Z.eq_dec b 0) as [->|Hb0]; [by rewrite Z.lor_0_r, Z.add_0_r|]. rewrite <- Z.add_lor_land.
  replace (Z.land (Z.shiftl a n) b) with 0; [by rewrite Z.add_0_r|]. symmetry. apply Z.bits_inj'. intros i Hi.
  rewrite Z.land_spec, Z.bits_0. destruct (Z.ltb_spec i n); [by rewrite Z.shiftl_spec_low|].
  rewrite (Z.bits_above_log2 b i), andb_false_r; [done|lia|].
  apply Z.log2_lt_pow2; [lia|].
  apply (Z.lt_le_trans _ (2 ^ n)); [lia|]. apply Z.pow_le_mono_r; lia.
Qed.

(** * Lemmas on [foldM] and [index_pairs] *)

Lemma foldM_app {S A} (f : S → A → option S) s l1 l2 :
  foldM f s (l1 ++ l2) = s' ← foldM f s l1; foldM f s' l2.
Proof.
  revert s. induction l1 as [|a l1 IH]; intros s; simpl; [done|].
  destruct (f s a); simpl; [apply IH|done].
Qed.

Lemma foldM_total {S A} (f : S → A → option S) (I : S → Prop) (P : A → Prop) s l :
  (∀ s a, I s → P a → ∃ s', f s a = Some s' ∧ I s') →
  I s → Forall P l → ∃ s', foldM f s l = Some s' ∧ I s'.
Proof.
  intros Hf. revert s. induction l as [|a l IH]; intros s Hs Hl; simpl; [eauto|].
  apply Forall_cons in Hl as [Ha Hl].
  destruct (Hf s a Hs Ha) as (s' & -> & Hs'). simpl. by apply IH.
Qed.

Lemma foldM_ind {S A} (f : S → A → option S) (I : S → Prop) s l s' :
  (∀ s a s', a ∈ l → I s → f s a = Some s' → I s') →
  I s → foldM f s l = Some s' → I s'.
Proof.
  revert s. induction l as [|a l IH]; intros s Hf Hs H; simpl in H; [by simplify_eq|].
  destruct (f s a) as [s1|] eqn:E; [|done]. simpl in H.
  eapply IH; [|by eapply Hf; [left| |]|done].
  intros; eapply Hf; [by right| |]; done.
Qed.

Lemma length_index_pairs {A} (l : list A) :
  (2 * length (index_pairs l) = length l * (length l - 1))%nat.
Proof.
  induction l as [|x l IH]; simpl; [done|].
  rewrite length_app, length_map. destruct l; simpl in *; lia.
Qed.

Lemma elem_of_index_pairs {A} (l : list A) x y :
  (x, y) ∈ index_pairs l ↔
  ∃ i j, (i < j)%nat ∧ l !! i = Some x ∧ l !! j = Some y.
Proof.
  induction l as [|a l IH]; simpl.
  - split; [set_solver|]. by intros (?&?&?&?&?).
  - rewrite elem_of_app, IH, list_elem_of_fmap. split.
    + intros [(b & ? & Hb)|(i & j & ? & ? & ?)].
      * simplify_eq. apply list_elem_of_lookup in Hb as [j Hj].
        exists 0%nat, (S j). split_and!; [lia|done|done].
      * exists (S i), (S j). split_and!; [lia|done|done].
    + intros ([|i] & [|j] & ? & Hi & Hj); simpl in *; try lia; simplify_eq.
      * left. exists y. split; [done|]. by eapply list_elem_of_lookup_2.
      * right. exists i, j. split_and!; [lia|done|done].
Qed.

(** * Lemmas on filters *)

Lemma filter_all {A} (P : A → Prop) `{∀ x, Decision (P x)} (l : list A) :
  Forall P l → filter P l = l.
Proof.
  induction 1 as [|x l Hx Hl IH]; [done|].
  rewrite filter_cons, IH. by rewrite decide_True.
Qed.

Lemma filter_none {A} (P : A → Prop) `{∀ x, Decision (P x)} (l : list A) :
  Forall (λ x, ¬ P x) l → filter P l = [].
Proof.
  induction 1 as [|x l Hx Hl IH]; [done|].
  rewrite filter_cons, IH. by rewrite decide_False.
Qed.

Lemma filter_flat_map {A B} (P : B → Prop) (Q : A → Prop)
    `{∀ x, Decision (P x), ∀ x, Decision (Q x)} (f : A → list B) (l : list A) :
  (∀ a, Forall (λ b, P b ↔ Q a) (f a)) →
  filter P (flat_map f l) = flat_map f (filter Q l).
Proof.
  intros Hf. induction l as [|a l IH]; [done|]. cbn [flat_map].
  rewrite filter_app, IH, filter_cons. specialize (Hf a). case_decide as Ha.
  - cbn [flat_map]. rewrite filter_all; [done|].
    eapply Forall_impl; [exact Hf|]. naive_solver.
  - rewrite filter_none; [done|].
    eapply Forall_impl; [exact Hf|]. naive_solver.
Qed.

(** * Folds in which at most one element matters *)

Lemma foldM_id {S A} (f : S → A → option S) s l :
  (∀ s x, x ∈ l → f s x = Some s) → foldM f s l = Some s.
Proof.
  revert s. induction l as [|x l IH]; intros s H; cbn; [done|].
  rewrite (H s x) by set_solver. cbn. apply IH. set_solver.
Qed.

Lemma foldM_one {S A} (f : S → A → option S) s (x0 : A) l :
  NoDup l → x0 ∈ l → (∀ s x, x ∈ l → x ≠ x0 → f s x = Some s) → foldM f s l = f s x0.
Proof.
  revert s. induction l as [|x l IH]; intros s Hnd Hin H; [set_solver|]. cbn.
  apply NoDup_cons in Hnd as [Hx Hnd].
  apply elem_of_cons in Hin as [->|Hin].
  - destruct (f s x) as [s'|]; cbn; [|done]. apply foldM_id. intros s1 y Hy.
    apply H; [set_solver|]. by intros ->.
  - rewrite H; [|set_solver|by intros ->]. cbn. apply IH; [done|done|]. set_solver.
Qed.

Lemma foldM_ext {S A} (f g : S → A → option S) s l :
  (∀ s x, x ∈ l → f s x = g s x) → foldM f s l = foldM g s l.
Proof.
  revert s. induction l as [|x l IH]; intros s H; cbn; [done|].
  rewrite (H s x) by set_solver. destruct (g s x); cbn; [|done]. apply IH. set_solver.
Qed.

Lemma foldM_flat_map {S A B} (f : S → B → option S) (h : A → list B) s l :
  foldM f s (flat_map h l) = foldM (λ s a, foldM f s (h a)) s l.
Proof.
  revert s. induction l as [|a l IH]; intros s; cbn; [done|]. rewrite foldM_app.
  destruct (foldM f s (h a)); cbn; auto.
Qed.

Lemma foldM_map {S A B} (f : S → B → option S) (h : A → B) s l :
  foldM f s (map h l) = foldM (λ s a, f s (h a)) s l.
Proof.
  revert s. induction l as [|a l IH]; intros s; cbn; [done|].
  destruct (f s (h a)); cbn; auto.
Qed.

Lemma NoDup_index_pairs {A} (l : list A) : NoDup l → NoDup (index_pairs l).
Proof.
  induction 1 as [|x l Hx Hl IH]; cbn; [constructor|]. apply NoDup_app. split_and!.
  - change (map (λ y, (x, y)) l) with ((λ y, (x, y)) <$> l). apply NoDup_fmap_2; [|done].
    intros ??. congruence.
  - intros p (y & -> & Hy)%list_elem_of_fmap (i & j & _ & Hi & _)%elem_of_index_pairs.
    apply Hx. by eapply list_elem_of_lookup_2.
  - done.
Qed.
