(* ===== verification/Bytes.v ===== *)
(** Byte arrays: little-endian loads and stores at checked offsets, shared by the
    parts that read C structures out of raw memory.  A byte is a [Z] in [0, 256);
    a load outside the array is [None]. *)
From stdpp Require Import base list.
From Stdlib Require Import ZArith Lia.
From S2P Require Import Prelude.

#[local] Open Scope Z_scope.

Fixpoint le_val (bs : list Z) : Z :=
  match bs with [] => 0 | b :: bs => b + 256 * le_val bs end.

Fixpoint le_bytes (n : nat) (z : Z) : list Z :=
  match n with O => [] | S n => z `mod` 256 :: le_bytes n (z / 256) end.

Definition bytes_ok (bs : list Z) : Prop := Forall (λ b, 0 ≤ b < 256) bs.

(** The [n] bytes at offset [off]. *)
Definition slice (mem : list Z) (off : Z) (n : nat) : option (list Z) :=
  if (0 <=? off) && (off + Z.of_nat n <=? Z.of_nat (length mem))
  then Some (take n (drop (Z.to_nat off) mem)) else None.

Definition load (n : nat) (mem : list Z) (off : Z) : option Z := le_val <$> slice mem off n.
Abbreviation load8 := (load 1).
Abbreviation load16 := (load 2).
Abbreviation load32 := (load 4).
Abbreviation load64 := (load 8).

(** Overwrite the bytes at [off]. *)
Definition store (mem : list Z) (off : Z) (bs : list Z) : option (list Z) :=
  if (0 <=? off) && (off + Z.of_nat (length bs) <=? Z.of_nat (length mem))
  then Some (take (Z.to_nat off) mem ++ bs ++ drop (Z.to_nat off + length bs) mem) else None.

(** * Lemmas *)

Lemma length_le_bytes n z : length (le_bytes n z) = n.
Proof. revert z. induction n as [|n IH]; intros z; cbn; [done|]. by rewrite IH. Qed.

Lemma le_bytes_ok n z : bytes_ok (le_bytes n z).
Proof.
  revert z. induction n as [|n IH]; intros z; cbn; constructor; [|apply IH].
  apply Z.mod_pos_bound. lia.
Qed.

Lemma pow256 n : 2 ^ (8 * Z.of_nat (S n)) = 256 * 2 ^ (8 * Z.of_nat n).
Proof.
  replace (8 * Z.of_nat (S n)) with (8 + 8 * Z.of_nat n) by lia.
  rewrite Z.pow_add_r by lia. done.
Qed.

Lemma le_val_le_bytes n z : le_val (le_bytes n z) = z `mod` 2 ^ (8 * Z.of_nat n).
Proof.
  revert z. induction n as [|n IH]; intros z; cbn [le_bytes le_val].
  - cbn. by rewrite Z.mod_1_r.
  - rewrite IH, pow256. rewrite Z.rem_mul_r by (try apply pow2_pos; lia). lia.
Qed.

Lemma le_val_bytes_id n z : in_u (8 * Z.of_nat n) z → le_val (le_bytes n z) = z.
Proof. intros H. rewrite le_val_le_bytes. by apply wrap_small. Qed.

Lemma le_val_range bs : bytes_ok bs → in_u (8 * Z.of_nat (length bs)) (le_val bs).
Proof.
  unfold in_u. induction 1 as [|b bs Hb Hbs IH]; cbn [le_val length]; [cbn; lia|].
  rewrite pow256. lia.
Qed.

Lemma slice_app_mid pre bs post off n :
  off = Z.of_nat (length pre) → n = length bs → slice (pre ++ bs ++ post) off n = Some bs.
Proof.
  intros -> ->. unfold slice. rewrite !length_app.
  destruct (Z.leb_spec 0 (Z.of_nat (length pre))); [|lia]. cbn [andb].
  destruct (Z.leb_spec (Z.of_nat (length pre) + Z.of_nat (length bs))
    (Z.of_nat (length pre + (length bs + length post)))); [|lia].
  by rewrite Nat2Z.id, drop_app_length, take_app_length.
Qed.

Lemma load_app_mid pre bs post off n :
  off = Z.of_nat (length pre) → n = length bs → load n (pre ++ bs ++ post) off = Some (le_val bs).
Proof. intros H1 H2. unfold load. by rewrite (slice_app_mid pre bs post off n H1 H2). Qed.

Lemma slice_Some mem off n bs :
  slice mem off n = Some bs →
  0 ≤ off ∧ off + Z.of_nat n ≤ Z.of_nat (length mem) ∧ length bs = n ∧
  bs = take n (drop (Z.to_nat off) mem).
Proof.
  unfold slice. destruct (Z.leb_spec 0 off), (Z.leb_spec (off + Z.of_nat n) (Z.of_nat (length mem)));
    cbn; intros ?; simplify_eq.
  rewrite length_take, length_drop. split_and!; [lia|lia|lia|done].
Qed.

Lemma slice_split mem off n bs :
  slice mem off n = Some bs → ∃ pre post, mem = pre ++ bs ++ post ∧ off = Z.of_nat (length pre) ∧ length bs = n.
Proof.
  intros (H1 & H2 & Hl & Hb)%slice_Some.
  exists (take (Z.to_nat off) mem), (drop (length bs) (drop (Z.to_nat off) mem)). split_and!; [| |done].
  - rewrite Hb at 1. rewrite Hl, take_drop, take_drop. done.
  - rewrite length_take. lia.
Qed.

Lemma slice_is_Some mem off n :
  is_Some (slice mem off n) ↔ 0 ≤ off ∧ off + Z.of_nat n ≤ Z.of_nat (length mem).
Proof.
  split; [intros [bs H]; by apply slice_Some in H as (?&?&_)|].
  intros [H1 H2]. unfold slice.
  destruct (Z.leb_spec 0 off), (Z.leb_spec (off + Z.of_nat n) (Z.of_nat (length mem))); try lia.
  eauto.
Qed.

Lemma load_is_Some n mem off :
  is_Some (load n mem off) ↔ 0 ≤ off ∧ off + Z.of_nat n ≤ Z.of_nat (length mem).
Proof. unfold load. by rewrite fmap_is_Some, slice_is_Some. Qed.

Lemma load_range n mem off z : bytes_ok mem → load n mem off = Some z → in_u (8 * Z.of_nat n) z.
Proof.
  intros Hm. unfold load. destruct (slice mem off n) as [bs|] eqn:E; cbn; [|done].
  intros ?; simplify_eq. apply slice_Some in E as (_ & _ & <- & ->).
  apply le_val_range. apply Forall_take, Forall_drop, Hm.
Qed.

Lemma store_length mem off bs mem' : store mem off bs = Some mem' → length mem' = length mem.
Proof.
  unfold store. destruct (Z.leb_spec 0 off), (Z.leb_spec (off + Z.of_nat (length bs)) (Z.of_nat (length mem)));
    cbn; intros ?; simplify_eq.
  rewrite !length_app, length_take, length_drop. lia.
Qed.

Lemma store_app_mid pre old post off bs :
  off = Z.of_nat (length pre) → length old = length bs →
  store (pre ++ old ++ post) off bs = Some (pre ++ bs ++ post).
Proof.
  intros -> Hl. unfold store. rewrite !length_app.
  destruct (Z.leb_spec 0 (Z.of_nat (length pre))); [|lia]. cbn [andb].
  destruct (Z.leb_spec (Z.of_nat (length pre) + Z.of_nat (length bs))
    (Z.of_nat (length pre + (length old + length post)))); [|lia].
  rewrite Nat2Z.id, take_app_length. do 3 f_equal.
  rewrite <- drop_drop, drop_app_length, <- Hl, drop_app_length. done.
Qed.

Lemma le_bytes_le_val bs : bytes_ok bs → le_bytes (length bs) (le_val bs) = bs.
Proof.
  induction 1 as [|b bs Hb _ IH]; cbn [length le_bytes le_val]; [done|]. f_equal.
  - rewrite (Z.mul_comm 256), Z_mod_plus_full. by apply Z.mod_small.
  - rewrite (Z.mul_comm 256), Z_div_plus_full by done. by rewrite Z.div_small.
Qed.

Lemma bytes_ok_app a b : bytes_ok (a ++ b) ↔ bytes_ok a ∧ bytes_ok b.
Proof. apply Forall_app. Qed.

(** What a load gives is what is there. *)
Lemma load_split n mem off z : bytes_ok mem → load n mem off = Some z →
  ∃ pre post, mem = pre ++ le_bytes n z ++ post ∧ off = Z.of_nat (length pre) ∧ in_u (8 * Z.of_nat n) z.
Proof.
  intros Hm H. unfold load in H. destruct (slice mem off n) as [bs|] eqn:E; cbn in H; [|done]. simplify_eq.
  apply slice_split in E as (pre & post & -> & -> & <-).
  apply bytes_ok_app in Hm as [_ [Hb _]%bytes_ok_app].
  exists pre, post. rewrite le_bytes_le_val by done. split_and!; try done. by apply le_val_range.
Qed.

(** * Byte order *)

Definition bswap (n : nat) (x : Z) : Z := le_val (rev (le_bytes n x)).

Lemma bytes_ok_rev bs : bytes_ok bs → bytes_ok (rev bs).
Proof. intros H. apply List.Forall_rev, H. Qed.

Lemma bswap_bytes n x : le_bytes n (bswap n x) = rev (le_bytes n x).
Proof.
  unfold bswap. rewrite <- (length_le_bytes n x) at 1. rewrite <- length_rev.
  apply le_bytes_le_val, bytes_ok_rev, le_bytes_ok.
Qed.

Lemma bswap_range n x : in_u (8 * Z.of_nat n) (bswap n x).
Proof.
  unfold bswap. rewrite <- (length_le_bytes n x) at 1. rewrite <- length_rev.
  apply le_val_range, bytes_ok_rev, le_bytes_ok.
Qed.

Lemma bswap_bswap n x : in_u (8 * Z.of_nat n) x → bswap n (bswap n x) = x.
Proof.
  intros Hx. unfold bswap at 1. rewrite bswap_bytes, rev_involutive. by apply le_val_bytes_id.
Qed.
