(* ===== verification/Events.v ===== *)
(** Data of [src/src/matcher.h] shared by the matchers: the raw events read from
    the BPF ring buffer, the latency deltas, the completed-group snapshot, the
    per-slot record, and the loops that both matchers write in the same way. *)
From stdpp Require Import base gmap strings list.
From Stdlib Require Import ZArith Lia.
From S2P Require Import Prelude.

#[local] Open Scope Z_scope.

(** * Data *)

Record Delta := mkDelta {
  val_ns : Z;
  from_stage : Z;
  to_stage : Z;
  ts_from : Z;
  ts_to : Z;
  delta_tid : Z;
}.

Record RawEvent := mkEvent {
  ev_ts : Z;
  ev_tid : Z;
  ev_stage : Z;
  ev_key : Z;
}.

(** [ts] holds the entries the code assigns; the others, and [key], are
    indeterminate in C++ and are absent here. *)
Record StageSnapshot := mkSnap {
  snap_ts : gmap Z Z;
  snap_stages : Z;
  snap_key : option Z;
  snap_tid : Z;
}.

(** [struct Record { uint64_t ts[64]; uint64_t filled; uint32_t tid; }] *)
Record MRecord := mkRecord {
  rec_ts : list Z;
  rec_filled : Z;
  rec_tid : Z;
}.

(** All bytes zero: [memset] in [SeqMatcher], value initialisation by
    [records_[key]] in [KeyMatcher]. *)
Definition zero_record : MRecord := mkRecord (replicate 64 0) 0 0.

(** A value an event can have on the wire: [__u64 ts; __u32 tid; __u8 stage; __u64 key]. *)
Definition event_ok (e : RawEvent) : Prop :=
  in_u 64 (ev_ts e) ∧ in_u 32 (ev_tid e) ∧ in_u 8 (ev_stage e) ∧ in_u 64 (ev_key e).

(** * Operations written the same way in both matchers *)

(** The constructors' loop over [stages_]: the mask and the smallest stage,
    from [stages_mask_ = 0; first_stage_ = 64]. *)
Definition scan_stages (stages : list Z) : option (Z * Z) :=
  foldM (λ '(mask, first) s,
           b ← shl1 s;
           Some (Z.lor mask b, if s <? first then s else first))
        (0, 64) stages.

(** [rec.ts[s]], for [s] in [0, 64) *)
Definition ts_at (r : MRecord) (s : Z) : Z := rec_ts r !!! Z.to_nat s.

(** [rec.ts[stage] = e.ts; rec.filled |= (1ULL << stage);] *)
Definition rec_mark (r : MRecord) (stage ts : Z) : MRecord :=
  mkRecord (<[Z.to_nat stage := ts]> (rec_ts r)) (Z.lor (rec_filled r) (2 ^ stage)) (rec_tid r).

(** The double loop [for i; for j = i + 1] that pushes one delta per pair. *)
Definition rec_deltas (stages : list Z) (r : MRecord) : list Delta :=
  map (λ '(from, to),
         mkDelta (u64 (ts_at r to - ts_at r from)) from to (ts_at r from) (ts_at r to) (rec_tid r))
      (index_pairs stages).

(** * The group specification

    What a matcher is for, without bit masks and arrays: a group collects the
    latest timestamp of each of its stages and is complete when every stage of
    the rule has one. *)

Record Group := mkGroup { g_ts : gmap Z Z; g_tid : Z }.

Definition empty_group (tid : Z) : Group := mkGroup ∅ tid.

Definition group_complete (stages : list Z) (g : Group) : bool :=
  forallb (λ s, bool_decide (is_Some (g_ts g !! s))) stages.

Definition group_add (g : Group) (stage ts : Z) : Group :=
  mkGroup (<[stage := ts]> (g_ts g)) (g_tid g).

Definition group_deltas (stages : list Z) (g : Group) : list Delta :=
  map (λ '(from, to),
         let a := default 0 (g_ts g !! from) in
         let b := default 0 (g_ts g !! to) in
         mkDelta (u64 (b - a)) from to a b (g_tid g))
      (index_pairs stages).

(** Running a group step over a trace; the emitted groups in order. *)
Fixpoint run_groups (step : Group → RawEvent → Group * list Group) (g : Group)
    (es : list RawEvent) : Group * list Group :=
  match es with
  | [] => (g, [])
  | e :: es =>
      let '(g1, o1) := step g e in
      let '(g2, o2) := run_groups step g1 es in (g2, o1 ++ o2)
  end.

(** Recording one event of the rule in a group: [upd] says which thread the group
    belongs to afterwards, [after] what is left once it is complete. *)
Definition record_step (stages : list Z) (upd : Z → RawEvent → Z) (after : Group → Group)
    (g : Group) (e : RawEvent) : Group * list Group :=
  let g := mkGroup (<[ev_stage e := ev_ts e]> (g_ts g)) (upd (g_tid g) e) in
  if group_complete stages g then (after g, [g]) else (g, []).

(** The timestamps and the thread of a group that records [es] one after the other. *)
Definition record_all (upd : Z → RawEvent → Z) (g : Group) (es : list RawEvent) : Group :=
  foldl (λ g e, mkGroup (<[ev_stage e := ev_ts e]> (g_ts g)) (upd (g_tid g) e)) g es.

(** The record [r] represents the group [g]: [g] holds the timestamps whose bit
    is set in [filled]. *)
Definition rec_rel (r : MRecord) (g : Group) : Prop :=
  length (rec_ts r) = 64%nat ∧ rec_tid r = g_tid g ∧ 0 ≤ rec_filled r < 2 ^ 64 ∧
  ∀ i, g_ts g !! i =
       if (0 <=? i) && (i <? 64) && Z.testbit (rec_filled r) i then Some (ts_at r i) else None.

Definition stages_ok (stages : list Z) : Prop := Forall (λ s, 0 ≤ s < 64) stages.

(** * Lemmas *)

Lemma lor_pow2_bound x s : 0 ≤ x < 2 ^ 64 → 0 ≤ s < 64 → 0 ≤ Z.lor x (2 ^ s) < 2 ^ 64.
Proof.
  intros Hx Hs. assert (0 ≤ Z.lor x (2 ^ s)) as H0.
  { apply Z.lor_nonneg. pose proof (pow2_pos s). lia. }
  split; [done|].
  destruct (Z.eq_dec (Z.lor x (2 ^ s)) 0) as [->|Hn]; [done|].
  apply Z.log2_lt_pow2; [lia|].
  rewrite Z.log2_lor by (pose proof (pow2_pos s); lia).
  rewrite Z.log2_pow2 by lia.
  destruct (Z.eq_dec x 0) as [->|Hx0]; [simpl; lia|].
  assert (Z.log2 x < 64) by (apply Z.log2_lt_pow2; lia). lia.
Qed.

Section scan.
Context (stages : list Z).

Let scan_step := λ '(mask, first) s,
  b ← shl1 s; Some (Z.lor mask b, if s <? first then s else first).

Lemma scan_from mask first mask' first' l :
  0 ≤ mask < 2 ^ 64 → foldM scan_step (mask, first) l = Some (mask', first') →
  stages_ok l ∧ 0 ≤ mask' < 2 ^ 64 ∧ first' = foldr Z.min first l ∧
  ∀ i, 0 ≤ i → Z.testbit mask' i = true ↔ i ∈ l ∨ Z.testbit mask i = true.
Proof.
  revert mask first. induction l as [|s l IH]; intros mask first Hm H; simpl in H.
  { simplify_eq. split_and!; [constructor|lia|lia|done|]. set_solver. }
  destruct (shl1 s) as [b|] eqn:Es; simpl in H; [|done].
  apply shl1_inv in Es as [Hs ->].
  apply IH in H as (Hl & Hb & Hf & Hbits); [|by apply lor_pow2_bound].
  split_and!; [by constructor|lia|lia| |].
  - rewrite Hf. simpl. clear. induction l as [|x l IHl]; simpl; [|lia].
    destruct (Z.ltb_spec s first); lia.
  - intros i Hi. rewrite Hbits by done. rewrite testbit_set by lia.
    rewrite orb_true_iff, Z.eqb_eq, elem_of_cons. tauto.
Qed.

Lemma scan_total l mask first :
  stages_ok l → ∃ r, foldM scan_step (mask, first) l = Some r.
Proof.
  intros Hl. revert mask first. induction Hl as [|s l Hs Hl IH]; intros; simpl; [eauto|].
  rewrite (shl1_Some s Hs). simpl. apply IH.
Qed.
End scan.

(** The constructors' loop is defined exactly on stages in [0, 64). *)
Lemma scan_stages_defined stages : is_Some (scan_stages stages) ↔ stages_ok stages.
Proof.
  split.
  - intros [[mask first] H]. by apply scan_from in H as [??].
  - intros H. by apply scan_total.
Qed.

Lemma scan_stages_spec stages mask first :
  scan_stages stages = Some (mask, first) →
  stages_ok stages ∧ 0 ≤ mask < 2 ^ 64 ∧ first = foldr Z.min 64 stages ∧
  ∀ i, 0 ≤ i → Z.testbit mask i = true ↔ i ∈ stages.
Proof.
  intros H. apply scan_from in H as (?&?&?&Hb); [|lia].
  split_and!; [done|lia|lia|done|]. intros i Hi. rewrite Hb by done.
  rewrite Z.bits_0. naive_solver.
Qed.

Lemma min_stage_elem stages :
  stages_ok stages → stages ≠ [] → foldr Z.min 64 stages ∈ stages.
Proof.
  induction 1 as [|s l Hs Hl IH]; simpl; [done|intros _].
  destruct l as [|t l]; simpl in *.
  - rewrite Z.min_l by lia. set_solver.
  - specialize (IH ltac:(done)).
    destruct (Z.min_spec s (Z.min t (foldr Z.min 64 l))) as [[_ ->]|[_ ->]]; set_solver.
Qed.

Lemma ts_at_mark r s ts i :
  length (rec_ts r) = 64%nat → 0 ≤ s < 64 → 0 ≤ i →
  ts_at (rec_mark r s ts) i = if i =? s then ts else ts_at r i.
Proof.
  intros Hl Hs Hi. unfold ts_at, rec_mark. simpl. destruct (Z.eqb_spec i s) as [->|Hne].
  - apply list_lookup_total_insert_eq. lia.
  - apply list_lookup_total_insert_ne. lia.
Qed.

Lemma rec_rel_zero : rec_rel zero_record (empty_group 0).
Proof.
  split_and!; [done|done|simpl; lia|simpl; lia|].
  intros i. simpl. rewrite lookup_empty. rewrite Z.bits_0, andb_false_r. done.
Qed.

Lemma rec_rel_reset r tid :
  length (rec_ts r) = 64%nat → rec_rel (mkRecord (rec_ts r) 0 tid) (empty_group tid).
Proof.
  intros. split_and!; [done|done|simpl; lia|simpl; lia|].
  intros i. simpl. rewrite lookup_empty, Z.bits_0, andb_false_r. done.
Qed.

Lemma rec_rel_mark r g s ts :
  rec_rel r g → 0 ≤ s < 64 → rec_rel (rec_mark r s ts) (group_add g s ts).
Proof.
  intros (Hl & Ht & Hf & Hg) Hs. unfold rec_rel.
  split_and!; simpl; [by rewrite length_insert|done|by apply lor_pow2_bound..|].
  intros i. destruct (decide (i = s)) as [->|Hne].
  - rewrite lookup_insert_eq. rewrite testbit_set by lia.
    rewrite ts_at_mark, Z.eqb_refl by (done || lia).
    destruct (Z.leb_spec 0 s), (Z.ltb_spec s 64); simpl; done || lia.
  - rewrite lookup_insert_ne by done. rewrite Hg.
    destruct (Z.leb_spec 0 i); simpl; [|done].
    rewrite testbit_set by lia. rewrite ts_at_mark by (done || lia).
    destruct (Z.eqb_spec i s); [done|]. done.
Qed.

Lemma rec_rel_lookup r g s :
  rec_rel r g → 0 ≤ s < 64 → is_Some (g_ts g !! s) → g_ts g !! s = Some (ts_at r s).
Proof.
  intros (_ & _ & _ & Hg) Hs [t Ht]. rewrite Hg in Ht |- *.
  destruct (Z.leb_spec 0 s), (Z.ltb_spec s 64); simpl in *; try lia.
  by destruct (Z.testbit (rec_filled r) s).
Qed.

(** The completeness test [(filled & mask) == mask] decides group completeness. *)
Lemma rec_complete_iff stages mask r g :
  stages_ok stages → (∀ i, 0 ≤ i → Z.testbit mask i = true ↔ i ∈ stages) →
  rec_rel r g →
  (Z.land (rec_filled r) mask =? mask) = group_complete stages g.
Proof.
  intros Hok Hm (_ & _ & _ & Hg). apply eq_true_iff_eq.
  rewrite Z.eqb_eq, land_mask_iff. unfold group_complete.
  rewrite forallb_forall. unfold stages_ok in Hok. rewrite Forall_forall in Hok.
  assert (∀ i, i ∈ stages → is_Some (g_ts g !! i) ↔ Z.testbit (rec_filled r) i = true) as Hi.
  { intros i Hin. specialize (Hok i Hin). rewrite Hg.
    destruct (Z.leb_spec 0 i), (Z.ltb_spec i 64); simpl; try lia.
    destruct (Z.testbit (rec_filled r) i); [naive_solver|].
    split; [intros [??]; done|done]. }
  split.
  - intros H s Hin%list_elem_of_In. rewrite bool_decide_eq_true.
    apply Hi; [done|]. apply H; [specialize (Hok s Hin); lia|].
    apply Hm; [specialize (Hok s Hin); lia|done].
  - intros H i H0 Hb%Hm; [|done]. apply Hi; [done|].
    specialize (H i). rewrite bool_decide_eq_true in H. apply H. by apply list_elem_of_In.
Qed.

Lemma elem_of_index_pairs_both {A} (l : list A) x y :
  (x, y) ∈ index_pairs l → x ∈ l ∧ y ∈ l.
Proof.
  rewrite elem_of_index_pairs. intros (i & j & _ & Hi & Hj).
  split; by eapply list_elem_of_lookup_2.
Qed.

(** A complete record pushes exactly its group's deltas. *)
Lemma rec_deltas_group stages r g :
  stages_ok stages → rec_rel r g → group_complete stages g = true →
  rec_deltas stages r = group_deltas stages g.
Proof.
  intros Hok Hr Hc. unfold rec_deltas, group_deltas.
  apply list_fmap_ext. intros k [from to] Hk.
  apply list_elem_of_lookup_2, elem_of_index_pairs_both in Hk as [Hf Ht].
  unfold group_complete in Hc. rewrite forallb_forall in Hc.
  unfold stages_ok in Hok. rewrite Forall_forall in Hok.
  assert (∀ s, s ∈ stages → g_ts g !! s = Some (ts_at r s)) as Hs.
  { intros s Hin. apply rec_rel_lookup; [done|by apply Hok|].
    specialize (Hc s). rewrite bool_decide_eq_true in Hc. apply Hc. by apply list_elem_of_In. }
  rewrite (Hs _ Hf), (Hs _ Ht). destruct Hr as (_ & -> & _). done.
Qed.

Lemma group_complete_lookup stages g s :
  group_complete stages g = true → s ∈ stages → is_Some (g_ts g !! s).
Proof.
  unfold group_complete. rewrite forallb_forall. intros H Hin.
  specialize (H s). rewrite bool_decide_eq_true in H. apply H. by apply list_elem_of_In.
Qed.

Lemma group_deltas_tid stages g d : d ∈ group_deltas stages g → delta_tid d = g_tid g.
Proof.
  unfold group_deltas. rewrite list_elem_of_fmap. by intros ([??] & -> & _).
Qed.

Lemma run_groups_app step g es1 es2 :
  run_groups step g (es1 ++ es2) =
  let '(g1, o1) := run_groups step g es1 in
  let '(g2, o2) := run_groups step g1 es2 in (g2, o1 ++ o2).
Proof.
  revert g. induction es1 as [|e es1 IH]; intros g; cbn [run_groups app].
  { by destruct (run_groups step g es2). }
  destruct (step g e) as [g1 o1]. rewrite IH.
  destruct (run_groups step g1 es1) as [g2 o2], (run_groups step g2 es2) as [g3 o3].
  by rewrite app_assoc.
Qed.

Lemma run_groups_ext step1 step2 g es :
  (∀ g e, e ∈ es → step1 g e = step2 g e) → run_groups step1 g es = run_groups step2 g es.
Proof.
  revert g. induction es as [|e es IH]; intros g H; [done|]. cbn [run_groups].
  rewrite H by set_solver. destruct (step2 g e). rewrite IH; [done|]. set_solver.
Qed.

(** When the events of [es] are exactly the missing stages of [g], the group
    completes at the last event, and not before. *)
Lemma record_fill stages upd after es g :
  es ≠ [] → NoDup (ev_stage <$> es) → Forall (λ e, ev_stage e ∈ stages) es →
  (∀ s, s ∈ stages → is_Some (g_ts g !! s) ↔ s ∉ ev_stage <$> es) →
  run_groups (record_step stages upd after) g es =
  (after (record_all upd g es), [record_all upd g es]).
Proof.
  revert g. induction es as [|e es IH]; intros g Hne Hnd Hin Hg; [done|].
  cbn [run_groups]. unfold record_step at 1. cbv zeta. set (g1 := mkGroup _ _).
  apply NoDup_cons in Hnd as [Hnin Hnd]. apply Forall_cons in Hin as [He Hin].
  assert (∀ s, s ∈ stages → is_Some (g_ts g1 !! s) ↔ s ∉ ev_stage <$> es) as Hg1.
  { intros s Hs. simpl. destruct (decide (s = ev_stage e)) as [->|Hns].
    - rewrite lookup_insert_eq. by split.
    - rewrite lookup_insert_ne by done. rewrite Hg by done. cbn. set_solver. }
  destruct es as [|e2 es].
  - assert (group_complete stages g1 = true) as ->; [|done].
    apply forallb_forall. intros s Hs%list_elem_of_In. apply bool_decide_eq_true.
    apply Hg1; [done|]. set_solver.
  - assert (group_complete stages g1 = false) as ->.
    { apply not_true_is_false. intros Hc.
      apply Forall_cons in Hin as [He2 _].
      pose proof (group_complete_lookup _ _ _ Hc He2) as H.
      apply Hg1 in H; [|done]. apply H. cbn. set_solver. }
    rewrite IH by done. done.
Qed.
