(* ===== verification/SeqMatcher.v ===== *)
(** [class SeqMatcher] (src/src/matcher.h, src/src/matcher.cpp): pairing the
    events of one thread.  The callbacks registered with [onComplete] run inside
    [feed] on a state [W] of the caller (histograms, FIFO queues); they may be
    undefined, so [feed] is partial. *)
From stdpp Require Import base gmap strings list.
From Stdlib Require Import ZArith Lia.
From S2P Require Import Prelude Events.

#[local] Open Scope Z_scope.

Definition TID_SLOTS : Z := 65536.

(** [tid_hash]: the slot of a thread *)
Definition tid_hash (tid : Z) : Z := tid `mod` TID_SLOTS.

Record SeqMatcher (W : Type) := mkSeq {
  seq_id : string;
  seq_stages : list Z;
  seq_stages_mask : Z;
  seq_first_stage : Z;
  seq_on_complete : list (StageSnapshot → W → option W);
  (** [slots_[TID_SLOTS]]: an absent key is a slot still zero from [memset] *)
  seq_slots : gmap Z MRecord;
  seq_pending : list Delta;
}.

Arguments mkSeq {W}.
Arguments seq_id {W}.
Arguments seq_stages {W}.
Arguments seq_stages_mask {W}.
Arguments seq_first_stage {W}.
Arguments seq_on_complete {W}.
Arguments seq_slots {W}.
Arguments seq_pending {W}.

(** The constructor. *)
Definition SeqMatcher_new {W} (id : string) (stages : list Z) : option (SeqMatcher W) :=
  '(mask, first) ← scan_stages stages;
  Some (mkSeq id stages mask first [] ∅ []).

Definition SeqMatcher_onComplete {W} (cb : StageSnapshot → W → option W)
    (m : SeqMatcher W) : SeqMatcher W :=
  mkSeq (seq_id m) (seq_stages m) (seq_stages_mask m) (seq_first_stage m)
        (seq_on_complete m ++ [cb]) (seq_slots m) (seq_pending m).

(** [hasStage]: undefined for a stage outside [0, 64) *)
Definition SeqMatcher_hasStage {W} (m : SeqMatcher W) (stage : Z) : option bool :=
  b ← shl1 stage; Some (negb (Z.land (seq_stages_mask m) b =? 0)).

Definition slot_at {W} (m : SeqMatcher W) (h : Z) : MRecord :=
  default zero_record (seq_slots m !! h).

Definition seq_set_slot {W} (m : SeqMatcher W) (h : Z) (r : MRecord) (ds : list Delta)
    : SeqMatcher W :=
  mkSeq (seq_id m) (seq_stages m) (seq_stages_mask m) (seq_first_stage m)
        (seq_on_complete m) (<[h := r]> (seq_slots m)) (seq_pending m ++ ds).

(** The snapshot handed to the callbacks: only [ts[s]] for [s] in [stages_],
    [stages] and [tid] are assigned. *)
Definition seq_snapshot {W} (m : SeqMatcher W) (slot : MRecord) : StageSnapshot :=
  mkSnap (foldr (λ s ts, <[s := ts_at slot s]> ts) ∅ (seq_stages m))
         (seq_stages_mask m) None (rec_tid slot).

(** [for (auto &cb : on_complete_) cb(snap);] *)
Definition run_callbacks {W} (cbs : list (StageSnapshot → W → option W))
    (snap : StageSnapshot) (w : W) : option W :=
  foldM (λ w cb, cb snap w) w cbs.

Definition SeqMatcher_feed {W} (m : SeqMatcher W) (e : RawEvent) (w : W)
    : option (SeqMatcher W * W) :=
  let stage := ev_stage e in
  b ← shl1 stage;
  if Z.land (seq_stages_mask m) b =? 0 then Some (m, w)
  else
    let h := tid_hash (ev_tid e) in
    let slot := slot_at m h in
    let slot := if stage =? seq_first_stage m
                then mkRecord (rec_ts slot) 0 (ev_tid e) else slot in
    let slot := rec_mark slot stage (ev_ts e) in
    if Z.land (rec_filled slot) (seq_stages_mask m) =? seq_stages_mask m then
      let ds := rec_deltas (seq_stages m) slot in
      w' ← run_callbacks (seq_on_complete m) (seq_snapshot m slot) w;
      Some (seq_set_slot m h (mkRecord (rec_ts slot) 0 (rec_tid slot)) ds, w')
    else Some (seq_set_slot m h slot [], w).

(** [drain]: moves [pending_] out and clears it *)
Definition SeqMatcher_drain {W} (m : SeqMatcher W) : list Delta * SeqMatcher W :=
  (seq_pending m,
   mkSeq (seq_id m) (seq_stages m) (seq_stages_mask m) (seq_first_stage m)
         (seq_on_complete m) (seq_slots m) []).

(** Feeding a trace of events in order. *)
Definition seq_feed_all {W} (s : SeqMatcher W * W) (es : list RawEvent)
    : option (SeqMatcher W * W) :=
  foldM (λ '(m, w) e, SeqMatcher_feed m e w) s es.

(** * Specification

    One group per slot; the first stage of the rule opens a new group, every
    stage of the rule is recorded, a complete group is emitted and cleared. *)

Definition first_of (stages : list Z) : Z := foldr Z.min 64 stages.

Definition group_step (stages : list Z) (g : Group) (e : RawEvent) : Group * list Group :=
  if bool_decide (ev_stage e ∈ stages) then
    let g := if ev_stage e =? first_of stages then empty_group (ev_tid e) else g in
    let g := group_add g (ev_stage e) (ev_ts e) in
    if group_complete stages g then (empty_group (g_tid g), [g]) else (g, [])
  else (g, []).

Definition group_run (stages : list Z) : Group → list RawEvent → Group * list Group :=
  run_groups (group_step stages).

(** All slots at once. *)
Fixpoint slots_run (stages : list Z) (gs : Z → Group) (es : list RawEvent)
    : (Z → Group) * list Group :=
  match es with
  | [] => (gs, [])
  | e :: es =>
      let h := tid_hash (ev_tid e) in
      let '(g1, o1) := group_step stages (gs h) e in
      let '(gs2, o2) := slots_run stages (λ h', if h' =? h then g1 else gs h') es in
      (gs2, o1 ++ o2)
  end.

(** The snapshot of a complete group. *)
Definition group_snapshot (stages : list Z) (mask : Z) (g : Group) : StageSnapshot :=
  mkSnap (foldr (λ s ts, <[s := default 0 (g_ts g !! s)]> ts) ∅ stages) mask None (g_tid g).

(** A matcher whose slots hold the groups [gs]. *)
Record seq_rel {W} (m : SeqMatcher W) (gs : Z → Group) : Prop := {
  sr_ok : stages_ok (seq_stages m);
  sr_mask : ∀ i, 0 ≤ i → Z.testbit (seq_stages_mask m) i = true ↔ i ∈ seq_stages m;
  sr_first : seq_first_stage m = first_of (seq_stages m);
  sr_slots : ∀ h, rec_rel (slot_at m h) (gs h);
}.

Definition seq_tid (h : Z) (d : Delta) : bool := tid_hash (delta_tid d) =? h.

(** * Lemmas *)

Lemma tid_hash_range tid : 0 ≤ tid_hash tid < TID_SLOTS.
Proof. apply Z.mod_pos_bound. done. Qed.

Section refinement.
Context {W : Type}.
Implicit Types (m : SeqMatcher W) (gs : Z → Group).

Lemma SeqMatcher_new_rel id stages m :
  SeqMatcher_new id stages = Some m →
  seq_rel m (λ _, empty_group 0) ∧ seq_pending m = [] ∧ seq_stages m = stages ∧
  seq_on_complete m = [].
Proof.
  unfold SeqMatcher_new. destruct (scan_stages stages) as [[mask first]|] eqn:E; simpl; [|done].
  intros ?; simplify_eq. apply scan_stages_spec in E as (Hok & Hm & Hf & Hb).
  split_and!; [|done..]. split; [done|done|done|].
  intros h. unfold slot_at. simpl. rewrite lookup_empty. apply rec_rel_zero.
Qed.

Lemma slot_at_set m h h' r ds :
  slot_at (seq_set_slot m h r ds) h' = if h' =? h then r else slot_at m h'.
Proof.
  unfold slot_at. simpl. destruct (Z.eqb_spec h' h) as [->|Hne].
  - by rewrite lookup_insert_eq.
  - by rewrite lookup_insert_ne.
Qed.

Lemma seq_rel_set m gs h r g ds :
  seq_rel m gs → rec_rel r g →
  seq_rel (seq_set_slot m h r ds) (λ h', if h' =? h then g else gs h').
Proof.
  intros [Ho Hm Hf Hs] Hr. split; [done..|].
  intros h'. rewrite slot_at_set. destruct (h' =? h); auto.
Qed.

Lemma snapshot_group m slot g mask :
  stages_ok (seq_stages m) → rec_rel slot g → group_complete (seq_stages m) g = true →
  seq_stages_mask m = mask →
  seq_snapshot m slot = group_snapshot (seq_stages m) mask g.
Proof.
  intros Hok Hr Hc <-. unfold seq_snapshot, group_snapshot.
  assert (∀ l, l ⊆ seq_stages m →
    foldr (λ s ts, <[s:=ts_at slot s]> ts) (∅ : gmap Z Z) l =
    foldr (λ s ts, <[s:=default 0 (g_ts g !! s)]> ts) ∅ l) as Hfold.
  { induction l as [|s l IH]; intros Hsub; simpl; [done|].
    rewrite IH by set_solver. f_equal.
    assert (s ∈ seq_stages m) as Hin by set_solver.
    rewrite (rec_rel_lookup slot g s); [done|done| |].
    - unfold stages_ok in Hok. rewrite Forall_forall in Hok. by apply Hok.
    - by eapply group_complete_lookup. }
  rewrite Hfold by done. by destruct Hr as (_ & -> & _).
Qed.

(** The step that [feed] takes is the step of the group specification. *)
Lemma feed_step m gs e w :
  seq_rel m gs → 0 ≤ ev_stage e < 64 →
  let h := tid_hash (ev_tid e) in
  let '(g', out) := group_step (seq_stages m) (gs h) e in
  ∃ m', seq_rel m' (λ h', if h' =? h then g' else gs h') ∧
    seq_stages m' = seq_stages m ∧ seq_stages_mask m' = seq_stages_mask m ∧
    seq_on_complete m' = seq_on_complete m ∧
    seq_pending m' = seq_pending m ++ flat_map (group_deltas (seq_stages m)) out ∧
    SeqMatcher_feed m e w =
      (w' ← foldM (λ w g, run_callbacks (seq_on_complete m)
               (group_snapshot (seq_stages m) (seq_stages_mask m) g) w) w out;
       Some (m', w')).
Proof.
  intros Hrel Hst h. pose proof Hrel as [Hok Hmask Hfirst Hslots].
  unfold group_step, SeqMatcher_feed. rewrite (shl1_Some _ Hst). cbn [mbind option_bind]. fold h. cbv zeta.
  assert ((Z.land (seq_stages_mask m) (2 ^ ev_stage e) =? 0) =
          negb (bool_decide (ev_stage e ∈ seq_stages m))) as ->.
  { pose proof (has_bit_testbit (seq_stages_mask m) (ev_stage e) ltac:(lia)) as Hb.
    unfold has_bit in Hb. apply (f_equal negb) in Hb. rewrite negb_involutive in Hb.
    rewrite Hb. f_equal. apply eq_true_iff_eq.
    rewrite bool_decide_eq_true, Hmask by lia. done. }
  destruct (bool_decide (ev_stage e ∈ seq_stages m)); cbn [negb].
  2: { exists m. split_and!; [|done..|by rewrite app_nil_r|done].
       split; [done..|]. intros h'. destruct (Z.eqb_spec h' h) as [->|]; apply Hslots. }
  assert (rec_rel
    (if ev_stage e =? seq_first_stage m
     then mkRecord (rec_ts (slot_at m h)) 0 (ev_tid e) else slot_at m h)
    (if ev_stage e =? first_of (seq_stages m)
     then empty_group (ev_tid e) else gs h)) as Hr0.
  { rewrite Hfirst. destruct (ev_stage e =? first_of (seq_stages m)); [|exact (Hslots h)].
    apply rec_rel_reset, (Hslots h). }
  pose proof (rec_rel_mark _ _ (ev_stage e) (ev_ts e) Hr0 Hst) as Hr1.
  revert Hr1. set (slot1 := rec_mark _ _ _). set (g1 := group_add _ _ _). intros Hr1.
  rewrite (rec_complete_iff (seq_stages m) (seq_stages_mask m) slot1 g1) by done.
  destruct (group_complete (seq_stages m) g1) eqn:Hc.
  - eexists (seq_set_slot m h (mkRecord (rec_ts slot1) 0 (rec_tid slot1)) (rec_deltas (seq_stages m) slot1)).
    assert (rec_tid slot1 = g_tid g1) as Htid by apply Hr1.
    split_and!; [|done..| |].
    + apply seq_rel_set; [done|]. rewrite Htid. apply rec_rel_reset, Hr1.
    + simpl. rewrite app_nil_r. f_equal. by apply rec_deltas_group.
    + simpl. rewrite (snapshot_group m slot1 g1 (seq_stages_mask m)) by done.
      destruct (run_callbacks _ _ w); done.
  - exists (seq_set_slot m h slot1 []). split_and!; [by apply seq_rel_set|done..].
Qed.
End refinement.

(** The whole matcher against the specification of all its slots. *)
Lemma feed_all_spec {W} (m : SeqMatcher W) gs w es :
  seq_rel m gs → Forall (λ e, 0 ≤ ev_stage e < 64) es →
  let '(gs', outs) := slots_run (seq_stages m) gs es in
  ∃ m', seq_rel m' gs' ∧
    seq_pending m' = seq_pending m ++ flat_map (group_deltas (seq_stages m)) outs ∧
    seq_feed_all (m, w) es =
      (w' ← foldM (λ w g, run_callbacks (seq_on_complete m)
               (group_snapshot (seq_stages m) (seq_stages_mask m) g) w) w outs;
       Some (m', w')).
Proof.
  revert m gs w. induction es as [|e es IH]; intros m gs w Hrel Hes; cbn [slots_run].
  { exists m. split_and!; [done|by rewrite app_nil_r|done]. }
  apply Forall_cons in Hes as [He Hes].
  pose proof (feed_step m gs e w Hrel He) as Hstep. cbv zeta in Hstep.
  destruct (group_step (seq_stages m) (gs (tid_hash (ev_tid e))) e) as [g1 o1].
  destruct Hstep as (m1 & Hrel1 & Hs1 & Hk1 & Hc1 & Hp1 & Hf1).
  set (gs1 := λ h', if h' =? tid_hash (ev_tid e) then g1 else gs h') in *.
  destruct (foldM (λ w g, run_callbacks (seq_on_complete m)
    (group_snapshot (seq_stages m) (seq_stages_mask m) g) w) w o1) as [w1|] eqn:Hw1.
  - specialize (IH m1 gs1 w1 Hrel1 Hes). rewrite Hs1, Hk1, Hc1 in IH.
    destruct (slots_run (seq_stages m) gs1 es) as [gs2 o2].
    destruct IH as (m2 & Hrel2 & Hp2 & Hf2).
    exists m2. split_and!; [done| |].
    + by rewrite Hp2, Hp1, flat_map_app, app_assoc.
    + unfold seq_feed_all in *. cbn [foldM]. rewrite Hf1. cbn. rewrite Hf2.
      rewrite foldM_app, Hw1. done.
  - specialize (IH m1 gs1 w Hrel1 Hes). rewrite Hs1, Hk1, Hc1 in IH.
    destruct (slots_run (seq_stages m) gs1 es) as [gs2 o2].
    destruct IH as (m2 & Hrel2 & Hp2 & Hf2).
    exists m2. split_and!; [done| |].
    + by rewrite Hp2, Hp1, flat_map_app, app_assoc.
    + unfold seq_feed_all in *. cbn [foldM]. rewrite Hf1. cbn.
      rewrite foldM_app, Hw1. done.
Qed.

(** A group whose first stage is recorded was opened by a thread of its slot. *)
Definition tid_inv (stages : list Z) (h : Z) (g : Group) : Prop :=
  is_Some (g_ts g !! first_of stages) → tid_hash (g_tid g) = h.

Lemma group_step_tid stages g e g' out :
  stages_ok stages → stages ≠ [] → tid_inv stages (tid_hash (ev_tid e)) g →
  group_step stages g e = (g', out) →
  tid_inv stages (tid_hash (ev_tid e)) g' ∧
  Forall (λ g, tid_hash (g_tid g) = tid_hash (ev_tid e)) out.
Proof.
  intros Hok Hne Hinv. unfold group_step.
  destruct (bool_decide (ev_stage e ∈ stages)); [|intros; simplify_eq; by split; [|constructor]].
  set (g1 := group_add _ _ _).
  assert (tid_inv stages (tid_hash (ev_tid e)) g1) as H1.
  { unfold tid_inv, g1. destruct (Z.eqb_spec (ev_stage e) (first_of stages)) as [Heq|Hneq].
    - done.
    - simpl. rewrite lookup_insert_ne by done. exact Hinv. }
  destruct (group_complete stages g1) eqn:Hc; intros ?; simplify_eq.
  - split.
    + unfold tid_inv. simpl. rewrite lookup_empty. by intros [??].
    + constructor; [|constructor]. apply H1. eapply group_complete_lookup; [done|].
      by apply min_stage_elem.
  - split; [done|constructor].
Qed.

Lemma group_complete_nil_out g e : (group_step [] g e).2 = [].
Proof. done. Qed.

(** What one slot emits in a trace of all threads is what it emits when fed only
    the events of the threads it serves. *)
Lemma slots_run_project stages gs es h :
  stages_ok stages → stages ≠ [] → (∀ h, tid_inv stages h (gs h)) →
  filter (λ g, tid_hash (g_tid g) = h) (slots_run stages gs es).2 =
  (group_run stages (gs h) (filter (λ e, tid_hash (ev_tid e) = h) es)).2.
Proof.
  intros Hok Hne. revert gs. induction es as [|e es IH]; intros gs Hinv; [done|].
  cbn [slots_run]. rewrite filter_cons.
  destruct (group_step stages (gs (tid_hash (ev_tid e))) e) as [g1 o1] eqn:Hst.
  pose proof (group_step_tid _ _ _ _ _ Hok Hne (Hinv _) Hst) as [H1 Ho1].
  set (gs1 := λ h', if h' =? tid_hash (ev_tid e) then g1 else gs h').
  assert (∀ h, tid_inv stages h (gs1 h)) as Hinv1.
  { intros h'. unfold gs1. destruct (Z.eqb_spec h' (tid_hash (ev_tid e))) as [->|]; auto. }
  specialize (IH gs1 Hinv1).
  destruct (slots_run stages gs1 es) as [gs2 o2]. cbn [snd] in *.
  rewrite filter_app, IH. case_decide as Hh.
  - unfold group_run in *. cbn [run_groups]. rewrite Hh in Hst. rewrite Hst.
    unfold gs1. rewrite Hh, Z.eqb_refl.
    destruct (run_groups (group_step stages) g1 _) as [g3 o3]. cbn [snd]. f_equal.
    apply filter_all. eapply Forall_impl; [exact Ho1|]. cbn. congruence.
  - assert (gs1 h = gs h) as ->.
    { unfold gs1. destruct (Z.eqb_spec h (tid_hash (ev_tid e))); done. }
    rewrite filter_none; [done|]. eapply Forall_impl; [exact Ho1|]. cbn. congruence.
Qed.

Lemma slots_run_nil gs es : (slots_run [] gs es).2 = [].
Proof.
  revert gs. induction es as [|e es IH]; intros gs; [done|]. cbn [slots_run].
  change (group_step [] (gs (tid_hash (ev_tid e))) e) with (gs (tid_hash (ev_tid e)), @nil Group). cbv zeta beta iota.
  match goal with |- context [slots_run [] ?f es] => specialize (IH f); revert IH; by destruct (slots_run [] f es) end.
Qed.

Lemma group_run_nil g es : (group_run [] g es).2 = [].
Proof.
  unfold group_run. induction es as [|e es IH]; [done|]. cbn [run_groups].
  change (group_step [] g e) with (g, @nil Group). cbv beta iota. revert IH.
  by destruct (run_groups (group_step []) g es).
Qed.

Lemma onComplete_fields {W} (m : SeqMatcher W) cbs :
  let m' := foldl (λ m cb, SeqMatcher_onComplete cb m) m cbs in
  seq_on_complete m' = seq_on_complete m ++ cbs ∧ seq_stages m' = seq_stages m ∧
  seq_stages_mask m' = seq_stages_mask m ∧ seq_pending m' = seq_pending m ∧
  ∀ gs, seq_rel m gs → seq_rel m' gs.
Proof.
  revert m. induction cbs as [|cb cbs IH]; intros m; cbn.
  { split_and!; [by rewrite app_nil_r|done..]. }
  destruct (IH (SeqMatcher_onComplete cb m)) as (-> & -> & -> & -> & H).
  split_and!; [|done..|].
  - simpl. by rewrite <- app_assoc.
  - intros gs [????]. apply H. by split.
Qed.

(** Taking a step with the first stage restarts the group; with another stage of
    the rule it extends it. *)
Lemma group_step_first stages g e :
  ev_stage e = first_of stages → ev_stage e ∈ stages →
  group_step stages g e =
  record_step stages (λ t _, t) (λ g, empty_group (g_tid g)) (empty_group (ev_tid e)) e.
Proof.
  intros He Hin. unfold group_step. rewrite bool_decide_true by done.
  by destruct (Z.eqb_spec (ev_stage e) (first_of stages)).
Qed.

Lemma group_step_next stages g e :
  ev_stage e ≠ first_of stages → ev_stage e ∈ stages →
  group_step stages g e = record_step stages (λ t _, t) (λ g, empty_group (g_tid g)) g e.
Proof.
  intros He Hin. unfold group_step. rewrite bool_decide_true by done.
  by destruct (Z.eqb_spec (ev_stage e) (first_of stages)).
Qed.

(** One round of a pipeline: the first stage, then every other stage once. *)
Definition is_round (stages : list Z) (r : list RawEvent) : Prop :=
  ∃ e es, r = e :: es ∧ ev_stage e = first_of stages ∧ ev_stage <$> r ≡ₚ stages.

Definition round_group (r : list RawEvent) : Group :=
  record_all (λ t _, t) (empty_group (default 0 (ev_tid <$> head r))) r.

Lemma group_run_round stages g r :
  NoDup stages → is_round stages r →
  group_run stages g r = (empty_group (g_tid (round_group r)), [round_group r]).
Proof.
  intros Hnd (e & es & -> & He & Hp).
  assert (∀ e', e' ∈ e :: es → ev_stage e' ∈ stages) as Hin.
  { intros e' H. rewrite <- Hp. by apply list_elem_of_fmap_2. }
  assert (NoDup (ev_stage <$> e :: es)) as Hnd' by by rewrite Hp.
  pose proof (record_fill stages (λ t _, t) (λ g, empty_group (g_tid g)) (e :: es)
    (empty_group (ev_tid e)) ltac:(done) Hnd') as Hfill.
  unfold round_group. change (default 0 (ev_tid <$> head (e :: es))) with (ev_tid e).
  rewrite <- Hfill.
  - unfold group_run. cbn [run_groups].
    rewrite group_step_first by (done || apply Hin; set_solver). destruct (record_step _ _ _ _ e) as [g1 o1].
    rewrite (run_groups_ext (group_step stages) (record_step stages (λ t _, t)
      (λ g, empty_group (g_tid g)))); [done|].
    intros g' e' He'. apply group_step_next; [|apply Hin; set_solver].
    apply NoDup_cons in Hnd' as [Hn _]. intros E. apply Hn. rewrite He, <- E.
    by apply list_elem_of_fmap_2.
  - apply Forall_forall. intros; by apply Hin.
  - intros s Hs. simpl. rewrite lookup_empty. split; [by intros [??]|].
    intros Hn. exfalso. apply Hn. change (s ∈ ev_stage <$> e :: es). by rewrite Hp.
Qed.

Lemma group_run_rounds stages g rs :
  NoDup stages → Forall (is_round stages) rs →
  (group_run stages g (concat rs)).2 = round_group <$> rs.
Proof.
  intros Hnd. revert g. induction rs as [|r rs IH]; intros g Hrs; [done|].
  apply Forall_cons in Hrs as [Hr Hrs]. cbn [concat]. unfold group_run.
  rewrite run_groups_app. fold (group_run stages g r). rewrite (group_run_round stages g r) by done.
  specialize (IH (empty_group (g_tid (round_group r))) Hrs). unfold group_run in IH.
  destruct (run_groups (group_step stages) _ (concat rs)). simpl in *. by rewrite IH.
Qed.

(** A fresh matcher with callbacks, against the specification. *)
Lemma feed_new_spec {W} id stages (m0 : SeqMatcher W) cbs w es :
  SeqMatcher_new id stages = Some m0 → Forall (λ e, 0 ≤ ev_stage e < 64) es →
  let m1 := foldl (λ m cb, SeqMatcher_onComplete cb m) m0 cbs in
  let outs := (slots_run stages (λ _, empty_group 0) es).2 in
  ∃ m2,
    (SeqMatcher_drain m2).1 = flat_map (group_deltas stages) outs ∧
    seq_feed_all (m1, w) es =
      (w' ← foldM (λ w g, run_callbacks cbs
               (group_snapshot stages (seq_stages_mask m0) g) w) w outs;
       Some (m2, w')).
Proof.
  intros Hnew Hes m1 outs.
  apply SeqMatcher_new_rel in Hnew as (Hrel & Hp & Hst & Hcb).
  pose proof (onComplete_fields m0 cbs) as (Hc1 & Hs1 & Hm1 & Hp1 & Hrel1). fold m1 in Hc1, Hs1, Hm1, Hp1, Hrel1.
  pose proof (feed_all_spec m1 _ w es (Hrel1 _ Hrel) Hes) as H.
  rewrite Hc1, Hs1, Hm1, Hp1, Hp, Hst, Hcb in H. unfold outs.
  destruct (slots_run stages (λ _, empty_group 0) es) as [gs2 o2].
  destruct H as (m2 & _ & Hp2 & Hf2). by exists m2.
Qed.

Lemma drain_slot {W} id stages (m0 : SeqMatcher W) cbs w es m w' h :
  SeqMatcher_new id stages = Some m0 → Forall (λ e, 0 ≤ ev_stage e < 64) es →
  seq_feed_all (foldl (λ m cb, SeqMatcher_onComplete cb m) m0 cbs, w) es = Some (m, w') →
  filter (λ d, tid_hash (delta_tid d) = h) (SeqMatcher_drain m).1 =
  flat_map (group_deltas stages)
    (group_run stages (empty_group 0) (filter (λ e, tid_hash (ev_tid e) = h) es)).2.
Proof.
  intros Hnew Hes Hf.
  assert (stages_ok stages) as Hok.
  { apply SeqMatcher_new_rel in Hnew as (Hrel & _ & <- & _). apply Hrel. }
  destruct (feed_new_spec id stages m0 cbs w es Hnew Hes) as (m2 & Hd & Hf2).
  rewrite Hf in Hf2. destruct (foldM _ w _) as [w2|]; [|done]. simpl in Hf2. simplify_eq.
  rewrite Hd. rewrite (filter_flat_map _ (λ g, tid_hash (g_tid g) = h)).
  2: { intros g. apply Forall_forall. intros d Hdg. by rewrite (group_deltas_tid stages g d Hdg). }
  destruct stages as [|s l]; [by rewrite slots_run_nil, group_run_nil|].
  f_equal. apply (slots_run_project (s :: l) (λ _, empty_group 0) es h); [done|done|].
  intros h'. unfold tid_inv. simpl. rewrite lookup_empty. by intros [??].
Qed.

(** * Properties *)

(** C24. A fresh matcher with callbacks [cbs] fed a trace: its drained deltas are those
    of the groups the specification completes, in completion order, and its
    callbacks ran on exactly these groups in that order. *)
Theorem SeqMatcher_refines {W} id stages (m0 : SeqMatcher W) cbs w es :
  SeqMatcher_new id stages = Some m0 → Forall (λ e, 0 ≤ ev_stage e < 64) es →
  let m1 := foldl (λ m cb, SeqMatcher_onComplete cb m) m0 cbs in
  let outs := (slots_run stages (λ _, empty_group 0) es).2 in
  ∃ m2,
    (SeqMatcher_drain m2).1 = flat_map (group_deltas stages) outs ∧
    seq_feed_all (m1, w) es =
      (w' ← foldM (λ w g, run_callbacks cbs
               (group_snapshot stages (seq_stages_mask m0) g) w) w outs;
       Some (m2, w')).
Proof. apply feed_new_spec. Qed.

(** Thread isolation up to the slot: the deltas of the threads of slot [h] are
    computed from the events of the threads of slot [h] alone, whatever the
    interleaving. *)
Theorem SeqMatcher_slot_isolation {W} id stages (m0 : SeqMatcher W) cbs w es m w' h :
  SeqMatcher_new id stages = Some m0 → Forall (λ e, 0 ≤ ev_stage e < 64) es →
  seq_feed_all (foldl (λ m cb, SeqMatcher_onComplete cb m) m0 cbs, w) es = Some (m, w') →
  filter (λ d, tid_hash (delta_tid d) = h) (SeqMatcher_drain m).1 =
  flat_map (group_deltas stages)
    (group_run stages (empty_group 0) (filter (λ e, tid_hash (ev_tid e) = h) es)).2.
Proof. apply drain_slot. Qed.

(** A thread that goes through the pipeline round after round gets one group of
    deltas per round, each from that round's timestamps. *)
Theorem SeqMatcher_rounds {W} id stages (m0 : SeqMatcher W) cbs w es m w' h rs :
  SeqMatcher_new id stages = Some m0 → Forall (λ e, 0 ≤ ev_stage e < 64) es →
  NoDup stages → Forall (is_round stages) rs →
  filter (λ e, tid_hash (ev_tid e) = h) es = concat rs →
  seq_feed_all (foldl (λ m cb, SeqMatcher_onComplete cb m) m0 cbs, w) es = Some (m, w') →
  filter (λ d, tid_hash (delta_tid d) = h) (SeqMatcher_drain m).1 =
  flat_map (group_deltas stages) (round_group <$> rs).
Proof.
  intros Hnew Hes Hnd Hrs Hfilt Hf.
  rewrite (drain_slot id stages m0 cbs w es m w' h Hnew Hes Hf), Hfilt.
  by rewrite group_run_rounds.
Qed.

(** Two threads whose ids are congruent modulo 65536 share a slot: the first stage
    of one and the last of the other complete a group, and a latency is reported
    that neither thread had. *)
Theorem SeqMatcher_tid_collision a b t1 t2 :
  a ≠ b → tid_hash a = tid_hash b →
  ∃ m0 m : SeqMatcher unit,
    SeqMatcher_new "flow" [0; 1] = Some m0 ∧
    seq_feed_all (m0, tt) [mkEvent t1 a 0 0; mkEvent t2 b 1 0] = Some (m, tt) ∧
    (SeqMatcher_drain m).1 = [mkDelta (u64 (t2 - t1)) 0 1 t1 t2 a] ∧
    (∀ t es, t ∈ [a; b] → es = filter (λ e, ev_tid e = t) [mkEvent t1 a 0 0; mkEvent t2 b 1 0] →
       (group_run [0; 1] (empty_group 0) es).2 = []).
Proof.
  intros Hab Hh.
  set (m0 := mkSeq (W := unit) "flow" [0; 1] 3 0 [] ∅ []).
  set (r1 := mkRecord (<[0%nat := t1]> (replicate 64 0)) 1 a).
  set (m1 := seq_set_slot m0 (tid_hash a) r1 []).
  assert (SeqMatcher_feed m0 (mkEvent t1 a 0 0) tt = Some (m1, tt)) as H1 by reflexivity.
  eexists m0, _. split; [reflexivity|]. split.
  { unfold seq_feed_all. cbn [foldM]. rewrite H1. cbn [mbind option_bind].
    unfold SeqMatcher_feed. cbn [ev_stage ev_tid ev_ts]. rewrite <- Hh.
    unfold m1. rewrite slot_at_set, Z.eqb_refl. reflexivity. }
  split; [reflexivity|]. intros t es Ht ->. rewrite !filter_cons. cbn [ev_tid].
  apply elem_of_cons in Ht as [->|Ht%list_elem_of_singleton]; subst.
  - rewrite decide_True, decide_False by done. reflexivity.
  - rewrite decide_False, decide_True by done. reflexivity.
Qed.

Lemma SeqMatcher_refines_witness :
  ∃ m0 : SeqMatcher (list Z), SeqMatcher_new "io" [0; 1; 3] = Some m0 ∧
  ∃ m2, (SeqMatcher_drain m2).1 =
    [mkDelta 5 0 1 10 15 7; mkDelta 30 0 3 10 40 7; mkDelta 25 1 3 15 40 7] ∧
    seq_feed_all (foldl (λ m cb, SeqMatcher_onComplete cb m) m0
                   [λ s w, Some (snap_tid s :: w)], [])
      [mkEvent 10 7 0 0; mkEvent 12 8 1 0; mkEvent 15 7 1 0; mkEvent 40 7 3 0] = Some (m2, [7]).
Proof.
  eexists. split; [reflexivity|].
  destruct (SeqMatcher_refines "io" [0; 1; 3] _ [λ s w, Some (snap_tid s :: w)] ([] : list Z)
    [mkEvent 10 7 0 0; mkEvent 12 8 1 0; mkEvent 15 7 1 0; mkEvent 40 7 3 0] eq_refl
    ltac:(repeat constructor; done)) as (m2 & Hd & Hf).
  exists m2. split; [rewrite Hd; vm_compute; reflexivity|]. rewrite Hf. vm_compute. reflexivity.
Defined.

Lemma SeqMatcher_slot_isolation_witness :
  ∃ (m0 m : SeqMatcher unit), SeqMatcher_new "io" [0; 1] = Some m0 ∧
  filter (λ d, tid_hash (delta_tid d) = 8) (SeqMatcher_drain m).1 = [mkDelta 4 0 1 11 15 8].
Proof.
  eexists _, _. split; [reflexivity|].
  etransitivity.
  - apply (SeqMatcher_slot_isolation "io" [0; 1] _ [] tt
      [mkEvent 10 7 0 0; mkEvent 11 8 0 0; mkEvent 12 7 1 0; mkEvent 15 8 1 0] _ tt 8 eq_refl).
    + repeat constructor; done.
    + reflexivity.
  - vm_compute. reflexivity.
Defined.

Lemma SeqMatcher_rounds_witness :
  ∃ (m0 m : SeqMatcher unit), SeqMatcher_new "io" [0; 1] = Some m0 ∧
  filter (λ d, tid_hash (delta_tid d) = 8) (SeqMatcher_drain m).1 =
    [mkDelta 4 0 1 11 15 8; mkDelta 3 0 1 20 23 8].
Proof.
  eexists _, _. split; [reflexivity|].
  etransitivity.
  - apply (SeqMatcher_rounds "io" [0; 1] _ [] tt
      [mkEvent 10 7 0 0; mkEvent 11 8 0 0; mkEvent 15 8 1 0; mkEvent 20 8 0 0; mkEvent 23 8 1 0] _ tt 8
      [[mkEvent 11 8 0 0; mkEvent 15 8 1 0]; [mkEvent 20 8 0 0; mkEvent 23 8 1 0]] eq_refl).
    + repeat constructor; done.
    + apply (bool_decide_unpack _). vm_compute. exact I.
    + repeat constructor; eexists _, _; (split; [reflexivity|]); by split.
    + reflexivity.
    + reflexivity.
  - vm_compute. reflexivity.
Defined.

Lemma SeqMatcher_tid_collision_witness :
  (1 : Z) ≠ 65537 ∧ ∃ m0 m : SeqMatcher unit,
    SeqMatcher_new "flow" [0; 1] = Some m0 ∧
    (SeqMatcher_drain m).1 = [mkDelta 900 0 1 100 1000 1].
Proof.
  split; [done|].
  destruct (SeqMatcher_tid_collision 1 65537 100 1000 ltac:(done) eq_refl)
    as (m0 & m & Hn & _ & Hd & _).
  exists m0, m. by split.
Defined.
