(* ===== verification/KeyMatcher.v ===== *)
(** [class KeyMatcher] (src/src/matcher.h, src/src/matcher.cpp): pairing events by
    request id, across threads and in any order. *)
From stdpp Require Import base gmap strings list.
From Stdlib Require Import ZArith Lia.
From S2P Require Import Prelude Events.

#[local] Open Scope Z_scope.

(** [KeyMatcher::Record] has the fields of [SeqMatcher::Record]. *)
Definition KeyRecord : Type := MRecord.

Record KeyMatcher := mkKey {
  key_id : string;
  key_stages : list Z;
  key_stages_mask : Z;
  key_first_stage : Z;
  key_records : gmap Z MRecord;
  key_pending : list Delta;
}.

(** The constructor. *)
Definition KeyMatcher_new (id : string) (stages : list Z) : option KeyMatcher :=
  '(mask, first) ← scan_stages stages;
  Some (mkKey id stages mask first ∅ []).

Definition KeyMatcher_feed (m : KeyMatcher) (e : RawEvent) : option KeyMatcher :=
  let stage := ev_stage e in
  b ← shl1 stage;
  if Z.land (key_stages_mask m) b =? 0 then Some m
  else
    (** [records_[e.key]] creates a zero record for a new key *)
    let rec := default zero_record (key_records m !! ev_key e) in
    let rec := if stage =? key_first_stage m
               then mkRecord (rec_ts rec) (rec_filled rec) (ev_tid e) else rec in
    let rec := rec_mark rec stage (ev_ts e) in
    if Z.land (rec_filled rec) (key_stages_mask m) =? key_stages_mask m then
      Some (mkKey (key_id m) (key_stages m) (key_stages_mask m) (key_first_stage m)
                  (delete (ev_key e) (<[ev_key e := rec]> (key_records m)))
                  (key_pending m ++ rec_deltas (key_stages m) rec))
    else
      Some (mkKey (key_id m) (key_stages m) (key_stages_mask m) (key_first_stage m)
                  (<[ev_key e := rec]> (key_records m)) (key_pending m)).

Definition KeyMatcher_drain (m : KeyMatcher) : list Delta * KeyMatcher :=
  (key_pending m,
   mkKey (key_id m) (key_stages m) (key_stages_mask m) (key_first_stage m) (key_records m) []).

Definition key_feed_all (m : KeyMatcher) (es : list RawEvent) : option KeyMatcher :=
  foldM KeyMatcher_feed m es.

(** * Specification: one group per key *)

(** The group belongs to the thread of its first stage's event. *)
Definition key_upd (stages : list Z) (tid : Z) (e : RawEvent) : Z :=
  if ev_stage e =? foldr Z.min 64 stages then ev_tid e else tid.

Definition key_step (stages : list Z) (g : Group) (e : RawEvent) : Group * list Group :=
  if bool_decide (ev_stage e ∈ stages)
  then record_step stages (key_upd stages) (λ _, empty_group 0) g e
  else (g, []).

Definition key_run (stages : list Z) : Group → list RawEvent → Group * list Group :=
  run_groups (key_step stages).

Fixpoint keys_run (stages : list Z) (gs : Z → Group) (es : list RawEvent)
    : (Z → Group) * list (Z * Group) :=
  match es with
  | [] => (gs, [])
  | e :: es =>
      let k := ev_key e in
      let '(g1, o1) := key_step stages (gs k) e in
      let '(gs2, o2) := keys_run stages (λ k', if k' =? k then g1 else gs k') es in
      (gs2, map (pair k) o1 ++ o2)
  end.

Definition key_rec_at (m : KeyMatcher) (k : Z) : MRecord :=
  default zero_record (key_records m !! k).

Record key_rel (m : KeyMatcher) (gs : Z → Group) : Prop := {
  kr_ok : stages_ok (key_stages m);
  kr_mask : ∀ i, 0 ≤ i → Z.testbit (key_stages_mask m) i = true ↔ i ∈ key_stages m;
  kr_first : key_first_stage m = foldr Z.min 64 (key_stages m);
  kr_recs : ∀ k, rec_rel (key_rec_at m k) (gs k);
  (** only keys with an unfinished group are stored *)
  kr_open : ∀ k, is_Some (key_records m !! k) →
            group_complete (key_stages m) (gs k) = false ∧ g_ts (gs k) ≠ ∅;
}.

(** * Lemmas *)

Lemma KeyMatcher_new_rel id stages m :
  KeyMatcher_new id stages = Some m →
  key_rel m (λ _, empty_group 0) ∧ key_pending m = [] ∧ key_stages m = stages.
Proof.
  unfold KeyMatcher_new. destruct (scan_stages stages) as [[mask first]|] eqn:E; simpl; [|done].
  intros ?; simplify_eq. apply scan_stages_spec in E as (Hok & Hm & Hf & Hb).
  split_and!; [|done..]. split; [done|done|done| |].
  - intros k. unfold key_rec_at. simpl. rewrite lookup_empty. apply rec_rel_zero.
  - intros k. simpl. rewrite lookup_empty. by intros [??].
Qed.

Lemma rec_rel_tid r g tid :
  rec_rel r g → rec_rel (mkRecord (rec_ts r) (rec_filled r) tid) (mkGroup (g_ts g) tid).
Proof. intros (H1 & H2 & H3 & H4). exact (conj H1 (conj eq_refl (conj H3 H4))). Qed.

Lemma stage_in_mask (mask stage : Z) (stages : list Z) :
  (∀ i, 0 ≤ i → Z.testbit mask i = true ↔ i ∈ stages) → 0 ≤ stage →
  (Z.land mask (2 ^ stage) =? 0) = negb (bool_decide (stage ∈ stages)).
Proof.
  intros Hmask Hst. pose proof (has_bit_testbit mask stage Hst) as Hb.
  unfold has_bit in Hb. apply (f_equal negb) in Hb. rewrite negb_involutive in Hb.
  rewrite Hb. f_equal. apply eq_true_iff_eq. rewrite bool_decide_eq_true, Hmask by lia. done.
Qed.

(** The step that [feed] takes is the step of the key's group. *)
Lemma key_feed_step m gs e :
  key_rel m gs → 0 ≤ ev_stage e < 64 →
  let k := ev_key e in
  let '(g', out) := key_step (key_stages m) (gs k) e in
  ∃ m', key_rel m' (λ k', if k' =? k then g' else gs k') ∧
    key_stages m' = key_stages m ∧
    key_pending m' = key_pending m ++ flat_map (group_deltas (key_stages m)) out ∧
    KeyMatcher_feed m e = Some m'.
Proof.
  intros Hrel Hst k. pose proof Hrel as [Hok Hmask Hfirst Hrecs Hopen].
  unfold key_step, KeyMatcher_feed. rewrite (shl1_Some _ Hst). cbn [mbind option_bind]. cbv zeta.
  rewrite (stage_in_mask _ _ _ Hmask) by lia.
  destruct (bool_decide (ev_stage e ∈ key_stages m)); cbn [negb].
  2: { exists m. split_and!; [|done|by rewrite app_nil_r|done].
       split; [done..| |]; intros k'; destruct (Z.eqb_spec k' k) as [->|]; auto. }
  fold (key_rec_at m (ev_key e)). fold k.
  assert (rec_rel
    (if ev_stage e =? key_first_stage m
     then mkRecord (rec_ts (key_rec_at m k)) (rec_filled (key_rec_at m k)) (ev_tid e)
     else key_rec_at m k)
    (mkGroup (g_ts (gs k)) (key_upd (key_stages m) (g_tid (gs k)) e))) as Hr0.
  { rewrite Hfirst. unfold key_upd. destruct (ev_stage e =? foldr Z.min 64 (key_stages m)).
    - apply rec_rel_tid, Hrecs.
    - destruct (Hrecs k) as (H1 & H2 & H3 & H4). exact (conj H1 (conj H2 (conj H3 H4))). }
  pose proof (rec_rel_mark _ _ (ev_stage e) (ev_ts e) Hr0 Hst) as Hr1.
  revert Hr1. unfold record_step. set (r1 := rec_mark _ _ _). unfold group_add. simpl g_ts.
  simpl g_tid. set (g1 := mkGroup _ _). intros Hr1.
  rewrite (rec_complete_iff (key_stages m) (key_stages_mask m) r1 g1) by done.
  destruct (group_complete (key_stages m) g1) eqn:Hc.
  - eexists. split_and!; cycle -1; [reflexivity| |done|].
    + rewrite delete_insert_eq. split; [done..| |]; intros k'; unfold key_rec_at; simpl.
      * destruct (Z.eqb_spec k' k) as [->|Hne].
        -- rewrite lookup_delete_eq. apply rec_rel_zero.
        -- rewrite lookup_delete_ne by done. apply Hrecs.
      * destruct (Z.eqb_spec k' k) as [->|Hne].
        -- rewrite lookup_delete_eq. by intros [??].
        -- rewrite lookup_delete_ne by done. apply Hopen.
    + simpl. rewrite app_nil_r. f_equal. by apply rec_deltas_group.
  - eexists. split_and!; cycle -1; [reflexivity| |done|by rewrite app_nil_r].
    split; [done..| |]; intros k'; unfold key_rec_at; simpl.
    + destruct (Z.eqb_spec k' k) as [->|Hne].
      * by rewrite lookup_insert_eq.
      * rewrite lookup_insert_ne by done. apply Hrecs.
    + destruct (Z.eqb_spec k' k) as [->|Hne].
      * intros _. split; [done|]. apply insert_non_empty.
      * rewrite lookup_insert_ne by done. apply Hopen.
Qed.

Lemma key_feed_all_spec m gs es :
  key_rel m gs → Forall (λ e, 0 ≤ ev_stage e < 64) es →
  let '(gs', outs) := keys_run (key_stages m) gs es in
  ∃ m', key_rel m' gs' ∧
    key_pending m' = key_pending m ++ flat_map (group_deltas (key_stages m)) outs.*2 ∧
    key_feed_all m es = Some m'.
Proof.
  revert m gs. induction es as [|e es IH]; intros m gs Hrel Hes; cbn [keys_run].
  { exists m. split_and!; [done|by rewrite app_nil_r|done]. }
  apply Forall_cons in Hes as [He Hes].
  pose proof (key_feed_step m gs e Hrel He) as Hstep. cbv zeta in Hstep.
  destruct (key_step (key_stages m) (gs (ev_key e)) e) as [g1 o1].
  destruct Hstep as (m1 & Hrel1 & Hs1 & Hp1 & Hf1).
  set (gs1 := λ k', if k' =? ev_key e then g1 else gs k') in *.
  specialize (IH m1 gs1 Hrel1 Hes). rewrite Hs1 in IH.
  destruct (keys_run (key_stages m) gs1 es) as [gs2 o2].
  destruct IH as (m2 & Hrel2 & Hp2 & Hf2).
  exists m2. split_and!; [done| |].
  - rewrite Hp2, Hp1, fmap_app, flat_map_app, app_assoc. do 3 f_equal.
    rewrite <- list_fmap_compose. symmetry. apply list_fmap_id.
  - unfold key_feed_all in *. cbn [foldM]. rewrite Hf1. exact Hf2.
Qed.

(** What one key emits depends on that key's events alone. *)
Lemma keys_run_project stages gs es k :
  (filter (λ p, p.1 = k) (keys_run stages gs es).2).*2 =
  (key_run stages (gs k) (filter (λ e, ev_key e = k) es)).2.
Proof.
  revert gs. induction es as [|e es IH]; intros gs; [done|]. cbn [keys_run].
  destruct (key_step stages (gs (ev_key e)) e) as [g1 o1] eqn:Hst.
  set (gs1 := λ k', if k' =? ev_key e then g1 else gs k'). specialize (IH gs1).
  destruct (keys_run stages gs1 es) as [gs2 o2]. cbn [snd] in *.
  rewrite filter_app, fmap_app, IH, filter_cons. case_decide as Hk.
  - subst k. unfold key_run. cbn [run_groups]. rewrite Hst. unfold gs1. rewrite Z.eqb_refl.
    destruct (run_groups (key_step stages) g1 _) as [g3 o3]. cbn [snd]. f_equal.
    rewrite filter_all by (apply Forall_forall; intros p (?&->&?)%list_elem_of_fmap; done).
    rewrite <- list_fmap_compose. apply list_fmap_id.
  - assert (gs1 k = gs k) as ->.
    { unfold gs1. destruct (Z.eqb_spec k (ev_key e)); done. }
    rewrite filter_none; [done|].
    apply Forall_forall. intros p (?&->&?)%list_elem_of_fmap. done.
Qed.

(** The timestamps and thread of a group recorded from [es]. *)
Lemma record_all_ts upd g es s :
  g_ts (record_all upd g es) !! s =
  match find (λ e, ev_stage e =? s) (reverse es) with
  | Some e => Some (ev_ts e) | None => g_ts g !! s end.
Proof.
  induction es as [|e es IH] using rev_ind; [done|].
  unfold record_all in *. rewrite foldl_app, reverse_app. cbn.
  destruct (Z.eqb_spec (ev_stage e) s) as [<-|Hne].
  - by rewrite lookup_insert_eq.
  - by rewrite lookup_insert_ne.
Qed.

Lemma record_all_key_tid stages g es :
  g_tid (record_all (key_upd stages) g es) =
  match find (λ e, ev_stage e =? foldr Z.min 64 stages) (reverse es) with
  | Some e => ev_tid e | None => g_tid g end.
Proof.
  induction es as [|e es IH] using rev_ind; [done|].
  unfold record_all in *. rewrite foldl_app, reverse_app. cbn. unfold key_upd at 1.
  by destruct (ev_stage e =? foldr Z.min 64 stages).
Qed.

Lemma find_unique_perm es1 es2 s :
  es1 ≡ₚ es2 → NoDup (ev_stage <$> es1) →
  find (λ e, ev_stage e =? s) es1 = find (λ e, ev_stage e =? s) es2.
Proof.
  induction 1 as [|e l1 l2 Hp IH|e1 e2 l|l1 l2 l3 Hp1 IH1 Hp2 IH2]; intros Hnd; [done| | |].
  - cbn. apply NoDup_cons in Hnd as [_ Hnd]. by rewrite IH.
  - cbn. apply NoDup_cons in Hnd as [Hn _].
    destruct (Z.eqb_spec (ev_stage e1) s), (Z.eqb_spec (ev_stage e2) s); try done.
    exfalso. apply Hn. subst. cbn. rewrite elem_of_cons. left. congruence.
  - rewrite IH1 by done. apply IH2. by rewrite <- Hp1.
Qed.

(** A request whose events have each stage once, in any order and from any
    threads, completes once, with a group that does not depend on the order. *)
Lemma key_run_request stages es :
  NoDup stages → stages ≠ [] → ev_stage <$> es ≡ₚ stages →
  (key_run stages (empty_group 0) es).2 = [record_all (key_upd stages) (empty_group 0) es].
Proof.
  intros Hnd Hne Hp.
  assert (∀ e, e ∈ es → ev_stage e ∈ stages) as Hin.
  { intros e He. rewrite <- Hp. by apply list_elem_of_fmap_2. }
  unfold key_run. rewrite (run_groups_ext _ (record_step stages (key_upd stages) (λ _, empty_group 0))).
  2: { intros g e He. unfold key_step. rewrite bool_decide_true by auto. done. }
  rewrite record_fill; [done| | | |].
  - intros ->. by apply Permutation_nil_l in Hp.
  - by rewrite Hp.
  - by apply Forall_forall.
  - intros s Hs. simpl. rewrite lookup_empty, Hp. split; [by intros [??]|done].
Qed.

Lemma record_all_perm stages es1 es2 :
  es1 ≡ₚ es2 → NoDup (ev_stage <$> es1) →
  record_all (key_upd stages) (empty_group 0) es1 = record_all (key_upd stages) (empty_group 0) es2.
Proof.
  intros Hp Hnd.
  assert (reverse es1 ≡ₚ reverse es2) as Hrp by by rewrite !reverse_Permutation.
  assert (NoDup (ev_stage <$> reverse es1)) as Hrnd.
  { rewrite reverse_Permutation. done. }
  set (a := record_all _ _ es1) at 1. set (b := record_all _ _ es2).
  assert (g_ts a = g_ts b) as H1.
  { apply map_eq. intros s. unfold a, b. rewrite !record_all_ts.
    by rewrite (find_unique_perm _ _ s Hrp Hrnd). }
  assert (g_tid a = g_tid b) as H2.
  { unfold a, b. rewrite !record_all_key_tid.
    by rewrite (find_unique_perm _ _ _ Hrp Hrnd). }
  destruct a, b. simpl in *. by subst.
Qed.

Lemma keys_run_group stages gs es k :
  (keys_run stages gs es).1 k = (key_run stages (gs k) (filter (λ e, ev_key e = k) es)).1.
Proof.
  revert gs. induction es as [|e es IH]; intros gs; [done|]. cbn [keys_run].
  destruct (key_step stages (gs (ev_key e)) e) as [g1 o1] eqn:Hst.
  set (gs1 := λ k', if k' =? ev_key e then g1 else gs k'). specialize (IH gs1).
  destruct (keys_run stages gs1 es) as [gs2 o2]. cbn [fst] in *.
  rewrite IH, filter_cons. unfold gs1. case_decide as Hk.
  - subst k. rewrite Z.eqb_refl. unfold key_run. cbn [run_groups]. rewrite Hst.
    by destruct (run_groups (key_step stages) g1 _).
  - by destruct (Z.eqb_spec k (ev_key e)).
Qed.

(** A fresh matcher fed a trace, key by key. *)
Lemma key_feed_new id stages m0 es :
  KeyMatcher_new id stages = Some m0 → Forall (λ e, 0 ≤ ev_stage e < 64) es →
  ∃ m outs, key_feed_all m0 es = Some m ∧
    (KeyMatcher_drain m).1 = flat_map (group_deltas stages) outs.*2 ∧
    ∀ k, let '(g, out) := key_run stages (empty_group 0) (filter (λ e, ev_key e = k) es) in
      (filter (λ p, p.1 = k) outs).*2 = out ∧
      (is_Some (key_records m !! k) → group_complete stages g = false ∧ g_ts g ≠ ∅).
Proof.
  intros Hnew Hes. apply KeyMatcher_new_rel in Hnew as (Hrel & Hp & Hst).
  pose proof (key_feed_all_spec m0 _ es Hrel Hes) as H. rewrite Hst, Hp in H.
  pose proof (keys_run_project stages (λ _, empty_group 0) es) as Hproj.
  pose proof (keys_run_group stages (λ _, empty_group 0) es) as Hgrp.
  destruct (keys_run stages (λ _, empty_group 0) es) as [gs outs].
  destruct H as (m & Hm & Hd & Hf). exists m, outs. split_and!; [done|done|].
  intros k. specialize (Hproj k). specialize (Hgrp k). cbn [fst snd] in *.
  destruct (key_run stages (empty_group 0) (filter (λ e, ev_key e = k) es)) as [g out] eqn:E.
  split; [exact Hproj|]. intros Hk. apply (kr_open _ _ Hm) in Hk.
  cbn [fst] in Hgrp. rewrite Hgrp in Hk.
  assert (key_stages m = stages) as Hsm; [|by rewrite Hsm in Hk].
  clear -Hf Hst. rewrite <- Hst. clear Hst. revert m0 Hf.
  induction es as [|e es IH]; intros m0 Hf; cbn in Hf; [by simplify_eq|].
  destruct (KeyMatcher_feed m0 e) as [m1|] eqn:E; [|done]. rewrite (IH m1 Hf).
  unfold KeyMatcher_feed in E. destruct (shl1 _); [|done]. cbn in E.
  by repeat case_match; simplify_eq.
Qed.

(** * Properties *)

(** C25. Key isolation: the deltas a matcher emits are, key by key, those of the groups
    of that key's events alone, whatever the threads and the interleaving with
    other keys; and a record stays allocated only for a key with an unfinished
    group. *)
Theorem KeyMatcher_refines id stages m0 es :
  KeyMatcher_new id stages = Some m0 → Forall (λ e, 0 ≤ ev_stage e < 64) es →
  ∃ m outs, key_feed_all m0 es = Some m ∧
    (KeyMatcher_drain m).1 = flat_map (group_deltas stages) outs.*2 ∧
    ∀ k, let '(g, out) := key_run stages (empty_group 0) (filter (λ e, ev_key e = k) es) in
      (filter (λ p, p.1 = k) outs).*2 = out ∧
      (is_Some (key_records m !! k) → group_complete stages g = false ∧ g_ts g ≠ ∅).
Proof. apply key_feed_new. Qed.

(** Order independence: a request whose events carry each stage once is matched to
    exactly one group, the same one in whatever order its events arrive, holding
    every event's timestamp and the thread of the first stage's event; and no
    record of it is left. *)
Theorem KeyMatcher_order_independent id stages m0 k es1 es2 :
  KeyMatcher_new id stages = Some m0 →
  Forall (λ e, 0 ≤ ev_stage e < 64) es1 → Forall (λ e, 0 ≤ ev_stage e < 64) es2 →
  NoDup stages → stages ≠ [] →
  let r1 := filter (λ e, ev_key e = k) es1 in
  let r2 := filter (λ e, ev_key e = k) es2 in
  r1 ≡ₚ r2 → ev_stage <$> r1 ≡ₚ stages →
  ∃ m1 m2 outs1 outs2 g,
    key_feed_all m0 es1 = Some m1 ∧ (KeyMatcher_drain m1).1 = flat_map (group_deltas stages) outs1.*2 ∧
    key_feed_all m0 es2 = Some m2 ∧ (KeyMatcher_drain m2).1 = flat_map (group_deltas stages) outs2.*2 ∧
    (filter (λ p, p.1 = k) outs1).*2 = [g] ∧ (filter (λ p, p.1 = k) outs2).*2 = [g] ∧
    (∀ e, e ∈ r1 → g_ts g !! ev_stage e = Some (ev_ts e)) ∧
    (∀ e, e ∈ r1 → ev_stage e = foldr Z.min 64 stages → g_tid g = ev_tid e).
Proof.
  intros Hnew He1 He2 Hnd Hne r1 r2 Hp Hst.
  destruct (key_feed_new id stages m0 es1 Hnew He1) as (m1 & outs1 & Hf1 & Hd1 & Hk1).
  destruct (key_feed_new id stages m0 es2 Hnew He2) as (m2 & outs2 & Hf2 & Hd2 & Hk2).
  specialize (Hk1 k). specialize (Hk2 k). fold r1 in Hk1. fold r2 in Hk2.
  assert (ev_stage <$> r2 ≡ₚ stages) as Hst2 by by rewrite <- Hp.
  pose proof (key_run_request stages r1 Hnd Hne Hst) as H1.
  pose proof (key_run_request stages r2 Hnd Hne Hst2) as H2.
  assert (NoDup (ev_stage <$> r1)) as Hnd1 by by rewrite Hst.
  rewrite <- (record_all_perm stages r1 r2 Hp Hnd1) in H2.
  destruct (key_run stages (empty_group 0) r1) as [g1 o1], (key_run stages (empty_group 0) r2) as [g2 o2].
  simpl in H1, H2. subst o1 o2.
  exists m1, m2, outs1, outs2, (record_all (key_upd stages) (empty_group 0) r1).
  assert (∀ e, e ∈ r1 → find (λ e', ev_stage e' =? ev_stage e) (reverse r1) = Some e) as Hfind.
  { intros e He. rewrite (find_unique_perm (reverse r1) r1) by (rewrite ?reverse_Permutation; done).
    clear -He Hnd1. induction r1 as [|a l IH]; [set_solver|].
    cbn in *. apply NoDup_cons in Hnd1 as [Hn Hnd1].
    apply elem_of_cons in He as [->|He]; [by rewrite Z.eqb_refl|].
    destruct (Z.eqb_spec (ev_stage a) (ev_stage e)) as [E|_]; [|auto].
    exfalso. apply Hn. rewrite E. by apply list_elem_of_fmap_2. }
  split_and!; [done..|apply Hk1|apply Hk2| |].
  - intros e He. by rewrite record_all_ts, Hfind.
  - intros e He Hfst. rewrite record_all_key_tid, <- Hfst, Hfind; done.
Qed.

Lemma KeyMatcher_refines_witness :
  ∃ m0 m, KeyMatcher_new "k" [0; 1; 2] = Some m0 ∧
  key_feed_all m0 [mkEvent 10 3 0 77; mkEvent 11 4 0 78; mkEvent 12 5 1 77; mkEvent 15 4 2 77] = Some m ∧
  (KeyMatcher_drain m).1 = [mkDelta 2 0 1 10 12 3; mkDelta 5 0 2 10 15 3; mkDelta 3 1 2 12 15 3] ∧
  key_records m !! 77 = None ∧ is_Some (key_records m !! 78) ∧
  (∃ outs : list (Z * Group), (KeyMatcher_drain m).1 = flat_map (group_deltas [0; 1; 2]) outs.*2).
Proof.
  destruct (KeyMatcher_refines "k" [0; 1; 2] _
    [mkEvent 10 3 0 77; mkEvent 11 4 0 78; mkEvent 12 5 1 77; mkEvent 15 4 2 77] eq_refl
    ltac:(repeat constructor; done)) as (m & outs & Hf & Hd & _).
  eexists _, m. split; [reflexivity|]. split; [exact Hf|].
  vm_compute in Hf. injection Hf as <-.
  split; [vm_compute; reflexivity|]. split; [vm_compute; reflexivity|].
  split; [eexists; vm_compute; reflexivity|]. by exists outs.
Defined.

Lemma KeyMatcher_order_independent_witness :
  ∃ m0 m1 m2 outs1 outs2 g, KeyMatcher_new "k" [0; 1] = Some m0 ∧
    key_feed_all m0 [mkEvent 10 3 0 77; mkEvent 12 5 1 77] = Some m1 ∧
    (KeyMatcher_drain m1).1 = flat_map (group_deltas [0; 1]) outs1.*2 ∧
    key_feed_all m0 [mkEvent 12 5 1 77; mkEvent 11 4 0 78; mkEvent 10 3 0 77] = Some m2 ∧
    (KeyMatcher_drain m2).1 = flat_map (group_deltas [0; 1]) outs2.*2 ∧
    (filter (λ p, p.1 = 77) outs1).*2 = [g] ∧ (filter (λ p, p.1 = 77) outs2).*2 = [g].
Proof.
  destruct (KeyMatcher_order_independent "k" [0; 1] _ 77
    [mkEvent 10 3 0 77; mkEvent 12 5 1 77]
    [mkEvent 12 5 1 77; mkEvent 11 4 0 78; mkEvent 10 3 0 77] eq_refl
    ltac:(repeat constructor; done) ltac:(repeat constructor; done)
    ltac:(apply (bool_decide_unpack _); vm_compute; exact I) ltac:(done)
    ltac:(apply Permutation_swap) ltac:(reflexivity))
    as (m1 & m2 & outs1 & outs2 & g & ? & ? & ? & ? & ? & ? & _).
  eexists _, m1, m2, outs1, outs2, g. split; [reflexivity|]. by split_and!.
Defined.
