(* ===== verification/FifoQueue.v ===== *)
(** [class FifoQueue] (src/src/matcher.h, src/src/matcher.cpp): the bounded queue
    that carries a timestamp from the thread that pushes to the thread that pops.
    [head_], [tail_] and [capacity_] are C [int]s; a push past [INT_MAX] or on a
    zero capacity is undefined, and a negative capacity makes [new] throw. *)
From stdpp Require Import base strings list.
From Stdlib Require Import ZArith Lia.
From S2P Require Import Prelude.

#[local] Open Scope Z_scope.

Record FifoQueue := mkFifo {
  fifo_id : string;
  fifo_capacity : Z;
  fifo_head : Z;
  fifo_tail : Z;
  (** [queue_]: [None] is an element [new uint64_t[]] left uninitialised *)
  fifo_queue : list (option Z);
}.

Definition FifoQueue_new (id : string) (capacity : Z) : option FifoQueue :=
  if capacity <? 0 then None
  else Some (mkFifo id capacity 0 0 (replicate (Z.to_nat capacity) None)).

Definition FifoQueue_push (f : FifoQueue) (stage ts : Z) : option FifoQueue :=
  let capacity := fifo_capacity f in
  if (fifo_tail f =? INT_MAX) || (capacity =? 0) then None
  else
    let slot := u32 (Z.rem (fifo_tail f) capacity) in
    let tail := fifo_tail f + 1 in
    let head := if tail - fifo_head f >? capacity then tail - capacity else fifo_head f in
    Some (mkFifo (fifo_id f) capacity head tail (<[Z.to_nat slot := Some ts]> (fifo_queue f))).

(** The result: [None] when [pop] returns false, [Some ts] when it returns true.
    The outer [option] is undefined behaviour: division by zero or reading an
    uninitialised element. *)
Definition FifoQueue_pop (f : FifoQueue) (stage : Z) : option (FifoQueue * option Z) :=
  if fifo_head f >=? fifo_tail f then Some (f, None)
  else if fifo_capacity f =? 0 then None
  else
    let slot := u32 (Z.rem (fifo_head f) (fifo_capacity f)) in
    ts ← mjoin (fifo_queue f !! Z.to_nat slot);
    Some (mkFifo (fifo_id f) (fifo_capacity f) (fifo_head f + 1) (fifo_tail f) (fifo_queue f),
          Some ts).

(** A sequence of calls. *)
Inductive fifo_op := Push (ts : Z) | Pop.

Definition fifo_step (s : FifoQueue * list (option Z)) (op : fifo_op)
    : option (FifoQueue * list (option Z)) :=
  let '(f, res) := s in
  match op with
  | Push ts => f ← FifoQueue_push f 0 ts; Some (f, res)
  | Pop => '(f, r) ← FifoQueue_pop f 0; Some (f, res ++ [r])
  end.

Definition fifo_run (f : FifoQueue) (ops : list fifo_op) : option (FifoQueue * list (option Z)) :=
  foldM fifo_step (f, []) ops.

(** * Specification: a queue that drops its oldest element when full *)

Definition queue_push (cap : nat) (l : list Z) (ts : Z) : list Z :=
  drop (S (length l) - cap) (l ++ [ts]).

Fixpoint queue_run (cap : nat) (l : list Z) (ops : list fifo_op) : list Z * list (option Z) :=
  match ops with
  | [] => (l, [])
  | Push ts :: ops => queue_run cap (queue_push cap l ts) ops
  | Pop :: ops =>
      match l with
      | [] => let '(l', r) := queue_run cap [] ops in (l', None :: r)
      | x :: l => let '(l', r) := queue_run cap l ops in (l', Some x :: r)
      end
  end.

Definition pushes (ops : list fifo_op) : list Z :=
  omap (λ op, match op with Push ts => Some ts | Pop => None end) ops.

(** The number of elements waiting never exceeds [cap]. *)
Fixpoint never_full (cap n : nat) (ops : list fifo_op) : Prop :=
  match ops with
  | [] => True
  | Push _ :: ops => (n < cap)%nat ∧ never_full cap (S n) ops
  | Pop :: ops => never_full cap (n - 1) ops
  end.

Record fifo_rel (f : FifoQueue) (l : list Z) : Prop := {
  fr_cap : 0 < fifo_capacity f ≤ INT_MAX;
  fr_len : length (fifo_queue f) = Z.to_nat (fifo_capacity f);
  fr_head : 0 ≤ fifo_head f;
  fr_tail : fifo_tail f = fifo_head f + Z.of_nat (length l);
  fr_max : fifo_tail f ≤ INT_MAX;
  fr_bound : Z.of_nat (length l) ≤ fifo_capacity f;
  fr_elems : ∀ i x, l !! i = Some x →
    fifo_queue f !! Z.to_nat ((fifo_head f + Z.of_nat i) `mod` fifo_capacity f) = Some (Some x);
}.

(** * Lemmas *)

Lemma pushes_push ts ops : length (pushes (Push ts :: ops)) = S (length (pushes ops)).
Proof. done. Qed.

Lemma pushes_pop ops : length (pushes (Pop :: ops)) = length (pushes ops).
Proof. done. Qed.

Lemma slot_small x cap : 0 ≤ x → 0 < cap ≤ INT_MAX → u32 (Z.rem x cap) = x `mod` cap.
Proof.
  intros Hx Hc. rewrite Z.rem_mod_nonneg by lia. apply wrap_small.
  pose proof (Z.mod_pos_bound x cap ltac:(lia)). unfold in_u, INT_MAX in *. lia.
Qed.

(** Two positions closer than the capacity share a slot only if equal. *)
Lemma mod_inj_window a b cap :
  0 < cap → 0 ≤ a → 0 ≤ b → Z.abs (a - b) < cap → a `mod` cap = b `mod` cap → a = b.
Proof.
  intros Hc Ha Hb Hab Hm.
  pose proof (Z.div_mod a cap ltac:(lia)). pose proof (Z.div_mod b cap ltac:(lia)).
  assert (a / cap = b / cap) by nia. nia.
Qed.

Lemma FifoQueue_new_rel name cap f :
  0 < cap ≤ INT_MAX → FifoQueue_new name cap = Some f → fifo_rel f [] ∧ fifo_capacity f = cap ∧ fifo_tail f = 0.
Proof.
  intros Hc. unfold FifoQueue_new. destruct (Z.ltb_spec cap 0); [done|]. intros ?; simplify_eq.
  assert (0 ≤ INT_MAX) by done.
  split; [|done]. split; simpl; try lia; [by rewrite length_replicate|].
  intros i x Hx. by rewrite lookup_nil in Hx.
Qed.

Lemma push_rel f l ts :
  fifo_rel f l → fifo_tail f < INT_MAX →
  ∃ f', FifoQueue_push f 0 ts = Some f' ∧
    fifo_rel f' (queue_push (Z.to_nat (fifo_capacity f)) l ts) ∧
    fifo_capacity f' = fifo_capacity f ∧ fifo_tail f' = fifo_tail f + 1.
Proof.
  intros [Hc Hlen Hh Ht Hm Hb He] Hlt. unfold FifoQueue_push, queue_push.
  destruct (Z.eqb_spec (fifo_tail f) INT_MAX), (Z.eqb_spec (fifo_capacity f) 0); try lia.
  simpl orb. cbv iota. rewrite slot_small by lia.
  set (cap := fifo_capacity f) in *. set (d := (S (length l) - Z.to_nat cap)%nat).
  eexists. split; [reflexivity|]. split; [|done].
  assert ((fifo_tail f + 1 - fifo_head f >? cap) = (Z.of_nat (length l) + 1 >? cap)) as ->.
  { apply eq_true_iff_eq. rewrite !Z.gtb_lt. lia. }
  set (h := if _ >? _ then _ else _).
  assert (h = fifo_head f + Z.of_nat d) as Hhd.
  { unfold h, d. destruct (Z.gtb_spec (Z.of_nat (length l) + 1) cap); lia. }
  assert (d ≤ length l)%nat as Hd by (unfold d; lia).
  split; simpl; try lia.
  - by rewrite length_insert.
  - rewrite length_drop, length_app. simpl. lia.
  - rewrite length_drop, length_app. simpl. lia.
  - intros i x Hx. rewrite lookup_drop in Hx. rewrite Hhd.
    replace (fifo_head f + Z.of_nat d + Z.of_nat i) with (fifo_head f + Z.of_nat (d + i)) by lia.
    assert (0 ≤ fifo_tail f `mod` cap < cap) by (apply Z.mod_pos_bound; lia).
    assert (0 ≤ (fifo_head f + Z.of_nat (d + i)) `mod` cap < cap) by (apply Z.mod_pos_bound; lia).
    destruct (decide (d + i = length l)%nat) as [E|Hne].
    + rewrite lookup_app_r in Hx by lia. rewrite E, Nat.sub_diag in Hx. simplify_eq/=.
      rewrite E, <- Ht. apply list_lookup_insert_eq. lia.
    + assert (d + i < length l)%nat as Hlt'.
      { apply lookup_lt_Some in Hx. rewrite length_app in Hx. simpl in Hx. lia. }
      rewrite lookup_app_l in Hx by done. rewrite list_lookup_insert_ne; [by apply He|].
      intros Heq. apply Z2Nat.inj in Heq; [|lia..].
      apply mod_inj_window in Heq; [lia|lia|lia|lia|]. unfold d in *. lia.
Qed.

Lemma pop_rel f l :
  fifo_rel f l →
  ∃ f', FifoQueue_pop f 0 = Some (f', head l) ∧ fifo_rel f' (tail l) ∧
    fifo_capacity f' = fifo_capacity f ∧ fifo_tail f' = fifo_tail f.
Proof.
  intros Hrel. pose proof Hrel as [Hc Hlen Hh Ht Hm Hb He]. unfold FifoQueue_pop.
  destruct l as [|x l]; simpl in *.
  - assert ((fifo_head f >=? fifo_tail f) = true) as -> by lia. eauto.
  - assert ((fifo_head f >=? fifo_tail f) = false) as -> by lia.
    destruct (Z.eqb_spec (fifo_capacity f) 0); [lia|].
    rewrite slot_small by lia. pose proof (He 0%nat x eq_refl) as H0.
    rewrite Z.add_0_r in H0. rewrite H0. cbn. eexists. split; [reflexivity|].
    split; [|done]. split; simpl; try lia.
    intros i y Hy. specialize (He (S i) y Hy). rewrite <- He. do 3 f_equal. lia.
Qed.

Lemma fifo_run_app_res f res ops :
  foldM fifo_step (f, res) ops = '(f', r) ← fifo_run f ops; Some (f', res ++ r).
Proof.
  unfold fifo_run. revert f res. induction ops as [|op ops IH]; intros f res; cbn.
  { by rewrite app_nil_r. }
  destruct op as [ts|]; cbn.
  - destruct (FifoQueue_push f 0 ts); cbn; [apply IH|done].
  - destruct (FifoQueue_pop f 0) as [[f' r]|]; cbn; [|done].
    rewrite IH, (IH _ [r]). destruct (foldM fifo_step (f', []) ops) as [[f2 r2]|]; cbn; [|done].
    by rewrite <- app_assoc.
Qed.

Lemma run_rel f l ops :
  fifo_rel f l → fifo_tail f + Z.of_nat (length (pushes ops)) ≤ INT_MAX →
  let '(l', res) := queue_run (Z.to_nat (fifo_capacity f)) l ops in
  ∃ f', fifo_run f ops = Some (f', res) ∧ fifo_rel f' l'.
Proof.
  revert f l. induction ops as [|op ops IH]; intros f l Hrel Hmax; cbn [queue_run].
  { by exists f. }
  destruct op as [ts|]; unfold fifo_run in *; cbn [foldM fifo_step].
  - rewrite pushes_push in Hmax. destruct (push_rel f l ts Hrel) as (f' & -> & Hr' & Hc & Ht); [lia|].
    specialize (IH f' _ Hr'). rewrite Hc in IH. cbn.
    apply IH. lia.
  - rewrite pushes_pop in Hmax. destruct (pop_rel f l Hrel) as (f' & -> & Hr' & Hc & Ht).
    specialize (IH f' _ Hr'). rewrite Hc, Ht in IH. specialize (IH Hmax). cbn.
    destruct l as [|x l]; cbn in *.
    + destruct (queue_run _ [] ops) as [l' r]. destruct IH as (f2 & Hf2 & Hr2).
      exists f2. split; [|done]. rewrite fifo_run_app_res. unfold fifo_run. by rewrite Hf2.
    + destruct (queue_run _ l ops) as [l' r]. destruct IH as (f2 & Hf2 & Hr2).
      exists f2. split; [|done]. rewrite fifo_run_app_res. unfold fifo_run. by rewrite Hf2.
Qed.

(** The run is undefined as soon as the pushes exceed [INT_MAX]. *)
Lemma run_overflow f l ops :
  fifo_rel f l → INT_MAX < fifo_tail f + Z.of_nat (length (pushes ops)) → fifo_run f ops = None.
Proof.
  revert f l. induction ops as [|op ops IH]; intros f l Hrel Hmax.
  { cbn in Hmax. destruct Hrel. lia. }
  destruct op as [ts|]; unfold fifo_run in *; cbn [foldM fifo_step].
  - rewrite pushes_push in Hmax. destruct (Z.eq_dec (fifo_tail f) INT_MAX) as [E|Hne].
    + unfold FifoQueue_push. by rewrite E, Z.eqb_refl.
    + pose proof Hrel as [_ _ _ _ Hm _ _].
      destruct (push_rel f l ts Hrel) as (f' & -> & Hr' & _ & Ht); [lia|].
      cbn. eapply IH; [done|]. lia.
  - rewrite pushes_pop in Hmax. destruct (pop_rel f l Hrel) as (f' & -> & Hr' & _ & Ht). cbn.
    rewrite fifo_run_app_res. unfold fifo_run. rewrite (IH f' _ Hr'); [done|lia].
Qed.

Lemma queue_run_prefix cap l ops :
  never_full cap (length l) ops →
  let '(l', res) := queue_run cap l ops in omap id res ++ l' = l ++ pushes ops.
Proof.
  revert l. induction ops as [|op ops IH]; intros l H; cbn; [by rewrite app_nil_r|].
  destruct op as [ts|]; cbn in H.
  - destruct H as [Hn H]. unfold queue_push.
    replace (S (length l) - cap)%nat with 0%nat by lia. rewrite drop_0.
    specialize (IH (l ++ [ts])). rewrite length_app, Nat.add_1_r in IH. specialize (IH H).
    destruct (queue_run cap (l ++ [ts]) ops). rewrite IH. by rewrite <- app_assoc.
  - destruct l as [|x l]; cbn in H.
    + specialize (IH [] H). by destruct (queue_run cap [] ops).
    + rewrite Nat.sub_0_r in H. specialize (IH l H). destruct (queue_run cap l ops). cbn in *. by rewrite IH.
Qed.

Lemma queue_run_sublist cap l ops :
  let '(l', res) := queue_run cap l ops in omap id res ++ l' `sublist_of` l ++ pushes ops.
Proof.
  revert l. induction ops as [|op ops IH]; intros l; cbn [queue_run].
  { cbn. rewrite app_nil_r. reflexivity. }
  destruct op as [ts|].
  - specialize (IH (queue_push cap l ts)). destruct (queue_run cap (queue_push cap l ts) ops).
    etrans; [exact IH|]. change (l ++ pushes (Push ts :: ops)) with (l ++ [ts] ++ pushes ops).
    rewrite app_assoc. apply sublist_app; [apply sublist_drop|reflexivity].
  - destruct l as [|x l].
    + specialize (IH []). by destruct (queue_run cap [] ops).
    + specialize (IH l). destruct (queue_run cap l ops). cbn. by apply sublist_skip.
Qed.

(** * Properties *)

(** C26. The array with its two counters refines the queue that drops its oldest element
    when full, for every sequence of pushes and pops; and the sequence is defined
    exactly when it pushes at most [INT_MAX] times. *)
Theorem FifoQueue_refines name cap f ops :
  0 < cap ≤ INT_MAX → FifoQueue_new name cap = Some f →
  (∃ f', fifo_run f ops = Some (f', (queue_run (Z.to_nat cap) [] ops).2)) ∧
    Z.of_nat (length (pushes ops)) ≤ INT_MAX
  ∨ fifo_run f ops = None ∧ INT_MAX < Z.of_nat (length (pushes ops)).
Proof.
  intros Hc Hnew. destruct (FifoQueue_new_rel name cap f Hc Hnew) as (Hrel & Hcap & Ht).
  destruct (Z_le_gt_dec (Z.of_nat (length (pushes ops))) INT_MAX) as [Hle|Hgt].
  - left. split; [|done]. pose proof (run_rel f [] ops Hrel) as H. rewrite Ht, Hcap in H.
    specialize (H Hle). destruct (queue_run (Z.to_nat cap) [] ops). naive_solver.
  - right. split; [|lia]. eapply run_overflow; [done|]. lia.
Qed.

(** Pairing order: what is popped is, in order, a subsequence of what is pushed, and
    as long as the queue is never full it is a prefix: the n-th pop that succeeds
    returns the n-th timestamp pushed. *)
Theorem FifoQueue_order name cap f ops f' res :
  0 < cap ≤ INT_MAX → FifoQueue_new name cap = Some f → fifo_run f ops = Some (f', res) →
  omap id res `sublist_of` pushes ops ∧
  (never_full (Z.to_nat cap) 0 ops → omap id res `prefix_of` pushes ops).
Proof.
  intros Hc Hnew Hrun. destruct (FifoQueue_new_rel name cap f Hc Hnew) as (Hrel & Hcap & Ht).
  destruct (Z_le_gt_dec (Z.of_nat (length (pushes ops))) INT_MAX) as [Hle|Hgt].
  2: { rewrite (run_overflow f [] ops Hrel) in Hrun; [done|lia]. }
  pose proof (run_rel f [] ops Hrel) as H. rewrite Ht, Hcap in H. specialize (H Hle).
  pose proof (queue_run_sublist (Z.to_nat cap) [] ops) as Hsub.
  pose proof (queue_run_prefix (Z.to_nat cap) [] ops) as Hpre.
  destruct (queue_run (Z.to_nat cap) [] ops) as [l r]. destruct H as (f2 & Hf2 & _).
  rewrite Hrun in Hf2. simplify_eq. cbn in Hsub, Hpre. split.
  - etrans; [|exact Hsub]. apply sublist_inserts_r. reflexivity.
  - intros Hn. exists l. by rewrite Hpre.
Qed.

Lemma FifoQueue_refines_witness :
  ∃ f f', FifoQueue_new "q" 2 = Some f ∧
    fifo_run f [Push 1; Push 2; Push 3; Pop; Pop; Pop] = Some (f', [Some 2; Some 3; None]).
Proof.
  destruct (FifoQueue_refines "q" 2 _ [Push 1; Push 2; Push 3; Pop; Pop; Pop] ltac:(done) eq_refl)
    as [[[f' H] _]|[H _]]; [|vm_compute in H; discriminate H].
  eexists _, f'. split; [reflexivity|]. exact H.
Defined.

Lemma FifoQueue_order_witness :
  ∃ f f' res, FifoQueue_new "q" 2 = Some f ∧
    fifo_run f [Push 1; Pop; Push 2; Push 3; Pop] = Some (f', res) ∧
    omap id res `prefix_of` [1; 2; 3].
Proof.
  eexists _, _, _. split; [reflexivity|]. split; [reflexivity|].
  eapply (FifoQueue_order "q" 2 _ [Push 1; Pop; Push 2; Push 3; Pop]);
    [done|reflexivity|reflexivity|]. cbn. lia.
Defined.
