(* ===== verification/Hist.v ===== *)
(** [struct Hist] (src/src/lensx.cpp): the power-of-two latency histogram, its CSV
    side channel and its report.  [double] arithmetic is IEEE binary64 as in the
    Standard Library's [SpecFloat]; the last step of [printf], from a [double] to
    its decimal digits, belongs to the C library and is not modelled. *)
From stdpp Require Import base gmap strings list sorting pretty.
From Stdlib Require Import ZArith Lia SpecFloat.
From S2P Require Import Prelude.

#[local] Open Scope Z_scope.

Definition HIST_BUCKETS : Z := 48.

Record Hist := mkHist {
  hist_buckets : list Z;
  hist_count : Z;
}.

Definition hist_init : Hist := mkHist (replicate (Z.to_nat HIST_BUCKETS) 0) 0.

(** The CSV file: [None] when it is not open, else its lines so far. *)
Definition csv_file : Type := option (list string).

(** [__builtin_clzll], defined for [0 < x < 2^64] *)
Definition clzll (x : Z) : Z := 63 - Z.log2 x.

(** [int idx = 63 - __builtin_clzll(val_ns | 1); if (idx >= HIST_BUCKETS) idx = HIST_BUCKETS - 1;] *)
Definition bucket_of (val_ns : Z) : Z :=
  let idx := 63 - clzll (Z.lor val_ns 1) in
  if idx >=? HIST_BUCKETS then HIST_BUCKETS - 1 else idx.

(** [fprintf(csv_file, "%d,%d,%lu,%lu,%lu,%u\n", ...)] *)
Definition csv_row (from to val_ns ts_from ts_to tid : Z) : string :=
  pretty from +:+ "," +:+ pretty to +:+ "," +:+ pretty val_ns +:+ "," +:+
  pretty ts_from +:+ "," +:+ pretty ts_to +:+ "," +:+ pretty tid.

(** [record]; undefined when [count] overflows [int]. *)
Definition Hist_record (h : Hist) (csv : csv_file) (val_ns from to ts_from ts_to tid : Z)
    : option (Hist * csv_file) :=
  if hist_count h =? INT_MAX then None
  else
    let idx := Z.to_nat (bucket_of val_ns) in
    Some (mkHist (<[idx := u64 (hist_buckets h !!! idx + 1)]> (hist_buckets h)) (hist_count h + 1),
          (λ rows, rows ++ [csv_row from to val_ns ts_from ts_to tid]) <$> csv).

(** The lambdas [fmt] and [f] of [print]: a duration with its unit. *)
Definition fmt_ns (ns : Z) : string :=
  if ns >=? 1000000000 then pretty (ns / 1000000000) +:+ "s"
  else if ns >=? 1000000 then pretty (ns / 1000000) +:+ "ms"
  else if ns >=? 1000 then pretty (ns / 1000) +:+ "us"
  else pretty ns +:+ "ns".

(** binary64 *)
Definition f64_of_Z (n : Z) : spec_float := binary_normalize 53 1024 n 0 false.
Definition f64_mul : spec_float → spec_float → spec_float := SFmul 53 1024.
Definition f64_div : spec_float → spec_float → spec_float := SFdiv 53 1024.

(** [(uint64_t)d] for a finite [d >= 0] *)
Definition f64_to_u64 (d : spec_float) : Z :=
  match d with
  | S754_finite false m e => if 0 <=? e then Z.pos m * 2 ^ e else Z.pos m / 2 ^ (- e)
  | _ => 0
  end.

Definition p50 : spec_float := f64_of_Z 50.
Definition p90 : spec_float := f64_of_Z 90.
Definition p99 : spec_float := f64_of_Z 99.
(** the double nearest to 99.9 *)
Definition p999 : spec_float := S754_finite false 7029837543348634 (-46).

(** [uint64_t target = (uint64_t)(count * p / 100.0)] *)
Definition pct_target (count : Z) (p : spec_float) : Z :=
  f64_to_u64 (f64_div (f64_mul (f64_of_Z count) p) (f64_of_Z 100)).

(** [((1ULL << i) + (1ULL << (i + 1))) / 2] *)
Definition bucket_mid (i : Z) : Z := (2 ^ i + 2 ^ (i + 1)) / 2.

(** The loop of [pct] from bucket [i] with [cum] accumulated. *)
Fixpoint pct_scan (bs : list Z) (i cum target : Z) : Z :=
  match bs with
  | [] => 0
  | b :: bs =>
      let cum := u64 (cum + b) in
      if cum >=? target then bucket_mid i else pct_scan bs (i + 1) cum target
  end.

Definition Hist_pct (h : Hist) (p : spec_float) : Z :=
  pct_scan (hist_buckets h) 0 0 (pct_target (hist_count h) p).

(** One line of the bar chart: the bounds as printed, the number of [#]s, the
    bucket's count and its percentage. *)
Record HistRow := mkRow {
  row_lo : string;
  row_hi : string;
  row_bar : Z;
  row_count : Z;
  row_pct : spec_float;
}.

Definition hist_row (count max_b i b : Z) : HistRow :=
  let lo := 2 ^ i in
  let hi := 2 ^ (i + 1) - 1 in
  let bar := s32 (u64 (30 * b) / max_b) in
  let bar := if bar <? 1 then 1 else bar in
  mkRow (fmt_ns lo) (if hi >? lo then fmt_ns hi else fmt_ns lo) bar b
        (f64_div (f64_mul (f64_of_Z 100) (f64_of_Z b)) (f64_of_Z count)).

Fixpoint hist_rows (count max_b i : Z) (bs : list Z) : list HistRow :=
  match bs with
  | [] => []
  | b :: bs =>
      if b =? 0 then hist_rows count max_b (i + 1) bs
      else hist_row count max_b i b :: hist_rows count max_b (i + 1) bs
  end.

(** [print]: [None] is the "(no samples)" line; otherwise the chart and the four
    percentiles. *)
Definition Hist_print (h : Hist) : option (list HistRow * list string) :=
  if hist_count h =? 0 then None
  else
    let max_b := foldl (λ m v, if v >? m then v else m) 0 (hist_buckets h) in
    Some (hist_rows (hist_count h) max_b 0 (hist_buckets h),
          fmt_ns <$> [Hist_pct h p50; Hist_pct h p90; Hist_pct h p99; Hist_pct h p999]).

(** * Specification: a histogram stands for the multiset of its samples *)

Definition count_in (i : Z) (vs : list Z) : Z :=
  Z.of_nat (length (filter (λ v, bucket_of v = i) vs)).

Definition count_upto (i : Z) (vs : list Z) : Z :=
  Z.of_nat (length (filter (λ v, bucket_of v ≤ i) vs)).

Record hist_rel (h : Hist) (vs : list Z) : Prop := {
  hr_len : length (hist_buckets h) = 48%nat;
  hr_count : hist_count h = Z.of_nat (length vs);
  hr_max : hist_count h ≤ INT_MAX;
  hr_buckets : ∀ i, 0 ≤ i < 48 → hist_buckets h !!! Z.to_nat i = count_in i vs;
}.

Definition record_samples (vs : list Z) : option (Hist * csv_file) :=
  foldM (λ '(h, csv) v, Hist_record h csv v (-1) (-1) 0 0 0) (hist_init, None) vs.

(** * Lemmas *)

Lemma lor_1_pos v : 0 ≤ v → 0 < Z.lor v 1.
Proof.
  intros. assert (0 ≤ Z.lor v 1) by (apply Z.lor_nonneg; lia).
  assert (Z.lor v 1 ≠ 0); [|lia]. intros [_ ?]%Z.lor_eq_0_iff. lia.
Qed.

Lemma log2_lor_1 v : 0 ≤ v → Z.log2 (Z.lor v 1) = Z.log2 (Z.max v 1).
Proof.
  intros. rewrite Z.log2_lor by lia. change (Z.log2 1) with 0.
  pose proof (Z.log2_nonneg v). destruct (Z.max_spec v 1) as [[? ->]|[? ->]]; [|lia].
  replace v with 0 by lia. done.
Qed.

Lemma bucket_of_alt v : 0 ≤ v → bucket_of v = Z.min (Z.log2 (Z.max v 1)) 47.
Proof.
  intros. unfold bucket_of, clzll, HIST_BUCKETS. rewrite log2_lor_1 by done.
  destruct (Z.geb_spec (63 - (63 - Z.log2 (Z.max v 1))) 48); lia.
Qed.

Lemma bucket_of_range v : 0 ≤ v → 0 ≤ bucket_of v < 48.
Proof. intros. rewrite bucket_of_alt by done. pose proof (Z.log2_nonneg (Z.max v 1)). lia. Qed.

Lemma bucket_of_mono v w : 0 ≤ v ≤ w → bucket_of v ≤ bucket_of w.
Proof.
  intros. rewrite !bucket_of_alt by lia.
  pose proof (Z.log2_le_mono (Z.max v 1) (Z.max w 1) ltac:(lia)). lia.
Qed.

(** The bucket holds the sample, up to the clip at the last bucket. *)
Lemma bucket_of_bounds v i :
  0 ≤ v → bucket_of v = i → 2 ^ i ≤ Z.max v 1 ∧ (i < 47 → Z.max v 1 < 2 ^ (i + 1)).
Proof.
  intros Hv. rewrite bucket_of_alt by done. intros <-.
  pose proof (Z.log2_spec (Z.max v 1) ltac:(lia)) as [H1 H2].
  pose proof (Z.log2_nonneg (Z.max v 1)). split.
  - etrans; [|exact H1]. apply Z.pow_le_mono_r; lia.
  - intros. rewrite Z.min_l by lia. by rewrite Z.add_1_r.
Qed.

Lemma count_in_snoc i vs v :
  count_in i (vs ++ [v]) = count_in i vs + (if decide (bucket_of v = i) then 1 else 0).
Proof.
  unfold count_in. rewrite filter_app, length_app, filter_cons, Nat2Z.inj_add.
  by case_decide.
Qed.

Lemma count_in_bound i vs : 0 ≤ count_in i vs ≤ Z.of_nat (length vs).
Proof. unfold count_in. pose proof (length_filter (λ v, bucket_of v = i) vs). lia. Qed.

Lemma count_upto_bound i vs : 0 ≤ count_upto i vs ≤ Z.of_nat (length vs).
Proof. unfold count_upto. pose proof (length_filter (λ v, bucket_of v ≤ i) vs). lia. Qed.

Lemma count_upto_step i vs : count_upto i vs = count_upto (i - 1) vs + count_in i vs.
Proof.
  unfold count_upto, count_in. induction vs as [|v vs IH]; [done|].
  rewrite !filter_cons. repeat case_decide; cbn [length]; lia.
Qed.

Lemma count_upto_neg vs : Forall (λ v, 0 ≤ v) vs → count_upto (-1) vs = 0.
Proof.
  intros H. unfold count_upto. rewrite filter_none; [done|].
  eapply Forall_impl; [exact H|]. intros v Hv. pose proof (bucket_of_range v Hv). lia.
Qed.

Lemma count_upto_all vs i : Forall (λ v, 0 ≤ v) vs → 47 ≤ i → count_upto i vs = Z.of_nat (length vs).
Proof.
  intros H Hi. unfold count_upto. rewrite filter_all; [done|].
  eapply Forall_impl; [exact H|]. intros v Hv. pose proof (bucket_of_range v Hv). lia.
Qed.

Lemma Permutation_count_upto i vs ws : vs ≡ₚ ws → count_upto i vs = count_upto i ws.
Proof. intros H. unfold count_upto. by rewrite H. Qed.

Lemma Hist_record_rel h csv vs v from to a b tid :
  hist_rel h vs → 0 ≤ v → hist_count h < INT_MAX →
  ∃ h' csv', Hist_record h csv v from to a b tid = Some (h', csv') ∧ hist_rel h' (vs ++ [v]) ∧
    csv' = (λ rows, rows ++ [csv_row from to v a b tid]) <$> csv.
Proof.
  intros [Hl Hc Hm Hb] Hv Hlt. unfold Hist_record.
  destruct (Z.eqb_spec (hist_count h) INT_MAX); [lia|].
  eexists _, _. split_and!; [reflexivity| |reflexivity].
  pose proof (bucket_of_range v Hv) as Hr.
  split; cbn [hist_buckets hist_count].
  - by rewrite length_insert.
  - rewrite length_app. cbn. lia.
  - lia.
  - intros i Hi. rewrite count_in_snoc. pose proof (count_in_bound i vs) as Hib.
    case_decide as E.
    + rewrite E, list_lookup_total_insert_eq by lia. rewrite Hb by done.
      apply wrap_small. unfold in_u, INT_MAX in *. lia.
    + rewrite list_lookup_total_insert_ne by lia. rewrite Hb by done. lia.
Qed.

Lemma hist_init_rel : hist_rel hist_init [].
Proof.
  split; [done|done|done|]. intros i Hi. cbn [hist_buckets hist_init].
  apply lookup_total_replicate_2. unfold HIST_BUCKETS. lia.
Qed.

Lemma record_samples_rel vs :
  Forall (λ v, 0 ≤ v) vs → Z.of_nat (length vs) ≤ INT_MAX →
  ∃ h, record_samples vs = Some (h, None) ∧ hist_rel h vs.
Proof.
  unfold record_samples. induction vs as [|v vs IH] using rev_ind; intros Hv Hlen.
  { exists hist_init. split; [done|apply hist_init_rel]. }
  apply Forall_app in Hv as [Hv Hv1]. apply Forall_cons in Hv1 as [Hv1 _].
  rewrite length_app in Hlen. cbn in Hlen. destruct IH as (h & Hh & Hrel); [done|lia|].
  rewrite foldM_app, Hh. cbn.
  destruct (Hist_record_rel h None vs v (-1) (-1) 0 0 0 Hrel Hv1) as (h' & csv' & -> & Hr' & ->).
  { destruct Hrel. lia. }
  by exists h'.
Qed.

(** [pct_scan] finds the first bucket whose cumulative count reaches the target. *)
Lemma pct_scan_spec bs vs i cum target :
  Forall (λ v, 0 ≤ v) vs → Z.of_nat (length vs) ≤ INT_MAX →
  0 ≤ i → cum = count_upto (i - 1) vs →
  (∀ j b, bs !! j = Some b → b = count_in (i + Z.of_nat j) vs) →
  (∃ j, i ≤ j < i + Z.of_nat (length bs) ∧ pct_scan bs i cum target = bucket_mid j ∧
        target ≤ count_upto j vs ∧ ∀ k, i ≤ k < j → count_upto k vs < target) ∨
  (pct_scan bs i cum target = 0 ∧ ∀ k, i ≤ k < i + Z.of_nat (length bs) → count_upto k vs < target).
Proof.
  intros Hv Hlen. revert i cum. induction bs as [|b bs IH]; intros i cum Hi Hcum Hbs; cbn [pct_scan].
  { right. split; [done|]. cbn. lia. }
  assert (b = count_in i vs) as -> by (specialize (Hbs 0%nat b eq_refl); by rewrite Z.add_0_r in Hbs).
  assert (u64 (cum + count_in i vs) = count_upto i vs) as E.
  { rewrite (count_upto_step i), <- Hcum. apply wrap_small.
    pose proof (count_upto_bound i vs). rewrite (count_upto_step i), <- Hcum in H.
    unfold in_u, INT_MAX in *. lia. }
  rewrite E. cbn [length]. destruct (Z.geb_spec (count_upto i vs) target) as [Hge|Hlt].
  - left. exists i. split_and!; [lia|lia|done|lia|]. lia.
  - destruct (IH (i + 1) (count_upto i vs)) as [(j & Hj & Hs & Ht & Hk)|[Hs Hk]].
    + lia.
    + f_equal. lia.
    + intros j b Hj. specialize (Hbs (S j) b Hj). rewrite Hbs. f_equal. lia.
    + left. exists j. split_and!; [lia|lia|done|done|]. intros k Hk'.
      destruct (Z.eq_dec k i) as [->|]; [lia|]. apply Hk. lia.
    + right. split; [done|]. intros k Hk'.
      destruct (Z.eq_dec k i) as [->|]; [lia|]. apply Hk. lia.
Qed.

(** In a sorted list, the element at rank [t] is below a bound that at least [t + 1]
    elements meet, and above one that at most [t] elements meet. *)
Lemma sorted_rank s t v i :
  StronglySorted Z.le s → Forall (λ v, 0 ≤ v) s → s !! t = Some v →
  (bucket_of v ≤ i ↔ Z.of_nat t < count_upto i s).
Proof.
  intros Hs. revert t. induction Hs as [|a s Hs IH Ha]; intros t Hpos Ht; [done|].
  apply Forall_cons in Hpos as [Hpa Hpos].
  unfold count_upto in *. rewrite filter_cons. destruct t as [|t]; simpl in Ht.
  - simplify_eq. case_decide as E; cbn [length]; [lia|].
    rewrite filter_none; [cbn; lia|]. apply Forall_forall. intros w Hw.
    rewrite Forall_forall in Ha. specialize (Ha w Hw).
    pose proof (bucket_of_mono v w ltac:(lia)). lia.
  - specialize (IH t Hpos Ht). case_decide as E; cbn [length]; [lia|].
    rewrite filter_none; cycle 1.
    { apply Forall_forall. intros w Hw. rewrite Forall_forall in Ha. specialize (Ha w Hw).
      pose proof (bucket_of_mono a w ltac:(lia)). lia. }
    split; [|cbn; lia]. intros Hvi. exfalso. apply E.
    apply list_elem_of_lookup_2 in Ht. rewrite Forall_forall in Ha. specialize (Ha v Ht).
    pose proof (bucket_of_mono a v ltac:(lia)). lia.
Qed.

Lemma buckets_lookup h vs j b :
  hist_rel h vs → hist_buckets h !! j = Some b → b = count_in (0 + Z.of_nat j) vs.
Proof.
  intros [Hl _ _ Hb] Hj. assert (j < 48)%nat by (apply lookup_lt_Some in Hj; lia).
  specialize (Hb (Z.of_nat j) ltac:(lia)). rewrite Nat2Z.id in Hb.
  rewrite (list_lookup_total_correct _ _ _ Hj) in Hb. by rewrite Z.add_0_l.
Qed.

Lemma max_fold_spec bs m :
  (∀ b, b ∈ bs → b ≤ foldl (λ m v, if v >? m then v else m) m bs) ∧
  m ≤ foldl (λ m v, if v >? m then v else m) m bs ∧
  (foldl (λ m v, if v >? m then v else m) m bs = m ∨
   foldl (λ m v, if v >? m then v else m) m bs ∈ bs).
Proof.
  revert m. induction bs as [|a bs IH]; intros m; cbn; [split_and!; [set_solver|lia|by left]|].
  destruct (IH (if a >? m then a else m)) as (H1 & H2 & H3).
  destruct (Z.gtb_spec a m); split_and!; try lia.
  - intros b [->|Hb]%elem_of_cons; [lia|auto].
  - destruct H3 as [->|]; right; set_solver.
  - intros b [->|Hb]%elem_of_cons; [lia|auto].
  - destruct H3 as [->|]; [by left|right; set_solver].
Qed.

Lemma hist_rows_elem count max_b i bs r :
  r ∈ hist_rows count max_b i bs →
  ∃ j b, bs !! j = Some b ∧ b ≠ 0 ∧ r = hist_row count max_b (i + Z.of_nat j) b.
Proof.
  revert i. induction bs as [|b bs IH]; intros i; cbn [hist_rows]; [set_solver|].
  assert (r ∈ hist_rows count max_b (i + 1) bs →
    ∃ j b', (b :: bs) !! j = Some b' ∧ b' ≠ 0 ∧ r = hist_row count max_b (i + Z.of_nat j) b') as Htl.
  { intros (j & b' & ? & ? & ->)%IH. exists (S j), b'. split_and!; [done|done|]. f_equal. lia. }
  destruct (Z.eqb_spec b 0); [done|]. intros [->|]%elem_of_cons; [|auto].
  exists 0%nat, b. split_and!; [done|done|]. f_equal. lia.
Qed.

Lemma hist_rows_complete count max_b i bs b :
  b ∈ bs → b ≠ 0 → ∃ i', hist_row count max_b i' b ∈ hist_rows count max_b i bs.
Proof.
  revert i. induction bs as [|a bs IH]; intros i Hb Hn; [set_solver|]. cbn [hist_rows].
  apply elem_of_cons in Hb as [->|Hb].
  - destruct (Z.eqb_spec a 0); [done|]. exists i. set_solver.
  - destruct (IH (i + 1) Hb Hn) as [i' Hi']. exists i'. destruct (Z.eqb_spec a 0); [done|].
    set_solver.
Qed.

Definition sumZ (l : list Z) : Z := foldr Z.add 0 l.

Lemma hist_rows_sum count max_b i bs :
  sumZ (row_count <$> hist_rows count max_b i bs) = sumZ bs.
Proof.
  revert i. induction bs as [|b bs IH]; intros i; cbn [hist_rows]; [done|].
  destruct (Z.eqb_spec b 0) as [->|]; cbn; rewrite IH; done.
Qed.

Lemma buckets_sum h vs :
  hist_rel h vs → Forall (λ v, 0 ≤ v) vs → sumZ (hist_buckets h) = hist_count h.
Proof.
  intros Hrel Hpos. pose proof Hrel as [Hl Hc _ _].
  assert (∀ n bs, drop n (hist_buckets h) = bs → (n ≤ 48)%nat →
    sumZ bs + count_upto (Z.of_nat n - 1) vs = Z.of_nat (length vs)) as H.
  { intros n bs. revert n. induction bs as [|b bs IH]; intros n Hd Hn.
    - assert (n = 48%nat) as ->.
      { apply (f_equal length) in Hd. rewrite length_drop, Hl in Hd. cbn in Hd. lia. }
      cbn. by rewrite count_upto_all.
    - assert (hist_buckets h !! n = Some b) as Hb.
      { replace n with (n + 0)%nat by lia. rewrite <- lookup_drop. by rewrite Hd. }
      assert (n < 48)%nat by (apply lookup_lt_Some in Hb; lia).
      rewrite (buckets_lookup h vs n b Hrel Hb).
      specialize (IH (S n)). rewrite (drop_S _ _ _ Hb) in Hd. injection Hd as Hd.
      specialize (IH Hd ltac:(lia)). cbn [sumZ foldr].
      pose proof (count_upto_step (Z.of_nat n) vs). unfold sumZ in *.
      replace (Z.of_nat (S n) - 1) with (Z.of_nat n) in IH by lia.
      replace (0 + Z.of_nat n) with (Z.of_nat n) by lia. lia. }
  specialize (H 0%nat _ eq_refl ltac:(lia)). rewrite drop_0 in H.
  change (Z.of_nat 0 - 1) with (-1) in H. rewrite count_upto_neg in H by done. lia.
Qed.

Lemma bar_bounds b max_b :
  0 < b ≤ max_b → max_b ≤ INT_MAX →
  let bar := s32 (u64 (30 * b) / max_b) in
  s32 (u64 (30 * b) / max_b) = 30 * b / max_b ∧ 0 ≤ 30 * b / max_b ≤ 30 ∧
  (b = max_b → 30 * b / max_b = 30).
Proof.
  intros Hb Hm. cbv zeta. unfold INT_MAX in *.
  assert (0 ≤ 30 * b / max_b ≤ 30) as Hr.
  { split; [apply Z.div_pos; lia|]. apply Z.div_le_upper_bound; lia. }
  rewrite (wrap_small 64) by (unfold in_u; lia).
  rewrite swrap_small by (change (2 ^ (32 - 1)) with 2147483648; lia).
  split_and!; [done|lia|lia|]. intros ->. apply Z.div_mul. lia.
Qed.

(** * Properties *)

(** C36. Recording: each call adds one sample to the bucket of its power of two (clipped
    at the last), so that the buckets count the samples and sum to [count], and
    writes one CSV row when the file is open. *)
Theorem Hist_record_counts h csv vs v from to a b tid :
  hist_rel h vs → 0 ≤ v < 2 ^ 64 → hist_count h < INT_MAX →
  ∃ h', Hist_record h csv v from to a b tid =
      Some (h', (λ rows, rows ++ [csv_row from to v a b tid]) <$> csv) ∧
    hist_rel h' (vs ++ [v]) ∧
    hist_buckets h' !!! Z.to_nat (bucket_of v) = hist_buckets h !!! Z.to_nat (bucket_of v) + 1 ∧
    2 ^ bucket_of v ≤ Z.max v 1 ∧ (bucket_of v < 47 → Z.max v 1 < 2 ^ (bucket_of v + 1)).
Proof.
  intros Hrel Hv Hlt.
  destruct (Hist_record_rel h csv vs v from to a b tid Hrel ltac:(lia) Hlt) as (h' & csv' & E & Hr & ->).
  exists h'. pose proof (bucket_of_range v ltac:(lia)).
  split_and!; [done|done| |by apply bucket_of_bounds; [lia|]..].
  rewrite (hr_buckets _ _ Hr), (hr_buckets _ _ Hrel), count_in_snoc by done.
  by rewrite decide_True.
Qed.

(** C37. Percentiles: with [t] the target rank, the reported value is the middle of the
    bucket that holds the [t]-th smallest sample. *)
Theorem Hist_pct_correct h vs s p :
  hist_rel h vs → Forall (λ v, 0 ≤ v) vs → s ≡ₚ vs → StronglySorted Z.le s →
  let t := pct_target (hist_count h) p in
  1 ≤ t ≤ hist_count h →
  ∃ v, s !! Z.to_nat (t - 1) = Some v ∧ Hist_pct h p = bucket_mid (bucket_of v).
Proof.
  intros Hrel Hpos Hp Hs t Ht. pose proof Hrel as [Hl Hc Hm Hb].
  assert (Forall (λ v, 0 ≤ v) s) as Hpos' by by rewrite Hp.
  destruct (lookup_lt_is_Some_2 s (Z.to_nat (t - 1))) as [v Hv].
  { rewrite Hp. lia. }
  exists v. split; [done|]. unfold Hist_pct. fold t.
  assert (0 ≤ v) as Hv0 by (rewrite Forall_forall in Hpos'; eapply Hpos', list_elem_of_lookup_2; done).
  pose proof (bucket_of_range v Hv0) as Hbr.
  assert (∀ i, bucket_of v ≤ i ↔ t - 1 < count_upto i vs) as Hrank.
  { intros i. rewrite (sorted_rank s _ v i Hs Hpos' Hv), (Permutation_count_upto i s vs Hp). lia. }
  destruct (pct_scan_spec (hist_buckets h) vs 0 0 t Hpos ltac:(lia) ltac:(lia))
    as [(j & Hj & -> & Htj & Hk)|[_ Hk]].
  - symmetry. by apply count_upto_neg.
  - intros j b. apply buckets_lookup. done.
  - f_equal. assert (bucket_of v ≤ j) by (apply Hrank; lia).
    destruct (Z.eq_dec (bucket_of v) j) as [|Hne]; [done|]. exfalso.
    specialize (Hk (bucket_of v) ltac:(lia)). pose proof (proj1 (Hrank (bucket_of v)) ltac:(lia)). lia.
  - exfalso. specialize (Hk 47). rewrite Hl in Hk. specialize (Hk ltac:(lia)).
    rewrite count_upto_all in Hk by (done || lia). lia.
Qed.

(** The report: the printed rows account for every sample, every bar has between 1
    and 30 marks, and the fullest bucket has all 30. *)
Theorem Hist_print_rows h vs :
  hist_rel h vs → Forall (λ v, 0 ≤ v) vs → vs ≠ [] →
  ∃ rows pcts, Hist_print h = Some (rows, pcts) ∧
    sumZ (row_count <$> rows) = hist_count h ∧
    Forall (λ r, 1 ≤ row_bar r ≤ 30 ∧ 0 < row_count r) rows ∧
    ∃ r, r ∈ rows ∧ row_bar r = 30 ∧ ∀ r', r' ∈ rows → row_count r' ≤ row_count r.
Proof.
  intros Hrel Hpos Hne. pose proof Hrel as [Hl Hc Hm _]. unfold Hist_print.
  destruct (Z.eqb_spec (hist_count h) 0) as [E|_].
  { destruct vs; [done|]. cbn in Hc. lia. }
  set (max_b := foldl _ 0 _). eexists _, _. split; [reflexivity|].
  assert (∀ j b, hist_buckets h !! j = Some b → b ≠ 0 → 0 < b ≤ max_b ∧ max_b ≤ INT_MAX) as Hb.
  { intros j b Hj Hb0. pose proof (max_fold_spec (hist_buckets h) 0) as (H1 & _ & H3). fold max_b in H1, H3.
    assert (∀ j' b', hist_buckets h !! j' = Some b' → 0 ≤ b' ≤ INT_MAX) as Hbb.
    { intros j' b' Hj'. rewrite (buckets_lookup h vs j' b' Hrel Hj').
      pose proof (count_in_bound (0 + Z.of_nat j') vs). lia. }
    pose proof (Hbb j b Hj). specialize (H1 b (list_elem_of_lookup_2 _ _ _ Hj)).
    split; [lia|]. destruct H3 as [->|(j' & Hj')%list_elem_of_lookup]; [done|].
    apply Hbb in Hj'. lia. }
  split_and!.
  - rewrite hist_rows_sum. by eapply buckets_sum.
  - apply Forall_forall. intros r (j & b & Hj & Hb0 & ->)%hist_rows_elem.
    destruct (Hb j b Hj Hb0) as [Hb1 Hb2]. cbn.
    destruct (bar_bounds b max_b Hb1 Hb2) as (-> & Hr & _).
    destruct (Z.ltb_spec (30 * b / max_b) 1); lia.
  - pose proof (max_fold_spec (hist_buckets h) 0) as (H1 & H2 & H3). fold max_b in H1, H2, H3.
    assert (max_b ∈ hist_buckets h ∧ max_b ≠ 0) as [Hin Hn0].
    { assert (max_b ≠ 0) as Hn0; [|split; [by destruct H3|done]]. intros E0.
      assert (sumZ (hist_buckets h) ≤ 0) as Hs0.
      { rewrite E0 in H1. clear -H1. induction (hist_buckets h) as [|b bs IH]; cbn; [lia|].
        pose proof (H1 b ltac:(set_solver)). assert (sumZ bs ≤ 0) by (apply IH; set_solver).
        unfold sumZ in *. lia. }
      rewrite (buckets_sum h vs Hrel Hpos), Hc in Hs0. destruct vs; [done|]. cbn in Hs0. lia. }
    destruct (hist_rows_complete (hist_count h) max_b 0 (hist_buckets h) max_b Hin Hn0) as [i Hi].
    apply list_elem_of_lookup in Hin as [j Hj]. destruct (Hb j _ Hj Hn0) as [Hb1 Hb2].
    exists (hist_row (hist_count h) max_b i max_b). split; [done|]. cbn.
    destruct (bar_bounds max_b max_b Hb1 Hb2) as (-> & _ & ->); [|done]. split; [done|].
    intros r (j' & b' & Hj' & _ & ->)%hist_rows_elem. cbn.
    by apply H1, (list_elem_of_lookup_2 _ _ _ Hj').
Qed.

(** With one sample the four target ranks truncate to 0, and every percentile is
    reported as 1 ns whatever the sample is. *)
Theorem Hist_pct_single_sample v h csv :
  0 ≤ v → record_samples [v] = Some (h, csv) →
  hist_count h = 1 ∧ Hist_pct h p50 = 1 ∧ Hist_pct h p90 = 1 ∧ Hist_pct h p99 = 1 ∧
  Hist_pct h p999 = 1.
Proof.
  intros Hv H. destruct (record_samples_rel [v]) as (h' & H' & Hrel); [by constructor|done|].
  rewrite H in H'. simplify_eq. pose proof (hr_count _ _ Hrel) as Hc. cbn in Hc.
  split; [done|]. unfold Hist_pct. rewrite Hc.
  change (pct_target (Z.of_nat 1) p50) with 0. change (pct_target (Z.of_nat 1) p90) with 0.
  change (pct_target (Z.of_nat 1) p99) with 0. change (pct_target (Z.of_nat 1) p999) with 0.
  destruct (hist_buckets h') as [|b bs] eqn:E.
  { pose proof (hr_len _ _ Hrel) as Hl. by rewrite E in Hl. }
  cbn [pct_scan]. pose proof (wrap_range 64 (0 + b) ltac:(lia)) as [H0 _].
  cbv zeta. assert ((u64 (0 + b) >=? 0) = true) as -> by lia. done.
Qed.

Lemma Hist_record_counts_witness :
  ∃ h', Hist_record hist_init (Some []) 5000 0 1 100 5100 7 =
    Some (h', Some ["0,1,5000,100,5100,7"%string]) ∧ hist_rel h' [5000] ∧
    hist_buckets h' !!! 12%nat = 1.
Proof.
  destruct (Hist_record_counts hist_init (Some []) [] 5000 0 1 100 5100 7 hist_init_rel
    ltac:(done) ltac:(done)) as (h' & Hr & Hrel & Hb & _).
  exists h'. split_and!; [rewrite Hr; vm_compute; reflexivity|exact Hrel|exact Hb].
Defined.

Lemma Hist_pct_correct_witness :
  ∃ h, record_samples [5; 3000; 70; 2] = Some (h, None) ∧ Hist_pct h p50 = bucket_mid 2.
Proof.
  destruct (record_samples_rel [5; 3000; 70; 2]) as (h & Hs & Hrel);
    [repeat constructor; lia|done|].
  exists h. split; [exact Hs|].
  destruct (Hist_pct_correct h [5; 3000; 70; 2] [2; 5; 70; 3000] p50 Hrel) as (v & Hv & Hp).
  - repeat constructor; done.
  - apply (bool_decide_unpack _). vm_compute. exact I.
  - repeat constructor; lia.
  - rewrite (hr_count _ _ Hrel). vm_compute. split; discriminate.
  - rewrite (hr_count _ _ Hrel) in Hv. vm_compute in Hv. injection Hv as <-. exact Hp.
Defined.

Lemma Hist_print_rows_witness :
  ∃ h rows pcts, record_samples [5; 6; 3000] = Some (h, None) ∧
    Hist_print h = Some (rows, pcts) ∧ row_bar <$> rows = [30; 15] ∧
    sumZ (row_count <$> rows) = 3.
Proof.
  destruct (record_samples_rel [5; 6; 3000]) as (h & Hs & Hrel);
    [repeat constructor; lia|done|].
  destruct (Hist_print_rows h [5; 6; 3000] Hrel) as (rows & pcts & Hp & Hsum & _);
    [repeat constructor; lia|done|].
  exists h, rows, pcts. split; [exact Hs|]. split; [exact Hp|]. split.
  - vm_compute in Hs. injection Hs as <-. vm_compute in Hp. injection Hp as <- <-. reflexivity.
  - rewrite Hsum. exact (hr_count _ _ Hrel).
Defined.

Lemma Hist_pct_single_sample_witness :
  ∃ h csv, record_samples [1000000] = Some (h, csv) ∧ Hist_pct h p50 = 1.
Proof.
  destruct (record_samples_rel [1000000]) as (h & Hs & _); [repeat constructor; lia|done|].
  exists h, None. split; [exact Hs|].
  exact (proj1 (proj2 (Hist_pct_single_sample 1000000 h None ltac:(lia) Hs))).
Defined.
