(* ===== verification/Config.v ===== *)
(** Configuration (src/src/config.h, src/src/config.cpp): the data and
    [parse_config].  yaml-cpp is the class [Yaml]; what the code relies on is only
    the type of its operations. *)
From stdpp Require Import base strings list pretty.
From Stdlib Require Import ZArith Lia.
From S2P Require Import Prelude.

#[local] Open Scope Z_scope.

Record ProbeConfig := mkProbe {
  p_name : string;
  p_type : string;
  p_symbol : string;
  p_event : string;
  p_stage : Z;
  p_key : string;
}.

Record MatcherConfig := mkMatcher {
  m_id : string;
  m_stages : list Z;
  m_mode : string;
  m_queue_size : Z;
}.

Record ReportConfig := mkReport {
  r_name : string;
  r_from : Z;
  r_to : Z;
}.

Record Config := mkConfig {
  c_process : string;
  c_csv_path : string;
  c_probes : list ProbeConfig;
  c_matchers : list MatcherConfig;
  c_reports : list ReportConfig;
}.

#[export] Instance ProbeConfig_eq_dec : EqDecision ProbeConfig.
Proof. solve_decision. Defined.

(** [operator[]] throws on a scalar ([None]) and otherwise returns a node that may be
    undefined ([Some None]); [as<T>] throws on a bad conversion; iteration over a
    node that is no sequence is empty. *)
Class Yaml (N : Type) := {
  yaml_load : string → option N;
  yaml_get : N → string → option (option N);
  yaml_string : N → option string;
  yaml_int : N → option Z;
  yaml_items : N → list N;
}.

(** How a run of the code can end: a value, [exit(1)] after an error message, or an
    exception nobody catches. *)
Inductive res (A : Type) :=
  | Ok (a : A)
  | Exit (msg : string)
  | Throw.
Arguments Ok {A}.
Arguments Exit {A}.
Arguments Throw {A}.

Definition res_bind {A B} (m : res A) (f : A → res B) : res B :=
  match m with Ok a => f a | Exit msg => Exit msg | Throw => Throw end.

Notation "x <-! m ; k" := (res_bind m (λ x, k))
  (at level 20, m at level 100, k at level 200, right associativity).

Definition of_throw {A} (o : option A) : res A :=
  match o with Some a => Ok a | None => Throw end.

Fixpoint res_map {A B} (f : A → res B) (l : list A) : res (list B) :=
  match l with
  | [] => Ok []
  | a :: l => b <-! f a; bs <-! res_map f l; Ok (b :: bs)
  end.

Section parse.
Context {N : Type} `{Yaml N}.

(** [node[k].as<T>()]: also throws when [node[k]] is undefined *)
Definition yaml_field {T} (conv : N → option T) (node : N) (k : string) : res T :=
  of_throw (o ← yaml_get node k; x ← o; conv x).

(** [T x = dflt; if (node[k]) x = node[k].as<T>();] *)
Definition yaml_opt {T} (conv : N → option T) (dflt : T) (node : N) (k : string) : res T :=
  o <-! of_throw (yaml_get node k);
  match o with Some x => of_throw (conv x) | None => Ok dflt end.

(** [for (auto x : node[k])] *)
Definition yaml_seq (node : N) (k : string) : res (list N) :=
  o <-! of_throw (yaml_get node k);
  Ok (match o with Some x => yaml_items x | None => [] end).

Definition parse_probe (node : N) : res ProbeConfig :=
  name <-! yaml_field yaml_string node "name";
  type <-! yaml_field yaml_string node "type";
  stage <-! yaml_field yaml_int node "stage";
  symbol <-! yaml_opt yaml_string "" node "symbol";
  event <-! yaml_opt yaml_string "" node "event";
  key <-! yaml_opt yaml_string "" node "key";
  Ok (mkProbe name type symbol event stage key).

Definition parse_matcher (node : N) : res MatcherConfig :=
  id <-! yaml_field yaml_string node "id";
  mode <-! yaml_field yaml_string node "mode";
  ss <-! yaml_seq node "stages";
  stages <-! res_map (λ s, of_throw (yaml_int s)) ss;
  queue_size <-! yaml_opt yaml_int 4096 node "queue_size";
  Ok (mkMatcher id stages mode queue_size).

Definition parse_report (node : N) : res ReportConfig :=
  name <-! yaml_field yaml_string node "name";
  from <-! yaml_field yaml_int node "from";
  to <-! yaml_field yaml_int node "to";
  Ok (mkReport name from to).

(** [if (root[k1] && root[k1][k2]) x = root[k1][k2].as<std::string>();] *)
Definition yaml_nested (root : N) (k1 k2 : string) : res string :=
  o <-! of_throw (yaml_get root k1);
  match o with Some t => yaml_opt yaml_string "" t k2 | None => Ok ""%string end.

(** [if (p.type == "tracepoint" && p.event.empty()) ...] *)
Definition validate_probe (p : ProbeConfig) : option string :=
  if String.eqb (p_type p) "tracepoint" && String.eqb (p_event p) ""
  then Some ("error: probe '" +:+ p_name p +:+ "' needs 'event'")
  else if (String.eqb (p_type p) "uprobe" || String.eqb (p_type p) "kprobe")
          && String.eqb (p_symbol p) ""
  then Some ("error: probe '" +:+ p_name p +:+ "' needs 'symbol'")
  else None.

Fixpoint validate_probes (ps : list ProbeConfig) : option string :=
  match ps with
  | [] => None
  | p :: ps => match validate_probe p with Some e => Some e | None => validate_probes ps end
  end.

Definition parse_config (path : string) : res Config :=
  root <-! of_throw (yaml_load path);
  process <-! yaml_nested root "target" "process";
  csv_path <-! yaml_nested root "output" "csv";
  ps <-! yaml_seq root "probes";
  probes <-! res_map parse_probe ps;
  ms <-! yaml_seq root "matchers";
  matchers <-! res_map parse_matcher ms;
  rs <-! yaml_seq root "reports";
  reports <-! res_map parse_report rs;
  match probes with
  | [] => Exit "error: no probes defined"
  | _ =>
      match validate_probes probes with
      | Some msg => Exit msg
      | None => Ok (mkConfig process csv_path probes matchers reports)
      end
  end.

(** * Specification: a document that describes a configuration *)

Definition has_string (n : N) (k s : string) : Prop :=
  ∃ x, yaml_get n k = Some (Some x) ∧ yaml_string x = Some s.
Definition has_int (n : N) (k : string) (z : Z) : Prop :=
  ∃ x, yaml_get n k = Some (Some x) ∧ yaml_int x = Some z.
(** an optional field: present with its value, or absent with the default *)
Definition opt_string (n : N) (k s : string) : Prop :=
  has_string n k s ∨ yaml_get n k = Some None ∧ s = ""%string.
Definition has_seq (n : N) (k : string) (l : list N) : Prop :=
  (∃ x, yaml_get n k = Some (Some x) ∧ yaml_items x = l) ∨ yaml_get n k = Some None ∧ l = [].

Definition describes_probe (n : N) (p : ProbeConfig) : Prop :=
  has_string n "name" (p_name p) ∧ has_string n "type" (p_type p) ∧
  has_int n "stage" (p_stage p) ∧ opt_string n "symbol" (p_symbol p) ∧
  opt_string n "event" (p_event p) ∧ opt_string n "key" (p_key p).

Definition describes_matcher (n : N) (m : MatcherConfig) : Prop :=
  has_string n "id" (m_id m) ∧ has_string n "mode" (m_mode m) ∧
  (∃ ss, has_seq n "stages" ss ∧ Forall2 (λ s z, yaml_int s = Some z) ss (m_stages m)) ∧
  (has_int n "queue_size" (m_queue_size m) ∨
   yaml_get n "queue_size" = Some None ∧ m_queue_size m = 4096).

Definition describes_report (n : N) (r : ReportConfig) : Prop :=
  has_string n "name" (r_name r) ∧ has_int n "from" (r_from r) ∧ has_int n "to" (r_to r).

Definition describes_nested (n : N) (k1 k2 s : string) : Prop :=
  (∃ t, yaml_get n k1 = Some (Some t) ∧ opt_string t k2 s) ∨
  yaml_get n k1 = Some None ∧ s = ""%string.

Definition describes (n : N) (c : Config) : Prop :=
  describes_nested n "target" "process" (c_process c) ∧
  describes_nested n "output" "csv" (c_csv_path c) ∧
  (∃ ps, has_seq n "probes" ps ∧ Forall2 describes_probe ps (c_probes c)) ∧
  (∃ ms, has_seq n "matchers" ms ∧ Forall2 describes_matcher ms (c_matchers c)) ∧
  (∃ rs, has_seq n "reports" rs ∧ Forall2 describes_report rs (c_reports c)).

(** What the validation promises of a configuration. *)
Definition config_valid (c : Config) : Prop :=
  c_probes c ≠ [] ∧
  Forall (λ p, (p_type p = "tracepoint" → p_event p ≠ "") ∧
               (p_type p = "uprobe" ∨ p_type p = "kprobe" → p_symbol p ≠ ""))%string (c_probes c).
End parse.

(** A small document type, as a concrete instance of the interface. *)
Inductive YNode :=
  | YStr (s : string)
  | YInt (z : Z)
  | YSeq (l : list YNode)
  | YMap (l : list (string * YNode)).

Fixpoint ylookup (l : list (string * YNode)) (k : string) : option YNode :=
  match l with
  | [] => None
  | (k', v) :: l => if String.eqb k' k then Some v else ylookup l k
  end.

#[export] Instance YNode_Yaml (files : string → option YNode) : Yaml YNode := {|
  yaml_load := files;
  yaml_get n k := match n with YMap l => Some (ylookup l k) | YSeq _ => Some None | _ => None end;
  yaml_string n := match n with YStr s => Some s | YInt z => Some (pretty z) | _ => None end;
  yaml_int n := match n with YInt z => Some z | _ => None end;
  yaml_items n := match n with YSeq l => l | _ => [] end;
|}.

(** * Lemmas *)

Section lemmas.
Context {N : Type} `{Yaml N}.

Lemma yaml_field_string n k s : has_string n k s → yaml_field yaml_string n k = Ok s.
Proof. intros (x & H1 & H2). unfold yaml_field. rewrite H1. cbn. by rewrite H2. Qed.

Lemma yaml_field_int n k z : has_int n k z → yaml_field yaml_int n k = Ok z.
Proof. intros (x & H1 & H2). unfold yaml_field. rewrite H1. cbn. by rewrite H2. Qed.

Lemma yaml_opt_string n k s : opt_string n k s → yaml_opt yaml_string "" n k = Ok s.
Proof.
  intros [(x & H1 & H2)|[H1 ->]]; unfold yaml_opt; rewrite H1; cbn; [by rewrite H2|done].
Qed.

Lemma yaml_seq_items n k l : has_seq n k l → yaml_seq n k = Ok l.
Proof. intros [(x & H1 & H2)|[H1 ->]]; unfold yaml_seq; rewrite H1; cbn; by subst. Qed.

Lemma yaml_nested_string n k1 k2 s : describes_nested n k1 k2 s → yaml_nested n k1 k2 = Ok s.
Proof.
  intros [(t & H1 & H2)|[H1 ->]]; unfold yaml_nested; rewrite H1; cbn; [|done].
  by apply yaml_opt_string.
Qed.

Lemma res_map_Forall2 {A B} (f : A → res B) (P : A → B → Prop) l l' :
  (∀ a b, P a b → f a = Ok b) → Forall2 P l l' → res_map f l = Ok l'.
Proof. intros Hf. induction 1 as [|a b l l' Hab _ IH]; cbn; [done|]. by rewrite (Hf _ _ Hab), IH. Qed.

Lemma parse_probe_ok n p : describes_probe n p → parse_probe n = Ok p.
Proof.
  intros (H1 & H2 & H3 & H4 & H5 & H6). unfold parse_probe.
  rewrite (yaml_field_string _ _ _ H1), (yaml_field_string _ _ _ H2), (yaml_field_int _ _ _ H3).
  cbn. rewrite (yaml_opt_string _ _ _ H4), (yaml_opt_string _ _ _ H5), (yaml_opt_string _ _ _ H6).
  by destruct p.
Qed.

Lemma parse_matcher_ok n m : describes_matcher n m → parse_matcher n = Ok m.
Proof.
  intros (H1 & H2 & (ss & H3 & H4) & H5). unfold parse_matcher.
  rewrite (yaml_field_string _ _ _ H1), (yaml_field_string _ _ _ H2), (yaml_seq_items _ _ _ H3).
  cbn [res_bind]. rewrite (res_map_Forall2 (λ s, of_throw (yaml_int s)) _ ss (m_stages m)
    (λ s z (E : yaml_int s = Some z), f_equal of_throw E) H4). cbn.
  destruct m as [id stages mode q]. cbn in *.
  destruct H5 as [(x & Hx & Hq)|[Hx ->]]; unfold yaml_opt; rewrite Hx; cbn; [by rewrite Hq|done].
Qed.

Lemma parse_report_ok n r : describes_report n r → parse_report n = Ok r.
Proof.
  intros (H1 & H2 & H3). unfold parse_report.
  rewrite (yaml_field_string _ _ _ H1), (yaml_field_int _ _ _ H2), (yaml_field_int _ _ _ H3).
  by destruct r.
Qed.

Lemma validate_probe_None p :
  validate_probe p = None ↔
  ((p_type p = "tracepoint" → p_event p ≠ "") ∧
   (p_type p = "uprobe" ∨ p_type p = "kprobe" → p_symbol p ≠ ""))%string.
Proof.
  unfold validate_probe.
  destruct (String.eqb_spec (p_type p) "tracepoint"), (String.eqb_spec (p_event p) ""),
    (String.eqb_spec (p_type p) "uprobe"), (String.eqb_spec (p_type p) "kprobe"),
    (String.eqb_spec (p_symbol p) ""); cbn; naive_solver congruence.
Qed.

Lemma validate_probes_None ps :
  validate_probes ps = None ↔ Forall (λ p, validate_probe p = None) ps.
Proof.
  induction ps as [|p ps IH]; cbn; [done|]. rewrite Forall_cons, <- IH.
  destruct (validate_probe p); naive_solver.
Qed.

Lemma validate_config ps :
  validate_probes ps = None ↔
  Forall (λ p, (p_type p = "tracepoint" → p_event p ≠ "") ∧
               (p_type p = "uprobe" ∨ p_type p = "kprobe" → p_symbol p ≠ ""))%string ps.
Proof.
  rewrite validate_probes_None. apply Forall_iff. intros p. apply validate_probe_None.
Qed.
End lemmas.

(** * Properties *)

(** C38. A document that describes a configuration is parsed to that configuration,
    defaults included, exactly when it is valid; otherwise the program exits. *)
Theorem parse_config_describes {N} `{Yaml N} path root c :
  yaml_load path = Some root → describes root c →
  (parse_config path = Ok c ∧ config_valid c) ∨
  (∃ msg, parse_config path = Exit msg ∧ ¬ config_valid c).
Proof.
  intros Hl (H1 & H2 & (ps & H3 & H3') & (ms & H4 & H4') & (rs & H5 & H5')).
  assert (parse_config path =
    match c_probes c with
    | [] => Exit "error: no probes defined"
    | _ => match validate_probes (c_probes c) with
           | Some msg => Exit msg
           | None => Ok c
           end
    end) as ->.
  { unfold parse_config. rewrite Hl. cbn.
    rewrite (yaml_nested_string _ _ _ _ H1), (yaml_nested_string _ _ _ _ H2). cbn.
    rewrite (yaml_seq_items _ _ _ H3). cbn. rewrite (res_map_Forall2 _ _ _ _ parse_probe_ok H3'). cbn.
    rewrite (yaml_seq_items _ _ _ H4). cbn. rewrite (res_map_Forall2 _ _ _ _ parse_matcher_ok H4'). cbn.
    rewrite (yaml_seq_items _ _ _ H5). cbn. rewrite (res_map_Forall2 _ _ _ _ parse_report_ok H5'). cbn.
    by destruct c as [? ? [] ? ?]. }
  unfold config_valid.
  destruct (c_probes c) as [|p l] eqn:E.
  - right. eexists. split; [reflexivity|]. by intros [? _].
  - pose proof (validate_config (p :: l)) as Hv. destruct (validate_probes (p :: l)).
    + right. eexists. split; [reflexivity|]. by intros [_ ?%Hv].
    + left. split_and!; [done|done|by apply Hv].
Qed.

(** Whatever the document, a configuration that [parse_config] returns is valid. *)
Theorem parse_config_valid {N} `{Yaml N} path c : parse_config path = Ok c → config_valid c.
Proof.
  unfold parse_config. intros Hp.
  repeat match goal with
  | H : res_bind ?m _ = Ok _ |- _ => destruct m eqn:?; cbn [res_bind] in H; [|done..]
  end.
  match goal with H : match ?ps with [] => _ | _ => _ end = Ok _ |- _ => destruct ps as [|p l] end; [done|].
  destruct (validate_probes (p :: l)) eqn:E; [done|]. simplify_eq. split; [done|]. by apply validate_config.
Qed.

(** The validation leaves kretprobes out: one without a symbol is accepted. *)
Theorem parse_config_kretprobe_unchecked name stage ps c :
  config_valid c → c_probes c = ps →
  let p := mkProbe name "kretprobe" "" "" stage "" in
  config_valid (mkConfig (c_process c) (c_csv_path c) (ps ++ [p]) (c_matchers c) (c_reports c)) ∧
  validate_probes (ps ++ [p]) = None.
Proof.
  intros [Hne Hv] <- p.
  assert (Forall (λ p, (p_type p = "tracepoint" → p_event p ≠ "") ∧
                 (p_type p = "uprobe" ∨ p_type p = "kprobe" → p_symbol p ≠ ""))%string
    (c_probes c ++ [p])) as Hv'.
  { apply Forall_app. split; [done|]. constructor; [|constructor]. cbn. naive_solver. }
  split; [|by apply validate_config]. split; [|done]. cbn. by destruct (c_probes c).
Qed.

Definition example_doc : YNode :=
  YMap [("target", YMap [("process", YStr "redis-server")]);
        ("probes", YSeq [YMap [("name", YStr "read"); ("type", YStr "uprobe");
                               ("symbol", YStr "readQueryFromClient"); ("stage", YInt 0)];
                         YMap [("name", YStr "done"); ("type", YStr "tracepoint");
                               ("event", YStr "io_uring/io_uring_complete"); ("stage", YInt 1);
                               ("key", YStr "ctx->user_data")]]);
        ("matchers", YSeq [YMap [("id", YStr "flow"); ("stages", YSeq [YInt 0; YInt 1]);
                                 ("mode", YStr "seq")]]);
        ("reports", YSeq [YMap [("name", YStr "lat"); ("from", YInt 0); ("to", YInt 1)]])]%string.

Definition example_config : Config :=
  mkConfig "redis-server" ""
    [mkProbe "read" "uprobe" "readQueryFromClient" "" 0 "";
     mkProbe "done" "tracepoint" "" "io_uring/io_uring_complete" 1 "ctx->user_data"]
    [mkMatcher "flow" [0; 1] "seq" 4096] [mkReport "lat" 0 1].

Lemma parse_config_describes_witness :
  @parse_config YNode (YNode_Yaml (λ _, Some example_doc)) "redis.yaml" = Ok example_config.
Proof.
  destruct (@parse_config_describes YNode (YNode_Yaml (λ _, Some example_doc)) "redis.yaml"
    example_doc example_config) as [[H _]|(msg & H & _)].
  - reflexivity.
  - assert (∀ l k s, ylookup l k = Some (YStr s) →
      @has_string _ (YNode_Yaml (λ _, Some example_doc)) (YMap l) k s) as Hs.
    { intros l k s E. exists (YStr s). cbn. by rewrite E. }
    assert (∀ l k z, ylookup l k = Some (YInt z) →
      @has_int _ (YNode_Yaml (λ _, Some example_doc)) (YMap l) k z) as Hi.
    { intros l k z E. exists (YInt z). cbn. by rewrite E. }
    repeat match goal with
    | |- _ ∧ _ => split
    | |- describes _ _ => unfold describes
    | |- has_string _ _ _ => apply Hs; reflexivity
    | |- has_int _ _ _ => apply Hi; reflexivity
    | |- opt_string _ _ _ => first [left; apply Hs; reflexivity | right; split; reflexivity]
    | |- describes_nested _ _ _ _ =>
        first [right; split; reflexivity | left; eexists; split; [reflexivity|]]
    | |- has_seq _ _ _ => left; eexists; split; reflexivity
    | |- ∃ _, has_seq _ _ _ ∧ _ => eexists; split; [left; eexists; split; reflexivity|]
    | |- Forall2 _ _ _ => constructor
    | |- describes_probe _ _ => unfold describes_probe; cbn
    | |- describes_matcher _ _ => unfold describes_matcher; cbn
    | |- describes_report _ _ => unfold describes_report; cbn
    | |- _ ∨ _ => right; split; reflexivity
    | |- _ = _ => reflexivity
    end.
  - exact H.
  - vm_compute in H. discriminate H.
Defined.

Lemma parse_config_valid_witness :
  @parse_config YNode (YNode_Yaml (λ _, Some example_doc)) "redis.yaml" = Ok example_config ∧
  config_valid example_config.
Proof.
  split; [vm_compute; reflexivity|].
  apply (@parse_config_valid YNode (YNode_Yaml (λ _, Some example_doc)) "redis.yaml").
  vm_compute. reflexivity.
Defined.

Lemma parse_config_kretprobe_unchecked_witness :
  config_valid example_config ∧
  validate_probes (c_probes example_config ++ [mkProbe "ret" "kretprobe" "" "" 1 ""]) = None.
Proof.
  assert (config_valid example_config) as H.
  { split; [done|]. repeat constructor; cbn; naive_solver. }
  split; [exact H|].
  apply (parse_config_kretprobe_unchecked "ret" 1 (c_probes example_config) example_config H eq_refl).
Defined.
