(* ===== verification/BpfGen.v ===== *)
(** Generation and compilation of the BPF program (src/src/bpf_gen.cpp): the text
    [generate_bpf_source] writes, the shell commands it and [compile_bpf] run, and
    the names of the programs the text defines.  The file system, [system] and
    clang are outside: the model returns the text and the commands. *)
From stdpp Require Import base strings list pretty sets.
From Stdlib Require Import ZArith Lia Ascii.
From S2P Require Import Prelude Config.

#[local] Open Scope Z_scope.
#[local] Open Scope string_scope.

(** A newline and a double quote. *)
Definition nl : string := String "010"%char EmptyString.
Definition dq : string := String "034"%char EmptyString.
Definition line (s : string) : string := s +:+ nl.
Definition quoted (s : string) : string := dq +:+ s +:+ dq.

Fixpoint concat_str (l : list string) : string :=
  match l with [] => "" | s :: l => s +:+ concat_str l end.

(** * [std::string] searches

    [find]/[rfind] of a character: [None] is [npos], and [npos + 1] is 0. *)

Fixpoint str_find (c : ascii) (s : string) : option nat :=
  match s with
  | EmptyString => None
  | String a s => if Ascii.eqb a c then Some 0%nat else S <$> str_find c s
  end.

Fixpoint str_rfind (c : ascii) (s : string) : option nat :=
  match s with
  | EmptyString => None
  | String a s =>
      match str_rfind c s with
      | Some i => Some (S i)
      | None => if Ascii.eqb a c then Some 0%nat else None
      end
  end.

Definition npos_succ (o : option nat) : nat := match o with Some i => S i | None => 0%nat end.

(** [s.substr(0, n)] and [s.substr(n)] *)
Definition substr_to (s : string) (n : nat) : string := String.substring 0 n s.
Definition substr_from (s : string) (n : nat) : string :=
  String.substring n (String.length s - n) s.

(** [s.substr(0, o)] with [npos] meaning the whole string *)
Definition substr_upto (s : string) (o : option nat) : string :=
  match o with Some n => substr_to s n | None => s end.

(** * [generate_bpf_source] *)

(** [p.key.substr(0, 5) == "ctx->"] *)
Definition key_is_ctx (p : ProbeConfig) : bool := String.eqb (substr_to (p_key p) 5) "ctx->".

(** [for (auto &p : cfg.probes) if (p.key == "arg1" || p.key == "arg2") need_tracing_h = true;] *)
Definition need_tracing_h (cfg : Config) : bool :=
  existsb (λ p, String.eqb (p_key p) "arg1" || String.eqb (p_key p) "arg2") (c_probes cfg).

Definition gen_header (cfg : Config) : string :=
  concat_str
    ([line "// Auto-generated by LensX V2 — do not edit";
      line ("#include " +:+ quoted "vmlinux.h");
      line "#include <bpf_helpers.h>"] ++
     (if need_tracing_h cfg then [line "#include <bpf_tracing.h>"] else []) ++
     [nl +:+ line "struct event {";
      line "    __u64 ts;";
      line "    __u32 tid;";
      line "    __u8  stage;";
      line "    __u8  pad[3];";
      line "    __u64 key;";
      line "};" +:+ nl;
      line "struct {";
      line "    __uint(type, BPF_MAP_TYPE_RINGBUF);";
      line "    __uint(max_entries, 1 << 20);";
      line ("} rb SEC(" +:+ quoted ".maps" +:+ ");") +:+ nl;
      line ("char _license[] SEC(" +:+ quoted "license" +:+ ") = " +:+ quoted "GPL" +:+ ";") +:+ nl]).

(** The event's name after its last slash. *)
Definition tp_struct_name (p : ProbeConfig) : string :=
  match str_rfind "/" (p_event p) with
  | Some i => substr_from (p_event p) (S i)
  | None => p_event p
  end.

(** The [SEC] line and the first line of the function. *)
Definition gen_probe_head (p : ProbeConfig) : string :=
  if String.eqb (p_type p) "tracepoint" then
    line ("SEC(" +:+ quoted ("tracepoint/" +:+ p_event p) +:+ ")") +:+
    (if key_is_ctx p
     then line ("int tp_" +:+ p_name p +:+ "(struct trace_event_raw_" +:+ tp_struct_name p +:+ " *ctx) {")
     else line ("int tp_" +:+ p_name p +:+ "(void *ctx) {"))
  else if String.eqb (p_type p) "kprobe" || String.eqb (p_type p) "kretprobe" then
    line ("SEC(" +:+ quoted (p_type p +:+ "/" +:+ p_symbol p) +:+ ")") +:+
    line ("int kp_" +:+ p_name p +:+ "(struct pt_regs *ctx) {")
  else
    line ("SEC(" +:+ quoted "uprobe" +:+ ")") +:+
    line ("int up_" +:+ p_name p +:+ "(struct pt_regs *ctx) {").

Definition gen_probe_key (p : ProbeConfig) : string :=
  if String.eqb (p_key p) "arg1" then line "    e.key   = PT_REGS_PARM1(ctx);"
  else if String.eqb (p_key p) "arg2" then line "    e.key   = PT_REGS_PARM2(ctx);"
  else if key_is_ctx p then line ("    e.key   = " +:+ p_key p +:+ ";")
  else line "    e.key   = 0;".

Definition gen_probe (p : ProbeConfig) : string :=
  gen_probe_head p +:+
  line "    struct event e = {};" +:+
  line "    e.ts    = bpf_ktime_get_ns();" +:+
  line "    e.tid   = (__u32)bpf_get_current_pid_tgid();" +:+
  line ("    e.stage = " +:+ pretty (p_stage p) +:+ ";") +:+
  gen_probe_key p +:+
  line "    bpf_ringbuf_output(&rb, &e, sizeof(e), 0);" +:+
  line "    return 0;" +:+
  line "}" +:+ nl.

Definition bpf_source (cfg : Config) : string :=
  gen_header cfg +:+ concat_str (map gen_probe (c_probes cfg)).

Definition vmlinux_src : string := "/home/qiwang/LensX/build/vmlinux.h".

(** The result: the text written to [out_c] and the copy command that is run when
    [vmlinux_src] exists. [can_open] and [have_vmlinux] are the environment's. *)
Definition generate_bpf_source (can_open have_vmlinux : bool) (cfg : Config) (out_c : string)
    : res (string * option string) :=
  if negb can_open then Exit ("error: cannot write " +:+ out_c)
  else
    let vmlinux_dst := substr_to out_c (npos_succ (str_rfind "/" out_c)) +:+ "vmlinux.h" in
    Ok (bpf_source cfg,
        if have_vmlinux then Some ("cp -f " +:+ vmlinux_src +:+ " " +:+ vmlinux_dst) else None).

(** * [compile_bpf] *)

Definition bpf_obj_path (c_path : string) : string :=
  substr_upto c_path (str_rfind "." c_path) +:+ ".bpf.o".

Definition bpf_compile_cmd (have_usr_bin_clang : bool) (c_path : string) : string :=
  let base := substr_upto c_path (str_rfind "." c_path) in
  let dir := substr_to base (npos_succ (str_rfind "/" base)) in
  let clang := if have_usr_bin_clang then "/usr/bin/clang" else "clang" in
  clang +:+ " -g -O2 -target bpf -D__TARGET_ARCH_x86"
    +:+ " -I" +:+ dir
    +:+ " -I/home/qiwang/LensX/libbpf/src"
    +:+ " -I/home/qiwang/LensX/libbpf/include/uapi"
    +:+ " -c " +:+ c_path +:+ " -o " +:+ bpf_obj_path c_path +:+ " 2>/dev/null".

(** [system] is the environment's: it maps a command to its exit status. *)
Definition compile_bpf (system : string → Z) (have_usr_bin_clang : bool) (c_path : string)
    : res string :=
  let rc := system (bpf_compile_cmd have_usr_bin_clang c_path) in
  if (rc =? 0)%Z then Ok (bpf_obj_path c_path)
  else Exit ("error: BPF compilation failed (exit " +:+ pretty rc +:+ ")").

(** * The name [main] looks a probe's program up by *)

Definition prog_name (p : ProbeConfig) : string :=
  (if String.eqb (p_type p) "tracepoint" then "tp_"
   else if String.eqb (p_type p) "kprobe" || String.eqb (p_type p) "kretprobe" then "kp_"
   else "up_") +:+ p_name p.

(** * Lemmas *)

Lemma str_app_cons x (a b : string) : String x a +:+ b = String x (a +:+ b).
Proof. reflexivity. Qed.

Lemma str_app_nil_l (b : string) : "" +:+ b = b.
Proof. reflexivity. Qed.

Lemma str_app_assoc (a b c : string) : (a +:+ b) +:+ c = a +:+ (b +:+ c).
Proof. induction a as [|x a IH]; [done|]. by rewrite !str_app_cons, IH. Qed.

Lemma str_app_nil (a : string) : a +:+ "" = a.
Proof. induction a as [|x a IH]; [done|]. by rewrite str_app_cons, IH. Qed.

Lemma str_app_inj (a b c : string) : a +:+ b = a +:+ c → b = c.
Proof. induction a as [|x a IH]; [done|]. rewrite !str_app_cons. intros H. injection H. auto. Qed.

Lemma str_length_app (a b : string) : String.length (a +:+ b) = (String.length a + String.length b)%nat.
Proof. induction a as [|x a IH]; [done|]. rewrite str_app_cons. cbn. by rewrite IH. Qed.

Lemma concat_str_app l1 l2 : concat_str (l1 ++ l2) = concat_str l1 +:+ concat_str l2.
Proof. induction l1 as [|s l1 IH]; [done|]. cbn. by rewrite IH, str_app_assoc. Qed.

Lemma concat_str_elem s l : s ∈ l → ∃ pre post, concat_str l = pre +:+ s +:+ post.
Proof.
  intros (l1 & l2 & ->)%list_elem_of_split. exists (concat_str l1), (concat_str l2).
  by rewrite concat_str_app.
Qed.

Lemma substr_to_app (a b : string) : substr_to (a +:+ b) (String.length a) = a.
Proof.
  induction a as [|x a IH]; [by destruct b|]. rewrite str_app_cons. unfold substr_to in *. cbn. by rewrite IH.
Qed.

Lemma substr_to_all (a : string) : substr_to a (String.length a) = a.
Proof. unfold substr_to. induction a as [|x a IH]; [done|]. cbn. by rewrite IH. Qed.

Lemma substring_from_app (a b : string) n :
  String.substring (String.length a) n (a +:+ b) = String.substring 0 n b.
Proof. induction a as [|x a IH]; [done|]. rewrite str_app_cons. exact IH. Qed.

Lemma substr_from_app (a b : string) : substr_from (a +:+ b) (String.length a) = b.
Proof.
  unfold substr_from. rewrite substring_from_app, str_length_app.
  replace (String.length a + String.length b - String.length a)%nat with (String.length b) by lia.
  apply substr_to_all.
Qed.

Fixpoint has_char (c : ascii) (s : string) : bool :=
  match s with EmptyString => false | String a s => Ascii.eqb a c || has_char c s end.

Lemma str_rfind_none c s : has_char c s = false → str_rfind c s = None.
Proof.
  induction s as [|a s IH]; cbn; [done|]. intros [H1 H2]%orb_false_iff. rewrite IH by done.
  by rewrite H1.
Qed.

(** The last occurrence is found past any prefix. *)
Lemma str_rfind_app c (a b : string) :
  has_char c b = false → str_rfind c (a +:+ String c b) = Some (String.length a).
Proof.
  intros Hb. induction a as [|x a IH]; rewrite ?str_app_cons, ?str_app_nil_l; cbn.
  - rewrite str_rfind_none by done. by rewrite Ascii.eqb_refl.
  - rewrite IH. done.
Qed.

Lemma str_find_app c (a b : string) :
  has_char c a = false → str_find c (a +:+ String c b) = Some (String.length a).
Proof.
  induction a as [|x a IH]; rewrite ?str_app_cons, ?str_app_nil_l; cbn; [by rewrite Ascii.eqb_refl|].
  intros [H1 H2]%orb_false_iff. rewrite H1, IH by done. done.
Qed.

(** * Specification: the program of a probe *)

(** The section, which tells libbpf the type of the program and what it attaches to; [main]
    attaches a uprobe by itself. *)
Definition probe_section (p : ProbeConfig) (sec : string) : Prop :=
  (p_type p = "tracepoint" → sec = "tracepoint/" +:+ p_event p) ∧
  (p_type p = "kprobe" → sec = "kprobe/" +:+ p_symbol p) ∧
  (p_type p = "kretprobe" → sec = "kretprobe/" +:+ p_symbol p) ∧
  (p_type p ∉ ["tracepoint"; "kprobe"; "kretprobe"] → sec = "uprobe").

(** The context: the fields of a tracepoint [category/name], or [name] alone, are those of
    the struct that vmlinux.h has for it. *)
Definition probe_context (p : ProbeConfig) (arg : string) : Prop :=
  (p_type p = "tracepoint" → ∀ category name field,
     p_event p = name ∨ p_event p = category +:+ "/" +:+ name → has_char "/" name = false → p_key p = "ctx->" +:+ field → arg = "struct trace_event_raw_" +:+ name +:+ " *") ∧
  (p_type p = "tracepoint" → (∀ field, p_key p ≠ "ctx->" +:+ field) → arg = "void *") ∧
  (p_type p ≠ "tracepoint" → arg = "struct pt_regs *").

(** The key that is reported. *)
Definition probe_key (p : ProbeConfig) (key : string) : Prop :=
  (p_key p = "arg1" → key = "PT_REGS_PARM1(ctx)") ∧ (p_key p = "arg2" → key = "PT_REGS_PARM2(ctx)") ∧
  (∀ field, p_key p = "ctx->" +:+ field → key = p_key p) ∧
  (p_key p ∉ ["arg1"; "arg2"] → (∀ field, p_key p ≠ "ctx->" +:+ field) → key = "0").

Lemma key_is_ctx_iff p : key_is_ctx p = true ↔ ∃ field, p_key p = "ctx->" +:+ field.
Proof.
  unfold key_is_ctx. rewrite String.eqb_eq. split.
  - generalize (p_key p). intros k H. do 5 (destruct k as [|? k]; [discriminate H|]). cbn in H. injection H as -> -> -> -> ->.
    + by exists k.
  - intros [field ->]. apply (substr_to_app "ctx->").
Qed.

Lemma probe_section_of p : probe_section p
  (if String.eqb (p_type p) "tracepoint" then "tracepoint/" +:+ p_event p
   else if String.eqb (p_type p) "kprobe" || String.eqb (p_type p) "kretprobe" then p_type p +:+ "/" +:+ p_symbol p else "uprobe").
Proof.
  unfold probe_section. destruct (String.eqb_spec (p_type p) "tracepoint") as [->|H1]; [split_and!; [done..|]; set_solver|].
  destruct (String.eqb_spec (p_type p) "kprobe") as [->|H2]; [split_and!; [done..|]; set_solver|].
  destruct (String.eqb_spec (p_type p) "kretprobe") as [->|H3]; [split_and!; [done..|]; set_solver|]. done.
Qed.

Lemma tp_struct_name_of p category name : p_event p = name ∨ p_event p = category +:+ "/" +:+ name → has_char "/" name = false →
  tp_struct_name p = name.
Proof.
  unfold tp_struct_name. intros [-> | ->] Hn; [by rewrite str_rfind_none|]. change ("/" +:+ name) with (String "/" name). rewrite str_rfind_app by done.
  replace (category +:+ String "/" name) with ((category +:+ "/") +:+ name) by (by rewrite str_app_assoc).
  replace (S (String.length category)) with (String.length (category +:+ "/")) by (rewrite str_length_app; cbn; lia).
  apply substr_from_app.
Qed.

Lemma probe_context_of p : probe_context p
  (if String.eqb (p_type p) "tracepoint" then if key_is_ctx p then "struct trace_event_raw_" +:+ tp_struct_name p +:+ " *" else "void *"
   else "struct pt_regs *").
Proof.
  unfold probe_context. pose proof (key_is_ctx_iff p) as Hk. destruct (String.eqb_spec (p_type p) "tracepoint") as [->|H1]; [|done].
  split_and!; [| |done].
  - intros _ category name field He Hn Hf. rewrite (proj2 Hk) by (by exists field). by rewrite (tp_struct_name_of p category name).
  - intros _ Hf. destruct (key_is_ctx p); [|done]. destruct (proj1 Hk eq_refl) as [field ?]. by destruct (Hf field).
Qed.

Lemma probe_key_of p : probe_key p
  (if String.eqb (p_key p) "arg1" then "PT_REGS_PARM1(ctx)" else if String.eqb (p_key p) "arg2" then "PT_REGS_PARM2(ctx)"
   else if key_is_ctx p then p_key p else "0").
Proof.
  unfold probe_key. pose proof (key_is_ctx_iff p) as Hk.
  destruct (String.eqb_spec (p_key p) "arg1") as [->|H1]; [split_and!; [done..|by intros|set_solver]|].
  destruct (String.eqb_spec (p_key p) "arg2") as [->|H2]; [split_and!; [done..|by intros|set_solver]|].
  split_and!; [done..| |].
  - intros field Hf. by rewrite (proj2 Hk) by (by exists field).
  - intros _ Hf. destruct (key_is_ctx p); [|done]. destruct (proj1 Hk eq_refl) as [field ?]. by destruct (Hf field).
Qed.

(** The program of the probe, as C text. *)
Definition program_text (name sec arg key : string) (stage : Z) : string :=
  line ("SEC(" +:+ quoted sec +:+ ")") +:+
  line ("int " +:+ name +:+ "(" +:+ arg +:+ "ctx) {") +:+
  line "    struct event e = {};" +:+
  line "    e.ts    = bpf_ktime_get_ns();" +:+
  line "    e.tid   = (__u32)bpf_get_current_pid_tgid();" +:+
  line ("    e.stage = " +:+ pretty stage +:+ ";") +:+
  line ("    e.key   = " +:+ key +:+ ";") +:+
  line "    bpf_ringbuf_output(&rb, &e, sizeof(e), 0);" +:+
  line "    return 0;" +:+
  line "}".

(** The text a probe contributes is its program. *)
Lemma gen_probe_defines p : ∃ sec arg key, probe_section p sec ∧ probe_context p arg ∧ probe_key p key ∧
  gen_probe p = program_text (prog_name p) sec arg key (p_stage p) +:+ nl.
Proof.
  eexists _, _, _. split; [apply probe_section_of|]. split; [apply probe_context_of|]. split; [apply probe_key_of|].
  unfold gen_probe, gen_probe_head, gen_probe_key, program_text, prog_name, line.
  destruct (String.eqb (p_type p) "tracepoint"), (String.eqb (p_type p) "kprobe" || String.eqb (p_type p) "kretprobe"),
    (String.eqb (p_key p) "arg1"), (String.eqb (p_key p) "arg2"), (key_is_ctx p); by rewrite ?str_app_assoc.
Qed.

(** * Properties *)

(** C39. Every configured probe has its program in the generated text: under exactly the
    name by which [main] looks it up in the loaded object, in the section of its type
    and event or symbol, with the context its key needs, reporting its stage and its
    key. *)
Theorem generate_defines_programs have_vmlinux cfg out_c p :
  p ∈ c_probes cfg →
  ∃ text copy pre sec arg key post, generate_bpf_source true have_vmlinux cfg out_c = Ok (text, copy) ∧
    text = pre +:+ program_text (prog_name p) sec arg key (p_stage p) +:+ post ∧
    probe_section p sec ∧ probe_context p arg ∧ probe_key p key.
Proof.
  intros Hp. destruct (gen_probe_defines p) as (sec & arg & key & Hs & Ha & Hk & Hg).
  destruct (concat_str_elem (gen_probe p) (map gen_probe (c_probes cfg))) as (pre & post & Hc).
  { by apply list_elem_of_fmap_2. }
  eexists _, _, (gen_header cfg +:+ pre), sec, arg, key, (nl +:+ post). split; [reflexivity|]. split; [|done].
  unfold bpf_source. by rewrite Hc, Hg, !str_app_assoc.
Qed.

(** The kind prefixes keep the three program name spaces apart: two probes share a
    program name only if they share the probe name and the prefix. *)
Theorem prog_name_inj p q :
  prog_name p = prog_name q →
  p_name p = p_name q ∧
  (String.eqb (p_type p) "tracepoint" = String.eqb (p_type q) "tracepoint") ∧
  (String.eqb (p_type p) "kprobe" || String.eqb (p_type p) "kretprobe" =
   String.eqb (p_type q) "kprobe" || String.eqb (p_type q) "kretprobe").
Proof.
  unfold prog_name. intros H.
  destruct (String.eqb_spec (p_type p) "tracepoint") as [Ep|], (String.eqb_spec (p_type q) "tracepoint") as [Eq|].
  - rewrite Ep, Eq. apply str_app_inj in H. done.
  - destruct (_ || _) in H; discriminate H.
  - destruct (_ || _) in H; discriminate H.
  - destruct (String.eqb (p_type p) "kprobe" || String.eqb (p_type p) "kretprobe"),
      (String.eqb (p_type q) "kprobe" || String.eqb (p_type q) "kretprobe");
      first [apply str_app_inj in H; done|discriminate H].
Qed.

(** The paths for a source [dir/file.c]: the object is [dir/file.bpf.o], the header
    is copied to [dir/vmlinux.h], and [dir/] is on clang's include path. *)
Theorem bpf_paths dir file can_vm cfg system clang :
  has_char "/" file = false → has_char "." file = false →
  let c_path := dir +:+ "/" +:+ file +:+ ".c" in
  generate_bpf_source true can_vm cfg c_path =
    Ok (bpf_source cfg, if can_vm then Some ("cp -f " +:+ vmlinux_src +:+ " " +:+ dir +:+ "/vmlinux.h") else None) ∧
  (compile_bpf system clang c_path = Ok (dir +:+ "/" +:+ file +:+ ".bpf.o") ∨
   ∃ msg, compile_bpf system clang c_path = Exit msg) ∧
  ∃ post, bpf_compile_cmd clang c_path =
    (if clang then "/usr/bin/clang" else "clang") +:+
    " -g -O2 -target bpf -D__TARGET_ARCH_x86 -I" +:+ dir +:+ "/ " +:+ post.
Proof.
  intros Hs Hd c_path.
  assert (str_rfind "." c_path = Some (String.length (dir +:+ "/" +:+ file))) as Hdot.
  { replace c_path with ((dir +:+ "/" +:+ file) +:+ String "." "c") by (by rewrite !str_app_assoc).
    by apply str_rfind_app. }
  assert (∀ s, has_char "/" s = false → str_rfind "/" (dir +:+ "/" +:+ s) = Some (String.length dir)) as Hsl.
  { intros s H. by apply str_rfind_app. }
  assert (has_char "/" (file +:+ ".c") = false) as Hs'.
  { clear -Hs. induction file as [|a f IH]; [done|]. rewrite str_app_cons. cbn in *.
    apply orb_false_iff in Hs as [-> H]. by apply IH. }
  assert (c_path = (dir +:+ "/" +:+ file) +:+ ".c") as Hc by (unfold c_path; by rewrite !str_app_assoc).
  assert (substr_upto c_path (str_rfind "." c_path) = dir +:+ "/" +:+ file) as Hbase.
  { rewrite Hdot, Hc. apply substr_to_app. }
  assert (∀ s, substr_to (dir +:+ "/" +:+ s) (S (String.length dir)) = dir +:+ "/") as Hdir.
  { intros s. rewrite <- (str_app_assoc dir "/" s).
    replace (S (String.length dir)) with (String.length (dir +:+ "/")).
    - apply substr_to_app.
    - rewrite str_length_app. cbn. lia. }
  assert (bpf_obj_path c_path = dir +:+ "/" +:+ file +:+ ".bpf.o") as Hobj.
  { unfold bpf_obj_path. rewrite Hbase. by rewrite !str_app_assoc. }
  split_and!.
  - unfold generate_bpf_source. cbn [negb]. unfold c_path. rewrite (Hsl _ Hs'). cbn [npos_succ].
    rewrite Hdir. by rewrite !str_app_assoc.
  - unfold compile_bpf. destruct (Z.eqb _ _); [left; by rewrite Hobj|right; eauto].
  - unfold bpf_compile_cmd. rewrite Hbase, (Hsl _ Hs). cbn [npos_succ]. rewrite Hdir.
    eexists. rewrite !str_app_assoc. cbn. reflexivity.
Qed.

Lemma generate_defines_programs_witness :
  ∃ text copy pre post, generate_bpf_source true false example_config "/tmp/a.c" = Ok (text, copy) ∧
    text = pre +:+ program_text "tp_done" "tracepoint/io_uring/io_uring_complete" "struct trace_event_raw_io_uring_complete *"
      "ctx->user_data" 1 +:+ post.
Proof.
  destruct (generate_defines_programs false example_config "/tmp/a.c"
    (mkProbe "done" "tracepoint" "" "io_uring/io_uring_complete" 1 "ctx->user_data"))
    as (text & copy & pre & sec & arg & key & post & H & Ht & Hs & Ha & Hk).
  - apply list_elem_of_further, list_elem_of_here.
  - exists text, copy, pre, post. split; [exact H|]. rewrite Ht.
    rewrite (proj1 Hs eq_refl), (proj1 Ha eq_refl "io_uring" "io_uring_complete" "user_data" (or_intror eq_refl) eq_refl eq_refl).
    rewrite (proj1 (proj2 (proj2 Hk)) "user_data" eq_refl). reflexivity.
Defined.

Lemma prog_name_inj_witness :
  let p := mkProbe "x" "kprobe" "f" "" 0 "" in let q := mkProbe "x" "kretprobe" "g" "" 1 "" in
  prog_name p = prog_name q ∧ p_name p = p_name q.
Proof.
  split; [reflexivity|].
  apply (prog_name_inj (mkProbe "x" "kprobe" "f" "" 0 "") (mkProbe "x" "kretprobe" "g" "" 1 "")).
  reflexivity.
Defined.

Lemma bpf_paths_witness :
  compile_bpf (λ _, 0) true "/tmp/lensx_a1B2c3.c" = Ok "/tmp/lensx_a1B2c3.bpf.o".
Proof.
  destruct (bpf_paths "/tmp" "lensx_a1B2c3" false example_config (λ _, 0) true eq_refl eq_refl)
    as (_ & [H|(msg & H)] & _).
  - exact H.
  - vm_compute in H. discriminate H.
Defined.
