(* ===== verification/Pipeline.v ===== *)
(** The measuring pipeline of [main] (src/src/lensx.cpp): matchers, FIFO queues and
    histograms are built from the configuration and wired by callbacks, every ring
    buffer sample is fed to every matcher, and what is left in the matchers is
    drained before the reports are printed.

    The callbacks capture references to [hists], to the CSV file and to the FIFO
    queues, which all of them share: they act on one [World].  A pointer to a
    matcher is its index in [matchers], a pointer to a queue its key in [fifo_map]
    (no key is assigned again once a callback has captured it). *)
From stdpp Require Import base gmap strings list.
From Stdlib Require Import ZArith Lia.
From S2P Require Import Prelude Bytes Events SeqMatcher KeyMatcher FifoQueue Hist Config.

#[local] Open Scope Z_scope.

Record World := mkWorld {
  w_hists : gmap string Hist;
  w_fifos : gmap string FifoQueue;
  w_csv : csv_file;
}.

(** [hists[name].record(...)]: a new name gets an empty histogram *)
Definition hists_record (w : World) (name : string) (val_ns from to ts_from ts_to tid : Z)
    : option World :=
  '(h, csv) ← Hist_record (default hist_init (w_hists w !! name)) (w_csv w) val_ns from to ts_from ts_to tid;
  Some (mkWorld (<[name := h]> (w_hists w)) (w_fifos w) csv).

Inductive Matcher :=
  | MSeq (m : SeqMatcher World)
  | MKey (m : KeyMatcher).

(** [m->feed(re)], by dynamic dispatch *)
Definition Matcher_feed (m : Matcher) (e : RawEvent) (w : World) : option (Matcher * World) :=
  match m with
  | MSeq m => '(m, w) ← SeqMatcher_feed m e w; Some (MSeq m, w)
  | MKey m => m ← KeyMatcher_feed m e; Some (MKey m, w)
  end.

Definition Matcher_drain (m : Matcher) : list Delta :=
  match m with
  | MSeq m => (SeqMatcher_drain m).1
  | MKey m => (KeyMatcher_drain m).1
  end.

(** * Construction *)

Record Setup := mkSetup {
  st_matchers : list Matcher;
  st_seq_map : gmap string nat;
  st_fifos : gmap string FifoQueue;
}.

(** One turn of [for (auto &mc : cfg.matchers)]. *)
Definition add_matcher (st : Setup) (mc : MatcherConfig) : option Setup :=
  if String.eqb (m_mode mc) "seq" then
    m ← SeqMatcher_new (m_id mc) (m_stages mc);
    Some (mkSetup (st_matchers st ++ [MSeq m])
                  (<[m_id mc := length (st_matchers st)]> (st_seq_map st)) (st_fifos st))
  else if String.eqb (m_mode mc) "key" then
    m ← KeyMatcher_new (m_id mc) (m_stages mc);
    Some (mkSetup (st_matchers st ++ [MKey m]) (st_seq_map st) (st_fifos st))
  else if String.eqb (m_mode mc) "fifo" then
    if (length (m_stages mc) <? 2)%nat then Some st
    else
      f ← FifoQueue_new (m_id mc) (m_queue_size mc);
      Some (mkSetup (st_matchers st) (st_seq_map st) (<[m_id mc := f]> (st_fifos st)))
  else Some st.

(** [report_keys[{r.from, r.to}] = r.name] *)
Definition report_keys (rs : list ReportConfig) : gmap (Z * Z) string :=
  foldl (λ m r, <[(r_from r, r_to r) := r_name r]> m) ∅ rs.

(** The completion callback of every seq matcher: all pairs of stages [i < j] of the
    snapshot that a report asks for. *)
Definition report_cb (keys : gmap (Z * Z) string) (s : StageSnapshot) (w : World) : option World :=
  foldM (λ w i,
    if has_bit (snap_stages s) i then
      foldM (λ w j,
        if has_bit (snap_stages s) j then
          match keys !! (i, j) with
          | Some name =>
              a ← snap_ts s !! i; b ← snap_ts s !! j;
              hists_record w name (u64 (b - a)) i j a b (snap_tid s)
          | None => Some w
          end
        else Some w) w (seqZ (i + 1) (64 - (i + 1)))
    else Some w) w (seqZ 0 64).

(** The callback that pushes a timestamp of a completed group. *)
Definition fifo_push_cb (fkey : string) (push_stage : Z) (s : StageSnapshot) (w : World) : option World :=
  b ← shl1 push_stage;
  if Z.land (snap_stages s) b =? 0 then Some w
  else
    f ← w_fifos w !! fkey;
    ts ← snap_ts s !! push_stage;
    f ← FifoQueue_push f push_stage ts;
    Some (mkWorld (w_hists w) (<[fkey := f]> (w_fifos w)) (w_csv w)).

(** The callback that pops one and records the latency. *)
Definition fifo_pop_cb (fkey name : string) (from to pop_stage : Z) (s : StageSnapshot) (w : World)
    : option World :=
  b ← shl1 pop_stage;
  if Z.land (snap_stages s) b =? 0 then Some w
  else
    f ← w_fifos w !! fkey;
    '(f, r) ← FifoQueue_pop f pop_stage;
    let w := mkWorld (w_hists w) (<[fkey := f]> (w_fifos w)) (w_csv w) in
    match r with
    | Some push_ts =>
        ts ← snap_ts s !! pop_stage;
        hists_record w name (u64 (ts - push_ts)) from to push_ts ts (snap_tid s)
    | None => Some w
    end.

(** [matchers[idx]->onComplete(cb)] *)
Definition on_complete (ms : list Matcher) (idx : nat) (cb : StageSnapshot → World → option World)
    : list Matcher :=
  alter (λ m, match m with MSeq m => MSeq (SeqMatcher_onComplete cb m) | MKey m => MKey m end) idx ms.

Definition matcher_has_stage (ms : list Matcher) (idx : nat) (stage : Z) : option bool :=
  match ms !! idx with Some (MSeq m) => SeqMatcher_hasStage m stage | _ => None end.

(** The loop over [seq_map] that looks for the matchers of the two stages; [order]
    is the order in which the unordered map is iterated. *)
Definition find_seqs (ms : list Matcher) (order : list (string * nat)) (r : ReportConfig)
    : option (option nat * option nat) :=
  foldM (λ '(push_seq, pop_seq) '(_, idx),
    hp ← matcher_has_stage ms idx (r_from r);
    hq ← matcher_has_stage ms idx (r_to r);
    Some (if hp : bool then Some idx else push_seq, if hq : bool then Some idx else pop_seq))
  (None, None) order.

(** One turn of [for (auto &r : cfg.reports)]: a report across two seq matchers gets
    a queue and the two callbacks. *)
Definition wire_report (order : list (string * nat)) (st : Setup) (r : ReportConfig) : option Setup :=
  '(push_seq, pop_seq) ← find_seqs (st_matchers st) order r;
  match push_seq, pop_seq with
  | Some p, Some q =>
      if decide (p = q) then Some st
      else
        let fkey := r_name r in
        fifos ← match st_fifos st !! fkey with
                | Some _ => Some (st_fifos st)
                | None => f ← FifoQueue_new fkey 4096; Some (<[fkey := f]> (st_fifos st))
                end;
        let ms := on_complete (st_matchers st) p (fifo_push_cb fkey (r_from r)) in
        let ms := on_complete ms q (fifo_pop_cb fkey (r_name r) (r_from r) (r_to r) (r_to r)) in
        Some (mkSetup ms (st_seq_map st) fifos)
  | _, _ => Some st
  end.

(** Steps 6: matchers, report callbacks, then the queues of the reports. *)
Definition setup (iter : gmap string nat → list (string * nat)) (cfg : Config) : option Setup :=
  st ← foldM add_matcher (mkSetup [] ∅ ∅) (c_matchers cfg);
  let order := iter (st_seq_map st) in
  let keys := report_keys (c_reports cfg) in
  let ms := foldl (λ ms '(_, idx), on_complete ms idx (report_cb keys)) (st_matchers st) order in
  foldM (wire_report order) (mkSetup ms (st_seq_map st) (st_fifos st)) (c_reports cfg).

(** * The event loop *)

(** [sizeof(RawEvent)] and the offsets of its fields (x86-64 ABI) *)
Definition RAW_EVENT_SIZE : Z := 24.

Definition decode_event (data : list Z) : option RawEvent :=
  ts ← load64 data 0; tid ← load32 data 8; stage ← load8 data 12; key ← load64 data 16;
  Some (mkEvent ts tid stage key).

Fixpoint feed_matchers (ms : list Matcher) (e : RawEvent) (w : World) : option (list Matcher * World) :=
  match ms with
  | [] => Some ([], w)
  | m :: ms =>
      '(m, w) ← Matcher_feed m e w;
      '(ms, w) ← feed_matchers ms e w;
      Some (m :: ms, w)
  end.

(** [handle_ring_event]: a sample shorter than an event is ignored. *)
Definition handle_ring_event (s : list Matcher * World) (data : list Z) : option (list Matcher * World) :=
  if Z.of_nat (length data) <? RAW_EVENT_SIZE then Some s
  else
    e ← decode_event data;
    feed_matchers s.1 e s.2.

(** * Draining and reporting *)

Definition record_delta (keys : gmap (Z * Z) string) (w : World) (d : Delta) : option World :=
  match keys !! (from_stage d, to_stage d) with
  | Some name =>
      hists_record w name (val_ns d) (from_stage d) (to_stage d) (ts_from d) (ts_to d) (delta_tid d)
  | None => Some w
  end.

Definition drain_matchers (keys : gmap (Z * Z) string) (ms : list Matcher) (w : World) : option World :=
  foldM (record_delta keys) w (flat_map Matcher_drain ms).

(** From the configuration and the samples to the final histograms. *)
Definition collect (iter : gmap string nat → list (string * nat)) (cfg : Config) (csv : csv_file)
    (samples : list (list Z)) : option World :=
  st ← setup iter cfg;
  '(ms, w) ← foldM handle_ring_event (st_matchers st, mkWorld ∅ (st_fifos st) csv) samples;
  drain_matchers (report_keys (c_reports cfg)) ms w.

(** The report section: one entry per configured report, or every histogram (in the
    map's order [iter_hists]) when there is none. *)
Definition report_output (iter_hists : gmap string Hist → list (string * Hist)) (cfg : Config) (w : World)
    : list (string * option (list HistRow * list string)) :=
  match c_reports cfg with
  | [] => map (λ '(key, hist), (key, Hist_print hist)) (iter_hists (w_hists w))
  | rs => map (λ r, (r_name r, h ← w_hists w !! r_name r; Hist_print h)) rs
  end.

(** * The BPF side: the bytes the generated program outputs for an event *)

(** [struct event { __u64 ts; __u32 tid; __u8 stage; __u8 pad[3]; __u64 key; }],
    zero-initialised *)
Definition encode_event (e : RawEvent) : list Z :=
  le_bytes 8 (ev_ts e) ++ le_bytes 4 (ev_tid e) ++ le_bytes 1 (ev_stage e) ++ [0; 0; 0] ++
  le_bytes 8 (ev_key e).

(** * Lemmas *)

Lemma decode_encode_event e : event_ok e → decode_event (encode_event e) = Some e.
Proof.
  intros (H1 & H2 & H3 & H4). unfold decode_event, encode_event.
  set (a := le_bytes 8 (ev_ts e)). set (b := le_bytes 4 (ev_tid e)).
  set (c := le_bytes 1 (ev_stage e)). set (d := le_bytes 8 (ev_key e)).
  assert (length a = 8%nat ∧ length b = 4%nat ∧ length c = 1%nat ∧ length d = 8%nat)
    as (La & Lb & Lc & Ld) by (unfold a, b, c, d; by rewrite !length_le_bytes).
  set (m := a ++ b ++ c ++ [0; 0; 0] ++ d).
  assert (load64 m 0 = Some (le_val a)) as ->.
  { apply (load_app_mid [] a (b ++ c ++ [0; 0; 0] ++ d)); done. }
  assert (load32 m 8 = Some (le_val b)) as ->.
  { apply (load_app_mid a b (c ++ [0; 0; 0] ++ d)); lia. }
  assert (load8 m 12 = Some (le_val c)) as ->.
  { replace m with ((a ++ b) ++ c ++ [0; 0; 0] ++ d) by by rewrite <- app_assoc.
    apply load_app_mid; rewrite ?length_app; lia. }
  assert (load64 m 16 = Some (le_val d)) as ->.
  { replace m with ((a ++ b ++ c ++ [0; 0; 0]) ++ d ++ []) by (by rewrite app_nil_r, <- !app_assoc).
    apply load_app_mid; rewrite ?length_app, ?La, ?Lb, ?Lc; done. }
  cbn [mbind option_bind]. unfold a, b, c, d. rewrite !le_val_bytes_id by done. by destruct e.
Qed.

Lemma length_encode_event e : length (encode_event e) = 24%nat.
Proof. unfold encode_event. by rewrite !length_app, !length_le_bytes. Qed.

Lemma handle_encoded ms w e :
  event_ok e → handle_ring_event (ms, w) (encode_event e) = feed_matchers ms e w.
Proof.
  intros He. unfold handle_ring_event. rewrite length_encode_event, decode_encode_event by done. done.
Qed.

(** The delta a complete group has for one pair of its stages. *)
Definition group_delta (from to : Z) (g : Group) : Delta :=
  let a := default 0 (g_ts g !! from) in
  let b := default 0 (g_ts g !! to) in
  mkDelta (u64 (b - a)) from to a b (g_tid g).

Lemma foldr_insert_lookup (f : Z → Z) (l : list Z) i :
  foldr (λ s ts, <[s := f s]> ts) (∅ : gmap Z Z) l !! i = if bool_decide (i ∈ l) then Some (f i) else None.
Proof.
  induction l as [|s l IH]; cbn; [done|]. destruct (decide (i = s)) as [->|Hne].
  - rewrite lookup_insert_eq. rewrite bool_decide_true by set_solver. done.
  - rewrite lookup_insert_ne by done. rewrite IH.
    destruct (decide (i ∈ l)); [rewrite !bool_decide_true by set_solver|
      rewrite !bool_decide_false by set_solver]; done.
Qed.

Section single_report.
Context (name : string) (from to : Z) (stages : list Z) (mask : Z).
Context (Hok : stages_ok stages) (Hlt : from < to).
Context (Hmask : ∀ i, 0 ≤ i → Z.testbit mask i = true ↔ i ∈ stages).
Context (Hpair : (from, to) ∈ index_pairs stages).

Let keys : gmap (Z * Z) string := report_keys [mkReport name from to].

Lemma keys_lookup i j : keys !! (i, j) = if bool_decide ((i, j) = (from, to)) then Some name else None.
Proof using.
  unfold keys, report_keys. cbn. destruct (decide ((i, j) = (from, to))) as [[= -> ->]|Hne].
  - by rewrite lookup_insert_eq, bool_decide_true.
  - rewrite lookup_insert_ne, lookup_empty by congruence. by rewrite bool_decide_false.
Qed.

Lemma pair_stages : from ∈ stages ∧ to ∈ stages ∧ 0 ≤ from < 64 ∧ 0 ≤ to < 64.
Proof using Hok Hpair.
  apply elem_of_index_pairs_both in Hpair as [H1 H2].
  unfold stages_ok in Hok. rewrite Forall_forall in Hok. auto.
Qed.

(** The callback of a matcher records exactly the reported pair. *)
Lemma report_cb_group g w :
  report_cb keys (group_snapshot stages mask g) w = record_delta keys w (group_delta from to g).
Proof using Hok Hlt Hmask Hpair.
  destruct pair_stages as (Hf & Ht & Hf64 & Ht64).
  assert (∀ i, 0 ≤ i → has_bit mask i = bool_decide (i ∈ stages)) as Hbit.
  { intros i Hi. rewrite has_bit_testbit by done. apply eq_true_iff_eq.
    rewrite bool_decide_eq_true. by apply Hmask. }
  unfold report_cb. cbn [snap_stages group_snapshot].
  rewrite (foldM_one _ _ from).
  2: { apply NoDup_seqZ. }
  2: { apply elem_of_seqZ. lia. }
  2: { intros s i Hi%elem_of_seqZ Hne. destruct (has_bit mask i); [|done].
       apply foldM_id. intros s' j Hj. destruct (has_bit mask j); [|done].
       rewrite keys_lookup, bool_decide_false; [done|congruence]. }
  rewrite Hbit, bool_decide_true by (done || lia).
  rewrite (foldM_one _ _ to).
  2: { apply NoDup_seqZ. }
  2: { apply elem_of_seqZ. lia. }
  2: { intros s j Hj Hne. destruct (has_bit mask j); [|done].
       rewrite keys_lookup, bool_decide_false; [done|congruence]. }
  rewrite Hbit, bool_decide_true by (done || lia).
  unfold record_delta. cbn [from_stage to_stage group_delta].
  rewrite keys_lookup, bool_decide_true by done.
  cbn [snap_ts group_snapshot]. rewrite !foldr_insert_lookup, !bool_decide_true by done. done.
Qed.

Lemma record_group_deltas g w :
  NoDup stages →
  foldM (record_delta keys) w (group_deltas stages g) = record_delta keys w (group_delta from to g).
Proof using Hpair.
  intros Hnd. unfold group_deltas. rewrite foldM_map.
  rewrite (foldM_one _ _ (from, to)); [done|by apply NoDup_index_pairs|done|].
  intros s [i j] _ Hne. unfold record_delta. cbn [from_stage to_stage].
  by rewrite keys_lookup, bool_decide_false.
Qed.

Lemma record_group_delta g w :
  record_delta keys w (group_delta from to g) =
  (let d := group_delta from to g in
   hists_record w name (val_ns d) from to (ts_from d) (ts_to d) (delta_tid d)).
Proof using.
  unfold record_delta. cbn [from_stage to_stage group_delta].
  by rewrite keys_lookup, bool_decide_true.
Qed.

Definition hist_of (w : World) : Hist := default hist_init (w_hists w !! name).

(** Recording the reported pair of a list of groups. *)
Lemma record_groups gs w vs :
  hist_rel (hist_of w) vs → Z.of_nat (length vs + length gs) ≤ INT_MAX →
  ∃ w', foldM (λ w g, record_delta keys w (group_delta from to g)) w gs = Some w' ∧
    hist_rel (hist_of w') (vs ++ map (λ g, val_ns (group_delta from to g)) gs).
Proof using.
  revert w vs. induction gs as [|g gs IH]; intros w vs Hrel Hmax; cbn [foldM map].
  { exists w. by rewrite app_nil_r. }
  cbn in Hmax. rewrite record_group_delta. cbv zeta. set (d := group_delta from to g).
  unfold hists_record. fold (hist_of w).
  destruct (Hist_record_rel (hist_of w) (w_csv w) vs (val_ns d) from to
    (ts_from d) (ts_to d) (delta_tid d) Hrel) as (h' & csv' & Hr & Hrel' & _).
  - cbn. apply wrap_range. lia.
  - rewrite (hr_count _ _ Hrel). lia.
  - rewrite Hr. cbn [mbind option_bind].
    destruct (IH (mkWorld (<[name := h']> (w_hists w)) (w_fifos w) csv')
      (vs ++ [val_ns d])) as (w' & Hf & Hw').
    + unfold hist_of. cbn. by rewrite lookup_insert_eq.
    + rewrite length_app. cbn. lia.
    + exists w'. split; [done|]. by rewrite <- app_assoc in Hw'.
Qed.
End single_report.

Lemma slots_run_length stages gs es : (length (slots_run stages gs es).2 ≤ length es)%nat.
Proof.
  revert gs. induction es as [|e es IH]; intros gs; [done|]. cbn [slots_run].
  unfold group_step.
  assert (∀ (g1 : Group) (o1 : list Group), (length o1 ≤ 1)%nat →
    (length (let '(gs2, o2) := slots_run stages (λ h', if (h' =? tid_hash (ev_tid e))%Z then g1 else gs h') es in
             (gs2, o1 ++ o2)).2 ≤ S (length es))%nat) as H.
  { intros g1 o1 Ho. specialize (IH (λ h', if h' =? tid_hash (ev_tid e) then g1 else gs h')).
    destruct (slots_run _ _ _). cbn in *. rewrite length_app. lia. }
  destruct (bool_decide _); [|by apply H; cbn; lia].
  destruct (group_complete _ _); apply H; cbn; lia.
Qed.

Lemma key_step_length stages g e : (length (key_step stages g e).2 ≤ 1)%nat.
Proof.
  unfold key_step, record_step. destruct (bool_decide _); [|cbn; lia].
  by destruct (group_complete _ _); cbn; lia.
Qed.

(** Feeding encoded events to a single matcher. *)
Lemma feed_samples_seq m w es :
  Forall event_ok es →
  foldM handle_ring_event ([MSeq m], w) (map encode_event es) =
  ('(m', w') ← seq_feed_all (m, w) es; Some ([MSeq m'], w')).
Proof.
  intros Hes. rewrite foldM_map. unfold seq_feed_all. revert m w.
  induction Hes as [|e es He _ IH]; intros m w; cbn [foldM]; [done|].
  rewrite handle_encoded by done. cbn. destruct (SeqMatcher_feed m e w) as [[m1 w1]|]; cbn; [|done].
  apply IH.
Qed.

Lemma feed_samples_key m w es :
  Forall event_ok es →
  foldM handle_ring_event ([MKey m], w) (map encode_event es) =
  (m' ← key_feed_all m es; Some ([MKey m'], w)).
Proof.
  intros Hes. rewrite foldM_map. unfold key_feed_all. revert m.
  induction Hes as [|e es He _ IH]; intros m; cbn [foldM]; [done|].
  rewrite handle_encoded by done. cbn. destruct (KeyMatcher_feed m e) as [m1|]; cbn; [|done].
  apply IH.
Qed.

Lemma keys_run_length stages gs es : (length (keys_run stages gs es).2 ≤ length es)%nat.
Proof.
  revert gs. induction es as [|e es IH]; intros gs; [done|]. cbn [keys_run].
  pose proof (key_step_length stages (gs (ev_key e)) e) as H1.
  destruct (key_step stages (gs (ev_key e)) e) as [g1 o1].
  specialize (IH (λ k', if (k' =? ev_key e)%Z then g1 else gs k')).
  destruct (keys_run _ _ es). cbn in *. rewrite length_app, length_map. lia.
Qed.

Lemma hist_of_empty name fifos csv : hist_rel (hist_of name (mkWorld ∅ fifos csv)) [].
Proof. unfold hist_of. cbn. rewrite lookup_empty. apply hist_init_rel. Qed.

(** Construction for one matcher and one report within it. *)
Section one_matcher.
Context (iter : gmap string nat → list (string * nat)).
Context (Hiter : ∀ m, iter m ≡ₚ map_to_list m).
Context (name : string) (from to : Z) (id : string) (stages : list Z) (q : Z).
Context (Hok : stages_ok stages) (Hpair : (from, to) ∈ index_pairs stages).

Let r := mkReport name from to.

Lemma setup_one_seq process csvp probes m0 :
  SeqMatcher_new id stages = Some m0 →
  setup iter (mkConfig process csvp probes [mkMatcher id stages "seq" q] [r]) =
  Some (mkSetup [MSeq (SeqMatcher_onComplete (report_cb (report_keys [r])) m0)] {[id := 0%nat]} ∅).
Proof using Hiter Hok Hpair.
  intros Hnew. destruct (pair_stages from to stages Hok Hpair) as (Hf & Ht & Hf64 & Ht64).
  unfold setup. cbn [c_matchers c_reports foldM]. unfold add_matcher. cbn [m_mode m_id m_stages String.eqb].
  cbn. rewrite Hnew. cbn.
  assert (iter {[id := 0%nat]} = [(id, 0%nat)]) as Hi.
  { apply Permutation_singleton_r. rewrite Hiter. by rewrite map_to_list_singleton. }
  change (<[id:=0%nat]> ∅) with ({[id := 0%nat]} : gmap string nat). rewrite Hi. cbn.
  unfold wire_report, find_seqs. cbn. unfold SeqMatcher_hasStage. cbn.
  rewrite !shl1_Some by done. cbn.
  apply SeqMatcher_new_rel in Hnew as ([_ Hmask _ _] & _ & Hs & _). rewrite Hs in Hmask.
  assert (∀ s, s ∈ stages → 0 ≤ s < 64 →
    negb (Z.land (seq_stages_mask m0) (2 ^ s) =? 0) = true) as Hbit.
  { intros s Hs1 Hs2. pose proof (has_bit_testbit (seq_stages_mask m0) s ltac:(lia)) as Hb.
    unfold has_bit in Hb. rewrite Hb. apply Hmask; [lia|done]. }
  rewrite !Hbit by done. cbn. by rewrite decide_True.
Qed.

Lemma setup_one_key process csvp probes m0 :
  KeyMatcher_new id stages = Some m0 →
  setup iter (mkConfig process csvp probes [mkMatcher id stages "key" q] [r]) =
  Some (mkSetup [MKey m0] ∅ ∅).
Proof using Hiter.
  intros Hnew. unfold setup. cbn [c_matchers c_reports foldM]. unfold add_matcher.
  cbn [m_mode m_id m_stages String.eqb]. cbn. rewrite Hnew. cbn.
  assert (iter ∅ = []) as Hi.
  { apply Permutation_nil_r. rewrite Hiter. by rewrite map_to_list_empty. }
  rewrite Hi. cbn. done.
Qed.
End one_matcher.

(** * A report across two seq matchers

    What the queue between two matchers sees of a trace: the groups the pushing
    matcher completes and those the popping one completes, in event order (an event
    reaches the first matcher before the second). *)
Inductive link_op := LPush (g : Group) | LPop (g : Group).

Fixpoint link_ops (stA stB : list Z) (gsA gsB : Z → Group) (es : list RawEvent) : list link_op :=
  match es with
  | [] => []
  | e :: es =>
      let h := tid_hash (ev_tid e) in
      let '(gA, oA) := group_step stA (gsA h) e in
      let '(gB, oB) := group_step stB (gsB h) e in
      map LPush oA ++ map LPop oB ++
      link_ops stA stB (λ h', if h' =? h then gA else gsA h') (λ h', if h' =? h then gB else gsB h') es
  end.

(** The pairs (pushed timestamp, popping group) of a bounded queue. *)
Fixpoint link_pairs (cap : nat) (from : Z) (l : list Z) (ops : list link_op) : list (Z * Group) :=
  match ops with
  | [] => []
  | LPush g :: ops => link_pairs cap from (queue_push cap l (default 0 (g_ts g !! from))) ops
  | LPop g :: ops =>
      match l with
      | [] => link_pairs cap from [] ops
      | x :: l => (x, g) :: link_pairs cap from l ops
      end
  end.

Definition link_val (to : Z) (p : Z * Group) : Z := u64 (default 0 (g_ts p.2 !! to) - p.1).

Definition is_push (op : link_op) : bool := match op with LPush _ => true | LPop _ => false end.

Section link.
Context (name : string) (from to : Z) (stA stB : list Z) (maskA maskB : Z).
Context (HokA : stages_ok stA) (HokB : stages_ok stB).
Context (HmA : ∀ i, 0 ≤ i → Z.testbit maskA i = true ↔ i ∈ stA).
Context (HmB : ∀ i, 0 ≤ i → Z.testbit maskB i = true ↔ i ∈ stB).
Context (HfA : from ∈ stA) (HtA : to ∉ stA) (HfB : from ∉ stB) (HtB : to ∈ stB).

Let keys : gmap (Z * Z) string := report_keys [mkReport name from to].
Let cbsA := [report_cb keys; fifo_push_cb name from].
Let cbsB := [report_cb keys; fifo_pop_cb name name from to to].

Lemma stage_bound (st : list Z) s : stages_ok st → s ∈ st → 0 ≤ s < 64.
Proof. unfold stages_ok. rewrite Forall_forall. auto. Qed.

Lemma mask_bit mask (st : list Z) i :
  (∀ i, 0 ≤ i → Z.testbit mask i = true ↔ i ∈ st) → 0 ≤ i → has_bit mask i = bool_decide (i ∈ st).
Proof.
  intros Hm Hi. rewrite has_bit_testbit by done. apply eq_true_iff_eq.
  rewrite bool_decide_eq_true. by apply Hm.
Qed.

(** Within one matcher the report has no pair. *)
Lemma report_cb_other (st : list Z) mask g w :
  (∀ i, 0 ≤ i → Z.testbit mask i = true ↔ i ∈ st) → from ∉ st ∨ to ∉ st →
  report_cb keys (group_snapshot st mask g) w = Some w.
Proof.
  intros Hm Hno. unfold report_cb. apply foldM_id. intros s i Hi%elem_of_seqZ.
  cbn [snap_stages group_snapshot]. rewrite (mask_bit mask st i Hm) by lia.
  case_bool_decide as Hin; [|done]. apply foldM_id. intros s' j Hj%elem_of_seqZ.
  rewrite (mask_bit mask st j Hm) by lia. case_bool_decide as Hjn; [|done].
  unfold keys. rewrite keys_lookup, bool_decide_false; [done|]. intros [= -> ->].
  destruct Hno as [Hno|Hno]; apply Hno; assumption.
Qed.

Lemma drain_other (st : list Z) w outs :
  from ∉ st ∨ to ∉ st → foldM (record_delta keys) w (flat_map (group_deltas st) outs) = Some w.
Proof.
  intros Hno. apply foldM_id. intros s d Hd. unfold record_delta.
  assert (∃ g, d ∈ group_deltas st g) as [g Hg].
  { clear -Hd. induction outs as [|g outs IH]; cbn in Hd; [set_solver|].
    apply elem_of_app in Hd as [|]; eauto. }
  unfold group_deltas in Hg. apply list_elem_of_fmap in Hg as ([i j] & -> & Hij).
  cbn [from_stage to_stage]. unfold keys. rewrite keys_lookup, bool_decide_false; [done|].
  intros [= -> ->]. apply elem_of_index_pairs_both in Hij as [Hi Hj].
  destruct Hno as [Hno|Hno]; apply Hno; assumption.
Qed.

(** The shared state: the queue holds [l] after [n] pushes, the histogram the
    samples [vs]. *)
Record link_rel (w : World) (l : list Z) (n : nat) (vs : list Z) : Prop := {
  lr_fifo : ∃ f, w_fifos w !! name = Some f ∧ fifo_rel f l ∧ fifo_capacity f = 4096 ∧
                 fifo_tail f = Z.of_nat n;
  lr_hist : hist_rel (hist_of name w) vs;
}.

Lemma snap_lookup (st : list Z) mask g s :
  s ∈ st → snap_ts (group_snapshot st mask g) !! s = Some (default 0 (g_ts g !! s)).
Proof. intros Hs. cbn. by rewrite foldr_insert_lookup, bool_decide_true. Qed.

Lemma land_mask_bit (st : list Z) mask s :
  (∀ i, 0 ≤ i → Z.testbit mask i = true ↔ i ∈ st) → 0 ≤ s < 64 → s ∈ st →
  (Z.land mask (2 ^ s) =? 0) = false.
Proof.
  intros Hm Hs Hin. pose proof (mask_bit mask st s Hm ltac:(lia)) as H.
  unfold has_bit in H. rewrite bool_decide_true in H by done.
  by destruct (Z.land mask (2 ^ s) =? 0).
Qed.

Lemma push_group w l n vs g :
  link_rel w l n vs → Z.of_nat n < INT_MAX →
  ∃ w', run_callbacks cbsA (group_snapshot stA maskA g) w = Some w' ∧
    link_rel w' (queue_push 4096 l (default 0 (g_ts g !! from))) (S n) vs.
Proof.
  intros [(f & Hl & Hf & Hc & Ht) Hh] Hn. unfold run_callbacks, cbsA. cbn [foldM].
  rewrite report_cb_other by auto. cbn [mbind option_bind].
  pose proof (stage_bound stA from HokA HfA) as Hb.
  unfold fifo_push_cb. rewrite shl1_Some by done. cbn [mbind option_bind snap_stages group_snapshot].
  rewrite (land_mask_bit stA) by done. rewrite Hl. cbn [mbind option_bind].
  fold (group_snapshot stA maskA g). rewrite (snap_lookup stA maskA g from HfA). cbn [mbind option_bind].
  destruct (push_rel f l (default 0 (g_ts g !! from)) Hf) as (f' & Hp & Hf' & Hc' & Ht'); [lia|].
  change (FifoQueue_push f from) with (FifoQueue_push f 0). rewrite Hp. cbn [mbind option_bind].
  eexists. split; [reflexivity|]. rewrite Hc in Hf'. split; [|exact Hh].
  exists f'. cbn. rewrite lookup_insert_eq. split_and!; [done|exact Hf'|lia|lia].
Qed.

Lemma pop_group w l n vs g :
  link_rel w l n vs → Z.of_nat (length vs) < INT_MAX →
  ∃ w', run_callbacks cbsB (group_snapshot stB maskB g) w = Some w' ∧
    link_rel w' (tail l) n (vs ++ match l with [] => [] | x :: _ => [link_val to (x, g)] end).
Proof.
  intros [(f & Hl & Hf & Hc & Ht) Hh] Hn. unfold run_callbacks, cbsB. cbn [foldM].
  rewrite report_cb_other by auto. cbn [mbind option_bind].
  pose proof (stage_bound stB to HokB HtB) as Hb.
  unfold fifo_pop_cb. rewrite shl1_Some by done. cbn [mbind option_bind snap_stages group_snapshot].
  rewrite (land_mask_bit stB) by done. rewrite Hl. cbn [mbind option_bind].
  destruct (pop_rel f l Hf) as (f' & Hp & Hf' & Hc' & Ht').
  change (FifoQueue_pop f to) with (FifoQueue_pop f 0). rewrite Hp. cbn [mbind option_bind].
  set (w1 := mkWorld _ _ _).
  assert (w_fifos w1 !! name = Some f') as Hl1 by apply lookup_insert_eq.
  destruct l as [|x l]; cbn [head tail].
  { exists w1. rewrite app_nil_r. split; [done|]. split; [|exact Hh].
    exists f'. split_and!; [done|done|lia|lia]. }
  fold (group_snapshot stB maskB g). rewrite (snap_lookup stB maskB g to HtB). cbn [mbind option_bind].
  unfold hists_record. fold (hist_of name w1).
  destruct (Hist_record_rel (hist_of name w1) (w_csv w1) vs (link_val to (x, g)) from to x
    (default 0 (g_ts g !! to)) (snap_tid (group_snapshot stB maskB g)) Hh) as (h & csv & Hr & Hh' & _).
  { apply wrap_range. lia. }
  { change (hist_of name w1) with (hist_of name w). rewrite (hr_count _ _ Hh). lia. }
  unfold link_val in Hr at 1. cbn [fst snd] in Hr. rewrite Hr. cbn [mbind option_bind].
  eexists. split; [reflexivity|]. split.
  - exists f'. cbn [w_fifos]. split_and!; [exact Hl1|done|lia|lia].
  - unfold hist_of. cbn. by rewrite lookup_insert_eq.
Qed.

(** The queue after a list of operations. *)
Fixpoint link_queue (l : list Z) (ops : list link_op) : list Z :=
  match ops with
  | [] => l
  | LPush g :: ops => link_queue (queue_push 4096 l (default 0 (g_ts g !! from))) ops
  | LPop g :: ops => link_queue (tail l) ops
  end.

Definition link_step (w : World) (op : link_op) : option World :=
  match op with
  | LPush g => run_callbacks cbsA (group_snapshot stA maskA g) w
  | LPop g => run_callbacks cbsB (group_snapshot stB maskB g) w
  end.

Lemma link_run w l n vs ops :
  link_rel w l n vs → Z.of_nat (n + length (filter is_push ops)) ≤ INT_MAX →
  Z.of_nat (length vs + length ops) ≤ INT_MAX →
  ∃ w', foldM link_step w ops = Some w' ∧
    link_rel w' (link_queue l ops) (n + length (filter is_push ops))
             (vs ++ map (link_val to) (link_pairs 4096 from l ops)).
Proof.
  revert w l n vs. induction ops as [|op ops IH]; intros w l n vs Hrel Hn Hv; cbn [foldM].
  { exists w. cbn. rewrite app_nil_r, Nat.add_0_r. done. }
  destruct op as [g|g]; rewrite filter_cons in Hn |- *; cbn [is_push] in *.
  - rewrite decide_True in Hn |- * by done. cbn [length] in *.
    destruct (push_group w l n vs g Hrel) as (w1 & Hw1 & Hrel1); [lia|].
    cbn [link_step]. rewrite Hw1. cbn [mbind option_bind link_queue link_pairs].
    replace (n + S (length (filter is_push ops)))%nat with (S n + length (filter is_push ops))%nat by lia.
    apply IH; [done|lia|lia].
  - rewrite decide_False in Hn |- * by auto. cbn [length] in *.
    destruct (pop_group w l n vs g Hrel) as (w1 & Hw1 & Hrel1); [lia|].
    cbn [link_step]. rewrite Hw1. cbn [mbind option_bind link_queue].
    destruct l as [|x l]; cbn [link_pairs tail] in *.
    + rewrite app_nil_r in Hrel1. apply IH; [done|lia|lia].
    + destruct (IH w1 l n (vs ++ [link_val to (x, g)]) Hrel1) as (w2 & Hw2 & Hr2); [lia|rewrite length_app; cbn; lia|].
      exists w2. split; [done|]. cbn [map]. by rewrite <- app_assoc in Hr2.
Qed.

(** Feeding an event to the two matchers runs the operations it causes. *)
Lemma feed_two (mA mB : SeqMatcher World) gsA gsB e w :
  seq_rel mA gsA → seq_rel mB gsB → seq_stages mA = stA → seq_stages mB = stB →
  seq_stages_mask mA = maskA → seq_stages_mask mB = maskB →
  seq_on_complete mA = cbsA → seq_on_complete mB = cbsB → 0 ≤ ev_stage e < 64 →
  let h := tid_hash (ev_tid e) in
  let '(gA, oA) := group_step stA (gsA h) e in
  let '(gB, oB) := group_step stB (gsB h) e in
  ∃ mA' mB',
    seq_rel mA' (λ h', if h' =? h then gA else gsA h') ∧ seq_rel mB' (λ h', if h' =? h then gB else gsB h') ∧
    seq_stages mA' = stA ∧ seq_stages mB' = stB ∧ seq_stages_mask mA' = maskA ∧ seq_stages_mask mB' = maskB ∧
    seq_on_complete mA' = cbsA ∧ seq_on_complete mB' = cbsB ∧
    (∃ dA, seq_pending mA' = seq_pending mA ++ flat_map (group_deltas stA) dA) ∧
    (∃ dB, seq_pending mB' = seq_pending mB ++ flat_map (group_deltas stB) dB) ∧
    feed_matchers [MSeq mA; MSeq mB] e w =
      (w' ← foldM link_step w (map LPush oA ++ map LPop oB); Some ([MSeq mA'; MSeq mB'], w')).
Proof.
  intros HrA HrB HsA HsB HkA HkB HcA HcB He h.
  pose proof (feed_step mA gsA e w HrA He) as HA. rewrite HsA, HkA, HcA in HA. cbv zeta in HA. fold h in HA.
  destruct (group_step stA (gsA h) e) as [gA oA]. destruct HA as (mA' & HrA' & HsA' & HkA' & HcA' & HpA & HfA').
  assert (∀ w1, let '(gB, oB) := group_step stB (gsB h) e in
    ∃ m', seq_rel m' (λ h', if h' =? h then gB else gsB h') ∧ seq_stages m' = stB ∧ seq_stages_mask m' = maskB ∧
    seq_on_complete m' = cbsB ∧ seq_pending m' = seq_pending mB ++ flat_map (group_deltas stB) oB ∧
    SeqMatcher_feed mB e w1 = (w' ← foldM (λ w g, run_callbacks cbsB (group_snapshot stB maskB g) w) w1 oB; Some (m', w'))) as HB.
  { intros w1. pose proof (feed_step mB gsB e w1 HrB He) as H. by rewrite HsB, HkB, HcB in H. }
  destruct (group_step stB (gsB h) e) as [gB oB].
  cbn [feed_matchers Matcher_feed]. rewrite HfA'. rewrite foldM_app, !foldM_map. cbn [link_step].
  destruct (foldM (λ w g, run_callbacks cbsA (group_snapshot stA maskA g) w) w oA) as [w1|].
  - destruct (HB w1) as (mB' & HrB' & HsB' & HkB' & HcB' & HpB & HfB').
    exists mA', mB'. split_and!; [done..|by eexists|by eexists|].
    cbn [mbind option_bind]. rewrite HfB', foldM_map. cbn [link_step].
    by destruct (foldM (λ w g, run_callbacks cbsB (group_snapshot stB maskB g) w) w1 oB).
  - destruct (HB w) as (mB' & HrB' & HsB' & HkB' & HcB' & HpB & _).
    exists mA', mB'. split_and!; [done..|by eexists|by eexists|done].
Qed.
Record link_inv (mA mB : SeqMatcher World) (gsA gsB : Z → Group) : Prop := {
  li_relA : seq_rel mA gsA; li_relB : seq_rel mB gsB;
  li_stA : seq_stages mA = stA; li_stB : seq_stages mB = stB;
  li_mA : seq_stages_mask mA = maskA; li_mB : seq_stages_mask mB = maskB;
  li_cA : seq_on_complete mA = cbsA; li_cB : seq_on_complete mB = cbsB;
  li_pA : ∃ dA, seq_pending mA = flat_map (group_deltas stA) dA;
  li_pB : ∃ dB, seq_pending mB = flat_map (group_deltas stB) dB;
}.

Lemma feed_samples_two mA mB gsA gsB w es :
  link_inv mA mB gsA gsB → Forall event_ok es → Forall (λ e, 0 ≤ ev_stage e < 64) es →
  ∃ mA' mB' gsA' gsB', link_inv mA' mB' gsA' gsB' ∧
    foldM handle_ring_event ([MSeq mA; MSeq mB], w) (map encode_event es) =
      (w' ← foldM link_step w (link_ops stA stB gsA gsB es); Some ([MSeq mA'; MSeq mB'], w')).
Proof.
  intros Hinv Hev. revert mA mB gsA gsB w Hinv.
  induction Hev as [|e es He _ IH]; intros mA mB gsA gsB w Hinv Hst; cbn [map foldM link_ops].
  { by exists mA, mB, gsA, gsB. }
  apply Forall_cons in Hst as [Hs Hst]. rewrite handle_encoded by done.
  destruct Hinv as [HrA HrB HsA HsB HkA HkB HcA HcB [pA HpA] [pB HpB]].
  pose proof (feed_two mA mB gsA gsB e w HrA HrB HsA HsB HkA HkB HcA HcB Hs) as H. cbv zeta in H.
  destruct (group_step stA (gsA (tid_hash (ev_tid e))) e) as [gA oA],
    (group_step stB (gsB (tid_hash (ev_tid e))) e) as [gB oB].
  destruct H as (mA1 & mB1 & HrA1 & HrB1 & HsA1 & HsB1 & HkA1 & HkB1 & HcA1 & HcB1 & [dA HdA] & [dB HdB] & ->).
  set (gsA1 := λ h', if h' =? tid_hash (ev_tid e) then gA else gsA h') in *.
  set (gsB1 := λ h', if h' =? tid_hash (ev_tid e) then gB else gsB h') in *.
  assert (link_inv mA1 mB1 gsA1 gsB1) as Hinv1.
  { split; try done; [exists (pA ++ dA); by rewrite HdA, HpA, flat_map_app|
      exists (pB ++ dB); by rewrite HdB, HpB, flat_map_app]. }
  rewrite (app_assoc (map LPush oA)), (foldM_app link_step w (map LPush oA ++ map LPop oB)).
  destruct (foldM link_step w (map LPush oA ++ map LPop oB)) as [w1|].
  - destruct (IH mA1 mB1 gsA1 gsB1 w1 Hinv1 Hst) as (mA2 & mB2 & gsA2 & gsB2 & Hinv2 & Hf).
    exists mA2, mB2, gsA2, gsB2. split; [done|]. exact Hf.
  - destruct (IH mA1 mB1 gsA1 gsB1 w Hinv1 Hst) as (mA2 & mB2 & gsA2 & gsB2 & Hinv2 & _).
    by exists mA2, mB2, gsA2, gsB2.
Qed.
End link.

Lemma link_ops_length stA stB gsA gsB es :
  (length (link_ops stA stB gsA gsB es) ≤ 2 * length es)%nat.
Proof.
  revert gsA gsB. induction es as [|e es IH]; intros gsA gsB; cbn [link_ops length]; [lia|].
  assert (∀ st g, (length (group_step st g e).2 ≤ 1)%nat) as H1.
  { intros st g. unfold group_step. destruct (bool_decide _); [|cbn; lia].
    by destruct (group_complete _ _); cbn; lia. }
  pose proof (H1 stA (gsA (tid_hash (ev_tid e)))) as HA. pose proof (H1 stB (gsB (tid_hash (ev_tid e)))) as HB.
  destruct (group_step stA _ e) as [gA oA], (group_step stB _ e) as [gB oB]. cbn [snd] in *.
  rewrite !length_app, !length_map. specialize (IH (λ h', if (h' =? tid_hash (ev_tid e))%Z then gA else gsA h')
    (λ h', if (h' =? tid_hash (ev_tid e))%Z then gB else gsB h')). lia.
Qed.

(** Construction for two matchers and a report across them. *)
Lemma hasStage_shl (m : SeqMatcher World) s :
  SeqMatcher_hasStage m s = (_ ← shl1 s; Some (negb (Z.land (seq_stages_mask m) (2 ^ s) =? 0))).
Proof.
  unfold SeqMatcher_hasStage. destruct (shl1 s) as [b|] eqn:Hb; cbn [mbind option_bind]; [|done].
  by apply shl1_inv in Hb as [_ ->].
Qed.

Lemma setup_two iter name from to idA stA qA idB stB qB process csvp probes (mA mB : SeqMatcher World) :
  (∀ m, iter m ≡ₚ map_to_list m) → idA ≠ idB →
  SeqMatcher_new idA stA = Some mA → SeqMatcher_new idB stB = Some mB →
  from ∈ stA → to ∉ stA → from ∉ stB → to ∈ stB →
  let r := mkReport name from to in
  let cb := report_cb (report_keys [r]) in
  setup iter (mkConfig process csvp probes [mkMatcher idA stA "seq" qA; mkMatcher idB stB "seq" qB] [r]) =
  Some (mkSetup
    [MSeq (SeqMatcher_onComplete (fifo_push_cb name from) (SeqMatcher_onComplete cb mA));
     MSeq (SeqMatcher_onComplete (fifo_pop_cb name name from to to) (SeqMatcher_onComplete cb mB))]
    (<[idB := 1%nat]> {[idA := 0%nat]})
    {[name := mkFifo name 4096 0 0 (replicate 4096 None)]}).
Proof.
  intros Hiter Hid HnA HnB HfA HtA HfB HtB r cb.
  pose proof (SeqMatcher_new_rel _ _ _ HnA) as ([HokA HmA _ _] & _ & HsA & _). rewrite HsA in HmA, HokA.
  pose proof (SeqMatcher_new_rel _ _ _ HnB) as ([HokB HmB _ _] & _ & HsB & _). rewrite HsB in HmB, HokB.
  pose proof (stage_bound stA from HokA HfA) as Hbf. pose proof (stage_bound stB to HokB HtB) as Hbt.
  assert (∀ mask (st : list Z) s, (∀ i, 0 ≤ i → Z.testbit mask i = true ↔ i ∈ st) → 0 ≤ s →
    negb (Z.land mask (2 ^ s) =? 0) = bool_decide (s ∈ st)) as Hbit by apply mask_bit.
  assert (foldM add_matcher (mkSetup [] ∅ ∅) [mkMatcher idA stA "seq" qA; mkMatcher idB stB "seq" qB] =
    Some (mkSetup [MSeq mA; MSeq mB] (<[idB:=1%nat]> (<[idA:=0%nat]> ∅)) ∅)) as Hadd.
  { cbn [foldM]. unfold add_matcher. cbn [m_mode m_id m_stages String.eqb Ascii.eqb Bool.eqb].
    rewrite HnA. cbn [mbind option_bind st_matchers st_seq_map st_fifos]. by rewrite HnB. }
  unfold setup. cbn [c_matchers c_reports]. rewrite Hadd. cbn [mbind option_bind st_matchers st_seq_map st_fifos].
  set (sm := <[idB:=1%nat]> (<[idA:=0%nat]> ∅)).
  assert (iter sm = [(idA, 0%nat); (idB, 1%nat)] ∨ iter sm = [(idB, 1%nat); (idA, 0%nat)]) as Hord.
  { assert (iter sm ≡ₚ [(idA, 0%nat); (idB, 1%nat)]) as Hp.
    { rewrite Hiter. unfold sm. rewrite map_to_list_insert.
      - change (<[idA:=0%nat]> ∅) with ({[idA := 0%nat]} : gmap string nat).
        rewrite map_to_list_singleton. apply Permutation_swap.
      - by rewrite lookup_insert_ne, lookup_empty. }
    symmetry in Hp. by apply Permutation_length_2_inv in Hp as [->| ->]; auto. }
  set (ms := foldl _ _ _).
  assert (ms = [MSeq (SeqMatcher_onComplete cb mA); MSeq (SeqMatcher_onComplete cb mB)]) as Hms.
  { unfold ms. destruct Hord as [-> | ->]; reflexivity. }
  clearbody ms. subst ms.
  assert (∀ s, matcher_has_stage [MSeq (SeqMatcher_onComplete cb mA); MSeq (SeqMatcher_onComplete cb mB)] 0 s =
    (_ ← shl1 s; Some (negb (Z.land (seq_stages_mask mA) (2 ^ s) =? 0)))) as H0.
  { intros s. exact (hasStage_shl (SeqMatcher_onComplete cb mA) s). }
  assert (∀ s, matcher_has_stage [MSeq (SeqMatcher_onComplete cb mA); MSeq (SeqMatcher_onComplete cb mB)] 1 s =
    (_ ← shl1 s; Some (negb (Z.land (seq_stages_mask mB) (2 ^ s) =? 0)))) as H1.
  { intros s. exact (hasStage_shl (SeqMatcher_onComplete cb mB) s). }
  assert (find_seqs [MSeq (SeqMatcher_onComplete cb mA); MSeq (SeqMatcher_onComplete cb mB)] (iter sm) r =
    Some (Some 0%nat, Some 1%nat)) as Hfind.
  { pose proof (H0 from) as H0f. pose proof (H0 to) as H0t. pose proof (H1 from) as H1f. pose proof (H1 to) as H1t.
    rewrite shl1_Some in H0f, H0t, H1f, H1t by done. cbn [mbind option_bind] in H0f, H0t, H1f, H1t.
    rewrite (Hbit _ stA from HmA) in H0f by lia. rewrite (Hbit _ stA to HmA) in H0t by lia.
    rewrite (Hbit _ stB from HmB) in H1f by lia. rewrite (Hbit _ stB to HmB) in H1t by lia.
    rewrite bool_decide_true in H0f, H1t by done. rewrite bool_decide_false in H0t, H1f by done.
    unfold find_seqs. destruct Hord as [-> | ->]; cbn [foldM r r_from r_to];
      repeat (first [rewrite H0f|rewrite H0t|rewrite H1f|rewrite H1t]; cbn [mbind option_bind]); reflexivity. }
  cbn [foldM]. unfold wire_report. cbn [st_matchers st_fifos st_seq_map]. rewrite Hfind.
  cbn [mbind option_bind]. rewrite decide_False by done. cbn [r r_name r_from r_to].
  rewrite lookup_empty. reflexivity.
Qed.

(** * Properties *)

(** The BPF program's [struct event] and the collector's [RawEvent] agree: an event
    is read back from its bytes, the padding and the key's offset included, and a
    shorter sample changes nothing. *)
Theorem event_roundtrip e ms w data :
  event_ok e →
  handle_ring_event (ms, w) (encode_event e) = feed_matchers ms e w ∧
  (Z.of_nat (length data) < RAW_EVENT_SIZE → handle_ring_event (ms, w) data = Some (ms, w)).
Proof.
  intros He. split; [by apply handle_encoded|]. intros H. unfold handle_ring_event.
  by destruct (Z.ltb_spec (Z.of_nat (length data)) RAW_EVENT_SIZE); [|lia].
Qed.

(** C1. Key mode, end to end: with a key matcher and a report on two of its stages, the
    report's histogram holds one sample per completed request, its latency, and the
    requests completed are, key by key, those of the key's own events. *)
Theorem collect_key_report iter process csvp probes id stages q name from to csv es :
  (∀ m, iter m ≡ₚ map_to_list m) → stages_ok stages → NoDup stages →
  (from, to) ∈ index_pairs stages →
  Forall event_ok es → Forall (λ e, 0 ≤ ev_stage e < 64) es → Z.of_nat (length es) ≤ INT_MAX →
  let cfg := mkConfig process csvp probes [mkMatcher id stages "key" q] [mkReport name from to] in
  ∃ w outs, collect iter cfg csv (map encode_event es) = Some w ∧
    hist_rel (hist_of name w) (map (λ g, val_ns (group_delta from to g)) outs.*2) ∧
    ∀ k, (filter (λ p, p.1 = k) outs).*2 =
         (key_run stages (empty_group 0) (filter (λ e, ev_key e = k) es)).2.
Proof.
  intros Hiter Hok Hnd Hpair Hev Hst Hmax cfg.
  destruct (proj2 (scan_stages_defined stages) Hok) as [[mask first] Hscan].
  assert (∃ m0, KeyMatcher_new id stages = Some m0) as [m0 Hnew].
  { unfold KeyMatcher_new. rewrite Hscan. cbn. eauto. }
  pose proof (KeyMatcher_new_rel _ _ _ Hnew) as (Hrel & Hp & Hs).
  pose proof (key_feed_all_spec m0 _ es Hrel Hst) as H. rewrite Hs, Hp in H.
  pose proof (keys_run_length stages (λ _, empty_group 0) es) as Hlen.
  pose proof (keys_run_project stages (λ _, empty_group 0) es) as Hproj.
  destruct (keys_run stages (λ _, empty_group 0) es) as [gs outs]. cbn [snd] in *.
  destruct H as (m & _ & Hd & Hf).
  unfold collect. unfold cfg. rewrite (setup_one_key iter Hiter name from to id stages q process csvp probes m0 Hnew).
  cbn [mbind option_bind st_matchers st_fifos]. rewrite feed_samples_key by done. rewrite Hf. cbn [mbind option_bind].
  unfold drain_matchers. cbn [flat_map Matcher_drain KeyMatcher_drain fst c_reports].
  rewrite app_nil_r, Hd. cbn [app]. rewrite foldM_flat_map.
  rewrite (foldM_ext _ (λ w g, record_delta (report_keys [mkReport name from to]) w (group_delta from to g))).
  2: { intros. by apply record_group_deltas. }
  destruct (record_groups name from to outs.*2 (mkWorld ∅ ∅ csv) [] (hist_of_empty name ∅ csv)) as (w & Hw & Hh).
  { cbn. rewrite length_fmap. lia. }
  exists w, outs. split_and!; [exact Hw|exact Hh|exact Hproj].
Qed.

(** Seq mode, end to end: the report's histogram holds the latency of every completed
    group twice, once from the completion callback and once from the drained
    deltas. *)
Theorem collect_seq_report_twice iter process csvp probes id stages q name from to csv es :
  (∀ m, iter m ≡ₚ map_to_list m) → stages_ok stages → NoDup stages →
  (from, to) ∈ index_pairs stages → from < to →
  Forall event_ok es → Forall (λ e, 0 ≤ ev_stage e < 64) es → 2 * Z.of_nat (length es) ≤ INT_MAX →
  let cfg := mkConfig process csvp probes [mkMatcher id stages "seq" q] [mkReport name from to] in
  let vals := map (λ g, val_ns (group_delta from to g)) (slots_run stages (λ _, empty_group 0) es).2 in
  ∃ w, collect iter cfg csv (map encode_event es) = Some w ∧ hist_rel (hist_of name w) (vals ++ vals).
Proof.
  intros Hiter Hok Hnd Hpair Hlt Hev Hst Hmax cfg vals.
  destruct (proj2 (scan_stages_defined stages) Hok) as [[mask first] Hscan].
  assert (∃ m0 : SeqMatcher World, SeqMatcher_new id stages = Some m0) as [m0 Hnew].
  { unfold SeqMatcher_new. rewrite Hscan. cbn. eauto. }
  pose proof (SeqMatcher_new_rel _ _ _ Hnew) as ([_ Hmask _ _] & _ & Hs & _). rewrite Hs in Hmask.
  set (cb := report_cb (report_keys [mkReport name from to])).
  destruct (feed_new_spec id stages m0 [cb] (mkWorld ∅ ∅ csv) es Hnew Hst) as (m & Hd & Hf).
  pose proof (slots_run_length stages (λ _, empty_group 0) es) as Hlen.
  set (outs := (slots_run stages (λ _, empty_group 0) es).2) in *.
  unfold collect, cfg. rewrite (setup_one_seq iter Hiter name from to id stages q Hok Hpair process csvp probes m0 Hnew).
  cbn [mbind option_bind st_matchers st_fifos]. rewrite feed_samples_seq by done.
  cbn [foldl] in Hf. fold cb. rewrite Hf.
  rewrite (foldM_ext _ (λ w g, record_delta (report_keys [mkReport name from to]) w (group_delta from to g))).
  2: { intros w g _. unfold run_callbacks. cbn [foldM]. unfold cb.
       rewrite (report_cb_group name from to stages _ Hok Hlt Hmask Hpair). by destruct (record_delta _ _ _). }
  destruct (record_groups name from to outs (mkWorld ∅ ∅ csv) [] (hist_of_empty name ∅ csv)) as (w1 & -> & Hh1).
  { cbn. lia. }
  cbn [mbind option_bind]. unfold drain_matchers. cbn [flat_map Matcher_drain c_reports].
  rewrite app_nil_r, Hd, foldM_flat_map.
  rewrite (foldM_ext _ (λ w g, record_delta (report_keys [mkReport name from to]) w (group_delta from to g))).
  2: { intros. by apply record_group_deltas. }
  destruct (record_groups name from to outs w1 vals Hh1) as (w2 & Hw2 & Hh2).
  { unfold vals. rewrite length_map. lia. }
  by exists w2.
Qed.

(** C2. A report across two seq matchers, end to end: its histogram holds one sample per
    pop that finds a timestamp, the popping group's time minus the oldest pushed one
    still queued, in the order the groups complete. *)
Theorem collect_fifo_report iter process csvp probes idA stA qA idB stB qB name from to csv es :
  (∀ m, iter m ≡ₚ map_to_list m) → idA ≠ idB → stages_ok stA → stages_ok stB →
  from ∈ stA → to ∉ stA → from ∉ stB → to ∈ stB →
  Forall event_ok es → Forall (λ e, 0 ≤ ev_stage e < 64) es → 2 * Z.of_nat (length es) ≤ INT_MAX →
  let cfg := mkConfig process csvp probes
    [mkMatcher idA stA "seq" qA; mkMatcher idB stB "seq" qB] [mkReport name from to] in
  let ops := link_ops stA stB (λ _, empty_group 0) (λ _, empty_group 0) es in
  ∃ w, collect iter cfg csv (map encode_event es) = Some w ∧
    hist_rel (hist_of name w) (map (link_val to) (link_pairs 4096 from [] ops)).
Proof.
  intros Hiter Hid HokA HokB HfA HtA HfB HtB Hev Hst Hmax cfg ops.
  assert (∀ id st, stages_ok st → ∃ m : SeqMatcher World, SeqMatcher_new id st = Some m) as Hnew.
  { intros id st [[mask first] Hs]%scan_stages_defined. unfold SeqMatcher_new. rewrite Hs. cbn. eauto. }
  destruct (Hnew idA stA HokA) as [mA HnA], (Hnew idB stB HokB) as [mB HnB].
  pose proof (SeqMatcher_new_rel _ _ _ HnA) as (HrA & HpA & HsA & HcA).
  pose proof (SeqMatcher_new_rel _ _ _ HnB) as (HrB & HpB & HsB & HcB).
  pose proof (sr_mask _ _ HrA) as HmA. rewrite HsA in HmA. pose proof (sr_mask _ _ HrB) as HmB. rewrite HsB in HmB.
  unfold collect, cfg.
  rewrite (setup_two iter name from to idA stA qA idB stB qB process csvp probes mA mB) by done.
  cbn [mbind option_bind st_matchers st_fifos].
  set (cb := report_cb (report_keys [mkReport name from to])).
  set (mA1 := SeqMatcher_onComplete (fifo_push_cb name from) (SeqMatcher_onComplete cb mA)).
  set (mB1 := SeqMatcher_onComplete (fifo_pop_cb name name from to to) (SeqMatcher_onComplete cb mB)).
  set (w0 := mkWorld ∅ _ csv).
  pose proof (onComplete_fields mA [cb; fifo_push_cb name from]) as (HcA1 & HsA1 & HkA1 & HpA1 & HrA1).
  pose proof (onComplete_fields mB [cb; fifo_pop_cb name name from to to]) as (HcB1 & HsB1 & HkB1 & HpB1 & HrB1).
  assert (link_inv name from to stA stB (seq_stages_mask mA) (seq_stages_mask mB) mA1 mB1
    (λ _, empty_group 0) (λ _, empty_group 0)) as Hinv.
  { split; [by apply HrA1|by apply HrB1|exact HsA|exact HsB|done|done| | | |].
    - cbn. by rewrite HcA.
    - cbn. by rewrite HcB.
    - exists []. exact HpA.
    - exists []. exact HpB. }
  destruct (feed_samples_two name from to stA stB _ _ mA1 mB1 _ _ w0 es Hinv Hev Hst)
    as (mA2 & mB2 & gsA2 & gsB2 & Hinv2 & ->). fold ops.
  assert (link_rel name w0 [] 0 []) as Hrel0.
  { split; [|apply hist_of_empty]. eexists. cbn. rewrite lookup_singleton_eq.
    destruct (FifoQueue_new_rel name 4096 (mkFifo name 4096 0 0 (replicate 4096 None)) ltac:(done) eq_refl)
      as (Hf & _ & _). by split_and!. }
  pose proof (link_ops_length stA stB (λ _, empty_group 0) (λ _, empty_group 0) es) as Hlen. fold ops in Hlen.
  assert (length (filter is_push ops) ≤ length ops)%nat as Hfl by apply length_filter.
  destruct (link_run name from to stA stB (seq_stages_mask mA) (seq_stages_mask mB) HokA HokB HmA HmB HfA HtA HfB HtB
    w0 [] 0 [] ops Hrel0) as (w1 & -> & Hr1); [lia|cbn; lia|].
  cbn [mbind option_bind]. unfold drain_matchers. cbn [flat_map Matcher_drain SeqMatcher_drain fst c_reports].
  destruct (li_pA _ _ _ _ _ _ _ _ _ _ _ Hinv2) as [dA HdA], (li_pB _ _ _ _ _ _ _ _ _ _ _ Hinv2) as [dB HdB].
  rewrite HdA, HdB, app_nil_r, foldM_app, !drain_other by auto. cbn [mbind option_bind].
  rewrite drain_other by auto. exists w1. split; [done|]. apply (lr_hist _ _ _ _ _ Hr1).
Qed.

Lemma event_roundtrip_witness :
  event_ok (mkEvent 10 7 0 5) ∧
  handle_ring_event ([], mkWorld ∅ ∅ None) (encode_event (mkEvent 10 7 0 5)) = Some ([], mkWorld ∅ ∅ None).
Proof.
  assert (event_ok (mkEvent 10 7 0 5)) as He by (repeat split; done).
  split; [exact He|].
  rewrite (proj1 (event_roundtrip (mkEvent 10 7 0 5) [] (mkWorld ∅ ∅ None) [] He)). reflexivity.
Defined.

Lemma collect_key_report_witness :
  ∃ w, collect map_to_list
    (mkConfig "p" "" [] [mkMatcher "k" [0; 1] "key" 0] [mkReport "lat" 0 1]) None
    (map encode_event [mkEvent 10 3 0 77; mkEvent 11 4 0 78; mkEvent 15 5 1 77]) = Some w ∧
    hist_count (hist_of "lat" w) = 1.
Proof.
  destruct (collect_key_report map_to_list "p" "" [] "k" [0; 1] 0 "lat" 0 1 None
    [mkEvent 10 3 0 77; mkEvent 11 4 0 78; mkEvent 15 5 1 77]) as (w & outs & Hw & _).
  - intros m. reflexivity.
  - repeat constructor; done.
  - apply (bool_decide_unpack _). vm_compute. exact I.
  - vm_compute. left.
  - repeat constructor; done.
  - repeat constructor; done.
  - vm_compute. discriminate.
  - exists w. split; [exact Hw|].
    assert (∀ w', collect map_to_list
      (mkConfig "p" "" [] [mkMatcher "k" [0; 1] "key" 0] [mkReport "lat" 0 1]) None
      (map encode_event [mkEvent 10 3 0 77; mkEvent 11 4 0 78; mkEvent 15 5 1 77]) = Some w' →
      hist_count (hist_of "lat" w') = 1) as H.
    { intros w'. vm_compute. intros [= <-]. reflexivity. }
    exact (H w Hw).
Defined.

Lemma collect_seq_report_twice_witness :
  ∃ w, collect map_to_list
    (mkConfig "p" "" [] [mkMatcher "s" [0; 1] "seq" 0] [mkReport "lat" 0 1]) None
    (map encode_event [mkEvent 10 3 0 0; mkEvent 15 3 1 0]) = Some w ∧
    hist_count (hist_of "lat" w) = 2.
Proof.
  destruct (collect_seq_report_twice map_to_list "p" "" [] "s" [0; 1] 0 "lat" 0 1 None
    [mkEvent 10 3 0 0; mkEvent 15 3 1 0]) as (w & Hw & Hh).
  - intros m. reflexivity.
  - repeat constructor; done.
  - apply (bool_decide_unpack _). vm_compute. exact I.
  - vm_compute. left.
  - done.
  - repeat constructor; done.
  - repeat constructor; done.
  - vm_compute. discriminate.
  - exists w. split; [exact Hw|]. rewrite (hr_count _ _ Hh). vm_compute. reflexivity.
Defined.

Lemma collect_fifo_report_witness :
  ∃ w, collect map_to_list
    (mkConfig "p" "" [] [mkMatcher "a" [0; 1] "seq" 0; mkMatcher "b" [2; 3] "seq" 0] [mkReport "hop" 1 2]) None
    (map encode_event [mkEvent 10 3 0 0; mkEvent 15 3 1 0; mkEvent 20 4 2 0; mkEvent 26 4 3 0]) = Some w ∧
    hist_rel (hist_of "hop" w) [5].
Proof.
  destruct (collect_fifo_report map_to_list "p" "" [] "a" [0; 1] 0 "b" [2; 3] 0 "hop" 1 2 None
    [mkEvent 10 3 0 0; mkEvent 15 3 1 0; mkEvent 20 4 2 0; mkEvent 26 4 3 0]) as (w & Hw & Hh).
  - intros m. reflexivity.
  - done.
  - repeat constructor; done.
  - repeat constructor; done.
  - apply (bool_decide_unpack _). vm_compute. exact I.
  - apply (bool_decide_unpack _). vm_compute. exact I.
  - apply (bool_decide_unpack _). vm_compute. exact I.
  - apply (bool_decide_unpack _). vm_compute. exact I.
  - repeat constructor; done.
  - repeat constructor; done.
  - vm_compute. discriminate.
  - exists w. split; [exact Hw|]. exact Hh.
Defined.
