(* ===== verification/Lensx.v ===== *)
(** The first half of [main] (src/src/lensx.cpp): the command line, the process id,
    symbol resolution and the attachment of the probes.  The shell behind [popen],
    [readlink] and libbpf's attach calls are functions of the environment. *)
From stdpp Require Import base strings list pretty.
From Stdlib Require Import ZArith Lia Ascii.
From S2P Require Import Prelude Config BpfGen.

#[local] Open Scope Z_scope.

(** * [std::stoi] and [sscanf("%llx")] *)

Definition is_space (c : ascii) : bool :=
  let n := Z.of_nat (nat_of_ascii c) in (n =? 32) || ((9 <=? n) && (n <=? 13)).

Fixpoint skip_space (s : string) : string :=
  match s with
  | String c s' => if is_space c then skip_space s' else s
  | EmptyString => s
  end.

Definition digit_of (base : Z) (c : ascii) : option Z :=
  let n := Z.of_nat (nat_of_ascii c) in
  let d := if (48 <=? n) && (n <=? 57) then n - 48
           else if (97 <=? n) && (n <=? 122) then n - 87
           else if (65 <=? n) && (n <=? 90) then n - 55 else base in
  if d <? base then Some d else None.

(** The digits at the head of [s], added to [acc]. *)
Fixpoint scan_digits (base acc : Z) (s : string) : Z :=
  match s with
  | String c s' =>
      match digit_of base c with Some d => scan_digits base (acc * base + d) s' | None => acc end
  | EmptyString => acc
  end.

Definition starts_digit (base : Z) (s : string) : bool :=
  match s with String c _ => match digit_of base c with Some _ => true | None => false end | _ => false end.

(** An optional sign. *)
Definition scan_sign (s : string) : bool * string :=
  match s with
  | String "-"%char s' => (true, s')
  | String "+"%char s' => (false, s')
  | _ => (false, s)
  end.

(** [None]: [std::invalid_argument] or [std::out_of_range] is thrown. *)
Definition stoi (s : string) : option Z :=
  let '(neg, s) := scan_sign (skip_space s) in
  if starts_digit 10 s then
    let n := scan_digits 10 0 s in
    let v := if neg : bool then - n else n in
    if (- INT_MAX - 1 <=? v) && (v <=? INT_MAX) then Some v else None
  else None.

(** [unsigned long long off = 0; sscanf(buf, "%llx", &off);] *)
Definition skip_0x (s : string) : string :=
  match s with
  | String "0"%char (String ("x" | "X")%char s') => if starts_digit 16 s' then s' else s
  | _ => s
  end.

Definition scan_llx (s : string) : Z :=
  let '(neg, s) := scan_sign (skip_space s) in
  let n := scan_digits 16 0 (skip_0x s) in
  if 2 ^ 64 <=? n then 2 ^ 64 - 1 else if neg : bool then u64 (- n) else n.

(** * The command line *)

(** The loop over [argv[3..argc-2]]; [args] is [argv[3..]]. *)
Fixpoint scan_pid (args : list string) (override_pid : Z) : res Z :=
  match args with
  | a :: ((v :: _) as rest) =>
      pid <-! (if String.eqb a "--pid" then of_throw (stoi v) else Ok override_pid);
      scan_pid rest pid
  | _ => Ok override_pid
  end.

Definition usage : string := "Usage: lensx run config.yaml [--pid <pid>] [--csv <file>]".

(** The configuration's path and the pid the command line asks for (0: none). *)
Definition parse_args (argv : list string) : res (string * Z) :=
  match argv with
  | _ :: cmd :: config_path :: args =>
      if String.eqb cmd "run" then pid <-! scan_pid args 0; Ok (config_path, pid) else Exit usage
  | _ => Exit usage
  end.

(** * Processes and symbols *)

(** [fgets(buf, n, fp)]: at most [n - 1] characters, up to the first newline. *)
Fixpoint fgets_take (n : nat) (out : string) : string :=
  match n, out with
  | S n, String c s => if Ascii.eqb c "010" then String c "" else String c (fgets_take n s)
  | _, _ => EmptyString
  end.

Definition fgets (size : nat) (out : string) : option string :=
  match out with EmptyString => None | _ => Some (fgets_take (pred size) out) end.

Record Resolved := mkResolved { rs_binary : string; rs_offset : Z }.

Section host.
(** What a shell command prints ([None]: [popen] fails), and [readlink]. *)
Context (shell : string → option string) (readlink : string → option string).

Definition resolve_pid (name : string) : res Z :=
  match shell ("pgrep -x '" +:+ name +:+ "' | head -1") with
  | None => Exit "pgrep"
  | Some out =>
      match fgets 64 out with
      | None => Ok 0
      | Some buf => of_throw (stoi buf)
      end
  end.

Definition nm_cmd (exe symbol : string) : string :=
  "nm -C '" +:+ exe +:+ "' 2>/dev/null " +:+ "| grep -E '^[0-9a-f]+ [A-Z] .*" +:+ symbol +:+ "' "
  +:+ "| head -1".

Definition resolve_sym (pid : Z) (symbol : string) : res Resolved :=
  match readlink ("/proc/" +:+ pretty pid +:+ "/exe") with
  | None => Exit "readlink"
  | Some target =>
      let exe := substr_to target 4095 in
      match shell (nm_cmd exe symbol) with
      | None => Exit "popen"
      | Some out =>
          match fgets 4096 out with
          | None => Exit ("symbol '" +:+ symbol +:+ "' not found in " +:+ exe)
          | Some buf => Ok (mkResolved exe (scan_llx buf))
          end
      end
  end.

Definition pid_error : string := "error: target pid not found".

(** Step 2: [--pid] first, then the configured process name. *)
Definition target_pid (override_pid : Z) (process : string) : res Z :=
  pid <-! (if (override_pid =? 0) && negb (String.eqb process "")
           then resolve_pid process else Ok override_pid);
  if pid =? 0 then Exit pid_error else Ok pid.

(** * Step 5: attaching *)

Inductive AttachCall :=
  | AttachUprobe (retprobe : bool) (pid : Z) (binary : string) (offset : Z)
  | AttachKprobe (retprobe : bool) (symbol : string)
  | AttachTracepoint (cat name : string).

(** The call for one probe ([None]: a type [main] does not know, no call). *)
Definition attach_call (pid : Z) (p : ProbeConfig) : res (option AttachCall) :=
  if String.eqb (p_type p) "uprobe" then
    rs <-! resolve_sym pid (p_symbol p);
    Ok (Some (AttachUprobe false pid (rs_binary rs) (rs_offset rs)))
  else if String.eqb (p_type p) "kprobe" || String.eqb (p_type p) "kretprobe" then
    Ok (Some (AttachKprobe (String.eqb (p_type p) "kretprobe") (p_symbol p)))
  else if String.eqb (p_type p) "tracepoint" then
    let slash := str_find "/" (p_event p) in
    Ok (Some (AttachTracepoint (substr_upto (p_event p) slash)
                               (substr_from (p_event p) (npos_succ slash))))
  else Ok None.

(** libbpf: is there a program of that name, does the attach call succeed? *)
Context (find_program : string → bool) (attach : string → AttachCall → bool).

Definition attach_probe (pid : Z) (links : list (string * AttachCall)) (p : ProbeConfig)
    : res (list (string * AttachCall)) :=
  let name := prog_name p in
  if negb (find_program name) then Ok links
  else
    call <-! attach_call pid p;
    match call with
    | Some call => Ok (if attach name call then links ++ [(name, call)] else links)
    | None => Ok links
    end.

Fixpoint attach_probes (pid : Z) (links : list (string * AttachCall)) (ps : list ProbeConfig)
    : res (list (string * AttachCall)) :=
  match ps with
  | [] => Ok links
  | p :: ps => links <-! attach_probe pid links p; attach_probes pid links ps
  end.
End host.

(** * Specification *)

(** The sixteen hexadecimal digits [nm] prints for an address. *)
Definition hex_digit (d : Z) : ascii :=
  ascii_of_nat (Z.to_nat (if d <? 10 then 48 + d else 87 + d)).

Fixpoint hex_digits (n : nat) (v : Z) : string :=
  match n with
  | O => EmptyString
  | S n => String (hex_digit ((v / 16 ^ Z.of_nat n) `mod` 16)) (hex_digits n v)
  end.

(** The [SEC] name the generated program has, as an attach request: the kernel
    object each type of probe is meant to watch. *)
Definition probe_target (binary : string) (offset : string → Z) (pid : Z) (p : ProbeConfig)
    (call : AttachCall) : Prop :=
  (p_type p = "uprobe" ∧ call = AttachUprobe false pid binary (offset (p_symbol p))) ∨
  (p_type p = "kprobe" ∧ call = AttachKprobe false (p_symbol p)) ∨
  (p_type p = "kretprobe" ∧ call = AttachKprobe true (p_symbol p)) ∨
  (p_type p = "tracepoint" ∧ ∃ cat name,
     p_event p = cat +:+ "/" +:+ name ∧ has_char "/" cat = false ∧ call = AttachTracepoint cat name).

(** * Lemmas *)

Lemma hex_digit_of d : 0 ≤ d < 16 → digit_of 16 (hex_digit d) = Some d.
Proof.
  intros H. assert (d ∈ seqZ 0 16) as Hd by (apply elem_of_seqZ; lia).
  assert (Forall (λ d, digit_of 16 (hex_digit d) = Some d) (seqZ 0 16)) as HF.
  { apply (bool_decide_unpack _). vm_compute. exact I. }
  rewrite Forall_forall in HF. by apply HF.
Qed.

Lemma scan_hex_digits n v acc rest :
  0 ≤ v → starts_digit 16 rest = false →
  scan_digits 16 acc (hex_digits n v +:+ rest) = acc * 16 ^ Z.of_nat n + v `mod` 16 ^ Z.of_nat n.
Proof.
  intros Hv Hr. revert acc. induction n as [|n IH]; intros acc; cbn [hex_digits].
  - rewrite str_app_nil_l. cbn. rewrite Z.mod_1_r.
    destruct rest as [|c rest]; cbn in *; [lia|]. destruct (digit_of 16 c); [done|lia].
  - rewrite str_app_cons. cbn [scan_digits].
    rewrite hex_digit_of by (apply Z.mod_pos_bound; lia). rewrite IH.
    rewrite Nat2Z.inj_succ, Z.pow_succ_r by lia. rewrite (Z.mul_comm 16).
    rewrite (Z.rem_mul_r v (16 ^ Z.of_nat n) 16) by lia. lia.
Qed.

Lemma pretty_N_go_scan x s :
  (0 < x)%N → scan_digits 10 0 (pretty_N_go x s) = scan_digits 10 (Z.of_N x) s ∧
              starts_digit 10 (pretty_N_go x s) = true.
Proof.
  revert s. induction (N.lt_wf_0 x) as [x _ IH]; intros s Hx.
  rewrite pretty_N_go_step by lia.
  assert (digit_of 10 (pretty_N_char (x `mod` 10)) = Some (Z.of_N (x `mod` 10))) as Hd.
  { assert (x `mod` 10 < 10)%N as Hm by (apply N.mod_lt; lia).
    destruct (x `mod` 10)%N as [|p]; [done|].
    do 10 (destruct p as [p|p|]; try done; try lia). }
  assert (x = 10 * (x / 10) + x `mod` 10)%N as Hx10 by (apply N.div_mod; lia).
  destruct (decide (x / 10 = 0)%N) as [H0|H0].
  - rewrite H0, pretty_N_go_0. cbn [scan_digits starts_digit]. rewrite Hd.
    split; [|done]. f_equal. rewrite H0 in Hx10. lia.
  - destruct (IH (x / 10)%N) with (s := String (pretty_N_char (x `mod` 10)) s) as [-> ->];
      [apply N.div_lt; lia|by apply N.neq_0_lt_0|].
    cbn [scan_digits]. rewrite Hd. split; [|done]. f_equal. lia.
Qed.

Lemma pretty_N_go_app x s t : pretty_N_go x s +:+ t = pretty_N_go x (s +:+ t).
Proof.
  revert s. induction (N.lt_wf_0 x) as [x _ IH]; intros s.
  destruct (decide (x = 0)%N) as [->|Hx]; [by rewrite !pretty_N_go_0|].
  rewrite !(pretty_N_go_step x) by lia. rewrite IH by (apply N.div_lt; lia). by rewrite str_app_cons.
Qed.

Lemma pretty_pos n : 0 < n → pretty n = pretty_N_go (Z.to_N n) "".
Proof. intros. destruct n as [|p|p]; [lia| |lia]. reflexivity. Qed.

Lemma scan_pretty n rest :
  0 < n → starts_digit 10 rest = false →
  scan_digits 10 0 (pretty n +:+ rest) = n ∧ starts_digit 10 (pretty n +:+ rest) = true.
Proof.
  intros Hn Hr. rewrite pretty_pos, pretty_N_go_app, str_app_nil_l by lia.
  destruct (pretty_N_go_scan (Z.to_N n) rest) as [-> ->]; [lia|]. split; [|done].
  rewrite Z2N.id by lia. destruct rest as [|c rest]; cbn in *; [done|]. by destruct (digit_of 10 c).
Qed.

(** [skip_space] and [scan_sign] leave a digit alone. *)
Lemma digit_first_char (b16 : bool) c :
  (if digit_of (if b16 then 16 else 10) c
   then negb (is_space c) && negb (Ascii.eqb c "-") && negb (Ascii.eqb c "+") else true) = true.
Proof. destruct b16, c as [[] [] [] [] [] [] [] []]; reflexivity. Qed.

Lemma digit_first (b16 : bool) s :
  starts_digit (if b16 then 16 else 10) s = true → scan_sign (skip_space s) = (false, s).
Proof.
  destruct s as [|c s]; [done|]. intros H. cbn [starts_digit] in H. pose proof (digit_first_char b16 c) as Hc.
  destruct (digit_of (if b16 then 16 else 10) c); [|done].
  rewrite !andb_true_iff, !negb_true_iff in Hc. destruct Hc as [[Hs Hm] Hp].
  cbn [skip_space]. rewrite Hs. apply Ascii.eqb_neq in Hm, Hp.
  cbn [scan_sign]. destruct c as [[] [] [] [] [] [] [] []]; done.
Qed.

Lemma stoi_pretty n rest :
  0 < n ≤ INT_MAX → starts_digit 10 rest = false → stoi (pretty n +:+ rest) = Some n.
Proof.
  intros Hn Hr. unfold stoi. destruct (scan_pretty n rest ltac:(lia) Hr) as [Hv Hs].
  rewrite (digit_first false) by done. rewrite Hs, Hv. unfold INT_MAX in *.
  destruct (Z.leb_spec (- (2 ^ 31 - 1) - 1) n), (Z.leb_spec n (2 ^ 31 - 1)); try lia; done.
Qed.

Lemma skip_0x_digit a b s :
  is_Some (digit_of 16 b) → skip_0x (String a (String b s)) = String a (String b s).
Proof.
  intros Hb. destruct a as [[] [] [] [] [] [] [] []]; try reflexivity.
  destruct b as [[] [] [] [] [] [] [] []]; try reflexivity; by destruct Hb as [? [=]].
Qed.

Lemma scan_llx_hex v rest :
  0 ≤ v < 2 ^ 64 → starts_digit 16 rest = false → scan_llx (hex_digits 16 v +:+ rest) = v.
Proof.
  intros Hv Hr. unfold scan_llx.
  assert (starts_digit 16 (hex_digits 16 v +:+ rest) = true) as Hs.
  { cbn [hex_digits]. rewrite str_app_cons. cbn [starts_digit].
    rewrite hex_digit_of by (apply Z.mod_pos_bound; lia). done. }
  rewrite (digit_first true) by exact Hs.
  assert (skip_0x (hex_digits 16 v +:+ rest) = hex_digits 16 v +:+ rest) as ->.
  { cbn [hex_digits]. rewrite !str_app_cons.
    pose proof (hex_digit_of ((v / 16 ^ Z.of_nat 14) `mod` 16) ltac:(apply Z.mod_pos_bound; lia)) as H2.
    apply skip_0x_digit. by rewrite H2. }
  rewrite scan_hex_digits by (lia || done). rewrite Z.mod_small by lia.
  change (16 ^ Z.of_nat 16) with (2 ^ 64). destruct (Z.leb_spec (2 ^ 64) (0 * 2 ^ 64 + v)); lia.
Qed.

Lemma scan_pid_skip args o : "--pid" ∉ args → scan_pid args o = Ok o.
Proof.
  revert o. induction args as [|a args IH]; intros o Hn; [done|].
  apply not_elem_of_cons in Hn as [Ha Hn]. cbn. destruct args as [|v args]; [done|].
  destruct (String.eqb_spec a "--pid"); [done|]. cbn [res_bind]. by apply IH.
Qed.

Lemma scan_pid_app pre args o :
  "--pid" ∉ pre → args ≠ [] → scan_pid (pre ++ args) o = scan_pid args o.
Proof.
  intros Hn Hne. revert o. induction pre as [|a pre IH]; intros o; [done|].
  apply not_elem_of_cons in Hn as [Ha Hn]. cbn.
  destruct (pre ++ args) as [|v l] eqn:E; [by apply app_eq_nil in E as [_ ->]|].
  destruct (String.eqb_spec a "--pid"); [done|]. cbn [res_bind]. by apply IH.
Qed.

Lemma pretty_N_go_length k x s :
  (x < 10 ^ N.of_nat k)%N → (String.length (pretty_N_go x s) ≤ k + String.length s)%nat.
Proof.
  revert x s. induction k as [|k IH]; intros x s Hx.
  { cbn in Hx. assert (x = 0%N) as -> by lia. by rewrite pretty_N_go_0. }
  destruct (decide (x = 0)%N) as [->|H0]; [rewrite pretty_N_go_0; lia|].
  rewrite pretty_N_go_step by lia. etrans; [apply IH|cbn; lia].
  rewrite Nat2N.inj_succ, N.pow_succ_r' in Hx. apply N.Div0.div_lt_upper_bound. lia.
Qed.

Lemma pretty_N_go_no_nl x s : has_char "010" (pretty_N_go x s) = has_char "010" s.
Proof.
  revert s. induction (N.lt_wf_0 x) as [x _ IH]; intros s.
  destruct (decide (x = 0)%N) as [->|H0]; [by rewrite pretty_N_go_0|].
  rewrite pretty_N_go_step by lia. rewrite IH by (apply N.div_lt; lia). cbn [has_char].
  assert (x `mod` 10 < 10)%N as Hm by (apply N.mod_lt; lia).
  destruct (x `mod` 10)%N as [|p]; [done|]. do 10 (destruct p as [p|p|]; try done; try lia).
Qed.

Lemma fgets_line size a more :
  has_char "010" a = false → (String.length a + 1 < size)%nat →
  fgets size (a +:+ nl +:+ more) = Some (a +:+ nl).
Proof.
  intros Ha Hs. unfold fgets.
  assert (∀ n, (String.length a < n)%nat → fgets_take n (a +:+ nl +:+ more) = a +:+ nl) as H.
  { clear Hs. induction a as [|c a IH]; intros [|n] Hn; try (cbn in Hn; lia); [done|].
    cbn in Ha. apply orb_false_iff in Ha as [Hc Ha]. rewrite str_app_cons. cbn [fgets_take].
    rewrite Hc, str_app_cons. f_equal. apply IH; [done|cbn in Hn; lia]. }
  rewrite H by lia. destruct a; done.
Qed.

Lemma has_char_app c (a b : string) : has_char c (a +:+ b) = has_char c a || has_char c b.
Proof. induction a as [|x a IH]; [done|]. rewrite str_app_cons. cbn. by rewrite IH, orb_assoc. Qed.

Lemma has_char_split c (s : string) :
  has_char c s = true → ∃ a b, s = a +:+ String c b ∧ has_char c a = false.
Proof.
  induction s as [|x s IH]; [done|]. cbn. intros H. destruct (Ascii.eqb_spec x c) as [->|Hx].
  - by exists "", s.
  - destruct (IH H) as (a & b & -> & Ha). exists (String x a), b. split; [done|].
    cbn. destruct (Ascii.eqb_spec x c); done.
Qed.

Lemma substr_to_short (s : string) n : (String.length s ≤ n)%nat → substr_to s n = s.
Proof.
  unfold substr_to. revert n. induction s as [|x s IH]; intros [|n] H; cbn in *; try done; [lia|].
  f_equal. apply IH. lia.
Qed.

Lemma hex_digits_length n v : String.length (hex_digits n v) = n.
Proof. induction n as [|n IH]; [done|]. cbn. by rewrite IH. Qed.

Lemma hex_digits_no_nl n v : has_char "010" (hex_digits n v) = false.
Proof.
  induction n as [|n IH]; [done|]. cbn [hex_digits has_char]. rewrite IH, orb_false_r.
  pose proof (hex_digit_of ((v / 16 ^ Z.of_nat n) `mod` 16) ltac:(apply Z.mod_pos_bound; lia)) as H.
  destruct (Ascii.eqb_spec (hex_digit ((v / 16 ^ Z.of_nat n) `mod` 16)) "010") as [E|]; [|done].
  by rewrite E in H.
Qed.

Lemma parse_args_run prog path args :
  parse_args ([prog; "run"; path] ++ args) = (pid <-! scan_pid args 0; Ok (path, pid)).
Proof. reflexivity. Qed.

Lemma attach_call_target shell readlink pid exe offset p :
  readlink ("/proc/" +:+ pretty pid +:+ "/exe") = Some exe → (String.length exe ≤ 4095)%nat →
  (p_type p = "uprobe" ∧ 0 ≤ offset (p_symbol p) < 2 ^ 64 ∧
     ∃ rest, has_char "010" rest = false ∧ (String.length rest < 4000)%nat ∧
       shell (nm_cmd exe (p_symbol p)) =
       Some ((hex_digits 16 (offset (p_symbol p)) +:+ " " +:+ rest) +:+ nl)) ∨
  p_type p = "kprobe" ∨ p_type p = "kretprobe" ∨
  (p_type p = "tracepoint" ∧ has_char "/" (p_event p) = true) →
  ∃ call, attach_call shell readlink pid p = Ok (Some call) ∧ probe_target exe offset pid p call.
Proof.
  intros Hrl Hlen [(Ht & Hoff & rest & Hnl & Hrest & Hsh)|[Ht|[Ht|[Ht Hev]]]];
    unfold attach_call, probe_target; rewrite Ht.
  - unfold resolve_sym. rewrite Hrl. change (String.eqb "uprobe" "uprobe") with true. cbn [res_bind].
    rewrite (substr_to_short exe) by done. rewrite Hsh.
    rewrite <- (str_app_nil nl), fgets_line.
    + cbn [res_bind]. rewrite str_app_assoc, str_app_assoc, scan_llx_hex by done.
      eexists. split; [done|]. by left.
    + rewrite has_char_app, hex_digits_no_nl. cbn. done.
    + rewrite str_length_app, hex_digits_length, str_length_app. cbn. lia.
  - eexists. split; [reflexivity|]. eauto.
  - eexists. split; [reflexivity|]. eauto.
  - destruct (has_char_split "/" _ Hev) as (cat & name & He & Hcat).
    eexists. split; [reflexivity|]. right. right. right. split; [done|]. exists cat, name.
    rewrite He. split_and!; [done..|].
    rewrite str_find_app by done. cbn [substr_upto npos_succ].
    rewrite substr_to_app.
    replace (cat +:+ String "/" name) with ((cat +:+ "/") +:+ name) by apply str_app_assoc.
    replace (S (String.length cat)) with (String.length (cat +:+ "/")) by (rewrite str_length_app; cbn; lia).
    by rewrite substr_from_app.
Qed.

(** * Properties *)

(** The process id: the last [--pid] of the command line wins over the configured
    process name, other arguments ([--csv <file>] among them) change nothing, and
    without [--pid] it is the first process [pgrep] lists, the run ending with an
    error when there is none or no name is configured. *)
Theorem target_pid_precedence shell prog path pre post n process :
  "--pid" ∉ pre → "--pid" ∉ post → 0 < n ≤ INT_MAX →
  (parse_args ([prog; "run"; path] ++ pre ++ ["--pid"; pretty n] ++ post) = Ok (path, n) ∧
   target_pid shell n process = Ok n) ∧
  (parse_args ([prog; "run"; path] ++ pre) = Ok (path, 0) ∧
   target_pid shell 0 "" = Exit pid_error ∧
   (∀ more, process ≠ "" →
      shell ("pgrep -x '" +:+ process +:+ "' | head -1") = Some (pretty n +:+ nl +:+ more) →
      target_pid shell 0 process = Ok n) ∧
   (process ≠ "" → shell ("pgrep -x '" +:+ process +:+ "' | head -1") = Some "" →
      target_pid shell 0 process = Exit pid_error)).
Proof.
  intros Hpre Hpost Hn.
  assert (stoi (pretty n) = Some n) as Hstoi by (rewrite <- (str_app_nil (pretty n)); by apply stoi_pretty).
  split; split; [| | |split_and!].
  - rewrite parse_args_run, scan_pid_app by done.
    change (scan_pid (["--pid"; pretty n] ++ post) 0) with
      (pid <-! of_throw (stoi (pretty n)); scan_pid (pretty n :: post) pid).
    rewrite Hstoi. cbn [of_throw res_bind]. rewrite scan_pid_skip; [done|]. apply not_elem_of_cons. split; [|done]. intros Hp.
    rewrite <- Hp in Hstoi. done.
  - unfold target_pid. destruct (Z.eqb_spec n 0); [lia|]. cbn. by destruct (Z.eqb_spec n 0); [lia|].
  - rewrite parse_args_run. by rewrite scan_pid_skip.
  - done.
  - intros more Hp Hsh. unfold target_pid, resolve_pid. rewrite Hsh.
    destruct (String.eqb_spec process ""); [done|]. cbn [Z.eqb negb andb].
    rewrite fgets_line.
    + rewrite stoi_pretty by done. cbn. by destruct (Z.eqb_spec n 0); [lia|].
    + rewrite pretty_pos, pretty_N_go_no_nl by lia. done.
    + rewrite pretty_pos by lia. pose proof (pretty_N_go_length 10 (Z.to_N n) "") as Hl.
      unfold INT_MAX in Hn. cbn [String.length] in *. specialize (Hl ltac:(lia)). lia.
  - intros Hp Hsh. unfold target_pid, resolve_pid. rewrite Hsh.
    by destruct (String.eqb_spec process "").
Qed.

(** When libbpf finds every program and accepts every attach call, every probe of
    one of the four types is attached, in order, through the program generated for
    it and to the target its type names: uprobes at the address [nm] prints first
    for the symbol, tracepoints split at the event's first slash. *)
Theorem attach_probes_all shell readlink find_program attach pid exe offset ps :
  readlink ("/proc/" +:+ pretty pid +:+ "/exe") = Some exe → (String.length exe ≤ 4095)%nat →
  (∀ name, find_program name = true) → (∀ name call, attach name call = true) →
  Forall (λ p,
    (p_type p = "uprobe" ∧ 0 ≤ offset (p_symbol p) < 2 ^ 64 ∧
       ∃ rest, has_char "010" rest = false ∧ (String.length rest < 4000)%nat ∧
         shell (nm_cmd exe (p_symbol p)) =
         Some ((hex_digits 16 (offset (p_symbol p)) +:+ " " +:+ rest) +:+ nl)) ∨
    p_type p = "kprobe" ∨ p_type p = "kretprobe" ∨
    (p_type p = "tracepoint" ∧ has_char "/" (p_event p) = true)) ps →
  ∃ links, attach_probes shell readlink find_program attach pid [] ps = Ok links ∧
    Forall2 (λ p l, l.1 = prog_name p ∧ probe_target exe offset pid p l.2) ps links.
Proof.
  intros Hrl Hlen Hfind Hatt HF.
  assert (∀ links0, ∃ links, attach_probes shell readlink find_program attach pid links0 ps = Ok (links0 ++ links) ∧
    Forall2 (λ p l, l.1 = prog_name p ∧ probe_target exe offset pid p l.2) ps links) as H.
  { induction HF as [|p ps Hp _ IH]; intros links0.
    - exists []. by rewrite app_nil_r.
    - assert (∃ call, attach_call shell readlink pid p = Ok (Some call) ∧ probe_target exe offset pid p call)
        as (call & Hc & Ht) 
        by eauto using attach_call_target.
      destruct (IH (links0 ++ [(prog_name p, call)])) as (links & Hl & H2).
      exists ((prog_name p, call) :: links). split; [|by constructor].
      cbn [attach_probes]. unfold attach_probe. rewrite Hfind, Hc. cbn [negb res_bind].
      by rewrite Hatt, Hl, <- app_assoc. }
  destruct (H []) as (links & Hl & H2). by exists links.
Qed.

Lemma target_pid_precedence_witness :
  parse_args ["lensx"; "run"; "c.yaml"; "--csv"; "o.csv"; "--pid"; "42"] = Ok ("c.yaml", 42).
Proof.
  exact (proj1 (proj1 (target_pid_precedence (λ _, None) "lensx" "c.yaml" ["--csv"; "o.csv"] [] 42 ""
    ltac:(apply (bool_decide_unpack _); exact I) ltac:(apply (bool_decide_unpack _); exact I)
    ltac:(split; vm_compute; congruence)))).
Defined.

Lemma attach_probes_all_witness :
  ∃ links, attach_probes
    (λ _, Some ((hex_digits 16 4660 +:+ " " +:+ "T f") +:+ nl)) (λ _, Some "/bin/app")
    (λ _, true) (λ _ _, true) 42 []
    [mkProbe "a" "uprobe" "f" "" 0 ""; mkProbe "b" "tracepoint" "" "sched/switch" 1 ""] = Ok links ∧
  length links = 2%nat.
Proof.
  destruct (attach_probes_all (λ _, Some ((hex_digits 16 4660 +:+ " " +:+ "T f") +:+ nl)) (λ _, Some "/bin/app")
    (λ _, true) (λ _ _, true) 42 "/bin/app" (λ _, 4660)
    [mkProbe "a" "uprobe" "f" "" 0 ""; mkProbe "b" "tracepoint" "" "sched/switch" 1 ""]) as (links & Hl & H2).
  - reflexivity.
  - vm_compute. lia.
  - reflexivity.
  - reflexivity.
  - constructor; [left|constructor; [right; right; right|constructor]].
    + split; [reflexivity|]. split; [split; vm_compute; congruence|]. exists "T f".
      split; [reflexivity|]. split; [vm_compute; lia|reflexivity].
    + split; reflexivity.
  - exists links. split; [exact Hl|]. exact (eq_sym (Forall2_length _ _ _ H2)).
Defined.
