(* ===== verification/Hashmap.v ===== *)
(** The hash map of libbpf (src/libbpf/src/hashmap.c, hashmap.h): separate chaining
    with a power-of-two number of buckets and multiplicative hashing.

    A bucket is the list of its chain's entries; [buckets == NULL] is [None].  The
    two callbacks ([hash_fn], [equal_fn], already applied to [ctx]) are variables.
    [calloc] and [malloc] may fail: whether they do is an argument.  [None] as a
    result stands for undefined behaviour (a bucket outside the array, a shift by
    the width); the theorems show it does not happen. *)
From stdpp Require Import base list sorting sets.
From Stdlib Require Import ZArith Lia.
From S2P Require Import Prelude.

#[local] Open Scope Z_scope.

Definition HASHMAP_MIN_CAP_BITS : Z := 2.

Definition hash_bits (h bits : Z) : Z :=
  if bits =? 0 then 0 else Z.shiftr (u64 (h * 11400714819323198485)) (64 - bits).

(** [char] is signed on x86-64; [h * 31 + *s] wraps. *)
Fixpoint str_hash_from (h : Z) (s : list Z) : Z :=
  match s with
  | [] => h
  | c :: s => str_hash_from (u64 (h * 31 + swrap 8 c)) s
  end.

Definition str_hash (s : list Z) : Z := str_hash_from 0 s.

Record hashmap (K V : Type) := mkHashmap {
  hm_buckets : option (list (list (K * V)));
  hm_cap : Z;
  hm_cap_bits : Z;
  hm_sz : Z;
}.
Arguments mkHashmap {K V}.
Arguments hm_buckets {K V}.
Arguments hm_cap {K V}.
Arguments hm_cap_bits {K V}.
Arguments hm_sz {K V}.

Inductive insert_strategy := HASHMAP_ADD | HASHMAP_SET | HASHMAP_UPDATE | HASHMAP_APPEND.

#[export] Instance insert_strategy_eq_dec : EqDecision insert_strategy.
Proof. solve_decision. Defined.

Section hashmap.
Context {K V : Type} (hash_fn : K → Z) (equal_fn : K → K → bool).

Definition hashmap__init : hashmap K V := mkHashmap None 0 0 0.

Definition hashmap__new (malloc_ok : bool) : option (hashmap K V) :=
  if malloc_ok then Some hashmap__init else None.

(** The entries in the order [hashmap__for_each_entry] visits them. *)
Definition hashmap_entries (m : hashmap K V) : list (K * V) :=
  match hm_buckets m with Some bs => concat bs | None => [] end.

(** The freed entries are those of [hashmap_entries]. *)
Definition hashmap__clear (m : hashmap K V) : hashmap K V := mkHashmap None 0 0 0.

Definition hashmap__size (m : hashmap K V) : Z := hm_sz m.
Definition hashmap__capacity (m : hashmap K V) : Z := hm_cap m.

Definition hashmap_needs_to_grow (m : hashmap K V) : bool :=
  (hm_cap m =? 0) || (u64 (u64 (hm_sz m + 1) * 4) / 3 >? hm_cap m).

(** [hashmap_add_entry(&buckets[h], e)] *)
Definition hashmap_add_entry (bs : list (list (K * V))) (h : Z) (e : K * V)
    : option (list (list (K * V))) :=
  c ← bs !! Z.to_nat h; Some (<[Z.to_nat h := e :: c]> bs).

(** The new table of [hashmap_grow]: the old entries, in order, each put at the
    head of its new chain. *)
Definition hashmap_rehash (bits : Z) (es : list (K * V)) : option (list (list (K * V))) :=
  foldM (λ bs e, hashmap_add_entry bs (hash_bits (hash_fn e.1) bits) e)
        (replicate (Z.to_nat (2 ^ bits)) []) es.

Definition hashmap_grow (calloc_ok : bool) (m : hashmap K V) : option (hashmap K V * Z) :=
  let bits := hm_cap_bits m + 1 in
  let bits := if bits <? HASHMAP_MIN_CAP_BITS then HASHMAP_MIN_CAP_BITS else bits in
  cap ← shl1 bits;
  if negb calloc_ok then Some (m, - ENOMEM)
  else
    bs ← hashmap_rehash bits (hashmap_entries m);
    Some (mkHashmap (Some bs) cap bits (hm_sz m), 0).

(** The position of the entry in its chain, and the entry. *)
Definition hashmap_find_entry (m : hashmap K V) (key : K) (h : Z) : option (option (nat * (K * V))) :=
  match hm_buckets m with
  | None => Some None
  | Some bs => c ← bs !! Z.to_nat h; Some (list_find (λ e, equal_fn e.1 key = true) c)
  end.

(** [entry->key = key; entry->value = value] for the entry at [i] in chain [h]. *)
Definition hashmap_set_entry (m : hashmap K V) (h : Z) (i : nat) (e : K * V) : hashmap K V :=
  mkHashmap (alter (alter (λ _, e) i) (Z.to_nat h) <$> hm_buckets m) (hm_cap m) (hm_cap_bits m) (hm_sz m).

(** [hashmap_del_entry] unlinks the entry from its chain. *)
Definition hashmap_del_entry (m : hashmap K V) (h : Z) (i : nat) : hashmap K V :=
  mkHashmap (alter (delete i) (Z.to_nat h) <$> hm_buckets m) (hm_cap m) (hm_cap_bits m) (u64 (hm_sz m - 1)).

(** The result: the map, the value returned and what [old_key]/[old_value] are set
    to ([None]: [NULL]). *)
Definition hashmap__insert (calloc_ok malloc_ok : bool) (m : hashmap K V) (key : K) (value : V)
    (strategy : insert_strategy) : option (hashmap K V * Z * option (K * V)) :=
  let h := hash_bits (hash_fn key) (hm_cap_bits m) in
  found ← (if decide (strategy = HASHMAP_APPEND) then Some None else hashmap_find_entry m key h);
  let old := snd <$> (found : option (nat * (K * V))) in
  match found, strategy with
  | Some (i, _), (HASHMAP_SET | HASHMAP_UPDATE) =>
      Some (hashmap_set_entry m h i (key, value), 0, old)
  | Some _, HASHMAP_ADD => Some (m, - EEXIST, old)
  | _, HASHMAP_UPDATE => Some (m, - ENOENT, old)
  | _, _ =>
      '(m, err) ← (if hashmap_needs_to_grow m then hashmap_grow calloc_ok m else Some (m, 0));
      if negb (err =? 0) then Some (m, err, old)
      else
        let h := hash_bits (hash_fn key) (hm_cap_bits m) in
        if negb malloc_ok then Some (m, - ENOMEM, old)
        else
          bs ← hm_buckets m;
          bs ← hashmap_add_entry bs h (key, value);
          Some (mkHashmap (Some bs) (hm_cap m) (hm_cap_bits m) (u64 (hm_sz m + 1)), 0, old)
  end.

Definition hashmap__find (m : hashmap K V) (key : K) : option (option V) :=
  found ← hashmap_find_entry m key (hash_bits (hash_fn key) (hm_cap_bits m));
  Some ((λ p, p.2.2) <$> (found : option (nat * (K * V)))).

Definition hashmap__delete (m : hashmap K V) (key : K) : option (hashmap K V * bool * option (K * V)) :=
  let h := hash_bits (hash_fn key) (hm_cap_bits m) in
  found ← hashmap_find_entry m key h;
  match found with
  | None => Some (m, false, None)
  | Some (i, e) => Some (hashmap_del_entry m h i, true, Some e)
  end.

(** [hashmap__for_each_key_entry] *)
Definition hashmap_key_entries (m : hashmap K V) (key : K) : option (list (K * V)) :=
  match hm_buckets m with
  | None => Some []
  | Some bs =>
      c ← bs !! Z.to_nat (hash_bits (hash_fn key) (hm_cap_bits m));
      Some (filter (λ e, equal_fn e.1 key = true) c)
  end.

(** * Traces of calls, and their specification on an association list *)

Inductive hm_op :=
  | Insert (calloc_ok malloc_ok : bool) (key : K) (value : V) (strategy : insert_strategy)
  | Find (key : K)
  | Delete (key : K).

(** What a call returns: its code (1 and 0 for a boolean) and the entry it reports. *)
Definition hm_step (m : hashmap K V) (op : hm_op) : option (hashmap K V * (Z * option (K * V) * option V)) :=
  match op with
  | Insert a1 a2 k v s => '(m, r, old) ← hashmap__insert a1 a2 m k v s; Some (m, (r, old, None))
  | Find k => o ← hashmap__find m k; Some (m, (if (o : option V) then 1 else 0, @None (K * V), o))
  | Delete k => '(m, b, old) ← hashmap__delete m k; Some (m, (if b : bool then 1 else 0, old, None))
  end.

Definition spec_find (l : list (K * V)) (key : K) : option (nat * (K * V)) :=
  list_find (λ e, equal_fn e.1 key = true) l.

(** [grow] says whether the insertion has to allocate a larger table. *)
Definition spec_step (grow : bool) (l : list (K * V)) (op : hm_op)
    : list (K * V) * (Z * option (K * V) * option V) :=
  match op with
  | Insert a1 a2 k v s =>
      match spec_find l k, s with
      | Some (i, e), (HASHMAP_SET | HASHMAP_UPDATE) => (<[i := (k, v)]> l, (0, Some e, None))
      | Some (i, e), HASHMAP_ADD => (l, (- EEXIST, Some e, None))
      | None, HASHMAP_UPDATE => (l, (- ENOENT, None, None))
      | _, _ => if (grow && negb a1) || negb a2 then (l, (- ENOMEM, None, None))
                else ((k, v) :: l, (0, None, None))
      end
  | Find k => match spec_find l k with
              | Some (i, e) => (l, (1, None, Some e.2))
              | None => (l, (0, None, None))
              end
  | Delete k => match spec_find l k with
                | Some (i, e) => (delete i l, (1, Some e, None))
                | None => (l, (0, None, None))
                end
  end.

(** With several entries for a key: [l] has the entries of every key in the order in which
    they are found and iterated, the latest first, and growing the table turns this order
    round. *)
Definition multi_insert (grow a1 a2 : bool) (l : list (K * V)) (e : K * V) : list (K * V) * Z :=
  if grow && negb a1 then (l, - ENOMEM)
  else
    let l := if grow then reverse l else l in
    if a2 then (e :: l, 0) else (l, - ENOMEM).

Definition multi_step (grow : bool) (l : list (K * V)) (op : hm_op)
    : list (K * V) * (Z * option (K * V) * option V) :=
  match op with
  | Insert a1 a2 k v s =>
      match s, spec_find l k with
      | (HASHMAP_SET | HASHMAP_UPDATE), Some (i, e) => (<[i := (k, v)]> l, (0, Some e, None))
      | HASHMAP_ADD, Some (_, e) => (l, (- EEXIST, Some e, None))
      | HASHMAP_UPDATE, None => (l, (- ENOENT, None, None))
      | _, _ => let '(l, r) := multi_insert grow a1 a2 l (k, v) in (l, (r, None, None))
      end
  | Find k => (l, match spec_find l k with Some (_, e) => (1, None, Some e.2) | None => (0, None, None) end)
  | Delete k =>
      match spec_find l k with
      | Some (i, e) => (delete i l, (1, Some e, None))
      | None => (l, (0, None, None))
      end
  end.
End hashmap.
Arguments hm_op : clear implicits.

(** * Well-formedness *)

Record hm_ok {K V} (hash_fn : K → Z) (m : hashmap K V) : Prop := {
  ok_shape : match hm_buckets m with
             | None => hm_cap m = 0 ∧ hm_cap_bits m = 0 ∧ hm_sz m = 0
             | Some bs => 2 ≤ hm_cap_bits m < 64 ∧ hm_cap m = 2 ^ hm_cap_bits m ∧
                          Z.of_nat (length bs) = hm_cap m
             end;
  ok_home : ∀ bs h c e, hm_buckets m = Some bs → bs !! h = Some c → e ∈ c →
              Z.of_nat h = hash_bits (hash_fn e.1) (hm_cap_bits m);
  ok_sz : hm_sz m = Z.of_nat (length (hashmap_entries m));
  ok_load : hm_sz m * 4 / 3 ≤ hm_cap m;
}.

(** No two entries have equal keys (any map that was filled without
    [HASHMAP_APPEND]). *)
Definition hm_unique {K V} (equal_fn : K → K → bool) (l : list (K * V)) : Prop :=
  ∀ a b rest, l ≡ₚ a :: b :: rest → equal_fn a.1 b.1 = false.

(** The map [m] stands for the association list [l], up to order. *)
Definition hm_rel {K V} (hash_fn : K → Z) (equal_fn : K → K → bool) (m : hashmap K V) (l : list (K * V)) : Prop :=
  hm_ok hash_fn m ∧ hashmap_entries m ≡ₚ l ∧ hm_unique equal_fn l.

(** The entries whose key equals [k], in order. *)
Definition of_key {K V} (equal_fn : K → K → bool) (k : K) (l : list (K * V)) : list (K * V) :=
  filter (λ e, equal_fn e.1 k = true) l.

(** The map [m], with any number of entries for a key, stands for [l]. *)
Definition multi_rel {K V} (hash_fn : K → Z) (equal_fn : K → K → bool) (m : hashmap K V) (l : list (K * V)) : Prop :=
  hm_ok hash_fn m ∧ ∀ k, of_key equal_fn k (hashmap_entries m) = of_key equal_fn k l.

(** A call that keeps keys unique. *)
Definition no_append {K V} (op : hm_op K V) : bool :=
  match op with Insert _ _ _ _ HASHMAP_APPEND => false | _ => true end.

(** A call whose allocations succeed. *)
Definition allocs_ok {K V} (op : hm_op K V) : bool :=
  match op with Insert a1 a2 _ _ _ => a1 && a2 | _ => true end.

(** Running a trace and its specification. *)
Fixpoint hm_run {K V} (hash_fn : K → Z) (equal_fn : K → K → bool) (m : hashmap K V) (ops : list (hm_op K V))
    : option (hashmap K V * list (Z * option (K * V) * option V)) :=
  match ops with
  | [] => Some (m, [])
  | op :: ops =>
      '(m, r) ← hm_step hash_fn equal_fn m op;
      '(m, rs) ← hm_run hash_fn equal_fn m ops;
      Some (m, r :: rs)
  end.

Fixpoint spec_run {K V} (equal_fn : K → K → bool) (l : list (K * V)) (ops : list (hm_op K V))
    : list (K * V) * list (Z * option (K * V) * option V) :=
  match ops with
  | [] => (l, [])
  | op :: ops =>
      let '(l, r) := spec_step equal_fn false l op in
      let '(l, rs) := spec_run equal_fn l ops in (l, r :: rs)
  end.

(** What the map needs of its callbacks, on the keys that satisfy [P]: equality is
    an equivalence that the hash respects. *)
Class HashKey {K} (hash_fn : K → Z) (equal_fn : K → K → bool) := {
  hk_refl : ∀ k, equal_fn k k = true;
  hk_sym : ∀ k1 k2, equal_fn k1 k2 = true → equal_fn k2 k1 = true;
  hk_trans : ∀ k1 k2 k3, equal_fn k1 k2 = true → equal_fn k2 k3 = true → equal_fn k1 k3 = true;
  hk_hash : ∀ k1 k2, equal_fn k1 k2 = true → hash_fn k1 = hash_fn k2;
}.

(** * Lemmas *)

Lemma hash_bits_range h bits : 0 ≤ bits < 64 → 0 ≤ hash_bits h bits < 2 ^ bits.
Proof.
  intros Hb. unfold hash_bits. destruct (Z.eqb_spec bits 0) as [->|]; [by split|].
  pose proof (wrap_range 64 (h * 11400714819323198485) ltac:(lia)) as [H1 H2].
  rewrite Z.shiftr_div_pow2 by lia. split.
  - apply Z.div_pos; [done|apply pow2_pos; lia].
  - apply Z.div_lt_upper_bound; [apply pow2_pos; lia|].
    rewrite <- Z.pow_add_r by lia. by replace (64 - bits + bits) with 64 by lia.
Qed.

Lemma concat_lookup {A} (bs : list (list A)) h c :
  bs !! h = Some c →
  ∃ rest, concat bs ≡ₚ c ++ rest ∧ ∀ c', concat (<[h := c']> bs) ≡ₚ c' ++ rest.
Proof.
  revert h. induction bs as [|b bs IH]; intros h Hh; [done|]. destruct h as [|h]; cbn in Hh.
  - simplify_eq. exists (concat bs). split; [done|]. intros c'. done.
  - destruct (IH _ Hh) as (rest & H1 & H2). exists (b ++ rest). split.
    + cbn. rewrite H1. rewrite !(assoc_L (++)). by rewrite (Permutation_app_comm b c).
    + intros c'. cbn. rewrite H2. rewrite !(assoc_L (++)). by rewrite (Permutation_app_comm b c').
Qed.

Lemma concat_elem {A} (bs : list (list A)) x : x ∈ concat bs ↔ ∃ h c, bs !! h = Some c ∧ x ∈ c.
Proof.
  rewrite list_elem_of_In, in_concat. split.
  - intros (c & Hc%list_elem_of_In & Hx%list_elem_of_In). apply list_elem_of_lookup in Hc as [h Hh]. eauto.
  - intros (h & c & Hh & Hx). exists c. rewrite <- !list_elem_of_In. split; [|done].
    by apply list_elem_of_lookup_2 in Hh.
Qed.

Section lemmas.
Context {K V : Type} (hash_fn : K → Z) (equal_fn : K → K → bool) {HK : HashKey hash_fn equal_fn}.
Implicit Types (m : hashmap K V) (l : list (K * V)).

Lemma spec_find_Some l k i e :
  spec_find equal_fn l k = Some (i, e) → l !! i = Some e ∧ equal_fn e.1 k = true.
Proof. intros H. apply list_find_Some in H as (H1 & H2 & _). by split. Qed.

Lemma spec_find_None l k : spec_find equal_fn l k = None ↔ ∀ e, e ∈ l → equal_fn e.1 k = false.
Proof.
  unfold spec_find. rewrite list_find_None, Forall_forall.
  split; intros H e He; specialize (H e He); destruct (equal_fn e.1 k); congruence.
Qed.

Lemma home_bucket m bs k :
  hm_ok hash_fn m → hm_buckets m = Some bs →
  is_Some (bs !! Z.to_nat (hash_bits (hash_fn k) (hm_cap_bits m))).
Proof.
  intros [Hs _ _ _] Hb. rewrite Hb in Hs. destruct Hs as (Hbits & Hcap & Hlen).
  apply lookup_lt_is_Some. pose proof (hash_bits_range (hash_fn k) (hm_cap_bits m) ltac:(lia)). lia.
Qed.

(** Every entry whose key equals [k] is in the bucket of [k]. *)
Lemma home_entry m bs k e :
  hm_ok hash_fn m → hm_buckets m = Some bs → e ∈ concat bs → equal_fn e.1 k = true →
  ∃ c, bs !! Z.to_nat (hash_bits (hash_fn k) (hm_cap_bits m)) = Some c ∧ e ∈ c.
Proof.
  intros Hok Hb (h & c & Hh & Hc)%concat_elem Heq.
  pose proof (ok_home _ _ Hok bs h c e Hb Hh Hc) as Hhome. rewrite (hk_hash _ _ Heq) in Hhome.
  exists c. split; [|done]. by rewrite <- Hhome, Nat2Z.id.
Qed.

(** [hashmap_find_entry] finds an equal entry exactly when the table holds one. *)
Lemma find_entry_spec m k :
  hm_ok hash_fn m →
  ∃ r, hashmap_find_entry equal_fn m k (hash_bits (hash_fn k) (hm_cap_bits m)) = Some r ∧
    match r with
    | Some (i, e) => equal_fn e.1 k = true ∧ ∃ bs c, hm_buckets m = Some bs ∧
        bs !! Z.to_nat (hash_bits (hash_fn k) (hm_cap_bits m)) = Some c ∧ c !! i = Some e
    | None => ∀ e, e ∈ hashmap_entries m → equal_fn e.1 k = false
    end.
Proof.
  intros Hok. unfold hashmap_find_entry, hashmap_entries.
  destruct (hm_buckets m) as [bs|] eqn:Hb.
  - destruct (home_bucket m bs k Hok Hb) as [c Hc]. rewrite Hc. cbn [mbind option_bind].
    destruct (list_find _ c) as [[i e]|] eqn:Hf; eexists; (split; [reflexivity|]).
    + apply spec_find_Some in Hf as [Hi He]. eauto 10.
    + intros e He. destruct (equal_fn e.1 k) eqn:E; [|done].
      destruct (home_entry m bs k e Hok Hb He E) as (c' & Hc' & Hec).
      rewrite Hc in Hc'. simplify_eq.
      rewrite (proj1 (spec_find_None c' k) Hf e Hec) in E. done.
  - eexists. split; [reflexivity|]. set_solver.
Qed.

(** Replacing the chain of one bucket by entries that belong there. *)
Lemma set_chain_ok m bs h c c' sz :
  hm_ok hash_fn m → hm_buckets m = Some bs → bs !! h = Some c →
  (∀ e, e ∈ c' → Z.of_nat h = hash_bits (hash_fn e.1) (hm_cap_bits m)) →
  sz = hm_sz m + Z.of_nat (length c') - Z.of_nat (length c) → sz * 4 / 3 ≤ hm_cap m →
  hm_ok hash_fn (mkHashmap (Some (<[h := c']> bs)) (hm_cap m) (hm_cap_bits m) sz).
Proof.
  intros Hok Hb Hc Hhome Hsz Hload. pose proof (ok_shape _ _ Hok) as Hs. rewrite Hb in Hs.
  split; cbn.
  - by rewrite length_insert.
  - intros bs' h' c'' e [= <-] Hh' He.
    destruct (decide (h' = h)) as [->|Hne].
    + rewrite list_lookup_insert_eq in Hh' by (by eapply lookup_lt_Some). simplify_eq. by apply Hhome.
    + rewrite list_lookup_insert_ne in Hh' by done. by eapply (ok_home _ _ Hok bs).
  - pose proof (ok_sz _ _ Hok) as Hl. unfold hashmap_entries in Hl |- *. rewrite Hb in Hl. cbn.
    destruct (concat_lookup bs h c Hc) as (rest & H1 & H2).
    apply Permutation_length in H1. specialize (H2 c'). apply Permutation_length in H2.
    rewrite length_app in H1, H2. rewrite H2. lia.
  - done.
Qed.

Definition home_ok (bits : Z) (bs : list (list (K * V))) : Prop :=
  ∀ h c e, bs !! h = Some c → e ∈ c → Z.of_nat h = hash_bits (hash_fn e.1) bits.

Lemma add_entry_spec bits bs e :
  0 ≤ bits < 64 → Z.of_nat (length bs) = 2 ^ bits → home_ok bits bs →
  ∃ bs', hashmap_add_entry bs (hash_bits (hash_fn e.1) bits) e = Some bs' ∧
    Z.of_nat (length bs') = 2 ^ bits ∧ home_ok bits bs' ∧ concat bs' ≡ₚ e :: concat bs.
Proof.
  intros Hb Hlen Hhome. pose proof (hash_bits_range (hash_fn e.1) bits Hb) as Hr.
  unfold hashmap_add_entry. set (h := Z.to_nat (hash_bits (hash_fn e.1) bits)).
  destruct (lookup_lt_is_Some_2 bs h ltac:(lia)) as [c Hc]. rewrite Hc. cbn [mbind option_bind].
  eexists. split; [reflexivity|]. split_and!.
  - by rewrite length_insert.
  - intros h' c' e' Hh' He'. destruct (decide (h' = h)) as [->|Hne].
    + rewrite list_lookup_insert_eq in Hh' by (by eapply lookup_lt_Some). simplify_eq.
      apply elem_of_cons in He' as [->|He']; [unfold h; lia|by eapply Hhome].
    + rewrite list_lookup_insert_ne in Hh' by done. by eapply Hhome.
  - destruct (concat_lookup bs h c Hc) as (rest & H1 & H2). by rewrite H2, H1.
Qed.

Lemma rehash_spec bits es bs :
  0 ≤ bits < 64 → Z.of_nat (length bs) = 2 ^ bits → home_ok bits bs →
  ∃ bs', foldM (λ bs e, hashmap_add_entry bs (hash_bits (hash_fn e.1) bits) e) bs es = Some bs' ∧
    Z.of_nat (length bs') = 2 ^ bits ∧ home_ok bits bs' ∧ concat bs' ≡ₚ es ++ concat bs.
Proof.
  intros Hb. revert bs. induction es as [|e es IH]; intros bs Hlen Hhome.
  - exists bs. by split_and!.
  - destruct (add_entry_spec bits bs e Hb Hlen Hhome) as (bs1 & He & Hlen1 & Hhome1 & Hp1).
    destruct (IH bs1 Hlen1 Hhome1) as (bs2 & Hf & Hlen2 & Hhome2 & Hp2).
    exists bs2. cbn [foldM]. rewrite He. cbn [mbind option_bind]. split_and!; [done..|].
    rewrite Hp2, Hp1. by rewrite <- Permutation_middle.
Qed.

Lemma concat_replicate_nil {A} n : concat (replicate n (@nil A)) = [].
Proof. by induction n. Qed.

(** Growing fails without a change, or keeps the entries in a table with room. *)
Lemma grow_spec m a :
  hm_ok hash_fn m → hm_cap_bits m < 63 →
  if a : bool then
    ∃ m', hashmap_grow hash_fn a m = Some (m', 0) ∧ hm_ok hash_fn m' ∧
      hashmap_entries m' ≡ₚ hashmap_entries m ∧ hm_sz m' = hm_sz m ∧
      (hm_sz m + 1) * 4 / 3 ≤ hm_cap m' ∧ hm_cap_bits m' ≤ Z.max 2 (hm_cap_bits m + 1) ∧
      is_Some (hm_buckets m')
  else hashmap_grow hash_fn a m = Some (m, - ENOMEM).
Proof.
  intros Hok Hbits. unfold hashmap_grow.
  set (bits := if hm_cap_bits m + 1 <? HASHMAP_MIN_CAP_BITS then HASHMAP_MIN_CAP_BITS else hm_cap_bits m + 1).
  pose proof (ok_shape _ _ Hok) as Hs. pose proof (ok_load _ _ Hok) as Hload. pose proof (ok_sz _ _ Hok) as Hsz.
  assert (2 ≤ bits < 64 ∧ bits ≤ Z.max 2 (hm_cap_bits m + 1) ∧ (hm_sz m + 1) * 4 / 3 ≤ 2 ^ bits) as (Hb & Hb2 & Hcap).
  { unfold bits, HASHMAP_MIN_CAP_BITS. destruct (hm_buckets m).
    - destruct Hs as (H1 & H2 & _). destruct (Z.ltb_spec (hm_cap_bits m + 1) 2); [lia|].
      split; [lia|]. split; [lia|]. rewrite Z.pow_add_r by lia.
      assert (2 ^ 2 ≤ 2 ^ hm_cap_bits m) by (apply Z.pow_le_mono_r; lia). rewrite H2 in Hload.
      change (2 ^ 1) with 2. apply Z.div_le_upper_bound; [lia|].
      pose proof (Z.mod_pos_bound (hm_sz m * 4) 3 ltac:(lia)).
      pose proof (Z.div_mod (hm_sz m * 4) 3 ltac:(lia)). lia.
    - destruct Hs as (H1 & H2 & H3). rewrite H2, H3. split_and!; vm_compute; congruence. }
  rewrite shl1_Some by lia. cbn [mbind option_bind]. destruct a; cbn [negb]; [|done].
  unfold hashmap_rehash.
  destruct (rehash_spec bits (hashmap_entries m) (replicate (Z.to_nat (2 ^ bits)) []))
    as (bs' & -> & Hlen & Hhome & Hp); [lia| | |].
  - rewrite length_replicate, Z2Nat.id; [done|]. apply Z.pow_nonneg. lia.
  - intros h c e Hh He. apply lookup_replicate in Hh as [-> _]. set_solver.
  - cbn [mbind option_bind]. eexists. split; [reflexivity|].
    rewrite concat_replicate_nil, app_nil_r in Hp.
    split_and!; cbn; [|done|done|done|done|eauto]. split; cbn.
    + split_and!; [lia..|done|done].
    + intros bs h c e [= <-]. apply Hhome.
    + by rewrite (Permutation_length Hp).
    + etrans; [|exact Hcap]. apply Z.div_le_mono; lia.
Qed.

(** ** Unique keys *)

Lemma lookup_perm l i e :
  l !! i = Some e → ∃ rest, l ≡ₚ e :: rest ∧ (∀ x, <[i := x]> l ≡ₚ x :: rest) ∧ delete i l ≡ₚ rest.
Proof.
  intros Hi. exists (delete i l). split_and!; [by apply delete_Permutation| |done].
  intros x. rewrite insert_take_drop by (by eapply lookup_lt_Some).
  by rewrite delete_take_drop, Permutation_middle.
Qed.

Lemma unique_find l k e1 e2 :
  hm_unique equal_fn l → e1 ∈ l → e2 ∈ l → equal_fn e1.1 k = true → equal_fn e2.1 k = true → e1 = e2.
Proof.
  intros Hu [r Hr]%elem_of_Permutation He2 H1 H2. rewrite Hr in He2.
  apply elem_of_cons in He2 as [->|[r' Hr']%elem_of_Permutation]; [done|].
  rewrite Hr' in Hr. apply Hu in Hr. rewrite (hk_trans e1.1 k e2.1) in Hr; [done..|].
  by apply hk_sym.
Qed.

Lemma unique_cons k v l :
  (∀ e, e ∈ l → equal_fn e.1 k = false) → hm_unique equal_fn l → hm_unique equal_fn ((k, v) :: l).
Proof.
  intros Hk Hu a b rest Hp. destruct (equal_fn a.1 b.1) eqn:E; [|done].
  assert ((k, v) ∈ a :: b :: rest) as Hin0 by (rewrite <- Hp; apply elem_of_cons; by left).
  apply elem_of_cons in Hin0 as [<-|[<-|Hin]%elem_of_cons].
  - apply Permutation_cons_inv in Hp. apply hk_sym in E.
    rewrite Hk in E; [done|]. rewrite Hp. set_solver.
  - rewrite (Permutation_swap (k, v) a) in Hp. apply Permutation_cons_inv in Hp.
    rewrite Hk in E; [done|]. rewrite Hp. set_solver.
  - apply elem_of_Permutation in Hin as [r Hr]. rewrite Hr in Hp.
    assert (l ≡ₚ a :: b :: r) as Hl.
    { apply (Permutation_cons_inv (a := (k, v))). rewrite Hp. solve_Permutation. }
    apply Hu in Hl. congruence.
Qed.

Lemma unique_sub l e rest : l ≡ₚ e :: rest → hm_unique equal_fn l → hm_unique equal_fn rest.
Proof.
  intros Hl Hu a b r Hr. apply (Hu a b (e :: r)). rewrite Hl, Hr. solve_Permutation.
Qed.

Lemma unique_other l e rest :
  l ≡ₚ e :: rest → hm_unique equal_fn l → ∀ e', e' ∈ rest → equal_fn e'.1 e.1 = false.
Proof.
  intros Hl Hu e' [r Hr]%elem_of_Permutation. apply (Hu e' e r). rewrite Hl, Hr. apply Permutation_swap.
Qed.

(** The table's search and the specification's agree. *)
Lemma find_entry_rel m l k :
  hm_rel hash_fn equal_fn m l →
  ∃ r, hashmap_find_entry equal_fn m k (hash_bits (hash_fn k) (hm_cap_bits m)) = Some r ∧
    match spec_find equal_fn l k with
    | Some (j, e) => ∃ i bs c, r = Some (i, e) ∧ equal_fn e.1 k = true ∧ l !! j = Some e ∧
        hm_buckets m = Some bs ∧ bs !! Z.to_nat (hash_bits (hash_fn k) (hm_cap_bits m)) = Some c ∧ c !! i = Some e
    | None => r = None ∧ ∀ e, e ∈ l → equal_fn e.1 k = false
    end.
Proof.
  intros (Hok & Hp & Hu). destruct (find_entry_spec m k Hok) as (r & Hr & Hs). exists r. split; [done|].
  destruct r as [[i e]|].
  - destruct Hs as (He & bs & c & Hb & Hc & Hi).
    assert (e ∈ l) as Hel.
    { rewrite <- Hp. unfold hashmap_entries. rewrite Hb. apply concat_elem. eexists _, c. split; [done|].
      by apply list_elem_of_lookup_2 in Hi. }
    destruct (spec_find equal_fn l k) as [[j e']|] eqn:Hf.
    + apply spec_find_Some in Hf as [Hj He']. assert (e' = e) as ->.
      { apply (unique_find l k); try done. by apply list_elem_of_lookup_2 in Hj. }
      by exists i, bs, c.
    + by rewrite (proj1 (spec_find_None l k) Hf e Hel) in He.
  - assert (∀ e, e ∈ l → equal_fn e.1 k = false) as Hn by (intros e He; apply Hs; by rewrite Hp).
    by rewrite (proj2 (spec_find_None l k) Hn).
Qed.

(** ** The operations on the table *)

Lemma alter_insert {A} (f : A → A) (xs : list A) i x : xs !! i = Some x → alter f i xs = <[i := f x]> xs.
Proof.
  revert i. induction xs as [|y xs IH]; intros [|i] Hi; cbn in *; simplify_eq; [done..|].
  change (alter f (S i) (y :: xs)) with (y :: alter f i xs). by rewrite IH.
Qed.

Lemma set_entry_ok m h c bs i e k v :
  hm_ok hash_fn m → hm_buckets m = Some bs → equal_fn e.1 k = true → bs !! h = Some c → c !! i = Some e →
  hm_ok hash_fn (mkHashmap (Some (<[h := <[i := (k, v)]> c]> bs)) (hm_cap m) (hm_cap_bits m) (hm_sz m)).
Proof.
  intros Hok Hb He Hc Hi. eapply set_chain_ok; try done.
  - intros e' [i' Hi']%list_elem_of_lookup. apply list_lookup_insert_Some in Hi' as [(-> & <- & _)|(_ & Hi')].
    + rewrite (ok_home _ _ Hok bs h c e Hb Hc) by (by eapply list_elem_of_lookup_2).
      by rewrite (hk_hash _ _ He).
    + eapply (ok_home _ _ Hok bs); try done. by eapply list_elem_of_lookup_2.
  - rewrite length_insert. lia.
  - apply (ok_load _ _ Hok).
Qed.

Lemma del_entry_ok m h c bs i e :
  hm_ok hash_fn m → hm_buckets m = Some bs → hm_sz m < 2 ^ 64 → bs !! h = Some c → c !! i = Some e →
  hm_ok hash_fn (mkHashmap (Some (<[h := delete i c]> bs)) (hm_cap m) (hm_cap_bits m) (u64 (hm_sz m - 1))) ∧ 0 < hm_sz m.
Proof.
  intros Hok Hb Hmax Hc Hi. destruct (lookup_perm c i e Hi) as (rc & Hc1 & _ & Hc2).
  destruct (concat_lookup bs h c Hc) as (rest & H1 & _).
  pose proof (ok_sz _ _ Hok) as Hsz. unfold hashmap_entries in Hsz. rewrite Hb in Hsz.
  assert (0 < hm_sz m) as Hpos.
  { rewrite Hsz, (Permutation_length H1), length_app, (Permutation_length Hc1). cbn. lia. }
  assert (u64 (hm_sz m - 1) = hm_sz m - 1) as -> by (apply wrap_small; unfold in_u; lia). split; [|done].
  eapply set_chain_ok; try done.
  - intros e' He'. eapply (ok_home _ _ Hok bs); try done. rewrite Hc1.
    apply elem_of_cons. right. by rewrite <- Hc2.
  - rewrite (Permutation_length Hc1), (Permutation_length Hc2). cbn. lia.
  - pose proof (ok_load _ _ Hok). etrans; [|done]. apply Z.div_le_mono; lia.
Qed.

Lemma set_entry_rel m l h c bs i j e k v :
  hm_rel hash_fn equal_fn m l → hm_buckets m = Some bs → equal_fn e.1 k = true →
  bs !! h = Some c → c !! i = Some e → l !! j = Some e →
  hm_rel hash_fn equal_fn (hashmap_set_entry m (Z.of_nat h) i (k, v)) (<[j := (k, v)]> l).
Proof.
  intros (Hok & Hp & Hu) Hb He Hc Hi Hj. unfold hashmap_set_entry. rewrite Hb, Nat2Z.id. cbn [fmap option_fmap option_map].
  rewrite (alter_insert _ bs h c Hc), (alter_insert _ c i e Hi).
  destruct (lookup_perm l j e Hj) as (r & Hlr & Hset & _). pose proof (set_entry_ok m h c bs i e k v Hok Hb He Hc Hi) as Hok'.
  split; [done|]. split.
  - unfold hashmap_entries in *. rewrite Hb in Hp. cbn.
    destruct (concat_lookup bs h c Hc) as (rest & H1 & H2).
    destruct (lookup_perm c i e Hi) as (rc & Hc1 & Hc2 & _).
    rewrite H2, Hc2, Hset. rewrite H1, Hc1, Hlr in Hp. cbn in Hp |- *.
    apply Permutation_cons_inv in Hp. by rewrite Hp.
  - intros a b rest Hrest. rewrite Hset in Hrest. revert a b rest Hrest. apply unique_cons.
    + intros e' He'. pose proof (unique_other l e r Hlr Hu e' He') as Hne.
      destruct (equal_fn e'.1 k) eqn:E; [|done]. apply hk_sym in He.
      by rewrite (hk_trans e'.1 k e.1) in Hne.
    + by apply (unique_sub l e).
Qed.

Lemma del_entry_rel m l h c bs i j e :
  hm_rel hash_fn equal_fn m l → hm_buckets m = Some bs → hm_sz m < 2 ^ 64 →
  bs !! h = Some c → c !! i = Some e → l !! j = Some e →
  hm_rel hash_fn equal_fn (hashmap_del_entry m (Z.of_nat h) i) (delete j l).
Proof.
  intros (Hok & Hp & Hu) Hb Hmax Hc Hi Hj. unfold hashmap_del_entry. rewrite Hb, Nat2Z.id. cbn [fmap option_fmap option_map].
  rewrite (alter_insert _ bs h c Hc).
  destruct (lookup_perm l j e Hj) as (r & Hlr & _ & Hdel).
  destruct (lookup_perm c i e Hi) as (rc & Hc1 & _ & Hc2).
  destruct (concat_lookup bs h c Hc) as (rest & H1 & H2).
  unfold hashmap_entries in Hp. rewrite Hb in Hp. destruct (del_entry_ok m h c bs i e Hok Hb Hmax Hc Hi) as [Hok' _].
  split; [done|split].
  - unfold hashmap_entries. cbn. rewrite H2, Hc2, Hdel. rewrite H1, Hc1, Hlr in Hp.
    by apply Permutation_cons_inv in Hp.
  - intros a b r' Hr'. rewrite Hdel in Hr'. by apply (unique_sub l e r Hlr Hu a b r').
Qed.

Lemma needs_to_grow_spec m :
  hm_ok hash_fn m → hm_cap_bits m < 63 →
  hashmap_needs_to_grow m = (hm_cap m =? 0) || ((hm_sz m + 1) * 4 / 3 >? hm_cap m).
Proof.
  intros Hok Hb. unfold hashmap_needs_to_grow.
  pose proof (ok_shape _ _ Hok) as Hs. pose proof (ok_load _ _ Hok) as Hload. pose proof (ok_sz _ _ Hok) as Hsz.
  assert (hm_cap m ≤ 2 ^ 62).
  { destruct (hm_buckets m); [destruct Hs as (? & -> & _); apply Z.pow_le_mono_r; lia|].
    destruct Hs as (-> & _). done. }
  assert (hm_sz m * 4 ≤ 3 * 2 ^ 62 + 2).
  { pose proof (Z.div_mod (hm_sz m * 4) 3 ltac:(lia)). pose proof (Z.mod_pos_bound (hm_sz m * 4) 3 ltac:(lia)). lia. }
  rewrite (wrap_small 64 (hm_sz m + 1)) by (unfold in_u; lia).
  rewrite (wrap_small 64 ((hm_sz m + 1) * 4)) by (unfold in_u; lia). done.
Qed.

(** Adding an entry to a table with room for it. *)
Lemma add_new_rel m l bs k v :
  hm_rel hash_fn equal_fn m l → hm_buckets m = Some bs → (∀ e, e ∈ l → equal_fn e.1 k = false) →
  (hm_sz m + 1) * 4 / 3 ≤ hm_cap m → hm_sz m + 1 < 2 ^ 64 →
  ∃ bs', hashmap_add_entry bs (hash_bits (hash_fn k) (hm_cap_bits m)) (k, v) = Some bs' ∧
    hm_rel hash_fn equal_fn (mkHashmap (Some bs') (hm_cap m) (hm_cap_bits m) (u64 (hm_sz m + 1))) ((k, v) :: l).
Proof.
  intros (Hok & Hp & Hu) Hb Hn Hload Hmax. pose proof (ok_shape _ _ Hok) as Hs. rewrite Hb in Hs.
  pose proof (ok_sz _ _ Hok) as Hsz. unfold hashmap_entries in Hsz, Hp. rewrite Hb in Hsz, Hp.
  destruct Hs as (Hbits & Hcap & Hlen).
  destruct (add_entry_spec (hm_cap_bits m) bs (k, v)) as (bs' & Ha & Hlen' & Hhome & Hp');
    [lia|lia|intros h c e; by apply (ok_home _ _ Hok)|].
  cbn in Ha. exists bs'. split; [done|].
  rewrite wrap_small by (unfold in_u; lia).
  split; [split; cbn|split].
  - split; [done|]. split; [done|lia].
  - intros bs0 h c e [= <-]. apply Hhome.
  - rewrite (Permutation_length Hp'). cbn. lia.
  - done.
  - cbn. by rewrite Hp', Hp.
  - by apply unique_cons.
Qed.

(** The table after a growth is at most eight thirds of the entries. *)
Lemma grow_cap m m' :
  hm_ok hash_fn m → hm_cap_bits m < 63 → hashmap_needs_to_grow m = true → hm_ok hash_fn m' →
  is_Some (hm_buckets m') → hm_cap_bits m' ≤ Z.max 2 (hm_cap_bits m + 1) → hm_cap m' ≤ 4 + 3 * (hm_sz m + 1).
Proof.
  intros Hok Hb Hg Hok' [bs' Hb'] Hle. rewrite needs_to_grow_spec in Hg by done.
  pose proof (ok_shape _ _ Hok') as Hs'. rewrite Hb' in Hs'. destruct Hs' as (Hbits' & -> & _).
  pose proof (ok_shape _ _ Hok) as Hs. pose proof (ok_sz _ _ Hok).
  assert (2 ^ hm_cap_bits m' ≤ 2 ^ Z.max 2 (hm_cap_bits m + 1)) as Hpow by (apply Z.pow_le_mono_r; lia).
  destruct (hm_buckets m).
  - destruct Hs as (Hbits & Hcap & _). rewrite Z.max_r, Z.pow_add_r in Hpow by lia.
    rewrite <- Hcap in Hpow.
    assert (0 < hm_cap m) by (rewrite Hcap; apply pow2_pos; lia).
    destruct (Z.eqb_spec (hm_cap m) 0); [lia|]. cbn in Hg.
    apply Z.gtb_lt in Hg. pose proof (Z.div_mod ((hm_sz m + 1) * 4) 3 ltac:(lia)).
    pose proof (Z.mod_pos_bound ((hm_sz m + 1) * 4) 3 ltac:(lia)). lia.
  - destruct Hs as (_ & E & _). rewrite E in Hpow. change (2 ^ Z.max 2 (0 + 1)) with 4 in Hpow. lia.
Qed.

(** The tail of [hashmap__insert]: growing if needed, then the new entry. *)
Lemma insert_new m l a1 a2 k v s :
  hm_rel hash_fn equal_fn m l → hm_cap_bits m < 63 → (∀ e, e ∈ l → equal_fn e.1 k = false) →
  s ≠ HASHMAP_UPDATE → s ≠ HASHMAP_APPEND →
  let oom := (hashmap_needs_to_grow m && negb a1) || negb a2 in
  ∃ m', hashmap__insert hash_fn equal_fn a1 a2 m k v s = Some (m', if oom then - ENOMEM else 0, None) ∧
    hm_rel hash_fn equal_fn m' (if oom then l else (k, v) :: l) ∧
    hm_cap m' ≤ Z.max (hm_cap m) (4 + 3 * (hm_sz m + 1)) ∧ hm_sz m' ≤ hm_sz m + 1.
Proof.
  intros Hrel Hbits Hn Hs1 Hs2 oom. destruct (find_entry_rel m l k Hrel) as (r & Hr & Hf).
  rewrite (proj2 (spec_find_None l k) Hn) in Hf. destruct Hf as [-> _].
  unfold hashmap__insert. rewrite decide_False by done. rewrite Hr. cbn [mbind option_bind fmap option_fmap option_map].
  assert (∃ m1 err, (if hashmap_needs_to_grow m then hashmap_grow hash_fn a1 m else Some (m, 0)) = Some (m1, err) ∧
    hm_rel hash_fn equal_fn m1 l ∧ hm_sz m1 = hm_sz m ∧ hm_cap m1 ≤ Z.max (hm_cap m) (4 + 3 * (hm_sz m + 1)) ∧
    err = (if hashmap_needs_to_grow m && negb a1 then - ENOMEM else 0) ∧
    (err = 0 → is_Some (hm_buckets m1) ∧ (hm_sz m + 1) * 4 / 3 ≤ hm_cap m1)) as (m1 & err & -> & Hrel1 & Hsz1 & Hcap1 & Herr & Hroom).
  { destruct Hrel as (Hok & Hp & Hu). destruct (hashmap_needs_to_grow m) eqn:Hg.
    - pose proof (grow_spec m a1 Hok Hbits) as HG. destruct a1; cbn [negb andb].
      + destruct HG as (m1 & -> & Hok1 & Hp1 & Hsz1 & Hload1 & Hcb & Hbs). exists m1, 0.
        split_and!; [done|split; [done|split; [by rewrite Hp1|done]]|done| |done|done].
        rewrite Z.max_le_iff. right. by eapply (grow_cap m m1).
      + rewrite HG. eexists m, _. split_and!; [done|done|done|lia|done|done].
    - exists m, 0. split_and!; [done|done|done|lia|done|]. intros _.
      rewrite needs_to_grow_spec in Hg by done. apply orb_false_iff in Hg as [Hg1 Hg2].
      apply Z.eqb_neq in Hg1. rewrite Z.gtb_ltb in Hg2. apply Z.ltb_ge in Hg2.
      pose proof (ok_shape _ _ Hok) as Hsh. destruct (hm_buckets m); [by eauto|lia]. }
  cbn [mbind option_bind]. unfold oom.
  assert (∀ X : option (hashmap K V * Z * option (K * V)), match s with HASHMAP_UPDATE => Some (m, - ENOENT, None) | _ => X end = X)
    as HX by (destruct s; done).
  rewrite Herr. destruct (hashmap_needs_to_grow m && negb a1) eqn:Hga; cbn [orb].
  - exists m1. split_and!; [destruct s; done|done|done|lia].
  - destruct Hroom as ([bs Hbs] & Hroom); [by rewrite Herr|]. destruct a2; cbn [negb orb].
    + destruct (add_new_rel m1 l bs k v Hrel1 Hbs Hn) as (bs' & Ha & Hrel'); [by rewrite Hsz1|..].
      { pose proof (ok_shape _ _ (proj1 Hrel1)) as Hsh. rewrite Hbs in Hsh. destruct Hsh as (Hb1 & Hc1 & _).
        pose proof (Z.pow_lt_mono_r 2 (hm_cap_bits m1) 64 ltac:(lia) ltac:(lia) ltac:(lia)).
        rewrite Hsz1. pose proof (Z.div_mod ((hm_sz m + 1) * 4) 3 ltac:(lia)).
        pose proof (Z.mod_pos_bound ((hm_sz m + 1) * 4) 3 ltac:(lia)).
        pose proof (ok_sz _ _ (proj1 Hrel)). lia. }
      eexists. split_and!.
      * rewrite Hbs. cbn [mbind option_bind]. rewrite Ha. cbn [mbind option_bind]. by destruct s.
      * exact Hrel'.
      * done.
      * cbn. rewrite Hsz1. apply Z.mod_le; [|lia]. pose proof (ok_sz _ _ (proj1 Hrel)). lia.
    + exists m1. split_and!; [destruct s; done|done|done|lia].
Qed.

(** ** Iteration over the entries of a key *)

Lemma filter_concat_one (P : K * V → bool) bs h c :
  bs !! h = Some c → (∀ h' c' e, bs !! h' = Some c' → e ∈ c' → P e = true → h' = h) →
  filter (λ e, P e = true) (concat bs) = filter (λ e, P e = true) c.
Proof.
  revert h. induction bs as [|b bs IH]; intros h Hh Hone; [done|]. cbn. rewrite filter_app.
  destruct h as [|h]; cbn in Hh.
  - simplify_eq. rewrite (filter_none _ (concat bs)); [by rewrite app_nil_r|].
    apply Forall_forall. intros e (h' & c' & Hh' & He)%concat_elem HP. by apply (Hone (S h') c' e) in HP.
  - rewrite (filter_none _ b).
    + apply (IH h); [done|]. intros h' c' e Hh' He HP. by apply (Hone (S h') c' e Hh' He) in HP as [= ->].
    + apply Forall_forall. intros e He HP. by apply (Hone 0%nat b e) in HP.
Qed.

Lemma list_find_head_filter (P : K * V → bool) c :
  (λ p, p.2) <$> list_find (λ e, P e = true) c = head (filter (λ e, P e = true) c).
Proof.
  induction c as [|e c IH]; [done|]. rewrite filter_cons. cbn [list_find].
  destruct (decide (P e = true)); [done|]. rewrite <- IH. by destruct (list_find _ c) as [[? ?]|].
Qed.

Lemma key_entries_all m k :
  hm_ok hash_fn m →
  hashmap_key_entries hash_fn equal_fn m k = Some (filter (λ e, equal_fn e.1 k = true) (hashmap_entries m)) ∧
  hashmap__find hash_fn equal_fn m k =
    Some (snd <$> head (filter (λ e, equal_fn e.1 k = true) (hashmap_entries m))).
Proof.
  intros Hok. unfold hashmap_key_entries, hashmap__find, hashmap_find_entry, hashmap_entries.
  destruct (hm_buckets m) as [bs|] eqn:Hb; [|done].
  destruct (home_bucket m bs k Hok Hb) as [c Hc]. rewrite Hc. cbn [mbind option_bind].
  rewrite (filter_concat_one (λ e, equal_fn e.1 k) bs _ c Hc).
  - split; [done|]. f_equal. rewrite <- list_find_head_filter. by destruct (list_find _ c) as [[? ?]|].
  - intros h' c' e Hh' He HP. pose proof (ok_home _ _ Hok bs h' c' e Hb Hh' He) as Hhome.
    rewrite (hk_hash _ _ HP) in Hhome. lia.
Qed.

Lemma rehash_chain bits (es : list (K * V)) bs bs' h c :
  foldM (λ bs e, hashmap_add_entry bs (hash_bits (hash_fn e.1) bits) e) bs es = Some bs' →
  bs !! h = Some c →
  bs' !! h = Some (reverse (filter (λ e : K * V, Z.to_nat (hash_bits (hash_fn e.1) bits) = h) es) ++ c).
Proof.
  revert bs c. induction es as [|e es IH]; intros bs c Hf Hc; cbn [foldM] in Hf; [by simplify_eq|].
  destruct (hashmap_add_entry bs (hash_bits (hash_fn e.1) bits) e) as [bs1|] eqn:Ha; [|done].
  cbn [mbind option_bind] in Hf. unfold hashmap_add_entry in Ha. rewrite filter_cons.
  destruct (bs !! Z.to_nat (hash_bits (hash_fn e.1) bits)) as [c1|] eqn:Hc1; [|done].
  cbn [mbind option_bind] in Ha. injection Ha as <-.
  destruct (decide (Z.to_nat (hash_bits (hash_fn e.1) bits) = h)) as [E|E].
  - rewrite E in Hf, Hc1. simplify_eq. rewrite (IH _ (e :: c) Hf).
    + by rewrite reverse_cons, <- app_assoc.
    + apply list_lookup_insert_eq. by eapply lookup_lt_Some.
  - apply (IH _ c Hf). by rewrite list_lookup_insert_ne.
Qed.

Lemma grow_key_entries m m' k :
  hm_ok hash_fn m → hm_cap_bits m < 63 → hashmap_grow hash_fn true m = Some (m', 0) →
  hashmap_key_entries hash_fn equal_fn m' k =
    Some (reverse (filter (λ e, equal_fn e.1 k = true) (hashmap_entries m))) ∧ hm_ok hash_fn m'.
Proof.
  intros Hok Hb Hg. pose proof (grow_spec m true Hok Hb) as (m1 & Hg1 & Hok1 & _).
  rewrite Hg in Hg1. simplify_eq. split; [|done].
  destruct (hm_buckets m1) as [bs|] eqn:Hbs.
  2: { unfold hashmap_grow in Hg. destruct (shl1 _); [|done]. cbn [mbind option_bind negb] in Hg.
       destruct (hashmap_rehash _ _ _); [|done]. cbn in Hg. by simplify_eq. }
  destruct (home_bucket m1 bs k Hok1 Hbs) as [c Hc].
  unfold hashmap_key_entries. rewrite Hbs, Hc. cbn [mbind option_bind]. f_equal.
  unfold hashmap_grow in Hg. destruct (shl1 _) as [cap|]; [|done]. cbn [mbind option_bind negb] in Hg.
  set (bits := if hm_cap_bits m + 1 <? HASHMAP_MIN_CAP_BITS then HASHMAP_MIN_CAP_BITS else hm_cap_bits m + 1) in *.
  destruct (hashmap_rehash hash_fn bits (hashmap_entries m)) as [bs0|] eqn:Hr; [|done]. cbn in Hg. simplify_eq. cbn in *. simplify_eq.
  assert (is_Some (replicate (Z.to_nat (2 ^ bits)) ([] : list (K * V)) !! Z.to_nat (hash_bits (hash_fn k) bits))) as [c0 Hc0].
  { apply lookup_lt_is_Some. rewrite length_replicate. pose proof (ok_shape _ _ Hok1) as Hs. cbn in Hs.
    pose proof (hash_bits_range (hash_fn k) bits ltac:(lia)). lia. }
  pose proof (rehash_chain _ _ _ _ _ c0 Hr Hc0) as Hch. apply lookup_replicate in Hc0 as [-> _].
  rewrite Hc, app_nil_r in Hch. simplify_eq. rewrite filter_reverse. f_equal.
  rewrite list_filter_filter. apply list_filter_iff. intros e. split; [by intros []|]. intros He. split; [done|].
  by rewrite (hk_hash _ _ He).
Qed.

(** ** Several entries for a key *)

Lemma filter_first_insert (P : K * V → bool) c i e x : list_find (λ e, P e = true) c = Some (i, e) → P x = true →
  filter (λ e, P e = true) (<[i := x]> c) = x :: tail (filter (λ e, P e = true) c).
Proof.
  intros Hf Hx. apply list_find_Some in Hf as (Hi & He & Hb). revert i Hi Hb. induction c as [|y c IH]; intros [|i] Hi Hb; try done; cbn in Hi.
  - simplify_eq. change (<[0%nat := x]> (e :: c)) with (x :: c). by rewrite !filter_cons_True.
  - change (<[S i := x]> (y :: c)) with (y :: <[i := x]> c). pose proof (Hb 0%nat y eq_refl ltac:(lia)) as Hy.
    rewrite !(filter_cons_False _ y) by done. apply IH; [done|]. intros j z Hz Hj. apply (Hb (S j) z Hz). lia.
Qed.

Lemma filter_first_delete (P : K * V → bool) c i e : list_find (λ e, P e = true) c = Some (i, e) →
  filter (λ e, P e = true) (delete i c) = tail (filter (λ e, P e = true) c).
Proof.
  intros Hf. apply list_find_Some in Hf as (Hi & He & Hb). revert i Hi Hb. induction c as [|y c IH]; intros [|i] Hi Hb; try done; cbn in Hi.
  - simplify_eq. change (delete 0%nat (e :: c)) with c. by rewrite filter_cons_True.
  - change (delete (S i) (y :: c)) with (y :: delete i c). pose proof (Hb 0%nat y eq_refl ltac:(lia)) as Hy.
    rewrite !(filter_cons_False _ y) by done. apply IH; [done|]. intros j z Hz Hj. apply (Hb (S j) z Hz). lia.
Qed.

Lemma filter_other_insert (P : K * V → bool) (c : list (K * V)) (i : nat) e x : c !! i = Some e → P e = false → P x = false →
  filter (λ e, P e = true) (<[i := x]> c) = filter (λ e, P e = true) c.
Proof.
  revert i. induction c as [|y c IH]; intros [|i] Hi He Hx; try done; cbn in Hi.
  - simplify_eq. change (<[0%nat := x]> (e :: c)) with (x :: c). by rewrite !filter_cons_False by congruence.
  - change (<[S i := x]> (y :: c)) with (y :: <[i := x]> c). rewrite !filter_cons, (IH i) by done. done.
Qed.

Lemma filter_other_delete (P : K * V → bool) (c : list (K * V)) (i : nat) e : c !! i = Some e → P e = false →
  filter (λ e, P e = true) (delete i c) = filter (λ e, P e = true) c.
Proof.
  revert i. induction c as [|y c IH]; intros [|i] Hi He; try done; cbn in Hi.
  - simplify_eq. change (delete 0%nat (e :: c)) with c. by rewrite filter_cons_False by congruence.
  - change (delete (S i) (y :: c)) with (y :: delete i c). rewrite !filter_cons, (IH i) by done. done.
Qed.

(** Keys equal to [k] have the same entries. *)
Lemma of_key_equal k k' (l : list (K * V)) : equal_fn k' k = true → of_key equal_fn k' l = of_key equal_fn k l.
Proof.
  intros Hk. apply list_filter_iff. intros e. split; intros He; [by eapply hk_trans|]. eapply hk_trans; [exact He|by apply hk_sym].
Qed.

Lemma key_apart (e : K * V) k k' : equal_fn e.1 k = true → equal_fn k' k = false → equal_fn e.1 k' = false.
Proof.
  intros He Hk. destruct (equal_fn e.1 k') eqn:E; [|done]. rewrite <- Hk. symmetry. eapply hk_trans; [|exact He]. by apply hk_sym.
Qed.

Lemma filter_cons_split (P : K * V → bool) l a t : filter (λ e, P e = true) l = a :: t →
  ∃ l1 l2, l = l1 ++ a :: l2 ∧ filter (λ e, P e = true) l1 = [].
Proof.
  induction l as [|b l IH]; [done|]. rewrite filter_cons. case_decide as Hb.
  - intros [= -> _]. by exists [], l.
  - intros (l1 & l2 & -> & H)%IH. exists (b :: l1), l2. split; [done|]. by rewrite filter_cons_False.
Qed.

(** Lists with the same entries for every key are the same up to order. *)
Lemma of_key_perm l l' : (∀ k, of_key equal_fn k l = of_key equal_fn k l') → l ≡ₚ l'.
Proof.
  unfold of_key. revert l'. induction l as [|a l IH]; intros l' H.
  - destruct l' as [|b l']; [done|]. specialize (H b.1). by rewrite filter_cons_True in H by apply hk_refl.
  - pose proof (H a.1) as Ha. rewrite filter_cons_True in Ha by apply hk_refl. symmetry in Ha.
    destruct (filter_cons_split (λ e, equal_fn e.1 a.1) l' a _ Ha) as (l1 & l2 & -> & Hl1). rewrite <- Permutation_middle. f_equiv.
    apply IH. intros k. specialize (H k). rewrite filter_app, !filter_cons in H. rewrite filter_app. case_decide as Hk; [|done].
    assert (of_key equal_fn k l1 = []) as E by (rewrite (of_key_equal a.1 k) by (by apply hk_sym); exact Hl1).
    unfold of_key in E. rewrite E in H |- *. by injection H.
Qed.

(** Changing the first entry of a key in its chain is changing it in the list. *)
Section change.
Context (m m' : hashmap K V) (l : list (K * V)) (k : K).
Context (bs : list (list (K * V))) (c c' : list (K * V)) (h i j : nat) (e : K * V).
Context (Hrel : multi_rel hash_fn equal_fn m l) (Hok' : hm_ok hash_fn m').
Context (Hb : hm_buckets m = Some bs) (Hb' : hm_buckets m' = Some (<[h := c']> bs)) (Hbits : hm_cap_bits m' = hm_cap_bits m).
Context (Hh : h = Z.to_nat (hash_bits (hash_fn k) (hm_cap_bits m))) (Hc : bs !! h = Some c).

Lemma chain_of_key k' : of_key equal_fn k' (hashmap_entries m') =
  if decide (Z.to_nat (hash_bits (hash_fn k') (hm_cap_bits m)) = h) then of_key equal_fn k' c' else of_key equal_fn k' l.
Proof.
  destruct (key_entries_all m' k' Hok') as [H _]. destruct (key_entries_all m k' (proj1 Hrel)) as [H0 _].
  unfold hashmap_key_entries in H, H0. rewrite Hb', Hbits in H. rewrite Hb in H0.
  destruct (decide _) as [E|E].
  - rewrite E, list_lookup_insert_eq in H by (by eapply lookup_lt_Some). by injection H as H.
  - rewrite list_lookup_insert_ne in H by done. rewrite H in H0. injection H0 as H0. unfold of_key. rewrite H0. by apply (proj2 Hrel).
Qed.

Lemma chain_old : of_key equal_fn k c = of_key equal_fn k l.
Proof.
  destruct (key_entries_all m k (proj1 Hrel)) as [H0 _]. unfold hashmap_key_entries in H0. rewrite Hb, <- Hh, Hc in H0.
  injection H0 as H0. unfold of_key. rewrite H0. by apply (proj2 Hrel).
Qed.

Lemma chain_old_other k' : Z.to_nat (hash_bits (hash_fn k') (hm_cap_bits m)) = h → of_key equal_fn k' c = of_key equal_fn k' l.
Proof.
  intros E. destruct (key_entries_all m k' (proj1 Hrel)) as [H0 _]. unfold hashmap_key_entries in H0. rewrite Hb, E, Hc in H0.
  injection H0 as H0. unfold of_key. rewrite H0. by apply (proj2 Hrel).
Qed.

Lemma change_rel l' : of_key equal_fn k c' = of_key equal_fn k l' →
  (∀ k', equal_fn k' k = false → of_key equal_fn k' c' = of_key equal_fn k' c ∧ of_key equal_fn k' l' = of_key equal_fn k' l) →
  multi_rel hash_fn equal_fn m' l'.
Proof.
  intros Hk Hother. split; [done|]. intros k'. rewrite chain_of_key. destruct (equal_fn k' k) eqn:E.
  - rewrite (hk_hash _ _ E), <- Hh, decide_True by done. by rewrite !(of_key_equal k k') by done.
  - destruct (Hother k' E) as [H1 H2]. rewrite H2. case_decide as D; [|done]. rewrite H1. by apply chain_old_other.
Qed.
End change.

(** The search. *)
Lemma find_multi m l k : multi_rel hash_fn equal_fn m l →
  ∃ r, hashmap_find_entry equal_fn m k (hash_bits (hash_fn k) (hm_cap_bits m)) = Some r ∧
    match spec_find equal_fn l k with
    | Some (j, e) => ∃ i bs c, r = Some (i, e) ∧ hm_buckets m = Some bs ∧
        bs !! Z.to_nat (hash_bits (hash_fn k) (hm_cap_bits m)) = Some c ∧ spec_find equal_fn c k = Some (i, e)
    | None => r = None
    end.
Proof.
  intros [Hok Hp]. specialize (Hp k). pose proof (list_find_head_filter (λ e, equal_fn e.1 k) l) as Hl. unfold of_key in Hp. cbv beta in Hl. rewrite <- Hp in Hl.
  fold (spec_find equal_fn l k) in Hl. unfold hashmap_find_entry, hashmap_entries in *. destruct (hm_buckets m) as [bs|] eqn:Hb.
  - destruct (home_bucket m bs k Hok Hb) as [c Hc]. rewrite Hc. cbn [mbind option_bind]. eexists. split; [reflexivity|].
    rewrite (filter_concat_one (λ e, equal_fn e.1 k) bs _ c Hc), <- list_find_head_filter in Hl.
    2: { intros h' c' e Hh' He HP. pose proof (ok_home _ _ Hok bs h' c' e Hb Hh' He) as Hhome. rewrite (hk_hash _ _ HP) in Hhome. lia. }
    destruct (spec_find equal_fn l k) as [[j e]|], (list_find _ c) as [[i e']|] eqn:Hf; try done. injection Hl as ->. by exists i, bs, c.
  - exists None. split; [done|]. by destruct (spec_find equal_fn l k) as [[j e]|].
Qed.

Lemma hash_bucket m k bs c : hm_ok hash_fn m → hm_buckets m = Some bs → bs !! Z.to_nat (hash_bits (hash_fn k) (hm_cap_bits m)) = Some c →
  Z.of_nat (Z.to_nat (hash_bits (hash_fn k) (hm_cap_bits m))) = hash_bits (hash_fn k) (hm_cap_bits m).
Proof.
  intros Hok Hb _. apply Z2Nat.id. pose proof (ok_shape _ _ Hok) as Hs. rewrite Hb in Hs. apply hash_bits_range. lia.
Qed.

Lemma set_multi m l k v bs c i j e : multi_rel hash_fn equal_fn m l → hm_buckets m = Some bs →
  bs !! Z.to_nat (hash_bits (hash_fn k) (hm_cap_bits m)) = Some c →
  spec_find equal_fn c k = Some (i, e) → spec_find equal_fn l k = Some (j, e) →
  multi_rel hash_fn equal_fn (hashmap_set_entry m (hash_bits (hash_fn k) (hm_cap_bits m)) i (k, v)) (<[j := (k, v)]> l).
Proof.
  intros Hrel Hb Hc Hi Hj. destruct (spec_find_Some _ _ _ _ Hi) as [Hci He]. destruct (spec_find_Some _ _ _ _ Hj) as [Hlj _].
  unfold hashmap_set_entry. rewrite Hb. cbn [fmap option_fmap option_map]. rewrite (alter_insert _ bs _ c Hc), (alter_insert _ c i e Hci).
  eapply (change_rel m _ l k bs c); try done; [by eapply set_entry_ok; [apply Hrel|..]| |].
  - unfold of_key. rewrite (filter_first_insert (λ e, equal_fn e.1 k) c i e), (filter_first_insert (λ e, equal_fn e.1 k) l j e) by (done || apply hk_refl).
    do 2 f_equal. by eapply (chain_old m l k bs).
  - intros k' Hk'. pose proof (key_apart e k k' He Hk') as Hn.
    assert (equal_fn k k' = false) as Hkk by (destruct (equal_fn k k') eqn:E; [apply hk_sym in E; congruence|done]).
    split; by apply (filter_other_insert (λ e, equal_fn e.1 k') _ _ e).
Qed.

Lemma del_multi m l k bs c i j e : multi_rel hash_fn equal_fn m l → hm_buckets m = Some bs → hm_sz m < 2 ^ 64 →
  bs !! Z.to_nat (hash_bits (hash_fn k) (hm_cap_bits m)) = Some c →
  spec_find equal_fn c k = Some (i, e) → spec_find equal_fn l k = Some (j, e) →
  multi_rel hash_fn equal_fn (hashmap_del_entry m (hash_bits (hash_fn k) (hm_cap_bits m)) i) (delete j l).
Proof.
  intros Hrel Hb Hmax Hc Hi Hj. destruct (spec_find_Some _ _ _ _ Hi) as [Hci He]. destruct (spec_find_Some _ _ _ _ Hj) as [Hlj _].
  unfold hashmap_del_entry. rewrite Hb. cbn [fmap option_fmap option_map]. rewrite (alter_insert _ bs _ c Hc).
  eapply (change_rel m _ l k bs c); try done; [by eapply del_entry_ok; [apply Hrel|..]| |].
  - unfold of_key. rewrite (filter_first_delete (λ e, equal_fn e.1 k) c i e), (filter_first_delete (λ e, equal_fn e.1 k) l j e) by done.
    f_equal. by eapply (chain_old m l k bs).
  - intros k' Hk'. pose proof (key_apart e k k' He Hk') as Hn. split; by apply (filter_other_delete (λ e, equal_fn e.1 k') _ _ e).
Qed.

(** The end of [hashmap__insert]: growing when needed, then a new entry. *)
Lemma add_multi m l a1 a2 k v (old : option (K * V)) : multi_rel hash_fn equal_fn m l → hm_cap_bits m < 63 →
  let '(l', r) := multi_insert (hashmap_needs_to_grow m) a1 a2 l (k, v) in
  ∃ m', ('(m, err) ← (if hashmap_needs_to_grow m then hashmap_grow hash_fn a1 m else Some (m, 0));
         if negb (err =? 0) then Some (m, err, old)
         else if negb a2 then Some (m, - ENOMEM, old)
         else
             bs ← hm_buckets m;
             bs ← hashmap_add_entry bs (hash_bits (hash_fn k) (hm_cap_bits m)) (k, v);
             Some (mkHashmap (Some bs) (hm_cap m) (hm_cap_bits m) (u64 (hm_sz m + 1)), 0, old)) = Some (m', r, old) ∧
    multi_rel hash_fn equal_fn m' l'.
Proof.
  intros Hrel Hbits. unfold multi_insert. destruct (hashmap_needs_to_grow m && negb a1) eqn:Hfail.
  { apply andb_true_iff in Hfail as [-> Ha]. destruct a1; [done|]. pose proof (grow_spec m false (proj1 Hrel) Hbits) as ->.
    exists m. by split. }
  set (l1 := if hashmap_needs_to_grow m then reverse l else l).
  assert (∃ m1, (if hashmap_needs_to_grow m then hashmap_grow hash_fn a1 m else Some (m, 0)) = Some (m1, 0) ∧
    multi_rel hash_fn equal_fn m1 l1 ∧ is_Some (hm_buckets m1) ∧ (hm_sz m1 + 1) * 4 / 3 ≤ hm_cap m1) as (m1 & -> & Hrel1 & [bs Hbs] & Hroom).
  { destruct (hashmap_needs_to_grow m) eqn:Hg.
    - destruct a1; [|done]. destruct (grow_spec m true (proj1 Hrel) Hbits) as (m1 & E & Hok1 & _ & Hsz1 & Hload1 & _ & Hbs1).
      exists m1. split; [exact E|]. split; [|by rewrite Hsz1]. split; [done|]. intros k'.
      destruct (grow_key_entries m m1 k' (proj1 Hrel) Hbits E) as [He _]. destruct (key_entries_all m1 k' Hok1) as [He' _].
      rewrite He in He'. injection He' as He'. unfold of_key, l1. rewrite <- He', filter_reverse. f_equal. by apply (proj2 Hrel).
    - exists m. split; [done|]. split; [done|]. rewrite needs_to_grow_spec in Hg by (done || apply Hrel). apply orb_false_iff in Hg as [Hg1 Hg2].
      apply Z.eqb_neq in Hg1. rewrite Z.gtb_ltb in Hg2. apply Z.ltb_ge in Hg2. split; [|done].
      pose proof (ok_shape _ _ (proj1 Hrel)) as Hsh. destruct (hm_buckets m); [by eauto|lia]. }
  cbn [mbind option_bind]. change (negb (0 =? 0)) with false. cbv iota zeta. destruct a2; cbn [negb]; [|by exists m1].
  rewrite Hbs. cbn [mbind option_bind]. pose proof (ok_shape _ _ (proj1 Hrel1)) as Hs. rewrite Hbs in Hs. destruct Hs as (Hb1 & Hc1 & Hlen).
  destruct (add_entry_spec (hm_cap_bits m1) bs (k, v)) as (bs' & Ha & Hlen' & Hhome & Hp');
    [lia|lia|intros h c e; by apply (ok_home _ _ (proj1 Hrel1))|]. cbn [fst] in Ha. rewrite Ha. cbn [mbind option_bind].
  eexists. split; [reflexivity|]. unfold hashmap_add_entry in Ha.
  destruct (bs !! Z.to_nat (hash_bits (hash_fn k) (hm_cap_bits m1))) as [c|] eqn:Hc; [|done]. cbn [mbind option_bind] in Ha. injection Ha as <-.
  pose proof (ok_sz _ _ (proj1 Hrel1)) as Hsz. unfold hashmap_entries in Hsz. rewrite Hbs in Hsz.
  assert (hm_sz m1 + 1 < 2 ^ 64) as Hmax.
  { pose proof (Z.pow_lt_mono_r 2 (hm_cap_bits m1) 64 ltac:(lia) ltac:(lia) ltac:(lia)).
    pose proof (Z.div_mod ((hm_sz m1 + 1) * 4) 3 ltac:(lia)). pose proof (Z.mod_pos_bound ((hm_sz m1 + 1) * 4) 3 ltac:(lia)). lia. }
  eapply (change_rel m1 _ l1 k bs c ((k, v) :: c)); try done; [|unfold of_key|].
  - rewrite wrap_small by (unfold in_u; lia). split; cbn.
    + split; [done|]. split; [done|lia].
    + intros bs0 h c0 e [= <-]. apply Hhome.
    + rewrite (Permutation_length Hp'). cbn. lia.
    + done.
  - rewrite !filter_cons_True by apply hk_refl. f_equal. by eapply (chain_old m1 l1 k bs).
  - intros k' Hk'. assert (equal_fn k k' ≠ true) as Hkk by (intros E; apply hk_sym in E; congruence). unfold of_key.
    by rewrite !filter_cons_False by done.
Qed.
End lemmas.

(** * Properties *)

Section properties.
Context {K V : Type} (hash_fn : K → Z) (equal_fn : K → K → bool) {HK : HashKey hash_fn equal_fn}.

Lemma hm_sz_bound (m : hashmap K V) : hm_ok hash_fn m → hm_cap_bits m < 63 → 0 ≤ hm_sz m < 2 ^ 64.
Proof.
  intros Hok Hbits. pose proof (ok_shape _ _ Hok) as Hs. pose proof (ok_load _ _ Hok) as Hl.
  pose proof (ok_sz _ _ Hok). destruct (hm_buckets m); [|lia]. destruct Hs as (Hb & Hc & _).
  pose proof (Z.pow_lt_mono_r 2 (hm_cap_bits m) 63 ltac:(lia) ltac:(lia) ltac:(lia)).
  pose proof (Z.div_mod (hm_sz m * 4) 3 ltac:(lia)). pose proof (Z.mod_pos_bound (hm_sz m * 4) 3 ltac:(lia)). lia.
Qed.

(** One call that keeps keys unique, whatever its outcome: the bookkeeping the runs below
    need. *)
Lemma hm_step_rel (m : hashmap K V) l op :
  hm_rel hash_fn equal_fn m l → no_append op = true → hm_cap_bits m < 63 →
  let '(l', r) := spec_step equal_fn (hashmap_needs_to_grow m) l op in
  ∃ m', hm_step hash_fn equal_fn m op = Some (m', r) ∧ hm_rel hash_fn equal_fn m' l' ∧
    hm_cap m' ≤ Z.max (hm_cap m) (4 + 3 * (hm_sz m + 1)) ∧ hm_sz m' ≤ hm_sz m + 1.
Proof.
  intros Hrel Hop Hbits.
  pose proof (hm_sz_bound m (proj1 Hrel) Hbits) as Hsz.
  assert (∀ k, 0 ≤ hash_bits (hash_fn k) (hm_cap_bits m)) as Hh.
  { intros k. apply hash_bits_range. pose proof (ok_shape _ _ (proj1 Hrel)) as Hs. destruct (hm_buckets m); lia. }
  destruct op as [a1 a2 k v s|k|k]; cbn [spec_step hm_step]; destruct (find_entry_rel hash_fn equal_fn m l k Hrel) as (r & Hr & Hf);
    destruct (spec_find equal_fn l k) as [[j e]|] eqn:Hsf.
  - destruct Hf as (i & bs & c & -> & He & Hj & Hb & Hc & Hi).
    assert (s ≠ HASHMAP_APPEND) as Hs by (by intros ->).
    unfold hashmap__insert. rewrite decide_False by done. rewrite Hr. cbn [mbind option_bind fmap option_fmap option_map snd].
    pose proof (set_entry_rel hash_fn equal_fn m l _ c bs i j e k v Hrel Hb He Hc Hi Hj) as Hset.
    rewrite Z2Nat.id in Hset by done.
    destruct s; try done; eexists; (split; [reflexivity|]); (split; [done|cbn; lia]).
  - destruct Hf as [-> Hn]. destruct (decide (s = HASHMAP_UPDATE)) as [->|Hu].
    + unfold hashmap__insert. rewrite decide_False by done. rewrite Hr. cbn [mbind option_bind fmap option_fmap option_map].
      eexists. split; [reflexivity|]. split; [done|lia].
    + assert (s ≠ HASHMAP_APPEND) as Hs by (by intros ->).
      destruct (insert_new hash_fn equal_fn m l a1 a2 k v s Hrel Hbits Hn Hu Hs) as (m' & Hi & Hrel' & Hcap & Hsz').
      destruct s; try done; rewrite Hi; cbn [mbind option_bind];
        destruct (hashmap_needs_to_grow m && negb a1 || negb a2); eauto.
  - destruct Hf as (i & bs & c & -> & He & Hj & Hb & Hc & Hi). unfold hashmap__find. rewrite Hr. cbn.
    eexists. split; [reflexivity|]. split; [done|lia].
  - destruct Hf as [-> Hn]. unfold hashmap__find. rewrite Hr. cbn. eexists. split; [reflexivity|]. split; [done|lia].
  - destruct Hf as (i & bs & c & -> & He & Hj & Hb & Hc & Hi). unfold hashmap__delete. rewrite Hr. cbn [mbind option_bind].
    pose proof (del_entry_rel hash_fn equal_fn m l _ c bs i j e Hrel Hb ltac:(lia) Hc Hi Hj) as Hdel.
    rewrite Z2Nat.id in Hdel by done. eexists. split; [reflexivity|]. split; [done|]. cbn. split; [lia|].
    destruct (decide (hm_sz m = 0)) as [Hz|]; [|unfold wrap; rewrite Z.mod_small by lia; lia].
    pose proof (ok_sz _ _ (proj1 Hrel)) as Hl. destruct Hrel as (_ & Hp & _).
    rewrite (Permutation_length Hp) in Hl. apply lookup_lt_Some in Hj. lia.
  - destruct Hf as [-> Hn]. unfold hashmap__delete. rewrite Hr. cbn. eexists. split; [reflexivity|]. split; [done|lia].
Qed.
End properties.

(** C29. Every call, of any strategy and with any number of entries for a key, behaves as on
    the list the map stands for: its result, the error codes of every strategy and of
    failing allocations, and the contents afterwards; and the table stays well formed
    (every entry in its key's bucket, at most three quarters full, [sz] exact).  In the
    list a new entry is put before the others of its key, which is the one found; but an
    insertion that makes the table grow turns the order of the entries of every key
    round. *)
Theorem hashmap_step_refines {K V} hash_fn equal_fn `{!HashKey hash_fn equal_fn} (m : hashmap K V) l op :
  multi_rel hash_fn equal_fn m l → hm_cap_bits m < 63 →
  let '(l', r) := multi_step equal_fn (hashmap_needs_to_grow m) l op in
  ∃ m', hm_step hash_fn equal_fn m op = Some (m', r) ∧ multi_rel hash_fn equal_fn m' l'.
Proof.
  intros Hrel Hbits. pose proof (hm_sz_bound hash_fn m (proj1 Hrel) Hbits) as Hmax.
  destruct op as [a1 a2 k v s|k|k]; cbn [multi_step hm_step];
    destruct (find_multi hash_fn equal_fn m l k Hrel) as (r & Hr & Hf); unfold hashmap__insert, hashmap__find, hashmap__delete.
  - pose proof (λ old, add_multi hash_fn equal_fn m l a1 a2 k v old Hrel Hbits) as Hadd. destruct (multi_insert _ _ _ _ _) as [l' ret].
    destruct (decide (s = HASHMAP_APPEND)) as [->|Hs].
    + cbn [mbind option_bind fmap option_fmap option_map]. destruct (Hadd None) as (m' & -> & Hrel').
      by destruct (spec_find equal_fn l k) as [[j e]|]; exists m'.
    + rewrite Hr. cbn [mbind option_bind]. destruct (spec_find equal_fn l k) as [[j e]|] eqn:Hj.
      * destruct Hf as (i & bs & c & -> & Hb & Hc & Hi). pose proof (set_multi hash_fn equal_fn m l k v bs c i j e Hrel Hb Hc Hi Hj) as Hset.
        destruct s; try done; by eexists.
      * subst r. cbn [fmap option_fmap option_map]. destruct (Hadd None) as (m' & E & Hrel').
        destruct s; [rewrite E|rewrite E| |done]; by eexists.
  - rewrite Hr. cbn [mbind option_bind]. exists m. destruct (spec_find equal_fn l k) as [[j e]|].
    + destruct Hf as (i & bs & c & -> & _). split; [reflexivity|done].
    + subst r. split; [reflexivity|done].
  - rewrite Hr. cbn [mbind option_bind]. destruct (spec_find equal_fn l k) as [[j e]|] eqn:Hj; [|subst r; by exists m].
    destruct Hf as (i & bs & c & -> & Hb & Hc & Hi). eexists. split; [reflexivity|].
    apply (del_multi hash_fn equal_fn m l k bs c i j e); [done|done|lia|done..].
Qed.

Lemma hashmap_init_rel {K V} (hash_fn : K → Z) equal_fn : hm_rel hash_fn equal_fn (hashmap__init (V := V)) [].
Proof.
  split; [split; cbn|split]; try done. intros a b rest Hp. by apply Permutation_nil_cons in Hp.
Qed.

(** From an empty map, any sequence of fewer than 2^58 calls whose allocations
    succeed gives, call by call, the results of the specification. *)
Theorem hashmap_run_refines {K V} hash_fn equal_fn `{!HashKey hash_fn equal_fn} (ops : list (hm_op K V)) :
  Forall (λ op, no_append op = true ∧ allocs_ok op = true) ops → Z.of_nat (length ops) < 2 ^ 58 →
  let '(l, rs) := spec_run equal_fn [] ops in
  ∃ m, hm_run hash_fn equal_fn hashmap__init ops = Some (m, rs) ∧ hm_rel hash_fn equal_fn m l.
Proof.
  intros HF Hlen.
  assert (∀ n m l, hm_rel hash_fn equal_fn m l → hm_sz m ≤ n → hm_cap m ≤ 4 + 3 * n →
    0 ≤ n → n + Z.of_nat (length ops) < 2 ^ 58 →
    let '(l', rs) := spec_run equal_fn l ops in
    ∃ m', hm_run hash_fn equal_fn m ops = Some (m', rs) ∧ hm_rel hash_fn equal_fn m' l') as H.
  { clear Hlen. induction HF as [|op ops [Hop Ha] _ IH]; intros n m l Hrel Hsz Hcap Hn Hlen.
    - by exists m.
    - assert (hm_cap_bits m < 63) as Hb.
      { pose proof (ok_shape _ _ (proj1 Hrel)) as Hs. destruct (hm_buckets m); [|lia]. destruct Hs as (Hb & Hc & _).
        apply (Z.pow_lt_mono_r_iff 2); lia. }
      pose proof (hm_step_rel hash_fn equal_fn m l op Hrel Hop Hb) as Hstep.
      assert (spec_step equal_fn (hashmap_needs_to_grow m) l op = spec_step equal_fn false l op) as E.
      { destruct op as [a1 a2 k v s| |]; [|done..]. cbn in Ha. apply andb_true_iff in Ha as [-> ->].
        cbn. by rewrite andb_false_r. }
      rewrite E in Hstep. cbn [spec_run hm_run]. destruct (spec_step equal_fn false l op) as [l1 r1].
      destruct Hstep as (m1 & -> & Hrel1 & Hcap1 & Hsz1). cbn [mbind option_bind]. cbn [length] in Hlen.
      specialize (IH (n + 1) m1 l1 Hrel1 ltac:(lia) ltac:(lia) ltac:(lia) ltac:(lia)).
      destruct (spec_run equal_fn l1 ops) as [l2 rs]. destruct IH as (m2 & -> & Hrel2). by exists m2. }
  apply (H 0); [apply hashmap_init_rel|done..|lia].
Qed.

(** A multimap (filled by [HASHMAP_APPEND]): growing keeps, for every key, the
    entries iterated for it but reverses their order, so that [hashmap__find] then
    returns the entry that was appended first, not the one appended last. *)
Theorem hashmap_grow_reverses {K V} hash_fn equal_fn `{!HashKey hash_fn equal_fn} (m m' : hashmap K V) k :
  hm_ok hash_fn m → hm_cap_bits m < 63 → hashmap_grow hash_fn true m = Some (m', 0) →
  ∃ es, hashmap_key_entries hash_fn equal_fn m k = Some es ∧
    hashmap_key_entries hash_fn equal_fn m' k = Some (reverse es) ∧
    hashmap__find hash_fn equal_fn m' k = Some (snd <$> last es).
Proof.
  intros Hok Hb Hg. destruct (key_entries_all hash_fn equal_fn m k Hok) as (Hes & _).
  destruct (grow_key_entries hash_fn equal_fn m m' k Hok Hb Hg) as [Hes' Hok'].
  eexists. split; [exact Hes|]. split; [done|].
  destruct (key_entries_all hash_fn equal_fn m' k Hok') as (Hes'' & Hfind).
  rewrite Hfind. rewrite Hes' in Hes''. injection Hes'' as <-. by rewrite head_reverse.
Qed.

#[export] Instance unit_hash_key : HashKey (λ _ : unit, 7) (λ _ _, true).
Proof. by split. Defined.

#[export] Instance Z_hash_key : HashKey (λ k : Z, k) Z.eqb.
Proof.
  split; intros *; rewrite ?Z.eqb_eq; [done|congruence|congruence|done].
Defined.

(** A table with three values for a key; a fourth one makes it grow, which turns the order of
    the three round. *)
Definition multi_demo : hashmap Z Z := mkHashmap (Some [[(0, 12); (0, 11); (0, 10)]; []; []; []]) 4 2 3.

Lemma multi_demo_rel : multi_rel (λ k : Z, k) Z.eqb multi_demo [(0, 12); (0, 11); (0, 10)].
Proof.
  split; [split; cbn|done].
  - done.
  - intros bs h c e [= <-] Hh He. destruct h as [|[|[|[|h]]]]; cbn in Hh; simplify_eq; try (by apply elem_of_nil in He).
    repeat (apply elem_of_cons in He as [->|He]; [done|]). by apply elem_of_nil in He.
  - done.
  - done.
Qed.

Lemma hashmap_step_refines_witness :
  ∃ m m', hm_step (λ k : Z, k) Z.eqb multi_demo (Insert true true 0 13 HASHMAP_APPEND) = Some (m, (0, None, None)) ∧
    multi_rel (λ k : Z, k) Z.eqb m [(0, 13); (0, 10); (0, 11); (0, 12)] ∧
    hm_step (λ k : Z, k) Z.eqb m (Delete 0) = Some (m', (1, Some (0, 13), None)) ∧
    multi_rel (λ k : Z, k) Z.eqb m' [(0, 10); (0, 11); (0, 12)].
Proof.
  destruct (hashmap_step_refines (λ k : Z, k) Z.eqb multi_demo _ (Insert true true 0 13 HASHMAP_APPEND) multi_demo_rel eq_refl) as (m & H1 & H2).
  assert (hm_cap_bits m < 63) as Hb by (vm_compute in H1; injection H1 as <-; reflexivity).
  destruct (hashmap_step_refines (λ k : Z, k) Z.eqb m _ (Delete 0) H2 Hb) as (m' & H3 & H4).
  exists m, m'. split; [exact H1|]. split; [exact H2|]. split; [exact H3|exact H4].
Defined.

Lemma hashmap_run_refines_witness :
  ∃ m, hm_run (λ k : Z, k) Z.eqb hashmap__init
    [Insert true true 3 5 HASHMAP_ADD; Insert true true 3 6 HASHMAP_ADD; Insert true true 3 7 HASHMAP_SET;
     Insert true true 4 1 HASHMAP_UPDATE; Find 3; Delete 3; Find 3] =
    Some (m, [(0, None, None); (- EEXIST, Some (3, 5), None); (0, Some (3, 5), None); (- ENOENT, None, None);
              (1, None, Some 7); (1, Some (3, 7), None); (0, None, None)]) ∧
    hm_rel (λ k : Z, k) Z.eqb m [].
Proof.
  exact (hashmap_run_refines (λ k : Z, k) Z.eqb
    [Insert true true 3 5 HASHMAP_ADD; Insert true true 3 6 HASHMAP_ADD; Insert true true 3 7 HASHMAP_SET;
     Insert true true 4 1 HASHMAP_UPDATE; Find 3; Delete 3; Find 3]
    ltac:(repeat constructor; done) eq_refl).
Defined.

(** Three appended values, then a growth: the first one is found. *)
Lemma hashmap_grow_reverses_witness :
  let bs := [[]; [((), 3); ((), 2); ((), 1)]; []; []] in
  let m := mkHashmap (Some bs) 4 2 3 in
  ∃ m', hashmap_grow (λ _ : unit, 7) true m = Some (m', 0) ∧
    hashmap__find (λ _, 7) (λ _ _, true) m () = Some (Some 3) ∧
    hashmap__find (λ _, 7) (λ _ _, true) m' () = Some (Some 1).
Proof.
  intros bs m. exists (default (m, 0) (hashmap_grow (λ _, 7) true m)).1. split; [reflexivity|]. split; [reflexivity|].
  destruct (hashmap_grow_reverses (λ _ : unit, 7) (λ _ _, true) m
    (default (m, 0) (hashmap_grow (λ _, 7) true m)).1 ()) as (es & H1 & _ & H3); [|reflexivity|reflexivity|].
  - split; cbn.
    + split_and!; done.
    + intros bs' h c e [= <-] Hh He. do 4 (destruct h as [|h]; [simplify_eq/=; try done; by apply not_elem_of_nil in He|]). done.
    + done.
    + done.
  - rewrite H3. vm_compute in H1. injection H1 as <-. reflexivity.
Defined.
