(* ===== verification/Mem.v ===== *)
(** Growable arrays of libbpf ([libbpf_add_mem] and [libbpf_ensure_mem] of
    src/libbpf/src/btf.c, [libbpf_reallocarray] of libbpf_internal.h), and C strings
    in a byte array.

    An array is the list of the bytes of its allocation; [realloc] may fail (an
    argument) and leaves the bytes it adds undefined, which the code zeroes. *)
From stdpp Require Import base list.
From Stdlib Require Import ZArith Lia.
From S2P Require Import Prelude Bytes.

#[local] Open Scope Z_scope.

Definition SIZE_MAX : Z := 2 ^ 64 - 1.

(** [None]: the product overflows or [realloc] fails; else the size in bytes. *)
Definition libbpf_reallocarray (realloc_ok : bool) (nmemb size : Z) : option Z :=
  if nmemb * size >? SIZE_MAX then None else if realloc_ok then Some (nmemb * size) else None.

(** The new capacity [libbpf_add_mem] asks for. *)
Definition add_mem_cnt (cap cur max add : Z) : Z :=
  let new_cnt := u64 (cap + cap / 4) in
  let new_cnt := if new_cnt <? 16 then 16 else new_cnt in
  let new_cnt := if new_cnt >? max then max else new_cnt in
  if new_cnt <? u64 (cur + add) then u64 (cur + add) else new_cnt.

(** [None]: [NULL]. Otherwise the array, its capacity in elements and the offset in
    bytes of the unused memory. *)
Definition libbpf_add_mem (realloc_ok : bool) (data : list Z) (cap elem_sz cur max add : Z)
    : option (list Z * Z * Z) :=
  if u64 (cur + add) <=? cap then Some (data, cap, u64 (cur * elem_sz))
  else if u64 (cur + add) >? max then None
  else
    let new_cnt := add_mem_cnt cap cur max add in
    total ← libbpf_reallocarray realloc_ok new_cnt elem_sz;
    Some (take (Z.to_nat total) data ++ replicate (Z.to_nat ((new_cnt - cap) * elem_sz)) 0,
          new_cnt, u64 (cur * elem_sz)).

(** 0 or [-ENOMEM], with the array and its capacity. *)
Definition libbpf_ensure_mem (realloc_ok : bool) (data : list Z) (cap elem_sz need : Z) : list Z * Z * Z :=
  if need <=? cap then (data, cap, 0)
  else
    match libbpf_add_mem realloc_ok data cap elem_sz cap SIZE_MAX (u64 (need - cap)) with
    | Some (data, cap, _) => (data, cap, 0)
    | None => (data, cap, - ENOMEM)
    end.

(** * C strings *)

(** The bytes of the string at the head of [l]. *)
Fixpoint cstr (l : list Z) : list Z :=
  match l with
  | [] => []
  | c :: l => if c =? 0 then [] else c :: cstr l
  end.

Definition cstr_at (data : list Z) (off : Z) : list Z := cstr (drop (Z.to_nat off) data).

(** [strlen]: undefined ([None]) when no NUL follows inside the array. *)
Definition strlen_at (data : list Z) (off : Z) : option Z :=
  if (0 <=? off) && (Z.of_nat (length (cstr_at data off)) <? Z.of_nat (length data) - off)
  then Some (Z.of_nat (length (cstr_at data off))) else None.

(** A C string has no NUL inside. *)
Definition nonul (s : list Z) : Prop := Forall (λ c, c ≠ 0) s.

(** * Lemmas *)

Lemma cstr_app s rest : nonul s → cstr (s ++ 0 :: rest) = s.
Proof. induction 1 as [|c s Hc _ IH]; cbn; [done|]. destruct (Z.eqb_spec c 0); [done|]. by rewrite IH. Qed.

Lemma cstr_at_app pre s rest off :
  off = Z.of_nat (length pre) → nonul s → cstr_at (pre ++ s ++ 0 :: rest) off = s.
Proof. intros -> Hs. unfold cstr_at. by rewrite Nat2Z.id, drop_app_length, cstr_app. Qed.

Lemma strlen_at_app pre s rest off :
  off = Z.of_nat (length pre) → nonul s → strlen_at (pre ++ s ++ 0 :: rest) off = Some (Z.of_nat (length s)).
Proof.
  intros Ho Hs. unfold strlen_at. rewrite (cstr_at_app pre s rest off Ho Hs).
  rewrite !length_app, length_cons. destruct (Z.leb_spec 0 off); [|lia].
  by destruct (Z.ltb_spec (Z.of_nat (length s)) (Z.of_nat (length pre + (length s + S (length rest))) - off)); [|lia].
Qed.

(** A sufficient size is granted exactly below the limit: the old bytes are kept, the
    new ones are zero, and the capacity covers the request without exceeding the
    limit. *)
Lemma add_mem_spec data cap elem_sz cur max add :
  0 < elem_sz → 0 ≤ cur ≤ cap → 0 ≤ add → cap ≤ max → cur + add < 2 ^ 64 → (cap + cap / 4) < 2 ^ 64 → max * elem_sz ≤ SIZE_MAX →
  Z.of_nat (length data) = cap * elem_sz →
  if cur + add <=? max then
    ∃ data' cap', libbpf_add_mem true data cap elem_sz cur max add = Some (data', cap', cur * elem_sz) ∧
      Z.of_nat (length data') = cap' * elem_sz ∧ cap ≤ cap' ≤ max ∧ cur + add ≤ cap' ∧
      data' = data ++ replicate (Z.to_nat ((cap' - cap) * elem_sz)) 0
  else libbpf_add_mem true data cap elem_sz cur max add = None.
Proof.
  intros He Hcur Hadd Hcap Hsum Hgrow Hmax Hlen. unfold libbpf_add_mem.
  rewrite (wrap_small 64 (cur + add)) by (unfold in_u; lia).
  rewrite (wrap_small 64 (cur * elem_sz)) by (unfold in_u, SIZE_MAX in *; nia).
  destruct (Z.leb_spec (cur + add) cap).
  - destruct (Z.leb_spec (cur + add) max); [|lia]. exists data, cap. split_and!; try done; try lia.
    rewrite Z.sub_diag. cbn. by rewrite app_nil_r.
  - rewrite Z.gtb_ltb. destruct (Z.ltb_spec max (cur + add)), (Z.leb_spec (cur + add) max); try lia; [done|].
    unfold add_mem_cnt. pose proof (Z.div_pos cap 4 ltac:(lia) ltac:(lia)).
    rewrite (wrap_small 64 (cap + cap / 4)), (wrap_small 64 (cur + add)) by (unfold in_u; lia).
    set (n := if _ <? cur + add then _ else _).
    assert (cap ≤ n ≤ max ∧ cur + add ≤ n) as [Hn1 Hn2].
    { unfold n. clear n. rewrite Z.gtb_ltb. repeat (match goal with |- context [if ?x <? ?y then _ else _] => destruct (Z.ltb_spec x y) end); lia. }
    unfold libbpf_reallocarray. rewrite Z.gtb_ltb. destruct (Z.ltb_spec SIZE_MAX (n * elem_sz)); [unfold SIZE_MAX in *; nia|].
    cbn [mbind option_bind]. rewrite take_ge by nia. eexists _, n. split_and!; [done| |lia..|done].
    rewrite length_app, length_replicate. nia.
Qed.

(** A failing [realloc] changes nothing or makes the call fail. *)
Lemma add_mem_oracle ok data cap elem_sz cur max add :
  libbpf_add_mem ok data cap elem_sz cur max add = None ∨
  libbpf_add_mem ok data cap elem_sz cur max add = libbpf_add_mem true data cap elem_sz cur max add.
Proof.
  destruct ok; [by right|]. unfold libbpf_add_mem, libbpf_reallocarray.
  destruct (_ <=? cap); [by right|]. destruct (_ >? max); [by right|]. left.
  by destruct (_ >? SIZE_MAX).
Qed.
