(* ===== verification/Strset.v ===== *)
(** The string set of libbpf (src/libbpf/src/strset.c): strings interned in one
    growing byte array, with a hash map from offsets to offsets as index.

    The hash map's callbacks read the strings out of the array, so they change with
    it: every call of a hash map operation is given the callbacks of the array at
    that moment. *)
From stdpp Require Import base list sets.
From Stdlib Require Import ZArith Lia.
From S2P Require Import Prelude Bytes Hashmap Mem.

#[local] Open Scope Z_scope.

Record strset := mkStrset {
  strs_data : list Z;
  strs_data_len : Z;
  strs_data_cap : Z;
  strs_data_max_len : Z;
  strs_hash : hashmap Z Z;
}.

Definition strset_hash_fn (data : list Z) (key : Z) : Z := str_hash (cstr_at data key).

Definition strset_equal_fn (data : list Z) (key1 key2 : Z) : bool :=
  bool_decide (cstr_at data key1 = cstr_at data key2).

(** The loop of [strset__new] over the strings of the initial data; the allocations
    of the hash map succeed or not as [oracle] says, call by call. *)
Fixpoint strset_index (fuel : nat) (data : list Z) (len off : Z) (oracle : list (bool * bool))
    (hash : hashmap Z Z) : option (hashmap Z Z * Z) :=
  match fuel with
  | O => None
  | S fuel =>
      if off <? len then
        let '(a1, a2) := hd (true, true) oracle in
        '(hash, err, _) ← hashmap__insert (strset_hash_fn data) (strset_equal_fn data) a1 a2 hash off off HASHMAP_ADD;
        if (err =? 0) || (err =? - EEXIST) then
          n ← strlen_at data off;
          strset_index fuel data len (off + n + 1) (tl oracle) hash
        else Some (hash, err)
      else Some (hash, 0)
  end.

(** [inr err]: [ERR_PTR(err)]. [alloc] says whether [calloc] of the set, the hash
    map's [malloc] and the [malloc] of the data succeed. *)
Definition strset__new (alloc : bool * bool * bool) (oracle : list (bool * bool)) (max_data_sz : Z)
    (init_data : option (list Z)) : option (strset + Z) :=
  let '(a_set, a_hash, a_data) := alloc in
  if negb a_set then Some (inr (- ENOMEM))
  else
    match hashmap__new a_hash with
    | None => Some (inr (- ENOMEM))
    | Some hash =>
        match init_data with
        | None => Some (inl (mkStrset [] 0 0 max_data_sz hash))
        | Some init =>
            if negb a_data then Some (inr (- ENOMEM))
            else
              let sz := Z.of_nat (length init) in
              '(hash, err) ← strset_index (S (length init)) init sz 0 oracle hash;
              Some (if err =? 0 then inl (mkStrset init sz sz max_data_sz hash) else inr err)
        end
    end.

Definition strset__data_size (set : strset) : Z := strs_data_len set.
Definition strset__data (set : strset) : list Z := strs_data set.

(** [None]: [NULL]; else the set with room for [add_sz] bytes, and the offset of the
    room. *)
Definition strset_add_str_mem (realloc_ok : bool) (set : strset) (add_sz : Z) : option (strset * Z) :=
  '(data, cap, p) ← libbpf_add_mem realloc_ok (strs_data set) (strs_data_cap set) 1 (strs_data_len set)
                      (strs_data_max_len set) add_sz;
  Some (mkStrset data (strs_data_len set) cap (strs_data_max_len set) (strs_hash set), p).

(** [strset_add_str_mem] and the [memcpy] of the string; [None] outside the array. *)
Definition strset_put (realloc_ok : bool) (set : strset) (s : list Z) : option (strset + Z) :=
  match strset_add_str_mem realloc_ok set (Z.of_nat (length s) + 1) with
  | None => Some (inr (- ENOMEM))
  | Some (set, p) =>
      data ← store (strs_data set) p (s ++ [0]);
      Some (inl (mkStrset data (strs_data_len set) (strs_data_cap set) (strs_data_max_len set) (strs_hash set)))
  end.

(** Both return an [int]. *)
Definition strset__find_str (realloc_ok : bool) (set : strset) (s : list Z) : option (strset * Z) :=
  r ← strset_put realloc_ok set s;
  match r with
  | inr err => Some (set, err)
  | inl set =>
      let data := strs_data set in
      o ← hashmap__find (strset_hash_fn data) (strset_equal_fn data) (strs_hash set) (strs_data_len set);
      Some (set, match o with Some old_off => s32 old_off | None => - ENOENT end)
  end.

Definition strset__add_str (alloc : bool * bool * bool) (set : strset) (s : list Z) : option (strset * Z) :=
  let '(a_mem, a1, a2) := alloc in
  r ← strset_put a_mem set s;
  match r with
  | inr err => Some (set, err)
  | inl set =>
      let data := strs_data set in
      let new_off := strs_data_len set in
      '(hash, err, old) ← hashmap__insert (strset_hash_fn data) (strset_equal_fn data) a1 a2 (strs_hash set)
                            new_off new_off HASHMAP_ADD;
      let set := mkStrset data (strs_data_len set) (strs_data_cap set) (strs_data_max_len set) hash in
      if err =? - EEXIST then Some (set, s32 (default 0 (fst <$> old)))
      else if negb (err =? 0) then Some (set, err)
      else
        let len := Z.of_nat (length s) + 1 in
        Some (mkStrset data (u64 (strs_data_len set + len)) (strs_data_cap set) (strs_data_max_len set) hash,
              s32 new_off)
  end.

(** * Specification: the sequence of the strings stored *)

(** The bytes of a sequence of strings. *)
Definition strs_bytes (ss : list (list Z)) : list Z := flat_map (λ s, s ++ [0]) ss.

(** The offset of the first occurrence of [s]. *)
Fixpoint str_off (ss : list (list Z)) (s : list Z) : option Z :=
  match ss with
  | [] => None
  | s' :: ss => if decide (s' = s) then Some 0 else (λ o, o + Z.of_nat (length s') + 1) <$> str_off ss s
  end.

(** The index of the strings [ss], over the array [data]. *)
Definition index_rel (data : list Z) (hash : hashmap Z Z) (ss : list (list Z)) : Prop :=
  (∃ l, hm_rel (strset_hash_fn data) (strset_equal_fn data) hash l ∧
    ∀ o v, (o, v) ∈ l ↔ v = o ∧ ∃ s, str_off ss s = Some o) ∧
  hm_cap hash ≤ 4 + 3 * Z.of_nat (length ss) ∧ hm_sz hash ≤ Z.of_nat (length ss).

Record strset_rel (set : strset) (ss : list (list Z)) : Prop := {
  sr_nonul : Forall nonul ss;
  sr_cap : Z.of_nat (length (strs_data set)) = strs_data_cap set;
  sr_len : strs_data_len set = Z.of_nat (length (strs_bytes ss));
  sr_data : ∃ junk, strs_data set = strs_bytes ss ++ junk;
  sr_max : strs_data_cap set ≤ strs_data_max_len set ≤ INT_MAX;
  sr_index : index_rel (strs_data set) (strs_hash set) ss;
}.

(** Adding strings one after the other; the offsets returned. *)
Fixpoint strset_add_all (set : strset) (ss : list (list Z)) : option (strset * list Z) :=
  match ss with
  | [] => Some (set, [])
  | s :: ss =>
      '(set, off) ← strset__add_str (true, true, true) set s;
      '(set, offs) ← strset_add_all set ss;
      Some (set, off :: offs)
  end.

(** * Lemmas *)

#[export] Instance strset_hash_key data : HashKey (strset_hash_fn data) (strset_equal_fn data).
Proof.
  split; unfold strset_hash_fn, strset_equal_fn; intros *; rewrite ?bool_decide_eq_true; congruence.
Qed.

Lemma strs_bytes_app a b : strs_bytes (a ++ b) = strs_bytes a ++ strs_bytes b.
Proof. apply flat_map_app. Qed.

(** The string at the offset of an occurrence. *)
Lemma str_off_split ss s o :
  str_off ss s = Some o →
  ∃ a b, ss = a ++ s :: b ∧ o = Z.of_nat (length (strs_bytes a)).
Proof.
  revert o. induction ss as [|s' ss IH]; intros o; cbn; [done|]. destruct (decide (s' = s)) as [->|Hne].
  - intros [= <-]. by exists [], ss.
  - destruct (str_off ss s) as [o'|]; [|done]. intros [= <-]. destruct (IH _ eq_refl) as (a & b & -> & ->).
    exists (s' :: a), b. split; [done|]. unfold strs_bytes. cbn. rewrite !length_app. cbn. lia.
Qed.

Lemma str_off_None ss s : str_off ss s = None ↔ s ∉ ss.
Proof.
  induction ss as [|s' ss IH]; cbn; [set_solver|]. destruct (decide (s' = s)) as [->|Hne]; [set_solver|].
  rewrite fmap_None, IH. set_solver.
Qed.

Lemma str_off_snoc ss s t :
  str_off (ss ++ [s]) t =
  match str_off ss t with
  | Some o => Some o
  | None => if decide (s = t) then Some (Z.of_nat (length (strs_bytes ss))) else None
  end.
Proof.
  induction ss as [|s' ss IH]; cbn; [by destruct (decide (s = t))|].
  destruct (decide (s' = t)); [done|]. rewrite IH. destruct (str_off ss t); [done|].
  destruct (decide (s = t)); [|done]. cbn. f_equal. rewrite length_app. cbn. fold (strs_bytes ss). rewrite length_app. cbn. lia.
Qed.

Lemma str_off_cstr ss s o junk :
  Forall nonul ss → str_off ss s = Some o → cstr_at (strs_bytes ss ++ junk) o = s ∧ 0 ≤ o.
Proof.
  intros HF (a & b & -> & ->)%str_off_split. split; [|lia]. apply Forall_app in HF as [_ [Hs _]%Forall_cons].
  rewrite strs_bytes_app. cbn. rewrite <- !app_assoc. by apply cstr_at_app.
Qed.

(** Offsets identify strings. *)
Lemma str_off_inj ss s t o : Forall nonul ss → str_off ss s = Some o → str_off ss t = Some o → s = t.
Proof.
  intros HF Hs Ht. destruct (str_off_cstr ss s o [] HF Hs) as [<- _], (str_off_cstr ss t o [] HF Ht) as [<- _]. done.
Qed.

(** A hash map only looks at the hashes of its own keys. *)
Lemma hm_rel_ext {K V} (h1 h2 : K → Z) eq1 eq2 (m : hashmap K V) l :
  hm_rel h1 eq1 m l → (∀ e, e ∈ l → h1 e.1 = h2 e.1) →
  (∀ e1 e2, e1 ∈ l → e2 ∈ l → eq1 e1.1 e2.1 = eq2 e1.1 e2.1) → hm_rel h2 eq2 m l.
Proof.
  intros ([H1 H2 H3 H4] & Hp & Hu) Hh Heq. split; [split; try done|split; [done|]].
  - intros bs h c e Hb Hc He. rewrite (H2 bs h c e Hb Hc He), Hh; [done|]. rewrite <- Hp.
    unfold hashmap_entries. rewrite Hb. apply concat_elem. eauto.
  - intros a b rest Hrest. rewrite <- Heq; [by eapply Hu|rewrite Hrest; set_solver..].
Qed.

Lemma index_rel_cap_bits data hash ss :
  index_rel data hash ss → Z.of_nat (length ss) < 2 ^ 58 → hm_cap_bits hash < 63.
Proof.
  intros [(l & [Hok _] & _) [Hcap _]] Hlen. pose proof (ok_shape _ _ Hok) as Hs.
  destruct (hm_buckets hash); [|lia]. destruct Hs as (Hb & Hc & _).
  apply (Z.pow_lt_mono_r_iff 2); lia.
Qed.

Lemma length_strs_bytes ss : (length ss ≤ length (strs_bytes ss))%nat.
Proof. induction ss as [|s ss IH]; cbn; [lia|]. fold (strs_bytes ss). rewrite !length_app. cbn. lia. Qed.

(** Searching the index for the string put right behind the data. *)
Lemma spec_find_off data ss (l : list (Z * Z)) s junk :
  Forall nonul ss → nonul s → data = strs_bytes ss ++ s ++ 0 :: junk →
  (∀ o v, (o, v) ∈ l ↔ v = o ∧ ∃ s, str_off ss s = Some o) →
  match str_off ss s with
  | Some o => ∃ j, spec_find (strset_equal_fn data) l (Z.of_nat (length (strs_bytes ss))) = Some (j, (o, o))
  | None => spec_find (strset_equal_fn data) l (Z.of_nat (length (strs_bytes ss))) = None
  end.
Proof.
  intros HF Hs Hd Hl.
  assert (cstr_at data (Z.of_nat (length (strs_bytes ss))) = s) as Hc.
  { rewrite Hd. by apply cstr_at_app. }
  assert (∀ e, e ∈ l → strset_equal_fn data e.1 (Z.of_nat (length (strs_bytes ss))) = true →
    e = (e.1, e.1) ∧ str_off ss s = Some e.1) as Hin.
  { intros [o v] [-> [t Ht]]%Hl He. split; [done|]. cbn in He |- *.
    unfold strset_equal_fn in He. rewrite bool_decide_eq_true, Hc in He.
    destruct (str_off_cstr ss t o (s ++ 0 :: junk) HF Ht) as [E _]. rewrite <- Hd, He in E. by subst t. }
  destruct (spec_find _ l _) as [[j e]|] eqn:Hf.
  - apply spec_find_Some in Hf as [Hj He]. apply list_elem_of_lookup_2 in Hj.
    destruct (Hin e Hj He) as [E ->]. exists j. by rewrite E.
  - destruct (str_off ss s) as [o|] eqn:Ho; [|done].
    assert ((o, o) ∈ l) as Hol by (apply Hl; eauto).
    rewrite spec_find_None in Hf. specialize (Hf _ Hol). unfold strset_equal_fn in Hf. cbn in Hf.
    rewrite bool_decide_eq_false, Hc in Hf.
    destruct (str_off_cstr ss s o (s ++ 0 :: junk) HF Ho) as [E _]. by rewrite <- Hd in E.
Qed.

Lemma insert_exists {K V} (h : K → Z) eq a1 a2 (m m' : hashmap K V) k v old :
  hashmap__insert h eq a1 a2 m k v HASHMAP_ADD = Some (m', - EEXIST, old) → m' = m.
Proof.
  unfold hashmap__insert. rewrite decide_False by done.
  destruct (hashmap_find_entry _ _ _ _) as [[[i e]|]|]; cbn [mbind option_bind]; [by intros [=]| |done].
  destruct (hashmap_needs_to_grow m).
  - destruct (hashmap_grow h a1 m) as [[m1 err]|] eqn:Hg; cbn [mbind option_bind]; [|done].
    assert (err = 0 ∨ err = - ENOMEM) as [-> | ->].
    { unfold hashmap_grow in Hg. destruct (shl1 _); [|done]. cbn [mbind option_bind] in Hg.
      destruct a1; cbn [negb] in Hg; [|simplify_eq; auto]. destruct (hashmap_rehash _ _ _); [|done].
      cbn in Hg. simplify_eq; auto. }
    + cbn [Z.eqb negb]. destruct a2; cbn [negb]; [|by intros [=]].
      destruct (hm_buckets m1); [|done]. cbn [mbind option_bind]. by destruct (hashmap_add_entry _ _ _).
    + by intros [=].
  - cbn [mbind option_bind Z.eqb negb]. destruct a2; cbn [negb]; [|by intros [=]].
    destruct (hm_buckets m); [|done]. cbn [mbind option_bind]. by destruct (hashmap_add_entry _ _ _).
Qed.

(** Indexing the string put right behind the data. *)
Lemma index_add data hash ss s junk :
  Forall nonul ss → nonul s → data = strs_bytes ss ++ s ++ 0 :: junk → index_rel data hash ss →
  Z.of_nat (length ss) < 2 ^ 58 →
  let off := Z.of_nat (length (strs_bytes ss)) in
  (match str_off ss s with
   | Some o => hashmap__find (strset_hash_fn data) (strset_equal_fn data) hash off = Some (Some o)
   | None => hashmap__find (strset_hash_fn data) (strset_equal_fn data) hash off = Some None
   end) ∧
  ∃ hash', hashmap__insert (strset_hash_fn data) (strset_equal_fn data) true true hash off off HASHMAP_ADD =
      Some (hash', if str_off ss s then - EEXIST else 0, (λ o, (o, o)) <$> str_off ss s) ∧
    index_rel data hash' (ss ++ [s]) ∧ (s ∈ ss → index_rel data hash' ss).
Proof.
  intros HF Hs Hd Hidx Hlen off. pose proof (index_rel_cap_bits _ _ _ Hidx Hlen) as Hbits.
  destruct Hidx as [(l & Hrel & Hl) [Hcap Hsz]].
  pose proof (spec_find_off data ss l s junk HF Hs Hd Hl) as Hsf. fold off in Hsf.
  pose proof (hm_step_rel _ _ hash l (Find off) Hrel eq_refl Hbits) as Hfind.
  pose proof (hm_step_rel _ _ hash l (Insert true true off off HASHMAP_ADD) Hrel eq_refl Hbits) as Hins.
  cbn [spec_step hm_step] in Hfind, Hins.
  destruct (str_off ss s) as [o|] eqn:Ho.
  - destruct Hsf as [j Hsf]. rewrite Hsf in Hfind, Hins. split.
    + destruct Hfind as (m' & Hf & _). destruct (hashmap__find _ _ hash off) as [r|]; [|done]. cbn in Hf. by simplify_eq.
    + destruct Hins as (m' & Hf & Hrel' & Hcap' & Hsz').
      destruct (hashmap__insert _ _ true true hash off off HASHMAP_ADD) as [[[m1 r] old]|] eqn:Hi; [|done].
      cbn [mbind option_bind] in Hf. injection Hf as -> -> ->. exists m'. split; [done|].
      assert (m' = hash) as -> by by eapply insert_exists.
      assert (index_rel data hash ss) as H by (split; [by exists l|done]).
      split; [|done]. split; [exists l; split; [done|]|rewrite length_app; lia].
      intros o' v. rewrite Hl. split; intros [-> [t Ht]]; (split; [done|]); exists t; revert Ht; rewrite str_off_snoc.
      * by intros ->.
      * destruct (str_off ss t) eqn:Ht; [done|]. destruct (decide (s = t)); [|done]. congruence.
  - rewrite Hsf in Hfind, Hins. split.
    + destruct Hfind as (m' & Hf & _). destruct (hashmap__find _ _ hash off) as [r|]; [|done]. cbn in Hf.
      by destruct r; simplify_eq.
    + rewrite andb_false_r in Hins. cbn [orb negb] in Hins. destruct Hins as (m' & Hf & Hrel' & Hcap' & Hsz').
      destruct (hashmap__insert _ _ true true hash off off HASHMAP_ADD) as [[[m1 r] old]|]; [|done].
      cbn [mbind option_bind] in Hf. injection Hf as -> -> ->. exists m'. split; [done|]. split.
      * split; [exists ((off, off) :: l); split; [done|]|rewrite length_app; cbn; lia].
        intros o v. rewrite elem_of_cons, Hl. split.
        -- intros [[= -> ->]|[-> [t Ht]]]; (split; [done|]).
           ++ exists s. rewrite str_off_snoc, Ho. by rewrite decide_True.
           ++ exists t. by rewrite str_off_snoc, Ht.
        -- intros [-> [t Ht]]. rewrite str_off_snoc in Ht. destruct (str_off ss t) eqn:E.
           ++ simplify_eq. right. split; [done|]. by exists t.
           ++ destruct (decide (s = t)); [|done]. simplify_eq. by left.
      * intros Hin. by rewrite str_off_None in Ho.
Qed.

(** The index does not depend on what follows the stored strings. *)
Lemma index_rel_ext ss junk1 junk2 hash :
  Forall nonul ss → index_rel (strs_bytes ss ++ junk1) hash ss → index_rel (strs_bytes ss ++ junk2) hash ss.
Proof.
  intros HF [(l & Hrel & Hl) Ht]. split; [|done]. exists l. split; [|done].
  assert (∀ e, e ∈ l → cstr_at (strs_bytes ss ++ junk1) e.1 = cstr_at (strs_bytes ss ++ junk2) e.1) as Hc.
  { intros [o v] [-> [t Hto]]%Hl. cbn.
    destruct (str_off_cstr ss t o junk1 HF Hto) as [-> _], (str_off_cstr ss t o junk2 HF Hto) as [-> _]. done. }
  eapply hm_rel_ext; [done|..]; unfold strset_hash_fn, strset_equal_fn.
  - intros e He. by rewrite Hc.
  - intros e1 e2 H1 H2. by rewrite !Hc.
Qed.

(** Appending a string behind the data fails only beyond the limit. *)
Lemma strset_put_spec set ss s :
  strset_rel set ss → nonul s →
  if strs_data_len set + (Z.of_nat (length s) + 1) <=? strs_data_max_len set then
    ∃ set' junk, strset_put true set s = Some (inl set') ∧ strset_rel set' ss ∧
      strs_data set' = strs_bytes ss ++ s ++ 0 :: junk ∧ strs_data_max_len set' = strs_data_max_len set
  else Z.of_nat (length s) < 2 ^ 62 → strset_put true set s = Some (inr (- ENOMEM)).
Proof.
  intros [HF Hcap Hlen [junk Hdata] Hmax Hidx] Hs. unfold strset_put, strset_add_str_mem.
  assert (strs_data_len set ≤ strs_data_cap set) as Hlc.
  { rewrite Hdata, length_app in Hcap. lia. }
  unfold INT_MAX in Hmax. pose proof (Z.div_le_upper_bound (strs_data_cap set) 4 (2 ^ 31) ltac:(lia) ltac:(lia)) as Hd4.
  assert (Z.of_nat (length s) < 2 ^ 62 → if strs_data_len set + (Z.of_nat (length s) + 1) <=? strs_data_max_len set then
    ∃ data' cap', libbpf_add_mem true (strs_data set) (strs_data_cap set) 1 (strs_data_len set) (strs_data_max_len set)
      (Z.of_nat (length s) + 1) = Some (data', cap', strs_data_len set * 1) ∧
      Z.of_nat (length data') = cap' * 1 ∧ strs_data_cap set ≤ cap' ≤ strs_data_max_len set ∧
      strs_data_len set + (Z.of_nat (length s) + 1) ≤ cap' ∧
      data' = strs_data set ++ replicate (Z.to_nat ((cap' - strs_data_cap set) * 1)) 0
    else libbpf_add_mem true (strs_data set) (strs_data_cap set) 1 (strs_data_len set) (strs_data_max_len set)
      (Z.of_nat (length s) + 1) = None) as H.
  { intros Hs62. apply add_mem_spec; unfold SIZE_MAX; lia. }
  destruct (Z.leb_spec (strs_data_len set + (Z.of_nat (length s) + 1)) (strs_data_max_len set)) as [Hle|Hgt].
  - destruct (H ltac:(lia)) as (data' & cap' & -> & Hl' & Hc' & Hroom & Hd'). cbn [mbind option_bind].
    rewrite !Z.mul_1_r in *. cbn [strs_data strs_data_len strs_data_cap strs_data_max_len strs_hash].
    assert (∃ old junk', data' = strs_bytes ss ++ old ++ junk' ∧ length old = length (s ++ [0])) as (old & junk' & E & Hold).
    { exists (take (length (s ++ [0])) (drop (length (strs_bytes ss)) data')),
        (drop (length (s ++ [0])) (drop (length (strs_bytes ss)) data')).
      rewrite take_drop, length_take, length_drop. split.
      - rewrite Hd', Hdata, <- app_assoc. by rewrite drop_app_length.
      - rewrite length_app in *. cbn in *. lia. }
    rewrite E, (store_app_mid _ old junk') by (done || lia). cbn [mbind option_bind].
    eexists _, junk'. split; [reflexivity|]. rewrite <- app_assoc. split; [|done]. split; cbn.
    + done.
    + rewrite <- Hl', E, !length_app. rewrite length_app in Hold. cbn in *. lia.
    + done.
    + by eexists.
    + unfold INT_MAX. lia.
    + rewrite Hdata in Hidx. by eapply index_rel_ext.
  - intros Hs62. by rewrite (H Hs62).
Qed.

Lemma str_off_bound ss s o : str_off ss s = Some o → 0 ≤ o < Z.of_nat (length (strs_bytes ss)).
Proof.
  intros (a & b & -> & ->)%str_off_split. rewrite strs_bytes_app, length_app. cbn. rewrite !length_app. cbn. lia.
Qed.

Lemma strset_rel_small set ss : strset_rel set ss →
  Z.of_nat (length ss) < 2 ^ 58 ∧ Z.of_nat (length (strs_bytes ss)) < 2 ^ 31.
Proof.
  intros [_ Hcap _ [junk Hdata] Hmax _]. pose proof (length_strs_bytes ss).
  rewrite Hdata, length_app in Hcap. unfold INT_MAX in Hmax. lia.
Qed.

Lemma add_str_rel set ss s :
  strset_rel set ss → nonul s → strs_data_len set + (Z.of_nat (length s) + 1) ≤ strs_data_max_len set →
  ∃ set', strset__add_str (true, true, true) set s = Some (set', default (strs_data_len set) (str_off ss s)) ∧
    strset_rel set' (if decide (s ∈ ss) then ss else ss ++ [s]) ∧
    strs_data_max_len set' = strs_data_max_len set ∧
    strs_data_len set' ≤ strs_data_len set + (Z.of_nat (length s) + 1).
Proof.
  intros Hrel Hs Hroom. pose proof (strset_put_spec set ss s Hrel Hs) as Hput.
  destruct (Z.leb_spec (strs_data_len set + (Z.of_nat (length s) + 1)) (strs_data_max_len set)); [|lia].
  destruct Hput as (set1 & junk & Hp & Hrel1 & Hd1 & Hm1). unfold strset__add_str. rewrite Hp. cbn [mbind option_bind].
  destruct (strset_rel_small _ _ Hrel1) as [Hn Hb]. destruct Hrel1 as [HF Hcap Hlen Hdata Hmax Hidx].
  destruct (index_add _ _ _ _ _ HF Hs Hd1 Hidx Hn) as (_ & hash' & Hins & Hidx2 & Hidx1).
  rewrite Hlen, Hins. cbn [mbind option_bind]. pose proof (sr_len _ _ Hrel) as Hlen0.
  destruct (str_off ss s) as [o|] eqn:Ho.
  - rewrite Z.eqb_refl. eexists. split; [|split].
    + cbn. rewrite swrap_small; [done|lia|]. apply str_off_bound in Ho. lia.
    + rewrite decide_True by (destruct (decide (s ∈ ss)); [done|]; exfalso; apply str_off_None in n; congruence).
      split; cbn; try done. apply Hidx1. destruct (decide (s ∈ ss)); [done|]. exfalso. apply str_off_None in n. congruence.
    + cbn. rewrite Hlen0. split; [done|]. lia.
  - change (0 =? - EEXIST) with false. change (0 =? 0) with true. cbn [negb]. eexists. split; [|split].
    + cbn. rewrite swrap_small by lia. rewrite Hlen0. reflexivity.
    + apply str_off_None in Ho. rewrite decide_False by done.
      assert (Z.of_nat (length (strs_bytes (ss ++ [s]))) ≤ strs_data_cap set1) as Hfit.
      { rewrite <- Hcap, Hd1, strs_bytes_app, !length_app. cbn. rewrite !length_app. cbn. lia. }
      unfold INT_MAX in Hmax. split; cbn; try done.
      * apply Forall_app. by split; [|constructor].
      * rewrite strs_bytes_app, length_app in Hfit |- *. cbn in Hfit |- *. rewrite !length_app in Hfit |- *. cbn in Hfit |- *.
        rewrite wrap_small by (unfold in_u; lia). lia.
      * exists junk. rewrite Hd1, strs_bytes_app. cbn. by rewrite app_nil_r, <- !app_assoc.
    + cbn. split; [done|]. rewrite Hlen0. apply Z.mod_le; lia.
Qed.

Lemma strset_index_spec data a b fuel hash :
  Forall nonul (a ++ b) → data = strs_bytes (a ++ b) → (length b < fuel)%nat →
  Z.of_nat (length (a ++ b)) < 2 ^ 58 → index_rel data hash a →
  ∃ hash', strset_index fuel data (Z.of_nat (length data)) (Z.of_nat (length (strs_bytes a))) [] hash = Some (hash', 0) ∧
    index_rel data hash' (a ++ b).
Proof.
  revert a hash fuel. induction b as [|s b IH]; intros a hash fuel HF Hd Hfuel Hn Hidx.
  - destruct fuel as [|fuel]; [cbn in Hfuel; lia|]. cbn [strset_index]. rewrite app_nil_r in Hd |- *.
    subst data. rewrite Z.ltb_irrefl. by exists hash.
  - destruct fuel as [|fuel]; [lia|]. cbn [strset_index].
    assert (data = strs_bytes a ++ s ++ 0 :: strs_bytes b) as Hd'.
    { rewrite Hd, strs_bytes_app. cbn. by rewrite <- !app_assoc. }
    apply Forall_app in HF as HF'. destruct HF' as [HFa [Hs HFb]%Forall_cons].
    destruct (Z.ltb_spec (Z.of_nat (length (strs_bytes a))) (Z.of_nat (length data))).
    2: { rewrite Hd', !length_app in *. cbn in *. lia. }
    rewrite length_app in Hn. cbn in Hn.
    destruct (index_add data hash a s _ HFa Hs Hd' Hidx ltac:(lia)) as (_ & hash' & Hins & Hidx2 & _).
    cbn [hd]. rewrite Hins. cbn [mbind option_bind].
    assert (((if str_off a s then - EEXIST else 0) =? 0) || ((if str_off a s then - EEXIST else 0) =? - EEXIST) = true) as ->.
    { by destruct (str_off a s). }
    assert (strlen_at data (Z.of_nat (length (strs_bytes a))) = Some (Z.of_nat (length s))) as ->.
    { rewrite Hd'. by apply strlen_at_app. }
    cbn [mbind option_bind tl].
    replace (Z.of_nat (length (strs_bytes a)) + Z.of_nat (length s) + 1) with (Z.of_nat (length (strs_bytes (a ++ [s])))).
    2: { rewrite strs_bytes_app, length_app. cbn. rewrite !length_app. cbn. lia. }
    destruct (IH (a ++ [s]) hash' fuel) as (hash2 & Hi & Hidx3).
    + by rewrite <- app_assoc.
    + by rewrite <- app_assoc.
    + cbn in Hfuel. lia.
    + rewrite !length_app. cbn. lia.
    + done.
    + rewrite <- app_assoc in Hidx3. by exists hash2.
Qed.

Lemma strset_new_rel max ss :
  Forall nonul ss → Z.of_nat (length (strs_bytes ss)) ≤ max ≤ INT_MAX →
  ∃ set, strset__new (true, true, true) [] max (Some (strs_bytes ss)) = Some (inl set) ∧
    strset_rel set ss ∧ strs_data_max_len set = max.
Proof.
  intros HF Hmax. unfold strset__new. cbn [negb hashmap__new]. pose proof (length_strs_bytes ss) as Hl. unfold INT_MAX in Hmax.
  destruct (strset_index_spec (strs_bytes ss) [] ss (S (length (strs_bytes ss))) hashmap__init HF eq_refl ltac:(lia))
    as (hash & Hi & Hidx); [cbn; lia| |].
  { split; [|cbn; lia]. exists []. split; [apply hashmap_init_rel|]. intros o v. split; [set_solver|]. by intros [_ [s [=]]]. }
  change (Z.of_nat (length (strs_bytes []))) with 0 in Hi. rewrite Hi. cbn [mbind option_bind Z.eqb].
  eexists. split; [reflexivity|]. split; [|done]. split; cbn; try done.
  exists []. by rewrite app_nil_r.
Qed.

Lemma strset_empty_rel max : 0 ≤ max ≤ INT_MAX → strset_rel (mkStrset [] 0 0 max hashmap__init) [].
Proof.
  intros Hmax. split; cbn; try done.
  - by exists [].
  - split; [|done]. exists []. split; [apply hashmap_init_rel|]. intros o v. split; [set_solver|]. by intros [_ [s [=]]].
Qed.

(** * Properties *)

(** [strset__find_str] and [strset__add_str] on a set that holds the strings [ss]
    (possibly with repetitions): a known string is found at its first occurrence, an
    unknown one is appended, and beyond the size limit both fail with [-ENOMEM]
    leaving the set alone. *)
Theorem strset_find_add set ss s :
  strset_rel set ss → nonul s → Z.of_nat (length s) < 2 ^ 62 →
  if strs_data_len set + (Z.of_nat (length s) + 1) <=? strs_data_max_len set then
    (∃ set', strset__find_str true set s = Some (set', default (- ENOENT) (str_off ss s)) ∧ strset_rel set' ss) ∧
    (∃ set', strset__add_str (true, true, true) set s = Some (set', default (strs_data_len set) (str_off ss s)) ∧
       strset_rel set' (if decide (s ∈ ss) then ss else ss ++ [s]))
  else strset__find_str true set s = Some (set, - ENOMEM) ∧
       strset__add_str (true, true, true) set s = Some (set, - ENOMEM).
Proof.
  intros Hrel Hs Hlen. pose proof (strset_put_spec set ss s Hrel Hs) as Hput.
  destruct (Z.leb_spec (strs_data_len set + (Z.of_nat (length s) + 1)) (strs_data_max_len set)) as [Hle|Hgt].
  - split; [|destruct (add_str_rel set ss s Hrel Hs Hle) as (set' & H1 & H2 & _); by exists set'].
    destruct Hput as (set1 & junk & Hp & Hrel1 & Hd1 & Hm1). exists set1. split; [|done].
    unfold strset__find_str. rewrite Hp. cbn [mbind option_bind].
    destruct (strset_rel_small _ _ Hrel1) as [Hn Hb]. pose proof (sr_len _ _ Hrel1) as Hlen1.
    destruct (index_add _ _ _ _ _ (sr_nonul _ _ Hrel1) Hs Hd1 (sr_index _ _ Hrel1) Hn) as (Hfind & _).
    rewrite Hlen1. destruct (str_off ss s) as [o|] eqn:Ho; rewrite Hfind; cbn [mbind option_bind default]; [|done].
    rewrite swrap_small; [done|lia|]. apply str_off_bound in Ho. lia.
  - unfold strset__find_str, strset__add_str. by rewrite (Hput Hlen).
Qed.

(** C30. Interning: strings added one after the other to a new set (empty or made from
    initial data) get offsets at which they can be read back from the data, and two
    strings get the same offset exactly when they are equal. *)
Theorem strset_interns max init ss :
  Forall nonul init → Forall nonul ss →
  Z.of_nat (length (strs_bytes (init ++ ss))) ≤ max ≤ INT_MAX →
  ∃ set0 set offs, strset__new (true, true, true) [] max (Some (strs_bytes init)) = Some (inl set0) ∧
    strset_add_all set0 ss = Some (set, offs) ∧ length offs = length ss ∧
    (∀ i s o, ss !! i = Some s → offs !! i = Some o → cstr_at (strset__data set) o = s) ∧
    (∀ i j s t o p, ss !! i = Some s → ss !! j = Some t → offs !! i = Some o → offs !! j = Some p →
       o = p ↔ s = t).
Proof.
  intros HFi HF Hmax. rewrite strs_bytes_app, length_app in Hmax.
  destruct (strset_new_rel max init HFi ltac:(lia)) as (set0 & Hnew & Hrel0 & Hm0).
  assert (∀ set ss0, strset_rel set ss0 → strs_data_len set + Z.of_nat (length (strs_bytes ss)) ≤ strs_data_max_len set →
    ∃ set' ss', strset_add_all set ss = Some (set', map (λ s, default 0 (str_off ss' s)) ss) ∧ strset_rel set' ss' ∧
      (∀ s, s ∈ ss → s ∈ ss') ∧ (∀ s o, str_off ss0 s = Some o → str_off ss' s = Some o)) as H.
  { clear - HF. induction HF as [|s ss Hs _ IH]; intros set ss0 Hrel Hroom.
    - exists set, ss0. split_and!; [done|done|set_solver|done].
    - cbn in Hroom. fold (strs_bytes ss) in Hroom. rewrite !length_app in Hroom. cbn in Hroom.
      destruct (add_str_rel set ss0 s Hrel Hs ltac:(lia)) as (set1 & Hadd & Hrel1 & Hm1 & Hl1).
      destruct (IH set1 _ Hrel1 ltac:(lia)) as (set2 & ss2 & Hall & Hrel2 & Hin & Hmono).
      assert (str_off ss2 s = Some (default (strs_data_len set) (str_off ss0 s))) as Hoff.
      { apply Hmono. destruct (decide (s ∈ ss0)) as [Hin0|Hin0].
        - destruct (str_off ss0 s) as [o|] eqn:E; [done|]. by apply str_off_None in E.
        - rewrite str_off_snoc. apply str_off_None in Hin0. rewrite Hin0, decide_True by done.
          by rewrite (sr_len _ _ Hrel). }
      exists set2, ss2. split_and!; [|done| |].
      + cbn [strset_add_all]. rewrite Hadd. cbn [mbind option_bind]. rewrite Hall. cbn [mbind option_bind map]. by rewrite Hoff.
      + intros t [->|Ht]%elem_of_cons; [|by apply Hin]. destruct (decide (s ∈ ss2)) as [|Ht]; [done|].
        apply str_off_None in Ht. congruence.
      + intros t o Ho. apply Hmono. destruct (decide (s ∈ ss0)); [done|]. by rewrite str_off_snoc, Ho. }
  destruct (H set0 init Hrel0) as (set & ss' & Hall & Hrel & Hin & _).
  { rewrite Hm0, (sr_len _ _ Hrel0). lia. }
  assert (∀ i s o, ss !! i = Some s → map (λ s, default 0 (str_off ss' s)) ss !! i = Some o → str_off ss' s = Some o) as Hoffs.
  { intros i s o Hi. rewrite list_lookup_fmap, Hi. intros [= <-]. destruct (str_off ss' s) eqn:E; [done|].
    apply str_off_None in E. destruct E. apply Hin. by eapply list_elem_of_lookup_2. }
  exists set0, set, (map (λ s, default 0 (str_off ss' s)) ss). split_and!; [done|done|by rewrite length_map| |].
  - intros i s o Hi Ho. apply (Hoffs i s o Hi) in Ho. destruct (sr_data _ _ Hrel) as [junk Hd].
    unfold strset__data. rewrite Hd. by apply str_off_cstr; [apply (sr_nonul _ _ Hrel)|].
  - intros i j s t o p Hi Hj Ho Hp. apply (Hoffs i s o Hi) in Ho. apply (Hoffs j t p Hj) in Hp. split.
    + intros ->. by eapply str_off_inj; [apply (sr_nonul _ _ Hrel)|..].
    + intros ->. congruence.
Qed.

Lemma strset_find_add_witness :
  let set := mkStrset [] 0 0 100 hashmap__init in
  ∃ set', strset__add_str (true, true, true) set [104; 105] = Some (set', 0) ∧ strset_rel set' [[104; 105]].
Proof.
  pose proof (strset_find_add (mkStrset [] 0 0 100 hashmap__init) [] [104; 105]
    (strset_empty_rel 100 ltac:(split; vm_compute; congruence)) ltac:(repeat constructor; done) eq_refl) as H.
  exact (proj2 H).
Defined.

Lemma strset_interns_witness :
  ∃ set0 set offs, strset__new (true, true, true) [] 100 (Some [0]) = Some (inl set0) ∧
    strset_add_all set0 [[104]; [105]; [104]] = Some (set, offs) ∧ length offs = 3%nat.
Proof.
  destruct (strset_interns 100 [[]] [[104]; [105]; [104]] ltac:(repeat constructor) ltac:(repeat constructor; done)
    ltac:(split; vm_compute; congruence)) as (set0 & set & offs & H1 & H2 & H3 & _).
  exists set0, set, offs. split; [exact H1|]. split; [exact H2|exact H3].
Defined.
