(* ===== verification/RingBuf.v ===== *)
(** The ring buffer consumer of libbpf (src/libbpf/src/ringbuf.c).

    One [Section] models [ringbuf_process_ring] as a machine whose every step makes
    at most one access to the memory shared with the producer (the kernel): the
    acquire loads of the two positions and of a record's length, and the release
    store of the consumer position.  The function itself iterates the machine; the
    interleaving theorem runs it against any producer that keeps the protocol.
    The manager of several rings is in RingMgr.v. *)
From stdpp Require Import base list.
From Stdlib Require Import ZArith Lia.
From S2P Require Import Prelude Bytes Mem.

#[local] Open Scope Z_scope.

Definition BPF_RINGBUF_BUSY_BIT : Z := 2 ^ 31.
Definition BPF_RINGBUF_DISCARD_BIT : Z := 2 ^ 30.
Definition BPF_RINGBUF_HDR_SZ : Z := 8.

(** [__u32] arithmetic, the result converted to [int]. *)
Definition roundup_len (len : Z) : Z :=
  let len := u32 (Z.shiftl len 2) in
  let len := Z.shiftr len 2 in
  let len := u32 (len + BPF_RINGBUF_HDR_SZ) in
  s32 (u32 (u32 (len + 7) / 8 * 8)).

(** What the consumer shares with the producer: the two positions and the data area,
    mapped twice in a row. *)
Record ring_mem := mkMem { rm_cons : Z; rm_prod : Z; rm_data : list Z }.

Inductive ring_pc :=
  | PcLoadCons                      (* before the first load *)
  | PcLoadProd                      (* top of the do loop *)
  | PcWhile                         (* test of the while loop *)
  | PcStore (ret : option Z)        (* before a release store, then return or loop *)
  | PcDone (ret : Z).

Section process.
Context {W : Type} (mask : Z) (sample_cb : W → list Z → W * Z).

(** The locals of [ringbuf_process_ring] and the world the callback acts on. *)
Record ring_local := mkLocal {
  rl_pc : ring_pc;
  rl_cons : Z;
  rl_prod : Z;
  rl_got : bool;
  rl_cnt : Z;
  rl_world : W;
}.

Definition ring_start (w : W) : ring_local := mkLocal PcLoadCons 0 0 false 0 w.

(** One record: the length is loaded; a busy record ends the call, otherwise the
    local position moves behind it and a sample is handed to the callback. *)
Definition ring_record (mem : ring_mem) (s : ring_local) : option ring_local :=
  let ptr := Z.land (rl_cons s) mask in
  len ← load32 (rm_data mem) ptr;
  if negb (Z.land len BPF_RINGBUF_BUSY_BIT =? 0) then
    Some (mkLocal (PcDone (rl_cnt s)) (rl_cons s) (rl_prod s) (rl_got s) (rl_cnt s) (rl_world s))
  else
    let cons_pos := u64 (rl_cons s + roundup_len len) in
    if Z.land len BPF_RINGBUF_DISCARD_BIT =? 0 then
      sample ← slice (rm_data mem) (ptr + BPF_RINGBUF_HDR_SZ) (Z.to_nat len);
      let '(w, err) := sample_cb (rl_world s) sample in
      if err <? 0 then Some (mkLocal (PcStore (Some err)) cons_pos (rl_prod s) true (rl_cnt s) w)
      else Some (mkLocal (PcStore None) cons_pos (rl_prod s) true (s64 (rl_cnt s + 1)) w)
    else Some (mkLocal (PcStore None) cons_pos (rl_prod s) true (rl_cnt s) (rl_world s)).

Definition ring_step (mem : ring_mem) (s : ring_local) : option (ring_mem * ring_local) :=
  match rl_pc s with
  | PcLoadCons =>
      Some (mem, mkLocal PcLoadProd (rm_cons mem) (rl_prod s) (rl_got s) (rl_cnt s) (rl_world s))
  | PcLoadProd =>
      Some (mem, mkLocal PcWhile (rl_cons s) (rm_prod mem) false (rl_cnt s) (rl_world s))
  | PcWhile =>
      if rl_cons s <? rl_prod s then s ← ring_record mem s; Some (mem, s)
      else
        Some (mem, mkLocal (if rl_got s then PcLoadProd else PcDone (rl_cnt s))
                     (rl_cons s) (rl_prod s) (rl_got s) (rl_cnt s) (rl_world s))
  | PcStore ret =>
      Some (mkMem (rl_cons s) (rm_prod mem) (rm_data mem),
            mkLocal (match ret with Some err => PcDone err | None => PcWhile end)
              (rl_cons s) (rl_prod s) (rl_got s) (rl_cnt s) (rl_world s))
  | PcDone _ => Some (mem, s)
  end.

Fixpoint ring_iter (fuel : nat) (mem : ring_mem) (s : ring_local) : option (ring_mem * W * Z) :=
  match rl_pc s with
  | PcDone ret => Some (mem, rl_world s, ret)
  | _ =>
      match fuel with
      | O => None
      | S fuel => '(mem, s) ← ring_step mem s; ring_iter fuel mem s
      end
  end.

(** Without interference.  [None]: out of fuel, or a load outside the data area. *)
Definition ringbuf_process_ring (fuel : nat) (mem : ring_mem) (w : W) : option (ring_mem * W * Z) :=
  ring_iter fuel mem (ring_start w).

(** * The protocol: a log of records *)

Inductive ring_rec :=
  | RBusy (len : Z)                 (* reserved, not committed *)
  | RSample (data : list Z)         (* committed *)
  | RDiscard (len : Z).             (* discarded *)

Definition rec_len (r : ring_rec) : Z :=
  match r with RBusy len | RDiscard len => len | RSample data => Z.of_nat (length data) end.

Definition rec_size (r : ring_rec) : Z := (rec_len r + BPF_RINGBUF_HDR_SZ + 7) / 8 * 8.

Definition rec_busy (r : ring_rec) : bool := match r with RBusy _ => true | _ => false end.

Definition rec_hdr (r : ring_rec) : Z :=
  rec_len r + match r with
              | RBusy _ => BPF_RINGBUF_BUSY_BIT
              | RSample _ => 0
              | RDiscard _ => BPF_RINGBUF_DISCARD_BIT
              end.

(** The position of the [i]-th record. *)
Definition log_pos (log : list ring_rec) (i : nat) : Z := foldr (λ r p, rec_size r + p) 0 (take i log).

Definition samples (log : list ring_rec) : list (list Z) :=
  flat_map (λ r, match r with RSample data => [data] | _ => [] end) log.

(** The record at position [p] of the data area. *)
Definition rec_at (mem : ring_mem) (p : Z) (r : ring_rec) : Prop :=
  load32 (rm_data mem) (Z.land p mask) = Some (rec_hdr r) ∧
  match r with
  | RSample data => slice (rm_data mem) (Z.land p mask + BPF_RINGBUF_HDR_SZ) (length data) = Some data
  | _ => True
  end.

(** The memory holds the log, of which the first [k] records are consumed. *)
Record ring_ok (mem : ring_mem) (log : list ring_rec) (k : nat) : Prop := {
  ro_k : (k ≤ length log)%nat;
  ro_cons : rm_cons mem = log_pos log k;
  ro_prod : rm_prod mem = log_pos log (length log);
  ro_max : log_pos log (length log) < 2 ^ 63;
  ro_lens : Forall (λ r, 0 ≤ rec_len r < 2 ^ 30) log;
  ro_done : Forall (λ r, rec_busy r = false) (take k log);
  ro_recs : ∀ i r, (k ≤ i)%nat → log !! i = Some r → rec_at mem (log_pos log i) r;
}.

(** Committing or discarding a reserved record keeps its length. *)
Definition rec_ext (r r' : ring_rec) : Prop :=
  r = r' ∨ (rec_busy r = true ∧ rec_len r = rec_len r').

Definition log_ext (log log' : list ring_rec) : Prop :=
  ∃ l1 l2, log' = l1 ++ l2 ∧ Forall2 rec_ext log l1.

(** A producer step: any change of the memory that keeps the protocol, whatever the
    consumer has already released. *)
Definition producer_step (mem mem' : ring_mem) : Prop :=
  ∀ log k, ring_ok mem log k → ∃ log', log_ext log log' ∧ ring_ok mem' log' k.

(** Consumer and producer interleaved. *)
Inductive ring_reach : ring_mem * ring_local → ring_mem * ring_local → Prop :=
  | reach_refl c : ring_reach c c
  | reach_consumer c mem s mem' s' :
      ring_reach c (mem, s) → ring_step mem s = Some (mem', s') → ring_reach c (mem', s')
  | reach_producer c mem s mem' :
      ring_reach c (mem, s) → producer_step mem mem' → ring_reach c (mem', s).
End process.
Arguments ring_local : clear implicits.
Arguments ring_reach {W}.

(** * Specification of the callbacks *)

(** The callback called on the samples in order, up to the first error. *)
Fixpoint run_cb {W} (sample_cb : W → list Z → W * Z) (w : W) (ds : list (list Z)) : W * option Z :=
  match ds with
  | [] => (w, None)
  | d :: ds => let '(w, err) := sample_cb w d in if err <? 0 then (w, Some err) else run_cb sample_cb w ds
  end.

(** * Lemmas *)

Lemma testbit_top x n : 0 ≤ n → 0 ≤ x < 2 ^ (n + 1) → Z.testbit x n = (2 ^ n <=? x).
Proof.
  intros Hn Hx. rewrite Z.testbit_odd, Z.shiftr_div_pow2 by done.
  rewrite Z.pow_add_r in Hx by lia. pose proof (pow2_pos n Hn).
  destruct (Z.leb_spec (2 ^ n) x).
  - assert (x / 2 ^ n = 1) as ->; [|done]. symmetry. apply Z.div_unique with (x - 2 ^ n); lia.
  - by rewrite Z.div_small by lia.
Qed.

Lemma rec_size_pos r : 0 ≤ rec_len r → 8 ≤ rec_size r ≤ rec_len r + 15.
Proof.
  intros H. unfold rec_size, BPF_RINGBUF_HDR_SZ.
  pose proof (Z.div_mod (rec_len r + 8 + 7) 8 ltac:(lia)). pose proof (Z.mod_pos_bound (rec_len r + 8 + 7) 8 ltac:(lia)). lia.
Qed.

(** Decoding a header. *)
Lemma rec_hdr_spec r :
  0 ≤ rec_len r < 2 ^ 30 →
  (Z.land (rec_hdr r) BPF_RINGBUF_BUSY_BIT =? 0) = negb (rec_busy r) ∧
  roundup_len (rec_hdr r) = rec_size r ∧
  (rec_busy r = false → (Z.land (rec_hdr r) BPF_RINGBUF_DISCARD_BIT =? 0) = match r with RSample _ => true | _ => false end).
Proof.
  intros Hl.
  assert (0 ≤ rec_hdr r < 2 ^ 32) as Hh.
  { unfold rec_hdr, BPF_RINGBUF_BUSY_BIT, BPF_RINGBUF_DISCARD_BIT. destruct r; lia. }
  assert (rec_hdr r `mod` 2 ^ 30 = rec_len r) as Hmod.
  { unfold rec_hdr, BPF_RINGBUF_BUSY_BIT, BPF_RINGBUF_DISCARD_BIT. destruct r; cbn [rec_len] in *.
    - symmetry. apply Z.mod_unique with 2; lia.
    - rewrite Z.add_0_r. apply Z.mod_small. lia.
    - symmetry. apply Z.mod_unique with 1; lia. }
  assert (∀ n, 0 ≤ n → (Z.land (rec_hdr r) (2 ^ n) =? 0) = negb (Z.testbit (rec_hdr r) n)) as Hbit.
  { intros n Hn. rewrite <- has_bit_testbit by done. unfold has_bit. by rewrite negb_involutive. }
  split_and!.
  - unfold BPF_RINGBUF_BUSY_BIT. rewrite Hbit, testbit_top by (done || lia). f_equal.
    unfold rec_hdr, BPF_RINGBUF_BUSY_BIT, BPF_RINGBUF_DISCARD_BIT. destruct r; cbn [rec_len rec_busy] in *;
      match goal with |- context [?a <=? ?b] => destruct (Z.leb_spec a b) end; done || lia.
  - unfold roundup_len, rec_size, BPF_RINGBUF_HDR_SZ.
    rewrite Z.shiftl_mul_pow2, Z.shiftr_div_pow2 by lia. unfold wrap at 4.
    change (2 ^ 32) with (2 ^ 30 * 2 ^ 2) at 1. rewrite Z.mul_mod_distr_r, Z.div_mul, Hmod by lia.
    pose proof (Z.div_mod (rec_len r + 8 + 7) 8 ltac:(lia)). pose proof (Z.mod_pos_bound (rec_len r + 8 + 7) 8 ltac:(lia)).
    rewrite (wrap_small 32 (rec_len r + 8)) by (unfold in_u; lia).
    rewrite (wrap_small 32 (rec_len r + 8 + 7)) by (unfold in_u; lia).
    rewrite wrap_small by (unfold in_u; lia). apply swrap_small; lia.
  - intros Hb. unfold BPF_RINGBUF_DISCARD_BIT. rewrite Hbit by lia.
    unfold rec_hdr, BPF_RINGBUF_BUSY_BIT, BPF_RINGBUF_DISCARD_BIT in *. destruct r; cbn [rec_len rec_busy] in *; try done;
      rewrite testbit_top by (done || lia);
      match goal with |- context [?a <=? ?b] => destruct (Z.leb_spec a b) end; done || lia.
Qed.

Lemma log_pos_S log i r : log !! i = Some r → log_pos log (S i) = log_pos log i + rec_size r.
Proof.
  intros Hi. unfold log_pos. rewrite (take_S_r _ _ r Hi), foldr_app. cbn. generalize (take i log). clear.
  intros l. induction l as [|x l IH]; cbn; lia.
Qed.

Lemma rec_ext_size r r' : rec_ext r r' → rec_size r = rec_size r'.
Proof. intros [->|[_ H]]; [done|]. unfold rec_size. by rewrite H. Qed.

Lemma log_ext_refl log : log_ext log log.
Proof. exists log, []. split; [by rewrite app_nil_r|]. apply Forall2_same_length_lookup_2; [done|]. intros i x y Hx Hy. left. congruence. Qed.

Lemma log_ext_length log log' : log_ext log log' → (length log ≤ length log')%nat.
Proof. intros (l1 & l2 & -> & H). rewrite length_app, (Forall2_length _ _ _ H). lia. Qed.

Lemma log_ext_pos log log' i : log_ext log log' → (i ≤ length log)%nat → log_pos log' i = log_pos log i.
Proof.
  intros (l1 & l2 & -> & H) Hi. unfold log_pos. rewrite take_app_le by (rewrite <- (Forall2_length _ _ _ H); done).
  clear Hi. revert i. induction H as [|r r' log l1 Hr _ IH]; intros [|i]; cbn; try done.
  rewrite IH. by rewrite (rec_ext_size _ _ Hr).
Qed.

(** Records that are not busy do not change any more. *)
Lemma log_ext_take log log' n :
  log_ext log log' → (n ≤ length log)%nat → Forall (λ r, rec_busy r = false) (take n log) → take n log' = take n log.
Proof.
  intros (l1 & l2 & -> & H) Hn HF. rewrite take_app_le by (rewrite <- (Forall2_length _ _ _ H); done).
  clear Hn. revert n HF. induction H as [|r r' log l1 Hr _ IH]; intros [|n] HF; cbn in *; try done.
  apply Forall_cons in HF as [Hb HF]. rewrite IH by done. destruct Hr as [->|[Hb' _]]; [done|congruence].
Qed.

Lemma log_ext_trans l1 l2 l3 : log_ext l1 l2 → log_ext l2 l3 → log_ext l1 l3.
Proof.
  intros (a & b & -> & H1) (c & d & -> & H2). apply Forall2_app_inv_l in H2 as (c1 & c2 & Hc1 & Hc2 & ->).
  exists c1, (c2 ++ d). split; [by rewrite app_assoc|]. clear Hc2. revert c1 Hc1.
  induction H1 as [|x y l1 a Hxy _ IH]; intros c1 Hc; inversion Hc as [|y' z a' c' Hyz Hc' E1 E2]; subst; constructor; [|by apply IH].
  destruct Hxy as [->|[Hb Hl]]; [done|]. right. split; [done|]. destruct Hyz as [<-|[_ Hl']]; congruence.
Qed.

Lemma run_cb_snoc {W} cb (w : W) ds d :
  run_cb cb w (ds ++ [d]) =
  match run_cb cb w ds with
  | (w', None) => let '(w'', err) := cb w' d in if err <? 0 then (w'', Some err) else (w'', None)
  | r => r
  end.
Proof.
  revert w. induction ds as [|x ds IH]; intros w; cbn; [done|].
  destruct (cb w x) as [w1 err]. destruct (err <? 0); [done|]. apply IH.
Qed.

Lemma run_cb_err {W} cb (w w' : W) ds err : run_cb cb w ds = (w', Some err) → err < 0.
Proof.
  revert w. induction ds as [|d ds IH]; intros w; cbn; [done|].
  destruct (cb w d) as [w1 e]. destruct (Z.ltb_spec e 0); [|apply IH]. by intros [= <- <-].
Qed.

Lemma log_pos_mono log i j :
  Forall (λ r, 0 ≤ rec_len r < 2 ^ 30) log → (i ≤ j)%nat → (j ≤ length log)%nat →
  log_pos log i + 8 * Z.of_nat (j - i) ≤ log_pos log j.
Proof.
  intros HF Hij Hj. induction Hij as [|j Hij IH]; [lia|].
  destruct (lookup_lt_is_Some_2 log j ltac:(lia)) as [r Hr]. rewrite (log_pos_S _ _ _ Hr).
  rewrite Forall_lookup in HF. specialize (HF _ _ Hr). pose proof (rec_size_pos r ltac:(lia)).
  specialize (IH ltac:(lia)). lia.
Qed.

Section process_lemmas.
Context {W : Type} (mask : Z) (sample_cb : W → list Z → W * Z) (k0 : nat) (w0 : W).

(** The samples of the records from [k0] to [n]. *)
Definition taken (log : list ring_rec) (n : nat) : list (list Z) := samples (drop k0 (take n log)).

(** The machine in state [s], having read the records up to [n] of the log. *)
Definition pc_ok (log : list ring_rec) (k n : nat) (s : ring_local W) : Prop :=
  let ds := taken log n in
  let ok := run_cb sample_cb w0 ds = (rl_world s, None) ∧ rl_cnt s = Z.of_nat (length ds) in
  match rl_pc s with
  | PcLoadCons | PcLoadProd | PcWhile => n = k ∧ ok
  | PcStore None => ok
  | PcStore (Some err) => run_cb sample_cb w0 ds = (rl_world s, Some err)
  | PcDone ret => n = k ∧ ((ok ∧ ret = Z.of_nat (length ds)) ∨ run_cb sample_cb w0 ds = (rl_world s, Some ret))
  end.

Record ring_inv (log : list ring_rec) (k n : nat) (mem : ring_mem) (s : ring_local W) : Prop := {
  inv_ok : ring_ok mask mem log k;
  inv_n : (k0 ≤ n)%nat ∧ (k ≤ n)%nat ∧ (n ≤ length log)%nat;
  inv_done : Forall (λ r, rec_busy r = false) (take n log);
  inv_cons : rl_pc s ≠ PcLoadCons → rl_cons s = log_pos log n;
  inv_prod : rl_pc s = PcWhile → ∃ p, (p ≤ length log)%nat ∧ rl_prod s = log_pos log p;
  inv_prod_st : ∀ r, rl_pc s = PcStore r → ∃ p, (p ≤ length log)%nat ∧ rl_prod s = log_pos log p;
  inv_pc : pc_ok log k n s;
}.

Lemma ring_inv_producer log k n mem mem' s :
  ring_inv log k n mem s → producer_step mask mem mem' →
  ∃ log', log_ext log log' ∧ ring_inv log' k n mem' s.
Proof.
  intros [Hok Hn Hd Hc Hp Hps Hpc] Hstep. destruct (Hstep _ _ Hok) as (log' & Hext & Hok').
  pose proof (log_ext_length _ _ Hext). pose proof (log_ext_take _ _ n Hext ltac:(lia) Hd) as Ht.
  exists log'. split; [done|]. split; try done.
  - lia.
  - by rewrite Ht.
  - intros E. by rewrite (log_ext_pos _ _ _ Hext) by lia; apply Hc.
  - intros E. destruct (Hp E) as (p & Hpl & ->). exists p. rewrite (log_ext_pos _ _ _ Hext) by done. split; [lia|done].
  - intros r E. destruct (Hps r E) as (p & Hpl & ->). exists p. rewrite (log_ext_pos _ _ _ Hext) by done. split; [lia|done].
  - unfold pc_ok, taken in *. by rewrite Ht.
Qed.

Lemma taken_S log n r :
  (k0 ≤ n)%nat → log !! n = Some r →
  taken log (S n) = taken log n ++ match r with RSample d => [d] | _ => [] end.
Proof.
  intros Hk Hr. unfold taken, samples. rewrite (take_S_r _ _ r Hr), drop_app_le, flat_map_app.
  - cbn. by rewrite app_nil_r.
  - rewrite length_take. apply lookup_lt_Some in Hr. lia.
Qed.

(** Reading the record at the local position. *)
Lemma ring_record_inv log k mem s r :
  ring_inv log k k mem s → rl_pc s = PcWhile → log !! k = Some r →
  ∃ s', ring_record mask sample_cb mem s = Some s' ∧
    if rec_busy r then ring_inv log k k mem s' else ring_inv log k (S k) mem s'.
Proof.
  intros [Hok Hn Hd Hc Hp Hps Hpc] Epc Hr. specialize (Hc ltac:(congruence)). specialize (Hp Epc).
  unfold pc_ok in Hpc. rewrite Epc in Hpc. destruct Hpc as (_ & Hrun & Hcnt).
  destruct (ro_recs _ _ _ _ Hok k r ltac:(lia) Hr) as (Hload & Hsl).
  pose proof (ro_lens _ _ _ _ Hok) as Hlens. pose proof (proj1 (Forall_lookup _ _) Hlens k r Hr) as Hlen.
  destruct (rec_hdr_spec r Hlen) as (Hbusy & Hround & Hdisc).
  apply lookup_lt_Some in Hr as Hkl. pose proof (log_pos_mono log 0 (length log) Hlens ltac:(lia) ltac:(lia)) as H0.
  pose proof (log_pos_mono log (S k) (length log) Hlens ltac:(lia) ltac:(lia)) as HS.
  pose proof (log_pos_mono log 0 (S k) Hlens ltac:(lia) ltac:(lia)) as HS0.
  pose proof (ro_max _ _ _ _ Hok) as Hmax. change (log_pos log 0) with 0 in *.
  unfold ring_record. rewrite Hc, Hload. cbn [mbind option_bind]. rewrite Hbusy, negb_involutive.
  destruct (rec_busy r) eqn:Eb.
  - eexists. split; [reflexivity|]. split; cbn; try done. unfold pc_ok. cbn. split; [done|]. by left.
  - rewrite Hround, <- (log_pos_S _ _ _ Hr), (wrap_small 64) by (unfold in_u; lia). rewrite Hdisc by done.
    assert (Forall (λ r, rec_busy r = false) (take (S k) log)) as Hd'.
    { rewrite (take_S_r _ _ r Hr). apply Forall_app. split; [done|]. by constructor. }
    assert (Z.of_nat (length (taken log k)) ≤ Z.of_nat k) as Hcount.
    { unfold taken, samples. transitivity (Z.of_nat (length (drop k0 (take k log)))).
      - generalize (drop k0 (take k log)). intros l. induction l as [|x l IH]; cbn; [done|]. rewrite length_app. destruct x; cbn; lia.
      - rewrite length_drop, length_take. lia. }
    pose proof (taken_S log k r ltac:(lia) Hr) as Htk.
    destruct r as [len|d|len]; [done| |].
    + unfold rec_hdr. cbn [rec_len]. rewrite Z.add_0_r, Nat2Z.id, Hsl. cbn [mbind option_bind].
      pose proof (run_cb_snoc sample_cb w0 (taken log k) d) as Hsnoc. rewrite Hrun in Hsnoc. rewrite <- Htk in Hsnoc.
      destruct (sample_cb (rl_world s) d) as [w' err]. destruct (Z.ltb_spec err 0).
      * eexists. split; [reflexivity|]. split; cbn; try done. lia.
      * eexists. split; [reflexivity|]. split; cbn; try done; try lia. unfold pc_ok. cbn. split; [done|].
        rewrite Hcnt, Htk, length_app, swrap_small by (cbn; lia). cbn. lia.
    + eexists. split; [reflexivity|]. rewrite app_nil_r in Htk. split; cbn; try done; try lia. unfold pc_ok. cbn. by rewrite Htk.
Qed.

Lemma ring_record_pc mem s s' :
  ring_record mask sample_cb mem s = Some s' →
  rl_prod s' = rl_prod s ∧ match rl_pc s' with PcStore _ | PcDone _ => True | _ => False end.
Proof.
  unfold ring_record. destruct (load32 _ _) as [len|]; [|done]. cbn [mbind option_bind].
  destruct (negb _); [by intros [= <-]|]. destruct (_ =? 0); [|by intros [= <-]].
  destruct (slice _ _ _) as [d|]; [|done]. cbn [mbind option_bind].
  destruct (sample_cb _ d) as [w err]. by destruct (err <? 0); intros [= <-].
Qed.

Lemma ring_record_busy log k mem s r s' :
  ring_ok mask mem log k → rl_cons s = log_pos log k → log !! k = Some r → rec_busy r = true →
  ring_record mask sample_cb mem s = Some s' → match rl_pc s' with PcDone _ => True | _ => False end.
Proof.
  intros Hok Hc Hr Hb. destruct (ro_recs _ _ _ _ Hok k r ltac:(done) Hr) as [Hload _].
  pose proof (proj1 (Forall_lookup _ _) (ro_lens _ _ _ _ Hok) k r Hr) as Hlen.
  destruct (rec_hdr_spec r Hlen) as (Hbusy & _). unfold ring_record. rewrite Hc, Hload. cbn [mbind option_bind].
  rewrite Hbusy, Hb. cbn. by intros [= <-].
Qed.

(** Without interference the local producer position is the current one... *)
Definition pc_seq (mem : ring_mem) (s : ring_local W) : Prop :=
  match rl_pc s with PcWhile | PcStore _ => rl_prod s = rm_prod mem | _ => True end.

(** ... and the call ends at the end of the log, at a busy record or on an error. *)
Definition pc_end (log : list ring_rec) (n : nat) (s : ring_local W) : Prop :=
  match rl_pc s with
  | PcDone ret => n = length log ∨ (∃ r, log !! n = Some r ∧ rec_busy r = true) ∨
                  run_cb sample_cb w0 (taken log n) = (rl_world s, Some ret)
  | PcStore (Some err) => run_cb sample_cb w0 (taken log n) = (rl_world s, Some err)
  | _ => True
  end.

Definition pc_steps (log : list ring_rec) (n : nat) (s : ring_local W) : nat :=
  match rl_pc s with
  | PcLoadCons => 4 * (length log - n) + 4
  | PcLoadProd => 4 * (length log - n) + 3
  | PcWhile => 4 * (length log - n) + (if rl_got s then 4 else 2)
  | PcStore _ => 4 * (length log - n) + 5
  | PcDone _ => 0
  end.

(** Every step is defined and keeps the invariant. *)
Lemma ring_step_inv log k n mem s :
  ring_inv log k n mem s →
  ∃ mem' s' k' n', ring_step mask sample_cb mem s = Some (mem', s') ∧ ring_inv log k' n' mem' s' ∧
    (pc_seq mem s → pc_end log n s →
     pc_seq mem' s' ∧ pc_end log n' s' ∧
     (match rl_pc s with PcDone _ => True | _ => (pc_steps log n' s' < pc_steps log n s)%nat end)).
Proof.
  intros Hinv. destruct Hinv as [Hok Hn Hd Hc Hp Hps Hpc] eqn:E. clear E.
  unfold ring_step, pc_seq, pc_end, pc_steps.
  destruct (rl_pc s) as [| | |ret|ret] eqn:Epc; unfold pc_ok in Hpc; rewrite Epc in Hpc.
  - destruct Hpc as [-> Hpc]. eexists _, _, k, k. split; [done|]. split; [|cbn; intros _ _; split_and!; [done..|lia]].
    split; cbn; try done. intros _. apply (ro_cons _ _ _ _ Hok).
  - destruct Hpc as [-> Hpc]. eexists _, _, k, k. split; [done|]. split; [|cbn; intros _ _; split_and!; [done..|lia]].
    split; cbn; try done.
    + intros _. by apply Hc.
    + intros _. eexists. split; [|apply (ro_prod _ _ _ _ Hok)]. done.
  - destruct Hpc as [-> Hpc]. specialize (Hc ltac:(done)). destruct (Hp eq_refl) as (p & Hpl & Hpp).
    destruct (Z.ltb_spec (rl_cons s) (rl_prod s)) as [Hlt|Hge].
    + assert (k < length log)%nat as Hk.
      { destruct (decide (p ≤ k)%nat) as [Hle|]; [|lia].
        pose proof (log_pos_mono log p k (ro_lens _ _ _ _ Hok) Hle ltac:(lia)). lia. }
      destruct (lookup_lt_is_Some_2 log k Hk) as [r Hr].
      destruct (ring_record_inv log k mem s r Hinv Epc Hr) as (s' & Hrec & Hs').
      destruct (ring_record_pc mem s s' Hrec) as [Hprod' Hpc']. rewrite Hrec. cbn [mbind option_bind].
      destruct (rec_busy r) eqn:Eb.
      * exists mem, s', k, k. split; [done|]. split; [done|]. intros Hseq _.
        destruct Hs' as [_ _ _ _ _ _ Hpcok]. unfold pc_ok in Hpcok.
        destruct (rl_pc s') as [| | |ret|ret] eqn:Epc' in Hpc', Hpcok |- *; try done.
        -- exfalso. pose proof (ring_record_busy log k mem s r s' Hok Hc Hr Eb Hrec) as H. by rewrite Epc' in H.
        -- split_and!; [done|right; left; by exists r|destruct (rl_got s); lia].
      * exists mem, s', k, (S k). split; [done|]. split; [done|]. intros Hseq _.
        destruct Hs' as [_ _ _ _ _ _ Hpcok]. unfold pc_ok in Hpcok.
        destruct (rl_pc s') as [| | |ret|ret] eqn:Epc' in Hpc', Hpcok |- *; try done.
        -- split_and!; [congruence|by destruct ret|destruct (rl_got s); lia].
        -- destruct Hpcok. lia.
    + eexists _, _, k, k. split; [done|]. destruct Hpc as [Hrun Hcnt]. split.
      * destruct (rl_got s); split; cbn; try done. unfold pc_ok. cbn. split; [done|]. by left.
      * intros Hseq _. destruct (rl_got s) eqn:Egot; cbn; split_and!; try done; try lia. left.
        pose proof (ro_prod _ _ _ _ Hok) as Hprod.
        destruct (decide (k < length log)%nat) as [Hlt|]; [|lia].
        pose proof (log_pos_mono log k (length log) (ro_lens _ _ _ _ Hok) ltac:(lia) ltac:(lia)). lia.
  - assert (rl_cons s = log_pos log n) as Hcons by (by apply Hc).
    eexists _, _, n, n. split; [done|]. split.
    + split; cbn.
      * destruct Hok as [H1 H2 H3 H4 H5 H6 H7]. split; cbn; try done; [lia|]. intros i r Hi. apply H7. lia.
      * lia.
      * done.
      * by intros _.
      * intros _. by apply (Hps ret).
      * intros r' [=]. destruct ret; done.
      * unfold pc_ok. destruct ret as [err|]; cbn; [|done]. split; [done|]. by right.
    + cbn. destruct ret as [err|]; cbn; intros Hseq Hend; split_and!; try done; try lia; [by right; right|].
      destruct (rl_got s); lia.
  - eexists _, _, k, n. split; [done|]. split; [done|]. intros _ Hend. rewrite Epc. done.
Qed.
End process_lemmas.

Section process_results.
Context {W : Type} (mask : Z) (sample_cb : W → list Z → W * Z) (k0 : nat) (w0 : W).

Lemma ring_start_inv mem log :
  ring_ok mask mem log k0 → ring_inv mask sample_cb k0 w0 log k0 k0 mem (ring_start w0).
Proof.
  intros Hok. split; cbn; try done.
  - pose proof (ro_k _ _ _ _ Hok). lia.
  - apply (ro_done _ _ _ _ Hok).
  - unfold pc_ok, taken, ring_start. cbn. split; [done|].
    rewrite drop_ge by (rewrite length_take; lia). done.
Qed.

Lemma ring_iter_spec log fuel k n mem s :
  ring_inv mask sample_cb k0 w0 log k n mem s → pc_seq mem s → pc_end sample_cb k0 w0 log n s →
  (pc_steps log n s ≤ fuel)%nat →
  ∃ mem' s' n' ret, ring_iter mask sample_cb fuel mem s = Some (mem', rl_world s', ret) ∧
    ring_inv mask sample_cb k0 w0 log n' n' mem' s' ∧ rl_pc s' = PcDone ret ∧ pc_end sample_cb k0 w0 log n' s'.
Proof.
  revert k n mem s. induction fuel as [|fuel IH]; intros k n mem s Hinv Hseq Hend Hfuel;
    destruct (rl_pc s) as [| | |r|ret] eqn:Epc; try (unfold pc_steps in Hfuel; rewrite Epc in Hfuel; destruct (rl_got s); lia).
  - exists mem, s, n, ret. unfold ring_iter. rewrite Epc. split_and!; try done.
    pose proof (inv_pc _ _ _ _ _ _ _ _ _ Hinv) as Hpc. unfold pc_ok in Hpc. rewrite Epc in Hpc. by destruct Hpc as [-> _].
  - destruct (ring_step_inv mask sample_cb k0 w0 log k n mem s Hinv) as (mem1 & s1 & k1 & n1 & Hst & Hinv1 & Hm).
    destruct (Hm Hseq Hend) as (Hseq1 & Hend1 & Hlt). rewrite Epc in Hlt.
    cbn [ring_iter]. rewrite Epc, Hst. cbn [mbind option_bind]. apply (IH k1 n1); try done. lia.
  - destruct (ring_step_inv mask sample_cb k0 w0 log k n mem s Hinv) as (mem1 & s1 & k1 & n1 & Hst & Hinv1 & Hm).
    destruct (Hm Hseq Hend) as (Hseq1 & Hend1 & Hlt). rewrite Epc in Hlt.
    cbn [ring_iter]. rewrite Epc, Hst. cbn [mbind option_bind]. apply (IH k1 n1); try done. lia.
  - destruct (ring_step_inv mask sample_cb k0 w0 log k n mem s Hinv) as (mem1 & s1 & k1 & n1 & Hst & Hinv1 & Hm).
    destruct (Hm Hseq Hend) as (Hseq1 & Hend1 & Hlt). rewrite Epc in Hlt.
    cbn [ring_iter]. rewrite Epc, Hst. cbn [mbind option_bind]. apply (IH k1 n1); try done. lia.
  - destruct (ring_step_inv mask sample_cb k0 w0 log k n mem s Hinv) as (mem1 & s1 & k1 & n1 & Hst & Hinv1 & Hm).
    destruct (Hm Hseq Hend) as (Hseq1 & Hend1 & Hlt). rewrite Epc in Hlt.
    cbn [ring_iter]. rewrite Epc, Hst. cbn [mbind option_bind]. apply (IH k1 n1); try done. lia.
  - exists mem, s, n, ret. cbn [ring_iter]. rewrite Epc. split_and!; try done.
    pose proof (inv_pc _ _ _ _ _ _ _ _ _ Hinv) as Hpc. unfold pc_ok in Hpc. rewrite Epc in Hpc. by destruct Hpc as [-> _].
Qed.

(** The outcome of a call on a log nobody changes. *)
Lemma process_ring_spec mem log fuel :
  ring_ok mask mem log k0 → (4 * length log + 4 ≤ fuel)%nat →
  ∃ mem' w ret n, ringbuf_process_ring mask sample_cb fuel mem w0 = Some (mem', w, ret) ∧
    (k0 ≤ n ≤ length log)%nat ∧ ring_ok mask mem' log n ∧
    ((run_cb sample_cb w0 (taken k0 log n) = (w, None) ∧ ret = Z.of_nat (length (taken k0 log n)) ∧
      (n = length log ∨ ∃ r, log !! n = Some r ∧ rec_busy r = true)) ∨
     run_cb sample_cb w0 (taken k0 log n) = (w, Some ret)).
Proof.
  intros Hok Hfuel. pose proof (ring_start_inv mem log Hok) as Hinv.
  destruct (ring_iter_spec log fuel k0 k0 mem (ring_start w0) Hinv) as (mem' & s' & n & ret & Hi & Hinv' & Epc & Hend); try done.
  { unfold pc_steps. cbn. lia. }
  exists mem', (rl_world s'), ret, n. split; [done|].
  destruct Hinv' as [Hok' Hn _ _ _ _ Hpc]. unfold pc_ok in Hpc. unfold pc_end in Hend. rewrite Epc in Hpc, Hend.
  split; [lia|]. split; [done|]. destruct Hpc as [_ [[[Hrun Hcnt] Hret]|Herr]]; [|by right].
  destruct Hend as [Hend|[Hend|Hend]]; [by left; auto..|]. rewrite Hrun in Hend. done.
Qed.
End process_results.

(** * Properties of the consumer *)

(** C28. A call that is not interfered with terminates (the fuel is linear in the number
    of records): the samples of the committed records go to the callback in order,
    discarded records are skipped, and the call stops at a busy record, at the end,
    or after the record whose callback failed, the consumer position being stored
    right behind the records taken; it returns their number or the error. *)
Theorem process_ring_drains {W} mask (sample_cb : W → list Z → W * Z) k0 w0 mem log fuel :
  ring_ok mask mem log k0 → (4 * length log + 4 ≤ fuel)%nat →
  ∃ mem' w ret n, ringbuf_process_ring mask sample_cb fuel mem w0 = Some (mem', w, ret) ∧
    (k0 ≤ n ≤ length log)%nat ∧ ring_ok mask mem' log n ∧
    ((run_cb sample_cb w0 (taken k0 log n) = (w, None) ∧ ret = Z.of_nat (length (taken k0 log n)) ∧
      (n = length log ∨ ∃ r, log !! n = Some r ∧ rec_busy r = true)) ∨
     run_cb sample_cb w0 (taken k0 log n) = (w, Some ret)).
Proof. apply process_ring_spec. Qed.

(** C27. Whatever a producer that keeps the protocol does between two steps of the
    consumer, no step of the consumer is undefined, every committed sample is handed
    over exactly once and in order, nothing is read before it is committed, and the
    shared consumer position never passes a record that was not taken. *)
Theorem process_ring_interleaved {W} mask (sample_cb : W → list Z → W * Z) k0 w0 mem0 log0 mem s :
  ring_ok mask mem0 log0 k0 →
  ring_reach mask sample_cb (mem0, ring_start w0) (mem, s) →
  ∃ log k n, log_ext log0 log ∧ ring_ok mask mem log k ∧ (k0 ≤ n)%nat ∧ (k ≤ n)%nat ∧
    Forall (λ r, rec_busy r = false) (take n log) ∧
    is_Some (ring_step mask sample_cb mem s) ∧
    (run_cb sample_cb w0 (taken k0 log n)).1 = rl_world s ∧
    (∀ ret, rl_pc s = PcDone ret → k = n ∧
       (ret = Z.of_nat (length (taken k0 log n)) ∨ (run_cb sample_cb w0 (taken k0 log n)).2 = Some ret)).
Proof.
  intros Hok Hreach.
  assert (∃ log k n, log_ext log0 log ∧ ring_inv mask sample_cb k0 w0 log k n mem s) as (log & k & n & Hext & Hinv).
  { remember (mem0, ring_start w0) as c0 eqn:E0. remember (mem, s) as c eqn:E. revert mem s E.
    induction Hreach as [c|c mem s mem' s' _ IH Hstep|c mem s mem' _ IH Hstep]; intros mem1 s1 E; subst.
    - simplify_eq. exists log0, k0, k0. split; [apply log_ext_refl|]. by apply ring_start_inv.
    - injection E as <- <-. destruct (IH eq_refl _ _ eq_refl) as (log & k & n & Hext & Hinv).
      destruct (ring_step_inv mask sample_cb k0 w0 log k n mem s Hinv) as (mem2 & s2 & k2 & n2 & Hst & Hinv2 & _).
      rewrite Hstep in Hst. simplify_eq. by exists log, k2, n2.
    - injection E as <- <-. destruct (IH eq_refl _ _ eq_refl) as (log & k & n & Hext & Hinv).
      destruct (ring_inv_producer mask sample_cb k0 w0 log k n mem mem' s Hinv Hstep) as (log' & Hext' & Hinv').
      exists log', k, n. split; [by eapply log_ext_trans|done]. }
  exists log, k, n. destruct (ring_step_inv mask sample_cb k0 w0 log k n mem s Hinv) as (mem2 & s2 & k2 & n2 & Hst & _).
  destruct Hinv as [Hok' Hn Hd _ _ _ Hpc]. unfold pc_ok in Hpc.
  split; [done|]. split; [done|]. split; [lia|]. split; [lia|]. split; [done|]. split; [by rewrite Hst|]. split.
  - destruct (rl_pc s) as [| | |[err|]|ret]; try (destruct Hpc as [_ [-> _]]; done); try (destruct Hpc as [-> _]; done); try by rewrite Hpc.
    destruct Hpc as [_ [[[-> _] _]| ->]]; done.
  - intros ret Epc. rewrite Epc in Hpc. destruct Hpc as [-> [[[Hrun _] Hret]|Herr]]; (split; [done|]); [by left|right; by rewrite Herr].
Qed.

(** A ring of 32 bytes (mapped twice) with a sample, a discarded record and a busy
    one. *)
Definition demo_half : list Z := [2; 0; 0; 0; 0; 0; 0; 0; 7; 9; 0; 0; 0; 0; 0; 0] ++
  [0; 0; 0; 64; 0; 0; 0; 0] ++ [0; 0; 0; 128; 0; 0; 0; 0].
Definition demo_mem : ring_mem := mkMem 0 32 (demo_half ++ demo_half).
Definition demo_log : list ring_rec := [RSample [7; 9]; RDiscard 0; RBusy 0].

Lemma demo_ok : ring_ok 31 demo_mem demo_log 0.
Proof.
  split; cbn; try done; try lia.
  - repeat constructor; done.
  - intros i r _ Hi. do 3 (destruct i as [|i]; [cbn in Hi; simplify_eq; by split|]). done.
Defined.

Lemma process_ring_drains_witness :
  ∃ mem', ringbuf_process_ring 31 (λ (w : list (list Z)) d, (w ++ [d], 0)) 40 demo_mem [] = Some (mem', [[7; 9]], 1) ∧
    rm_cons mem' = 24.
Proof.
  destruct (process_ring_drains 31 (λ (w : list (list Z)) d, (w ++ [d], 0)) 0 [] demo_mem demo_log 40 demo_ok ltac:(vm_compute; lia))
    as (mem' & w & ret & n & Hp & _).
  exists mem'. rewrite Hp. vm_compute in Hp. injection Hp as <- <- <-. split; reflexivity.
Defined.

Lemma process_ring_interleaved_witness :
  ∃ mem s, ring_reach 31 (λ (w : list (list Z)) d, (w ++ [d], 0)) (demo_mem, ring_start []) (mem, s) ∧
    rl_pc s = PcDone 1 ∧ is_Some (ring_step 31 (λ (w : list (list Z)) d, (w ++ [d], 0)) mem s).
Proof.
  set (cb := λ (w : list (list Z)) d, (w ++ [d], 0)).
  assert (∃ mem s, ring_reach 31 cb (demo_mem, ring_start []) (mem, s) ∧ rl_pc s = PcDone 1) as (mem & s & Hr & Hpc).
  { assert (producer_step 31 demo_mem demo_mem) as Hp.
    { intros log k Hok. exists log. split; [apply log_ext_refl|exact Hok]. }
    pose proof (reach_producer 31 cb _ _ _ _ (reach_refl 31 cb (demo_mem, ring_start [])) Hp) as H.
    do 9 (eapply reach_consumer in H; [|vm_compute; reflexivity]).
    eexists _, _. split; [exact H|reflexivity]. }
  destruct (process_ring_interleaved 31 cb 0 [] demo_mem demo_log mem s demo_ok Hr) as (log & k & n & _ & _ & _ & _ & _ & Hstep & _).
  exists mem, s. split; [exact Hr|]. split; [exact Hpc|exact Hstep].
Defined.
