(* ===== verification/RingMgr.v ===== *)
(** The ring buffer manager of libbpf (src/libbpf/src/ringbuf.c): adding and removing
    maps, consuming and polling all of them.

    The system calls are the environment's: their outcomes are arguments, and what
    they do to the process (mappings, descriptors) is the trace of [os_event]s. *)
From stdpp Require Import base list sorting.
From Stdlib Require Import ZArith Lia.
From S2P Require Import Prelude Bytes Mem RingBuf.

#[local] Open Scope Z_scope.

Definition BPF_MAP_TYPE_RINGBUF : Z := 27.

(** * Consuming *)

Record ring (W : Type) := mkRing {
  r_mask : Z;
  r_cb : W → list Z → W * Z;
  r_mem : ring_mem;
}.
Arguments mkRing {W}.
Arguments r_mask {W}.
Arguments r_cb {W}.
Arguments r_mem {W}.

(** The loop over the rings [ids]; [res] is the [int64_t] count so far, the result an
    [int]. *)
Fixpoint process_rings {W} (fuel : nat) (rs : list (ring W)) (ids : list nat) (w : W) (res : Z)
    : option (list (ring W) * W * Z) :=
  match ids with
  | [] => Some (rs, w, if res >? INT_MAX then INT_MAX else s32 res)
  | i :: ids =>
      r ← rs !! i;
      '(mem, w, err) ← ringbuf_process_ring (r_mask r) (r_cb r) fuel (r_mem r) w;
      let rs := <[i := mkRing (r_mask r) (r_cb r) mem]> rs in
      if err <? 0 then Some (rs, w, s32 err)
      else process_rings fuel rs ids w (s64 (res + err))
  end.

Definition ring_buffer__consume {W} (fuel : nat) (rs : list (ring W)) (w : W) : option (list (ring W) * W * Z) :=
  process_rings fuel rs (seq 0 (length rs)) w 0.

(** [epoll]: the ring ids [epoll_wait] reports, or its errno. *)
Definition ring_buffer__poll {W} (fuel : nat) (rs : list (ring W)) (epoll : list nat + Z) (w : W)
    : option (list (ring W) * W * Z) :=
  match epoll with
  | inr errno => Some (rs, w, - errno)
  | inl ids => process_rings fuel rs ids w 0
  end.

(** * Maps *)

Inductive os_event :=
  | Mmap (addr len : Z)
  | Munmap (addr len : Z)
  | EpollCreate (fd : Z)
  | Close (fd : Z).

(** A ring's pointers: [None] is [NULL]. *)
Record ring_ctl := mkRingCtl {
  rc_map_fd : Z;
  rc_mask : Z;
  rc_consumer_pos : option Z;
  rc_producer_pos : option Z;
}.

Record ring_buffer := mkRingBuffer {
  rb_page_size : Z;
  rb_epoll_fd : Z;
  rb_rings : list ring_ctl;
}.

Definition ringbuf_unmap_ring (page_size : Z) (r : ring_ctl) : list os_event :=
  (match rc_consumer_pos r with Some addr => [Munmap addr page_size] | None => [] end) ++
  (match rc_producer_pos r with
   | Some addr => [Munmap addr (u64 (page_size + u64 (2 * u64 (rc_mask r + 1))))]
   | None => []
   end).

(** What the calls of [ring_buffer__add] return: the map's type and size, the
    allocations, the two mappings, and [epoll_ctl]; an [inr] is an errno. *)
Record add_env := mkAddEnv {
  ae_info : (Z * Z) + Z;
  ae_realloc_rings : bool;
  ae_realloc_events : bool;
  ae_mmap_consumer : Z + Z;
  ae_mmap_producer : Z + Z;
  ae_epoll_ctl : option Z;
}.

(** [r->mask = info.max_entries - 1] is computed in [__u32]; so is
    [2 * info.max_entries] in the size of the second mapping. *)
Definition ring_buffer__add (rb : ring_buffer) (map_fd : Z) (env : add_env) : ring_buffer * list os_event * Z :=
  match ae_info env with
  | inr errno => (rb, [], - errno)
  | inl (ty, max_entries) =>
      if negb (ty =? BPF_MAP_TYPE_RINGBUF) then (rb, [], - EINVAL)
      else if negb (ae_realloc_rings env) then (rb, [], - ENOMEM)
      else if negb (ae_realloc_events env) then (rb, [], - ENOMEM)
      else
        let page := rb_page_size rb in
        let r := mkRingCtl map_fd (u32 (max_entries - 1)) None None in
        match ae_mmap_consumer env with
        | inr errno => (rb, [], - errno)
        | inl caddr =>
            let ev1 := [Mmap caddr page] in
            let r := mkRingCtl map_fd (rc_mask r) (Some caddr) None in
            match ae_mmap_producer env with
            | inr errno => (rb, ev1 ++ ringbuf_unmap_ring page r, - errno)
            | inl paddr =>
                let ev2 := ev1 ++ [Mmap paddr (u64 (page + u32 (2 * max_entries)))] in
                let r := mkRingCtl map_fd (rc_mask r) (Some caddr) (Some paddr) in
                match ae_epoll_ctl env with
                | Some errno => (rb, ev2 ++ ringbuf_unmap_ring page r, - errno)
                | None => (mkRingBuffer page (rb_epoll_fd rb) (rb_rings rb ++ [r]), ev2, 0)
                end
            end
        end
  end.

Definition ring_buffer__free (rb : ring_buffer) : list os_event :=
  flat_map (ringbuf_unmap_ring (rb_page_size rb)) (rb_rings rb) ++
  (if rb_epoll_fd rb >=? 0 then [Close (rb_epoll_fd rb)] else []).

(** [inr errno]: [NULL] with [errno] set. [epoll] is the descriptor or the errno of
    [epoll_create1]. *)
Definition ring_buffer__new (opts_valid calloc_ok : bool) (page_size : Z) (epoll : Z + Z) (map_fd : Z) (env : add_env)
    : (ring_buffer + Z) * list os_event :=
  if negb opts_valid then (inr EINVAL, [])
  else if negb calloc_ok then (inr ENOMEM, [])
  else
    match epoll with
    | inr errno => (inr errno, ring_buffer__free (mkRingBuffer page_size (-1) []))
    | inl fd =>
        let '(rb, ev, err) := ring_buffer__add (mkRingBuffer page_size fd []) map_fd env in
        if err =? 0 then (inl rb, EpollCreate fd :: ev)
        else (inr (- err), EpollCreate fd :: ev ++ ring_buffer__free rb)
    end.

Definition ring_buffer__epoll_fd (rb : ring_buffer) : Z := rb_epoll_fd rb.

(** * Specification: the resources a trace leaves behind *)

(** The mappings and descriptors held: a [munmap] releases a mapping only with the
    length it was made with. *)
Inductive resource := RMap (addr len : Z) | RFd (fd : Z).

#[export] Instance resource_eq_dec : EqDecision resource.
Proof. solve_decision. Defined.

Definition remove_res (x : resource) (l : list resource) : list resource :=
  match list_find (λ y, y = x) l with Some (i, _) => delete i l | None => l end.

Definition os_step (l : list resource) (ev : os_event) : list resource :=
  match ev with
  | Mmap a n => RMap a n :: l
  | Munmap a n => remove_res (RMap a n) l
  | EpollCreate fd => RFd fd :: l
  | Close fd => remove_res (RFd fd) l
  end.

Definition held (l : list resource) (evs : list os_event) : list resource := foldl os_step l evs.

(** What a manager holds: the size of the second mapping was computed in 32 bits. *)
Definition data_len (page max_entries : Z) : Z := u64 (page + u32 (2 * max_entries)).

Definition ring_held (page : Z) (r : ring_ctl) : list resource :=
  (match rc_consumer_pos r with Some a => [RMap a page] | None => [] end) ++
  (match rc_producer_pos r with Some a => [RMap a (data_len page (rc_mask r + 1))] | None => [] end).

Definition rb_held (rb : ring_buffer) : list resource :=
  flat_map (ring_held (rb_page_size rb)) (rb_rings rb) ++ [RFd (rb_epoll_fd rb)].

(** The second mapping of a map of 2^31 bytes or more, when an attempt to add it has made
    one: it is the one that is released with another length than it was made with. *)
Definition leaked (page : Z) (env : add_env) : list resource :=
  match ae_info env, ae_mmap_consumer env, ae_mmap_producer env with
  | inl (ty, max_entries), inl _, inl addr =>
      if (ty =? BPF_MAP_TYPE_RINGBUF) && ae_realloc_rings env && ae_realloc_events env && (2 ^ 31 <=? max_entries)
      then [RMap addr (data_len page max_entries)] else []
  | _, _, _ => []
  end.

(** * Lemmas *)

Lemma remove_res_in x l : ∀ rest, l ≡ₚ x :: rest → remove_res x l ≡ₚ rest.
Proof.
  intros rest Hl. unfold remove_res. destruct (list_find (λ y, y = x) l) as [[i y]|] eqn:E.
  - apply list_find_Some in E as (Hi & -> & _). apply delete_Permutation in Hi.
    apply (Permutation_cons_inv (a := x)). etrans; [symmetry; exact Hi|exact Hl].
  - apply list_find_None in E. rewrite Forall_forall in E. destruct (E x); [|done]. rewrite Hl. by left.
Qed.

Lemma held_app l e1 e2 : held l (e1 ++ e2) = held (held l e1) e2.
Proof. apply foldl_app. Qed.

Lemma remove_res_out x l : x ∉ l → remove_res x l = l.
Proof.
  intros Hx. unfold remove_res. destruct (list_find (λ y, y = x) l) as [[i y]|] eqn:E; [|done].
  apply list_find_Some in E as (Hi & -> & _). destruct Hx. by eapply list_elem_of_lookup_2.
Qed.

Section page.
Context (page : Z) (Hpage : 0 ≤ page < 2 ^ 63).

(** Mappings of the lengths that the code makes. *)
Definition made (x : resource) : Prop := match x with RMap _ n => n < page + 2 ^ 32 | RFd _ => True end.

Definition ring_ctl_ok (r : ring_ctl) : Prop := 0 ≤ rc_mask r < 2 ^ 32 - 1.

Definition ring_leak (r : ring_ctl) : list resource :=
  match rc_producer_pos r with
  | Some a => if 2 ^ 31 <=? rc_mask r + 1 then [RMap a (data_len page (rc_mask r + 1))] else []
  | None => []
  end.

Lemma data_len_made a n : made (RMap a (data_len page n)).
Proof. cbn. unfold data_len. pose proof (wrap_range 32 (2 * n) ltac:(lia)) as [H1 H2]. rewrite (wrap_small 64) by (unfold in_u; lia). lia. Qed.

Lemma ring_held_made r : Forall made (ring_held page r).
Proof.
  unfold ring_held. apply Forall_app. split; [destruct (rc_consumer_pos r)|destruct (rc_producer_pos r)]; repeat constructor.
  - cbn. lia.
  - apply data_len_made.
Qed.

Lemma rings_held_made rs : Forall made (flat_map (ring_held page) rs).
Proof. induction rs as [|r rs IH]; cbn; [constructor|]. apply Forall_app. split; [apply ring_held_made|done]. Qed.

(** The length that the second mapping is released with is the one it has, but for those
    of 2^31 bytes and more; that one no mapping has. *)
Lemma unmap_len r : ring_ctl_ok r →
  let n := u64 (page + u64 (2 * u64 (rc_mask r + 1))) in
  if 2 ^ 31 <=? rc_mask r + 1 then page + 2 ^ 32 ≤ n else n = data_len page (rc_mask r + 1).
Proof.
  intros Hr n. unfold ring_ctl_ok in Hr. unfold n, data_len. rewrite (wrap_small 64 (rc_mask r + 1)) by (unfold in_u; lia).
  rewrite (wrap_small 64 (2 * _)) by (unfold in_u; lia). rewrite (wrap_small 64 (page + 2 * _)) by (unfold in_u; lia).
  destruct (Z.leb_spec (2 ^ 31) (rc_mask r + 1)); [lia|]. rewrite (wrap_small 32) by (unfold in_u; lia). by rewrite wrap_small by (unfold in_u; lia).
Qed.

Lemma unmap_held r l rest : ring_ctl_ok r → Forall made rest →
  l ≡ₚ ring_held page r ++ rest → held l (ringbuf_unmap_ring page r) ≡ₚ ring_leak r ++ rest.
Proof.
  intros Hr Hrest Hl. unfold ringbuf_unmap_ring. rewrite held_app.
  assert (held l (match rc_consumer_pos r with Some addr => [Munmap addr page] | None => [] end) ≡ₚ
    match rc_producer_pos r with Some a => [RMap a (data_len page (rc_mask r + 1))] | None => [] end ++ rest) as H1.
  { unfold ring_held in Hl. destruct (rc_consumer_pos r); cbn in *; [by apply remove_res_in|done]. }
  revert H1. generalize (held l (match rc_consumer_pos r with Some addr => [Munmap addr page] | None => [] end)). clear l Hl. intros l Hl.
  unfold ring_leak. destruct (rc_producer_pos r) as [a|]; cbn in *; [|done]. pose proof (unmap_len r Hr) as Hn. cbv zeta in Hn.
  destruct (2 ^ 31 <=? rc_mask r + 1); [|rewrite Hn; by apply remove_res_in]. rewrite remove_res_out; [done|]. intros Hin.
  assert (Forall made l) as Hm by (rewrite Hl; constructor; [apply data_len_made|done]).
  rewrite Forall_forall in Hm. apply Hm in Hin. cbn in Hin. lia.
Qed.

Lemma ring_leak_made r : Forall made (ring_leak r).
Proof. unfold ring_leak. destruct (rc_producer_pos r); [|done]. destruct (_ <=? _); repeat constructor. apply data_len_made. Qed.

Lemma unmap_all_held rs l rest : Forall ring_ctl_ok rs → Forall made rest → l ≡ₚ flat_map (ring_held page) rs ++ rest →
  held l (flat_map (ringbuf_unmap_ring page) rs) ≡ₚ flat_map ring_leak rs ++ rest.
Proof.
  intros Hrs. revert l rest. induction Hrs as [|r rs Hr _ IH]; intros l rest Hrest Hl; cbn in *; [done|].
  rewrite held_app. etrans; [apply (IH _ (ring_leak r ++ rest))|].
  - apply Forall_app. split; [apply ring_leak_made|done].
  - etrans; [apply (unmap_held r l (flat_map (ring_held page) rs ++ rest) Hr)|].
    + apply Forall_app. split; [apply rings_held_made|done].
    + by rewrite Hl, <- app_assoc.
    + rewrite !app_assoc. by rewrite (Permutation_app_comm (ring_leak r)).
  - rewrite !app_assoc. by rewrite (Permutation_app_comm (flat_map ring_leak rs)).
Qed.

Lemma free_held rb l rest : rb_page_size rb = page → 0 ≤ rb_epoll_fd rb → Forall ring_ctl_ok (rb_rings rb) → Forall made rest →
  l ≡ₚ rb_held rb ++ rest → held l (ring_buffer__free rb) ≡ₚ flat_map ring_leak (rb_rings rb) ++ rest.
Proof.
  intros Hp Hfd Hr Hrest Hl. unfold ring_buffer__free. rewrite held_app. unfold rb_held in Hl. rewrite <- app_assoc in Hl. rewrite Hp in *.
  apply unmap_all_held in Hl; [|done|by constructor]. destruct (Z.geb_spec (rb_epoll_fd rb) 0); [|lia]. cbn. apply remove_res_in.
  rewrite Hl. symmetry. apply Permutation_middle.
Qed.

(** The environment's errnos are positive; the size of the map is a [__u32] and not zero. *)
Definition env_ok (env : add_env) : Prop :=
  (match ae_info env with inr e => 0 < e | inl (_, max) => 0 < max < 2 ^ 32 end) ∧
  (match ae_mmap_consumer env with inr e => 0 < e | inl _ => True end) ∧
  (match ae_mmap_producer env with inr e => 0 < e | inl _ => True end) ∧
  (match ae_epoll_ctl env with Some e => 0 < e | None => True end).

(** A manager that holds what [l] says, besides [rest]; [leak] will stay when it is freed. *)
Record holds (rb : ring_buffer) (l rest leak : list resource) : Prop := {
  ho_page : rb_page_size rb = page; ho_rings : Forall ring_ctl_ok (rb_rings rb); ho_rest : Forall made rest;
  ho_held : l ≡ₚ rb_held rb ++ rest; ho_leak : leak ≡ₚ flat_map ring_leak (rb_rings rb) ++ rest;
}.

Lemma leaked_made env : Forall made (leaked page env).
Proof.
  unfold leaked. destruct (ae_info env) as [[ty max]|], (ae_mmap_consumer env), (ae_mmap_producer env); try done.
  destruct (_ && _); repeat constructor. apply data_len_made.
Qed.

Lemma add_held rb fd env l rest leak : env_ok env → holds rb l rest leak →
  let '(rb', ev, err) := ring_buffer__add rb fd env in
  ∃ rest', holds rb' (held l ev) rest' (leaked page env ++ leak) ∧ rb_epoll_fd rb' = rb_epoll_fd rb ∧
    (err = 0 ∨ err < 0 ∧ rb' = rb).
Proof.
  intros (H1 & H2 & H3 & H4) [Hp Hr Hrest Hl Hk]. unfold ring_buffer__add, leaked.
  assert (holds rb l rest leak) as H0 by done.
  destruct (ae_info env) as [[ty max]|e]; [|exists rest; split; [exact H0|split; [done|right; split; [lia|done]]]].
  assert (∀ x : Z, x < 0 → holds rb l rest leak → ∃ rest', holds rb (held l []) rest' ([] ++ leak) ∧ rb_epoll_fd rb = rb_epoll_fd rb ∧ (x = 0 ∨ x < 0 ∧ rb = rb)) as Hno
    by (intros x Hx Hh; exists rest; split; [exact Hh|split; [done|by right]]).
  destruct (ty =? BPF_MAP_TYPE_RINGBUF); cbn [negb andb]; [|by destruct (ae_mmap_consumer env), (ae_mmap_producer env); apply Hno].
  destruct (ae_realloc_rings env); cbn [negb andb]; [|by destruct (ae_mmap_consumer env), (ae_mmap_producer env); apply Hno].
  destruct (ae_realloc_events env); cbn [negb andb]; [|by destruct (ae_mmap_consumer env), (ae_mmap_producer env); apply Hno].
  destruct (ae_mmap_consumer env) as [c|e]; [|apply Hno; [lia|done]].
  assert (u32 (max - 1) = max - 1) as Hm by (apply wrap_small; unfold in_u; lia). cbn [rc_mask]. rewrite Hm, Hp.
  set (r := mkRingCtl fd (max - 1) (Some c)).
  assert (∀ o, ring_ctl_ok (r o)) as Hok by (intros o; unfold ring_ctl_ok; cbn; lia).
  assert (∀ p, ring_leak (r (Some p)) = if 2 ^ 31 <=? max then [RMap p (data_len page max)] else []) as Hleak.
  { intros p. unfold ring_leak. cbn. by replace (max - 1 + 1) with max by lia. }
  assert (∀ p, ring_held page (r (Some p)) = [RMap c page; RMap p (data_len page max)]) as Hheld.
  { intros p. unfold ring_held. cbn. by replace (max - 1 + 1) with max by lia. }
  assert (Forall made (rb_held rb ++ rest)) as Hmade.
  { apply Forall_app. split; [|done]. unfold rb_held. rewrite Hp. apply Forall_app. split; [apply rings_held_made|repeat constructor]. }
  destruct (ae_mmap_producer env) as [p|e].
  - rewrite <- Hleak. fold (data_len page max). destruct (ae_epoll_ctl env) as [e|].
    + exists (ring_leak (r (Some p)) ++ rest). split; [|split; [done|right; split; [lia|done]]]. split; [done|done| | |].
      * apply Forall_app. split; [apply ring_leak_made|done].
      * rewrite held_app. etrans; [apply (unmap_held (r (Some p)) _ (rb_held rb ++ rest) (Hok _) Hmade)|].
        -- rewrite Hheld. cbn. rewrite Hl. by apply Permutation_swap.
        -- rewrite !app_assoc. by rewrite (Permutation_app_comm (ring_leak _)).
      * rewrite Hk, !app_assoc. by rewrite (Permutation_app_comm (ring_leak _)).
    + exists rest. split; [|split; [done|by left]]. split; cbn [rb_page_size rb_rings]; [done| |done| |].
      * apply Forall_app. split; [done|]. by constructor.
      * unfold rb_held in Hl |- *. cbn [rb_rings rb_page_size rb_epoll_fd held foldl os_step app]. rewrite Hp in Hl.
        rewrite flat_map_app. cbn [flat_map]. rewrite Hheld, Hl. cbn. solve_Permutation.
      * rewrite Hk, flat_map_app. cbn [flat_map]. rewrite app_nil_r. solve_Permutation.
  - exists rest. split; [|split; [done|right; split; [lia|done]]]. split; [done|done|done| |done].
    rewrite held_app. apply (unmap_held (r None) _ (rb_held rb ++ rest) (Hok _) Hmade). cbn. by rewrite Hl.
Qed.
End page.

(** Adding maps one after the other, whatever the outcomes. *)
Fixpoint add_all (rb : ring_buffer) (adds : list (Z * add_env)) : ring_buffer * list os_event :=
  match adds with
  | [] => (rb, [])
  | (fd, env) :: adds =>
      let '(rb, ev, _) := ring_buffer__add rb fd env in
      let '(rb, evs) := add_all rb adds in (rb, ev ++ evs)
  end.

Lemma add_all_held page rb adds l rest leak : 0 ≤ page < 2 ^ 63 → Forall (λ a, env_ok a.2) adds → holds page rb l rest leak →
  let '(rb', evs) := add_all rb adds in
  ∃ rest', holds page rb' (held l evs) rest' (flat_map (λ a, leaked page a.2) adds ++ leak) ∧ rb_epoll_fd rb' = rb_epoll_fd rb.
Proof.
  intros Hpage HF. revert rb l rest leak. induction HF as [|[fd env] adds Henv _ IH]; intros rb l rest leak Hl; cbn; [by exists rest|].
  pose proof (add_held page Hpage rb fd env l rest leak Henv Hl) as H. destruct (ring_buffer__add rb fd env) as [[rb1 ev] err].
  destruct H as (rest1 & H1 & H2 & _). specialize (IH rb1 _ _ _ H1). destruct (add_all rb1 adds) as [rb2 evs].
  destruct IH as (rest2 & IH1 & IH2). exists rest2. rewrite held_app, IH2. split; [|done]. destruct IH1 as [? ? ? ? Hk]. split; [done..|].
  rewrite <- Hk. rewrite !app_assoc. by rewrite (Permutation_app_comm (leaked page env)).
Qed.

(** One ring, its log, the records already consumed. *)
Definition ring_state_ok {W} (r : ring W) (st : list ring_rec * nat) : Prop := ring_ok (r_mask r) (r_mem r) st.1 st.2.

(** The next record cannot be taken. *)
Definition at_end (st : list ring_rec * nat) : Prop :=
  st.2 = length st.1 ∨ ∃ r, st.1 !! st.2 = Some r ∧ rec_busy r = true.

Lemma run_cb_no_err {W} cb (w w' : W) ds e :
  (∀ w d, 0 ≤ (cb w d).2) → run_cb cb w ds = (w', Some e) → False.
Proof.
  intros Hcb. revert w. induction ds as [|d ds IH]; intros w; cbn; [done|].
  specialize (Hcb w d). destruct (cb w d) as [w1 err]. cbn in Hcb.
  destruct (Z.ltb_spec err 0); [lia|]. apply IH.
Qed.

Lemma process_rings_spec {W} fuel (pre post : list (ring W)) sts w res :
  Forall2 ring_state_ok post sts → Forall (λ r, ∀ w d, 0 ≤ (r_cb r w d).2) post →
  Forall (λ st, (4 * length st.1 + 4 ≤ fuel)%nat) sts →
  0 ≤ res → res + foldr (λ st n, Z.of_nat (length st.1) + n) 0 sts < 2 ^ 63 →
  ∃ post' w' ns, process_rings fuel (pre ++ post) (seq (length pre) (length post)) w res =
      Some (pre ++ post', w',
            Z.min INT_MAX (res + foldr Z.add 0 (zip_with (λ st n, Z.of_nat (length (taken st.2 st.1 n))) sts ns))) ∧
    Forall2 ring_state_ok post' (zip_with (λ st n, (st.1, n)) sts ns) ∧
    Forall at_end (zip_with (λ st n, (st.1, n)) sts ns) ∧ length ns = length sts.
Proof.
  intros HF. revert pre w res. induction HF as [|r st post sts Hr HF IH]; intros pre w res Hcb Hfuel Hres Hsum.
  - exists [], w, []. cbn. split_and!; [|constructor..|done]. f_equal. f_equal. rewrite Z.add_0_r.
    cbn in Hsum. rewrite Z.gtb_ltb. destruct (Z.ltb_spec INT_MAX res); [unfold INT_MAX in *; lia|].
    unfold INT_MAX in *. rewrite swrap_small by lia. lia.
  - apply Forall_cons in Hcb as [Hcb1 Hcb]. apply Forall_cons in Hfuel as [Hf1 Hfuel]. destruct st as [log k]. cbn in Hsum.
    destruct (process_ring_spec (r_mask r) (r_cb r) k w (r_mem r) log fuel Hr Hf1) as (mem' & w1 & ret & n & Hp & Hn & Hok' & Hres').
    destruct Hres' as [(Hrun & Hret & Hend)|Herr]; [|exfalso; by eapply run_cb_no_err].
    assert (Z.of_nat (length (taken k log n)) ≤ Z.of_nat (length log)) as Hcount.
    { unfold taken, samples. transitivity (Z.of_nat (length (drop k (take n log)))).
      - generalize (drop k (take n log)). intros l. induction l as [|x l IHl]; cbn; [done|]. rewrite length_app. destruct x; cbn; lia.
      - rewrite length_drop, length_take. lia. }
    assert (0 ≤ foldr (λ st n, Z.of_nat (length st.1) + n) 0 sts) as Hpos.
    { clear. induction sts as [|? ? ?]; cbn; lia. }
    destruct (IH (pre ++ [mkRing (r_mask r) (r_cb r) mem']) w1 (res + ret) Hcb Hfuel ltac:(lia) ltac:(lia))
      as (post' & w2 & ns & Hrec & H1 & H2 & H3).
    exists (mkRing (r_mask r) (r_cb r) mem' :: post'), w2, (n :: ns).
    split_and!.
    + cbn [length seq process_rings]. rewrite list_lookup_middle by done. cbn [mbind option_bind]. rewrite Hp. cbn [mbind option_bind].
      destruct (Z.ltb_spec ret 0); [lia|]. rewrite insert_app_r_alt, Nat.sub_diag by done. cbn [insert list_insert].
      rewrite (swrap_small 64) by lia. rewrite length_app, Nat.add_1_r in Hrec. rewrite <- app_assoc in Hrec. cbn [app] in Hrec.
      rewrite Hrec. rewrite <- app_assoc. cbn. by rewrite Hret, Z.add_assoc.
    + cbn. by constructor.
    + cbn. by constructor.
    + cbn. by rewrite H3.
Qed.

(** * Properties *)

(** C31. Creating a manager, adding any number of maps of any sizes with any failures on the
    way, and freeing it releases the epoll descriptor and every mapping with the length
    it was made with, and a failed creation holds nothing: except for exactly the second
    mappings of the maps of 2^31 bytes or more, which are released with another length
    than the one they were made with. *)
Theorem ring_buffer_no_leak opts_valid calloc_ok page epoll fd env adds :
  0 ≤ page < 2 ^ 63 → env_ok env → Forall (λ a, env_ok a.2) adds →
  match epoll with inl efd => 0 ≤ efd | inr e => 0 < e end →
  let '(r, ev) := ring_buffer__new opts_valid calloc_ok page epoll fd env in
  match r with
  | inr e => 0 < e ∧ held [] ev ≡ₚ (if opts_valid && calloc_ok && (if epoll is inl _ then true else false) then leaked page env else [])
  | inl rb => let '(rb', evs) := add_all rb adds in
      held [] (ev ++ evs ++ ring_buffer__free rb') ≡ₚ leaked page env ++ flat_map (λ a, leaked page a.2) adds
  end.
Proof.
  intros Hpage Henv Hadds Hep. unfold ring_buffer__new. destruct opts_valid; [|by cbn]. destruct calloc_ok; [|by cbn].
  cbn [negb andb]. destruct epoll as [efd|e]; [|by cbn].
  set (rb0 := mkRingBuffer page efd []).
  assert (holds page rb0 [RFd efd] [] []) as H0 by (split; done).
  pose proof (add_held page Hpage rb0 fd env [RFd efd] [] [] Henv H0) as H. destruct (ring_buffer__add rb0 fd env) as [[rb ev] err].
  destruct H as (rest & H1 & H2 & Hcase). destruct (Z.eqb_spec err 0) as [->|Hne].
  - pose proof (add_all_held page rb adds _ rest _ Hpage Hadds H1) as H. destruct (add_all rb adds) as [rb' evs].
    destruct H as (rest' & [Hp Hr Hrest Hl Hk] & H4). rewrite !held_app.
    etrans; [apply (free_held page Hpage rb' _ rest' Hp); [rewrite H4, H2; exact Hep|done|done|exact Hl]|].
    rewrite <- Hk, app_nil_r. apply Permutation_app_comm.
  - split; [destruct Hcase as [?|[? _]]; [done|lia]|]. change (EpollCreate efd :: ev ++ ring_buffer__free rb) with ([EpollCreate efd] ++ ev ++ ring_buffer__free rb).
    rewrite !held_app. destruct H1 as [Hp Hr Hrest Hl Hk].
    etrans; [apply (free_held page Hpage rb _ rest Hp); [by rewrite H2|done|done|exact Hl]|]. by rewrite <- Hk, app_nil_r.
Qed.

(** Nothing is left of the maps of fewer than 2^31 bytes. *)
Lemma leaked_small page env : (match ae_info env with inl (_, max) => max < 2 ^ 31 | inr _ => True end) → leaked page env = [].
Proof.
  unfold leaked. destruct (ae_info env) as [[ty max]|], (ae_mmap_consumer env), (ae_mmap_producer env); try done. intros H.
  destruct (Z.leb_spec (2 ^ 31) max); [lia|]. by rewrite andb_false_r.
Qed.

(** [ring_buffer__consume] with callbacks that do not fail: every ring is drained up
    to its end or its first busy record, and the number of samples handed over is
    returned, capped at [INT_MAX]. *)
Theorem ring_buffer_consume_all {W} fuel (rs : list (ring W)) sts w :
  Forall2 ring_state_ok rs sts → Forall (λ r, ∀ w d, 0 ≤ (r_cb r w d).2) rs →
  Forall (λ st, (4 * length st.1 + 4 ≤ fuel)%nat) sts →
  foldr (λ st n, Z.of_nat (length st.1) + n) 0 sts < 2 ^ 63 →
  ∃ rs' w' ns, ring_buffer__consume fuel rs w =
      Some (rs', w', Z.min INT_MAX (foldr Z.add 0 (zip_with (λ st n, Z.of_nat (length (taken st.2 st.1 n))) sts ns))) ∧
    Forall2 ring_state_ok rs' (zip_with (λ st n, (st.1, n)) sts ns) ∧
    Forall at_end (zip_with (λ st n, (st.1, n)) sts ns).
Proof.
  intros HF Hcb Hfuel Hsum.
  destruct (process_rings_spec fuel [] rs sts w 0 HF Hcb Hfuel ltac:(done) ltac:(lia)) as (rs' & w' & ns & H1 & H2 & H3 & _).
  exists rs', w', ns. done.
Qed.

(** For a map of 2^31 bytes the size of the second mapping is computed in 32 bits and
    wraps to one page, while the mask the ring is read with, and the size it is
    unmapped with, are those of the whole map. *)
Theorem ring_add_size_wraps fd caddr paddr page :
  0 ≤ page < 2 ^ 31 →
  let env := mkAddEnv (inl (BPF_MAP_TYPE_RINGBUF, 2 ^ 31)) true true (inl caddr) (inl paddr) None in
  let '(rb, ev, err) := ring_buffer__add (mkRingBuffer page 3 []) fd env in
  err = 0 ∧ ev = [Mmap caddr page; Mmap paddr page] ∧
  map rc_mask (rb_rings rb) = [2 ^ 31 - 1] ∧
  flat_map (ringbuf_unmap_ring page) (rb_rings rb) = [Munmap caddr page; Munmap paddr (page + 2 ^ 32)].
Proof.
  intros Hp. cbn. change (u32 (2 * 2 ^ 31)) with 0. change (u32 (2 ^ 31 - 1)) with (2 ^ 31 - 1).
  change (u64 (2 * u64 (2 ^ 31 - 1 + 1))) with (2 ^ 32). rewrite Z.add_0_r, !wrap_small by (unfold in_u; lia). done.
Qed.

(** A map of a page whose second mapping fails is released; of a map of 2^31 bytes that is
    added and freed the second mapping stays. *)
Lemma ring_buffer_no_leak_witness :
  let env := mkAddEnv (inl (BPF_MAP_TYPE_RINGBUF, 4096)) true true (inl 1000) (inr 12) None in
  let env1 := mkAddEnv (inl (BPF_MAP_TYPE_RINGBUF, 4096)) true true (inl 1000) (inl 9000) None in
  let env2 := mkAddEnv (inl (BPF_MAP_TYPE_RINGBUF, 2 ^ 31)) true true (inl 20000) (inl 30000) None in
  held [] [EpollCreate 3; Mmap 1000 4096; Munmap 1000 4096; Close 3] ≡ₚ [] ∧
  ring_buffer__new true true 4096 (inl 3) 5 env =
    (inr 12, [EpollCreate 3; Mmap 1000 4096; Munmap 1000 4096; Close 3]) ∧
  held [] [EpollCreate 3; Mmap 1000 4096; Mmap 9000 12288; Mmap 20000 4096; Mmap 30000 4096;
           Munmap 1000 4096; Munmap 9000 12288; Munmap 20000 4096; Munmap 30000 (4096 + 2 ^ 32); Close 3] ≡ₚ [RMap 30000 4096].
Proof.
  intros env env1 env2.
  assert (env_ok env) as Henv by (repeat split). assert (env_ok env1) as Henv1 by (repeat split). assert (env_ok env2) as Henv2 by (repeat split).
  split; [|split; [reflexivity|]].
  - exact (proj2 (ring_buffer_no_leak true true 4096 (inl 3) 5 env [] ltac:(split; [discriminate|reflexivity]) Henv (Forall_nil_2 _) ltac:(discriminate))).
  - exact (ring_buffer_no_leak true true 4096 (inl 3) 5 env1 [(6, env2)] ltac:(split; [discriminate|reflexivity]) Henv1
      (Forall_cons_2 (λ a, env_ok a.2) (6, env2) [] Henv2 (Forall_nil_2 _)) ltac:(discriminate)).
Defined.

Lemma ring_buffer_consume_all_witness :
  ∃ rs' w', ring_buffer__consume 40 [mkRing 31 (λ (w : list (list Z)) d, (w ++ [d], 0)) demo_mem] [] = Some (rs', w', 1).
Proof.
  destruct (ring_buffer_consume_all 40 [mkRing 31 (λ (w : list (list Z)) d, (w ++ [d], 0)) demo_mem] [(demo_log, 0%nat)] [])
    as (rs' & w' & ns & Hc & _).
  - constructor; [exact demo_ok|constructor].
  - constructor; [intros; discriminate|constructor].
  - constructor; [vm_compute; lia|constructor].
  - reflexivity.
  - exists rs', w'. rewrite Hc. vm_compute in Hc. injection Hc as _ _ Hc. rewrite Hc. reflexivity.
Defined.

Lemma ring_add_size_wraps_witness :
  let env := mkAddEnv (inl (BPF_MAP_TYPE_RINGBUF, 2 ^ 31)) true true (inl 0) (inl 8192) None in
  (ring_buffer__add (mkRingBuffer 4096 3 []) 5 env).1.2 = [Mmap 0 4096; Mmap 8192 4096].
Proof. exact (proj1 (proj2 (ring_add_size_wraps 5 0 8192 4096 ltac:(split; vm_compute; congruence)))). Defined.
