(* ===== verification/Nlattr.v ===== *)
(** Netlink attributes (src/libbpf/src/nlattr.c, nlattr.h): parsing a stream of
    attributes against a policy, and building a request.

    A message is the list of the bytes of its buffer, a pointer into it an offset; a
    load outside the buffer is [None]. *)
From stdpp Require Import base list.
From Stdlib Require Import ZArith Lia.
From S2P Require Import Prelude Bytes.

#[local] Open Scope Z_scope.

Definition LIBBPF_NLA_UNSPEC : Z := 0.
Definition LIBBPF_NLA_U8 : Z := 1.
Definition LIBBPF_NLA_U16 : Z := 2.
Definition LIBBPF_NLA_U32 : Z := 3.
Definition LIBBPF_NLA_U64 : Z := 4.
Definition LIBBPF_NLA_STRING : Z := 5.
Definition LIBBPF_NLA_FLAG : Z := 6.
Definition LIBBPF_NLA_MSECS : Z := 7.
Definition LIBBPF_NLA_NESTED : Z := 8.
Definition LIBBPF_NLA_TYPE_MAX : Z := 8.

(** [linux/netlink.h] *)
Definition NLA_HDRLEN : Z := 4.
Definition NLMSG_HDRLEN : Z := 16.
Definition NLA_F_NESTED : Z := 2 ^ 15.
Definition NLA_TYPE_MASK : Z := 2 ^ 14 - 1.
Definition NLA_ALIGN (len : Z) : Z := Z.land (len + 3) (Z.lnot 3).
Definition NLMSG_ALIGN (len : Z) : Z := u32 (Z.land (u32 (len + 3)) (Z.lnot 3)).

(** [struct nlattr]: [nla_len] at 0, [nla_type] at 2. *)
Definition nla_len (mem : list Z) (nla : Z) : option Z := load16 mem nla.

Definition nla_attr_minlen (ty : Z) : Z :=
  if ty =? LIBBPF_NLA_U8 then 1
  else if ty =? LIBBPF_NLA_U16 then 2
  else if ty =? LIBBPF_NLA_U32 then 4
  else if ty =? LIBBPF_NLA_U64 then 8
  else if ty =? LIBBPF_NLA_STRING then 1
  else 0.

(** The attribute that follows, and the bytes then remaining. *)
Definition nla_next (mem : list Z) (nla remaining : Z) : option (Z * Z) :=
  len ← nla_len mem nla;
  let totlen := NLA_ALIGN len in
  Some (nla + totlen, remaining - totlen).

(** [remaining >= sizeof *nla] compares an [int] with a [size_t]: a negative
    [remaining] is converted to a large number. *)
Definition nla_ok (mem : list Z) (nla remaining : Z) : option bool :=
  if u64 remaining <? 4 then Some false
  else
    len ← nla_len mem nla;
    Some ((4 <=? len) && (len <=? remaining)).

Definition nla_type (mem : list Z) (nla : Z) : option Z :=
  t ← load16 mem (nla + 2); Some (Z.land t NLA_TYPE_MASK).

Definition libbpf_nla_data (nla : Z) : Z := nla + NLA_HDRLEN.

Definition libbpf_nla_len (mem : list Z) (nla : Z) : option Z :=
  len ← nla_len mem nla; Some (len - NLA_HDRLEN).

Definition libbpf_nla_getattr_u8 (mem : list Z) (nla : Z) : option Z := load8 mem (libbpf_nla_data nla).
Definition libbpf_nla_getattr_u32 (mem : list Z) (nla : Z) : option Z := load32 mem (libbpf_nla_data nla).

Record libbpf_nla_policy := mkPolicy { np_type : Z; np_minlen : Z; np_maxlen : Z }.

(** 0, or -1 for an attribute the policy rejects; [None] for a policy without an
    entry for the type, or a load outside the buffer. *)
Definition validate_nla (mem : list Z) (nla maxtype : Z) (policy : list libbpf_nla_policy) : option Z :=
  type ← nla_type mem nla;
  if (type <? 0) || (type >? maxtype) then Some 0
  else
    pt ← policy !! Z.to_nat type;
    if np_type pt >? LIBBPF_NLA_TYPE_MAX then Some 0
    else
      let minlen := if negb (np_minlen pt =? 0) then np_minlen pt
                    else if negb (np_type pt =? LIBBPF_NLA_UNSPEC) then nla_attr_minlen (np_type pt) else 0 in
      len ← libbpf_nla_len mem nla;
      if u32 len <? minlen then Some (-1)
      else if negb (np_maxlen pt =? 0) && (len >? np_maxlen pt) then Some (-1)
      else if np_type pt =? LIBBPF_NLA_STRING then
        c ← load8 mem (libbpf_nla_data nla + len - 1);
        Some (if negb (c =? 0) then -1 else 0)
      else Some 0.

(** The loop of [libbpf_nla_parse]; [tb] has [maxtype + 1] entries, [None] is
    [NULL].  A [policy] of [None] is the null pointer. *)
Fixpoint nla_parse_loop (fuel : nat) (mem : list Z) (maxtype : Z) (policy : option (list libbpf_nla_policy))
    (nla rem : Z) (tb : list (option Z)) : option (list (option Z) * Z) :=
  match fuel with
  | O => None
  | S fuel =>
      ok ← nla_ok mem nla rem;
      if negb ok then Some (tb, 0)
      else
        type ← nla_type mem nla;
        '(next, rem') ← nla_next mem nla rem;
        if type >? maxtype then nla_parse_loop fuel mem maxtype policy next rem' tb
        else
          err ← (match policy with Some policy => validate_nla mem nla maxtype policy | None => Some 0 end);
          if err <? 0 then Some (tb, err)
          else nla_parse_loop fuel mem maxtype policy next rem' (<[Z.to_nat type := Some nla]> tb)
  end.

Definition libbpf_nla_parse (fuel : nat) (mem : list Z) (maxtype head len : Z)
    (policy : option (list libbpf_nla_policy)) : option (list (option Z) * Z) :=
  nla_parse_loop fuel mem maxtype policy head len (replicate (Z.to_nat (maxtype + 1)) None).

Definition libbpf_nla_parse_nested (fuel : nat) (mem : list Z) (maxtype nla : Z)
    (policy : option (list libbpf_nla_policy)) : option (list (option Z) * Z) :=
  len ← libbpf_nla_len mem nla;
  libbpf_nla_parse fuel mem maxtype (libbpf_nla_data nla) len policy.

(** * Extended acknowledgements *)

Definition NLM_F_CAPPED : Z := 256.
Definition NLM_F_ACK_TLVS : Z := 512.
Definition NLMSGERR_ATTR_MSG : Z := 1.
Definition NLMSGERR_ATTR_OFFS : Z := 2.
Definition NLMSGERR_ATTR_MAX : Z := 3.

(** [struct nlmsghdr] (16 bytes): [nlmsg_len] at 0, [nlmsg_flags] at 6; [struct
    nlmsgerr] (20 bytes): [error] at 0, [msg] at 4. *)
Definition nlmsg_len (mem : list Z) (nlh : Z) : option Z := load32 mem nlh.

Definition extack_policy : list libbpf_nla_policy :=
  [mkPolicy 0 0 0; mkPolicy LIBBPF_NLA_STRING 0 0; mkPolicy LIBBPF_NLA_U32 0 0; mkPolicy 0 0 0].

(** Where the attributes start and how long the code takes them to be. *)
Definition errormsg_attrs (mem : list Z) (nlh : Z) : option (Z * Z) :=
  let err := nlh + NLMSG_HDRLEN in
  flags ← load16 mem (nlh + 6);
  hlen ← (if Z.land flags NLM_F_CAPPED =? 0 then l ← nlmsg_len mem (err + 4); Some (s32 (20 + s32 (l - NLMSG_HDRLEN)))
          else Some 20);
  total ← nlmsg_len mem nlh;
  Some (err + hlen, s32 (total - hlen)).

(** The offset of the message that is printed: [None] inside for no message. *)
Definition libbpf_nla_dump_errormsg (fuel : nat) (mem : list Z) (nlh : Z) : option (option Z) :=
  flags ← load16 mem (nlh + 6);
  if Z.land flags NLM_F_ACK_TLVS =? 0 then Some None
  else
    '(attr, alen) ← errormsg_attrs mem nlh;
    '(tb, err) ← libbpf_nla_parse fuel mem NLMSGERR_ATTR_MAX attr alen (Some extack_policy);
    if negb (err =? 0) then Some None
    else Some (libbpf_nla_data <$> default None (tb !! Z.to_nat NLMSGERR_ATTR_MSG)).

(** * Building a request *)

(** [sizeof(struct libbpf_nla_req)]: a header, [ifinfomsg]/[tcmsg], 128 bytes. *)
Definition SIZEOF_REQ : Z := 164.

Definition req_tail (req : list Z) : option Z := len ← nlmsg_len req 0; Some (NLMSG_ALIGN len).

(** The request and 0 or an error; [data] is [None] for the null pointer. *)
Definition nlattr_add (req : list Z) (type : Z) (data : option (list Z)) (len : Z) : option (list Z * Z) :=
  nlen ← nlmsg_len req 0;
  if u64 (u32 (NLMSG_ALIGN nlen + u32 (NLA_ALIGN (NLA_HDRLEN + len)))) >? SIZEOF_REQ then Some (req, - EMSGSIZE)
  else if xorb (match data with Some _ => true | None => false end) (negb (len =? 0)) then Some (req, - EINVAL)
  else
    nla ← req_tail req;
    req ← store req (nla + 2) (le_bytes 2 (u16 type));
    req ← store req nla (le_bytes 2 (u16 (NLA_HDRLEN + len)));
    req ← (match data with
           | Some d => bs ← slice d 0 (Z.to_nat len); store req (nla + NLA_HDRLEN) bs
           | None => Some req
           end);
    alen ← nla_len req nla;
    req ← store req 0 (le_bytes 4 (u32 (NLMSG_ALIGN nlen + u32 (NLA_ALIGN alen))));
    Some (req, 0).

(** [inr]: [NULL]. *)
Definition nlattr_begin_nested (req : list Z) (type : Z) : option (list Z * option Z) :=
  tail ← req_tail req;
  '(req, err) ← nlattr_add req (Z.lor type NLA_F_NESTED) None 0;
  Some (req, if err =? 0 then Some tail else None).

Definition nlattr_end_nested (req : list Z) (tail : Z) : option (list Z) :=
  t ← req_tail req;
  store req tail (le_bytes 2 (u16 (t - tail))).

(** * Specification: streams of attributes *)

(** An attribute: its raw type, its payload and the padding that follows. *)
Record attr := mkAttr { at_type : Z; at_data : list Z; at_pad : list Z }.

Definition at_len (a : attr) : Z := 4 + Z.of_nat (length (at_data a)).

Definition enc_attr (a : attr) : list Z :=
  le_bytes 2 (at_len a) ++ le_bytes 2 (at_type a) ++ at_data a ++ at_pad a.

Definition enc (l : list attr) : list Z := flat_map enc_attr l.

Definition attr_ok (a : attr) : Prop :=
  in_u 16 (at_type a) ∧ at_len a < 2 ^ 16 ∧
  Z.of_nat (length (at_pad a)) = NLA_ALIGN (at_len a) - at_len a.

Definition at_ty (a : attr) : Z := Z.land (at_type a) NLA_TYPE_MASK.

(** The fields of a policy are [uint16_t]. *)
Definition policy_ok (policy : list libbpf_nla_policy) : Prop :=
  Forall (λ pt, in_u 16 (np_type pt) ∧ in_u 16 (np_minlen pt) ∧ in_u 16 (np_maxlen pt)) policy.

(** What a policy entry demands of a payload. *)
Definition payload_ok (pt : libbpf_nla_policy) (data : list Z) : bool :=
  (np_type pt >? LIBBPF_NLA_TYPE_MAX) ||
  (((if negb (np_minlen pt =? 0) then np_minlen pt
     else if negb (np_type pt =? LIBBPF_NLA_UNSPEC) then nla_attr_minlen (np_type pt) else 0) <=? Z.of_nat (length data)) &&
   ((np_maxlen pt =? 0) || (Z.of_nat (length data) <=? np_maxlen pt)) &&
   (negb (np_type pt =? LIBBPF_NLA_STRING) || bool_decide (last data = Some 0))).

Definition attr_valid (maxtype : Z) (policy : option (list libbpf_nla_policy)) (a : attr) : bool :=
  (at_ty a >? maxtype) ||
  match policy with
  | None => true
  | Some p => match p !! Z.to_nat (at_ty a) with Some pt => payload_ok pt (at_data a) | None => true end
  end.

(** The index of the offsets: the last attribute of a type counts; parsing stops with
    -1 at the first attribute that is not valid. *)
Fixpoint index_attrs (maxtype : Z) (policy : option (list libbpf_nla_policy)) (off : Z) (l : list attr)
    (tb : list (option Z)) : list (option Z) * Z :=
  match l with
  | [] => (tb, 0)
  | a :: l =>
      let off' := off + Z.of_nat (length (enc_attr a)) in
      if negb (attr_valid maxtype policy a) then (tb, -1)
      else index_attrs maxtype policy off' l
             (if at_ty a >? maxtype then tb else <[Z.to_nat (at_ty a) := Some off]> tb)
  end.

(** * Lemmas *)

Lemma NLA_ALIGN_eq len : NLA_ALIGN len = (len + 3) / 4 * 4.
Proof.
  unfold NLA_ALIGN.
  apply Z.bits_inj'. intros n Hn. rewrite Z.land_spec, Z.lnot_spec by done.
  change 3 with (Z.ones 2) at 2. change 4 with (2 ^ 2).
  destruct (Z_lt_le_dec n 2).
  - rewrite Z.ones_spec_low by lia. rewrite Z.mul_pow2_bits_low by lia. by rewrite andb_false_r.
  - rewrite Z.ones_spec_high by lia. rewrite Z.mul_pow2_bits by lia. rewrite Z.div_pow2_bits by lia.
    rewrite andb_true_r. f_equal. lia.
Qed.

Lemma NLA_ALIGN_bounds len : len ≤ NLA_ALIGN len ≤ len + 3 ∧ NLA_ALIGN len `mod` 4 = 0.
Proof.
  rewrite NLA_ALIGN_eq. pose proof (Z.div_mod (len + 3) 4 ltac:(lia)). pose proof (Z.mod_pos_bound (len + 3) 4 ltac:(lia)).
  rewrite Z.mod_mul by lia. lia.
Qed.

Lemma length_enc_attr a : attr_ok a → Z.of_nat (length (enc_attr a)) = NLA_ALIGN (at_len a).
Proof.
  intros (_ & _ & Hp). unfold enc_attr. rewrite !length_app, !length_le_bytes. unfold at_len in *. lia.
Qed.

Lemma at_ty_range a : attr_ok a → 0 ≤ at_ty a < 2 ^ 14.
Proof. intros [Ht _]. unfold at_ty, NLA_TYPE_MASK. change (2 ^ 14 - 1) with (Z.ones 14). rewrite Z.land_ones by lia. apply Z.mod_pos_bound. lia. Qed.

(** Reading an attribute out of a stream. *)
Lemma attr_loads mem pre a post off :
  attr_ok a → mem = pre ++ enc_attr a ++ post → off = Z.of_nat (length pre) →
  nla_len mem off = Some (at_len a) ∧ nla_type mem off = Some (at_ty a) ∧
  slice mem (off + 4) (length (at_data a)) = Some (at_data a).
Proof.
  intros (Ht & Hl & Hp) -> ->. unfold enc_attr. split_and!.
  - unfold nla_len. rewrite <- !app_assoc. rewrite (load_app_mid pre (le_bytes 2 (at_len a))); [|done|by rewrite length_le_bytes].
    rewrite le_val_bytes_id; [done|]. unfold in_u, at_len in *. lia.
  - unfold nla_type. replace (pre ++ (le_bytes 2 (at_len a) ++ le_bytes 2 (at_type a) ++ at_data a ++ at_pad a) ++ post)
      with ((pre ++ le_bytes 2 (at_len a)) ++ le_bytes 2 (at_type a) ++ at_data a ++ at_pad a ++ post) by (by rewrite <- !app_assoc).
    rewrite load_app_mid by (rewrite ?length_app, ?length_le_bytes; lia). cbn [mbind option_bind].
    by rewrite le_val_bytes_id.
  - replace (pre ++ (le_bytes 2 (at_len a) ++ le_bytes 2 (at_type a) ++ at_data a ++ at_pad a) ++ post)
      with ((pre ++ le_bytes 2 (at_len a) ++ le_bytes 2 (at_type a)) ++ at_data a ++ at_pad a ++ post) by (by rewrite <- !app_assoc).
    apply slice_app_mid; [rewrite !length_app, !length_le_bytes; lia|done].
Qed.

Lemma load8_last mem off data c :
  slice mem off (length data) = Some data → last data = Some c →
  load8 mem (off + Z.of_nat (length data) - 1) = Some c.
Proof.
  intros (pre & post & -> & -> & _)%slice_split [l ->]%last_Some.
  rewrite <- app_assoc, app_assoc. rewrite load_app_mid; [cbn; f_equal; lia| |done].
  rewrite !length_app. cbn. lia.
Qed.

Lemma validate_spec mem pre a post off maxtype policy :
  attr_ok a → mem = pre ++ enc_attr a ++ post → off = Z.of_nat (length pre) →
  policy_ok policy → maxtype < Z.of_nat (length policy) → (at_ty a >? maxtype) = false →
  validate_nla mem off maxtype policy = Some (if attr_valid maxtype (Some policy) a then 0 else -1).
Proof.
  intros Hok Hmem Hoff Hpol Hpl Hty. destruct (attr_loads mem pre a post off Hok Hmem Hoff) as (Hlen & Htype & Hdata).
  pose proof (at_ty_range a Hok). unfold validate_nla. rewrite Htype. cbn [mbind option_bind].
  unfold attr_valid. rewrite Hty, orb_false_r. cbn [orb]. destruct (Z.ltb_spec (at_ty a) 0); [lia|].
  destruct (lookup_lt_is_Some_2 policy (Z.to_nat (at_ty a))) as [pt Hpt].
  { rewrite Z.gtb_ltb in Hty. apply Z.ltb_ge in Hty. lia. }
  rewrite Hpt. cbn [mbind option_bind]. unfold payload_ok. destruct (np_type pt >? LIBBPF_NLA_TYPE_MAX); [done|]. cbn [orb].
  unfold libbpf_nla_len. rewrite Hlen. cbn [mbind option_bind].
  replace (at_len a - NLA_HDRLEN) with (Z.of_nat (length (at_data a))) by (unfold at_len, NLA_HDRLEN; lia).
  set (minlen := if negb (np_minlen pt =? 0) then _ else _).
  destruct Hok as (_ & Hl16 & _). unfold at_len in Hl16.
  rewrite (wrap_small 32) by (unfold in_u; lia).
  destruct (Z.ltb_spec (Z.of_nat (length (at_data a))) minlen), (Z.leb_spec minlen (Z.of_nat (length (at_data a)))); try lia; [done|].
  cbn [andb].
  assert ((if np_type pt =? LIBBPF_NLA_STRING
           then c ← load8 mem (libbpf_nla_data off + Z.of_nat (length (at_data a)) - 1); Some (if negb (c =? 0) then -1 else 0)
           else Some 0) =
          Some (if negb (np_type pt =? LIBBPF_NLA_STRING) || bool_decide (last (at_data a) = Some 0) then 0 else -1)) as ->.
  { destruct (Z.eqb_spec (np_type pt) LIBBPF_NLA_STRING) as [Es|]; cbn [negb orb]; [|done].
    destruct (last (at_data a)) as [c|] eqn:El.
    - unfold libbpf_nla_data, NLA_HDRLEN. rewrite (load8_last _ _ _ c Hdata El). cbn [mbind option_bind].
      destruct (Z.eqb_spec c 0); [rewrite bool_decide_true by congruence|rewrite bool_decide_false by congruence]; done.
    - exfalso. apply last_None in El. rewrite El in *. cbn [length Z.of_nat] in *.
      apply (proj1 (Forall_lookup _ _) Hpol) in Hpt as (_ & [Hm _] & _). unfold minlen in *. rewrite Es in *.
      destruct (Z.eqb_spec (np_minlen pt) 0); cbn [negb] in *; [|lia].
      change (if negb (LIBBPF_NLA_STRING =? LIBBPF_NLA_UNSPEC) then nla_attr_minlen LIBBPF_NLA_STRING else 0) with 1 in *. lia. }
  destruct (np_maxlen pt =? 0); cbn [negb andb orb]; [by destruct (negb _ || _)|].
  rewrite Z.gtb_ltb. destruct (Z.ltb_spec (np_maxlen pt) (Z.of_nat (length (at_data a)))),
    (Z.leb_spec (Z.of_nat (length (at_data a))) (np_maxlen pt)); try lia; [done|]. cbn [andb]. by destruct (negb _ || _).
Qed.

Lemma parse_loop_spec mem maxtype policy fuel pre l junk tb :
  Forall attr_ok l → mem = pre ++ enc l ++ junk →
  match policy with Some p => policy_ok p ∧ maxtype < Z.of_nat (length p) | None => True end →
  Z.of_nat (length (enc l)) < 2 ^ 31 → (length l < fuel)%nat →
  nla_parse_loop fuel mem maxtype policy (Z.of_nat (length pre)) (Z.of_nat (length (enc l))) tb =
  Some (index_attrs maxtype policy (Z.of_nat (length pre)) l tb).
Proof.
  intros HF. revert fuel pre tb. induction HF as [|a l Ha HF IH]; intros fuel pre tb Hmem Hpol Hlen Hfuel;
    (destruct fuel as [|fuel]; [cbn in Hfuel; lia|]); cbn [nla_parse_loop index_attrs].
  - unfold nla_ok. change (Z.of_nat (length (enc []))) with 0. reflexivity.
  - cbn [enc flat_map] in Hmem, Hlen |- *. fold (enc l) in Hmem, Hlen |- *. rewrite length_app in Hlen |- *.
    rewrite <- app_assoc in Hmem. cbn [length] in Hfuel.
    destruct (attr_loads mem pre a (enc l ++ junk) _ Ha Hmem eq_refl) as (Hl & Ht & _).
    pose proof (length_enc_attr a Ha) as Hla. pose proof (NLA_ALIGN_bounds (at_len a)) as [Hal _].
    assert (4 ≤ at_len a) as H4 by (unfold at_len; lia).
    unfold nla_ok. rewrite (wrap_small 64) by (unfold in_u; lia).
    destruct (Z.ltb_spec (Z.of_nat (length (enc_attr a) + length (enc l))) 4); [lia|].
    rewrite Hl. cbn [mbind option_bind]. destruct (Z.leb_spec 4 (at_len a)); [|lia].
    destruct (Z.leb_spec (at_len a) (Z.of_nat (length (enc_attr a) + length (enc l)))); [|lia]. cbn [andb negb].
    rewrite Ht. cbn [mbind option_bind]. unfold nla_next. rewrite Hl. cbn [mbind option_bind]. rewrite <- Hla.
    replace (Z.of_nat (length (enc_attr a) + length (enc l)) - Z.of_nat (length (enc_attr a))) with (Z.of_nat (length (enc l))) by lia.
    replace (Z.of_nat (length pre) + Z.of_nat (length (enc_attr a))) with (Z.of_nat (length (pre ++ enc_attr a))) by (rewrite length_app; lia).
    assert (mem = (pre ++ enc_attr a) ++ enc l ++ junk) as Hmem' by (by rewrite Hmem, <- app_assoc).
    destruct (at_ty a >? maxtype) eqn:Ety.
    + unfold attr_valid at 1. rewrite Ety. cbn [orb negb]. apply IH; done || lia.
    + assert ((match policy with Some policy => validate_nla mem (Z.of_nat (length pre)) maxtype policy | None => Some 0 end) =
        Some (if attr_valid maxtype policy a then 0 else -1)) as ->.
      { destruct policy as [p|]; [|unfold attr_valid; by rewrite Ety]. destruct Hpol. by apply (validate_spec mem pre a (enc l ++ junk)). }
      cbn [mbind option_bind]. destruct (attr_valid maxtype policy a); cbn [negb]; [|done].
      change (0 <? 0) with false. cbn iota. apply IH; done || lia.
Qed.

(** The offset of the last attribute of type [ty] in a stream that starts at [off]. *)
Fixpoint last_attr (off : Z) (l : list attr) (ty : Z) : option Z :=
  match l with
  | [] => None
  | a :: l =>
      match last_attr (off + Z.of_nat (length (enc_attr a))) l ty with
      | Some o => Some o
      | None => if at_ty a =? ty then Some off else None
      end
  end.

Lemma index_attrs_spec maxtype policy off l tb :
  Forall attr_ok l → length tb = Z.to_nat (maxtype + 1) →
  let '(tb', err) := index_attrs maxtype policy off l tb in
  err = (if forallb (attr_valid maxtype policy) l then 0 else -1) ∧
  (err = 0 → ∀ ty, 0 ≤ ty ≤ maxtype →
    tb' !! Z.to_nat ty = match last_attr off l ty with Some o => Some (Some o) | None => tb !! Z.to_nat ty end).
Proof.
  intros HF. revert off tb. induction HF as [|a l Ha _ IH]; intros off tb Htb; cbn [index_attrs forallb last_attr]; [done|].
  destruct (attr_valid maxtype policy a); cbn [negb andb]; [|done].
  set (tb1 := if at_ty a >? maxtype then tb else _).
  assert (length tb1 = Z.to_nat (maxtype + 1)) as Htb1 by (unfold tb1; destruct (_ >? _); [done|by rewrite length_insert]).
  specialize (IH (off + Z.of_nat (length (enc_attr a))) tb1 Htb1).
  destruct (index_attrs _ _ _ l tb1) as [tb' err]. destruct IH as [He IH]. split; [done|].
  intros H0 ty Hty. rewrite (IH H0 ty Hty). destruct (last_attr _ l ty); [done|].
  pose proof (at_ty_range a Ha). unfold tb1. rewrite Z.gtb_ltb.
  destruct (Z.ltb_spec maxtype (at_ty a)), (Z.eqb_spec (at_ty a) ty) as [E|Hne]; [lia|done| |].
  - rewrite E, list_lookup_insert_eq by lia. done.
  - by rewrite list_lookup_insert_ne by lia.
Qed.

(** ** Arbitrary bytes *)

Lemma nla_parse_defined mem maxtype policy fuel nla rem tb :
  bytes_ok mem → 0 ≤ nla → 0 ≤ rem → nla + rem ≤ Z.of_nat (length mem) → rem `mod` 4 = 0 → rem < 2 ^ 31 →
  match policy with Some p => policy_ok p ∧ maxtype < Z.of_nat (length p) | None => True end →
  (Z.to_nat (rem / 4) < fuel)%nat →
  is_Some (nla_parse_loop fuel mem maxtype policy nla rem tb).
Proof.
  intros Hb. revert nla rem tb. induction fuel as [|fuel IH]; intros nla rem tb Hnla Hrem Hin Hmod Hmax Hpol Hfuel; [lia|].
  cbn [nla_parse_loop]. unfold nla_ok. rewrite (wrap_small 64) by (unfold in_u; lia).
  destruct (Z.ltb_spec rem 4) as [|H4]; [cbn; eauto|].
  assert (is_Some (nla_len mem nla)) as [len Hlen] by (apply load_is_Some; lia).
  assert (is_Some (load16 mem (nla + 2))) as [t Ht] by (apply load_is_Some; lia).
  rewrite Hlen. cbn [mbind option_bind]. destruct (Z.leb_spec 4 len) as [Hl4|]; [|cbn; eauto].
  destruct (Z.leb_spec len rem) as [Hlr|]; cbn [andb negb mbind option_bind]; [|eauto].
  unfold nla_type. rewrite Ht. cbn [mbind option_bind]. set (ty := Z.land t NLA_TYPE_MASK).
  unfold nla_next. rewrite Hlen. cbn [mbind option_bind].
  pose proof (NLA_ALIGN_bounds len) as [Ha1 Ha2].
  assert (NLA_ALIGN len ≤ rem).
  { pose proof (Z.div_mod rem 4 ltac:(lia)). pose proof (Z.div_mod (NLA_ALIGN len) 4 ltac:(lia)). lia. }
  assert (∀ tb, is_Some (nla_parse_loop fuel mem maxtype policy (nla + NLA_ALIGN len) (rem - NLA_ALIGN len) tb)) as Hnext.
  { intros tb'. apply IH; try done; try lia.
    - rewrite Zminus_mod, Hmod, Ha2. done.
    - apply Nat.lt_le_trans with (Z.to_nat (rem / 4)); [|lia].
      apply Z2Nat.inj_lt; [apply Z.div_pos; lia|apply Z.div_pos; lia|].
      pose proof (Z.div_mod rem 4 ltac:(lia)). pose proof (Z.div_mod (rem - NLA_ALIGN len) 4 ltac:(lia)).
      assert ((rem - NLA_ALIGN len) `mod` 4 = 0) by (rewrite Zminus_mod, Hmod, Ha2; done). lia. }
  destruct (ty >? maxtype) eqn:Ety; [apply Hnext|].
  assert (is_Some (match policy with Some policy => validate_nla mem nla maxtype policy | None => Some 0 end)) as [err Herr].
  { destruct policy as [p|]; [|eauto]. destruct Hpol as [Hp Hpl]. unfold validate_nla, nla_type.
    rewrite Ht. cbn [mbind option_bind]. fold ty.
    assert (0 ≤ ty) as Hty by (apply Z.land_nonneg; right; unfold NLA_TYPE_MASK; lia).
    destruct ((ty <? 0) || (ty >? maxtype)); [eauto|].
    rewrite Z.gtb_ltb in Ety. apply Z.ltb_ge in Ety.
    destruct (lookup_lt_is_Some_2 p (Z.to_nat ty) ltac:(lia)) as [pt Hpt]. rewrite Hpt. cbn [mbind option_bind].
    destruct (np_type pt >? LIBBPF_NLA_TYPE_MAX); [eauto|]. unfold libbpf_nla_len. rewrite Hlen. cbn [mbind option_bind].
    destruct (Z.ltb_spec (u32 (len - NLA_HDRLEN)) (if negb (np_minlen pt =? 0) then np_minlen pt
      else if negb (np_type pt =? LIBBPF_NLA_UNSPEC) then nla_attr_minlen (np_type pt) else 0)) as [|Hmin]; [eauto|].
    destruct (_ && _); [eauto|]. destruct (Z.eqb_spec (np_type pt) LIBBPF_NLA_STRING) as [Es|]; [|eauto].
    assert (0 < len - NLA_HDRLEN).
    { unfold NLA_HDRLEN in *. rewrite (wrap_small 32) in Hmin by (unfold in_u; lia).
      apply (proj1 (Forall_lookup _ _) Hp) in Hpt as (_ & [Hm _] & _). rewrite Es in Hmin.
      change (if negb (LIBBPF_NLA_STRING =? LIBBPF_NLA_UNSPEC) then nla_attr_minlen LIBBPF_NLA_STRING else 0) with 1 in Hmin.
      destruct (Z.eqb_spec (np_minlen pt) 0); cbn [negb] in Hmin; lia. }
    assert (is_Some (load8 mem (libbpf_nla_data nla + (len - NLA_HDRLEN) - 1))) as [c ->].
    { apply load_is_Some. unfold libbpf_nla_data, NLA_HDRLEN in *. lia. }
    cbn. eauto. }
  rewrite Herr. cbn [mbind option_bind]. destruct (err <? 0); [eauto|]. apply Hnext.
Qed.

(** ** Building *)

(** A request whose header takes [h] bytes, holding the attributes [l]. *)
Record req_rel (req : list Z) (h : nat) (l : list attr) : Prop := {
  rq_len : Z.of_nat (length req) = SIZEOF_REQ;
  rq_bytes : ∃ head junk, req = head ++ enc l ++ junk ∧ length head = h;
  rq_nlen : nlmsg_len req 0 = Some (Z.of_nat (h + length (enc l)));
  rq_h : (16 ≤ h)%nat ∧ Z.of_nat h `mod` 4 = 0;
  rq_attrs : Forall attr_ok l;
}.

Lemma enc_align l : Forall attr_ok l → Z.of_nat (length (enc l)) `mod` 4 = 0.
Proof.
  induction 1 as [|a l Ha _ IH]; [done|]. cbn [enc flat_map]. fold (enc l).
  rewrite length_app, Nat2Z.inj_add, length_enc_attr, Z.add_mod, IH by (done || lia).
  by rewrite (proj2 (NLA_ALIGN_bounds _)).
Qed.

Lemma NLMSG_ALIGN_id n : in_u 31 n → n `mod` 4 = 0 → NLMSG_ALIGN n = n.
Proof.
  intros [H1 H2] Hm. unfold NLMSG_ALIGN. rewrite (wrap_small 32 (n + 3)) by (unfold in_u; lia).
  change (Z.land (n + 3) (Z.lnot 3)) with (NLA_ALIGN n). rewrite NLA_ALIGN_eq.
  assert ((n + 3) / 4 * 4 = n) as ->.
  { pose proof (Z.div_mod n 4 ltac:(lia)). rewrite Hm in *.
    assert ((n + 3) / 4 = n / 4) as ->; [|lia]. symmetry. apply Z.div_unique with 3; lia. }
  apply wrap_small. unfold in_u. lia.
Qed.

Lemma enc_app l1 l2 : enc (l1 ++ l2) = enc l1 ++ enc l2.
Proof. apply flat_map_app. Qed.

Lemma enc_cons a l : enc (a :: l) = enc_attr a ++ enc l.
Proof. done. Qed.

Lemma load32_head head rest : (4 ≤ length head)%nat → load32 (head ++ rest) 0 = load32 head 0.
Proof.
  intros H. assert (length (take 4 head) = 4%nat) by (rewrite length_take; lia).
  assert (∀ r, load32 (take 4 head ++ r) 0 = Some (le_val (take 4 head))) as E.
  { intros r. by apply (load_app_mid [] (take 4 head) r 0 4). }
  rewrite <- (take_drop 4 head) at 1. rewrite <- app_assoc, E. rewrite <- (take_drop 4 head) at 2. by rewrite E.
Qed.

(** Storing over a part of a buffer. *)
Lemma store_at mem off bs pre old post :
  mem = pre ++ old ++ post → off = Z.of_nat (length pre) → length old = length bs →
  store mem off bs = Some (pre ++ bs ++ post).
Proof. intros -> Ho Hl. by apply store_app_mid. Qed.

Lemma nlattr_add_spec req h l type data :
  req_rel req h l → in_u 16 type → 4 + Z.of_nat (length data) < 2 ^ 16 →
  let d := match data with [] => None | _ => Some data end in
  if Z.of_nat (h + length (enc l)) + NLA_ALIGN (4 + Z.of_nat (length data)) <=? SIZEOF_REQ then
    ∃ req' pad, nlattr_add req type d (Z.of_nat (length data)) = Some (req', 0) ∧
      req_rel req' h (l ++ [mkAttr type data pad])
  else nlattr_add req type d (Z.of_nat (length data)) = Some (req, - EMSGSIZE).
Proof.
  intros [Hlen (head & junk & Hreq & Hhead) Hnlen [Hh Hh4] HF] Hty Hdl d. unfold SIZEOF_REQ in *.
  pose proof (NLA_ALIGN_bounds (4 + Z.of_nat (length data))) as [Ha1 Ha4].
  pose proof (enc_align l HF) as He4. set (n := Z.of_nat (h + length (enc l))) in *.
  assert (0 ≤ n ≤ 164) as Hn by (rewrite Hreq, !length_app in Hlen; unfold n; lia).
  assert (NLMSG_ALIGN n = n) as Hna.
  { apply NLMSG_ALIGN_id; [unfold in_u; lia|]. unfold n. rewrite Nat2Z.inj_add, Z.add_mod, Hh4, He4 by lia. done. }
  unfold nlattr_add, NLA_HDRLEN. rewrite Hnlen. cbn [mbind option_bind]. rewrite Hna.
  assert (u64 (u32 (n + u32 (NLA_ALIGN (4 + Z.of_nat (length data))))) = n + NLA_ALIGN (4 + Z.of_nat (length data))) as ->.
  { rewrite (wrap_small 32 (NLA_ALIGN _)) by (unfold in_u; lia). rewrite !wrap_small; [done|unfold in_u; rewrite ?(wrap_small 32); unfold in_u; lia..]. }
  rewrite Z.gtb_ltb. destruct (Z.ltb_spec SIZEOF_REQ (n + NLA_ALIGN (4 + Z.of_nat (length data)))) as [Hgt|Hle];
    destruct (Z.leb_spec (n + NLA_ALIGN (4 + Z.of_nat (length data))) 164) as [Hle'|Hgt']; unfold SIZEOF_REQ in *; try lia; [done|].
  assert (xorb (match d with Some _ => true | None => false end) (negb (Z.of_nat (length data) =? 0)) = false) as ->.
  { unfold d. destruct data; [done|]. cbn [length]. destruct (Z.eqb_spec (Z.of_nat (S (length data))) 0); [lia|done]. }
  unfold req_tail. rewrite Hnlen. cbn [mbind option_bind]. rewrite Hna.
  (* the unused bytes: the attribute's four header bytes, its payload, its padding *)
  set (m := Z.to_nat (NLA_ALIGN (4 + Z.of_nat (length data)) - (4 + Z.of_nat (length data)))).
  assert (length junk >= 4 + length data + m)%nat as Hroom.
  { rewrite Hreq, !length_app in Hlen. unfold n, m in *. lia. }
  assert (∃ j1 j2 j3 pad junk', junk = j1 ++ j2 ++ j3 ++ pad ++ junk' ∧ length j1 = 2%nat ∧ length j2 = 2%nat ∧
    length j3 = length data ∧ length pad = m) as (j1 & j2 & j3 & pad & junk' & -> & H1 & H2 & H3 & H4).
  { exists (take 2 junk), (take 2 (drop 2 junk)), (take (length data) (drop 4 junk)),
      (take m (drop (4 + length data) junk)), (drop (4 + length data + m) junk).
    rewrite !length_take, !length_drop. split_and!; try lia.
    rewrite <- (take_drop 2 junk) at 1. f_equal. rewrite <- (take_drop 2 (drop 2 junk)) at 1. f_equal.
    rewrite drop_drop. rewrite <- (take_drop (length data) (drop (2 + 2) junk)) at 1. f_equal.
    rewrite drop_drop. rewrite <- (take_drop m (drop (2 + 2 + length data) junk)) at 1. f_equal. by rewrite drop_drop. }
  rewrite (wrap_small 16 type), (wrap_small 16 (4 + Z.of_nat (length data))) by (unfold in_u in *; lia).
  set (lt := le_bytes 2 type). set (ll := le_bytes 2 (4 + Z.of_nat (length data))).
  assert (length lt = 2%nat ∧ length ll = 2%nat) as [Hlt Hll] by (unfold lt, ll; by rewrite !length_le_bytes).
  assert (Z.of_nat (length (head ++ enc l)) = n) as Hpos by (rewrite length_app; unfold n; lia).
  rewrite (store_at req (n + 2) lt (head ++ enc l ++ j1) j2 (j3 ++ pad ++ junk')).
  2: { by rewrite Hreq, <- !app_assoc. }
  2: { rewrite !length_app in *. lia. }
  2: { lia. }
  cbn [mbind option_bind].
  rewrite (store_at _ n ll (head ++ enc l) j1 (lt ++ j3 ++ pad ++ junk')); [|by rewrite <- !app_assoc|done|lia].
  cbn [mbind option_bind].
  assert ((match d with
           | Some x => bs ← slice x 0 (Z.to_nat (Z.of_nat (length data)));
                       store ((head ++ enc l) ++ ll ++ lt ++ j3 ++ pad ++ junk') (n + 4) bs
           | None => Some ((head ++ enc l) ++ ll ++ lt ++ j3 ++ pad ++ junk')
           end) = Some ((head ++ enc l) ++ ll ++ lt ++ data ++ pad ++ junk')) as ->.
  { unfold d. destruct data as [|c data]; [destruct j3; [done|done]|]. rewrite Nat2Z.id.
    rewrite <- (app_nil_r (c :: data)) at 1. rewrite (slice_app_mid [] (c :: data) []) by done. cbn [mbind option_bind].
    rewrite (store_at _ (n + 4) (c :: data) ((head ++ enc l) ++ ll ++ lt) j3 (pad ++ junk')); [by rewrite <- !app_assoc|by rewrite <- !app_assoc| |done].
    rewrite !length_app in *. lia. }
  cbn [mbind option_bind].
  set (a := mkAttr type data pad).
  assert (attr_ok a) as Ha by (split_and!; cbn; try done; unfold at_len; cbn; unfold m in *; lia).
  assert ((head ++ enc l) ++ ll ++ lt ++ data ++ pad ++ junk' = (head ++ enc l) ++ enc_attr a ++ junk') as ->.
  { unfold enc_attr, a, at_len. cbn. by rewrite <- !app_assoc. }
  destruct (attr_loads _ (head ++ enc l) a junk' n Ha eq_refl (eq_sym Hpos)) as (-> & _ & _). cbn [mbind option_bind].
  unfold at_len at 1. cbn [a at_data].
  assert (u32 (n + u32 (NLA_ALIGN (4 + Z.of_nat (length data)))) = n + NLA_ALIGN (4 + Z.of_nat (length data))) as ->.
  { rewrite !wrap_small; [done|unfold in_u; rewrite ?wrap_small; unfold in_u; lia..]. }
  set (ln := le_bytes 4 (n + NLA_ALIGN (4 + Z.of_nat (length data)))).
  assert (length ln = 4%nat) as Hln by (unfold ln; by rewrite length_le_bytes).
  rewrite (store_at _ 0 ln [] (take 4 head) (drop 4 head ++ enc l ++ enc_attr a ++ junk')).
  2: { cbn [app]. rewrite !app_assoc. by rewrite take_drop. }
  2: { done. }
  2: { rewrite length_take. lia. }
  cbn [mbind option_bind app]. eexists _, pad. split; [reflexivity|]. pose proof (length_enc_attr a Ha) as Hla.
  unfold at_len in Hla. cbn [a at_data] in Hla. fold a in Hla.
  split.
  - unfold SIZEOF_REQ. rewrite <- Hlen, Hreq. rewrite !length_app, length_drop in *. unfold m in *. lia.
  - exists (ln ++ drop 4 head), junk'. rewrite enc_app. cbn [enc flat_map]. rewrite app_nil_r, <- !app_assoc. split; [done|].
    rewrite length_app, length_drop. lia.
  - unfold nlmsg_len. etransitivity; [by apply (load_app_mid [] ln (drop 4 head ++ enc l ++ enc_attr a ++ junk') 0 4)|].
    unfold ln. rewrite le_val_bytes_id by (unfold in_u; lia).
    f_equal. rewrite enc_app, length_app. cbn [enc flat_map]. rewrite app_nil_r. fold a. unfold n in *. lia.
  - done.
  - apply Forall_app. by split; [|constructor].
Qed.

(** [nlattr_end_nested]: the attributes added since become the payload of the nested
    one. *)
Lemma end_nested_spec req h l t inner :
  req_rel req h (l ++ mkAttr t [] [] :: inner) →
  ∃ req', nlattr_end_nested req (Z.of_nat (h + length (enc l))) = Some req' ∧
    req_rel req' h (l ++ [mkAttr t (enc inner) []]).
Proof.
  intros [Hlen (head & junk & Hreq & Hhead) Hnlen [Hh Hh4] HF]. unfold SIZEOF_REQ in *.
  pose proof (enc_align _ HF) as He4. apply Forall_app in HF as [HFl [Hhd HFi]%Forall_cons].
  pose proof (enc_align _ HFi) as Hi4. destruct Hhd as (Ht & _).
  assert (length (enc (l ++ mkAttr t [] [] :: inner)) = length (enc l) + (4 + length (enc inner)))%nat as Hl.
  { rewrite enc_app, length_app, enc_cons, length_app. unfold enc_attr. rewrite !length_app, !length_le_bytes. cbn [at_data at_pad length]. lia. }
  rewrite Hl in *. assert (h + (length (enc l) + (4 + length (enc inner))) ≤ 164)%nat as Hmax.
  { rewrite Hreq, !length_app, Hl in Hlen. lia. }
  unfold nlattr_end_nested, req_tail. rewrite Hnlen. cbn [mbind option_bind].
  rewrite NLMSG_ALIGN_id.
  2: { unfold in_u. lia. }
  2: { rewrite Nat2Z.inj_add, Z.add_mod, Hh4, He4 by lia. done. }
  replace (Z.of_nat (h + (length (enc l) + (4 + length (enc inner)))) - Z.of_nat (h + length (enc l)))
    with (4 + Z.of_nat (length (enc inner))) by lia.
  rewrite wrap_small by (unfold in_u; lia).
  rewrite (store_at req _ _ (head ++ enc l) (le_bytes 2 (at_len (mkAttr t [] []))) (le_bytes 2 t ++ enc inner ++ junk)).
  2: { rewrite Hreq, enc_app. cbn [enc flat_map]. unfold enc_attr. cbn [at_type at_data at_pad app]. by rewrite <- !app_assoc. }
  2: { rewrite length_app. lia. }
  2: { by rewrite !length_le_bytes. }
  eexists. split; [reflexivity|].
  assert ((head ++ enc l) ++ le_bytes 2 (4 + Z.of_nat (length (enc inner))) ++ le_bytes 2 t ++ enc inner ++ junk =
    head ++ enc (l ++ [mkAttr t (enc inner) []]) ++ junk) as ->.
  { rewrite enc_app. cbn [enc flat_map]. unfold enc_attr, at_len. cbn [at_type at_data at_pad]. by rewrite !app_nil_r, <- !app_assoc. }
  assert (length (enc (l ++ [mkAttr t (enc inner) []])) = length (enc l) + (4 + length (enc inner)))%nat as Hl'.
  { rewrite enc_app, length_app, enc_cons, length_app. unfold enc_attr. rewrite !length_app, !length_le_bytes. cbn [at_data at_pad length enc flat_map]. lia. }
  split.
  - unfold SIZEOF_REQ. rewrite <- Hlen, Hreq, !length_app, Hl, Hl'. lia.
  - by eexists head, junk.
  - rewrite Hl'. unfold nlmsg_len in *. rewrite <- Hnlen, Hreq. by rewrite !(load32_head head) by lia.
  - done.
  - apply Forall_app. split; [done|]. constructor; [|done]. split_and!; cbn; [done|unfold at_len; cbn; lia|].
    unfold at_len. cbn [at_data]. rewrite NLA_ALIGN_eq.
    assert ((4 + Z.of_nat (length (enc inner)) + 3) / 4 * 4 = 4 + Z.of_nat (length (enc inner))); [|cbn; lia].
    pose proof (Z.div_mod (Z.of_nat (length (enc inner))) 4 ltac:(lia)). rewrite Hi4 in *.
    assert ((4 + Z.of_nat (length (enc inner)) + 3) / 4 = 1 + Z.of_nat (length (enc inner)) / 4); [|lia].
    symmetry. apply Z.div_unique with 3; lia.
Qed.

(** Adding attributes one after the other; [None] when one does not fit. *)
Fixpoint nlattr_add_all (req : list Z) (items : list (Z * list Z)) : option (list Z) :=
  match items with
  | [] => Some req
  | (type, data) :: items =>
      '(req, err) ← nlattr_add req type (match data with [] => None | _ => Some data end) (Z.of_nat (length data));
      if err =? 0 then nlattr_add_all req items else None
  end.

Definition item_ok (it : Z * list Z) : Prop := in_u 16 it.1 ∧ 4 + Z.of_nat (length it.2) < 2 ^ 16.

Definition items_size (items : list (Z * list Z)) : Z :=
  foldr (λ it n, NLA_ALIGN (4 + Z.of_nat (length it.2)) + n) 0 items.

Lemma add_all_rel req h l items :
  req_rel req h l → Forall item_ok items → Z.of_nat (h + length (enc l)) + items_size items ≤ SIZEOF_REQ →
  ∃ req' l', nlattr_add_all req items = Some req' ∧ req_rel req' h (l ++ l') ∧ map (λ a, (at_type a, at_data a)) l' = items.
Proof.
  intros Hrel HF. revert req l Hrel. induction HF as [|[ty data] items [Hty Hd] _ IH]; intros req l Hrel Hsz.
  - exists req, []. by rewrite app_nil_r.
  - cbn [items_size foldr snd] in Hsz. fold (items_size items) in Hsz. cbn in Hty, Hd.
    assert (0 ≤ items_size items) as Hpos.
    { clear. induction items as [|it items IH]; cbn; [done|]. fold (items_size items).
      pose proof (NLA_ALIGN_bounds (4 + Z.of_nat (length it.2))). lia. }
    pose proof (nlattr_add_spec req h l ty data Hrel Hty Hd) as H. cbn zeta in H.
    destruct (Z.leb_spec (Z.of_nat (h + length (enc l)) + NLA_ALIGN (4 + Z.of_nat (length data))) SIZEOF_REQ); [|lia].
    destruct H as (req1 & pad & Hadd & Hrel1).
    destruct (IH req1 _ Hrel1) as (req2 & l2 & Hall & Hrel2 & Hmap).
    { rewrite enc_app, length_app. cbn [enc flat_map]. rewrite app_nil_r.
      pose proof (rq_attrs _ _ _ Hrel1) as HF1. apply Forall_app in HF1 as [_ [Ha _]%Forall_cons].
      pose proof (length_enc_attr _ Ha) as Hla. unfold at_len in Hla. cbn [at_data] in Hla. lia. }
    exists req2, (mkAttr ty data pad :: l2). cbn [nlattr_add_all]. rewrite Hadd. cbn [mbind option_bind].
    change (0 =? 0) with true. cbn iota. split; [done|]. rewrite <- app_assoc in Hrel2. split; [done|]. cbn. by rewrite Hmap.
Qed.

Lemma items_size_pos items : 0 ≤ items_size items.
Proof.
  induction items as [|it items IH]; cbn; [done|]. fold (items_size items).
  pose proof (NLA_ALIGN_bounds (4 + Z.of_nat (length it.2))). lia.
Qed.

Lemma enc_size l : Forall attr_ok l → Z.of_nat (length (enc l)) = items_size (map (λ a, (at_type a, at_data a)) l).
Proof.
  induction 1 as [|a l Ha _ IH]; [done|]. rewrite enc_cons, length_app, Nat2Z.inj_add, IH, length_enc_attr by done. done.
Qed.

Lemma enc_count l : (4 * length l ≤ length (enc l))%nat.
Proof.
  induction l as [|a l IH]; [done|]. rewrite enc_cons, length_app. unfold enc_attr.
  rewrite !length_app, !length_le_bytes. cbn. lia.
Qed.

Lemma req_tail_rel req h l : req_rel req h l → req_tail req = Some (Z.of_nat (h + length (enc l))).
Proof.
  intros [Hlen (head & junk & Hreq & Hhead) Hnlen [Hh Hh4] HF]. unfold req_tail. rewrite Hnlen. cbn [mbind option_bind].
  rewrite NLMSG_ALIGN_id; [done| |].
  - rewrite Hreq, !length_app in Hlen. unfold SIZEOF_REQ, in_u in *. lia.
  - rewrite Nat2Z.inj_add, Z.add_mod, Hh4, (enc_align l HF) by lia. done.
Qed.

(** ** Reading a request *)

(** The payload of the attribute at [nla], as the accessors give it. *)
Definition reads (mem : list Z) (nla : Z) (data : list Z) : Prop :=
  libbpf_nla_len mem nla = Some (Z.of_nat (length data)) ∧ slice mem (libbpf_nla_data nla) (length data) = Some data.

(** The payload of the last item of a type. *)
Fixpoint last_item (ty : Z) (items : list (Z * list Z)) : option (list Z) :=
  match items with
  | [] => None
  | (t, data) :: items =>
      match last_item ty items with
      | Some d => Some d
      | None => if Z.land t NLA_TYPE_MASK =? ty then Some data else None
      end
  end.

(** What the table of the parser has for a type. *)
Definition entry_reads (mem : list Z) (tb : list (option Z)) (ty : Z) (data : option (list Z)) : Prop :=
  match data with
  | Some d => ∃ nla, tb !! Z.to_nat ty = Some (Some nla) ∧ reads mem nla d
  | None => tb !! Z.to_nat ty = Some None
  end.

Lemma last_item_app ty l1 l2 : last_item ty (l1 ++ l2) = match last_item ty l2 with Some d => Some d | None => last_item ty l1 end.
Proof. induction l1 as [|[t d] l1 IH]; cbn; [by destruct (last_item ty l2)|]. rewrite IH. by destruct (last_item ty l2). Qed.

Lemma attr_reads mem pre a post off : attr_ok a → mem = pre ++ enc_attr a ++ post → off = Z.of_nat (length pre) → reads mem off (at_data a).
Proof.
  intros Ha Hmem Ho. destruct (attr_loads mem pre a post off Ha Hmem Ho) as (Hl & _ & Hd). split; [|exact Hd].
  unfold libbpf_nla_len. rewrite Hl. cbn. f_equal. unfold at_len, NLA_HDRLEN. lia.
Qed.

Lemma last_attr_reads mem pre l junk ty : Forall attr_ok l → mem = pre ++ enc l ++ junk →
  match last_item ty (map (λ a, (at_type a, at_data a)) l) with
  | Some d => ∃ nla, last_attr (Z.of_nat (length pre)) l ty = Some nla ∧ reads mem nla d
  | None => last_attr (Z.of_nat (length pre)) l ty = None
  end.
Proof.
  intros HF. revert pre. induction HF as [|a l Ha _ IH]; intros pre Hmem; [done|].
  rewrite enc_cons, <- app_assoc in Hmem. specialize (IH (pre ++ enc_attr a)). rewrite <- app_assoc in IH. specialize (IH Hmem).
  rewrite length_app, Nat2Z.inj_add in IH. cbn [map last_item last_attr].
  destruct (last_item ty (map _ l)) as [d|]; [destruct IH as (nla & -> & Hr); by exists nla|]. rewrite IH.
  fold (at_ty a). destruct (at_ty a =? ty); [|done]. eexists. split; [done|]. by eapply attr_reads.
Qed.

(** Parsing without a policy finds the last attribute of each type. *)
Lemma parse_reads mem pre l junk maxtype fuel : Forall attr_ok l → mem = pre ++ enc l ++ junk →
  Z.of_nat (length (enc l)) < 2 ^ 31 → (length l < fuel)%nat →
  ∃ tb, libbpf_nla_parse fuel mem maxtype (Z.of_nat (length pre)) (Z.of_nat (length (enc l))) None = Some (tb, 0) ∧
    ∀ ty, 0 ≤ ty ≤ maxtype → entry_reads mem tb ty (last_item ty (map (λ a, (at_type a, at_data a)) l)).
Proof.
  intros HF Hmem Hmax Hf. unfold libbpf_nla_parse. rewrite (parse_loop_spec mem maxtype None fuel pre l junk) by done.
  pose proof (index_attrs_spec maxtype None (Z.of_nat (length pre)) l (replicate (Z.to_nat (maxtype + 1)) None) HF
    ltac:(by rewrite length_replicate)) as Hidx.
  destruct (index_attrs _ _ _ _ _) as [tb err]. destruct Hidx as [He Hidx].
  assert (forallb (attr_valid maxtype None) l = true) as Hv.
  { apply forallb_forall. intros a _. unfold attr_valid. apply orb_true_r. }
  rewrite Hv in He. subst err. exists tb. split; [done|]. intros ty Hty. unfold entry_reads. rewrite (Hidx eq_refl ty Hty).
  pose proof (last_attr_reads mem pre l junk ty HF Hmem) as H. destruct (last_item _ _) as [d|].
  - destruct H as (nla & -> & Hr). by exists nla.
  - rewrite H, lookup_replicate_2; [done|lia].
Qed.

(** Parsing the payload of a nested attribute. *)
Lemma parse_nested_reads mem nla l maxtype fuel : Forall attr_ok l → reads mem nla (enc l) →
  Z.of_nat (length (enc l)) < 2 ^ 31 → (length l < fuel)%nat →
  ∃ tb, libbpf_nla_parse_nested fuel mem maxtype nla None = Some (tb, 0) ∧
    ∀ ty, 0 ≤ ty ≤ maxtype → entry_reads mem tb ty (last_item ty (map (λ a, (at_type a, at_data a)) l)).
Proof.
  intros HF [Hl (pre & post & Hmem & Hd & _)%slice_split] Hmax Hf. unfold libbpf_nla_parse_nested. rewrite Hl, Hd. cbn [mbind option_bind].
  by apply (parse_reads mem pre l post).
Qed.

Lemma nested_type_masked t : Z.land (Z.lor t NLA_F_NESTED) NLA_TYPE_MASK = Z.land t NLA_TYPE_MASK.
Proof. rewrite Z.land_lor_distr_l. change (Z.land NLA_F_NESTED NLA_TYPE_MASK) with 0. apply Z.lor_0_r. Qed.

(** A request with a nested attribute, step by step. *)
Lemma nested_request req h outer T inner : req_rel req h [] → Forall item_ok outer → Forall item_ok inner → in_u 16 T →
  Z.of_nat h + items_size outer + (4 + items_size inner) ≤ SIZEOF_REQ →
  ∃ req1 req2 req3 req4 l li,
    nlattr_add_all req outer = Some req1 ∧ req_rel req1 h l ∧ nlattr_add req1 T None 0 = Some (req2, 0) ∧
    nlattr_add_all req2 inner = Some req3 ∧ nlattr_end_nested req3 (Z.of_nat (h + length (enc l))) = Some req4 ∧
    req_rel req4 h (l ++ [mkAttr T (enc li) []]) ∧ Forall attr_ok li ∧
    map (λ a, (at_type a, at_data a)) l = outer ∧ map (λ a, (at_type a, at_data a)) li = inner.
Proof.
  intros Hrel HFo HFi HT Hsz. pose proof (items_size_pos inner) as Hpi.
  destruct (add_all_rel req h [] outer Hrel HFo) as (req1 & l1 & Hadd1 & Hrel1 & Hmap1); [cbn; lia|]. cbn [app] in Hrel1.
  pose proof (enc_size l1 (rq_attrs _ _ _ Hrel1)) as Hl1. rewrite Hmap1 in Hl1.
  pose proof (nlattr_add_spec req1 h l1 T [] Hrel1 HT ltac:(done)) as Hb. cbn [length] in Hb.
  change (NLA_ALIGN (4 + Z.of_nat 0)) with 4 in Hb.
  destruct (Z.leb_spec (Z.of_nat (h + length (enc l1)) + 4) SIZEOF_REQ); [|lia].
  destruct Hb as (req2 & pad & Hadd2 & Hrel2).
  assert (pad = []) as ->.
  { pose proof (rq_attrs _ _ _ Hrel2) as HF2. apply Forall_app in HF2 as [_ [(_ & _ & Hp) _]%Forall_cons].
    cbn [at_pad] in Hp. change (at_len (mkAttr T [] pad)) with 4 in Hp. change (NLA_ALIGN 4) with 4 in Hp. destruct pad; [done|]. cbn in Hp. lia. }
  destruct (add_all_rel req2 h _ inner Hrel2 HFi) as (req3 & li & Hadd3 & Hrel3 & Hmap3).
  { rewrite enc_app, length_app, enc_cons, length_app. change (length (enc_attr (mkAttr T [] []))) with 4%nat. cbn [enc flat_map length]. lia. }
  rewrite <- app_assoc in Hrel3. cbn [app] in Hrel3.
  destruct (end_nested_spec req3 h l1 T li Hrel3) as (req4 & Hend & Hrel4).
  pose proof (rq_attrs _ _ _ Hrel3) as [_ [_ Hli]%Forall_cons]%Forall_app.
  by exists req1, req2, req3, req4, l1, li.
Qed.

(** The size of what has been added. *)
Lemma nested_size l T li : Forall attr_ok l → Forall attr_ok li → Z.of_nat (length (enc (l ++ [mkAttr T (enc li) []]))) =
  items_size (map (λ a, (at_type a, at_data a)) l) + (4 + items_size (map (λ a, (at_type a, at_data a)) li)).
Proof.
  intros Hl Hli. rewrite <- !enc_size by done. rewrite enc_app, length_app, enc_cons, length_app. unfold enc_attr, at_len.
  rewrite !length_app, !length_le_bytes. cbn [at_data at_pad length enc flat_map]. lia.
Qed.

(** * Properties *)

Definition policy_fits (maxtype : Z) (policy : option (list libbpf_nla_policy)) : Prop :=
  match policy with Some p => policy_ok p ∧ maxtype < Z.of_nat (length p) | None => True end.

(** C32. Parsing a stream of attributes: 0 and, for every type, the offset of its last
    attribute (types above [maxtype] are ignored), when the policy accepts all of
    them; -1 otherwise. *)
Theorem nla_parse_stream mem pre l junk maxtype policy fuel :
  mem = pre ++ enc l ++ junk → Forall attr_ok l → policy_fits maxtype policy →
  Z.of_nat (length (enc l)) < 2 ^ 31 → (length l < fuel)%nat →
  ∃ tb, libbpf_nla_parse fuel mem maxtype (Z.of_nat (length pre)) (Z.of_nat (length (enc l))) policy =
      Some (tb, if forallb (attr_valid maxtype policy) l then 0 else -1) ∧
    (forallb (attr_valid maxtype policy) l = true → ∀ ty, 0 ≤ ty ≤ maxtype →
       tb !! Z.to_nat ty = Some (last_attr (Z.of_nat (length pre)) l ty)).
Proof.
  intros Hmem HF Hpol Hlen Hfuel. unfold libbpf_nla_parse. rewrite (parse_loop_spec mem maxtype policy fuel pre l junk) by done.
  pose proof (index_attrs_spec maxtype policy (Z.of_nat (length pre)) l (replicate (Z.to_nat (maxtype + 1)) None) HF
    ltac:(by rewrite length_replicate)) as H.
  destruct (index_attrs _ _ _ _ _) as [tb err]. destruct H as [He H]. exists tb. rewrite <- He. split; [done|].
  intros Hv ty Hty. rewrite Hv in He. rewrite (H He ty Hty).
  destruct (last_attr _ l ty); [done|]. rewrite lookup_replicate_2; [done|lia].
Qed.

(** C33. Whatever the bytes, a buffer whose length is a multiple of four is parsed without
    a load outside it, in at most a quarter of its length of steps; but once
    [remaining] is negative (after a last attribute without padding) [nla_ok] reads
    the length of an attribute that is not there. *)
Theorem nla_parse_safe mem head len maxtype policy fuel :
  bytes_ok mem → 0 ≤ head → 0 ≤ len < 2 ^ 31 → head + len ≤ Z.of_nat (length mem) → policy_fits maxtype policy →
  (Z.to_nat (len / 4) < fuel)%nat →
  (len `mod` 4 = 0 → is_Some (libbpf_nla_parse fuel mem maxtype head len policy)) ∧
  (∀ nla remaining, - 2 ^ 31 ≤ remaining < 0 → nla_ok mem nla remaining = (l ← nla_len mem nla; Some false) ∧
     (Z.of_nat (length mem) < nla + 2 → nla_ok mem nla remaining = None)).
Proof.
  intros Hb Hh Hlen Hin Hpol Hfuel. split.
  - intros Hmod. apply nla_parse_defined; done || lia.
  - intros nla rem Hrem. unfold nla_ok.
    assert (2 ^ 63 ≤ u64 rem) as H.
    { unfold wrap. replace (rem `mod` 2 ^ 64) with (rem + 2 ^ 64); [lia|]. apply Z.mod_unique with (-1); lia. }
    destruct (Z.ltb_spec (u64 rem) 4); [lia|].
    assert (∀ l, 0 ≤ l → (4 <=? l) && (l <=? rem) = false) as Hf.
    { intros l Hl. destruct (Z.leb_spec l rem); [lia|]. apply andb_false_r. }
    destruct (nla_len mem nla) as [l|] eqn:El; cbn [mbind option_bind].
    + pose proof (proj1 (load_is_Some _ _ _) (mk_is_Some _ _ El)) as Hbound.
      apply load_range in El as [Hl _]; [|done]. rewrite Hf by done. split; [done|]. lia.
    + by split.
Qed.


(** C34. Building a request: the attributes added and those nested in one of them are read
    back by the parser, each type at its last occurrence with its payload, byte for byte;
    the length of the message is that of all of them, and an attribute that does not fit
    any more is refused with [-EMSGSIZE] and changes nothing. *)
Theorem nlattr_request_parse req h outer nested_type inner maxtype fuel :
  req_rel req h [] → Forall item_ok (outer ++ inner) → in_u 16 (Z.lor nested_type NLA_F_NESTED) →
  Z.of_nat h + items_size outer + (4 + items_size inner) ≤ SIZEOF_REQ →
  (40 < fuel)%nat →
  let nested := Z.land nested_type NLA_TYPE_MASK in
  let size := items_size outer + (4 + items_size inner) in
  ∃ req1 req2 req3 req4 tail tb,
    nlattr_add_all req outer = Some req1 ∧ nlattr_begin_nested req1 nested_type = Some (req2, Some tail) ∧
    nlattr_add_all req2 inner = Some req3 ∧ nlattr_end_nested req3 tail = Some req4 ∧
    nlmsg_len req4 0 = Some (Z.of_nat h + size) ∧
    libbpf_nla_parse fuel req4 maxtype (Z.of_nat h) size None = Some (tb, 0) ∧
    (∀ ty, 0 ≤ ty ≤ maxtype → ty ≠ nested → entry_reads req4 tb ty (last_item ty outer)) ∧
    (nested ≤ maxtype → ∃ nla, tb !! Z.to_nat nested = Some (Some nla) ∧
       ∀ maxtype', ∃ tbi, libbpf_nla_parse_nested fuel req4 maxtype' nla None = Some (tbi, 0) ∧
         ∀ ty, 0 ≤ ty ≤ maxtype' → entry_reads req4 tbi ty (last_item ty inner)) ∧
    (∀ ty data, item_ok (ty, data) → SIZEOF_REQ < Z.of_nat h + size + NLA_ALIGN (4 + Z.of_nat (length data)) →
       nlattr_add req4 ty (match data with [] => None | _ => Some data end) (Z.of_nat (length data)) = Some (req4, - EMSGSIZE)).
Proof.
  intros Hrel HF HT Hsz Hfuel nested size. apply Forall_app in HF as [HFo HFi]. set (T := Z.lor nested_type NLA_F_NESTED) in *.
  assert (0 ≤ nested) as Hn0 by (apply Z.land_nonneg; by right).
  destruct (nested_request req h outer T inner Hrel HFo HFi HT Hsz) as
    (req1 & req2 & req3 & req4 & l1 & li & Hadd1 & Hrel1 & Hadd2 & Hadd3 & Hend & Hrel4 & HFl & Hmap1 & Hmap).
  pose proof (rq_attrs _ _ _ Hrel4) as HF4. destruct (rq_bytes _ _ _ Hrel4) as (head & junk & Hreq4 & Hhead).
  pose proof (nested_size l1 T li (rq_attrs _ _ _ Hrel1) HFl) as Hsize. rewrite Hmap1, Hmap in Hsize. fold size in Hsize.
  set (l := l1 ++ [mkAttr T (enc li) []]) in *.
  assert (map (λ a, (at_type a, at_data a)) l = outer ++ [(T, enc li)]) as Hitems by (unfold l; by rewrite map_app, Hmap1).
  pose proof (enc_size li HFl) as Hinner. rewrite Hmap in Hinner.
  pose proof (rq_h _ _ _ Hrel4) as [Hh _]. pose proof (items_size_pos outer). pose proof (enc_count l). pose proof (enc_count li).
  unfold SIZEOF_REQ in *.
  destruct (parse_reads req4 head l junk maxtype fuel HF4 Hreq4 ltac:(lia) ltac:(lia)) as (tb & Hparse & Hread).
  rewrite Hhead, Hsize in Hparse. rewrite Hitems in Hread.
  exists req1, req2, req3, req4, (Z.of_nat (h + length (enc l1))), tb. split_and!; [done| |done|done| |done| | |].
  - unfold nlattr_begin_nested. rewrite (req_tail_rel _ _ _ Hrel1). cbn [mbind option_bind]. fold T. by rewrite Hadd2.
  - rewrite (rq_nlen _ _ _ Hrel4). f_equal. lia.
  - intros ty Hty Hne. specialize (Hread ty Hty). rewrite last_item_app in Hread. cbn [last_item] in Hread. unfold T in Hread.
    rewrite nested_type_masked in Hread. fold nested in Hread. by destruct (Z.eqb_spec nested ty) as [E|]; [destruct Hne|].
  - intros Hmax. specialize (Hread nested ltac:(lia)). rewrite last_item_app in Hread. cbn [last_item] in Hread. unfold T in Hread.
    rewrite nested_type_masked in Hread. fold nested in Hread. rewrite Z.eqb_refl in Hread. destruct Hread as (nla & Htb & Hnla).
    exists nla. split; [done|]. intros maxtype'. rewrite <- Hmap. apply parse_nested_reads; [done|done|lia..].
  - intros ty data [Hty Hd] Hbig. cbn in Hty, Hd. pose proof (nlattr_add_spec req4 h l ty data Hrel4 Hty Hd) as Hr. cbv zeta in Hr.
    unfold SIZEOF_REQ in Hr. destruct (Z.leb_spec (Z.of_nat (h + length (enc l)) + NLA_ALIGN (4 + Z.of_nat (length data))) 164); [lia|done].
Qed.

(** The extended error of a message: when the acknowledgement is capped, the length
    handed to the parser exceeds what the message holds behind the error by the size
    of a netlink header. *)
Theorem errormsg_length_excess mem total flags :
  load32 mem 0 = Some total → load16 mem 6 = Some flags → Z.land flags NLM_F_CAPPED ≠ 0 → 36 ≤ total < 2 ^ 31 →
  ∃ attr alen, errormsg_attrs mem 0 = Some (attr, alen) ∧ attr + alen = total + NLMSG_HDRLEN.
Proof.
  intros Ht Hf Hc Htot. unfold errormsg_attrs, nlmsg_len. change (0 + 6) with 6. rewrite Hf. cbn [mbind option_bind].
  destruct (Z.eqb_spec (Z.land flags NLM_F_CAPPED) 0); [done|]. rewrite Ht. cbn [mbind option_bind].
  eexists _, _. split; [reflexivity|]. rewrite swrap_small by lia. unfold NLMSG_HDRLEN. lia.
Qed.

Lemma nla_parse_stream_witness :
  ∃ tb, libbpf_nla_parse 5 [5; 0; 1; 0; 65; 0; 0; 0; 8; 0; 2; 0; 1; 2; 3; 4] 2 0 16
    (Some [mkPolicy 0 0 0; mkPolicy LIBBPF_NLA_U8 0 0; mkPolicy LIBBPF_NLA_U32 0 0]) = Some (tb, 0) ∧ tb !! 2%nat = Some (Some 8).
Proof.
  set (l := [mkAttr 1 [65] [0; 0; 0]; mkAttr 2 [1; 2; 3; 4] []]).
  destruct (nla_parse_stream (enc l) [] l [] 2 (Some [mkPolicy 0 0 0; mkPolicy LIBBPF_NLA_U8 0 0; mkPolicy LIBBPF_NLA_U32 0 0]) 5)
    as (tb & Hp & Hl).
  - reflexivity.
  - repeat constructor; vm_compute; congruence.
  - split; [repeat constructor; vm_compute; congruence|reflexivity].
  - reflexivity.
  - vm_compute. lia.
  - exists tb. split; [exact Hp|]. exact (Hl eq_refl 2 ltac:(split; vm_compute; congruence)).
Defined.

(** A last attribute of five bytes without padding: the parser reads past the end. *)
Lemma nla_parse_safe_witness :
  is_Some (libbpf_nla_parse 5 [4; 0; 1; 0] 1 0 4 None) ∧ libbpf_nla_parse 5 [5; 0; 1; 0; 65] 1 0 5 None = None ∧
  nla_ok [5; 0; 1; 0; 65] 8 (-3) = None.
Proof.
  assert (∀ b, 0 ≤ b < 256 → bytes_ok [b; 0; 1; 0]) as Hb by (intros b H; repeat constructor; lia).
  assert (bytes_ok [5; 0; 1; 0; 65]) as Hb' by (repeat constructor; lia).
  assert ((Z.to_nat (4 / 4) < 5)%nat) as Hf by (vm_compute; lia).
  split; [|split].
  - exact (proj1 (nla_parse_safe [4; 0; 1; 0] 0 4 1 None 5 (Hb 4 ltac:(lia)) ltac:(lia) ltac:(lia) ltac:(cbn; lia) I Hf) eq_refl).
  - reflexivity.
  - exact (proj2 (proj2 (nla_parse_safe [5; 0; 1; 0; 65] 0 4 1 None 5 Hb' ltac:(lia) ltac:(lia) ltac:(cbn; lia) I Hf)
      8 (-3) ltac:(lia)) eq_refl).
Defined.

Lemma nlattr_request_parse_witness :
  ∃ req1 req2 req3 req4 tail tb nla tbi,
    nlattr_add_all ([16; 0; 0; 0] ++ replicate 160 0) [(1, [9])] = Some req1 ∧
    nlattr_begin_nested req1 2 = Some (req2, Some tail) ∧
    nlattr_add_all req2 [(3, [5; 6])] = Some req3 ∧ nlattr_end_nested req3 tail = Some req4 ∧
    libbpf_nla_parse 41 req4 3 16 20 None = Some (tb, 0) ∧ entry_reads req4 tb 1 (Some [9]) ∧ entry_reads req4 tb 3 None ∧
    tb !! 2%nat = Some (Some nla) ∧ libbpf_nla_parse_nested 41 req4 4 nla None = Some (tbi, 0) ∧ entry_reads req4 tbi 3 (Some [5; 6]).
Proof.
  destruct (nlattr_request_parse ([16; 0; 0; 0] ++ replicate 160 0) 16 [(1, [9])] 2 [(3, [5; 6])] 3 41)
    as (req1 & req2 & req3 & req4 & tail & tb & H1 & H2 & H3 & H4 & _ & H5 & H6 & H7 & _).
  - split.
    + reflexivity.
    + exists ([16; 0; 0; 0] ++ replicate 12 0), (replicate 148 0). split; reflexivity.
    + reflexivity.
    + split; [lia|reflexivity].
    + constructor.
  - repeat constructor; vm_compute; congruence.
  - split; vm_compute; congruence.
  - vm_compute. congruence.
  - lia.
  - destruct (H7 ltac:(discriminate)) as (nla & H8 & H9). destruct (H9 4) as (tbi & H10 & H11).
    exists req1, req2, req3, req4, tail, tb, nla, tbi. split; [exact H1|]. split; [exact H2|]. split; [exact H3|]. split; [exact H4|].
    split; [exact H5|]. split; [exact (H6 1 ltac:(lia) ltac:(discriminate))|]. split; [exact (H6 3 ltac:(lia) ltac:(discriminate))|].
    split; [exact H8|]. split; [exact H10|]. exact (H11 3 ltac:(lia)).
Defined.

Lemma errormsg_length_excess_witness :
  let mem := [36; 0; 0; 0; 2; 0; 0; 3] ++ replicate 28 0 in
  ∃ attr alen, errormsg_attrs mem 0 = Some (attr, alen) ∧ attr + alen = 52.
Proof.
  exact (errormsg_length_excess ([36; 0; 0; 0; 2; 0; 0; 3] ++ replicate 28 0) 36 768 eq_refl eq_refl ltac:(discriminate)
    ltac:(split; [vm_compute; congruence|reflexivity])).
Defined.
