(* ===== verification/ProgLinfo.v ===== *)
(** Line information of a loaded program (src/libbpf/src/bpf_prog_linfo.c): dissecting
    the addresses of the jited instructions by function, and looking lines up.

    The copies of the kernel's arrays are byte lists; records are read at the byte
    offsets the code computes, in the widths it computes them with.  A load outside
    an array is [None]. *)
From stdpp Require Import base list.
From Stdlib Require Import ZArith Lia.
From S2P Require Import Prelude Bytes.

#[local] Open Scope Z_scope.

Record bpf_prog_linfo := mkLinfo {
  raw_linfo : list Z;
  raw_jited_linfo : list Z;
  nr_jited_linfo_per_func : list Z;
  jited_linfo_func_idx : list Z;
  nr_linfo : Z;
  nr_jited_func : Z;
  rec_size : Z;
  jited_rec_size : Z;
}.

Section dissect.
Context (raw_jited : list Z) (jited_rec nr_linfo nr_func : Z) (ksym_func ksym_len : list Z).

(** The loop, with [n = nr_linfo - i] turns left and [pos] the offset of
    [jited_linfo]; [inr tt] is the jump to [errout]. *)
Fixpoint dissect_loop (n : nat) (i prev_i : Z) (f : nat) (pos : Z) (func_idx per_func : list Z)
    : option ((Z * nat * list Z * list Z) + unit) :=
  match n with
  | O => Some (inl (prev_i, f, func_idx, per_func))
  | S n =>
      if Z.of_nat f <? nr_func then
        last ← load64 raw_jited pos;
        let pos := pos + jited_rec in
        cur ← load64 raw_jited pos;
        kf ← ksym_func !! f;
        if kf =? cur then
          let func_idx := <[f := i]> func_idx in
          kprev ← ksym_func !! (f - 1)%nat;
          klen ← ksym_len !! (f - 1)%nat;
          if u64 (u64 (last - kprev) + 1) >? klen then Some (inr tt)
          else dissect_loop n (i + 1) i (S f) pos func_idx (<[(f - 1)%nat := u32 (i - prev_i)]> per_func)
        else if cur <=? last then Some (inr tt)
        else dissect_loop n (i + 1) prev_i f pos func_idx per_func
      else Some (inl (prev_i, f, func_idx, per_func))
  end.

(** 0 with the two arrays, or [-EINVAL]. *)
Definition dissect_jited_func (func_idx per_func : list Z) : option ((list Z * list Z) + Z) :=
  first ← load64 raw_jited 0;
  k0 ← ksym_func !! 0%nat;
  if negb (k0 =? first) then Some (inr (- EINVAL))
  else
    r ← dissect_loop (Z.to_nat (nr_linfo - 1)) 1 0 1 0 (<[0%nat := 0]> func_idx) per_func;
    match r with
    | inr _ => Some (inr (- EINVAL))
    | inl (prev_i, f, func_idx, per_func) =>
        if negb (Z.of_nat f =? nr_func) then Some (inr (- EINVAL))
        else Some (inl (func_idx, <[Z.to_nat (nr_func - 1) := u32 (nr_linfo - prev_i)]> per_func))
    end.
End dissect.

(** [struct bpf_prog_info]: the fields the code reads, and the arrays its addresses
    point to ([None]: a null address). *)
Record prog_info := mkInfo {
  nr_line_info : Z;
  line_info_rec_size : Z;
  line_info : list Z;
  nr_jited_ksyms : Z;
  jited_line_info : option (list Z);
  nr_jited_line_info : Z;
  jited_line_info_rec_size : Z;
  nr_jited_func_lens : Z;
  jited_ksyms : option (list Z);
  jited_func_lens : option (list Z);
}.

(** [malloc]s succeed as [alloc] says (the object, the copies, the two arrays);
    the arrays' initial contents are arbitrary: [junk]. [inr]: [NULL] and errno. *)
Definition bpf_prog_linfo__new (alloc : bool * bool * bool * bool * bool) (junk : list Z * list Z) (info : prog_info)
    : option (bpf_prog_linfo + Z) :=
  let '(a0, a1, a2, a3, a4) := alloc in
  let nr := nr_line_info info in
  if nr =? 0 then Some (inr EINVAL)
  else if line_info_rec_size info <? 4 then Some (inr EINVAL)
  else if negb a0 then Some (inr ENOMEM)
  else if negb a1 then Some (inr EINVAL)
  else
    raw ← slice (line_info info) 0 (Z.to_nat (u64 (nr * line_info_rec_size info)));
    let plain := mkLinfo raw [] [] [] nr 0 (line_info_rec_size info) 0 in
    let nf := nr_jited_ksyms info in
    match jited_line_info info, jited_ksyms info, jited_func_lens info with
    | Some jited, Some ksyms, Some lens =>
        if (nf =? 0) || negb (nr_jited_line_info info =? nr) || (jited_line_info_rec_size info <? 8)
           || negb (nr_jited_func_lens info =? nf)
        then Some (inl plain)
        else if negb a2 then Some (inr EINVAL)
        else
          rawj ← slice jited 0 (Z.to_nat (u64 (nr * jited_line_info_rec_size info)));
          if negb a3 then Some (inr EINVAL)
          else if negb a4 then Some (inr EINVAL)
          else
            let n := Z.to_nat nf in
            r ← dissect_jited_func rawj (jited_line_info_rec_size info) nr nf ksyms lens
                  (take n junk.1) (take n junk.2);
            match r with
            | inr _ => Some (inr EINVAL)
            | inl (func_idx, per_func) =>
                Some (inl (mkLinfo raw rawj per_func func_idx nr nf (line_info_rec_size info)
                             (jited_line_info_rec_size info)))
            end
    | _, _, _ => Some (inl plain)
    end.

(** The common loop of the two searches: the number of turns before [target] is less
    than the value at the current record. *)
Fixpoint linfo_scan (ld : Z → option Z) (rec target : Z) (n : nat) (pos : Z) : option nat :=
  match n with
  | O => Some 0%nat
  | S n => v ← ld pos; if target <? v then Some 0%nat else k ← linfo_scan ld rec target n (pos + rec); Some (S k)
  end.

(** The offset of the record found in [raw_linfo], or [inr errno]. *)
Definition bpf_prog_linfo__lfind_addr_func (p : bpf_prog_linfo) (addr : Z) (func_idx nr_skip : Z) : option (Z + Z) :=
  if func_idx >=? nr_jited_func p then Some (inr ENOENT)
  else
    nr ← nr_jited_linfo_per_func p !! Z.to_nat func_idx;
    if nr_skip >=? nr then Some (inr ENOENT)
    else
      idx ← jited_linfo_func_idx p !! Z.to_nat func_idx;
      let start := u32 (idx + nr_skip) in
      let jpos := u32 (start * jited_rec_size p) in
      first ← load64 (raw_jited_linfo p) jpos;
      if addr <? first then Some (inr ENOENT)
      else
        let pos := u32 (start * rec_size p) in
        k ← linfo_scan (load64 (raw_jited_linfo p)) (jited_rec_size p) addr (Z.to_nat (nr - nr_skip)) jpos;
        Some (inl (pos + Z.of_nat k * rec_size p - rec_size p)).

(** [insn_off] is at the start of a record. *)
Definition bpf_prog_linfo__lfind (p : bpf_prog_linfo) (insn_off nr_skip : Z) : option (Z + Z) :=
  if nr_skip >=? nr_linfo p then Some (inr ENOENT)
  else
    let pos := u32 (nr_skip * rec_size p) in
    first ← load32 (raw_linfo p) pos;
    if insn_off <? first then Some (inr ENOENT)
    else
      k ← linfo_scan (load32 (raw_linfo p)) (rec_size p) insn_off (Z.to_nat (nr_linfo p - nr_skip)) pos;
      Some (inl (pos + Z.of_nat k * rec_size p - rec_size p)).

(** * Specification *)

(** The address of the [i]-th jited record. *)
Definition jaddr (raw : list Z) (rec : Z) (i : nat) : option Z := load64 raw (Z.of_nat i * rec).

(** Function [f] has the records [s, e): the first is at the function's address and
    the addresses increase. *)
Definition func_seg (raw : list Z) (rec : Z) (ksym : list Z) (f s e : nat) : Prop :=
  (s < e)%nat ∧ jaddr raw rec s = ksym !! f ∧
  ∀ i x y, (s ≤ i)%nat → (S i < e)%nat → jaddr raw rec i = Some x → jaddr raw rec (S i) = Some y → x < y.

(** * Lemmas *)

Lemma linfo_scan_spec ld rec target n pos :
  (∀ i, (i < n)%nat → is_Some (ld (pos + Z.of_nat i * rec))) →
  ∃ k, linfo_scan ld rec target n pos = Some k ∧ (k ≤ n)%nat ∧
    (∀ i v, (i < k)%nat → ld (pos + Z.of_nat i * rec) = Some v → v ≤ target) ∧
    ((k < n)%nat → ∃ v, ld (pos + Z.of_nat k * rec) = Some v ∧ target < v).
Proof.
  revert pos. induction n as [|n IH]; intros pos Hld; cbn [linfo_scan].
  - exists 0%nat. split_and!; try done; lia.
  - destruct (Hld 0%nat ltac:(lia)) as [v Hv]. replace (pos + Z.of_nat 0 * rec) with pos in Hv by lia.
    rewrite Hv. cbn [mbind option_bind]. destruct (Z.ltb_spec target v).
    + exists 0%nat. split_and!; [done|lia|lia|]. intros _. exists v. by replace (pos + Z.of_nat 0 * rec) with pos by lia.
    + destruct (IH (pos + rec)) as (k & -> & Hk & Hle & Hgt).
      { intros i Hi. replace (pos + rec + Z.of_nat i * rec) with (pos + Z.of_nat (S i) * rec) by lia. apply Hld. lia. }
      exists (S k). cbn [mbind option_bind]. split_and!; [done|lia| |].
      * intros [|i] w Hi Hw.
        -- replace (pos + Z.of_nat 0 * rec) with pos in Hw by lia. by simplify_eq.
        -- apply (Hle i); [lia|]. by replace (pos + rec + Z.of_nat i * rec) with (pos + Z.of_nat (S i) * rec) by lia.
      * intros Hkn. destruct (Hgt ltac:(lia)) as (w & Hw & Hlt). exists w. split; [|done].
        by replace (pos + Z.of_nat (S k) * rec) with (pos + rec + Z.of_nat k * rec) by lia.
Qed.

(** The result of [dissect_jited_func]: the functions' records follow each other. *)
Definition dissected (raw : list Z) (rec : Z) (ksym : list Z) (nr nf : nat) (func_idx per_func : list Z) : Prop :=
  ∃ ss : list nat, length ss = nf ∧ ss !! 0%nat = Some 0%nat ∧
    ∀ f s, ss !! f = Some s →
      let e := default nr (ss !! S f) in
      func_idx !! f = Some (Z.of_nat s) ∧ per_func !! f = Some (Z.of_nat (e - s)) ∧
      (s < e)%nat ∧ jaddr raw rec s = ksym !! f ∧ ((S f < nf)%nat → func_seg raw rec ksym f s e).

Section dissect_lemmas.
Context (raw : list Z) (rec : Z) (nr nf : nat) (ksym klen : list Z).
Context (Hnr : Z.of_nat nr < 2 ^ 32).

(** What the loop has found before record [i]: the starts [ss] of the functions. *)
Record dissect_inv (i : nat) (f : nat) (p : nat) (func_idx per_func : list Z) (ss : list nat) : Prop := {
  di_len : length ss = f ∧ (1 ≤ f ≤ nf)%nat ∧ (p < i ≤ nr)%nat;
  di_first : ss !! 0%nat = Some 0%nat;
  di_last : ss !! (f - 1)%nat = Some p;
  di_arr : length func_idx = nf ∧ length per_func = nf;
  di_segs : ∀ g s, ss !! g = Some s → func_idx !! g = Some (Z.of_nat s) ∧
    ∀ e, ss !! S g = Some e → per_func !! g = Some (Z.of_nat (e - s)) ∧ func_seg raw rec ksym g s e;
  di_cur : func_seg raw rec ksym (f - 1) p i;
}.

Lemma seg_extend f s e last cur :
  func_seg raw rec ksym f s e → jaddr raw rec (e - 1) = Some last → jaddr raw rec e = Some cur → last < cur →
  func_seg raw rec ksym f s (S e).
Proof.
  intros (H1 & H2 & H3) Hl Hc Hlt. split_and!; [lia|done|]. intros i x y Hs Hi Hx Hy.
  destruct (decide (S i = e)) as [<-|Hne]; [|apply (H3 i x y); done || lia].
  replace (S i - 1)%nat with i in Hl by lia. congruence.
Qed.

Lemma dissect_loop_spec n i f p func_idx per_func ss r :
  dissect_inv i f p func_idx per_func ss → (i + n = nr)%nat →
  dissect_loop raw rec (Z.of_nat nf) ksym klen n (Z.of_nat i) (Z.of_nat p) f (Z.of_nat (i - 1) * rec) func_idx per_func =
    Some (inl r) →
  let '(p', f', func_idx', per_func') := r in
  f' = nf → ∃ p2 ss' j, p' = Z.of_nat p2 ∧ dissect_inv j nf p2 func_idx' per_func' ss'.
Proof using Hnr.
  revert i f p func_idx per_func ss. induction n as [|n IH]; intros i f p func_idx per_func ss Hinv Hin Hloop; cbn [dissect_loop] in Hloop.
  - injection Hloop as <-. intros ->. by exists p, ss, i.
  - destruct (di_len _ _ _ _ _ _ Hinv) as (Hlss & Hf & Hpi).
    destruct (Z.ltb_spec (Z.of_nat f) (Z.of_nat nf)) as [Hlt|Hge]; [|injection Hloop as <-; intros ->; by exists p, ss, i].
    destruct (load64 raw (Z.of_nat (i - 1) * rec)) as [last|] eqn:Elast; [|done]. cbn [mbind option_bind] in Hloop.
    replace (Z.of_nat (i - 1) * rec + rec) with (Z.of_nat i * rec) in Hloop
      by (replace (Z.of_nat i) with (Z.of_nat (i - 1) + 1) by lia; lia).
    destruct (load64 raw (Z.of_nat i * rec)) as [cur|] eqn:Ecur; [|done]. cbn [mbind option_bind] in Hloop.
    destruct (ksym !! f) as [kf|] eqn:Ekf; [|done]. cbn [mbind option_bind] in Hloop.
    replace (Z.of_nat i + 1) with (Z.of_nat (S i)) in Hloop by lia.
    destruct (Z.eqb_spec kf cur) as [->|Hne].
    + destruct (ksym !! (f - 1)%nat); [|done]. cbn [mbind option_bind] in Hloop.
      destruct (klen !! (f - 1)%nat); [|done]. cbn [mbind option_bind] in Hloop.
      destruct (_ >? _) eqn:Esane in Hloop; [done|].
      replace (Z.of_nat i * rec) with (Z.of_nat (S i - 1) * rec) in Hloop
        by (by replace (S i - 1)%nat with i by lia).
      rewrite wrap_small in Hloop by (unfold in_u; lia).
      refine (IH (S i) (S f) i _ _ (ss ++ [i]) _ ltac:(lia) Hloop).
      destruct Hinv as [_ H1 H2 [Ha1 Ha2] H3 H4]. split.
      * rewrite length_app. cbn. lia.
      * rewrite lookup_app_l by lia. done.
      * rewrite Nat.sub_1_r. cbn. rewrite <- Hlss. by apply list_lookup_middle.
      * by rewrite !length_insert.
      * intros g s Hg. destruct (decide (g = f)) as [->|Hgf].
        -- rewrite <- Hlss, list_lookup_middle in Hg by done. injection Hg as <-. split; [apply list_lookup_insert_eq; lia|].
           intros e He. rewrite lookup_ge_None_2 in He; [done|]. rewrite length_app. cbn. lia.
        -- assert (g < f)%nat as Hgl by (apply lookup_lt_Some in Hg; rewrite length_app in Hg; cbn in Hg; lia).
           rewrite lookup_app_l in Hg by lia. rewrite list_lookup_insert_ne by done. destruct (H3 g s Hg) as [Hi Hs].
           split; [done|]. intros e He. destruct (decide (S g = f)) as [E|E].
           ++ rewrite E, <- Hlss, list_lookup_middle in He by done. injection He as <-.
              replace g with (f - 1)%nat in * by lia. rewrite H2 in Hg. injection Hg as <-.
              rewrite list_lookup_insert_eq by lia. split; [f_equal; lia|done].
           ++ rewrite lookup_app_l in He by lia. rewrite list_lookup_insert_ne by lia. by apply Hs.
      * rewrite Nat.sub_1_r. cbn. split_and!; [lia|by rewrite Ekf|]. intros j x y Hj1 Hj2. lia.
    + destruct (Z.leb_spec cur last); [done|].
      replace (Z.of_nat i * rec) with (Z.of_nat (S i - 1) * rec) in Hloop
        by (by replace (S i - 1)%nat with i by lia).
      refine (IH (S i) f p _ _ ss _ ltac:(lia) Hloop).
      destruct Hinv as [_ H1 H2 H3 H4 H5]. split; try done; [lia|]. by apply (seg_extend _ _ _ last cur).
Qed.
End dissect_lemmas.

(** * Properties *)

(** C35. When [dissect_jited_func] returns 0 the records of the functions are consecutive
    segments that cover all records: each starts at its function's address, the
    addresses increase inside it (in all functions but the last, whose records the
    loop does not look at), and the two arrays hold its start and its size. *)
Theorem dissect_jited_func_sound raw rec nr nf ksym klen idx0 per0 func_idx per_func :
  (0 < nr)%nat → Z.of_nat nr < 2 ^ 32 → (0 < nf)%nat → length idx0 = nf → length per0 = nf →
  dissect_jited_func raw rec (Z.of_nat nr) (Z.of_nat nf) ksym klen idx0 per0 = Some (inl (func_idx, per_func)) →
  dissected raw rec ksym nr nf func_idx per_func.
Proof.
  intros Hnr Hmax Hnf Hi0 Hp0 H. unfold dissect_jited_func in H.
  destruct (load64 raw 0) as [first|] eqn:Efirst; [|done]. cbn [mbind option_bind] in H.
  destruct (ksym !! 0%nat) as [k0|] eqn:Ek0; [|done]. cbn [mbind option_bind] in H.
  destruct (Z.eqb_spec k0 first) as [->|]; cbn [negb] in H; [|done].
  destruct (dissect_loop _ _ _ _ _ _ _ _ _ _ _ _) as [[[[[p f] fi] pf]|]|] eqn:El; [|done..]. cbn [mbind option_bind] in H.
  destruct (Z.eqb_spec (Z.of_nat f) (Z.of_nat nf)) as [Hf|]; cbn [negb] in H; [|done]. injection H as <- <-.
  assert (dissect_inv raw rec nr nf ksym 1 1 0 (<[0%nat := 0]> idx0) per0 [0%nat]) as Hinv.
  { split; cbn; try done.
    - lia.
    - rewrite length_insert. done.
    - intros [|g] s Hs; [|done]. injection Hs as <-. split; [apply list_lookup_insert_eq; lia|done].
    - split_and!; [lia| |lia]. rewrite Ek0. exact Efirst. }
  replace (Z.to_nat (Z.of_nat nr - 1)) with (nr - 1)%nat in El by lia.
  pose proof (dissect_loop_spec raw rec nr nf ksym klen Hmax (nr - 1) 1 1 0 _ _ _ _ Hinv ltac:(lia) El) as Hres. cbn in Hres.
  destruct (Hres ltac:(lia)) as (p2 & ss & j & -> & [(Hl1 & Hl2 & Hl3) H1 H2 [H3a H3b] H4 H5]).
  exists ss. split; [done|]. split; [done|]. intros g s Hg. cbn zeta. destruct (H4 g s Hg) as [Hi Hs]. split; [done|].
  replace (Z.to_nat (Z.of_nat nf - 1)) with (nf - 1)%nat by lia. rewrite wrap_small by (unfold in_u; lia).
  destruct (ss !! S g) as [e|] eqn:Ee; cbn [default].
  - destruct (Hs e eq_refl) as [Hp Hseg]. pose proof Hseg as (? & ? & _).
    apply lookup_lt_Some in Ee. rewrite list_lookup_insert_ne by lia. by split_and!.
  - assert (g = nf - 1)%nat as -> by (apply lookup_ge_None_1 in Ee; apply lookup_lt_Some in Hg; lia).
    rewrite H2 in Hg. injection Hg as <-. destruct H5 as (_ & H5 & _). split_and!; [|lia|done|lia].
    rewrite list_lookup_insert_eq by lia. f_equal. lia.
Qed.

(** [bpf_prog_linfo__lfind] on records with defined offsets (and an array small enough
    for the 32-bit offset arithmetic) finds the last of the leading records, from
    [nr_skip] on, whose instruction offset is at most the one asked for; it fails
    with [ENOENT] exactly when there is none. *)
Theorem lfind_spec p insn_off nr_skip :
  0 ≤ nr_skip → 0 < rec_size p → nr_linfo p * rec_size p < 2 ^ 32 →
  (∀ i, 0 ≤ i < nr_linfo p → is_Some (load32 (raw_linfo p) (i * rec_size p))) →
  (∃ j, bpf_prog_linfo__lfind p insn_off nr_skip = Some (inl (j * rec_size p)) ∧ nr_skip ≤ j < nr_linfo p ∧
     (∀ i v, nr_skip ≤ i ≤ j → load32 (raw_linfo p) (i * rec_size p) = Some v → v ≤ insn_off) ∧
     (j + 1 < nr_linfo p → ∃ v, load32 (raw_linfo p) ((j + 1) * rec_size p) = Some v ∧ insn_off < v)) ∨
  (bpf_prog_linfo__lfind p insn_off nr_skip = Some (inr ENOENT) ∧
     (nr_linfo p ≤ nr_skip ∨ ∃ v, load32 (raw_linfo p) (nr_skip * rec_size p) = Some v ∧ insn_off < v)).
Proof.
  intros Hs Hr Hmax Hld. unfold bpf_prog_linfo__lfind. rewrite Z.geb_leb.
  destruct (Z.leb_spec (nr_linfo p) nr_skip) as [|Hlt]; [right; auto|].
  rewrite wrap_small by (unfold in_u; nia).
  destruct (Hld nr_skip ltac:(lia)) as [v0 Hv0]. rewrite Hv0. cbn [mbind option_bind].
  destruct (Z.ltb_spec insn_off v0) as [|Hge]; [right; eauto|]. left.
  destruct (linfo_scan_spec (load32 (raw_linfo p)) (rec_size p) insn_off (Z.to_nat (nr_linfo p - nr_skip)) (nr_skip * rec_size p))
    as (k & Hk & Hkn & Hle & Hgt).
  { intros i Hi. rewrite <- Z.mul_add_distr_r. apply Hld. lia. }
  rewrite Hk. cbn [mbind option_bind].
  assert (0 < k)%nat as Hk0.
  { destruct k; [|lia]. destruct (Hgt ltac:(lia)) as (v & Hv & Hlt'). rewrite Z.mul_0_l, Z.add_0_r in Hv. simplify_eq. lia. }
  exists (nr_skip + Z.of_nat k - 1). split_and!; [f_equal; f_equal; lia|lia|lia| |].
  - intros i v Hi Hv. apply (Hle (Z.to_nat (i - nr_skip)) v); [lia|].
    rewrite Z2Nat.id by lia. by replace (nr_skip * rec_size p + (i - nr_skip) * rec_size p) with (i * rec_size p) by lia.
  - intros Hj. destruct (Hgt ltac:(lia)) as (v & Hv & Hlt'). exists v. split; [|done].
    by replace ((nr_skip + Z.of_nat k - 1 + 1) * rec_size p) with (nr_skip * rec_size p + Z.of_nat k * rec_size p) by lia.
Qed.

Lemma dissect_jited_func_sound_witness :
  ∃ fi pf, dissect_jited_func (flat_map (le_bytes 8) [100; 104; 200]) 8 3 2 [100; 200] [16; 8] [0; 0] [0; 0] = Some (inl (fi, pf)) ∧
    dissected (flat_map (le_bytes 8) [100; 104; 200]) 8 [100; 200] 3 2 fi pf.
Proof.
  exists [0; 2], [2; 1]. split; [vm_compute; reflexivity|].
  apply (dissect_jited_func_sound (flat_map (le_bytes 8) [100; 104; 200]) 8 3 2 [100; 200] [16; 8] [0; 0] [0; 0]);
    [lia|reflexivity|lia|reflexivity|reflexivity|vm_compute; reflexivity].
Defined.

Lemma lfind_spec_witness :
  let p := mkLinfo (flat_map (le_bytes 4) [0; 4; 9]) [] [] [] 3 0 4 0 in
  bpf_prog_linfo__lfind p 5 0 = Some (inl 4) ∧
  ∃ j, bpf_prog_linfo__lfind p 5 0 = Some (inl (j * 4)).
Proof.
  intros p. split; [vm_compute; reflexivity|].
  destruct (lfind_spec p 5 0) as [(j & Hj & _)|(Hj & _)].
  - lia.
  - reflexivity.
  - reflexivity.
  - intros i Hi. cbn in Hi. assert (i = 0 ∨ i = 1 ∨ i = 2) as [-> | [-> | ->]] by lia; vm_compute; eauto.
  - exists j. exact Hj.
  - vm_compute in Hj. discriminate.
Defined.
