(* ===== verification/Errno.v ===== *)
(** Error codes and messages of libbpf (src/libbpf/src/libbpf_errno.c, str_error.c,
    and the helpers of libbpf_internal.h).

    A [char] buffer is the list of its bytes; [strerror_r] of the C library is an
    argument: the value it returns and the buffer it leaves ([errno] is the C
    library's afterwards). *)
From stdpp Require Import base list strings pretty.
From Stdlib Require Import ZArith Lia Ascii.
From S2P Require Import Prelude Mem.

#[local] Open Scope Z_scope.

Definition LIBBPF_ERRNO__START : Z := 4000.
Definition LIBBPF_ERRNO__LOAD : Z := 4006.
Definition LIBBPF_ERRNO__END : Z := 4014.

(** [None]: an entry the table leaves [NULL]. *)
Definition libbpf_strerror_table : list (option string) :=
  [Some "Something wrong in libelf";
   Some "BPF object format invalid";
   Some "'version' section incorrect or lost";
   Some "Endian mismatch";
   Some "Internal error in libbpf";
   Some "Relocation failed";
   None;
   Some "Kernel verifier blocks program loading";
   Some "Program too big";
   Some "Incorrect kernel version";
   Some "Kernel doesn't support this program type";
   Some "Wrong pid in netlink message";
   Some "Invalid netlink sequence";
   Some "Incorrect netlink message parsing"]%string.

(** The value returned and [errno] afterwards. *)
Definition libbpf_err (errno ret : Z) : Z * Z := (ret, if ret <? 0 then - ret else errno).
Definition libbpf_err_errno (errno ret : Z) : Z := if ret <? 0 then - errno else ret.

Definition str_bytes (s : string) : list Z := map (λ c, Z.of_nat (nat_of_ascii c)) (String.list_ascii_of_string s).

(** [snprintf(buf, size, "%s", s)] with [size > 0]: the bytes behind the NUL stay. *)
Definition snprintf_str (buf : list Z) (s : list Z) : list Z :=
  let out := take (pred (length buf)) s ++ [0] in out ++ drop (length out) buf.

(** [buf[size - 1] = '\0'] *)
Definition terminate (buf : list Z) : list Z := <[pred (length buf) := 0]> buf.

(** [None]: undefined ([-INT_MIN], or a null pointer printed with [%s]). *)
Definition libbpf_strerror (errno : Z) (strerror_r : Z → list Z → Z * list Z) (err : Z) (buf : option (list Z))
    : option (Z * option (list Z)) :=
  match buf with
  | None | Some [] => Some (- EINVAL, buf)
  | Some b =>
      if err =? INT_MIN then None
      else
        let err := if err >? 0 then err else - err in
        if err <? LIBBPF_ERRNO__START then
          let '(ret, b) := strerror_r err b in Some (libbpf_err_errno errno ret, Some (terminate b))
        else if err <? LIBBPF_ERRNO__END then
          msg ← default None (libbpf_strerror_table !! Z.to_nat (err - LIBBPF_ERRNO__START));
          Some (0, Some (terminate (snprintf_str b (str_bytes msg))))
        else
          Some (- ENOENT, Some (terminate (snprintf_str b (str_bytes ("Unknown libbpf error " +:+ pretty err)))))
  end.

Definition libbpf_strerror_r (strerror_r : Z → list Z → Z * list Z) (err : Z) (dst : list Z) : list Z :=
  let '(ret, dst) := strerror_r (if err <? 0 then - err else err) dst in
  if ret =? 0 then dst
  else match dst with
       | [] => dst
       | _ => snprintf_str dst (str_bytes ("ERROR: strerror_r(" +:+ pretty err +:+ ")=" +:+ pretty ret))
       end.

(** [libbpf_strlcpy]: [dst] has at least [sz] bytes, [src] is a C string. *)
Definition libbpf_strlcpy (dst src : list Z) (sz : nat) : list Z :=
  match sz with
  | O => dst
  | S n => let out := take n (cstr src) ++ [0] in out ++ drop (length out) dst
  end.

(** * Specification: the messages *)

(** The codes of [enum libbpf_errno] with a message (libbpf.h), [LIBBPF_ERRNO__LIBELF] to
    [LIBBPF_ERRNO__NLPARSE]; [LIBBPF_ERRNO__LOAD], 4006, is not among them. *)
Definition libbpf_messages : list (Z * string) :=
  [(4000, "Something wrong in libelf"); (4001, "BPF object format invalid"); (4002, "'version' section incorrect or lost");
   (4003, "Endian mismatch"); (4004, "Internal error in libbpf"); (4005, "Relocation failed");
   (4007, "Kernel verifier blocks program loading"); (4008, "Program too big"); (4009, "Incorrect kernel version");
   (4010, "Kernel doesn't support this program type"); (4011, "Wrong pid in netlink message");
   (4012, "Invalid netlink sequence"); (4013, "Incorrect netlink message parsing")]%string.

(** The text a code from [LIBBPF_ERRNO__START] on is to have. *)
Definition message_text (e : Z) (text : string) : Prop :=
  (e, text) ∈ libbpf_messages ∨ LIBBPF_ERRNO__END ≤ e ∧ text = "Unknown libbpf error "%string +:+ pretty e.

(** * Lemmas *)

Lemma snprintf_length buf s : buf ≠ [] → length (snprintf_str buf s) = length buf.
Proof.
  intros Hb. unfold snprintf_str. cbv zeta. rewrite !length_app, length_drop, ?length_app, length_take. cbn.
  destruct buf; [done|]. cbn. lia.
Qed.

Lemma terminate_last buf : buf ≠ [] → length (terminate buf) = length buf ∧ last (terminate buf) = Some 0.
Proof.
  intros Hb. unfold terminate. split; [apply length_insert|].
  rewrite last_lookup, length_insert, list_lookup_insert_eq; [done|]. destruct buf; [done|cbn; lia].
Qed.

Lemma snprintf_cstr buf s :
  nonul s → buf ≠ [] → cstr (terminate (snprintf_str buf s)) = take (pred (length buf)) s.
Proof.
  intros Hs Hb. unfold terminate. rewrite snprintf_length by done. unfold snprintf_str. cbv zeta.
  set (out := take (pred (length buf)) s).
  assert (nonul out) as Ho by by apply Forall_take.
  assert (length out ≤ pred (length buf))%nat as Hl by (unfold out; rewrite length_take; lia).
  rewrite <- app_assoc. cbn [app].
  destruct (decide (length out = pred (length buf))) as [E|E].
  - rewrite insert_app_r_alt by lia. rewrite E, Nat.sub_diag. cbn. by apply cstr_app.
  - rewrite insert_app_r_alt by lia. replace (pred (length buf) - length out)%nat with (S (pred (pred (length buf) - length out))) by lia.
    cbn. by apply cstr_app.
Qed.

Lemma strlcpy_cstr dst src sz : (0 < sz)%nat → cstr (libbpf_strlcpy dst src sz) = take (pred sz) (cstr src).
Proof.
  intros Hsz. destruct sz as [|n]; [lia|]. cbn [libbpf_strlcpy pred]. cbv zeta.
  assert (nonul (take n (cstr src))) as Hn.
  { apply Forall_take. clear. induction src as [|c src IH]; cbn; [constructor|].
    destruct (Z.eqb_spec c 0); [constructor|by constructor]. }
  rewrite <- app_assoc. cbn [app]. by apply cstr_app.
Qed.

Lemma str_bytes_app s t : str_bytes (s +:+ t) = str_bytes s ++ str_bytes t.
Proof. induction s as [|c s IH]; [done|]. change (String c s +:+ t) with (String c (s +:+ t)). unfold str_bytes in *. cbn. by rewrite IH. Qed.

Definition nonulb (s : string) : bool := forallb (λ c, negb (c =? 0)) (str_bytes s).

Lemma nonulb_ok s : nonulb s = true → nonul (str_bytes s).
Proof.
  unfold nonulb, nonul. rewrite forallb_forall, Forall_forall. intros H c Hc%list_elem_of_In. specialize (H c Hc).
  by apply negb_true_iff, Z.eqb_neq in H.
Qed.

Lemma digits_nonul x s : nonul (str_bytes s) → nonul (str_bytes (pretty_N_go x s)).
Proof.
  revert s. induction (N.lt_wf_0 x) as [x _ IH]; intros s Hs.
  assert (x = 0 ∨ 0 < x)%N as [->|?] by lia; [by rewrite pretty_N_go_0|].
  rewrite pretty_N_go_step by done. apply IH; [by apply N.div_lt|].
  apply (Forall_app_2 _ (str_bytes (String (pretty_N_char (x `mod` 10)) "")) (str_bytes s)); [|done].
  apply nonulb_ok. unfold pretty_N_char. by repeat case_match.
Qed.

Lemma number_nonul e : 0 < e → nonul (str_bytes (pretty e)).
Proof. intros He. destruct e as [|p|]; [lia| |lia]. apply (digits_nonul (Npos p) ""). constructor. Qed.

(** No message has a NUL in it. *)
Lemma text_nonul e text : 0 < e → message_text e text → nonul (str_bytes text).
Proof.
  intros He [Hm|[_ ->]].
  - apply nonulb_ok. assert (forallb (λ m, nonulb m.2) libbpf_messages = true) as H by (vm_compute; reflexivity).
    rewrite forallb_forall in H. by apply list_elem_of_In, H in Hm.
  - rewrite str_bytes_app. apply Forall_app_2; [by apply nonulb_ok; vm_compute|by apply number_nonul].
Qed.

(** The table has the messages, and a text for every code but [LIBBPF_ERRNO__LOAD]. *)
Lemma table_messages e : LIBBPF_ERRNO__START ≤ e < LIBBPF_ERRNO__END → e ≠ LIBBPF_ERRNO__LOAD →
  ∃ text, (e, text) ∈ libbpf_messages ∧ libbpf_strerror_table !! Z.to_nat (e - LIBBPF_ERRNO__START) = Some (Some text).
Proof.
  unfold LIBBPF_ERRNO__START, LIBBPF_ERRNO__LOAD, LIBBPF_ERRNO__END. intros He Hl.
  assert (e ∈ seqZ 4000 14) as Hin by (apply elem_of_seqZ; lia). change (seqZ 4000 14) with
    [4000; 4001; 4002; 4003; 4004; 4005; 4006; 4007; 4008; 4009; 4010; 4011; 4012; 4013] in Hin.
  repeat (apply elem_of_cons in Hin as [->|Hin]; [first [done|eexists; split; [|reflexivity]; apply (bool_decide_unpack _); vm_compute; exact I]|]).
  by apply elem_of_nil in Hin.
Qed.

Lemma messages_unique e text text' : (e, text) ∈ libbpf_messages → (e, text') ∈ libbpf_messages → text = text'.
Proof.
  assert (forallb (λ m, forallb (λ m', negb (m.1 =? m'.1) || bool_decide (m.2 = m'.2)) libbpf_messages) libbpf_messages = true) as H
    by (vm_compute; reflexivity).
  intros H1%list_elem_of_In H2%list_elem_of_In. rewrite forallb_forall in H. apply H in H1. rewrite forallb_forall in H1. apply H1 in H2.
  cbn in H2. rewrite Z.eqb_refl in H2. by apply bool_decide_eq_true in H2.
Qed.

Lemma messages_range e text : (e, text) ∈ libbpf_messages → LIBBPF_ERRNO__START ≤ e < LIBBPF_ERRNO__END ∧ e ≠ LIBBPF_ERRNO__LOAD.
Proof.
  intros Hm. assert (forallb (λ m, (4000 <=? m.1) && (m.1 <? 4014) && negb (m.1 =? 4006)) libbpf_messages = true) as H by (vm_compute; reflexivity).
  rewrite forallb_forall in H. apply list_elem_of_In, H in Hm. cbn in Hm. unfold LIBBPF_ERRNO__START, LIBBPF_ERRNO__LOAD, LIBBPF_ERRNO__END. lia.
Qed.

(** * Properties *)

(** C40. [libbpf_strerror] always leaves a terminated message of the buffer's size: below
    [LIBBPF_ERRNO__START] what [strerror_r] wrote; for libbpf's own codes their message
    cut to the buffer, and 0 is returned; beyond them "Unknown libbpf error" with the
    number, and [-ENOENT] is returned.  But for [LIBBPF_ERRNO__LOAD], which has no message
    in the table, it prints a null pointer. *)
Theorem strerror_message errno strerror_r err b :
  b ≠ [] → (∀ e b, length (strerror_r e b).2 = length b) → INT_MIN < err →
  let e := Z.abs err in
  (e = LIBBPF_ERRNO__LOAD → libbpf_strerror errno strerror_r err (Some b) = None) ∧
  (e ≠ LIBBPF_ERRNO__LOAD → ∃ ret out, libbpf_strerror errno strerror_r err (Some b) = Some (ret, Some out) ∧
     length out = length b ∧ last out = Some 0 ∧
     if e <? LIBBPF_ERRNO__START then
       ret = libbpf_err_errno errno (strerror_r e b).1 ∧ out = terminate (strerror_r e b).2
     else
       ret = (if e <? LIBBPF_ERRNO__END then 0 else - ENOENT) ∧
       ∃ text, message_text e text ∧ cstr out = take (pred (length b)) (str_bytes text)).
Proof.
  intros Hb Hlen Hmin e. unfold libbpf_strerror. destruct b as [|c b]; [done|]. set (buf := c :: b) in *.
  destruct (Z.eqb_spec err INT_MIN); [lia|].
  assert ((if err >? 0 then err else - err) = e) as ->.
  { unfold e. rewrite Z.gtb_ltb. destruct (Z.ltb_spec 0 err); lia. }
  split; [by intros ->|]. intros Hne.
  assert (∀ s, length (terminate (snprintf_str buf s)) = length buf ∧ last (terminate (snprintf_str buf s)) = Some 0) as Hterm.
  { intros s. rewrite <- (snprintf_length buf s) by done. apply terminate_last. intros E.
    apply (f_equal length) in E. by rewrite snprintf_length in E by done. }
  destruct (Z.ltb_spec e LIBBPF_ERRNO__START).
  - specialize (Hlen e buf). destruct (strerror_r e buf) as [ret out]. cbn in Hlen |- *.
    assert (out ≠ []) as Hout by (intros ->; done). destruct (terminate_last out Hout) as [Hl Ht].
    eexists _, _. split; [reflexivity|]. by rewrite Hl, Hlen.
  - assert (0 < e) as He by (unfold LIBBPF_ERRNO__START in *; lia). destruct (Z.ltb_spec e LIBBPF_ERRNO__END).
    + destruct (table_messages e) as (msg & Hm & ->); [lia|done|]. cbn [default mbind option_bind].
      eexists _, _. split; [reflexivity|]. split; [apply Hterm|]. split; [apply Hterm|]. split; [done|]. exists msg.
      split; [by left|]. apply snprintf_cstr; [|done]. apply (text_nonul e); [done|by left].
    + eexists _, _. split; [reflexivity|]. split; [apply Hterm|]. split; [apply Hterm|]. split; [done|]. eexists.
      split; [right; by split|]. apply snprintf_cstr; [|done]. apply (text_nonul e); [done|right; by split].
Qed.

(** The message of a code is one, so the text above is determined. *)
Lemma message_text_unique e text text' : message_text e text → message_text e text' → text = text'.
Proof.
  intros [H|[H ->]] [H'|[H' ->]]; [by eapply messages_unique|apply messages_range in H; lia|apply messages_range in H'; lia|done].
Qed.

Lemma strerror_message_witness :
  libbpf_strerror 0 (λ _ b, (0, b)) 4006 (Some (replicate 8 65)) = None ∧
  ∃ ret out, libbpf_strerror 0 (λ _ b, (0, b)) (-4014) (Some (replicate 32 65)) = Some (ret, Some out) ∧ ret = - ENOENT ∧
    cstr out = str_bytes "Unknown libbpf error 4014".
Proof.
  split.
  - exact (proj1 (strerror_message 0 (λ _ b, (0, b)) 4006 (replicate 8 65) ltac:(discriminate) ltac:(reflexivity) ltac:(reflexivity)) eq_refl).
  - destruct (proj2 (strerror_message 0 (λ _ b, (0, b)) (-4014) (replicate 32 65) ltac:(discriminate) ltac:(reflexivity) ltac:(reflexivity)) ltac:(discriminate))
      as (ret & out & H & _ & _ & Hr & text & Ht & Hc).
    exists ret, out. split; [exact H|]. split; [exact Hr|]. rewrite Hc.
    rewrite (message_text_unique 4014 text "Unknown libbpf error 4014" Ht); [reflexivity|].
    right. split; [discriminate|reflexivity].
Defined.
