(* ===== verification/Btf.v ===== *)
(** BTF type information: the types of a BTF object, lookup by id and by name, and the
    sizes and alignments read off them (src/libbpf/src/btf.h and lines 451-771 and
    1315-1328 of src/libbpf/src/btf.c).

    A type is the three words of [struct btf_type] and the 32-bit words that follow
    it; the casts of [t + 1] ([btf_array], [btf_members], [btf_enum], ...) read these
    words, and a read past them is undefined ([None]).  A BTF object holds the types
    its [type_offs] point to, in order, and its string section; BtfRaw.v reads them
    out of the bytes of a BTF file. *)
From stdpp Require Import base list strings.
From Stdlib Require Import ZArith Lia.
From S2P Require Import Prelude Bytes Mem Errno.

#[local] Open Scope Z_scope.

Definition BTF_KIND_UNKN : Z := 0.
Definition BTF_KIND_INT : Z := 1.
Definition BTF_KIND_PTR : Z := 2.
Definition BTF_KIND_ARRAY : Z := 3.
Definition BTF_KIND_STRUCT : Z := 4.
Definition BTF_KIND_UNION : Z := 5.
Definition BTF_KIND_ENUM : Z := 6.
Definition BTF_KIND_FWD : Z := 7.
Definition BTF_KIND_TYPEDEF : Z := 8.
Definition BTF_KIND_VOLATILE : Z := 9.
Definition BTF_KIND_CONST : Z := 10.
Definition BTF_KIND_RESTRICT : Z := 11.
Definition BTF_KIND_FUNC : Z := 12.
Definition BTF_KIND_FUNC_PROTO : Z := 13.
Definition BTF_KIND_VAR : Z := 14.
Definition BTF_KIND_DATASEC : Z := 15.
Definition BTF_KIND_FLOAT : Z := 16.
Definition BTF_KIND_DECL_TAG : Z := 17.
Definition BTF_KIND_TYPE_TAG : Z := 18.
Definition BTF_KIND_ENUM64 : Z := 19.

Definition BTF_INT_SIGNED : Z := 1.

Definition UINT32_MAX : Z := 2 ^ 32 - 1.
Definition MAX_RESOLVE_DEPTH : nat := 32.

(** [bt_size] is the union of [size] and [type]; [bt_rest] the words behind. *)
Record btf_type := mkType {
  bt_name_off : Z;
  bt_info : Z;
  bt_size : Z;
  bt_rest : list Z;
}.
Abbreviation bt_type := bt_size.

#[export] Instance btf_type_eq_dec : EqDecision btf_type.
Proof. solve_decision. Defined.

(** [b_strs] is the string section ([hdr->str_len] bytes); [b_ptr_sz] is 0 until the
    pointer size is determined or set. *)
Inductive btf := mkBtf {
  b_types : list btf_type;
  b_start_id : Z;
  b_start_str_off : Z;
  b_strs : list Z;
  b_base : option btf;
  b_ptr_sz : Z;
}.

Definition btf_void : btf_type := mkType 0 0 0 [].

Definition btf_kind (t : btf_type) : Z := Z.land (Z.shiftr (bt_info t) 24) 31.
Definition btf_vlen (t : btf_type) : Z := Z.land (bt_info t) 65535.
Definition btf_kflag (t : btf_type) : bool := negb (Z.shiftr (bt_info t) 31 =? 0).

Definition btf_is_int (t : btf_type) : bool := btf_kind t =? BTF_KIND_INT.
Definition btf_is_ptr (t : btf_type) : bool := btf_kind t =? BTF_KIND_PTR.
Definition btf_is_array (t : btf_type) : bool := btf_kind t =? BTF_KIND_ARRAY.
Definition btf_is_composite (t : btf_type) : bool :=
  (btf_kind t =? BTF_KIND_STRUCT) || (btf_kind t =? BTF_KIND_UNION).
Definition btf_is_enum (t : btf_type) : bool := btf_kind t =? BTF_KIND_ENUM.
Definition btf_is_enum64 (t : btf_type) : bool := btf_kind t =? BTF_KIND_ENUM64.
Definition btf_is_any_enum (t : btf_type) : bool := btf_is_enum t || btf_is_enum64 t.
Definition btf_is_fwd (t : btf_type) : bool := btf_kind t =? BTF_KIND_FWD.
Definition btf_is_typedef (t : btf_type) : bool := btf_kind t =? BTF_KIND_TYPEDEF.
Definition btf_is_var (t : btf_type) : bool := btf_kind t =? BTF_KIND_VAR.
Definition btf_is_mod (t : btf_type) : bool :=
  (btf_kind t =? BTF_KIND_VOLATILE) || (btf_kind t =? BTF_KIND_CONST) ||
  (btf_kind t =? BTF_KIND_RESTRICT) || (btf_kind t =? BTF_KIND_TYPE_TAG).

Definition btf_kind_core_compat (t1 t2 : btf_type) : bool :=
  (btf_kind t1 =? btf_kind t2) || (btf_is_any_enum t1 && btf_is_any_enum t2).

(** The word at index [i] behind the type. *)
Definition bt_word (t : btf_type) (i : Z) : option Z :=
  if 0 <=? i then bt_rest t !! Z.to_nat i else None.

Definition btf_int_encoding (t : btf_type) : option Z :=
  w ← bt_word t 0; Some (Z.shiftr (Z.land w 0x0f000000) 24).
Definition btf_int_offset (t : btf_type) : option Z :=
  w ← bt_word t 0; Some (Z.shiftr (Z.land w 0x00ff0000) 16).
Definition btf_int_bits (t : btf_type) : option Z :=
  w ← bt_word t 0; Some (Z.land w 0xff).

Record btf_array := mkArray { a_type : Z; a_index_type : Z; a_nelems : Z }.
Definition btf_array_of (t : btf_type) : option btf_array :=
  ty ← bt_word t 0; ix ← bt_word t 1; n ← bt_word t 2; Some (mkArray ty ix n).

Record btf_member := mkMember { m_name_off : Z; m_type : Z; m_offset : Z }.
Definition btf_member_at (t : btf_type) (i : Z) : option btf_member :=
  n ← bt_word t (3 * i); ty ← bt_word t (3 * i + 1); off ← bt_word t (3 * i + 2);
  Some (mkMember n ty off).

Record btf_param := mkParam { p_name_off : Z; p_type : Z }.
Definition btf_param_at (t : btf_type) (i : Z) : option btf_param :=
  n ← bt_word t (2 * i); ty ← bt_word t (2 * i + 1); Some (mkParam n ty).

Record btf_enum := mkEnum { e_name_off : Z; e_val : Z }.
Definition btf_enum_at (t : btf_type) (i : Z) : option btf_enum :=
  n ← bt_word t (2 * i); v ← bt_word t (2 * i + 1); Some (mkEnum n (s32 v)).

Record btf_enum64 := mkEnum64 { e64_name_off : Z; e64_val_lo32 : Z; e64_val_hi32 : Z }.
Definition btf_enum64_at (t : btf_type) (i : Z) : option btf_enum64 :=
  n ← bt_word t (3 * i); lo ← bt_word t (3 * i + 1); hi ← bt_word t (3 * i + 2);
  Some (mkEnum64 n lo hi).
Definition btf_enum64_value (e : btf_enum64) : Z :=
  Z.lor (u64 (Z.shiftl (e64_val_hi32 e) 32)) (e64_val_lo32 e).

Definition btf_member_bit_offset (t : btf_type) (i : Z) : option Z :=
  m ← btf_member_at t i; Some (if btf_kflag t then Z.land (m_offset m) 0xffffff else m_offset m).
Definition btf_member_bitfield_size (t : btf_type) (i : Z) : option Z :=
  m ← btf_member_at t i; Some (if btf_kflag t then Z.shiftr (m_offset m) 24 else 0).

(** * Lookup *)

Definition b_nr_types (b : btf) : Z := Z.of_nat (length (b_types b)).
Definition btf__type_cnt (b : btf) : Z := u32 (b_start_id b + b_nr_types b).

(** [None]: a read outside [type_offs]. *)
Fixpoint btf_type_by_id (b : btf) (type_id : Z) : option btf_type :=
  if type_id =? 0 then Some btf_void
  else if type_id <? b_start_id b then
    match b_base b with Some base => btf_type_by_id base type_id | None => None end
  else b_types b !! Z.to_nat (type_id - b_start_id b).

(** [None]: [NULL]. *)
Definition btf__type_by_id (b : btf) (type_id : Z) : option btf_type :=
  if type_id >=? btf__type_cnt b then None else btf_type_by_id b type_id.

(** [None]: [NULL]. The string section ends in a NUL (checked when it is parsed). *)
Fixpoint btf__str_by_offset (b : btf) (offset : Z) : option (list Z) :=
  if offset <? b_start_str_off b then
    match b_base b with Some base => btf__str_by_offset base offset | None => None end
  else if offset - b_start_str_off b <? Z.of_nat (length (b_strs b)) then
    Some (cstr_at (b_strs b) (offset - b_start_str_off b))
  else None.

Definition btf__name_by_offset (b : btf) (offset : Z) : option (list Z) := btf__str_by_offset b offset.

(** [!s || !s[0]] *)
Definition str_is_empty (s : option (list Z)) : bool :=
  match s with None | Some [] => true | _ => false end.

(** * Sizes *)

Definition long_aliases : list (list Z) :=
  map str_bytes ["long"; "long int"; "int long"; "unsigned long"; "long unsigned"; "unsigned long int";
                 "unsigned int long"; "long unsigned int"; "long int unsigned"; "int unsigned long";
                 "int long unsigned"]%string.

(** The loop of [determine_ptr_size] from type id [i] on. *)
Fixpoint ptr_size_scan (n : nat) (b : btf) (i : Z) : option Z :=
  match n with
  | O => Some (-1)
  | S n =>
      if i <? btf__type_cnt b then
        t ← btf__type_by_id b i;
        if btf_is_int t && ((bt_size t =? 4) || (bt_size t =? 8)) then
          match btf__name_by_offset b (bt_name_off t) with
          | Some name => if decide (name ∈ long_aliases) then Some (s32 (bt_size t)) else ptr_size_scan n b (i + 1)
          | None => ptr_size_scan n b (i + 1)
          end
        else ptr_size_scan n b (i + 1)
      else Some (-1)
  end.

Definition determine_ptr_size (b : btf) : option Z :=
  match b_base b with
  | Some base => if b_ptr_sz base >? 0 then Some (b_ptr_sz base) else ptr_size_scan (Z.to_nat (btf__type_cnt b)) b 1
  | None => ptr_size_scan (Z.to_nat (btf__type_cnt b)) b 1
  end.

(** The size in use, with what [btf->ptr_sz] holds afterwards: the code determines it
    on first use and keeps it. *)
Definition ptr_sz_cached (b : btf) : option Z :=
  if b_ptr_sz b =? 0 then determine_ptr_size b else Some (b_ptr_sz b).
Definition btf_ptr_sz (b : btf) : option Z :=
  sz ← ptr_sz_cached b; Some (if sz <? 0 then 8 else sz).
Definition btf__pointer_size (b : btf) : option Z :=
  sz ← ptr_sz_cached b; Some (if sz <? 0 then 0 else sz).
Definition btf__set_pointer_size (b : btf) (ptr_sz : Z) : btf * Z :=
  if negb (ptr_sz =? 4) && negb (ptr_sz =? 8) then (b, - EINVAL)
  else (mkBtf (b_types b) (b_start_id b) (b_start_str_off b) (b_strs b) (b_base b) ptr_sz, 0).

Definition btf_type_is_void (t : btf_type) : bool := bool_decide (t = btf_void) || btf_is_fwd t.
Definition btf_type_is_void_or_null (t : option btf_type) : bool :=
  match t with Some t => btf_type_is_void t | None => true end.

(** How the loop of [btf__resolve_size] goes on from a type. *)
Inductive size_step := SzDone (size : Z) | SzGo (type_id nelems : Z) | SzErr (err : Z).

Definition sized_kind (k : Z) : bool :=
  (k =? BTF_KIND_INT) || (k =? BTF_KIND_STRUCT) || (k =? BTF_KIND_UNION) || (k =? BTF_KIND_ENUM) ||
  (k =? BTF_KIND_ENUM64) || (k =? BTF_KIND_DATASEC) || (k =? BTF_KIND_FLOAT).
Definition ref_kind (k : Z) : bool :=
  (k =? BTF_KIND_TYPEDEF) || (k =? BTF_KIND_VOLATILE) || (k =? BTF_KIND_CONST) || (k =? BTF_KIND_RESTRICT) ||
  (k =? BTF_KIND_VAR) || (k =? BTF_KIND_DECL_TAG) || (k =? BTF_KIND_TYPE_TAG).

Definition resolve_size_step (b : btf) (t : btf_type) (nelems : Z) : option size_step :=
  let k := btf_kind t in
  if sized_kind k then Some (SzDone (bt_size t))
  else if k =? BTF_KIND_PTR then sz ← btf_ptr_sz b; Some (SzDone sz)
  else if ref_kind k then Some (SzGo (bt_type t) nelems)
  else if k =? BTF_KIND_ARRAY then
    a ← btf_array_of t;
    if negb (nelems =? 0) && (a_nelems a >? UINT32_MAX / nelems) then Some (SzErr (- E2BIG))
    else Some (SzGo (a_type a) (u32 (nelems * a_nelems a)))
  else Some (SzErr (- EINVAL)).

Definition resolve_size_done (size nelems : Z) : Z :=
  if size <? 0 then - EINVAL
  else if negb (nelems =? 0) && (size >? UINT32_MAX / nelems) then - E2BIG
  else nelems * size.

Fixpoint resolve_size_loop (n : nat) (b : btf) (t : option btf_type) (nelems : Z) : option Z :=
  match n with
  | O => Some (resolve_size_done (-1) nelems)
  | S n =>
      if btf_type_is_void_or_null t then Some (resolve_size_done (-1) nelems)
      else
        t ← t;
        st ← resolve_size_step b t nelems;
        match st with
        | SzDone size => Some (resolve_size_done size nelems)
        | SzErr err => Some err
        | SzGo type_id nelems => resolve_size_loop n b (btf__type_by_id b type_id) nelems
        end
  end.

Definition btf__resolve_size (b : btf) (type_id : Z) : option Z :=
  resolve_size_loop MAX_RESOLVE_DEPTH b (btf__type_by_id b type_id) 1.

(** [None]: a null or missing type is used, or [fuel] (the depth of the recursion) does
    not suffice. *)
Fixpoint btf__align_of (fuel : nat) (b : btf) (id : Z) : option Z :=
  match fuel with
  | O => None
  | S fuel =>
      t ← btf__type_by_id b id;
      let k := btf_kind t in
      if (k =? BTF_KIND_INT) || (k =? BTF_KIND_ENUM) || (k =? BTF_KIND_ENUM64) || (k =? BTF_KIND_FLOAT) then
        sz ← btf_ptr_sz b; Some (s32 (Z.min sz (bt_size t)))
      else if k =? BTF_KIND_PTR then sz ← btf_ptr_sz b; Some (s32 sz)
      else if (k =? BTF_KIND_TYPEDEF) || (k =? BTF_KIND_VOLATILE) || (k =? BTF_KIND_CONST) ||
              (k =? BTF_KIND_RESTRICT) || (k =? BTF_KIND_TYPE_TAG) then btf__align_of fuel b (bt_type t)
      else if k =? BTF_KIND_ARRAY then a ← btf_array_of t; btf__align_of fuel b (a_type a)
      else if btf_is_composite t then
        (fix members (n : nat) (i max_align : Z) : option Z :=
           match n with
           | O => Some max_align
           | S n =>
               m ← btf_member_at t i;
               align ← btf__align_of fuel b (m_type m);
               if align <=? 0 then Some align else members n (i + 1) (Z.max max_align align)
           end) (Z.to_nat (btf_vlen t)) 0 1
      else Some 0
  end.

Fixpoint resolve_type_loop (n : nat) (b : btf) (type_id : Z) (t : option btf_type) : Z :=
  match n with
  | O => - EINVAL
  | S n =>
      match t with
      | None => - EINVAL
      | Some t =>
          if btf_type_is_void t then - EINVAL
          else if btf_is_mod t || btf_is_typedef t || btf_is_var t
          then resolve_type_loop n b (bt_type t) (btf__type_by_id b (bt_type t))
          else s32 type_id
      end
  end.

Definition btf__resolve_type (b : btf) (type_id : Z) : Z :=
  resolve_type_loop MAX_RESOLVE_DEPTH b type_id (btf__type_by_id b type_id).

(** * Search by name *)

(** [Some None]: not found. *)
Fixpoint find_scan (n : nat) (b : btf) (i : Z) (kind : option Z) (type_name : list Z) : option (option Z) :=
  match n with
  | O => Some None
  | S n =>
      if i <? btf__type_cnt b then
        t ← btf__type_by_id b i;
        if (match kind with Some k => negb (btf_kind t =? k) | None => false end)
        then find_scan n b (u32 (i + 1)) kind type_name
        else if decide (btf__name_by_offset b (bt_name_off t) = Some type_name) then Some (Some i)
        else find_scan n b (u32 (i + 1)) kind type_name
      else Some None
  end.

Definition btf__find_by_name (b : btf) (type_name : list Z) : option Z :=
  if decide (type_name = str_bytes "void") then Some 0
  else r ← find_scan (Z.to_nat (btf__type_cnt b)) b 1 None type_name;
       Some (match r with Some i => s32 i | None => - ENOENT end).

Definition btf_find_by_name_kind (b : btf) (start_id : Z) (type_name : list Z) (kind : Z) : option Z :=
  if (kind =? BTF_KIND_UNKN) || bool_decide (type_name = str_bytes "void") then Some 0
  else r ← find_scan (Z.to_nat (btf__type_cnt b)) b start_id (Some kind) type_name;
       Some (match r with Some i => s32 i | None => - ENOENT end).

Definition btf__find_by_name_kind_own (b : btf) (type_name : list Z) (kind : Z) : option Z :=
  btf_find_by_name_kind b (b_start_id b) type_name kind.
Definition btf__find_by_name_kind (b : btf) (type_name : list Z) (kind : Z) : option Z :=
  btf_find_by_name_kind b 1 type_name kind.

(** * An example object

<<
  typedef struct s { int a; int b : 5; int arr[2]; struct { unsigned long c; struct s *d; }; } s_t;
  enum e { E0 = 0, E1 = -1 };
>>
    with the access strings of relocations behind the names. *)

Definition mk_info (kind vlen : Z) (kflag : bool) : Z :=
  Z.lor (Z.lor (Z.shiftl kind 24) vlen) (if kflag then 2 ^ 31 else 0).

Definition mk_strs (l : list string) : list Z := flat_map (λ s, str_bytes s ++ [0]) l.

Definition demo_strs : list Z :=
  mk_strs [""; "int"; "long unsigned int"; "s"; "a"; "b"; "arr"; "c"; "d"; "s_t"; "0:1"; "0:2:1"; "0:3:1";
           "0"; "e"; "E0"; "E1"; "0:0"]%string.

Definition demo_types : list btf_type :=
  [mkType 1 (mk_info BTF_KIND_INT 0 false) 4 [2 ^ 24 + 32];
   mkType 5 (mk_info BTF_KIND_INT 0 false) 8 [64];
   mkType 23 (mk_info BTF_KIND_STRUCT 4 true) 32 [25; 1; 0;  27; 1; 5 * 2 ^ 24 + 35;  29; 4; 64;  0; 5; 128];
   mkType 0 (mk_info BTF_KIND_ARRAY 0 false) 0 [1; 1; 2];
   mkType 0 (mk_info BTF_KIND_STRUCT 2 false) 16 [33; 2; 0;  35; 6; 64];
   mkType 0 (mk_info BTF_KIND_PTR 0 false) 3 [];
   mkType 37 (mk_info BTF_KIND_TYPEDEF 0 false) 3 [];
   mkType 59 (mk_info BTF_KIND_ENUM 2 true) 4 [61; 0;  64; 2 ^ 32 - 1];
   mkType 0 (mk_info BTF_KIND_FUNC_PROTO 2 false) 1 [25; 6; 27; 8]].

Definition demo_btf : btf := mkBtf demo_types 1 0 demo_strs None 8.

Example demo_sizes : btf__resolve_size demo_btf 7 = Some 32 ∧ btf__resolve_size demo_btf 4 = Some 8.
Proof. split; vm_compute; reflexivity. Qed.
Example demo_align : btf__align_of 4 demo_btf 7 = Some 8 ∧ btf_ptr_sz demo_btf = Some 8.
Proof. split; vm_compute; reflexivity. Qed.
Example demo_find :
  btf__find_by_name demo_btf (str_bytes "s_t") = Some 7 ∧
  btf__find_by_name_kind demo_btf (str_bytes "s_t") BTF_KIND_STRUCT = Some (- ENOENT).
Proof. split; vm_compute; reflexivity. Qed.
