(* ===== verification/BtfRaw.v ===== *)
(** The binary form of BTF: parsing (src/libbpf/src/btf.c lines 192-449 and 847-901),
    the byte orders (560-590) and writing (1238-1310).

    A BTF file is a header, the types and the strings.  [btf_new] copies it, checks it,
    brings a file of the other byte order to the native (little-endian) one in place,
    and indexes the types in [type_offs]; [btf__raw_data] gives the file back, again in
    the byte order in force.  Memory is byte lists; [None] is an access outside them.

    While the object is not modifiable [hdr], [types_data] and [strs_data] of the code
    point into [raw_data], which nobody changes then; here they are the values of these
    regions.  [sp_hdr_tail] is what an oversized header holds behind the known fields. *)
From stdpp Require Import base list sets.
From Stdlib Require Import ZArith Lia.
From S2P Require Import Prelude Bytes Mem Errno Strset Btf.

#[local] Open Scope Z_scope.

Definition BTF_MAGIC : Z := 0xeB9F.
Definition BTF_VERSION : Z := 1.
Definition BTF_MAX_NR_TYPES : Z := 0x7fffffff.
Definition BTF_MAX_STR_OFFSET : Z := 0x7fffffff.
Definition SIZEOF_HDR : Z := 24.
Definition SIZEOF_TYPE : Z := 12.

Abbreviation bswap_16 := (bswap 2).
Abbreviation bswap_32 := (bswap 4).

Record btf_header := mkHdr {
  h_magic : Z; h_version : Z; h_flags : Z; h_hdr_len : Z;
  h_type_off : Z; h_type_len : Z; h_str_off : Z; h_str_len : Z;
}.

Definition hdr_load (data : list Z) : option btf_header :=
  magic ← load16 data 0; version ← load8 data 2; flags ← load8 data 3; hdr_len ← load32 data 4;
  type_off ← load32 data 8; type_len ← load32 data 12; str_off ← load32 data 16; str_len ← load32 data 20;
  Some (mkHdr magic version flags hdr_len type_off type_len str_off str_len).

Definition hdr_bytes (h : btf_header) : list Z :=
  le_bytes 2 (h_magic h) ++ le_bytes 1 (h_version h) ++ le_bytes 1 (h_flags h) ++ le_bytes 4 (h_hdr_len h) ++
  le_bytes 4 (h_type_off h) ++ le_bytes 4 (h_type_len h) ++ le_bytes 4 (h_str_off h) ++ le_bytes 4 (h_str_len h).

Definition btf_bswap_hdr (h : btf_header) : btf_header :=
  mkHdr (bswap_16 (h_magic h)) (h_version h) (h_flags h) (bswap_32 (h_hdr_len h)) (bswap_32 (h_type_off h))
    (bswap_32 (h_type_len h)) (bswap_32 (h_str_off h)) (bswap_32 (h_str_len h)).

(** The checks of [btf_parse_hdr] behind the magic number, on the native header. *)
Definition hdr_layout_ok (raw_size : Z) (hdr : btf_header) : Z :=
  if raw_size <? h_hdr_len hdr then - EINVAL
  else
    let meta_left := u32 (raw_size - h_hdr_len hdr) in
    if meta_left <? h_str_off hdr + h_str_len hdr then - EINVAL
    else if h_type_off hdr + h_type_len hdr >? h_str_off hdr then - EINVAL
    else if negb (h_type_off hdr mod 4 =? 0) then - EINVAL
    else 0.

(** [inl]: the data with a native header, the header, and [swapped_endian]. *)
Definition btf_parse_hdr (data : list Z) (raw_size : Z) : option ((list Z * btf_header * bool) + Z) :=
  if raw_size <? SIZEOF_HDR then Some (inr (- EINVAL))
  else
    hdr ← hdr_load data;
    if h_magic hdr =? bswap_16 BTF_MAGIC then
      if negb (bswap_32 (h_hdr_len hdr) =? SIZEOF_HDR) then Some (inr (- ENOTSUP))
      else
        let hdr := btf_bswap_hdr hdr in
        data ← store data 0 (hdr_bytes hdr);
        let err := hdr_layout_ok raw_size hdr in
        Some (if err =? 0 then inl (data, hdr, true) else inr err)
    else if negb (h_magic hdr =? BTF_MAGIC) then Some (inr (- EINVAL))
    else
      let err := hdr_layout_ok raw_size hdr in
      Some (if err =? 0 then inl (data, hdr, false) else inr err).

(** [start] is the offset of the strings in [data]. *)
Definition btf_parse_str_sec (has_base : bool) (data : list Z) (hdr : btf_header) (start : Z) : option Z :=
  if has_base && (h_str_len hdr =? 0) then Some 0
  else if (h_str_len hdr =? 0) || (h_str_len hdr - 1 >? BTF_MAX_STR_OFFSET) then Some (- EINVAL)
  else
    c ← load8 data (start + h_str_len hdr - 1);
    if negb (c =? 0) then Some (- EINVAL)
    else if has_base then Some 0
    else c ← load8 data start; Some (if negb (c =? 0) then - EINVAL else 0).

Definition btf_type_size (t : btf_type) : Z :=
  let vlen := btf_vlen t in
  let k := btf_kind t in
  if (k =? BTF_KIND_FWD) || (k =? BTF_KIND_CONST) || (k =? BTF_KIND_VOLATILE) || (k =? BTF_KIND_RESTRICT) ||
     (k =? BTF_KIND_PTR) || (k =? BTF_KIND_TYPEDEF) || (k =? BTF_KIND_FUNC) || (k =? BTF_KIND_FLOAT) ||
     (k =? BTF_KIND_TYPE_TAG) then SIZEOF_TYPE
  else if k =? BTF_KIND_INT then SIZEOF_TYPE + 4
  else if k =? BTF_KIND_ENUM then SIZEOF_TYPE + vlen * 8
  else if k =? BTF_KIND_ENUM64 then SIZEOF_TYPE + vlen * 12
  else if k =? BTF_KIND_ARRAY then SIZEOF_TYPE + 12
  else if (k =? BTF_KIND_STRUCT) || (k =? BTF_KIND_UNION) then SIZEOF_TYPE + vlen * 12
  else if k =? BTF_KIND_FUNC_PROTO then SIZEOF_TYPE + vlen * 8
  else if k =? BTF_KIND_VAR then SIZEOF_TYPE + 4
  else if k =? BTF_KIND_DATASEC then SIZEOF_TYPE + vlen * 12
  else if k =? BTF_KIND_DECL_TAG then SIZEOF_TYPE + 4
  else - EINVAL.

(** [struct btf_type] at [off]. *)
Definition type_load (data : list Z) (off : Z) : option btf_type :=
  n ← load32 data off; i ← load32 data (off + 4); s ← load32 data (off + 8); Some (mkType n i s []).

(** Swapping [k] words in place, and [n] structures of [k] words each. *)
Fixpoint bswap_words (k : nat) (data : list Z) (off : Z) : option (list Z) :=
  match k with
  | O => Some data
  | S k =>
      w ← load32 data off;
      data ← store data off (le_bytes 4 (bswap_32 w));
      bswap_words k data (off + 4)
  end.
Fixpoint bswap_structs (n k : nat) (data : list Z) (off : Z) : option (list Z) :=
  match n with
  | O => Some data
  | S n => data ← bswap_words k data off; bswap_structs n k data (off + 4 * Z.of_nat k)
  end.

Definition btf_bswap_type_base (data : list Z) (off : Z) : option (list Z) := bswap_words 3 data off.

(** The words behind the type at [off], whose own words are native. *)
Definition btf_bswap_type_rest (data : list Z) (off : Z) : option (list Z * Z) :=
  t ← type_load data off;
  let vlen := Z.to_nat (btf_vlen t) in
  let k := btf_kind t in
  let rest n w := data ← bswap_structs n w data (off + SIZEOF_TYPE); Some (data, 0) in
  if (k =? BTF_KIND_FWD) || (k =? BTF_KIND_CONST) || (k =? BTF_KIND_VOLATILE) || (k =? BTF_KIND_RESTRICT) ||
     (k =? BTF_KIND_PTR) || (k =? BTF_KIND_TYPEDEF) || (k =? BTF_KIND_FUNC) || (k =? BTF_KIND_FLOAT) ||
     (k =? BTF_KIND_TYPE_TAG) then Some (data, 0)
  else if k =? BTF_KIND_INT then rest 1%nat 1%nat
  else if k =? BTF_KIND_ENUM then rest vlen 2%nat
  else if k =? BTF_KIND_ENUM64 then rest vlen 3%nat
  else if k =? BTF_KIND_ARRAY then rest 1%nat 3%nat
  else if (k =? BTF_KIND_STRUCT) || (k =? BTF_KIND_UNION) then rest vlen 3%nat
  else if k =? BTF_KIND_FUNC_PROTO then rest vlen 2%nat
  else if k =? BTF_KIND_VAR then rest 1%nat 1%nat
  else if k =? BTF_KIND_DATASEC then rest vlen 3%nat
  else if k =? BTF_KIND_DECL_TAG then rest 1%nat 1%nat
  else Some (data, - EINVAL).

(** * The index of the types *)

(** [type_offs] (bytes), its capacity in entries and [nr_types]. *)
Record type_index := mkIndex { ti_offs : list Z; ti_cap : Z; ti_nr : Z }.

(** [None]: [NULL]; else the index with room, and the offset of the new entries. *)
Definition btf_add_type_offs_mem (realloc_ok : bool) (ti : type_index) (add_cnt : Z) : option (type_index * Z) :=
  '(offs, cap, p) ← libbpf_add_mem realloc_ok (ti_offs ti) (ti_cap ti) 4 (ti_nr ti) BTF_MAX_NR_TYPES add_cnt;
  Some (mkIndex offs cap (ti_nr ti), p).

Definition btf_add_type_idx_entry (realloc_ok : bool) (ti : type_index) (type_off : Z) : option (type_index * Z) :=
  match btf_add_type_offs_mem realloc_ok ti 1 with
  | None => Some (ti, - ENOMEM)
  | Some (ti, p) =>
      offs ← store (ti_offs ti) p (le_bytes 4 type_off);
      Some (mkIndex offs (ti_cap ti) (ti_nr ti), 0)
  end.

Definition type_off_at (ti : type_index) (i : Z) : option Z := load32 (ti_offs ti) (4 * i).

(** The loop of [btf_parse_type_sec]; offsets are in [data], [start] is [types_data].
    [realloc_ok n]: the reallocation for type number [n] succeeds. *)
Fixpoint parse_types (fuel : nat) (swapped : bool) (realloc_ok : nat → bool) (start next_type end_type : Z)
    (data : list Z) (ti : type_index) : option (list Z * type_index * Z) :=
  match fuel with
  | O => None
  | S fuel =>
      if next_type + SIZEOF_TYPE <=? end_type then
        data ← (if swapped then btf_bswap_type_base data next_type else Some data);
        t ← type_load data next_type;
        let type_size := btf_type_size t in
        if type_size <? 0 then Some (data, ti, type_size)
        else if next_type + type_size >? end_type then Some (data, ti, - EINVAL)
        else
          '(data, err) ← (if swapped then btf_bswap_type_rest data next_type else Some (data, 0));
          if negb (err =? 0) then Some (data, ti, - EINVAL)
          else
            '(ti, err) ← btf_add_type_idx_entry (realloc_ok (Z.to_nat (ti_nr ti))) ti (u32 (next_type - start));
            if negb (err =? 0) then Some (data, ti, err)
            else
              parse_types fuel swapped realloc_ok start (next_type + type_size) end_type data
                (mkIndex (ti_offs ti) (ti_cap ti) (u32 (ti_nr ti + 1)))
      else if negb (next_type =? end_type) then Some (data, ti, - EINVAL)
      else Some (data, ti, 0)
  end.

(** [fuel]: every type takes at least [sizeof(struct btf_type)] bytes. *)
Definition btf_parse_type_sec (swapped : bool) (realloc_ok : nat → bool) (data : list Z) (hdr : btf_header)
    (start : Z) : option (list Z * type_index * Z) :=
  parse_types (S (Z.to_nat (h_type_len hdr / SIZEOF_TYPE))) swapped realloc_ok start start (start + h_type_len hdr)
    data (mkIndex [] 0 0).

(** * The object *)

(** [r_data] and [r_data_swapped] are the cached files in native and in the other byte
    order ([raw_data], [raw_data_swapped]). *)
Record btf_raw := mkRaw {
  r_data : option (list Z); r_data_swapped : option (list Z); r_size : Z; r_swapped_endian : bool;
}.

(** The three regions.  The strings are bytes until the object is modifiable, then a
    string set. *)
Record btf_parts := mkParts {
  p_modifiable : bool;
  p_hdr : btf_header; p_hdr_tail : list Z;
  p_types : list Z; p_types_cap : Z;
  p_index : type_index;
  p_strs : list Z + strset; p_strs_deduped : bool;
}.

Record btf_links := mkLinks { l_start_id : Z; l_start_str_off : Z; l_ptr_sz : Z }.

(** [o_base] is the base of a split BTF. *)
Inductive btf_obj := mkObj { o_raw : btf_raw; o_parts : btf_parts; o_links : btf_links; o_base : option btf_obj }.

Definition btf_strs_data (p : btf_parts) : list Z :=
  match p_strs p with inl data => data | inr set => strset__data set end.

(** [btf__type_cnt] *)
Definition obj_type_cnt (o : btf_obj) : Z := u32 (l_start_id (o_links o) + ti_nr (p_index (o_parts o))).

(** What [base_btf] sets. *)
Definition links_on (base : option btf_obj) (ptr_sz : Z) : btf_links :=
  match base with
  | Some b => mkLinks (s32 (obj_type_cnt b)) (s32 (h_str_len (p_hdr (o_parts b)))) ptr_sz
  | None => mkLinks 1 0 ptr_sz
  end.

(** The regions a native file holds, once the checks have passed. *)
Definition regions (data : list Z) (hdr : btf_header) : option (list Z * list Z * list Z) :=
  types ← slice data (h_hdr_len hdr + h_type_off hdr) (Z.to_nat (h_type_len hdr));
  strs ← slice data (h_hdr_len hdr + h_str_off hdr) (Z.to_nat (h_str_len hdr));
  tail ← slice data SIZEOF_HDR (Z.to_nat (h_hdr_len hdr - SIZEOF_HDR));
  Some (types, strs, tail).

(** [inr err] is [ERR_PTR(err)]. *)
Definition btf_new (calloc_ok malloc_ok : bool) (realloc_ok : nat → bool) (bytes : list Z) (base : option btf_obj)
    : option (btf_obj + Z) :=
  if negb calloc_ok || negb malloc_ok then Some (inr (- ENOMEM))
  else
    let size := Z.of_nat (length bytes) in
    r ← btf_parse_hdr bytes size;
    match r with
    | inr err => Some (inr err)
    | inl (data, hdr, swapped) =>
        err ← btf_parse_str_sec (bool_decide (is_Some base)) data hdr (h_hdr_len hdr + h_str_off hdr);
        if negb (err =? 0) then Some (inr err)
        else
          '(data, ti, err) ← btf_parse_type_sec swapped realloc_ok data hdr (h_hdr_len hdr + h_type_off hdr);
          if negb (err =? 0) then Some (inr err)
          else
            '(types, strs, tail) ← regions data hdr;
            Some (inl (mkObj (mkRaw (Some data) None size swapped)
                         (mkParts false hdr tail types 0 ti (inl strs) false) (links_on base 0) base))
    end.

Definition btf_new_empty (calloc_ok data_ok : bool) (base : option btf_obj) : btf_obj + Z :=
  if negb calloc_ok || negb data_ok then inr (- ENOMEM)
  else
    let str_len := if bool_decide (is_Some base) then 0 else 1 in
    let hdr := mkHdr BTF_MAGIC BTF_VERSION 0 SIZEOF_HDR 0 0 0 str_len in
    let strs := replicate (Z.to_nat str_len) 0 in
    inl (mkObj (mkRaw (Some (hdr_bytes hdr ++ strs)) None (SIZEOF_HDR + str_len) false)
           (mkParts false hdr [] [] 0 (mkIndex [] 0 0) (inl strs) false) (links_on base 8) base).

(** * Byte order and writing *)

Definition BTF_LITTLE_ENDIAN : Z := 0.
Definition BTF_BIG_ENDIAN : Z := 1.
Definition is_host_big_endian : bool := false.

Definition btf__endianness (o : btf_obj) : Z :=
  if is_host_big_endian then (if r_swapped_endian (o_raw o) then BTF_LITTLE_ENDIAN else BTF_BIG_ENDIAN)
  else if r_swapped_endian (o_raw o) then BTF_BIG_ENDIAN else BTF_LITTLE_ENDIAN.

Definition btf__set_endianness (o : btf_obj) (endian : Z) : btf_obj * Z :=
  if negb (endian =? BTF_LITTLE_ENDIAN) && negb (endian =? BTF_BIG_ENDIAN) then (o, - EINVAL)
  else
    let swapped := negb (Bool.eqb is_host_big_endian (endian =? BTF_BIG_ENDIAN)) in
    let r := o_raw o in
    (mkObj (mkRaw (r_data r) (if swapped then r_data_swapped r else None) (r_size r) swapped) (o_parts o) (o_links o) (o_base o), 0).

(** The loop over the types: first the words behind a type, then its own. *)
Fixpoint swap_types (n : nat) (i : Z) (ti : type_index) (p : Z) (data : list Z) : option (option (list Z)) :=
  match n with
  | O => Some (Some data)
  | S n =>
      off ← type_off_at ti i;
      '(data, err) ← btf_bswap_type_rest data (p + off);
      if negb (err =? 0) then Some None
      else data ← btf_bswap_type_base data (p + off); swap_types n (i + 1) ti p data
  end.

(** [Some None] is [NULL]. *)
Definition btf_get_raw_data (calloc_ok : bool) (o : btf_obj) (swap_endian : bool) : option (option (list Z * Z)) :=
  let hdr := p_hdr (o_parts o) in
  match (if swap_endian then r_data_swapped (o_raw o) else r_data (o_raw o)) with
  | Some data => Some (Some (data, r_size (o_raw o)))
  | None =>
      let data_sz := u32 (h_hdr_len hdr + h_type_len hdr + h_str_len hdr) in
      if negb calloc_ok then Some None
      else
        let data := replicate (Z.to_nat data_sz) 0 in
        data ← store data 0 (take (Z.to_nat (h_hdr_len hdr)) (hdr_bytes hdr ++ p_hdr_tail (o_parts o)));
        data ← (if swap_endian then h ← hdr_load data; store data 0 (hdr_bytes (btf_bswap_hdr h)) else Some data);
        let p := h_hdr_len hdr in
        types ← slice (p_types (o_parts o)) 0 (Z.to_nat (h_type_len hdr));
        data ← store data p types;
        data ← (if swap_endian then swap_types (Z.to_nat (ti_nr (p_index (o_parts o)))) 0 (p_index (o_parts o)) p data
                else Some (Some data));
        match data with
        | None => Some None
        | Some data =>
            let p := p + h_type_len hdr in
            strs ← slice (btf_strs_data (o_parts o)) 0 (Z.to_nat (h_str_len hdr));
            data ← store data p strs;
            Some (Some (data, data_sz))
        end
  end.

(** The object with the file cached, and the file; [None] inside is [NULL]. *)
Definition btf__raw_data (calloc_ok : bool) (o : btf_obj) : option (btf_obj * option (list Z * Z)) :=
  let r := o_raw o in
  res ← btf_get_raw_data calloc_ok o (r_swapped_endian r);
  match res with
  | None => Some (o, None)
  | Some (data, data_sz) =>
      let r := if r_swapped_endian r then mkRaw (r_data r) (Some data) data_sz true
               else mkRaw (Some data) (r_data_swapped r) data_sz false in
      Some (mkObj r (o_parts o) (o_links o) (o_base o), Some (data, data_sz))
  end.

(** * The object as the types and strings it holds *)

Fixpoint load_words (k : nat) (data : list Z) (off : Z) : option (list Z) :=
  match k with
  | O => Some []
  | S k => w ← load32 data off; ws ← load_words k data (off + 4); Some (w :: ws)
  end.

Definition type_at (types : list Z) (off : Z) : option btf_type :=
  t ← type_load types off;
  rest ← load_words (Z.to_nat ((btf_type_size t - SIZEOF_TYPE) / 4)) types (off + SIZEOF_TYPE);
  Some (mkType (bt_name_off t) (bt_info t) (bt_size t) rest).

Fixpoint types_at (n : nat) (i : Z) (ti : type_index) (types : list Z) : option (list btf_type) :=
  match n with
  | O => Some []
  | S n => off ← type_off_at ti i; t ← type_at types off; ts ← types_at n (i + 1) ti types; Some (t :: ts)
  end.

Definition view_of (p : btf_parts) (l : btf_links) (base : option btf) : option btf :=
  ts ← types_at (Z.to_nat (ti_nr (p_index p))) 0 (p_index p) (p_types p);
  strs ← slice (btf_strs_data p) 0 (Z.to_nat (h_str_len (p_hdr p)));
  Some (mkBtf ts (l_start_id l) (l_start_str_off l) strs base (l_ptr_sz l)).

Fixpoint btf_view (o : btf_obj) : option btf :=
  match o_base o with
  | None => view_of (o_parts o) (o_links o) None
  | Some b => v ← btf_view b; view_of (o_parts o) (o_links o) (Some v)
  end.

(** * The files that hold given types and strings *)

Definition type_words (t : btf_type) : list Z := bt_name_off t :: bt_info t :: bt_size t :: bt_rest t.
Definition word_bytes (swapped : bool) (w : Z) : list Z := if swapped then rev (le_bytes 4 w) else le_bytes 4 w.
Definition words_bytes (swapped : bool) (ws : list Z) : list Z := flat_map (word_bytes swapped) ws.
Definition types_bytes (swapped : bool) (ts : list btf_type) : list Z :=
  flat_map (λ t, words_bytes swapped (type_words t)) ts.

Definition file_hdr (ts : list btf_type) (strs : list Z) : btf_header :=
  let type_len := Z.of_nat (length (types_bytes false ts)) in
  mkHdr BTF_MAGIC BTF_VERSION 0 SIZEOF_HDR 0 type_len type_len (Z.of_nat (length strs)).
Definition file_bytes (swapped : bool) (ts : list btf_type) (strs : list Z) : list Z :=
  hdr_bytes (if swapped then btf_bswap_hdr (file_hdr ts strs) else file_hdr ts strs) ++
  types_bytes swapped ts ++ strs.

Example demo_file_parsed : ∀ swapped : bool,
  (o ← btf_new true true (λ _, true) (file_bytes swapped demo_types demo_strs) None;
   match o with inl o => btf_view o | inr _ => None end) = Some (mkBtf demo_types 1 0 demo_strs None 0).
Proof. intros []; vm_compute; reflexivity. Qed.
Example demo_file_written : ∀ swapped : bool,
  (o ← btf_new true true (λ _, true) (file_bytes swapped demo_types demo_strs) None;
   match o with inl o => snd <$> btf__raw_data true o | inr _ => None end) =
  Some (Some (file_bytes swapped demo_types demo_strs, Z.of_nat (length (file_bytes swapped demo_types demo_strs)))).
Proof. intros []; vm_compute; reflexivity. Qed.
Example demo_file_converted : ∀ swapped : bool,
  (o ← btf_new true true (λ _, true) (file_bytes swapped demo_types demo_strs) None;
   match o with
   | inl o => snd <$> btf__raw_data true (btf__set_endianness o (if swapped then BTF_LITTLE_ENDIAN else BTF_BIG_ENDIAN)).1
   | inr _ => None end) =
  Some (Some (file_bytes (negb swapped) demo_types demo_strs, Z.of_nat (length (file_bytes swapped demo_types demo_strs)))).
Proof. intros []; vm_compute; reflexivity. Qed.
