(* ===== verification/BtfFile.v ===== *)
(** Reading and writing the binary form of BTF: a file is accepted exactly when it is
    the encoding of well-formed types, without an access outside it, and parsing,
    converting and writing give back the types and the bytes. *)
From stdpp Require Import base list sets.
From Stdlib Require Import ZArith Lia.
From S2P Require Import Prelude Bytes Mem Errno Strset Btf BtfRaw.

#[local] Open Scope Z_scope.

(** * Words *)

Definition word_ok (w : Z) : Prop := in_u 32 w.
Definition words_ok (ws : list Z) : Prop := Forall word_ok ws.

Lemma length_word_bytes sw w : length (word_bytes sw w) = 4%nat.
Proof. by destruct sw; cbn [word_bytes]; rewrite ?length_rev, length_le_bytes. Qed.

Lemma length_words_bytes sw ws : length (words_bytes sw ws) = (4 * length ws)%nat.
Proof.
  induction ws as [|w ws IH]; cbn [words_bytes flat_map]; [done|].
  rewrite length_app, length_word_bytes. fold (words_bytes sw ws). rewrite IH. cbn [length]. lia.
Qed.

Lemma words_bytes_app sw a b : words_bytes sw (a ++ b) = words_bytes sw a ++ words_bytes sw b.
Proof. apply flat_map_app. Qed.

Lemma word_bytes_ok sw w : bytes_ok (word_bytes sw w).
Proof. destruct sw; cbn [word_bytes]; [apply bytes_ok_rev|]; apply le_bytes_ok. Qed.

Lemma words_bytes_ok sw ws : bytes_ok (words_bytes sw ws).
Proof.
  induction ws as [|w ws IH]; cbn [words_bytes flat_map]; [constructor|]. apply bytes_ok_app. split; [apply word_bytes_ok|apply IH].
Qed.

Lemma word_bytes_swap sw w : word_ok w → le_bytes 4 (bswap_32 w) = word_bytes true w ∧
  le_val (word_bytes sw w) = if sw then bswap_32 w else w.
Proof.
  intros Hw. split; [apply bswap_bytes|]. destruct sw; cbn [word_bytes]; [done|]. by apply (le_val_bytes_id 4).
Qed.

Lemma load_word pre w post off : off = Z.of_nat (length pre) → word_ok w →
  load32 (pre ++ word_bytes false w ++ post) off = Some w.
Proof.
  intros Ho Hw. rewrite (load_app_mid pre (word_bytes false w) post) by (rewrite ?length_word_bytes; done).
  by rewrite (proj2 (word_bytes_swap false w Hw)).
Qed.

(** One word, in place, either way. *)
Lemma swap_word sw pre w post off : off = Z.of_nat (length pre) → word_ok w →
  bswap_words 1 (pre ++ word_bytes sw w ++ post) off = Some (pre ++ word_bytes (negb sw) w ++ post).
Proof.
  intros -> Hw. cbn [bswap_words].
  rewrite (load_app_mid pre (word_bytes sw w) post) by (rewrite ?length_word_bytes; done).
  cbn [mbind option_bind]. rewrite (proj2 (word_bytes_swap sw w Hw)).
  rewrite (store_app_mid pre) by (rewrite ?length_word_bytes, ?length_le_bytes; done).
  cbn [mbind option_bind]. do 3 f_equal. destruct sw; cbn [negb].
  - by rewrite (bswap_bswap 4).
  - apply bswap_bytes.
Qed.

Lemma bswap_words_S k data off :
  bswap_words (S k) data off = data' ← bswap_words 1 data off; bswap_words k data' (off + 4).
Proof.
  cbn [bswap_words]. destruct (load32 data off) as [w|]; [cbn [mbind option_bind]|done].
  by destruct (store data off (le_bytes 4 (bswap_32 w))).
Qed.

Lemma swap_words sw pre ws post off : off = Z.of_nat (length pre) → words_ok ws →
  bswap_words (length ws) (pre ++ words_bytes sw ws ++ post) off = Some (pre ++ words_bytes (negb sw) ws ++ post).
Proof.
  intros Ho Hws. revert pre off Ho. induction Hws as [|w ws Hw _ IH]; intros pre off Ho; [done|].
  cbn [length]. rewrite bswap_words_S. cbn [words_bytes flat_map]. rewrite <- !app_assoc.
  rewrite swap_word by done. cbn [mbind option_bind].
  rewrite (app_assoc pre). rewrite IH by (rewrite length_app, length_word_bytes; lia).
  by rewrite <- app_assoc.
Qed.

Lemma bswap_words_add j k data off :
  bswap_words (j + k) data off = data' ← bswap_words j data off; bswap_words k data' (off + 4 * Z.of_nat j).
Proof.
  revert data off. induction j as [|j IH]; intros data off.
  - cbn [bswap_words mbind option_bind Nat.add]. f_equal. lia.
  - change (S j + k)%nat with (S (j + k)). rewrite bswap_words_S, (bswap_words_S j).
    destruct (bswap_words 1 data off) as [data'|]; [cbn [mbind option_bind]|done].
    rewrite IH. destruct (bswap_words j data' (off + 4)); [cbn [mbind option_bind]|done]. f_equal. lia.
Qed.

Lemma bswap_structs_words n k data off : bswap_structs n k data off = bswap_words (n * k) data off.
Proof.
  revert data off. induction n as [|n IH]; intros data off; [done|].
  cbn [bswap_structs Nat.mul]. rewrite bswap_words_add. destruct (bswap_words k data off); [cbn [mbind option_bind]|done].
  apply IH.
Qed.

Lemma load_words_bytes pre ws post off : off = Z.of_nat (length pre) → words_ok ws →
  load_words (length ws) (pre ++ words_bytes false ws ++ post) off = Some ws.
Proof.
  intros Ho Hws. revert pre off Ho. induction Hws as [|w ws Hw _ IH]; intros pre off Ho; [done|].
  cbn [length load_words words_bytes flat_map]. rewrite <- app_assoc.
  rewrite load_word by done. cbn [mbind option_bind]. rewrite (app_assoc pre).
  rewrite IH by (rewrite length_app, length_word_bytes; lia). done.
Qed.

(** Any bytes are the words of either byte order. *)
Lemma words_of_bytes sw bs k : bytes_ok bs → length bs = (4 * k)%nat →
  ∃ ws, bs = words_bytes sw ws ∧ length ws = k ∧ words_ok ws.
Proof.
  revert bs. induction k as [|k IH]; intros bs Hb Hl.
  - destruct bs; [|done]. exists []. by split_and!; [..|constructor].
  - destruct (IH (drop 4 bs)) as (ws & E & Hk & Hws); [by apply Forall_drop|rewrite length_drop; lia|].
    assert (bytes_ok (take 4 bs)) as Hb4 by by apply Forall_take.
    assert (length (take 4 bs) = 4%nat) as Hl4 by (rewrite length_take; lia).
    exists ((if sw then le_val (rev (take 4 bs)) else le_val (take 4 bs)) :: ws). split_and!; [|cbn; lia|].
    + rewrite <- (take_drop 4 bs) at 1. rewrite E. cbn [words_bytes flat_map]. f_equal.
      destruct sw; cbn [word_bytes].
      * rewrite <- (length_rev (take 4 bs)) in Hl4. rewrite <- Hl4 at 2.
        rewrite le_bytes_le_val by by apply bytes_ok_rev. by rewrite rev_involutive.
      * rewrite <- Hl4 at 2. by rewrite le_bytes_le_val.
    + constructor; [|done]. unfold word_ok. destruct sw.
      * rewrite <- (length_rev (take 4 bs)) in Hl4. pose proof (le_val_range (rev (take 4 bs)) (bytes_ok_rev _ Hb4)) as H.
        by rewrite Hl4 in H.
      * pose proof (le_val_range (take 4 bs) Hb4) as H. by rewrite Hl4 in H.
Qed.

(** * One type *)

(** The words fit, the kind is known and the words behind the type are those of the
    kind. *)
Definition type_wf (t : btf_type) : Prop :=
  words_ok (type_words t) ∧ btf_type_size t = SIZEOF_TYPE + 4 * Z.of_nat (length (bt_rest t)).

Definition type_head (t : btf_type) : list Z := [bt_name_off t; bt_info t; bt_size t].

Lemma type_words_head t : type_words t = type_head t ++ bt_rest t.
Proof. done. Qed.

Definition bare (t : btf_type) : btf_type := mkType (bt_name_off t) (bt_info t) (bt_size t) [].

Lemma type_size_bare t : btf_type_size (bare t) = btf_type_size t.
Proof. done. Qed.

Lemma type_load_head pre t post off : off = Z.of_nat (length pre) → words_ok (type_head t) →
  type_load (pre ++ words_bytes false (type_head t) ++ post) off = Some (bare t).
Proof.
  intros -> Hw. unfold type_head in *. inversion_clear Hw as [|? ? H1 Hw2]. inversion_clear Hw2 as [|? ? H2 Hw3].
  inversion_clear Hw3 as [|? ? H3 _]. unfold type_load. cbn [words_bytes flat_map]. rewrite app_nil_r, <- !app_assoc.
  rewrite (load_word pre _ _ (Z.of_nat (length pre))) by done. cbn [mbind option_bind]. rewrite (app_assoc pre).
  rewrite (load_word _ _ _ (Z.of_nat (length pre) + 4)) by (rewrite ?length_app, ?length_word_bytes; first [done|lia]).
  cbn [mbind option_bind]. rewrite (app_assoc _ (word_bytes false (bt_info t))).
  rewrite load_word by (rewrite ?length_app, ?length_word_bytes; first [done|lia]). done.
Qed.

Lemma vlen_range t : 0 ≤ btf_vlen t < 65536.
Proof.
  unfold btf_vlen. change 65535 with (Z.ones 16). rewrite Z.land_ones by lia. apply Z.mod_pos_bound. lia.
Qed.

(** The number of words behind a type of a known kind, as [btf_bswap_type_rest] loops. *)
Lemma bswap_rest_eq data off t : type_load data off = Some (bare t) → SIZEOF_TYPE ≤ btf_type_size t →
  btf_bswap_type_rest data off =
    data' ← bswap_words (Z.to_nat ((btf_type_size t - SIZEOF_TYPE) / 4)) data (off + SIZEOF_TYPE); Some (data', 0).
Proof.
  intros Hl Hs. unfold btf_bswap_type_rest. rewrite Hl. cbn [mbind option_bind].
  revert Hs. unfold btf_type_size. rewrite !bswap_structs_words. unfold SIZEOF_TYPE.
  change (btf_kind (bare t)) with (btf_kind t). change (btf_vlen (bare t)) with (btf_vlen t).
  pose proof (vlen_range t).
  repeat (match goal with |- context [if ?c then _ else _] => destruct c end;
    [intros _; try done;
     match goal with |- (_ ← bswap_words ?a _ _; _) = (_ ← bswap_words ?b _ _; _) =>
       replace b with a; [done|zify; Z.to_euclidean_division_equations; lia] end|]).
  unfold EINVAL. lia.
Qed.

Lemma size_nonneg_ge t : 0 ≤ btf_type_size t → SIZEOF_TYPE ≤ btf_type_size t ∧ (btf_type_size t - SIZEOF_TYPE) mod 4 = 0 ∧
  btf_type_size t < 2 ^ 20.
Proof.
  unfold btf_type_size, SIZEOF_TYPE. pose proof (vlen_range t).
  repeat (match goal with |- context [if ?c then _ else _] => destruct c end;
    [intros _; split_and!; Z.to_euclidean_division_equations; lia|]). unfold EINVAL. lia.
Qed.

Lemma rest_words t : type_wf t → Z.to_nat ((btf_type_size t - SIZEOF_TYPE) / 4) = length (bt_rest t).
Proof.
  intros [_ ->]. replace (SIZEOF_TYPE + 4 * Z.of_nat (length (bt_rest t)) - SIZEOF_TYPE)
    with (Z.of_nat (length (bt_rest t)) * 4) by lia. rewrite Z.div_mul by done. lia.
Qed.

Lemma wf_head t : type_wf t → words_ok (type_head t) ∧ words_ok (bt_rest t).
Proof. intros [Hw _]. rewrite type_words_head in Hw. by apply Forall_app in Hw. Qed.

Lemma swap_base sw pre t post off : off = Z.of_nat (length pre) → words_ok (type_head t) →
  btf_bswap_type_base (pre ++ words_bytes sw (type_head t) ++ post) off =
  Some (pre ++ words_bytes (negb sw) (type_head t) ++ post).
Proof. intros Ho Hw. exact (swap_words sw pre (type_head t) post off Ho Hw). Qed.

Lemma swap_rest sw pre t post off : off = Z.of_nat (length pre) → type_wf t →
  btf_bswap_type_rest (pre ++ words_bytes false (type_head t) ++ words_bytes sw (bt_rest t) ++ post) off =
  Some (pre ++ words_bytes false (type_head t) ++ words_bytes (negb sw) (bt_rest t) ++ post, 0).
Proof.
  intros Ho Hwf. destruct (wf_head t Hwf) as [Hh Hr].
  rewrite (bswap_rest_eq _ _ t); [|by apply type_load_head|destruct Hwf as [_ ->]; lia].
  rewrite rest_words by done. rewrite (app_assoc pre).
  rewrite (swap_words sw (pre ++ words_bytes false (type_head t))).
  - cbn [mbind option_bind]. by rewrite <- app_assoc.
  - rewrite length_app, length_words_bytes. cbn [type_head length]. unfold SIZEOF_TYPE. lia.
  - done.
Qed.

Lemma length_type_bytes sw t : type_wf t →
  Z.of_nat (length (words_bytes sw (type_words t))) = btf_type_size t.
Proof.
  intros [_ ->]. rewrite length_words_bytes, type_words_head, length_app. cbn [type_head length].
  unfold SIZEOF_TYPE. lia.
Qed.

(** * The index *)

Definition idx_rel (ti : type_index) (offs : list Z) : Prop :=
  ti_nr ti = Z.of_nat (length offs) ∧ (∃ junk, ti_offs ti = words_bytes false offs ++ junk) ∧
  Z.of_nat (length (ti_offs ti)) = ti_cap ti * 4 ∧ 0 ≤ ti_cap ti ≤ BTF_MAX_NR_TYPES ∧ words_ok offs.

Lemma idx_rel_nil : idx_rel (mkIndex [] 0 0) [].
Proof. split_and!; try done; [by exists []|constructor]. Qed.

Lemma idx_rel_at ti offs i off : idx_rel ti offs → offs !! i = Some off → type_off_at ti (Z.of_nat i) = Some off.
Proof.
  intros (_ & [junk E] & _ & _ & Hok) Hi. unfold type_off_at. rewrite E.
  pose proof (lookup_lt_Some _ _ _ Hi). rewrite <- (take_drop_middle offs i off Hi).
  assert (word_ok off) by by eapply Forall_lookup_1.
  rewrite words_bytes_app. cbn [words_bytes flat_map]. rewrite <- !app_assoc. apply load_word; [|done].
  rewrite length_words_bytes, length_take_le by lia. lia.
Qed.

Definition idx_next (ti : type_index) : type_index := mkIndex (ti_offs ti) (ti_cap ti) (u32 (ti_nr ti + 1)).

(** An entry is added, or the reallocation has failed. *)
Lemma add_idx_entry ok ti offs off : idx_rel ti offs → Z.of_nat (length offs) < BTF_MAX_NR_TYPES → word_ok off →
  ∃ ti' err, btf_add_type_idx_entry ok ti off = Some (ti', err) ∧
    (err = 0 ∨ err = - ENOMEM ∧ ok = false) ∧ (err = 0 → idx_rel (idx_next ti') (offs ++ [off])).
Proof.
  intros (Hnr & [junk E] & Hlen & Hcap & Hoks) Hmax Hoff. unfold btf_add_type_idx_entry, btf_add_type_offs_mem.
  assert (Z.of_nat (length offs) ≤ ti_cap ti) as Hle.
  { apply (f_equal length) in E. rewrite length_app, length_words_bytes in E. lia. }
  unfold BTF_MAX_NR_TYPES in *.
  pose proof (add_mem_spec (ti_offs ti) (ti_cap ti) 4 (ti_nr ti) 0x7fffffff 1) as H.
  rewrite Hnr in *. specialize (H ltac:(lia) ltac:(lia) ltac:(lia) ltac:(lia) ltac:(lia)
    ltac:(Z.to_euclidean_division_equations; lia) ltac:(done) ltac:(done)).
  destruct (Z.leb_spec (Z.of_nat (length offs) + 1) 0x7fffffff); [|lia].
  destruct H as (data' & cap' & Hadd & Hl' & Hc' & Hroom & Hd').
  assert (∃ ti' err, Some (mkIndex data' cap' (Z.of_nat (length offs)),
     Z.of_nat (length offs) * 4) ≫= (λ '(ti0, p), offs0 ← store (ti_offs ti0) p (le_bytes 4 off); Some (mkIndex offs0 (ti_cap ti0) (ti_nr ti0), 0)) =
     Some (ti', err) ∧ err = 0 ∧ idx_rel (idx_next ti') (offs ++ [off])) as Hgood.
  { cbn [mbind option_bind ti_offs ti_cap ti_nr]. rewrite Hd', E, <- app_assoc.
    set (rest := junk ++ replicate _ 0).
    assert (4 ≤ length rest)%nat as Hrest.
    { apply (f_equal length) in Hd'. rewrite E, <- app_assoc in Hd'. fold rest in Hd'.
      rewrite length_app, length_words_bytes in Hd'. lia. }
    rewrite <- (take_drop 4 rest).
    rewrite (store_app_mid (words_bytes false offs)) by (rewrite ?length_words_bytes, ?length_le_bytes, ?length_take; lia).
    cbn [mbind option_bind]. eexists _, _. split; [done|]. split; [done|]. unfold idx_next. cbn [ti_offs ti_cap ti_nr].
    split_and!; cbn [ti_offs ti_cap ti_nr].
    - rewrite wrap_small by (unfold in_u; lia). rewrite length_app. cbn. lia.
    - exists (drop 4 rest). rewrite words_bytes_app. cbn [words_bytes flat_map word_bytes]. by rewrite app_nil_r, <- app_assoc.
    - rewrite <- Hl', Hd', E, <- app_assoc. fold rest. rewrite !length_app, length_words_bytes, length_drop.
      change (length (le_bytes 4 off)) with 4%nat. lia.
    - unfold BTF_MAX_NR_TYPES; lia.
    - unfold BTF_MAX_NR_TYPES; lia.
    - by apply Forall_app; split; [|constructor]. }
  destruct (add_mem_oracle ok (ti_offs ti) (ti_cap ti) 4 (Z.of_nat (length offs)) 0x7fffffff 1) as [Ho|Ho].
  - rewrite Ho. cbn [mbind option_bind]. exists ti, (- ENOMEM). split; [done|]. split; [right; split; [done|]|done].
    destruct ok; [congruence|done].
  - rewrite Ho, Hadd. destruct Hgood as (ti' & err & ? & -> & ?). exists ti', 0. split; [done|]. split; [by left|done].
Qed.

(** * The loop over the types *)

Fixpoint offsets (off : Z) (ts : list btf_type) : list Z :=
  match ts with [] => [] | t :: ts => off :: offsets (off + btf_type_size t) ts end.

Lemma length_offsets off ts : length (offsets off ts) = length ts.
Proof. revert off. induction ts as [|t ts IH]; intros off; cbn; [done|by rewrite IH]. Qed.

(** The part of a round that brings the type at [next] to the native order. *)
Lemma round_native (sw : bool) pre t rest : type_wf t →
  (data ← (if sw then btf_bswap_type_base (pre ++ words_bytes sw (type_words t) ++ rest) (Z.of_nat (length pre))
           else Some (pre ++ words_bytes sw (type_words t) ++ rest) : option (list Z));
   t0 ← type_load data (Z.of_nat (length pre));
   '(data, err) ← (if sw then btf_bswap_type_rest data (Z.of_nat (length pre)) else Some (data, 0) : option (list Z * Z));
   Some (data, t0, err)) = Some (pre ++ words_bytes false (type_words t) ++ rest, bare t, 0).
Proof.
  intros Hwf. destruct (wf_head t Hwf) as [Hh _]. rewrite type_words_head, !words_bytes_app, <- !app_assoc.
  destruct sw.
  - rewrite swap_base by done. cbn [mbind option_bind negb]. rewrite type_load_head by done.
    cbn [mbind option_bind]. by rewrite swap_rest.
  - cbn [mbind option_bind]. by rewrite type_load_head.
Qed.

Lemma parse_step fuel sw ok start pre t rest end_ ti : type_wf t →
  Z.of_nat (length pre) + btf_type_size t ≤ end_ →
  parse_types (S fuel) sw ok start (Z.of_nat (length pre)) end_ (pre ++ words_bytes sw (type_words t) ++ rest) ti =
    '(ti, err) ← btf_add_type_idx_entry (ok (Z.to_nat (ti_nr ti))) ti (u32 (Z.of_nat (length pre) - start));
    let data := pre ++ words_bytes false (type_words t) ++ rest in
    if negb (err =? 0) then Some (data, ti, err)
    else parse_types fuel sw ok start (Z.of_nat (length pre) + btf_type_size t) end_ data (idx_next ti).
Proof.
  intros Hwf Hend. pose proof (round_native sw pre t rest Hwf) as Hr.
  assert (0 ≤ btf_type_size t ∧ SIZEOF_TYPE ≤ btf_type_size t) as [Hs0 Hs].
  { destruct Hwf as [_ ->]. unfold SIZEOF_TYPE. lia. }
  cbn [parse_types]. destruct (Z.leb_spec (Z.of_nat (length pre) + SIZEOF_TYPE) end_); [|lia].
  destruct (if sw then _ else _) as [data|]; [cbn [mbind option_bind] in *|done].
  destruct (type_load data _) as [t0|]; [cbn [mbind option_bind] in *|done].
  destruct (if sw then _ else _) as [[data' err]|]; [cbn [mbind option_bind] in *|done]. simplify_eq.
  change (btf_type_size (bare t)) with (btf_type_size t).
  destruct (Z.ltb_spec (btf_type_size t) 0); [lia|]. rewrite Z.gtb_ltb.
  destruct (Z.ltb_spec end_ (Z.of_nat (length pre) + btf_type_size t)); [lia|]. cbn [Z.eqb negb].
  destruct (btf_add_type_idx_entry _ _ _) as [[ti' err]|]; [cbn [mbind option_bind]|done].
  by destruct (negb (err =? 0)).
Qed.

(** What 12 bytes or more begin with: a whole type, or the head of one that is unknown or
    too long. *)
Lemma type_or_bad sw mid : bytes_ok mid → SIZEOF_TYPE ≤ Z.of_nat (length mid) →
  (∃ t rest, type_wf t ∧ mid = words_bytes sw (type_words t) ++ rest) ∨
  (∃ h rest, words_ok (type_head h) ∧ mid = words_bytes sw (type_head h) ++ rest ∧
     (btf_type_size h < 0 ∨ Z.of_nat (length mid) < btf_type_size h)).
Proof.
  unfold SIZEOF_TYPE. intros Hb Hl.
  destruct (words_of_bytes sw (take 12 mid) 3) as (ws & E & Hlen & Hws); [by apply Forall_take|rewrite length_take; lia|].
  destruct ws as [|n [|i [|s [|]]]]; try done. pose (h := mkType n i s []).
  assert (mid = words_bytes sw (type_head h) ++ drop 12 mid) as Em.
  { unfold type_head, h. cbn [bt_name_off bt_info bt_size]. rewrite <- E. by rewrite take_drop. }
  destruct (decide (btf_type_size h < 0 ∨ Z.of_nat (length mid) < btf_type_size h)) as [Hbad|Hgood].
  { right. exists h, (drop 12 mid). done. }
  left. destruct (size_nonneg_ge h ltac:(lia)) as (Hge & Hmod & _). unfold SIZEOF_TYPE in *.
  set (k := Z.to_nat ((btf_type_size h - 12) / 4)).
  assert (btf_type_size h = 12 + 4 * Z.of_nat k) as Hk.
  { unfold k. Z.to_euclidean_division_equations. lia. }
  destruct (words_of_bytes sw (take (4 * k) (drop 12 mid)) k) as (rest & E' & Hlk & Hrest);
    [by apply Forall_take, Forall_drop|rewrite length_take, length_drop; lia|].
  pose (t := mkType n i s rest). assert (type_wf t) as Hwf.
  { split; [exact (proj2 (Forall_app _ [n; i; s] rest) (conj Hws Hrest))|].
    change (btf_type_size t) with (btf_type_size h). unfold t, SIZEOF_TYPE. cbn [bt_rest]. lia. }
  exists t, (drop (4 * k) (drop 12 mid)). split; [done|].
  rewrite type_words_head, words_bytes_app, <- app_assoc. change (bt_rest t) with rest.
  rewrite <- E', take_drop. exact Em.
Qed.

Lemma parse_bad fuel sw ok start pre h rest end_ ti : words_ok (type_head h) →
  Z.of_nat (length pre) + SIZEOF_TYPE ≤ end_ →
  btf_type_size h < 0 ∨ end_ - Z.of_nat (length pre) < btf_type_size h →
  ∃ data err, parse_types (S fuel) sw ok start (Z.of_nat (length pre)) end_
    (pre ++ words_bytes sw (type_head h) ++ rest) ti = Some (data, ti, err) ∧ err ≠ 0.
Proof.
  intros Hh Hend Hbad. cbn [parse_types]. destruct (Z.leb_spec (Z.of_nat (length pre) + SIZEOF_TYPE) end_); [|lia].
  assert ((if sw then btf_bswap_type_base (pre ++ words_bytes sw (type_head h) ++ rest) (Z.of_nat (length pre))
           else Some (pre ++ words_bytes sw (type_head h) ++ rest)) =
          Some (pre ++ words_bytes false (type_head h) ++ rest)) as ->.
  { destruct sw; [by apply (swap_base true)|done]. }
  cbn [mbind option_bind]. rewrite type_load_head by done. cbn [mbind option_bind].
  change (btf_type_size (bare h)) with (btf_type_size h).
  destruct (Z.ltb_spec (btf_type_size h) 0); [eexists _, _; split; [done|lia]|]. rewrite Z.gtb_ltb.
  destruct (Z.ltb_spec end_ (Z.of_nat (length pre) + btf_type_size h)); [by eexists _, _|lia].
Qed.

(** The outcome of the loop on the bytes [mid] of the type section. *)
Record parsed (sw : bool) (ok : nat → bool) (start : Z) (pre mid post : list Z) (offs : list Z)
    (data : list Z) (ti : type_index) (err : Z) : Prop := {
  pd_ok : err = 0 → ∃ ts, Forall type_wf ts ∧ mid = types_bytes sw ts ∧
    data = pre ++ types_bytes false ts ++ post ∧ idx_rel ti (offs ++ offsets (Z.of_nat (length pre) - start) ts);
  pd_err : (∀ n, ok n = true) → err ≠ 0 → ¬ ∃ ts, Forall type_wf ts ∧ mid = types_bytes sw ts;
}.

Lemma types_bytes_cons sw t ts : types_bytes sw (t :: ts) = words_bytes sw (type_words t) ++ types_bytes sw ts.
Proof. done. Qed.

Lemma word_bytes_inj sw w w' : word_ok w → word_ok w' → word_bytes sw w = word_bytes sw w' → w = w'.
Proof.
  intros Hw Hw' E. rewrite <- (le_val_bytes_id 4 w), <- (le_val_bytes_id 4 w') by done.
  destruct sw; cbn [word_bytes] in E; [apply (f_equal (@rev Z)) in E; rewrite !rev_involutive in E|]; by rewrite E.
Qed.

(** The words of two types at the head of the same bytes. *)
Lemma words_bytes_prefix sw ws ws' r r' : words_ok ws → words_ok ws' → length ws = length ws' →
  words_bytes sw ws ++ r = words_bytes sw ws' ++ r' → ws = ws' ∧ r = r'.
Proof.
  intros Hws. revert ws'. induction Hws as [|w ws Hw _ IH]; intros [|w' ws'] Hws' Hl E; try done.
  inversion_clear Hws' as [|? ? Hw' Hws2]. cbn [words_bytes flat_map] in E. rewrite <- !app_assoc in E.
  apply app_inj_1 in E as [E1 E2]; [|by rewrite !length_word_bytes].
  apply word_bytes_inj in E1; [|done..]. destruct (IH ws') as [-> ->]; [done|by inversion Hl|done|by subst].
Qed.

Lemma head_size t t' : type_head t = type_head t' → btf_type_size t = btf_type_size t'.
Proof. unfold type_head. intros [= _ Hi _]. unfold btf_type_size, btf_kind, btf_vlen. by rewrite Hi. Qed.

Lemma type_bytes_prefix sw t t' r r' : type_wf t → type_wf t' →
  words_bytes sw (type_words t) ++ r = words_bytes sw (type_words t') ++ r' → t = t' ∧ r = r'.
Proof.
  intros Hwf Hwf' E. destruct (wf_head t Hwf) as [Hh Hr], (wf_head t' Hwf') as [Hh' Hr'].
  rewrite !type_words_head, !words_bytes_app, <- !app_assoc in E.
  apply words_bytes_prefix in E as [Eh E]; [|done..].
  assert (btf_type_size t = btf_type_size t') as Es.
  { by apply head_size. }
  destruct Hwf as [_ Hs], Hwf' as [_ Hs']. apply words_bytes_prefix in E as [E ->]; [|done|done|lia].
  split; [|done]. destruct t, t'; unfold type_head in Eh; cbn in *. by injection Eh as -> -> ->; subst.
Qed.

Lemma parse_types_spec fuel sw ok start pre mid post ti offs :
  bytes_ok mid → start ≤ Z.of_nat (length pre) → idx_rel ti offs →
  12 * Z.of_nat (length offs) ≤ Z.of_nat (length pre) - start →
  Z.of_nat (length pre + length mid) - start < 2 ^ 32 → Z.of_nat (length mid) < 12 * Z.of_nat fuel →
  ∃ data ti' err, parse_types fuel sw ok start (Z.of_nat (length pre)) (Z.of_nat (length pre + length mid))
    (pre ++ mid ++ post) ti = Some (data, ti', err) ∧ parsed sw ok start pre mid post offs data ti' err.
Proof.
  revert pre mid ti offs. induction fuel as [|fuel IH]; intros pre mid ti offs Hb Hstart Hidx Hcnt Hmax Hfuel; [lia|].
  destruct (decide (SIZEOF_TYPE ≤ Z.of_nat (length mid))) as [Hge|Hlt].
  - destruct (type_or_bad sw mid Hb Hge) as [(t & rest & Hwf & Em)|(h & rest & Hh & Em & Hbad)].
    + pose proof (length_type_bytes sw t Hwf) as Hlt. pose proof (length_type_bytes false t Hwf) as Hltf.
      assert (12 ≤ btf_type_size t) as Hs by (destruct Hwf as [_ ->]; unfold SIZEOF_TYPE; lia).
      assert (Z.of_nat (length mid) = btf_type_size t + Z.of_nat (length rest)) as Hlm
        by (rewrite Em, length_app; lia).
      replace (pre ++ mid ++ post) with (pre ++ words_bytes sw (type_words t) ++ rest ++ post)
        by (by rewrite Em, <- app_assoc). rewrite parse_step by (first [done|lia]).
      rewrite wrap_small by (unfold in_u; lia).
      destruct (add_idx_entry (ok (Z.to_nat (ti_nr ti))) ti offs (Z.of_nat (length pre) - start)) as (ti' & err & -> & Herr & Hrel);
        [done|unfold BTF_MAX_NR_TYPES; lia|unfold word_ok, in_u; lia|].
      cbn [mbind option_bind]. destruct (Z.eqb_spec err 0) as [->|Hne]; cbn [negb].
      * specialize (IH (pre ++ words_bytes false (type_words t)) rest (idx_next ti') (offs ++ [Z.of_nat (length pre) - start])).
        rewrite !length_app in IH. cbn [length] in IH.
        destruct IH as (data & ti2 & err & E & [Hok Hno]); [|lia|by apply Hrel|lia|lia|lia|].
        { rewrite Em in Hb. by apply bytes_ok_app in Hb as [_ ?]. }
        exists data, ti2, err. split.
        { rewrite <- E, <- app_assoc.
          replace (Z.of_nat (length pre) + btf_type_size t)
            with (Z.of_nat (length pre + length (words_bytes false (type_words t)))) by lia.
          replace (Z.of_nat (length pre + length mid))
            with (Z.of_nat (length pre + length (words_bytes false (type_words t)) + length rest)) by lia. done. }
        split.
        -- intros ->. destruct (Hok eq_refl) as (ts & Hts & -> & -> & Hti). exists (t :: ts).
           split_and!; [by constructor|by rewrite types_bytes_cons|by rewrite types_bytes_cons, <- !app_assoc|].
           cbn [offsets]. rewrite length_app in Hti. rewrite <- app_assoc in Hti. cbn [app] in Hti.
           replace (Z.of_nat (length pre) - start + btf_type_size t)
             with (Z.of_nat (length pre + length (words_bytes false (type_words t))) - start) by lia. done.
        -- intros Hall Hne (ts & Hts & E2). apply (Hno Hall Hne). destruct Hts as [|t2 ts Ht2 Hts].
           { rewrite E2 in Hge. cbn in Hge. unfold SIZEOF_TYPE in Hge. lia. }
           rewrite Em, types_bytes_cons in E2. apply type_bytes_prefix in E2 as [-> ->]; [|done..]. by exists ts.
      * eexists _, ti', err. split; [done|]. split; [done|]. intros Hall _ _.
        destruct Herr as [->|[_ Hf]]; [done|]. by rewrite Hall in Hf.
    + destruct (parse_bad fuel sw ok start pre h (rest ++ post) (Z.of_nat (length pre + length mid)) ti)
        as (data & err & E & Hne); [done|lia|lia|].
      replace (pre ++ mid ++ post) with (pre ++ words_bytes sw (type_head h) ++ rest ++ post)
        by (by rewrite Em, <- app_assoc). exists data, ti, err. split; [done|]. split; [done|].
      intros _ _ (ts & Hts & E2). destruct Hts as [|t2 ts Ht2 Hts].
      { rewrite E2 in Hge. cbn in Hge. unfold SIZEOF_TYPE in Hge. lia. }
      rewrite Em, types_bytes_cons, type_words_head, words_bytes_app, <- app_assoc in E2.
      destruct (wf_head t2 Ht2) as [Hh2 _]. apply words_bytes_prefix in E2 as [E2 E3]; [|done..].
      assert (btf_type_size h = btf_type_size t2) as Es.
      { by apply head_size. }
      destruct Ht2 as [_ Hs2]. rewrite Es, Hs2, Em, E3, length_app, !length_words_bytes, !length_app, !length_words_bytes in Hbad.
      unfold SIZEOF_TYPE in Hbad. cbn [type_head length] in Hbad. lia.
  - cbn [parse_types]. destruct (Z.leb_spec (Z.of_nat (length pre) + SIZEOF_TYPE) (Z.of_nat (length pre + length mid))); [lia|].
    destruct (Z.eqb_spec (Z.of_nat (length pre)) (Z.of_nat (length pre + length mid))) as [E|E]; cbn [negb].
    + destruct mid; [|cbn in E; lia]. exists (pre ++ [] ++ post), ti, 0. split; [done|]. split; [|done].
      intros _. exists []. cbn. split_and!; [constructor|done|done|]. by rewrite app_nil_r.
    + eexists _, ti, _. split; [done|]. split; [done|]. intros _ _ (ts & Hts & E2). destruct Hts as [|t2 ts Ht2 Hts].
      * rewrite E2 in E. cbn in E. lia.
      * apply (f_equal length) in E2. rewrite types_bytes_cons, length_app in E2.
        pose proof (length_type_bytes sw t2 Ht2). destruct Ht2 as [_ Hs2]. lia.
Qed.

(** * The header *)

Definition hdr_ok (h : btf_header) : Prop :=
  in_u 16 (h_magic h) ∧ in_u 8 (h_version h) ∧ in_u 8 (h_flags h) ∧ word_ok (h_hdr_len h) ∧
  word_ok (h_type_off h) ∧ word_ok (h_type_len h) ∧ word_ok (h_str_off h) ∧ word_ok (h_str_len h).

(** [h] as it stands in a file of the given byte order. *)
Definition hdr_in (sw : bool) (h : btf_header) : btf_header := if sw then btf_bswap_hdr h else h.

Lemma length_hdr_bytes h : length (hdr_bytes h) = 24%nat.
Proof. done. Qed.

Lemma load_here n x post off : off = 0 → in_u (8 * Z.of_nat n) x → load n (le_bytes n x ++ post) off = Some x.
Proof.
  intros -> Hx. pose proof (load_app_mid [] (le_bytes n x) post 0 n eq_refl) as E.
  rewrite length_le_bytes in E. cbn [app] in E. rewrite E by done. by rewrite le_val_bytes_id.
Qed.

Lemma slice_skip pre rest off n : Z.of_nat (length pre) ≤ off →
  slice (pre ++ rest) off n = slice rest (off - Z.of_nat (length pre)) n.
Proof.
  intros H. unfold slice. rewrite length_app.
  replace (0 <=? off) with true by (symmetry; apply Z.leb_le; lia).
  replace (0 <=? off - Z.of_nat (length pre)) with true by (symmetry; apply Z.leb_le; lia). cbn [andb].
  replace (off + Z.of_nat n <=? Z.of_nat (length pre + length rest))
    with (off - Z.of_nat (length pre) + Z.of_nat n <=? Z.of_nat (length rest))
    by (destruct (Z.leb_spec (off - Z.of_nat (length pre) + Z.of_nat n) (Z.of_nat (length rest))),
          (Z.leb_spec (off + Z.of_nat n) (Z.of_nat (length pre + length rest))); lia).
  rewrite drop_app_ge by lia. by replace (Z.to_nat off - length pre)%nat with (Z.to_nat (off - Z.of_nat (length pre))) by lia.
Qed.

Lemma load_skip m k y rest off : Z.of_nat k ≤ off → load m (le_bytes k y ++ rest) off = load m rest (off - Z.of_nat k).
Proof.
  intros H. unfold load. rewrite slice_skip by (rewrite length_le_bytes; done). by rewrite length_le_bytes.
Qed.

Lemma hdr_load_bytes h rest : hdr_ok h → hdr_load (hdr_bytes h ++ rest) = Some h.
Proof.
  intros (H1 & H2 & H3 & H4 & H5 & H6 & H7 & H8). unfold hdr_load, hdr_bytes. rewrite <- !app_assoc.
  repeat first [rewrite load_here by done; cbn [mbind option_bind] | rewrite load_skip by done]. by destruct h.
Qed.

Lemma hdr_bswap_bswap h : hdr_ok h → btf_bswap_hdr (btf_bswap_hdr h) = h.
Proof.
  intros (H1 & H2 & H3 & H4 & H5 & H6 & H7 & H8). unfold btf_bswap_hdr.
  cbn [h_magic h_version h_flags h_hdr_len h_type_off h_type_len h_str_off h_str_len].
  rewrite (bswap_bswap 2), !(bswap_bswap 4) by done. by destruct h.
Qed.

Lemma hdr_ok_bswap h : hdr_ok h → hdr_ok (btf_bswap_hdr h).
Proof.
  intros (H1 & H2 & H3 & H4 & H5 & H6 & H7 & H8). unfold hdr_ok, btf_bswap_hdr, word_ok.
  cbn [h_magic h_version h_flags h_hdr_len h_type_off h_type_len h_str_off h_str_len].
  split_and!; try done; first [apply (bswap_range 2)|apply (bswap_range 4)].
Qed.

Lemma hdr_ok_in sw h : hdr_ok h → hdr_ok (hdr_in sw h).
Proof. destruct sw; [apply hdr_ok_bswap|done]. Qed.

(** Any 24 bytes are a header. *)
Lemma hdr_of_bytes data : bytes_ok data → (24 ≤ length data)%nat →
  ∃ h, hdr_ok h ∧ data = hdr_bytes h ++ drop 24 data.
Proof.
  unfold bytes_ok. intros Hb Hl. do 24 (destruct data as [|? data]; [cbn in Hl; lia|]). clear Hl. cbn [drop].
  match goal with |- context [?a0 :: ?a1 :: ?a2 :: ?a3 :: ?a4 :: ?a5 :: ?a6 :: ?a7 :: ?a8 :: ?a9 :: ?a10 :: ?a11 :: ?a12 ::
      ?a13 :: ?a14 :: ?a15 :: ?a16 :: ?a17 :: ?a18 :: ?a19 :: ?a20 :: ?a21 :: ?a22 :: ?a23 :: _] =>
    exists (mkHdr (le_val [a0; a1]) (le_val [a2]) (le_val [a3]) (le_val [a4; a5; a6; a7]) (le_val [a8; a9; a10; a11])
      (le_val [a12; a13; a14; a15]) (le_val [a16; a17; a18; a19]) (le_val [a20; a21; a22; a23]))
  end.
  repeat match goal with H : Forall _ (_ :: _) |- _ => apply Forall_cons in H as [? H] end.
  unfold hdr_ok, word_ok, hdr_bytes.
  cbn [h_magic h_version h_flags h_hdr_len h_type_off h_type_len h_str_off h_str_len].
  split; [split_and!|].
  all: try match goal with |- in_u _ (le_val ?l) =>
    refine (le_val_range l _); repeat (constructor; [done|]); constructor end.
  repeat match goal with |- context [le_bytes ?n (le_val ?l)] =>
    replace (le_bytes n (le_val l)) with l
      by (symmetry; refine (le_bytes_le_val l _); repeat (constructor; [done|]); constructor) end.
  done.
Qed.

(** * The files that are accepted *)

Definition hdr_at (sw : bool) (h : btf_header) (bytes : list Z) : Prop :=
  hdr_ok h ∧ h_magic h = BTF_MAGIC ∧ (sw = true → h_hdr_len h = SIZEOF_HDR) ∧
  hdr_layout_ok (Z.of_nat (length bytes)) h = 0 ∧ ∃ rest, bytes = hdr_bytes (hdr_in sw h) ++ rest.

(** The string section: it ends in a NUL, and without a base it begins with one. *)
Definition strs_ok (has_base : bool) (strs : list Z) : Prop :=
  (has_base = true ∧ strs = []) ∨
  (strs ≠ [] ∧ Z.of_nat (length strs) - 1 ≤ BTF_MAX_STR_OFFSET ∧ last strs = Some 0 ∧
   (has_base = false → head strs = Some 0)).

(** A BTF file: header, types and strings, in the byte order [sw]. *)
Record btf_file (sw has_base : bool) (h : btf_header) (ts : list btf_type) (strs bytes : list Z) : Prop := {
  bf_hdr : hdr_at sw h bytes;
  bf_strs : slice bytes (h_hdr_len h + h_str_off h) (Z.to_nat (h_str_len h)) = Some strs;
  bf_strs_ok : strs_ok has_base strs;
  bf_types : slice bytes (h_hdr_len h + h_type_off h) (Z.to_nat (h_type_len h)) = Some (types_bytes sw ts);
  bf_wf : Forall type_wf ts;
}.

Lemma layout_bounds size h : hdr_ok h → 0 ≤ size < 2 ^ 32 → hdr_layout_ok size h = 0 →
  h_hdr_len h + h_str_off h + h_str_len h ≤ size ∧ h_type_off h + h_type_len h ≤ h_str_off h.
Proof.
  intros (H1 & H2 & H3 & H4 & H5 & H6 & H7 & H8) Hs. unfold word_ok, in_u in *. unfold hdr_layout_ok, EINVAL.
  destruct (Z.ltb_spec size (h_hdr_len h)); [done|]. rewrite wrap_small by (unfold in_u; lia).
  destruct (Z.ltb_spec (size - h_hdr_len h) (h_str_off h + h_str_len h)); [done|]. rewrite Z.gtb_ltb.
  destruct (Z.ltb_spec (h_str_off h) (h_type_off h + h_type_len h)); [done|]. lia.
Qed.

(** The header in the bytes is one. *)
Lemma hdr_bytes_inj h h' r r' : hdr_ok h → hdr_ok h' → hdr_bytes h ++ r = hdr_bytes h' ++ r' → h = h' ∧ r = r'.
Proof.
  intros H H' E. pose proof (hdr_load_bytes h r H) as E1. rewrite E, hdr_load_bytes in E1 by done. by simplify_eq.
Qed.

Lemma hdr_in_inj sw sw' h h' : hdr_ok h → hdr_ok h' → h_magic h = BTF_MAGIC → h_magic h' = BTF_MAGIC →
  hdr_in sw h = hdr_in sw' h' → sw = sw' ∧ h = h'.
Proof.
  intros H H' M M' E. assert (bswap_16 BTF_MAGIC ≠ BTF_MAGIC) as Hne by done.
  destruct sw, sw'; cbn [hdr_in] in E.
  - apply (f_equal btf_bswap_hdr) in E. by rewrite !hdr_bswap_bswap in E.
  - apply (f_equal h_magic) in E. cbn in E. by rewrite M, M' in E.
  - apply (f_equal h_magic) in E. cbn in E. by rewrite M, M' in E.
  - done.
Qed.

Lemma parse_hdr_spec bytes : bytes_ok bytes → Z.of_nat (length bytes) < 2 ^ 32 →
  ∃ r, btf_parse_hdr bytes (Z.of_nat (length bytes)) = Some r ∧
    match r with
    | inl (data, h, sw) => hdr_at sw h bytes ∧ ∃ rest, bytes = hdr_bytes (hdr_in sw h) ++ rest ∧ data = hdr_bytes h ++ rest
    | inr err => ¬ ∃ sw h, hdr_at sw h bytes
    end.
Proof.
  intros Hb Hmax. unfold btf_parse_hdr, SIZEOF_HDR.
  destruct (Z.ltb_spec (Z.of_nat (length bytes)) 24) as [Hs|Hs].
  { eexists. split; [done|]. intros (sw & h & _ & _ & _ & _ & rest & E).
    rewrite E, length_app, length_hdr_bytes in Hs. lia. }
  destruct (hdr_of_bytes bytes Hb ltac:(lia)) as (h0 & Hh0 & E0). set (rest := drop 24 bytes) in *.
  assert (hdr_load bytes = Some h0) as -> by (by rewrite E0, hdr_load_bytes). cbn [mbind option_bind].
  assert (∀ sw h, hdr_at sw h bytes → hdr_in sw h = h0) as Huniq.
  { intros sw h (Hh & _ & _ & _ & r & E). rewrite E0 in E. symmetry.
    by apply hdr_bytes_inj in E as [E _]; [| |apply hdr_ok_in]. }
  destruct (Z.eqb_spec (h_magic h0) (bswap_16 BTF_MAGIC)) as [Em|Em].
  - pose proof (hdr_ok_bswap _ Hh0) as Hh. pose proof (hdr_bswap_bswap _ Hh0) as Hinv.
    assert (h_magic (btf_bswap_hdr h0) = BTF_MAGIC) as M by (cbn; by rewrite Em).
    assert (∀ sw h, hdr_at sw h bytes → sw = true ∧ h = btf_bswap_hdr h0) as Huniq2.
    { intros sw h H. pose proof (Huniq _ _ H) as E. destruct H as (H & M' & _).
      apply (hdr_in_inj sw true); [done..|]. cbn [hdr_in]. by rewrite Hinv. }
    destruct (Z.eqb_spec (bswap_32 (h_hdr_len h0)) 24) as [El|El]; cbn [negb].
    + assert (store bytes 0 (hdr_bytes (btf_bswap_hdr h0)) = Some (hdr_bytes (btf_bswap_hdr h0) ++ rest)) as Est.
      { rewrite E0 at 1. exact (store_app_mid [] (hdr_bytes h0) rest 0 (hdr_bytes (btf_bswap_hdr h0)) eq_refl eq_refl). }
      rewrite Est. cbn [mbind option_bind].
      destruct (Z.eqb_spec (hdr_layout_ok (Z.of_nat (length bytes)) (btf_bswap_hdr h0)) 0) as [Ely|Ely].
      * eexists. split; [done|]. cbn [hdr_in]. rewrite Hinv. split.
        { refine (conj Hh (conj M (conj (λ _, El) (conj Ely _)))). cbn [hdr_in]. rewrite Hinv. by exists rest. }
        by exists rest.
      * eexists. split; [done|]. intros (sw & h & H). destruct (Huniq2 _ _ H) as [-> ->]. by destruct H as (_ & _ & _ & ? & _).
    + eexists. split; [done|]. intros (sw & h & H). destruct (Huniq2 _ _ H) as [-> ->].
      destruct H as (_ & _ & H & _). by specialize (H eq_refl).
  - assert (∀ sw h, hdr_at sw h bytes → sw = false ∧ h = h0) as Huniq2.
    { intros sw h H. pose proof (Huniq _ _ H) as E. destruct H as (H & M' & _). destruct sw; [|done].
      cbn [hdr_in] in E. rewrite <- E in Em. cbn in Em. by rewrite M' in Em. }
    destruct (Z.eqb_spec (h_magic h0) BTF_MAGIC) as [M|M]; cbn [negb].
    + destruct (Z.eqb_spec (hdr_layout_ok (Z.of_nat (length bytes)) h0) 0) as [Ely|Ely].
      * eexists. split; [done|]. split; [|exists rest; by rewrite <- E0].
        refine (conj Hh0 (conj M (conj _ (conj Ely _)))); [done|by exists rest].
      * eexists. split; [done|]. intros (sw & h & H). destruct (Huniq2 _ _ H) as [-> ->]. by destruct H as (_ & _ & _ & ? & _).
    + eexists. split; [done|]. intros (sw & h & H). destruct (Huniq2 _ _ H) as [-> ->]. by destruct H as (_ & ? & _).
Qed.

Lemma str_sec_spec has_base data h start strs : 0 ≤ h_str_len h →
  slice data start (Z.to_nat (h_str_len h)) = Some strs →
  ∃ err, btf_parse_str_sec has_base data h start = Some err ∧ (err = 0 ↔ strs_ok has_base strs).
Proof.
  intros H0 Hs. apply slice_split in Hs as (pre & post & -> & -> & Hl).
  assert (h_str_len h = Z.of_nat (length strs)) as E by lia. clear Hl H0. unfold btf_parse_str_sec. rewrite E.
  destruct strs as [|c0 strs] using rev_ind; [|clear IHstrs; rename c0 into c].
  { exists (if has_base then 0 else - EINVAL). split; [by destruct has_base|]. unfold strs_ok.
    destruct has_base; split; try done; [by left|by intros [[]|[]]]. }
  rewrite length_app. cbn [length]. destruct (Z.eqb_spec (Z.of_nat (length strs + 1)) 0); [lia|].
  rewrite andb_false_r. cbn [orb]. unfold BTF_MAX_STR_OFFSET. rewrite Z.gtb_ltb.
  assert (strs_ok has_base (strs ++ [c]) ↔ Z.of_nat (length strs + 1) - 1 ≤ 0x7fffffff ∧ c = 0 ∧
    (has_base = false → head (strs ++ [c]) = Some 0)) as Hiff.
  { unfold strs_ok, BTF_MAX_STR_OFFSET. rewrite last_snoc, length_app. cbn [length]. split.
    - intros [[_ Hn]|(_ & ? & ? & ?)]; [by destruct strs|]. by simplify_eq.
    - intros (? & -> & ?). right. split_and!; [by destruct strs|done..]. }
  setoid_rewrite Hiff. clear Hiff.
  destruct (Z.ltb_spec 0x7fffffff (Z.of_nat (length strs + 1) - 1)).
  { eexists. split; [done|]. split; [done|lia]. }
  replace (pre ++ (strs ++ [c]) ++ post) with ((pre ++ strs) ++ [c] ++ post) by (by rewrite <- !app_assoc).
  rewrite (load_app_mid (pre ++ strs) [c] post (Z.of_nat (length pre) + Z.of_nat (length strs + 1) - 1) 1)
    by (rewrite ?length_app; first [done|lia]). cbn [mbind option_bind le_val].
  replace (c + 256 * 0) with c by lia. destruct (Z.eqb_spec c 0) as [->|]; cbn [negb].
  2:{ eexists. split; [done|]. split; [done|]. by intros (_ & ? & _). }
  destruct has_base; [eexists; split; [done|]; split; [done|done]|].
  assert (∃ c1 l, strs ++ [0] = c1 :: l) as (c1 & l & E1) by (destruct strs; eauto).
  replace ((pre ++ strs) ++ [0] ++ post) with (pre ++ [c1] ++ l ++ post)
    by (rewrite <- app_assoc; f_equal; rewrite (app_assoc strs), E1; done).
  rewrite load_app_mid by done. cbn [mbind option_bind le_val]. rewrite E1. cbn [head].
  replace (c1 + 256 * 0) with c1 by lia. eexists. split; [done|].
  destruct (Z.eqb_spec c1 0) as [->|]; cbn [negb]; (split; [done|]); [done|].
  intros (_ & _ & H'). by specialize (H' eq_refl); simplify_eq.
Qed.

Lemma type_at_here pre t post : type_wf t →
  type_at (pre ++ words_bytes false (type_words t) ++ post) (Z.of_nat (length pre)) = Some t.
Proof.
  intros Hwf. destruct (wf_head t Hwf) as [Hh Hr]. unfold type_at.
  rewrite type_words_head, words_bytes_app, <- app_assoc. rewrite type_load_head by done. cbn [mbind option_bind].
  rewrite type_size_bare, rest_words by done. rewrite (app_assoc pre). rewrite load_words_bytes; [| |done].
  - by destruct t.
  - rewrite length_app, length_words_bytes. cbn [type_head length]. unfold SIZEOF_TYPE. lia.
Qed.

Lemma types_at_spec ti offs pre ts : Forall type_wf ts → idx_rel ti (offs ++ offsets (Z.of_nat (length pre)) ts) →
  types_at (length ts) (Z.of_nat (length offs)) ti (pre ++ types_bytes false ts) = Some ts.
Proof.
  intros Hts. revert offs pre. induction Hts as [|t ts Ht Hts IH]; intros offs pre Hidx; [done|].
  cbn [length types_at]. cbn [offsets] in Hidx.
  rewrite (idx_rel_at _ _ (length offs) (Z.of_nat (length pre)) Hidx)
    by (by rewrite lookup_app_r, Nat.sub_diag by lia).
  cbn [mbind option_bind]. rewrite types_bytes_cons, type_at_here by done. cbn [mbind option_bind].
  rewrite (app_assoc pre). pose proof (length_type_bytes false t Ht).
  replace (Z.of_nat (length offs) + 1) with (Z.of_nat (length (offs ++ [Z.of_nat (length pre)])))
    by (rewrite length_app; cbn; lia).
  rewrite IH; [done|]. rewrite <- app_assoc, length_app. cbn [app].
  by replace (Z.of_nat (length pre + length (words_bytes false (type_words t))))
    with (Z.of_nat (length pre) + btf_type_size t) by lia.
Qed.

(** * The object made of a file *)

Record obj_of (sw : bool) (h : btf_header) (ts : list btf_type) (strs : list Z) (base : option btf_obj) (bytes : list Z)
    (o : btf_obj) : Prop := {
  oo_data : ∃ pre post rest, bytes = hdr_bytes (hdr_in sw h) ++ rest ∧ hdr_bytes h ++ rest = pre ++ types_bytes sw ts ++ post ∧
    Z.of_nat (length pre) = h_hdr_len h + h_type_off h ∧
    o_raw o = mkRaw (Some (pre ++ types_bytes false ts ++ post)) None (Z.of_nat (length bytes)) sw;
  oo_links : o_links o = links_on base 0;
  oo_base : o_base o = base;
  oo_hdr : p_hdr (o_parts o) = h;
  oo_tail : h_hdr_len h = SIZEOF_HDR → p_hdr_tail (o_parts o) = [];
  oo_types : p_types (o_parts o) = types_bytes false ts;
  oo_index : idx_rel (p_index (o_parts o)) (offsets 0 ts);
  oo_strs : p_strs (o_parts o) = inl strs;
  oo_mod : p_modifiable (o_parts o) = false;
}.

Lemma length_types_bytes sw sw' ts : length (types_bytes sw ts) = length (types_bytes sw' ts).
Proof.
  induction ts as [|t ts IH]; [done|]. rewrite !types_bytes_cons, !length_app, !length_words_bytes. lia.
Qed.

Lemma slice_all bs : slice bs 0 (length bs) = Some bs.
Proof. pose proof (slice_app_mid [] bs [] 0 (length bs) eq_refl eq_refl) as E. by rewrite !app_nil_r in E. Qed.

Lemma view_of_parts sw h ts strs base bytes o bv : obj_of sw h ts strs base bytes o → Forall type_wf ts →
  h_str_len h = Z.of_nat (length strs) →
  view_of (o_parts o) (o_links o) bv =
    Some (mkBtf ts (l_start_id (links_on base 0)) (l_start_str_off (links_on base 0)) strs bv 0).
Proof.
  intros [_ Hli _ Hh _ Ht Hi Hs _] Hts Hlen. unfold view_of, btf_strs_data. rewrite Ht, Hs, Hh, Hlen, Nat2Z.id, Hli.
  pose proof (proj1 Hi) as Hnr. rewrite Hnr, length_offsets, Nat2Z.id.
  rewrite (types_at_spec _ [] [] ts Hts Hi : types_at (length ts) 0 _ (types_bytes false ts) = Some ts). cbn [mbind option_bind].
  rewrite slice_all. cbn [mbind option_bind]. by destruct base.
Qed.

(** The base as types and strings. *)
Definition base_view (base : option btf_obj) : option (option btf) :=
  match base with None => Some None | Some b => Some <$> btf_view b end.

Lemma btf_view_of sw h ts strs base bytes o : obj_of sw h ts strs base bytes o → Forall type_wf ts →
  h_str_len h = Z.of_nat (length strs) →
  btf_view o = bv ← base_view base;
    Some (mkBtf ts (l_start_id (links_on base 0)) (l_start_str_off (links_on base 0)) strs bv 0).
Proof.
  intros Ho Hts Hlen. assert (btf_view o = bv ← base_view base; view_of (o_parts o) (o_links o) bv) as ->.
  { destruct Ho as [_ _ <- _ _ _ _ _ _]. unfold base_view. destruct o as [r p l [b|]]; cbn; [|done]. by destruct (btf_view b). }
  destruct (base_view base) as [bv|]; [cbn|done]. by eapply view_of_parts.
Qed.

(** The bytes behind the header are the same in the file and in the native copy. *)
Lemma slice_behind_hdr sw h rest off n : (sw = true → 24 ≤ off) →
  slice (hdr_bytes (hdr_in sw h) ++ rest) off n = slice (hdr_bytes h ++ rest) off n.
Proof.
  intros Hoff. destruct sw; [|done]. specialize (Hoff eq_refl).
  rewrite !slice_skip by (rewrite length_hdr_bytes; lia). by rewrite !length_hdr_bytes.
Qed.

Lemma hdr_bytes_ok h : bytes_ok (hdr_bytes h).
Proof. unfold hdr_bytes. repeat (apply bytes_ok_app; split; [apply le_bytes_ok|]). apply le_bytes_ok. Qed.

(** Replacing the type section leaves what is behind it. *)
Lemma slice_behind pre mid mid' post off n : length mid = length mid' →
  Z.of_nat (length pre + length mid) ≤ off → slice (pre ++ mid' ++ post) off n = slice (pre ++ mid ++ post) off n.
Proof.
  intros Hl Ho. rewrite !(app_assoc pre). rewrite !slice_skip by (rewrite length_app; lia). by rewrite !length_app, Hl.
Qed.

Lemma regions_of pre h ts strs post : hdr_ok h → Z.of_nat (length pre) = h_hdr_len h + h_type_off h →
  Z.of_nat (length (types_bytes false ts)) = h_type_len h → 24 ≤ Z.of_nat (length (pre ++ types_bytes false ts ++ post)) →
  h_hdr_len h ≤ Z.of_nat (length (pre ++ types_bytes false ts ++ post)) →
  slice (pre ++ types_bytes false ts ++ post) (h_hdr_len h + h_str_off h) (Z.to_nat (h_str_len h)) = Some strs →
  ∃ tail, regions (pre ++ types_bytes false ts ++ post) h = Some (types_bytes false ts, strs, tail) ∧
    (h_hdr_len h = SIZEOF_HDR → tail = []).
Proof.
  intros (_ & _ & _ & H4 & _) Hp Ht H24 Hl Hs. unfold regions, SIZEOF_HDR. unfold word_ok, in_u in H4.
  rewrite <- Hp, <- Ht, Nat2Z.id.
  rewrite (slice_app_mid pre (types_bytes false ts) post _ _ eq_refl eq_refl). cbn [mbind option_bind]. rewrite Hs. cbn [mbind option_bind].
  destruct (proj2 (slice_is_Some (pre ++ types_bytes false ts ++ post) 24 (Z.to_nat (h_hdr_len h - 24)))) as [tail Et]; [lia|].
  rewrite Et. exists tail. split; [done|]. intros E. rewrite E in Et. apply slice_Some in Et as (_ & _ & Et & _).
  by apply nil_length_inv in Et.
Qed.

Definition file_outcome (ca ma : bool) (ok : nat → bool) (bytes : list Z) (base : option btf_obj) (r : btf_obj + Z) : Prop :=
  match r with
  | inl o => ∃ sw h ts strs, btf_file sw (bool_decide (is_Some base)) h ts strs bytes ∧
      obj_of sw h ts strs base bytes o
  | inr err => ca = true → ma = true → (∀ n, ok n = true) →
      ¬ ∃ sw h ts strs, btf_file sw (bool_decide (is_Some base)) h ts strs bytes
  end.

(** The type section is parsed where the header puts it. *)
Lemma type_sec_outcome sw ok h rest : hdr_ok h → bytes_ok rest → (sw = true → h_hdr_len h = SIZEOF_HDR) →
  Z.of_nat (length (hdr_bytes h ++ rest)) < 2 ^ 32 →
  h_hdr_len h + h_type_off h + h_type_len h ≤ Z.of_nat (length (hdr_bytes h ++ rest)) →
  ∃ pre mid post data ti err, hdr_bytes h ++ rest = pre ++ mid ++ post ∧
    Z.of_nat (length pre) = h_hdr_len h + h_type_off h ∧ Z.of_nat (length mid) = h_type_len h ∧
    slice (hdr_bytes (hdr_in sw h) ++ rest) (h_hdr_len h + h_type_off h) (Z.to_nat (h_type_len h)) = Some mid ∧
    btf_parse_type_sec sw ok (hdr_bytes h ++ rest) h (h_hdr_len h + h_type_off h) = Some (data, ti, err) ∧
    parsed sw ok (Z.of_nat (length pre)) pre mid post [] data ti err.
Proof.
  intros (_ & _ & _ & H4 & H5 & H6 & _) Hb Hsw Hmax Hfit. unfold word_ok, in_u in *.
  destruct (proj2 (slice_is_Some (hdr_bytes h ++ rest) (h_hdr_len h + h_type_off h) (Z.to_nat (h_type_len h)))) as [mid Em]; [lia|].
  pose proof (slice_split _ _ _ _ Em) as (pre & post & E & Hp & Hm).
  destruct (parse_types_spec (S (Z.to_nat (h_type_len h / SIZEOF_TYPE))) sw ok (Z.of_nat (length pre)) pre mid post (mkIndex [] 0 0) [])
    as (data & ti & err & Er & Hr).
  - assert (bytes_ok (pre ++ mid ++ post)) as Ha by (rewrite <- E; apply bytes_ok_app; split; [apply hdr_bytes_ok|done]).
    apply bytes_ok_app in Ha as [_ [? _]%bytes_ok_app]. done.
  - lia.
  - apply idx_rel_nil.
  - cbn [length]. lia.
  - apply (f_equal length) in E. rewrite !length_app in E. rewrite length_app in Hmax. lia.
  - unfold SIZEOF_TYPE. Z.to_euclidean_division_equations. lia.
  - exists pre, mid, post, data, ti, err. split; [done|]. split; [lia|]. split; [lia|]. split; [|split; [|done]].
    + rewrite slice_behind_hdr; [done|]. intros ->. specialize (Hsw eq_refl). unfold SIZEOF_HDR in Hsw. lia.
    + rewrite <- Er, <- E. unfold btf_parse_type_sec. by replace (Z.of_nat (length pre + length mid))
        with (h_hdr_len h + h_type_off h + h_type_len h) by lia; rewrite Hp.
Qed.

Lemma btf_new_outcome ca ma ok bytes base : bytes_ok bytes → Z.of_nat (length bytes) < 2 ^ 32 →
  ∃ r, btf_new ca ma ok bytes base = Some r ∧ file_outcome ca ma ok bytes base r.
Proof.
  intros Hb Hmax. unfold btf_new.
  destruct (negb ca || negb ma) eqn:Ea.
  { eexists. split; [done|]. intros -> ->. done. }
  destruct (parse_hdr_spec bytes Hb Hmax) as (r & -> & Hr). cbn [mbind option_bind].
  destruct r as [[[data h] sw]|err]; [|eexists; split; [done|]; intros _ _ _ (sw & h & ts & strs & [H _ _ _ _]); eauto].
  destruct Hr as [Hat (rest & E & ->)]. pose proof Hat as (Hh & Hmg & Hsw & Hly & _).
  destruct (layout_bounds (Z.of_nat (length bytes)) h Hh ltac:(lia) Hly) as [Hs1 Hs2].
  assert (length bytes = length (hdr_bytes h ++ rest)) as Hlen by (rewrite E, !length_app, !length_hdr_bytes; done).
  assert (∀ sw' h' ts strs, btf_file sw' (bool_decide (is_Some base)) h' ts strs bytes → sw' = sw ∧ h' = h) as Huniq.
  { intros sw' h' ts strs [(Hh' & M' & _ & _ & r' & E') _ _ _ _]. rewrite E in E'.
    apply hdr_bytes_inj in E' as [E' _]; [|by apply hdr_ok_in..]. by apply hdr_in_inj in E' as [-> ->]. }
  pose proof Hh as (_ & _ & _ & H4 & H5 & H6 & H7 & H8). unfold word_ok, in_u in H4, H5, H6, H7, H8.
  destruct (proj2 (slice_is_Some (hdr_bytes h ++ rest) (h_hdr_len h + h_str_off h) (Z.to_nat (h_str_len h)))) as [strs Estrs];
    [lia|].
  assert (slice bytes (h_hdr_len h + h_str_off h) (Z.to_nat (h_str_len h)) = Some strs) as Estrs'.
  { rewrite E, slice_behind_hdr; [done|]. intros ->. specialize (Hsw eq_refl). unfold SIZEOF_HDR in Hsw. lia. }
  destruct (str_sec_spec (bool_decide (is_Some base)) _ h _ strs ltac:(lia) Estrs) as (err & -> & Herr). cbn [mbind option_bind].
  destruct (Z.eqb_spec err 0) as [->|Hne]; cbn [negb].
  2:{ eexists. split; [done|]. intros _ _ _ (sw' & h' & ts & strs' & H). destruct (Huniq _ _ _ _ H) as [-> ->].
      destruct H as [_ Hs Hsok _ _]. rewrite Estrs' in Hs. simplify_eq. by apply Hne, Herr. }
  assert (bytes_ok rest) as Hrest by (rewrite E in Hb; by apply bytes_ok_app in Hb as [_ ?]).
  destruct (type_sec_outcome sw ok h rest Hh Hrest Hsw ltac:(lia) ltac:(lia))
    as (pre & mid & post & data & ti & err & Ed & Hp & Hm & Emid & -> & [Hok Hno]).
  cbn [mbind option_bind]. rewrite <- E in Emid.
  destruct (Z.eqb_spec err 0) as [->|Hne]; cbn [negb].
  2:{ eexists. split; [done|]. intros _ _ Hall (sw' & h' & ts & strs' & H). destruct (Huniq _ _ _ _ H) as [-> ->].
      destruct H as [_ _ _ Ht Hwf]. rewrite Emid in Ht. simplify_eq. apply (Hno Hall Hne). by exists ts. }
  destruct (Hok eq_refl) as (ts & Hwf & -> & -> & Hidx). rewrite (length_types_bytes sw false) in Hm.
  assert (length (pre ++ types_bytes false ts ++ post) = length bytes) as Hl.
  { rewrite Hlen, Ed, !length_app, (length_types_bytes sw false). done. }
  destruct (regions_of pre h ts strs post) as (tail & -> & Htail); [done|done|done|rewrite Hl, Hlen, length_app, length_hdr_bytes; lia|lia| |].
  { rewrite (slice_behind _ (types_bytes sw ts)); [by rewrite <- Ed|by rewrite (length_types_bytes false sw)|].
    pose proof (length_types_bytes sw false ts). lia. }
  cbn [mbind option_bind]. eexists. split; [done|]. exists sw, h, ts, strs. split.
  - split; [done|done|by apply Herr|done|done].
  - rewrite Z.sub_diag in Hidx. split; [|done..]. by exists pre, post, rest.
Qed.

Lemma types_bytes_inj sw ts ts' : Forall type_wf ts → Forall type_wf ts' → types_bytes sw ts = types_bytes sw ts' → ts = ts'.
Proof.
  intros Hts. revert ts'. induction Hts as [|t ts Ht _ IH]; intros ts' Hts' E; destruct Hts' as [|t' ts' Ht' Hts']; [done| | |].
  - apply (f_equal length) in E. rewrite types_bytes_cons, length_app, length_words_bytes in E. cbn in E. lia.
  - apply (f_equal length) in E. rewrite types_bytes_cons, length_app, length_words_bytes in E. cbn in E. lia.
  - rewrite !types_bytes_cons in E. apply type_bytes_prefix in E as [-> E]; [|done..]. by rewrite (IH ts').
Qed.

Lemma btf_file_unique sw sw' hb h h' ts ts' strs strs' bytes :
  btf_file sw hb h ts strs bytes → btf_file sw' hb h' ts' strs' bytes → sw = sw' ∧ h = h' ∧ ts = ts' ∧ strs = strs'.
Proof.
  intros [(Hh & M & _ & _ & r & E) Hs _ Ht Hwf] [(Hh' & M' & _ & _ & r' & E') Hs' _ Ht' Hwf'].
  rewrite E in E'. apply hdr_bytes_inj in E' as [E' _]; [|by apply hdr_ok_in..].
  apply hdr_in_inj in E' as [-> ->]; [|done..]. rewrite Hs in Hs'. rewrite Ht in Ht'. simplify_eq.
  split_and!; try done. by eapply types_bytes_inj.
Qed.

(** * Writing *)

Lemma swap_types_spec ti p offs pre ts post : Forall type_wf ts → 0 ≤ p →
  idx_rel ti (offs ++ offsets (Z.of_nat (length pre) - p) ts) →
  swap_types (length ts) (Z.of_nat (length offs)) ti p (pre ++ types_bytes false ts ++ post) =
  Some (Some (pre ++ types_bytes true ts ++ post)).
Proof.
  intros Hts Hp. revert offs pre. induction Hts as [|t ts Ht Hts IH]; intros offs pre Hidx; [done|].
  cbn [length swap_types]. cbn [offsets] in Hidx.
  rewrite (idx_rel_at _ _ (length offs) (Z.of_nat (length pre) - p) Hidx) by (by rewrite lookup_app_r, Nat.sub_diag by lia).
  cbn [mbind option_bind]. replace (p + (Z.of_nat (length pre) - p)) with (Z.of_nat (length pre)) by lia.
  rewrite !types_bytes_cons, <- !app_assoc, !type_words_head, !words_bytes_app, <- !app_assoc.
  rewrite (swap_rest false) by done. cbn [mbind option_bind negb Z.eqb].
  rewrite (swap_base false) by (first [done|by apply wf_head]). cbn [mbind option_bind negb].
  replace (pre ++ words_bytes true (type_head t) ++ words_bytes true (bt_rest t) ++ types_bytes false ts ++ post)
    with ((pre ++ words_bytes true (type_words t)) ++ types_bytes false ts ++ post)
    by (by rewrite type_words_head, words_bytes_app, <- !app_assoc).
  pose proof (length_type_bytes true t Ht).
  replace (Z.of_nat (length offs) + 1) with (Z.of_nat (length (offs ++ [Z.of_nat (length pre) - p])))
    by (rewrite length_app; cbn; lia).
  rewrite IH.
  - by rewrite type_words_head, words_bytes_app, <- !app_assoc.
  - rewrite <- app_assoc, length_app. cbn [app].
    by replace (Z.of_nat (length pre + length (words_bytes true (type_words t))) - p)
      with (Z.of_nat (length pre) - p + btf_type_size t) by lia.
Qed.

(** * Files written tightly *)

Lemma types_bytes_ok sw ts : bytes_ok (types_bytes sw ts).
Proof.
  induction ts as [|t ts IH]; [constructor|]. rewrite types_bytes_cons. apply bytes_ok_app. split; [apply words_bytes_ok|done].
Qed.

Definition file_size (ts : list btf_type) (strs : list Z) : Z :=
  24 + Z.of_nat (length (types_bytes false ts)) + Z.of_nat (length strs).

Lemma length_file_bytes sw ts strs : Z.of_nat (length (file_bytes sw ts strs)) = file_size ts strs.
Proof. unfold file_bytes, file_size. rewrite !length_app, length_hdr_bytes, (length_types_bytes sw false). lia. Qed.

Lemma file_hdr_ok ts strs : file_size ts strs < 2 ^ 32 → hdr_ok (file_hdr ts strs).
Proof.
  unfold file_size, hdr_ok, word_ok, in_u, file_hdr, BTF_MAGIC, BTF_VERSION, SIZEOF_HDR. intros H.
  cbn [h_magic h_version h_flags h_hdr_len h_type_off h_type_len h_str_off h_str_len]. lia.
Qed.

Lemma file_bytes_file sw ts strs : Forall type_wf ts → strs_ok false strs → file_size ts strs < 2 ^ 32 →
  btf_file sw false (file_hdr ts strs) ts strs (file_bytes sw ts strs).
Proof.
  intros Hts Hs Hmax. pose proof (file_hdr_ok ts strs Hmax) as Hh.
  assert (file_bytes sw ts strs = hdr_bytes (hdr_in sw (file_hdr ts strs)) ++ types_bytes sw ts ++ strs) as E by (by destruct sw).
  split; [|  |done| |done].
  - refine (conj Hh (conj eq_refl (conj (λ _, eq_refl) (conj _ _)))); [|by eexists].
    rewrite length_file_bytes. unfold hdr_layout_ok, file_size in *. cbn [file_hdr h_hdr_len h_type_off h_type_len h_str_off h_str_len].
    unfold SIZEOF_HDR. destruct (Z.ltb_spec (24 + Z.of_nat (length (types_bytes false ts)) + Z.of_nat (length strs)) 24); [lia|].
    rewrite wrap_small by (unfold in_u; lia).
    destruct (Z.ltb_spec (24 + Z.of_nat (length (types_bytes false ts)) + Z.of_nat (length strs) - 24)
      (Z.of_nat (length (types_bytes false ts)) + Z.of_nat (length strs))); [lia|]. rewrite Z.gtb_ltb.
    by destruct (Z.ltb_spec (Z.of_nat (length (types_bytes false ts))) (0 + Z.of_nat (length (types_bytes false ts)))); [lia|].
  - rewrite E. cbn [file_hdr h_hdr_len h_str_off h_str_len]. rewrite app_assoc.
    pose proof (slice_app_mid (hdr_bytes (hdr_in sw (file_hdr ts strs)) ++ types_bytes sw ts) strs []
      (SIZEOF_HDR + Z.of_nat (length (types_bytes false ts))) (Z.to_nat (Z.of_nat (length strs)))) as Esl.
    rewrite app_nil_r in Esl. apply Esl; [|lia]. rewrite length_app, length_hdr_bytes, (length_types_bytes sw false). unfold SIZEOF_HDR. lia.
  - rewrite E. cbn [file_hdr h_hdr_len h_type_off h_type_len]. apply slice_app_mid; [done|].
    rewrite (length_types_bytes sw false). lia.
Qed.

Lemma file_obj sw ts strs : Forall type_wf ts → bytes_ok strs → strs_ok false strs → file_size ts strs < 2 ^ 32 →
  ∃ o, btf_new true true (λ _, true) (file_bytes sw ts strs) None = Some (inl o) ∧
    obj_of sw (file_hdr ts strs) ts strs None (file_bytes sw ts strs) o ∧
    o_raw o = mkRaw (Some (file_bytes false ts strs)) None (file_size ts strs) sw.
Proof.
  intros Hts Hb Hs Hmax. pose proof (file_bytes_file sw ts strs Hts Hs Hmax) as Hf.
  destruct (btf_new_outcome true true (λ _, true) (file_bytes sw ts strs) None) as (r & E & Hr).
  { unfold file_bytes. apply bytes_ok_app. split; [apply hdr_bytes_ok|]. apply bytes_ok_app. split; [apply types_bytes_ok|done]. }
  { by rewrite length_file_bytes. }
  destruct r as [o|err]; [|exfalso; apply Hr; [done..|]; eauto 10].
  destruct Hr as (sw' & h' & ts' & strs' & Hf' & Ho). destruct (btf_file_unique _ _ _ _ _ _ _ _ _ _ Hf Hf') as (<- & <- & <- & <-).
  exists o. split; [done|]. split; [done|]. destruct Ho as [(pre & post & rest & E1 & E2 & Hp & ->) _ _ _ _ _ _ _ _].
  rewrite length_file_bytes. do 2 f_equal.
  assert (file_bytes sw ts strs = hdr_bytes (hdr_in sw (file_hdr ts strs)) ++ types_bytes sw ts ++ strs) as E3 by (by destruct sw).
  rewrite E3 in E1. apply hdr_bytes_inj in E1 as [_ <-]; [|by apply hdr_ok_in, file_hdr_ok..].
  apply app_inj_1 in E2 as [<- E2]; [|rewrite length_hdr_bytes; cbn in Hp; unfold SIZEOF_HDR in Hp; lia].
  apply app_inv_head in E2 as <-. done.
Qed.

(** What is written when nothing is cached. *)
Lemma get_file (sw : bool) o ts strs : Forall type_wf ts → file_size ts strs < 2 ^ 32 →
  p_hdr (o_parts o) = file_hdr ts strs → p_hdr_tail (o_parts o) = [] →
  (∃ junk, p_types (o_parts o) = types_bytes false ts ++ junk) → (∃ junk, btf_strs_data (o_parts o) = strs ++ junk) →
  idx_rel (p_index (o_parts o)) (offsets 0 ts) →
  (if sw then r_data_swapped (o_raw o) else r_data (o_raw o)) = None →
  btf_get_raw_data true o sw = Some (Some (file_bytes sw ts strs, file_size ts strs)).
Proof.
  intros Hwf Hmax Eh Etl [j1 Et] [j2 Es] Hidx Hnone. unfold btf_get_raw_data. rewrite Hnone, Eh, Et, Es, Etl.
  unfold file_size in *. cbn [file_hdr h_hdr_len h_type_len h_str_len]. unfold SIZEOF_HDR. cbn [negb].
  rewrite wrap_small by (unfold in_u; lia). set (T := types_bytes false ts) in *.
  replace (Z.to_nat (24 + Z.of_nat (length T) + Z.of_nat (length strs))) with (24 + (length T + length strs))%nat by lia.
  rewrite !replicate_add, app_nil_r, take_ge by (by rewrite length_hdr_bytes).
  rewrite (store_app_mid [] (replicate 24 0) _ 0 (hdr_bytes (file_hdr ts strs)) eq_refl eq_refl
    : store (replicate 24 0 ++ _) _ _ = Some (hdr_bytes (file_hdr ts strs) ++ _)).
  cbn [mbind option_bind]. set (H := hdr_bytes (if sw then btf_bswap_hdr (file_hdr ts strs) else file_hdr ts strs)).
  match goal with |- (data ← ?m; _) = _ =>
    replace m with (Some (H ++ replicate (length T) 0 ++ replicate (length strs) 0)) end.
  2:{ destruct sw; [|done]. rewrite hdr_load_bytes by (by apply file_hdr_ok). cbn [mbind option_bind].
      by rewrite (store_app_mid [] (hdr_bytes (file_hdr ts strs)) _ 0 H eq_refl eq_refl
        : store (hdr_bytes (file_hdr ts strs) ++ _) _ _ = Some (H ++ _)). }
  assert (length H = 24%nat) as HH by by unfold H; rewrite length_hdr_bytes.
  cbn [mbind option_bind]. rewrite !Nat2Z.id, (slice_app_mid [] T j1 0 (length T) eq_refl eq_refl : slice (T ++ j1) 0 _ = _).
  cbn [mbind option_bind]. rewrite (store_app_mid H (replicate (length T) 0)) by (rewrite ?length_replicate, ?HH; done).
  cbn [mbind option_bind]. pose proof (proj1 Hidx) as Hnr. rewrite length_offsets in Hnr. rewrite Hnr, Nat2Z.id.
  match goal with |- (data ← ?m; _) = _ =>
    replace m with (Some (Some (H ++ types_bytes sw ts ++ replicate (length strs) 0))) end.
  2:{ destruct sw; [|done]. symmetry. apply (swap_types_spec _ 24 [] H ts); [done|done|by rewrite HH]. }
  cbn [mbind option_bind]. rewrite (slice_app_mid [] strs j2 0 (length strs) eq_refl eq_refl : slice (strs ++ j2) 0 _ = _).
  cbn [mbind option_bind]. rewrite app_assoc.
  pose proof (store_app_mid (H ++ types_bytes sw ts) (replicate (length strs) 0) [] (24 + Z.of_nat (length T)) strs) as Est.
  rewrite !app_nil_r in Est. rewrite Est; [by cbn [mbind option_bind]; rewrite <- app_assoc| |by rewrite length_replicate].
  unfold T. rewrite length_app, HH, (length_types_bytes sw false). lia.
Qed.

Lemma raw_data_get o file : btf_get_raw_data true o (r_swapped_endian (o_raw o)) = Some (Some file) →
  snd <$> btf__raw_data true o = Some (Some file).
Proof. intros E. unfold btf__raw_data. rewrite E. by destruct file. Qed.

(** * Theorems *)

(** C12. Any bytes are parsed without an access outside them, whatever allocations fail; an
    object that is returned holds the types and strings of a BTF file of either byte
    order, and when the allocations succeed every such file gives an object. *)
Theorem btf_new_accepts calloc_ok malloc_ok realloc_ok bytes base :
  bytes_ok bytes → Z.of_nat (length bytes) < 2 ^ 32 →
  ∃ r, btf_new calloc_ok malloc_ok realloc_ok bytes base = Some r ∧
    (∀ o, r = inl o → ∃ sw h ts strs, btf_file sw (bool_decide (is_Some base)) h ts strs bytes ∧
       btf_view o = bv ← base_view base;
         Some (mkBtf ts (l_start_id (links_on base 0)) (l_start_str_off (links_on base 0)) strs bv 0)) ∧
    (calloc_ok = true → malloc_ok = true → (∀ n, realloc_ok n = true) →
       (∃ sw h ts strs, btf_file sw (bool_decide (is_Some base)) h ts strs bytes) → ∃ o, r = inl o).
Proof.
  intros Hb Hmax. destruct (btf_new_outcome calloc_ok malloc_ok realloc_ok bytes base Hb Hmax) as (r & E & Hr).
  exists r. split; [done|]. split.
  - intros o ->. destruct Hr as (sw & h & ts & strs & Hf & Ho). exists sw, h, ts, strs. split; [done|].
    eapply btf_view_of; [done|apply Hf|]. destruct Hf as [(Hh & _) Hs _ _ _].
    apply slice_Some in Hs as (_ & _ & Hl & _). destruct Hh as (_ & _ & _ & _ & _ & _ & _ & H8). unfold word_ok, in_u in H8. lia.
  - intros Hc Hm Hall Hf. destruct r as [o|err]; [by exists o|]. by destruct (Hr Hc Hm Hall).
Qed.

(** C5. Types and strings written to a file of either byte order are read back, and the
    object gives the file again, in the byte order asked for. *)
Theorem btf_file_roundtrip sw ts strs endian :
  Forall type_wf ts → bytes_ok strs → strs_ok false strs → file_size ts strs < 2 ^ 32 →
  endian = BTF_LITTLE_ENDIAN ∨ endian = BTF_BIG_ENDIAN →
  ∃ o, btf_new true true (λ _, true) (file_bytes sw ts strs) None = Some (inl o) ∧
    btf_view o = Some (mkBtf ts 1 0 strs None 0) ∧
    btf__endianness o = (if sw then BTF_BIG_ENDIAN else BTF_LITTLE_ENDIAN) ∧
    (btf__set_endianness o endian).2 = 0 ∧
    snd <$> btf__raw_data true (btf__set_endianness o endian).1 =
      Some (Some (file_bytes (endian =? BTF_BIG_ENDIAN) ts strs, file_size ts strs)).
Proof.
  intros Hts Hb Hs Hmax He. destruct (file_obj sw ts strs Hts Hb Hs Hmax) as (o & E & Ho & Hraw).
  exists o. split; [done|]. split; [exact (btf_view_of _ _ _ _ None _ _ Ho Hts eq_refl)|].
  split; [unfold btf__endianness; rewrite Hraw; by destruct sw|].
  destruct He as [-> | ->].
  - split; [done|]. apply raw_data_get. cbn. by rewrite Hraw.
  - split; [done|]. apply raw_data_get. destruct Ho as [_ _ _ Eh Etl Et Hidx Es _].
    apply (get_file true); cbn -[file_hdr]; try done.
    + by apply Etl.
    + exists []. by rewrite app_nil_r.
    + exists []. unfold btf_strs_data. by rewrite Es, app_nil_r.
    + by rewrite Hraw.
Qed.

Lemma demo_types_wf : Forall type_wf demo_types.
Proof. repeat (constructor; [by split; [repeat (constructor; [done|]); constructor|]|]). constructor. Qed.

Lemma btf_file_roundtrip_witness : ∃ o,
  btf_new true true (λ _, true) (file_bytes true demo_types demo_strs) None = Some (inl o) ∧
  btf_view o = Some (mkBtf demo_types 1 0 demo_strs None 0) ∧
  btf__endianness o = BTF_BIG_ENDIAN ∧ (btf__set_endianness o BTF_LITTLE_ENDIAN).2 = 0 ∧
  snd <$> btf__raw_data true (btf__set_endianness o BTF_LITTLE_ENDIAN).1 =
    Some (Some (file_bytes false demo_types demo_strs, file_size demo_types demo_strs)).
Proof.
  apply (btf_file_roundtrip true demo_types demo_strs BTF_LITTLE_ENDIAN).
  - apply demo_types_wf.
  - apply (bool_decide_unpack (bytes_ok demo_strs)). vm_compute. exact I.
  - right. split_and!; [done|vm_compute; discriminate|vm_compute; reflexivity|done].
  - vm_compute. reflexivity.
  - by left.
Defined.

Lemma btf_new_accepts_witness : ∃ o,
  btf_new true true (λ _, true) (file_bytes true demo_types demo_strs) None = Some (inl o) ∧
  btf_view o = Some (mkBtf demo_types 1 0 demo_strs None 0).
Proof.
  assert (strs_ok false demo_strs) as Hs
    by (right; split_and!; [done|vm_compute; discriminate|vm_compute; reflexivity|done]).
  pose proof (file_bytes_file true demo_types demo_strs demo_types_wf Hs ltac:(vm_compute; reflexivity)) as Hf.
  destruct (btf_new_accepts true true (λ _, true) (file_bytes true demo_types demo_strs) None) as (r & E & H1 & H2).
  - apply (bool_decide_unpack (bytes_ok _)). vm_compute. exact I.
  - vm_compute. reflexivity.
  - destruct (H2 eq_refl eq_refl (λ _, eq_refl)) as [o ->]; [by exists true, (file_hdr demo_types demo_strs), demo_types, demo_strs|].
    exists o. split; [done|]. destruct (H1 o eq_refl) as (sw & h & ts & strs & Hf' & Hv).
    destruct (btf_file_unique _ _ _ _ _ _ _ _ _ _ Hf Hf') as (_ & _ & <- & <-). done.
Defined.

(** A file of the other byte order with a gap before its types: what is written drops the
    gap but keeps the offsets of the header, and is not accepted again. *)
Definition gap_hdr : btf_header :=
  let type_len := Z.of_nat (length (types_bytes true demo_types)) in
  mkHdr BTF_MAGIC BTF_VERSION 0 SIZEOF_HDR 4 type_len (4 + type_len) (Z.of_nat (length demo_strs)).
Definition gap_file : list Z :=
  hdr_bytes (btf_bswap_hdr gap_hdr) ++ [0; 0; 0; 0] ++ types_bytes true demo_types ++ demo_strs.

Definition reparse (bytes : list Z) : option (option btf * option Z) :=
  r ← btf_new true true (λ _, true) bytes None;
  match r with
  | inr _ => None
  | inl o =>
      '(_, w) ← btf__raw_data true o;
      '(data, _) ← w;
      r ← btf_new true true (λ _, true) data None;
      Some (btf_view o, match r with inl _ => None | inr err => Some err end)
  end.

Lemma gap_file_lost : reparse gap_file = Some (Some (mkBtf demo_types 1 0 demo_strs None 0), Some (- EINVAL)).
Proof. vm_compute. reflexivity. Qed.
