(* ===== verification/BtfAdd.v ===== *)
(** Building BTF (src/libbpf/src/btf.c lines 1404-1551 and 1744-2632): making an object
    modifiable, adding strings, types, members, enumerators, parameters and section
    variables.

    The functions are written in a monad of the object's state and of the error
    returned.  A pointer into [types_data] is an offset; a write is a checked store.
    [al] says which allocations succeed; [al n] is for the [n]-th base of the object. *)
From stdpp Require Import base list sets.
From Stdlib Require Import ZArith Lia.
From S2P Require Import Prelude Bytes Mem Errno Hashmap Strset Btf BtfRaw.

#[local] Open Scope Z_scope.

Record allocs := mkAllocs {
  al_hdr : bool; al_types : bool; al_set : bool * bool * bool; al_index : list (bool * bool);
  al_mem : bool; al_str : bool * bool * bool; al_offs : bool; al_map : bool;
}.
Definition al_ok : allocs := mkAllocs true true (true, true, true) [] true (true, true, true) true true.

(** * The monad *)

Definition M (A : Type) : Type := btf_obj → option (btf_obj * (A + Z)).

Definition ret {A} (x : A) : M A := λ o, Some (o, inl x).
Definition fail {A} (err : Z) : M A := λ o, Some (o, inr err).
Definition undef {A} : M A := λ _, None.
Definition bind {A B} (m : M A) (f : A → M B) : M B := λ o,
  '(o, r) ← m o; match r with inl x => f x o | inr err => Some (o, inr err) end.
Definition get : M btf_obj := λ o, Some (o, inl o).
Definition set_parts (p : btf_parts) : M unit := λ o, Some (mkObj (o_raw o) p (o_links o) (o_base o), inl tt).
(** A read that may be undefined. *)
Definition read {A} (x : option A) : M A := match x with Some x => ret x | None => undef end.
(** [if (b) return err;] *)
Definition fail_if (b : bool) (err : Z) : M unit := if b then fail err else ret tt.
(** [if (m) return err;] *)
Definition or_err {A} (m : M A) (err : Z) : M A := λ o,
  '(o, r) ← m o; Some (o, match r with inl x => inl x | inr _ => inr err end).
(** The [int] a function returns. *)
Definition run (m : M Z) (o : btf_obj) : option (btf_obj * Z) :=
  '(o, r) ← m o; Some (o, match r with inl x => x | inr err => err end).

Declare Scope btf_scope.
Notation "x <- m ;; k" := (bind m (λ x, k)) (at level 60, m at level 59, right associativity) : btf_scope.
Notation "m ;;; k" := (bind m (λ _, k)) (at level 60, right associativity) : btf_scope.
#[local] Open Scope btf_scope.

(** * The regions *)

Definition with_hdr (p : btf_parts) (h : btf_header) : btf_parts :=
  mkParts (p_modifiable p) h (p_hdr_tail p) (p_types p) (p_types_cap p) (p_index p) (p_strs p) (p_strs_deduped p).
Definition with_types (p : btf_parts) (types : list Z) (cap : Z) : btf_parts :=
  mkParts (p_modifiable p) (p_hdr p) (p_hdr_tail p) types cap (p_index p) (p_strs p) (p_strs_deduped p).
Definition with_index (p : btf_parts) (ti : type_index) : btf_parts :=
  mkParts (p_modifiable p) (p_hdr p) (p_hdr_tail p) (p_types p) (p_types_cap p) ti (p_strs p) (p_strs_deduped p).
Definition with_set (p : btf_parts) (set : strset) : btf_parts :=
  mkParts (p_modifiable p) (p_hdr p) (p_hdr_tail p) (p_types p) (p_types_cap p) (p_index p) (inr set) (p_strs_deduped p).

Definition hdr_with_str_len (h : btf_header) (n : Z) : btf_header :=
  mkHdr (h_magic h) (h_version h) (h_flags h) (h_hdr_len h) (h_type_off h) (h_type_len h) (h_str_off h) (u32 n).
(** [type_len += sz; str_off += sz;] *)
Definition hdr_grow (h : btf_header) (sz : Z) : btf_header :=
  mkHdr (h_magic h) (h_version h) (h_flags h) (h_hdr_len h) (h_type_off h) (u32 (h_type_len h + sz))
    (u32 (h_str_off h + sz)) (h_str_len h).

Definition btf_is_modifiable (o : btf_obj) : bool := p_modifiable (o_parts o).

Definition btf_invalidate_raw_data : M unit := λ o,
  Some (mkObj (mkRaw None None (r_size (o_raw o)) (r_swapped_endian (o_raw o))) (o_parts o) (o_links o) (o_base o), inl tt).

(** Copying a header shorter than the structure is undefined: its last fields are read
    from the copy. *)
Definition btf_ensure_modifiable (a : allocs) : M unit :=
  o <- get ;;
  if btf_is_modifiable o then btf_invalidate_raw_data
  else
    let p := o_parts o in
    fail_if (negb (al_hdr a) || negb (al_types a)) (- ENOMEM) ;;;
    if h_hdr_len (p_hdr p) <? SIZEOF_HDR then undef
    else
      types <- read (slice (p_types p) 0 (Z.to_nat (h_type_len (p_hdr p)))) ;;
      strs <- read (slice (btf_strs_data p) 0 (Z.to_nat (h_str_len (p_hdr p)))) ;;
      r <- read (strset__new (al_set a) (al_index a) BTF_MAX_STR_OFFSET (Some strs)) ;;
      match r with
      | inr err => fail err
      | inl set =>
          let deduped := p_strs_deduped p || (h_str_len (p_hdr p) =? 0) ||
            (negb (bool_decide (is_Some (o_base o))) && (h_str_len (p_hdr p) =? 1)) in
          set_parts (mkParts true (p_hdr p) (p_hdr_tail p) types (h_type_len (p_hdr p)) (p_index p) (inr set) deduped) ;;;
          btf_invalidate_raw_data
      end.

(** * Strings *)

Definition own_set : M strset :=
  o <- get ;; match p_strs (o_parts o) with inr set => ret set | inl _ => undef end.

(** The part of [btf__find_str] behind the search in the base. *)
Definition find_own_str (a : allocs) (s : list Z) : M Z :=
  or_err (btf_ensure_modifiable a) (- ENOMEM) ;;;
  o <- get ;;
  set <- own_set ;;
  r <- read (strset__find_str (al_str a).1.1 set s) ;;
  let '(set, off) := r in
  set_parts (with_set (o_parts o) set) ;;;
  if off <? 0 then fail off else ret (s32 (l_start_str_off (o_links o) + off)).

Fixpoint btf__find_str (al : nat → allocs) (s : list Z) (o : btf_obj) {struct o} : option (btf_obj * Z) :=
  match o with
  | mkObj r p l None => run (find_own_str (al O) s) (mkObj r p l None)
  | mkObj r p l (Some b) =>
      '(b, off) ← btf__find_str (λ n, al (S n)) s b;
      if negb (off =? - ENOENT) then Some (mkObj r p l (Some b), off)
      else run (find_own_str (al O) s) (mkObj r p l (Some b))
  end.

Definition add_own_str (a : allocs) (s : list Z) : M Z :=
  or_err (btf_ensure_modifiable a) (- ENOMEM) ;;;
  set <- own_set ;;
  r <- read (strset__add_str (al_str a) set s) ;;
  let '(set, off) := r in
  o <- get ;;
  if off <? 0 then set_parts (with_set (o_parts o) set) ;;; fail off
  else
    let p := with_set (o_parts o) set in
    set_parts (with_hdr p (hdr_with_str_len (p_hdr p) (strset__data_size set))) ;;;
    ret (s32 (l_start_str_off (o_links o) + off)).

(** [name_off = btf__add_str(btf, s); if (name_off < 0) return name_off;] *)
Definition btf__add_str (al : nat → allocs) (s : list Z) : M Z :=
  o <- get ;;
  match o_base o with
  | None => add_own_str (al O) s
  | Some b => λ o,
      '(b, off) ← btf__find_str (λ n, al (S n)) s b;
      let o := mkObj (o_raw o) (o_parts o) (o_links o) (Some b) in
      if negb (off =? - ENOENT) then Some (o, if off <? 0 then inr off else inl off)
      else add_own_str (al O) s o
  end.

(** [if (name && name[0]) name_off = btf__add_str(btf, name);] with [name_off = 0] before. *)
Definition name_offset (al : nat → allocs) (name : option (list Z)) : M Z :=
  match name with
  | Some (c :: s) => btf__add_str al (c :: s)
  | _ => ret 0
  end.

(** * Room for types *)

Definition UINT_MAX : Z := 2 ^ 32 - 1.

(** The offset of the room. *)
Definition btf_add_type_mem (a : allocs) (add_sz : Z) : M Z :=
  o <- get ;;
  let p := o_parts o in
  match libbpf_add_mem (al_mem a) (p_types p) (p_types_cap p) 1 (h_type_len (p_hdr p)) UINT_MAX add_sz with
  | None => fail (- ENOMEM)
  | Some (types, cap, off) => set_parts (with_types p types cap) ;;; ret off
  end.

(** Writing words at an offset. *)
Definition put_words (off : Z) (ws : list Z) : M unit :=
  o <- get ;;
  types <- read (store (p_types (o_parts o)) off (words_bytes false (map u32 ws))) ;;
  set_parts (with_types (o_parts o) types (p_types_cap (o_parts o))).

Definition btf_type_info (kind vlen kflag : Z) : Z :=
  u32 (Z.lor (Z.lor (Z.shiftl kflag 31) (Z.shiftl kind 24)) vlen).

Definition grow_sections (sz : Z) : M unit :=
  o <- get ;; set_parts (with_hdr (o_parts o) (hdr_grow (p_hdr (o_parts o)) sz)).

Definition btf_commit_type (a : allocs) (data_sz : Z) : M Z :=
  o <- get ;;
  r <- read (btf_add_type_idx_entry (al_offs a) (p_index (o_parts o)) (h_type_len (p_hdr (o_parts o)))) ;;
  let '(ti, err) := r in
  set_parts (with_index (o_parts o) ti) ;;;
  fail_if (negb (err =? 0)) err ;;;
  grow_sections data_sz ;;;
  o <- get ;;
  let ti := p_index (o_parts o) in
  let ti := mkIndex (ti_offs ti) (ti_cap ti) (u32 (ti_nr ti + 1)) in
  set_parts (with_index (o_parts o) ti) ;;;
  ret (s32 (l_start_id (o_links o) + ti_nr ti - 1)).

(** [btf_ensure_modifiable] and [btf_add_type_mem], as every function begins. *)
Definition make_room (al : nat → allocs) (sz : Z) : M Z :=
  or_err (btf_ensure_modifiable (al O)) (- ENOMEM) ;;;
  or_err (btf_add_type_mem (al O) sz) (- ENOMEM).

(** [!name || !name[0]] *)
Definition no_name (name : option (list Z)) : bool := str_is_empty name.

(** * Adding types *)

Definition BTF_INT_CHAR : Z := 2.
Definition BTF_INT_BOOL : Z := 4.

(** The words of [struct btf_type] and what follows, written at [t] once the name is
    known, and the type made visible. *)
Definition put_type (al : nat → allocs) (t sz : Z) (ws : list Z) : M Z :=
  put_words t ws ;;; btf_commit_type (al O) sz.

Definition power_of_2 (x : Z) : bool := negb (x =? 0) && (Z.land x (x - 1) =? 0).

Definition btf__add_int (al : nat → allocs) (name : option (list Z)) (byte_sz encoding : Z) : M Z :=
  fail_if (no_name name) (- EINVAL) ;;;
  fail_if (negb (power_of_2 byte_sz) || (byte_sz >? 16)) (- EINVAL) ;;;
  fail_if (negb (Z.land encoding (Z.lnot (Z.lor (Z.lor BTF_INT_SIGNED BTF_INT_CHAR) BTF_INT_BOOL)) =? 0)) (- EINVAL) ;;;
  t <- make_room al (SIZEOF_TYPE + 4) ;;
  name_off <- name_offset al name ;;
  put_type al t (SIZEOF_TYPE + 4)
    [name_off; btf_type_info BTF_KIND_INT 0 0; byte_sz; Z.lor (Z.shiftl encoding 24) (byte_sz * 8)].

Definition btf__add_float (al : nat → allocs) (name : option (list Z)) (byte_sz : Z) : M Z :=
  fail_if (no_name name) (- EINVAL) ;;;
  fail_if (negb ((byte_sz =? 2) || (byte_sz =? 4) || (byte_sz =? 8) || (byte_sz =? 12) || (byte_sz =? 16))) (- EINVAL) ;;;
  t <- make_room al SIZEOF_TYPE ;;
  name_off <- name_offset al name ;;
  put_type al t SIZEOF_TYPE [name_off; btf_type_info BTF_KIND_FLOAT 0 0; byte_sz].

Definition validate_type_id (id : Z) : Z := if (id <? 0) || (id >? BTF_MAX_NR_TYPES) then - EINVAL else 0.
Definition bad_id (id : Z) : bool := negb (validate_type_id id =? 0).

Definition btf_add_ref_kind (al : nat → allocs) (kind : Z) (name : option (list Z)) (ref_type_id : Z) : M Z :=
  fail_if (bad_id ref_type_id) (- EINVAL) ;;;
  t <- make_room al SIZEOF_TYPE ;;
  name_off <- name_offset al name ;;
  put_type al t SIZEOF_TYPE [name_off; btf_type_info kind 0 0; ref_type_id].

Definition btf__add_ptr (al : nat → allocs) (ref_type_id : Z) : M Z := btf_add_ref_kind al BTF_KIND_PTR None ref_type_id.
Definition btf__add_volatile (al : nat → allocs) (ref_type_id : Z) : M Z :=
  btf_add_ref_kind al BTF_KIND_VOLATILE None ref_type_id.
Definition btf__add_const (al : nat → allocs) (ref_type_id : Z) : M Z :=
  btf_add_ref_kind al BTF_KIND_CONST None ref_type_id.
Definition btf__add_restrict (al : nat → allocs) (ref_type_id : Z) : M Z :=
  btf_add_ref_kind al BTF_KIND_RESTRICT None ref_type_id.
Definition btf__add_typedef (al : nat → allocs) (name : option (list Z)) (ref_type_id : Z) : M Z :=
  fail_if (no_name name) (- EINVAL) ;;; btf_add_ref_kind al BTF_KIND_TYPEDEF name ref_type_id.
Definition btf__add_type_tag (al : nat → allocs) (value : option (list Z)) (ref_type_id : Z) : M Z :=
  fail_if (no_name value) (- EINVAL) ;;; btf_add_ref_kind al BTF_KIND_TYPE_TAG value ref_type_id.

Definition btf__add_array (al : nat → allocs) (index_type_id elem_type_id nr_elems : Z) : M Z :=
  fail_if (bad_id index_type_id || bad_id elem_type_id) (- EINVAL) ;;;
  t <- make_room al (SIZEOF_TYPE + 12) ;;
  put_type al t (SIZEOF_TYPE + 12)
    [0; btf_type_info BTF_KIND_ARRAY 0 0; 0; elem_type_id; index_type_id; nr_elems].

Definition btf_add_composite (al : nat → allocs) (kind : Z) (name : option (list Z)) (bytes_sz : Z) : M Z :=
  t <- make_room al SIZEOF_TYPE ;;
  name_off <- name_offset al name ;;
  put_type al t SIZEOF_TYPE [name_off; btf_type_info kind 0 0; bytes_sz].
Definition btf__add_struct (al : nat → allocs) (name : option (list Z)) (byte_sz : Z) : M Z :=
  btf_add_composite al BTF_KIND_STRUCT name byte_sz.
Definition btf__add_union (al : nat → allocs) (name : option (list Z)) (byte_sz : Z) : M Z :=
  btf_add_composite al BTF_KIND_UNION name byte_sz.

Definition btf_add_enum_common (al : nat → allocs) (name : option (list Z)) (byte_sz : Z) (is_signed : bool) (kind : Z) : M Z :=
  fail_if (negb (power_of_2 byte_sz) || (byte_sz >? 8)) (- EINVAL) ;;;
  t <- make_room al SIZEOF_TYPE ;;
  name_off <- name_offset al name ;;
  put_type al t SIZEOF_TYPE [name_off; btf_type_info kind 0 (if is_signed then 1 else 0); byte_sz].
Definition btf__add_enum (al : nat → allocs) (name : option (list Z)) (byte_sz : Z) : M Z :=
  btf_add_enum_common al name byte_sz false BTF_KIND_ENUM.
Definition btf__add_enum64 (al : nat → allocs) (name : option (list Z)) (byte_sz : Z) (is_signed : bool) : M Z :=
  btf_add_enum_common al name byte_sz is_signed BTF_KIND_ENUM64.

(** The offset of the type [id] of this object ([btf_type_by_id]), and of the last one. *)
Definition type_ptr (id : Z) : M Z :=
  o <- get ;; read (type_off_at (p_index (o_parts o)) (id - l_start_id (o_links o))).
Definition btf_last_type : M Z := o <- get ;; type_ptr (u32 (obj_type_cnt o - 1)).
(** What it points to. *)
Definition deref (t : Z) : M btf_type := o <- get ;; read (type_load (p_types (o_parts o)) t).
(** [t->info = ...] *)
Definition put_info (t info : Z) : M unit := put_words (t + 4) [info].

Definition BTF_FWD_STRUCT : Z := 0.
Definition BTF_FWD_UNION : Z := 1.
Definition BTF_FWD_ENUM : Z := 2.

Definition btf__add_fwd (al : nat → allocs) (name : option (list Z)) (fwd_kind : Z) : M Z :=
  fail_if (no_name name) (- EINVAL) ;;;
  if (fwd_kind =? BTF_FWD_STRUCT) || (fwd_kind =? BTF_FWD_UNION) then
    id <- btf_add_ref_kind al BTF_KIND_FWD name 0 ;;
    if id <=? 0 then ret id
    else
      t <- type_ptr id ;;
      put_info t (btf_type_info BTF_KIND_FWD 0 (if fwd_kind =? BTF_FWD_UNION then 1 else 0)) ;;;
      ret id
  else if fwd_kind =? BTF_FWD_ENUM then btf__add_enum al name 4
  else fail (- EINVAL).

Definition BTF_FUNC_STATIC : Z := 0.
Definition BTF_FUNC_GLOBAL : Z := 1.
Definition BTF_FUNC_EXTERN : Z := 2.

Definition btf__add_func (al : nat → allocs) (name : option (list Z)) (linkage proto_type_id : Z) : M Z :=
  fail_if (no_name name) (- EINVAL) ;;;
  fail_if (negb (linkage =? BTF_FUNC_STATIC) && negb (linkage =? BTF_FUNC_GLOBAL) && negb (linkage =? BTF_FUNC_EXTERN))
    (- EINVAL) ;;;
  id <- btf_add_ref_kind al BTF_KIND_FUNC name proto_type_id ;;
  if id >? 0 then
    t <- type_ptr id ;;
    put_info t (btf_type_info BTF_KIND_FUNC linkage 0) ;;;
    ret id
  else ret id.

Definition btf__add_func_proto (al : nat → allocs) (ret_type_id : Z) : M Z :=
  fail_if (bad_id ret_type_id) (- EINVAL) ;;;
  t <- make_room al SIZEOF_TYPE ;;
  put_type al t SIZEOF_TYPE [0; btf_type_info BTF_KIND_FUNC_PROTO 0 0; ret_type_id].

Definition BTF_VAR_STATIC : Z := 0.
Definition BTF_VAR_GLOBAL_ALLOCATED : Z := 1.
Definition BTF_VAR_GLOBAL_EXTERN : Z := 2.

Definition btf__add_var (al : nat → allocs) (name : option (list Z)) (linkage type_id : Z) : M Z :=
  fail_if (no_name name) (- EINVAL) ;;;
  fail_if (negb (linkage =? BTF_VAR_STATIC) && negb (linkage =? BTF_VAR_GLOBAL_ALLOCATED) &&
           negb (linkage =? BTF_VAR_GLOBAL_EXTERN)) (- EINVAL) ;;;
  fail_if (bad_id type_id) (- EINVAL) ;;;
  t <- make_room al (SIZEOF_TYPE + 4) ;;
  name_off <- name_offset al name ;;
  put_type al t (SIZEOF_TYPE + 4) [name_off; btf_type_info BTF_KIND_VAR 0 0; type_id; linkage].

Definition btf__add_datasec (al : nat → allocs) (name : option (list Z)) (byte_sz : Z) : M Z :=
  fail_if (no_name name) (- EINVAL) ;;;
  t <- make_room al SIZEOF_TYPE ;;
  name_off <- name_offset al name ;;
  put_type al t SIZEOF_TYPE [name_off; btf_type_info BTF_KIND_DATASEC 0 0; byte_sz].

Definition btf__add_decl_tag (al : nat → allocs) (value : option (list Z)) (ref_type_id component_idx : Z) : M Z :=
  fail_if (no_name value || (component_idx <? -1)) (- EINVAL) ;;;
  fail_if (bad_id ref_type_id) (- EINVAL) ;;;
  t <- make_room al (SIZEOF_TYPE + 4) ;;
  value_off <- name_offset al value ;;
  put_type al t (SIZEOF_TYPE + 4) [value_off; btf_type_info BTF_KIND_DECL_TAG 0 0; ref_type_id; component_idx].

(** * Adding to the last type *)

(** [if (btf->nr_types == 0) return -EINVAL; t = btf_last_type(btf);] and the test of its kind. *)
Definition last_of (kind_ok : btf_type → bool) : M btf_type :=
  o <- get ;;
  fail_if (ti_nr (p_index (o_parts o)) =? 0) (- EINVAL) ;;;
  t <- btf_last_type ;;
  t <- deref t ;;
  fail_if (negb (kind_ok t)) (- EINVAL) ;;;
  ret t.

(** Behind the words of a new item: the parent is found again and its info changed. *)
Definition finish_item (sz : Z) (info : btf_type → Z) : M Z :=
  t <- btf_last_type ;;
  ty <- deref t ;;
  put_info t (info ty) ;;;
  grow_sections sz ;;;
  ret 0.

Definition kflag_Z (t : btf_type) : Z := if btf_kflag t then 1 else 0.
(** [btf_type_inc_vlen] *)
Definition btf_type_inc_vlen (t : btf_type) : Z := btf_type_info (btf_kind t) (btf_vlen t + 1) (kflag_Z t).

Definition btf__add_field (al : nat → allocs) (name : option (list Z)) (type_id bit_offset bit_size : Z) : M Z :=
  t <- last_of btf_is_composite ;;
  fail_if (bad_id type_id) (- EINVAL) ;;;
  let is_bitfield := negb (bit_size =? 0) || negb (bit_offset mod 8 =? 0) in
  fail_if (is_bitfield && ((bit_size =? 0) || (bit_size >? 255) || (bit_offset >? 0xffffff))) (- EINVAL) ;;;
  fail_if ((btf_kind t =? BTF_KIND_UNION) && negb (bit_offset =? 0)) (- EINVAL) ;;;
  m <- make_room al 12 ;;
  name_off <- name_offset al name ;;
  put_words m [name_off; type_id; Z.lor bit_offset (Z.shiftl bit_size 24)] ;;;
  finish_item 12 (λ t, btf_type_info (btf_kind t) (btf_vlen t + 1) (if is_bitfield || btf_kflag t then 1 else 0)).


Definition btf__add_enum_value (al : nat → allocs) (name : option (list Z)) (value : Z) : M Z :=
  last_of btf_is_enum ;;;
  fail_if (no_name name) (- EINVAL) ;;;
  fail_if ((value <? INT_MIN) || (value >? UINT_MAX)) (- E2BIG) ;;;
  v <- make_room al 8 ;;
  name_off <- name_offset al name ;;
  put_words v [name_off; value] ;;;
  finish_item 8 (λ t,
    let t := mkType (bt_name_off t) (btf_type_inc_vlen t) (bt_size t) [] in
    if value <? 0 then btf_type_info (btf_kind t) (btf_vlen t) 1 else bt_info t).

Definition btf__add_enum64_value (al : nat → allocs) (name : option (list Z)) (value : Z) : M Z :=
  last_of btf_is_enum64 ;;;
  fail_if (no_name name) (- EINVAL) ;;;
  v <- make_room al 12 ;;
  name_off <- name_offset al name ;;
  put_words v [name_off; value; Z.shiftr value 32] ;;;
  finish_item 12 btf_type_inc_vlen.

Definition btf__add_func_param (al : nat → allocs) (name : option (list Z)) (type_id : Z) : M Z :=
  fail_if (bad_id type_id) (- EINVAL) ;;;
  last_of (λ t, btf_kind t =? BTF_KIND_FUNC_PROTO) ;;;
  p <- make_room al 8 ;;
  name_off <- name_offset al name ;;
  put_words p [name_off; type_id] ;;;
  finish_item 8 btf_type_inc_vlen.

Definition btf__add_datasec_var_info (al : nat → allocs) (var_type_id offset byte_sz : Z) : M Z :=
  last_of (λ t, btf_kind t =? BTF_KIND_DATASEC) ;;;
  fail_if (bad_id var_type_id) (- EINVAL) ;;;
  v <- make_room al 12 ;;
  put_words v [var_type_id; offset; byte_sz] ;;;
  finish_item 12 btf_type_inc_vlen.
