(* ===== verification/BtfStore.v ===== *)
(** The state of a BTF object that is being built: which types and strings it holds, and
    what the steps of the functions of BtfAdd.v do to it (making it modifiable, room for
    a type, a name, the words, the commit and the item behind the last type). *)
From stdpp Require Import base list sets strings.
From Stdlib Require Import ZArith Lia.
From S2P Require Import Prelude Bytes Mem Errno Hashmap Strset Btf BtfRaw BtfFile BtfAdd.

#[local] Open Scope Z_scope.
#[local] Open Scope btf_scope.

(** * Triples: from [P] the computation returns, without an error, and leaves [Q] *)

Definition triple {A} (P : btf_obj → Prop) (m : M A) (Q : A → btf_obj → Prop) : Prop :=
  ∀ o, P o → ∃ o' x, m o = Some (o', inl x) ∧ Q x o'.

Lemma triple_ret {A} (x : A) P : triple P (ret x) (λ y o, y = x ∧ P o).
Proof. intros o Ho. by exists o, x. Qed.

Lemma triple_bind {A B} P (m : M A) Q (f : A → M B) R :
  triple P m Q → (∀ x, triple (Q x) (f x) R) → triple P (bind m f) R.
Proof.
  intros Hm Hf o Ho. destruct (Hm o Ho) as (o' & x & E & Hq). destruct (Hf x o' Hq) as (o2 & y & E2 & Hr).
  exists o2, y. split; [|done]. unfold bind. rewrite E. done.
Qed.

Lemma triple_weaken {A} (P P' : btf_obj → Prop) (m : M A) (Q Q' : A → btf_obj → Prop) :
  triple P' m Q' → (∀ o, P o → P' o) → (∀ x o, Q' x o → Q x o) → triple P m Q.
Proof. intros H HP HQ o Ho. destruct (H o (HP o Ho)) as (o' & x & E & Hq). exists o', x. auto. Qed.

Lemma triple_pure {A} (φ : Prop) P (m : M A) Q : (φ → triple P m Q) → triple (λ o, φ ∧ P o) m Q.
Proof. intros H o [Hφ Ho]. exact (H Hφ o Ho). Qed.

Lemma triple_get P {A} (f : btf_obj → M A) Q : (∀ o, P o → triple (λ o', o' = o ∧ P o) (f o) Q) → triple P (bind get f) Q.
Proof. intros H o Ho. destruct (H o Ho o (conj eq_refl Ho)) as (o' & x & E & Hq). by exists o', x. Qed.

Lemma triple_read {A} P (x : A) (e : option A) : e = Some x → triple P (read e) (λ y o, y = x ∧ P o).
Proof. intros ->. apply triple_ret. Qed.

Lemma triple_or_err {A} P (m : M A) err Q : triple P m Q → triple P (or_err m err) Q.
Proof.
  intros H o Ho. destruct (H o Ho) as (o' & x & E & Hq). exists o', x. split; [|done]. unfold or_err. by rewrite E.
Qed.

Lemma triple_run P (m : M Z) Q o : triple P m Q → P o → ∃ o' x, run m o = Some (o', x) ∧ Q x o'.
Proof. intros H Ho. destruct (H o Ho) as (o' & x & E & Hq). exists o', x. split; [|done]. unfold run. by rewrite E. Qed.

(** * The info word *)

Lemma info_fields t kind vlen kflag : 0 ≤ kind < 32 → 0 ≤ vlen < 65536 → kflag = 0 ∨ kflag = 1 →
  bt_info t = btf_type_info kind vlen kflag →
  btf_kind t = kind ∧ btf_vlen t = vlen ∧ btf_kflag t = (kflag =? 1).
Proof.
  intros Hk Hv Hf. unfold btf_kind, btf_vlen, btf_kflag. intros ->.
  assert (btf_type_info kind vlen kflag = kflag * 2 ^ 31 + kind * 2 ^ 24 + vlen) as ->.
  { unfold btf_type_info.
    rewrite <- Z.lor_assoc, (lor_shift kind vlen 24), lor_shift by lia.
    rewrite wrap_small; [lia|]. unfold in_u. destruct Hf as [-> | ->]; lia. }
  rewrite !Z.shiftr_div_pow2 by lia. change 31 with (Z.ones 5) at 2. change 65535 with (Z.ones 16).
  rewrite !Z.land_ones by lia.
  destruct Hf as [-> | ->]; split_and!; try lia; try (Z.to_euclidean_division_equations; lia).
Qed.

(** * The objects that hold given types and strings *)

(** A modifiable object: the regions have room behind what they hold; [pend] is what was
    written behind the types and is not visible yet. *)
Record parts_rel (p : btf_parts) (ts : list btf_type) (ss : list (list Z)) (pend : list Z) : Prop := {
  pr_mod : p_modifiable p = true;
  pr_hdr : p_hdr p = file_hdr ts (strs_bytes ss);
  pr_tail : p_hdr_tail p = [];
  pr_types : ∃ junk, p_types p = types_bytes false ts ++ pend ++ junk;
  pr_cap : Z.of_nat (length (p_types p)) = p_types_cap p ∧ p_types_cap p ≤ UINT_MAX;
  pr_index : idx_rel (p_index p) (offsets 0 ts);
  pr_set : ∃ set, p_strs p = inr set ∧ strset_rel set ss ∧ strs_data_max_len set = BTF_MAX_STR_OFFSET;
}.

Definition store_ok (ts : list btf_type) (ss : list (list Z)) : Prop :=
  Forall type_wf ts ∧ Forall nonul ss ∧ Forall bytes_ok ss ∧ head ss = Some [] ∧ file_size ts (strs_bytes ss) < 2 ^ 31.

(** An object without a base. *)
Definition alone (o : btf_obj) : Prop :=
  o_base o = None ∧ l_start_id (o_links o) = 1 ∧ l_start_str_off (o_links o) = 0.

(** An object that is being modified. *)
Definition holding (ts : list btf_type) (ss : list (list Z)) (pend : list Z) (o : btf_obj) : Prop :=
  alone o ∧ r_data (o_raw o) = None ∧ r_data_swapped (o_raw o) = None ∧ store_ok ts ss ∧ parts_rel (o_parts o) ts ss pend.

Definition room (ts : list btf_type) (ss : list (list Z)) (n : Z) (o : btf_obj) : Prop :=
  ∃ pend, Z.of_nat (length pend) = n ∧ holding ts ss pend o.

(** The regions of an object that was read from a file or is new. *)
Record raw_rel (p : btf_parts) (ts : list btf_type) (ss : list (list Z)) : Prop := {
  rr_mod : p_modifiable p = false;
  rr_hdr : p_hdr p = file_hdr ts (strs_bytes ss);
  rr_tail : p_hdr_tail p = [];
  rr_types : p_types p = types_bytes false ts;
  rr_index : idx_rel (p_index p) (offsets 0 ts);
  rr_strs : p_strs p = inl (strs_bytes ss);
}.

(** What is cached is the file of the types and strings. *)
Definition cache_ok (r : btf_raw) (ts : list btf_type) (ss : list (list Z)) : Prop :=
  (r_data r = None ∨ r_data r = Some (file_bytes false ts (strs_bytes ss)) ∧ r_size r = file_size ts (strs_bytes ss)) ∧
  (r_data_swapped r = None ∨
   r_data_swapped r = Some (file_bytes true ts (strs_bytes ss)) ∧ r_size r = file_size ts (strs_bytes ss)).

Definition built (ts : list btf_type) (ss : list (list Z)) (o : btf_obj) : Prop :=
  alone o ∧ store_ok ts ss ∧ (parts_rel (o_parts o) ts ss [] ∨ raw_rel (o_parts o) ts ss) ∧ cache_ok (o_raw o) ts ss.

Lemma holding_built ts ss o : holding ts ss [] o → built ts ss o.
Proof. intros (Ha & H1 & H2 & Hs & Hp). split_and!; [done|done|by left|]. split; by left. Qed.

(** * The steps *)

Lemma triple_invalidate ts ss o : built ts ss o → parts_rel (o_parts o) ts ss [] →
  ∃ o', btf_invalidate_raw_data o = Some (o', inl tt) ∧ holding ts ss [] o'.
Proof. intros (Ha & Hs & _ & _) Hp. eexists. split; [done|]. by split_and!. Qed.

Lemma triple_ensure ts ss : triple (built ts ss) (btf_ensure_modifiable al_ok) (λ _, holding ts ss []).
Proof.
  intros o Hb. pose proof Hb as (Ha & Hs & Hp & _). unfold btf_ensure_modifiable, bind at 1, get. cbn [mbind option_bind].
  unfold btf_is_modifiable. destruct Hp as [Hp|Hp].
  - rewrite (pr_mod _ _ _ _ Hp). destruct (triple_invalidate ts ss o Hb Hp) as (o' & -> & ?). by eexists o', tt.
  - destruct Hp as [Hm Hh Htl Ht Hi Hst]. rewrite Hm, Hh. cbn [al_hdr al_types al_ok negb orb fail_if].
    unfold btf_strs_data. rewrite Hst, Ht. cbn [file_hdr h_type_len h_str_len h_hdr_len]. rewrite !Nat2Z.id, !slice_all.
    destruct Hs as (Hwf & Hnn & Hbs & Hhd & Hsz). unfold file_size in Hsz.
    destruct (strset_new_rel BTF_MAX_STR_OFFSET ss Hnn) as (set & Hset & Hrel & Hmax).
    { unfold BTF_MAX_STR_OFFSET, INT_MAX. lia. }
    unfold bind, read, ret, fail_if. cbn [mbind option_bind]. change (al_set al_ok) with (true, true, true). cbn [al_index al_ok].
    rewrite Z.ltb_irrefl. rewrite Hset. cbn [mbind option_bind]. unfold set_parts, btf_invalidate_raw_data. cbn [mbind option_bind o_raw o_parts o_links o_base].
    eexists _, tt. split; [done|]. split_and!; try done. split; cbn [o_parts p_modifiable p_hdr p_hdr_tail p_types p_types_cap p_index p_strs]; try done.
    + exists []. by rewrite !app_nil_r.
    + split; [done|]. unfold UINT_MAX. lia.
    + by exists set.
Qed.

Lemma triple_add_mem ts ss sz : 0 ≤ sz → file_size ts (strs_bytes ss) + sz < 2 ^ 32 →
  triple (holding ts ss []) (btf_add_type_mem al_ok sz)
    (λ off o, off = Z.of_nat (length (types_bytes false ts)) ∧ room ts ss sz o).
Proof.
  intros H0 Hmax o (Ha & H1 & H2 & Hs & [Hm Hh Htl [junk Ht] [Hc Hcm] Hi Hst]).
  unfold btf_add_type_mem, bind, get. cbn [mbind option_bind]. rewrite Hh. cbn [file_hdr h_type_len].
  unfold file_size in Hmax. unfold UINT_MAX in *. cbn [app] in Ht.
  pose proof (add_mem_spec (p_types (o_parts o)) (p_types_cap (o_parts o)) 1 (Z.of_nat (length (types_bytes false ts))) (2 ^ 32 - 1) sz) as H.
  rewrite Ht, length_app in H. rewrite Ht, length_app in Hc.
  specialize (H ltac:(lia) ltac:(lia) ltac:(lia) ltac:(lia) ltac:(lia) ltac:(Z.to_euclidean_division_equations; lia) ltac:(done) ltac:(lia)).
  destruct (Z.leb_spec (Z.of_nat (length (types_bytes false ts)) + sz) (2 ^ 32 - 1)); [|lia].
  destruct H as (data & cap & E & Hl & Hcap & Hroom & Hd). rewrite Ht. cbn [al_mem al_ok]. rewrite E.
  unfold set_parts, ret. cbn [mbind option_bind]. eexists _, _. split; [done|]. split; [lia|].
  rewrite <- app_assoc in Hd. set (junk' := junk ++ replicate _ 0) in *.
  assert (Z.to_nat sz ≤ length junk')%nat as Hj.
  { apply (f_equal length) in Hd. rewrite length_app in Hd. lia. }
  exists (take (Z.to_nat sz) junk'). split; [rewrite length_take; lia|]. split_and!; try done.
  split; cbn [o_parts with_types p_modifiable p_hdr p_hdr_tail p_types p_types_cap p_index p_strs]; try done.
  - exists (drop (Z.to_nat sz) junk'). by rewrite take_drop.
  - unfold UINT_MAX. lia.
Qed.

Definition al_all : nat → allocs := λ _, al_ok.

Lemma triple_make_room ts ss sz : 0 ≤ sz → file_size ts (strs_bytes ss) + sz < 2 ^ 32 →
  triple (built ts ss) (make_room al_all sz) (λ off o, off = Z.of_nat (length (types_bytes false ts)) ∧ room ts ss sz o).
Proof.
  intros H0 Hmax. unfold make_room. eapply triple_bind; [apply triple_or_err, triple_ensure|].
  intros []. by apply triple_or_err, triple_add_mem.
Qed.

(** The strings with one added, and its offset: the first occurrence of the string, or
    the end of the strings when it is new. *)
Definition intern_str (ss : list (list Z)) (s : list Z) : list (list Z) * Z :=
  (if decide (s ∈ ss) then ss else ss ++ [s], default (Z.of_nat (length (strs_bytes ss))) (str_off ss s)).
(** No name and the empty one have offset 0. *)
Definition intern (ss : list (list Z)) (name : option (list Z)) : list (list Z) * Z :=
  match name with Some ((_ :: _) as s) => intern_str ss s | _ => (ss, 0) end.

Definition name_len (name : option (list Z)) : Z := match name with Some s => Z.of_nat (length s) + 1 | None => 0 end.
Definition name_ok (name : option (list Z)) : Prop := match name with Some s => nonul s ∧ bytes_ok s | None => True end.

Lemma length_strs_snoc ss s : length (strs_bytes (ss ++ [s])) = (length (strs_bytes ss) + length s + 1)%nat.
Proof. rewrite strs_bytes_app, length_app. cbn. rewrite app_nil_r, length_app. cbn. lia. Qed.

Lemma intern_str_store ts ss s : store_ok ts ss → nonul s → bytes_ok s →
  file_size ts (strs_bytes ss) + (Z.of_nat (length s) + 1) < 2 ^ 31 →
  store_ok ts (intern_str ss s).1 ∧ 0 ≤ (intern_str ss s).2 < 2 ^ 31 ∧
  file_size ts (strs_bytes (intern_str ss s).1) ≤ file_size ts (strs_bytes ss) + (Z.of_nat (length s) + 1).
Proof.
  intros (Hwf & Hnn & Hbs & Hhd & Hsz) Hn1 Hn2 Hmax. unfold intern_str. cbn [fst snd]. unfold file_size in *.
  assert (0 ≤ default (Z.of_nat (length (strs_bytes ss))) (str_off ss s) < 2 ^ 31) as Ho.
  { destruct (str_off ss s) as [o|] eqn:E; cbn [from_option id]; [apply str_off_bound in E|]; lia. }
  destruct (decide (s ∈ ss)); [split; [done|lia]|].
  rewrite length_strs_snoc. split; [|split; [done|lia]]. split_and!.
  - done.
  - by apply Forall_app; split; [|constructor].
  - by apply Forall_app; split; [|constructor].
  - by destruct ss.
  - unfold file_size. rewrite length_strs_snoc. lia.
Qed.

Lemma intern_store ts ss name : store_ok ts ss → name_ok name → file_size ts (strs_bytes ss) + name_len name < 2 ^ 31 →
  store_ok ts (intern ss name).1 ∧ 0 ≤ (intern ss name).2 < 2 ^ 31 ∧
  file_size ts (strs_bytes (intern ss name).1) ≤ file_size ts (strs_bytes ss) + name_len name.
Proof.
  intros Hs Hn Hmax. unfold intern. destruct name as [[|c s]|]; cbn [name_len] in *; try (cbn [fst snd length]; split; [done|lia]).
  by apply intern_str_store; [|apply Hn..|].
Qed.

(** A modifiable object stays as it is. *)
Lemma ensure_room ts ss n o : room ts ss n o → or_err (btf_ensure_modifiable al_ok) (- ENOMEM) o = Some (o, inl tt).
Proof.
  intros (pend & _ & _ & H1 & H2 & _ & Hp). unfold or_err, btf_ensure_modifiable, bind, get. cbn [mbind option_bind].
  unfold btf_is_modifiable. rewrite (pr_mod _ _ _ _ Hp). unfold btf_invalidate_raw_data. cbn [mbind option_bind].
  destruct o as [[? ? ? ?] p l b]. cbn in *. by subst.
Qed.

Lemma bind_eq {A B} (m : M A) (f : A → M B) o o' x : m o = Some (o', inl x) → bind m f o = f x o'.
Proof. intros E. unfold bind. by rewrite E. Qed.

(** The types and the index are where they were. *)
Definition same_types (o o' : btf_obj) : Prop :=
  p_types (o_parts o') = p_types (o_parts o) ∧ p_types_cap (o_parts o') = p_types_cap (o_parts o) ∧
  p_index (o_parts o') = p_index (o_parts o).

Lemma add_str_frame ts ss pend s o : nonul s → bytes_ok s →
  file_size ts (strs_bytes ss) + (Z.of_nat (length s) + 1) < 2 ^ 31 → holding ts ss pend o →
  ∃ o', btf__add_str al_all s o = Some (o', inl (intern_str ss s).2) ∧
    holding ts (intern_str ss s).1 pend o' ∧ same_types o o'.
Proof.
  intros Hn Hn2 Hmax Hhold. assert (room ts ss (Z.of_nat (length pend)) o) as Hroom by by exists pend.
  pose proof (ensure_room _ _ _ _ Hroom) as Hens.
  destruct Hhold as (Ha & H1 & H2 & Hs & Hp). pose proof Ha as (Hb & Hid & Hoff).
  destruct (intern_str_store ts ss s Hs Hn Hn2 Hmax) as (Hs' & Ho & Hsz).
  destruct Hp as [Hm Hh Htl Ht Hc Hi (set & Hset & Hrel & Hml)].
  destruct (add_str_rel set ss s Hrel Hn) as (set' & E & Hrel' & Hml' & _).
  { rewrite (sr_len _ _ Hrel), Hml. unfold file_size in Hmax. unfold BTF_MAX_STR_OFFSET. lia. }
  rewrite (sr_len _ _ Hrel) in E.
  unfold btf__add_str. rewrite (bind_eq get _ o o o eq_refl), Hb. unfold add_own_str, al_all. rewrite (bind_eq _ _ _ _ _ Hens).
  rewrite (bind_eq own_set _ o o set) by (unfold own_set; rewrite (bind_eq get _ o o o eq_refl); by rewrite Hset).
  change (al_str al_ok) with (true, true, true). rewrite E. rewrite (bind_eq (read (Some _)) _ o o _ eq_refl).
  rewrite (bind_eq get _ o o o eq_refl). unfold intern_str in Ho, Hs', Hsz |- *. cbn [fst snd] in Ho, Hs', Hsz |- *.
  destruct (Z.ltb_spec (default (Z.of_nat (length (strs_bytes ss))) (str_off ss s)) 0); [lia|].
  unfold bind, set_parts, ret. cbn [mbind option_bind o_links o_parts]. rewrite Hoff.
  rewrite swrap_small by lia. rewrite Z.add_0_l. eexists. split; [done|]. split; [|done].
  split_and!; try done.
  split; cbn [o_parts with_set with_hdr p_modifiable p_hdr p_hdr_tail p_types p_types_cap p_index p_strs]; try done.
  - rewrite Hh. unfold hdr_with_str_len, file_hdr, strset__data_size.
    cbn [h_magic h_version h_flags h_hdr_len h_type_off h_type_len h_str_off h_str_len]. rewrite (sr_len _ _ Hrel').
    rewrite wrap_small; [done|]. destruct Hs' as (_ & _ & _ & _ & Hs'). unfold file_size in Hs'. unfold in_u. lia.
  - exists set'. split; [done|]. split; [done|congruence].
Qed.

Lemma triple_add_str ts ss n s : nonul s → bytes_ok s → file_size ts (strs_bytes ss) + (Z.of_nat (length s) + 1) < 2 ^ 31 →
  triple (room ts ss n) (btf__add_str al_all s) (λ off o, off = (intern_str ss s).2 ∧ room ts (intern_str ss s).1 n o).
Proof.
  intros Hn Hn2 Hmax o (pend & Hpend & H). destruct (add_str_frame ts ss pend s o Hn Hn2 Hmax H) as (o' & E & H' & _).
  exists o', (intern_str ss s).2. split; [done|]. split; [done|]. by exists pend.
Qed.

Lemma triple_name ts ss n name : name_ok name → file_size ts (strs_bytes ss) + name_len name < 2 ^ 31 →
  triple (room ts ss n) (name_offset al_all name) (λ off o, off = (intern ss name).2 ∧ room ts (intern ss name).1 n o).
Proof.
  intros Hn Hmax. unfold name_offset. destruct name as [[|c s]|]; [apply triple_ret| |apply triple_ret].
  destruct Hn. by apply triple_add_str.
Qed.

Lemma words_ok_u32 ws : words_ok (map u32 ws).
Proof. induction ws; constructor; [apply wrap_range; lia|done]. Qed.

(** Writing into what is pending. *)
Lemma triple_put ts ss n off ws : off = Z.of_nat (length (types_bytes false ts)) → n = 4 * Z.of_nat (length ws) →
  triple (room ts ss n) (put_words off ws) (λ _, holding ts ss (words_bytes false (map u32 ws))).
Proof.
  intros -> -> o (pend & Hpend & Ha & H1 & H2 & Hs & [Hm Hh Htl [junk Ht] Hc Hi Hst]).
  unfold put_words, bind at 1, get. cbn [mbind option_bind]. rewrite Ht. unfold bind at 1.
  assert (length pend = length (words_bytes false (map u32 ws))) as Hl by (rewrite length_words_bytes, length_map; lia).
  rewrite (store_app_mid (types_bytes false ts)) by done. unfold read, ret. cbn [mbind option_bind].
  eexists _, tt. split; [done|]. split_and!; try done.
  split; cbn [o_parts with_types p_modifiable p_hdr p_hdr_tail p_types p_types_cap p_index p_strs]; try done.
  - by exists junk.
  - rewrite Ht in Hc. rewrite !length_app in Hc |- *. by rewrite <- Hl.
Qed.

Lemma types_bytes_app sw a b : types_bytes sw (a ++ b) = types_bytes sw a ++ types_bytes sw b.
Proof. apply flat_map_app. Qed.

Lemma types_bytes_snoc sw ts t : types_bytes sw (ts ++ [t]) = types_bytes sw ts ++ words_bytes sw (type_words t).
Proof. rewrite types_bytes_app. unfold types_bytes at 2. cbn [flat_map]. by rewrite app_nil_r. Qed.

Lemma offsets_app off a b : offsets off (a ++ b) = offsets off a ++ offsets (off + foldr (λ t n, btf_type_size t + n) 0 a) b.
Proof.
  revert off. induction a as [|t a IH]; intros off; cbn [app offsets foldr]; [by rewrite Z.add_0_r|].
  rewrite IH. do 3 f_equal. lia.
Qed.

Lemma sizes_length ts : Forall type_wf ts →
  foldr (λ t n, btf_type_size t + n) 0 ts = Z.of_nat (length (types_bytes false ts)).
Proof.
  induction 1 as [|t ts Ht Hts IH]; [done|]. cbn [foldr]. rewrite IH, types_bytes_cons, length_app.
  pose proof (length_type_bytes false t Ht). lia.
Qed.

Lemma offsets_snoc ts t : Forall type_wf ts → offsets 0 (ts ++ [t]) = offsets 0 ts ++ [Z.of_nat (length (types_bytes false ts))].
Proof. intros Hts. rewrite offsets_app, sizes_length by done. done. Qed.

Lemma count_small ts strs : Forall type_wf ts → file_size ts strs < 2 ^ 32 → 12 * Z.of_nat (length ts) < 2 ^ 32.
Proof.
  unfold file_size. intros Hts H. assert (12 * Z.of_nat (length ts) ≤ Z.of_nat (length (types_bytes false ts))); [|lia].
  clear H. induction Hts as [|t ts Ht Hts IH]; [done|]. rewrite types_bytes_cons, length_app. cbn [length].
  pose proof (length_type_bytes false t Ht). destruct Ht as [_ Ht]. unfold SIZEOF_TYPE in Ht. lia.
Qed.

Lemma file_size_snoc ts t strs : type_wf t → file_size (ts ++ [t]) strs = file_size ts strs + btf_type_size t.
Proof. intros Ht. unfold file_size. rewrite types_bytes_snoc, length_app. pose proof (length_type_bytes false t Ht). lia. Qed.

Lemma triple_commit ts ss t sz : type_wf t → sz = btf_type_size t → file_size ts (strs_bytes ss) + sz < 2 ^ 31 →
  triple (holding ts ss (words_bytes false (type_words t))) (btf_commit_type al_ok sz)
    (λ id o, id = Z.of_nat (length ts) + 1 ∧ holding (ts ++ [t]) ss [] o).
Proof.
  intros Ht -> Hmax o (Ha & H1 & H2 & Hs & [Hm Hh Htl [junk Hty] Hc Hi Hst]).
  pose proof Hs as (Hwf & Hnn & Hbs & Hhd & Hsz). pose proof (count_small ts (strs_bytes ss) Hwf ltac:(lia)) as Hcnt.
  destruct Ha as (Hb & Hid & Hoff). unfold btf_commit_type. rewrite (bind_eq get _ o o o eq_refl), Hh.
  cbn [file_hdr h_type_len]. unfold file_size in Hmax.
  destruct (add_idx_entry (al_offs al_ok) (p_index (o_parts o)) (offsets 0 ts) (Z.of_nat (length (types_bytes false ts))))
    as (ti & err & E & [->|[_ Hf]] & Hrel); [done|rewrite length_offsets; unfold BTF_MAX_NR_TYPES; lia|unfold word_ok, in_u; pose proof (length_type_bytes false t Ht); lia| |done].
  specialize (Hrel eq_refl). rewrite E, (bind_eq (read (Some _)) _ o o _ eq_refl).
  pose proof (proj1 Hrel) as Hnr. cbn [idx_next ti_nr] in Hnr. rewrite length_app, length_offsets in Hnr. cbn [length] in Hnr.
  unfold bind, set_parts, fail_if, grow_sections, bind, get, set_parts, ret.
  cbn [Z.eqb negb mbind option_bind o_raw o_parts o_links o_base with_index with_hdr p_index p_hdr ti_nr]. rewrite Hid, Hnr.
  rewrite swrap_small by lia. eexists _, _. split; [done|]. split; [lia|].
  pose proof (length_type_bytes false t Ht) as Hlt.
  split_and!; try done.
  - refine (conj _ (conj Hnn (conj Hbs (conj Hhd _)))); [by apply Forall_app; split; [|constructor]|].
    rewrite file_size_snoc by done. done.
  - split; cbn [o_parts with_index with_hdr p_modifiable p_hdr p_hdr_tail p_types p_types_cap p_index p_strs]; try done.
    + rewrite Hh. unfold hdr_grow, file_hdr.
      cbn [h_magic h_version h_flags h_hdr_len h_type_off h_type_len h_str_off h_str_len].
      rewrite types_bytes_snoc, length_app. rewrite !wrap_small by (unfold in_u; lia). f_equal; lia.
    + exists junk. by rewrite types_bytes_snoc, <- app_assoc.
    + rewrite offsets_snoc by done. unfold idx_next in Hrel. by rewrite Hnr in Hrel.
Qed.

(** What the last type and its place are read from. *)
Record has_types (ts : list btf_type) (o : btf_obj) : Prop := {
  ht_start : l_start_id (o_links o) = 1;
  ht_wf : Forall type_wf ts;
  ht_cnt : 12 * Z.of_nat (length ts) < 2 ^ 32;
  ht_types : ∃ junk, p_types (o_parts o) = types_bytes false ts ++ junk;
  ht_index : idx_rel (p_index (o_parts o)) (offsets 0 ts);
}.

Lemma holding_types ts ss pend o : holding ts ss pend o → has_types ts o.
Proof.
  intros ((Hb & Hid & Hoff) & _ & _ & (Hwf & _ & _ & _ & Hsz) & [Hm Hh Htl [junk Hty] Hc Hi Hst]).
  split; [done|done|by apply (count_small ts (strs_bytes ss)); [|lia]|by eexists|done].
Qed.

Lemma built_types ts ss o : built ts ss o → has_types ts o.
Proof.
  intros ((Hb & Hid & Hoff) & (Hwf & _ & _ & _ & Hsz) & [Hp|Hp] & _).
  - destruct Hp as [Hm Hh Htl [junk Hty] Hc Hi Hst].
    split; [done|done|by apply (count_small ts (strs_bytes ss)); [|lia]|by eexists|done].
  - destruct Hp as [Hm Hh Htl Hty Hi Hst].
    split; [done|done|by apply (count_small ts (strs_bytes ss)); [|lia]|exists []; by rewrite app_nil_r|done].
Qed.

(** The last type, and a write to its info word. *)
Lemma last_type_spec ts t o : has_types (ts ++ [t]) o →
  type_ptr (Z.of_nat (length ts) + 1) o = Some (o, inl (Z.of_nat (length (types_bytes false ts)))) ∧
  btf_last_type o = Some (o, inl (Z.of_nat (length (types_bytes false ts)))) ∧
  deref (Z.of_nat (length (types_bytes false ts))) o = Some (o, inl (bare t)).
Proof.
  intros [Hid Hwf Hcnt [junk Hty] Hi].
  apply Forall_app in Hwf as [Hwf [Ht _]%Forall_cons]. rewrite length_app in Hcnt. cbn [length] in Hcnt.
  assert (type_ptr (Z.of_nat (length ts) + 1) o = Some (o, inl (Z.of_nat (length (types_bytes false ts))))) as E.
  { unfold type_ptr. rewrite (bind_eq get _ o o o eq_refl), Hid. replace (Z.of_nat (length ts) + 1 - 1) with (Z.of_nat (length ts)) by lia.
    rewrite (idx_rel_at _ _ (length ts) (Z.of_nat (length (types_bytes false ts))) Hi); [done|].
    rewrite offsets_snoc by done. by rewrite lookup_app_r, length_offsets, Nat.sub_diag by (rewrite length_offsets; lia). }
  split; [done|]. split.
  - unfold btf_last_type. rewrite (bind_eq get _ o o o eq_refl). unfold obj_type_cnt. rewrite Hid, (proj1 Hi), length_offsets, length_app.
    cbn [length]. rewrite (wrap_small 32 (1 + _)), wrap_small by (unfold in_u; lia).
    by replace (1 + Z.of_nat (length ts + 1) - 1) with (Z.of_nat (length ts) + 1) by lia.
  - unfold deref. rewrite (bind_eq get _ o o o eq_refl), Hty, types_bytes_snoc, type_words_head, words_bytes_app, <- !app_assoc.
    rewrite type_load_head by (first [done|by apply wf_head]). done.
Qed.

Definition with_info (t : btf_type) (info : Z) (more : list Z) : btf_type :=
  mkType (bt_name_off t) info (bt_size t) (bt_rest t ++ more).

Lemma store_info pre t info post : word_ok info →
  store (pre ++ words_bytes false (type_head t) ++ post) (Z.of_nat (length pre) + 4) (words_bytes false (map u32 [info])) =
  Some (pre ++ words_bytes false [bt_name_off t; info; bt_size t] ++ post).
Proof.
  intros Hi. unfold type_head. cbn [map words_bytes flat_map]. rewrite !app_nil_r, <- !app_assoc.
  rewrite (app_assoc pre), (store_app_mid (pre ++ word_bytes false (bt_name_off t)) (word_bytes false (bt_info t))).
  - rewrite <- app_assoc. by rewrite wrap_small.
  - rewrite length_app, length_word_bytes. lia.
  - by rewrite !length_word_bytes.
Qed.

(** The item that is pending becomes part of the last type. *)
Lemma triple_finish ts t ss item sz info : words_ok item → word_ok (info (bare t)) → sz = 4 * Z.of_nat (length item) →
  type_wf (with_info t (info (bare t)) item) → file_size (ts ++ [t]) (strs_bytes ss) + sz < 2 ^ 31 →
  triple (holding (ts ++ [t]) ss (words_bytes false item)) (finish_item sz info)
    (λ r o, r = 0 ∧ holding (ts ++ [with_info t (info (bare t)) item]) ss [] o).
Proof.
  intros Hit Hinfo -> Hwf2 Hmax o Ho. destruct (last_type_spec _ _ _ (holding_types _ _ _ _ Ho)) as (_ & Elast & Ed).
  unfold finish_item. rewrite (bind_eq _ _ _ _ _ Elast), (bind_eq _ _ _ _ _ Ed).
  destruct Ho as (Ha & H1 & H2 & Hs & [Hm Hh Htl [junk Hty] Hc Hi Hst]).
  destruct Hs as (Hwf & Hnn & Hbs & Hhd & Hsz). apply Forall_app in Hwf as [Hwf [Ht _]%Forall_cons].
  rewrite types_bytes_snoc, type_words_head, words_bytes_app, <- !app_assoc in Hty.
  unfold put_info, put_words, bind, get. cbn [mbind option_bind]. rewrite Hty, store_info by done.
  unfold read, ret, set_parts, grow_sections, bind, get, set_parts.
  cbn [mbind option_bind o_raw o_parts o_links o_base with_types with_hdr p_hdr]. eexists _, _. split; [done|]. split; [done|].
  set (t2 := with_info t (info (bare t)) item) in *.
  assert (file_size (ts ++ [t2]) (strs_bytes ss) = file_size (ts ++ [t]) (strs_bytes ss) + 4 * Z.of_nat (length item)) as Hfs.
  { rewrite !file_size_snoc by done. destruct Hwf2 as [_ ->], Ht as [_ ->]. unfold t2, with_info. cbn [bt_rest]. rewrite length_app. lia. }
  assert (words_bytes false [bt_name_off t; info (bare t); bt_size t] ++ words_bytes false (bt_rest t) ++ words_bytes false item =
    words_bytes false (type_words t2)) as Hw2.
  { rewrite <- !words_bytes_app. done. }
  split_and!; try done.
  - refine (conj _ (conj Hnn (conj Hbs (conj Hhd _)))); [by apply Forall_app; split; [|constructor]|lia].
  - split; cbn [o_parts with_types with_hdr p_modifiable p_hdr p_hdr_tail p_types p_types_cap p_index p_strs]; try done.
    + rewrite Hh. unfold hdr_grow, file_hdr.
      cbn [h_magic h_version h_flags h_hdr_len h_type_off h_type_len h_str_off h_str_len].
      unfold file_size in Hfs, Hmax. rewrite !wrap_small by (unfold in_u; lia). f_equal; lia.
    + exists junk. rewrite types_bytes_snoc, <- Hw2, <- !app_assoc. done.
    + rewrite Hty in Hc. rewrite !length_app in Hc |- *. rewrite !length_words_bytes in Hc |- *. done.
    + rewrite offsets_snoc in Hi |- * by done. done.
Qed.
