(* ===== verification/BtfBuild.v ===== *)
(** Building BTF, specified: the calls of BtfAdd.v extend a list of types and a list of
    strings, and what is built is written to a file that is read back to it. *)
From stdpp Require Import base list sets strings.
From Stdlib Require Import ZArith Lia.
From S2P Require Import Prelude Bytes Mem Errno Hashmap Strset Btf BtfRaw BtfFile BtfAdd BtfStore.

#[local] Open Scope Z_scope.
#[local] Open Scope btf_scope.

(** * The calls and what they do *)

Inductive call :=
  | CStr (s : list Z)
  | CInt (name : option (list Z)) (byte_sz encoding : Z)
  | CFloat (name : option (list Z)) (byte_sz : Z)
  | CPtr (id : Z) | CVolatile (id : Z) | CConst (id : Z) | CRestrict (id : Z)
  | CTypedef (name : option (list Z)) (id : Z)
  | CTypeTag (value : option (list Z)) (id : Z)
  | CArray (index_id elem_id nr_elems : Z)
  | CStruct (name : option (list Z)) (byte_sz : Z)
  | CUnion (name : option (list Z)) (byte_sz : Z)
  | CField (name : option (list Z)) (id bit_offset bit_size : Z)
  | CEnum (name : option (list Z)) (byte_sz : Z)
  | CEnumValue (name : option (list Z)) (value : Z)
  | CEnum64 (name : option (list Z)) (byte_sz : Z) (is_signed : bool)
  | CEnum64Value (name : option (list Z)) (value : Z)
  | CFwd (name : option (list Z)) (fwd_kind : Z)
  | CFunc (name : option (list Z)) (linkage proto_id : Z)
  | CFuncProto (ret_id : Z)
  | CFuncParam (name : option (list Z)) (id : Z)
  | CVar (name : option (list Z)) (linkage id : Z)
  | CDatasec (name : option (list Z)) (byte_sz : Z)
  | CVarInfo (id offset byte_sz : Z)
  | CDeclTag (value : option (list Z)) (id component_idx : Z).

Definition exec (al : nat → allocs) (c : call) : M Z :=
  match c with
  | CStr s => btf__add_str al s
  | CInt name sz enc => btf__add_int al name sz enc
  | CFloat name sz => btf__add_float al name sz
  | CPtr id => btf__add_ptr al id
  | CVolatile id => btf__add_volatile al id
  | CConst id => btf__add_const al id
  | CRestrict id => btf__add_restrict al id
  | CTypedef name id => btf__add_typedef al name id
  | CTypeTag value id => btf__add_type_tag al value id
  | CArray index elem n => btf__add_array al index elem n
  | CStruct name sz => btf__add_struct al name sz
  | CUnion name sz => btf__add_union al name sz
  | CField name id off sz => btf__add_field al name id off sz
  | CEnum name sz => btf__add_enum al name sz
  | CEnumValue name v => btf__add_enum_value al name v
  | CEnum64 name sz signed => btf__add_enum64 al name sz signed
  | CEnum64Value name v => btf__add_enum64_value al name v
  | CFwd name k => btf__add_fwd al name k
  | CFunc name linkage id => btf__add_func al name linkage id
  | CFuncProto id => btf__add_func_proto al id
  | CFuncParam name id => btf__add_func_param al name id
  | CVar name linkage id => btf__add_var al name linkage id
  | CDatasec name sz => btf__add_datasec al name sz
  | CVarInfo id off sz => btf__add_datasec_var_info al id off sz
  | CDeclTag value id i => btf__add_decl_tag al value id i
  end.

(** What a call means: it adds a string, or a type made of the offset of its name, or an
    item to the last type, whose info word changes, or it is rejected. *)
Inductive effect :=
  | AddsStr (s : list Z)
  | AddsType (name : option (list Z)) (kind vlen kflag size : Z) (rest : list Z)
  | AddsItem (name : option (list Z)) (kind kflag : Z) (item : Z → list Z)
  | Rejects (err : Z).

Definition ok_id (id : Z) : bool := (0 <=? id) && (id <=? BTF_MAX_NR_TYPES).
Definition named (name : option (list Z)) : bool := negb (no_name name).
Definition bool_bit (b : bool) : Z := if b then 1 else 0.
Definition ref_to (kind : Z) (name : option (list Z)) (id : Z) : effect :=
  if ok_id id then AddsType name kind 0 0 id [] else Rejects (- EINVAL).
Definition field_is_bitfield (off sz : Z) : bool := negb (sz =? 0) || negb (off mod 8 =? 0).
Definition field_ok (kind id off sz : Z) : bool :=
  ok_id id && (negb (field_is_bitfield off sz) || ((0 <? sz) && (sz <=? 255) && (off <=? 0xffffff))) &&
  (negb (kind =? BTF_KIND_UNION) || (off =? 0)).

(** An effect that depends on the last type, which is of one of the [kinds]. *)
Definition on_last (last : option btf_type) (kinds : list Z) (f : btf_type → effect) : effect :=
  match last with
  | Some t => if bool_decide (btf_kind t ∈ kinds) then f t else Rejects (- EINVAL)
  | None => Rejects (- EINVAL)
  end.

(** [last] is the last type. *)
Definition effect_of (last : option btf_type) (c : call) : effect :=
  let reject := Rejects (- EINVAL) in
  let on := on_last last in
  match c with
  | CStr s => AddsStr s
  | CInt name sz enc =>
      if named name && bool_decide (sz ∈ [1; 2; 4; 8; 16]) && bool_decide (enc ∈ [0; 1; 2; 3; 4; 5; 6; 7])
      then AddsType name BTF_KIND_INT 0 0 sz [enc * 2 ^ 24 + sz * 8] else reject
  | CFloat name sz =>
      if named name && bool_decide (sz ∈ [2; 4; 8; 12; 16]) then AddsType name BTF_KIND_FLOAT 0 0 sz [] else reject
  | CPtr id => ref_to BTF_KIND_PTR None id
  | CVolatile id => ref_to BTF_KIND_VOLATILE None id
  | CConst id => ref_to BTF_KIND_CONST None id
  | CRestrict id => ref_to BTF_KIND_RESTRICT None id
  | CTypedef name id => if named name then ref_to BTF_KIND_TYPEDEF name id else reject
  | CTypeTag value id => if named value then ref_to BTF_KIND_TYPE_TAG value id else reject
  | CArray index elem n =>
      if ok_id index && ok_id elem then AddsType None BTF_KIND_ARRAY 0 0 0 [elem; index; n] else reject
  | CStruct name sz => AddsType name BTF_KIND_STRUCT 0 0 sz []
  | CUnion name sz => AddsType name BTF_KIND_UNION 0 0 sz []
  | CField name id off sz =>
      on [BTF_KIND_STRUCT; BTF_KIND_UNION] (λ t,
        if field_ok (btf_kind t) id off sz
        then AddsItem name (btf_kind t) (bool_bit (field_is_bitfield off sz || btf_kflag t)) (λ n, [n; id; off + sz * 2 ^ 24])
        else reject)
  | CEnum name sz =>
      if bool_decide (sz ∈ [1; 2; 4; 8]) then AddsType name BTF_KIND_ENUM 0 0 sz [] else reject
  | CEnumValue name v =>
      on [BTF_KIND_ENUM] (λ t,
        if negb (named name) then reject
        else if (INT_MIN <=? v) && (v <=? UINT_MAX)
        then AddsItem name BTF_KIND_ENUM (bool_bit ((v <? 0) || btf_kflag t)) (λ n, [n; v]) else Rejects (- E2BIG))
  | CEnum64 name sz signed =>
      if bool_decide (sz ∈ [1; 2; 4; 8]) then AddsType name BTF_KIND_ENUM64 0 (bool_bit signed) sz [] else reject
  | CEnum64Value name v =>
      on [BTF_KIND_ENUM64] (λ t,
        if named name then AddsItem name BTF_KIND_ENUM64 (kflag_Z t) (λ n, [n; v; v / 2 ^ 32]) else reject)
  | CFwd name k =>
      if negb (named name) then reject
      else if k =? BTF_FWD_STRUCT then AddsType name BTF_KIND_FWD 0 0 0 []
      else if k =? BTF_FWD_UNION then AddsType name BTF_KIND_FWD 0 1 0 []
      else if k =? BTF_FWD_ENUM then AddsType name BTF_KIND_ENUM 0 0 4 [] else reject
  | CFunc name linkage id =>
      if named name && bool_decide (linkage ∈ [0; 1; 2]) && ok_id id
      then AddsType name BTF_KIND_FUNC linkage 0 id [] else reject
  | CFuncProto id => ref_to BTF_KIND_FUNC_PROTO None id
  | CFuncParam name id =>
      if ok_id id then on [BTF_KIND_FUNC_PROTO] (λ t, AddsItem name BTF_KIND_FUNC_PROTO (kflag_Z t) (λ n, [n; id])) else reject
  | CVar name linkage id =>
      if named name && bool_decide (linkage ∈ [0; 1; 2]) && ok_id id
      then AddsType name BTF_KIND_VAR 0 0 id [linkage] else reject
  | CDatasec name sz => if named name then AddsType name BTF_KIND_DATASEC 0 0 sz [] else reject
  | CVarInfo id off sz =>
      on [BTF_KIND_DATASEC] (λ t,
        if ok_id id then AddsItem None BTF_KIND_DATASEC (kflag_Z t) (λ _, [id; off; sz]) else reject)
  | CDeclTag value id i =>
      if named value && (-1 <=? i) && ok_id id then AddsType value BTF_KIND_DECL_TAG 0 0 id [i] else reject
  end.

(** Types and strings after an effect, and the result. *)
Definition apply (e : effect) (ts : list btf_type) (ss : list (list Z)) : list btf_type * list (list Z) * Z :=
  match e with
  | AddsStr s => (ts, (intern_str ss s).1, (intern_str ss s).2)
  | AddsType name kind vlen kflag size rest =>
      (ts ++ [mkType (intern ss name).2 (btf_type_info kind vlen kflag) (u32 size) (map u32 rest)], (intern ss name).1,
       Z.of_nat (length ts) + 1)
  | AddsItem name kind kflag item =>
      match last ts with
      | Some t =>
          (removelast ts ++ [with_info t (btf_type_info kind (btf_vlen t + 1) kflag) (map u32 (item (intern ss name).2))],
           (intern ss name).1, 0)
      | None => (ts, ss, - EINVAL)
      end
  | Rejects err => (ts, ss, err)
  end.

Definition call_spec (c : call) (ts : list btf_type) (ss : list (list Z)) : list btf_type * list (list Z) * Z :=
  apply (effect_of (last ts) c) ts ss.

Definition effect_name (e : effect) : option (list Z) :=
  match e with AddsStr s => Some s | AddsType name _ _ _ _ _ | AddsItem name _ _ _ => name | Rejects _ => None end.

(** There is room for what is added, and the last type for another item (the code does
    not check that [vlen] stays below 2^16). *)
Definition effect_fits (e : effect) (ts : list btf_type) (ss : list (list Z)) : Prop :=
  name_ok (effect_name e) ∧ file_size ts (strs_bytes ss) + name_len (effect_name e) + 24 < 2 ^ 31 ∧
  match e with AddsItem _ _ _ _ => ∀ t, last ts = Some t → btf_vlen t + 1 < 65536 | _ => True end.

(** The [__u32], [__u64] and [__s64] arguments are in their range. *)
Definition args_ok (c : call) : Prop :=
  match c with
  | CField _ _ off sz => word_ok off ∧ word_ok sz
  | CEnumValue _ v => - 2 ^ 63 ≤ v < 2 ^ 63
  | CEnum64Value _ v => in_u 64 v
  | CEnum _ sz | CEnum64 _ sz _ => word_ok sz
  | CInt _ sz _ | CFloat _ sz => in_u 64 sz
  | _ => True
  end.

Example demo_calls_spec :
  let name s := Some (str_bytes s) in
  foldl (λ st c, let '(ts, ss, r) := call_spec c st.1.1 st.1.2 in (ts, ss, st.2 ++ [r])) ([], [[]], [])
    [CInt (name "int") 4 1; CStruct (name "s") 8; CField (name "a") 1 0 0; CField (name "int") 1 33 5;
     CFwd (name "f") 1; CEnum None 4; CEnumValue (name "X") (-1); CFunc (name "fn") 1 4; CPtr (-1)]%string =
  ([mkType 1 (mk_info BTF_KIND_INT 0 false) 4 [2 ^ 24 + 32];
    mkType 5 (mk_info BTF_KIND_STRUCT 2 true) 8 [7; 1; 0; 1; 1; 5 * 2 ^ 24 + 33];
    mkType 9 (mk_info BTF_KIND_FWD 0 true) 0 [];
    mkType 0 (mk_info BTF_KIND_ENUM 1 true) 4 [11; 2 ^ 32 - 1];
    mkType 13 (mk_info BTF_KIND_FUNC 1 false) 4 []],
   [[]; str_bytes "int"; str_bytes "s"; str_bytes "a"; str_bytes "f"; str_bytes "X"; str_bytes "fn"]%string,
   [1; 2; 0; 0; 3; 4; 0; 5; - EINVAL]).
Proof. vm_compute. reflexivity. Qed.

(** * Refinement *)

Definition does (m : M Z) (e : effect) (ts : list btf_type) (ss : list (list Z)) (o : btf_obj) : Prop :=
  ∃ o', run m o = Some (o', (apply e ts ss).2) ∧ built (apply e ts ss).1.1 (apply e ts ss).1.2 o'.

Lemma does_reject err ts ss o : built ts ss o → does (fail err) (Rejects err) ts ss o.
Proof. intros Ho. by exists o. Qed.

(** A checked condition of the code against the one of the specification. *)
Lemma does_fail_if b err m e ts ss o : built ts ss o → (b = false → does m e ts ss o) →
  does (fail_if b err ;;; m) (if b then Rejects err else e) ts ss o.
Proof. intros Ho H. destruct b; [by apply does_reject|by apply H]. Qed.

(** The kinds, [vlen], kind flag and words of a new type that is well formed. *)
Definition new_ok (kind vlen kflag : Z) (rest : list Z) : Prop :=
  word_ok (btf_type_info kind vlen kflag) ∧
  btf_type_size (mkType 0 (btf_type_info kind vlen kflag) 0 []) = SIZEOF_TYPE + 4 * Z.of_nat (length rest).

Lemma info_word_ok kind vlen kflag : word_ok (btf_type_info kind vlen kflag).
Proof. apply wrap_range. lia. Qed.

Lemma new_type_wf kind vlen kflag rest n size : new_ok kind vlen kflag rest → 0 ≤ n < 2 ^ 31 →
  type_wf (mkType n (btf_type_info kind vlen kflag) (u32 size) (map u32 rest)).
Proof.
  intros [Hi Hs] Hn. split.
  - constructor; [cbn [bt_name_off]; unfold word_ok, in_u; lia|]. constructor; [done|]. constructor; [apply wrap_range; lia|]. apply words_ok_u32.
  - unfold btf_type_size, btf_kind, btf_vlen in *. cbn [bt_info bt_rest] in *. by rewrite length_map.
Qed.

Lemma triple_new_type ts ss name kind vlen kflag size rest sz : new_ok kind vlen kflag rest →
  sz = SIZEOF_TYPE + 4 * Z.of_nat (length rest) → store_ok ts ss → name_ok name →
  file_size ts (strs_bytes ss) + name_len name + sz < 2 ^ 31 →
  triple (built ts ss)
    (t <- make_room al_all sz ;; name_off <- name_offset al_all name ;;
     put_type al_all t sz (name_off :: btf_type_info kind vlen kflag :: size :: rest))
    (λ id o, id = Z.of_nat (length ts) + 1 ∧
       holding (ts ++ [mkType (intern ss name).2 (btf_type_info kind vlen kflag) (u32 size) (map u32 rest)]) (intern ss name).1 [] o).
Proof.
  intros Hnew -> Hs Hn Hmax. destruct (intern_store ts ss name Hs Hn ltac:(unfold SIZEOF_TYPE in *; lia)) as (Hs' & Ho & Hsz).
  assert (0 ≤ name_len name) by (destruct name; cbn; lia).
  eapply triple_bind; [apply triple_make_room; unfold SIZEOF_TYPE in *; lia|]. intros t.
  apply triple_pure. intros ->. eapply triple_bind; [apply triple_name; unfold SIZEOF_TYPE in *; first [done|lia]|].
  intros n. apply triple_pure. intros ->. unfold put_type.
  set (ws := _ :: _ :: _ :: _). set (t := mkType _ _ _ _).
  eapply triple_bind; [apply triple_put; [done|unfold ws; cbn [length]; unfold SIZEOF_TYPE; lia]|]. intros [].
  assert (map u32 ws = type_words t) as ->.
  { unfold ws, t, type_words. cbn [map bt_name_off bt_info bt_size bt_rest]. rewrite (wrap_small 32 (intern ss name).2) by (unfold in_u; lia).
    do 2 f_equal. apply wrap_small. apply Hnew. }
  assert (type_wf t) as Hwf by (by apply new_type_wf). unfold al_all. apply triple_commit; [done| |unfold SIZEOF_TYPE in *; lia].
  destruct Hwf as [_ ->]. unfold t. cbn [bt_rest]. by rewrite length_map.
Qed.

(** The kinds whose last type can get items, with the words of an item. *)
Definition item_words (kind : Z) : Z :=
  if (kind =? BTF_KIND_ENUM) || (kind =? BTF_KIND_FUNC_PROTO) then 2 else 3.
Definition item_kind (kind : Z) : bool :=
  bool_decide (kind ∈ [BTF_KIND_STRUCT; BTF_KIND_UNION; BTF_KIND_ENUM; BTF_KIND_ENUM64; BTF_KIND_FUNC_PROTO; BTF_KIND_DATASEC]).

Lemma item_size t : item_kind (btf_kind t) = true →
  btf_type_size t = SIZEOF_TYPE + 4 * (btf_vlen t * item_words (btf_kind t)).
Proof.
  unfold item_kind, btf_type_size, item_words. intros H%bool_decide_eq_true. generalize dependent (btf_kind t). intros k H.
  repeat (apply elem_of_cons in H as [->|H]; [cbn; lia|]). by apply elem_of_nil in H.
Qed.

Lemma item_wf t kflag item : type_wf t → item_kind (btf_kind t) = true → btf_vlen t + 1 < 65536 → kflag = 0 ∨ kflag = 1 →
  words_ok item → Z.of_nat (length item) = item_words (btf_kind t) →
  type_wf (with_info t (btf_type_info (btf_kind t) (btf_vlen t + 1) kflag) item).
Proof.
  intros Hwf Hk Hv Hf Hit Hl. set (t2 := with_info t _ item).
  pose proof (vlen_range t) as Hvr.
  assert (0 ≤ btf_kind t < 32) as Hkr.
  { unfold btf_kind. change 31 with (Z.ones 5). rewrite Z.land_ones by lia. apply Z.mod_pos_bound. lia. }
  destruct (info_fields t2 (btf_kind t) (btf_vlen t + 1) kflag Hkr ltac:(lia) Hf eq_refl) as (Ek & Ev & _).
  destruct (wf_head t Hwf) as [Hh Hr]. inversion_clear Hh as [|? ? H1 Hh2]. inversion_clear Hh2 as [|? ? H2 Hh3].
  inversion_clear Hh3 as [|? ? H3 _]. split.
  - constructor; [done|]. constructor; [apply info_word_ok|]. constructor; [done|]. by apply Forall_app.
  - rewrite item_size by (by rewrite Ek). destruct Hwf as [_ Hs]. rewrite item_size in Hs by done. rewrite Ek, Ev.
    unfold t2, with_info. cbn [bt_rest]. rewrite length_app. lia.
Qed.

Lemma triple_new_item ts t ss name kind kflag item sz (info : btf_type → Z) : 
  kind = btf_kind t → item_kind kind = true → btf_vlen t + 1 < 65536 → kflag = 0 ∨ kflag = 1 →
  (∀ n, Z.of_nat (length (item n)) = item_words kind) → sz = 4 * item_words kind →
  info (bare t) = btf_type_info kind (btf_vlen t + 1) kflag →
  store_ok (ts ++ [t]) ss → name_ok name → file_size (ts ++ [t]) (strs_bytes ss) + name_len name + sz < 2 ^ 31 →
  triple (built (ts ++ [t]) ss)
    (v <- make_room al_all sz ;; name_off <- name_offset al_all name ;; put_words v (item name_off) ;;; finish_item sz info)
    (λ r o, r = 0 ∧ holding (ts ++ [with_info t (btf_type_info kind (btf_vlen t + 1) kflag) (map u32 (item (intern ss name).2))])
                      (intern ss name).1 [] o).
Proof.
  intros -> Hk Hv Hf Hitem -> Hinfo Hs Hn Hmax.
  assert (0 ≤ item_words (btf_kind t) ≤ 3) as Hiw by (unfold item_words; destruct (_ || _); lia).
  destruct (intern_store (ts ++ [t]) ss name Hs Hn ltac:(lia)) as (Hs' & Ho & Hsz).
  assert (0 ≤ name_len name) by (destruct name; cbn; lia).
  eapply triple_bind; [apply triple_make_room; lia|]. intros v. apply triple_pure. intros ->.
  eapply triple_bind; [apply triple_name; first [done|lia]|]. intros n. apply triple_pure. intros ->.
  eapply triple_bind; [apply triple_put; [done|by rewrite Hitem]|]. intros [].
  pose proof Hs as (Hwf & _). apply Forall_app in Hwf as [_ [Ht _]%Forall_cons].
  rewrite <- Hinfo. apply triple_finish.
  - apply words_ok_u32.
  - rewrite Hinfo. apply info_word_ok.
  - rewrite length_map, Hitem. done.
  - rewrite Hinfo. apply item_wf; try done; [apply words_ok_u32|by rewrite length_map, Hitem].
  - lia.
Qed.

(** * The checks *)

Lemma bad_id_ok id : bad_id id = negb (ok_id id).
Proof.
  unfold bad_id, ok_id, validate_type_id. rewrite Z.gtb_ltb.
  destruct (Z.ltb_spec id 0), (Z.leb_spec 0 id), (Z.ltb_spec BTF_MAX_NR_TYPES id), (Z.leb_spec id BTF_MAX_NR_TYPES); try lia; done.
Qed.

Lemma no_name_named name : no_name name = negb (named name).
Proof. unfold named. by rewrite negb_involutive. Qed.

Lemma size_ok sz n (l : list Z) : in_u 64 sz → n ∈ [8; 16] → l = filter (λ x, x ≤ n) [1; 2; 4; 8; 16] →
  (negb (power_of_2 sz) || (sz >? n)) = negb (bool_decide (sz ∈ l)).
Proof.
  intros Hsz Hn ->. unfold in_u in Hsz. destruct (Z_lt_le_dec n sz) as [Hgt|Hle].
  - replace (sz >? n) with true by (symmetry; apply Z.gtb_lt; lia). rewrite orb_true_r. symmetry. apply negb_true_iff.
    apply bool_decide_eq_false. rewrite list_elem_of_filter. lia.
  - assert (∃ k, sz = Z.of_nat k ∧ (k ≤ 16)%nat) as (k & -> & Hk).
    { exists (Z.to_nat sz). repeat (apply elem_of_cons in Hn as [->|Hn]; [lia|]). by apply elem_of_nil in Hn. }
    do 17 (destruct k as [|k]; [repeat (apply elem_of_cons in Hn as [->|Hn]; [vm_compute in *; first [reflexivity|lia]|]); by apply elem_of_nil in Hn|]).
    lia.
Qed.

Lemma encoding_ok enc :
  negb (Z.land enc (Z.lnot (Z.lor (Z.lor BTF_INT_SIGNED BTF_INT_CHAR) BTF_INT_BOOL)) =? 0) =
  negb (bool_decide (enc ∈ [0; 1; 2; 3; 4; 5; 6; 7])).
Proof.
  f_equal. change (Z.lor (Z.lor BTF_INT_SIGNED BTF_INT_CHAR) BTF_INT_BOOL) with (Z.ones 3).
  rewrite <- Z.ldiff_land, Z.ldiff_ones_r, Z.shiftl_mul_pow2, Z.shiftr_div_pow2 by lia.
  destruct (Z.eqb_spec (enc / 2 ^ 3 * 2 ^ 3) 0) as [E|E]; symmetry.
  - apply bool_decide_eq_true. assert (0 ≤ enc < 8) as H by (Z.to_euclidean_division_equations; lia).
    assert (enc = 0 ∨ enc = 1 ∨ enc = 2 ∨ enc = 3 ∨ enc = 4 ∨ enc = 5 ∨ enc = 6 ∨ enc = 7) by lia. set_solver.
  - apply bool_decide_eq_false. intros H. apply E.
    repeat (apply elem_of_cons in H as [->|H]; [done|]). by apply elem_of_nil in H.
Qed.

Lemma linkage_ok l : (negb (l =? 0) && negb (l =? 1) && negb (l =? 2)) = negb (bool_decide (l ∈ [0; 1; 2])).
Proof.
  destruct (decide (l ∈ [0; 1; 2])) as [H|H].
  - rewrite bool_decide_eq_true_2 by done. repeat (apply elem_of_cons in H as [->|H]; [done|]). by apply elem_of_nil in H.
  - rewrite bool_decide_eq_false_2 by done.
    destruct (Z.eqb_spec l 0), (Z.eqb_spec l 1), (Z.eqb_spec l 2); try done; subst; set_solver.
Qed.

Lemma float_ok sz : (sz =? 2) || (sz =? 4) || (sz =? 8) || (sz =? 12) || (sz =? 16) = bool_decide (sz ∈ [2; 4; 8; 12; 16]).
Proof.
  symmetry. destruct (Z.eqb_spec sz 2), (Z.eqb_spec sz 4), (Z.eqb_spec sz 8), (Z.eqb_spec sz 12), (Z.eqb_spec sz 16);
    cbn [orb]; try (apply bool_decide_eq_true; set_solver). apply bool_decide_eq_false. set_solver.
Qed.

(** * Each call *)

Ltac new_done := split; [apply info_word_ok|reflexivity].

Section calls.
Context (ts : list btf_type) (ss : list (list Z)) (o : btf_obj) (Ho : built ts ss o).

Lemma does_new name kind vlen kflag size rest sz :
  new_ok kind vlen kflag rest → sz = SIZEOF_TYPE + 4 * Z.of_nat (length rest) → sz ≤ 24 →
  effect_fits (AddsType name kind vlen kflag size rest) ts ss →
  does (t <- make_room al_all sz ;; name_off <- name_offset al_all name ;;
        put_type al_all t sz (name_off :: btf_type_info kind vlen kflag :: size :: rest))
    (AddsType name kind vlen kflag size rest) ts ss o.
Proof.
  intros Hnew Hsz Hle (Hn & Hmax & _). cbn [effect_name] in *.
  destruct (triple_run _ _ _ o (triple_new_type ts ss name kind vlen kflag size rest sz Hnew Hsz (proj1 (proj2 Ho)) Hn ltac:(lia)) Ho)
    as (o' & x & E & -> & H). exists o'. split; [done|]. by apply holding_built.
Qed.

Lemma does_ref kind name id : new_ok kind 0 0 [] → effect_fits (ref_to kind name id) ts ss →
  does (btf_add_ref_kind al_all kind name id) (ref_to kind name id) ts ss o.
Proof.
  intros Hk. unfold ref_to, btf_add_ref_kind. rewrite bad_id_ok. destruct (ok_id id); cbn [negb]; [|intros; by apply does_reject].
  intros Hfit. by apply (does_new name kind 0 0 id []).
Qed.

(** The write of another info word to a new type, as forward declarations and functions do. *)
Lemma does_new_info name kind vlen kflag id : new_ok kind vlen kflag [] → new_ok kind 0 0 [] → ok_id id = true →
  effect_fits (AddsType name kind vlen kflag id []) ts ss →
  ∀ m, (∀ n o, n = Z.of_nat (length ts) + 1 → m n o = (t <- type_ptr n ;; put_info t (btf_type_info kind vlen kflag) ;;; ret n) o) →
  does (bind (btf_add_ref_kind al_all kind name id) m) (AddsType name kind vlen kflag id []) ts ss o.
Proof.
  intros Hnew Hnew0 Hid (Hn & Hmax & _) m Hm. cbn [effect_name] in *. unfold btf_add_ref_kind. rewrite bad_id_ok, Hid. cbn [negb].
  pose proof (proj1 (proj2 Ho)) as Hs. pose proof (intern_store ts ss name Hs Hn ltac:(lia)) as (Hs' & Hoff & Hsz).
  destruct (triple_new_type ts ss name kind 0 0 id [] SIZEOF_TYPE Hnew0 eq_refl Hs Hn ltac:(unfold SIZEOF_TYPE; lia) o Ho)
    as (o1 & x & E & -> & H).
  destruct (last_type_spec _ _ _ (holding_types _ _ _ _ H)) as (Eptr & _).
  change (fail_if false (- EINVAL) ;;; ?m) with m.
  unfold does, run. rewrite (bind_eq _ m o o1 _ E), Hm by done. rewrite (bind_eq _ _ o1 o1 _ Eptr).
  destruct H as (Ha & H1 & H2 & Hs2 & [Hmo Hh Htl [junk Hty] Hc Hi Hst]).
  set (t := mkType (intern ss name).2 (btf_type_info kind 0 0) (u32 id) (map u32 [])) in *.
  rewrite types_bytes_snoc in Hty. unfold type_words in Hty. cbn [t bt_rest map] in Hty. fold (type_head t) in Hty.
  unfold put_info, put_words, bind, get. cbn [mbind option_bind]. rewrite Hty, <- app_assoc, store_info by apply info_word_ok.
  unfold read, ret, set_parts. cbn [mbind option_bind]. eexists. split; [done|]. cbn [apply fst snd].
  pose proof (new_type_wf kind vlen kflag [] (intern ss name).2 id Hnew Hoff) as Hwf2.
  pose proof (new_type_wf kind 0 0 [] (intern ss name).2 id Hnew0 Hoff) as Hwf1.
  set (t2 := mkType (intern ss name).2 (btf_type_info kind vlen kflag) (u32 id) (map u32 [])) in *.
  assert (length (types_bytes false (ts ++ [t2])) = length (types_bytes false (ts ++ [t]))) as Hlen
    by (rewrite !types_bytes_snoc, !length_app, !length_words_bytes; done).
  destruct Hs2 as (Hwf & Hnn & Hbs & Hhd & Hfs). apply Forall_app in Hwf as [Hwf _].
  apply holding_built. split_and!; try done.
  - refine (conj _ (conj Hnn (conj Hbs (conj Hhd _)))); [by apply Forall_app; split; [|constructor]|].
    unfold file_size in *. by rewrite Hlen.
  - split; cbn [o_parts with_types p_modifiable p_hdr p_hdr_tail p_types p_types_cap p_index p_strs]; try done.
    + rewrite Hh. unfold file_hdr. by rewrite Hlen.
    + exists junk. rewrite types_bytes_snoc. unfold type_words. cbn [t2 bt_rest map]. by rewrite <- app_assoc.
    + rewrite Hty in Hc. rewrite !length_app in Hc |- *. rewrite !length_words_bytes in Hc |- *. cbn [length type_head] in Hc |- *. lia.
    + rewrite offsets_snoc in Hi |- * by done. done.
Qed.

Lemma does_str s : effect_fits (AddsStr s) ts ss → does (btf__add_str al_all s) (AddsStr s) ts ss o.
Proof.
  intros (Hn & Hmax & _). cbn [effect_name name_ok name_len] in *. destruct Hn as [Hn Hn2].
  destruct (triple_or_err _ _ (- ENOMEM) _ (triple_ensure ts ss) o Ho) as (o1 & [] & E & H1).
  assert (room ts ss 0 o1) as Hroom by by exists [].
  destruct (triple_run _ _ _ o1 (triple_add_str ts ss 0 s Hn Hn2 ltac:(lia)) Hroom) as (o2 & x & E2 & -> & pend & Hp & H2).
  exists o2. cbn [apply fst snd]. split.
  - rewrite <- E2. unfold run, btf__add_str. rewrite (bind_eq get _ o o o eq_refl), (bind_eq get _ o1 o1 o1 eq_refl).
    rewrite (proj1 (proj1 Ho)), (proj1 (proj1 H1)). unfold add_own_str, al_all at 1 3.
    by rewrite (bind_eq _ _ _ _ _ E), (bind_eq _ _ _ _ _ (ensure_room _ _ _ _ Hroom)).
  - apply holding_built. destruct pend; [done|cbn in Hp; lia].
Qed.

Lemma does_int name sz enc : in_u 64 sz → effect_fits (effect_of (last ts) (CInt name sz enc)) ts ss →
  does (btf__add_int al_all name sz enc) (effect_of (last ts) (CInt name sz enc)) ts ss o.
Proof.
  intros Hsz. cbn [effect_of]. unfold btf__add_int. rewrite no_name_named, encoding_ok.
  rewrite (size_ok sz 16 [1; 2; 4; 8; 16] Hsz) by (first [set_solver|reflexivity]).
  destruct (named name), (bool_decide_reflect (sz ∈ [1; 2; 4; 8; 16])) as [Hs|], (bool_decide_reflect (enc ∈ [0; 1; 2; 3; 4; 5; 6; 7])) as [He|];
    cbn [andb negb]; try (intros _; exact (does_reject _ _ _ _ Ho)).
  intros Hfit. assert (0 ≤ sz ≤ 16) by (repeat (apply elem_of_cons in Hs as [->|Hs]; [done|]); by apply elem_of_nil in Hs).
  rewrite (Z.lor_comm (Z.shiftl enc 24)), Z.lor_comm, (lor_shift enc (sz * 8) 24) by lia.
  refine (does_new name BTF_KIND_INT 0 0 sz [_] (SIZEOF_TYPE + 4) _ eq_refl _ Hfit); [new_done|done].
Qed.

Lemma does_float name sz : effect_fits (effect_of (last ts) (CFloat name sz)) ts ss →
  does (btf__add_float al_all name sz) (effect_of (last ts) (CFloat name sz)) ts ss o.
Proof.
  cbn [effect_of]. unfold btf__add_float. rewrite no_name_named, float_ok.
  destruct (named name), (bool_decide (sz ∈ [2; 4; 8; 12; 16])); cbn [andb negb]; try (intros _; exact (does_reject _ _ _ _ Ho)).
  refine (does_new name BTF_KIND_FLOAT 0 0 sz [] SIZEOF_TYPE _ eq_refl _); [new_done|done].
Qed.

Lemma does_named_ref kind name id : new_ok kind 0 0 [] →
  effect_fits (if named name then ref_to kind name id else Rejects (- EINVAL)) ts ss →
  does (fail_if (no_name name) (- EINVAL) ;;; btf_add_ref_kind al_all kind name id)
    (if named name then ref_to kind name id else Rejects (- EINVAL)) ts ss o.
Proof.
  intros Hk. rewrite no_name_named. destruct (named name); [exact (does_ref kind name id Hk)|intros _; exact (does_reject _ _ _ _ Ho)].
Qed.

Lemma does_enum name sz kind b : word_ok sz → new_ok kind 0 (bool_bit b) [] →
  effect_fits (if bool_decide (sz ∈ [1; 2; 4; 8]) then AddsType name kind 0 (bool_bit b) sz [] else Rejects (- EINVAL)) ts ss →
  does (btf_add_enum_common al_all name sz b kind)
    (if bool_decide (sz ∈ [1; 2; 4; 8]) then AddsType name kind 0 (bool_bit b) sz [] else Rejects (- EINVAL)) ts ss o.
Proof.
  intros Hsz Hnew. unfold btf_add_enum_common.
  rewrite (size_ok sz 8 [1; 2; 4; 8]) by (first [set_solver|reflexivity|unfold word_ok, in_u in *; lia]).
  destruct (bool_decide (sz ∈ [1; 2; 4; 8])); [|intros _; exact (does_reject _ _ _ _ Ho)].
  exact (does_new name kind 0 (bool_bit b) sz [] SIZEOF_TYPE Hnew eq_refl ltac:(done)).
Qed.

Lemma does_fwd name k : effect_fits (effect_of (last ts) (CFwd name k)) ts ss →
  does (btf__add_fwd al_all name k) (effect_of (last ts) (CFwd name k)) ts ss o.
Proof.
  cbn [effect_of]. unfold btf__add_fwd. rewrite no_name_named.
  destruct (named name); cbn [negb]; [|intros _; exact (does_reject _ _ _ _ Ho)].
  assert (∀ id, id = Z.of_nat (length ts) + 1 → (id <=? 0) = false) as Hpos by (intros; apply Z.leb_gt; lia).
  destruct (Z.eqb_spec k BTF_FWD_STRUCT) as [->|_]; [|destruct (Z.eqb_spec k BTF_FWD_UNION) as [->|_]];
    cbn [orb]; try (intros Hfit).
  - refine (does_new_info name BTF_KIND_FWD 0 0 0 _ _ eq_refl Hfit _ _); [new_done..|].
    intros n o' Hn. by rewrite (Hpos n Hn).
  - refine (does_new_info name BTF_KIND_FWD 0 1 0 _ _ eq_refl Hfit _ _); [new_done..|].
    intros n o' Hn. by rewrite (Hpos n Hn).
  - destruct (Z.eqb_spec k BTF_FWD_ENUM) as [->|_]; [|exact (does_reject _ _ _ _ Ho)].
    refine (does_enum name 4 BTF_KIND_ENUM false _ _ Hfit); [done|new_done].
Qed.

Lemma does_func name linkage id : effect_fits (effect_of (last ts) (CFunc name linkage id)) ts ss →
  does (btf__add_func al_all name linkage id) (effect_of (last ts) (CFunc name linkage id)) ts ss o.
Proof.
  cbn [effect_of]. unfold btf__add_func, BTF_FUNC_STATIC, BTF_FUNC_GLOBAL, BTF_FUNC_EXTERN. rewrite no_name_named, linkage_ok.
  destruct (named name), (bool_decide_reflect (linkage ∈ [0; 1; 2])) as [Hl|]; cbn [andb negb];
    try (intros _; exact (does_reject _ _ _ _ Ho)).
  destruct (ok_id id) eqn:Hid; intros Hfit.
  - refine (does_new_info name BTF_KIND_FUNC linkage 0 id _ _ Hid Hfit _ _).
    + repeat (apply elem_of_cons in Hl as [->|Hl]; [new_done|]). by apply elem_of_nil in Hl.
    + new_done.
    + intros n o' Hn. by replace (n >? 0) with true by (symmetry; apply Z.gtb_lt; lia).
  - unfold btf_add_ref_kind. rewrite bad_id_ok, Hid. exact (does_reject _ _ _ _ Ho).
Qed.

Lemma does_var name linkage id : effect_fits (effect_of (last ts) (CVar name linkage id)) ts ss →
  does (btf__add_var al_all name linkage id) (effect_of (last ts) (CVar name linkage id)) ts ss o.
Proof.
  cbn [effect_of]. unfold btf__add_var, BTF_VAR_STATIC, BTF_VAR_GLOBAL_ALLOCATED, BTF_VAR_GLOBAL_EXTERN.
  rewrite no_name_named, linkage_ok, bad_id_ok.
  destruct (named name), (bool_decide (linkage ∈ [0; 1; 2])), (ok_id id); cbn [andb negb];
    try (intros _; exact (does_reject _ _ _ _ Ho)).
  refine (does_new name BTF_KIND_VAR 0 0 id [linkage] (SIZEOF_TYPE + 4) _ eq_refl _); [new_done|done].
Qed.

Lemma does_decl_tag value id i : effect_fits (effect_of (last ts) (CDeclTag value id i)) ts ss →
  does (btf__add_decl_tag al_all value id i) (effect_of (last ts) (CDeclTag value id i)) ts ss o.
Proof.
  cbn [effect_of]. unfold btf__add_decl_tag. rewrite no_name_named, bad_id_ok, Z.ltb_antisym.
  destruct (named value), (-1 <=? i), (ok_id id); cbn [andb orb negb]; try (intros _; exact (does_reject _ _ _ _ Ho)).
  refine (does_new value BTF_KIND_DECL_TAG 0 0 id [i] (SIZEOF_TYPE + 4) _ eq_refl _); [new_done|done].
Qed.

Lemma does_array index elem n : effect_fits (effect_of (last ts) (CArray index elem n)) ts ss →
  does (btf__add_array al_all index elem n) (effect_of (last ts) (CArray index elem n)) ts ss o.
Proof.
  cbn [effect_of]. unfold btf__add_array. rewrite !bad_id_ok.
  destruct (ok_id index), (ok_id elem); cbn [andb orb negb]; try (intros _; exact (does_reject _ _ _ _ Ho)).
  refine (does_new None BTF_KIND_ARRAY 0 0 0 [elem; index; n] (SIZEOF_TYPE + 12) _ eq_refl _); [new_done|done].
Qed.

End calls.

(** * Items *)

(** The test of the last type. *)
Lemma last_of_spec ts ss o (kinds : list Z) (kind_ok : btf_type → bool) A (f : btf_type → M A) : built ts ss o →
  (∀ t, kind_ok t = bool_decide (btf_kind t ∈ kinds)) →
  bind (last_of kind_ok) f o =
  match last ts with
  | Some t => if bool_decide (btf_kind t ∈ kinds) then f (bare t) o else Some (o, inr (- EINVAL))
  | None => Some (o, inr (- EINVAL))
  end.
Proof.
  intros Ho Hk. pose proof (built_types _ _ _ Ho) as Hty. pose proof (proj1 (ht_index _ _ Hty)) as Hnr.
  rewrite length_offsets in Hnr. unfold bind at 1, last_of. rewrite (bind_eq get _ o o o eq_refl), Hnr.
  destruct ts as [|t ts0 _] using rev_ind; [done|]. rewrite last_snoc, length_app. cbn [length].
  destruct (last_type_spec _ _ _ Hty) as (_ & El & Ed).
  destruct (Z.eqb_spec (Z.of_nat (length ts0 + 1)) 0); [lia|].
  change (fail_if false (- EINVAL) ;;; ?m) with m.
  rewrite (bind_eq _ _ o o _ El), (bind_eq _ _ o o _ Ed), Hk. change (btf_kind (bare t)) with (btf_kind t).
  by destruct (bool_decide (btf_kind t ∈ kinds)).
Qed.

(** A function that adds an item to a last type of some kinds. *)
Lemma does_on ts ss o (kinds : list Z) kind_ok (f : btf_type → M Z) (e : btf_type → effect) : built ts ss o →
  (∀ t, kind_ok t = bool_decide (btf_kind t ∈ kinds)) →
  (∀ t, last ts = Some t → btf_kind t ∈ kinds → effect_fits (e t) ts ss → does (f (bare t)) (e t) ts ss o) →
  effect_fits (on_last (last ts) kinds e) ts ss → does (bind (last_of kind_ok) f) (on_last (last ts) kinds e) ts ss o.
Proof.
  unfold on_last. intros Ho Hk H. unfold does at 1, run at 1. rewrite (last_of_spec ts ss o kinds kind_ok Z f Ho Hk).
  destruct (last ts) as [t|] eqn:El; [|intros _; exact (does_reject _ _ _ _ Ho)].
  destruct (bool_decide_reflect (btf_kind t ∈ kinds)) as [Hin|]; [|intros _; exact (does_reject _ _ _ _ Ho)].
  exact (H t eq_refl Hin).
Qed.

Lemma does_item ts ss o t name kind kflag item sz info : built ts ss o → last ts = Some t →
  kind = btf_kind t → item_kind kind = true → kflag = 0 ∨ kflag = 1 →
  (∀ n, Z.of_nat (length (item n)) = item_words kind) → sz = 4 * item_words kind →
  (btf_vlen t + 1 < 65536 → info (bare t) = btf_type_info kind (btf_vlen t + 1) kflag) →
  effect_fits (AddsItem name kind kflag item) ts ss →
  does (v <- make_room al_all sz ;; name_off <- name_offset al_all name ;; put_words v (item name_off) ;;; finish_item sz info)
    (AddsItem name kind kflag item) ts ss o.
Proof.
  intros Ho El Hk Hik Hf Hitem Hsz Hinfo (Hn & Hmax & Hv). cbn [effect_name] in *.
  apply last_Some in El as [ts0 ->]. specialize (Hv t (last_snoc _ _)).
  assert (sz ≤ 12) by (rewrite Hsz; unfold item_words; destruct (_ || _); lia).
  destruct (triple_run _ _ _ o (triple_new_item ts0 t ss name kind kflag item sz info Hk Hik Hv Hf Hitem Hsz (Hinfo Hv)
    (proj1 (proj2 Ho)) Hn ltac:(lia)) Ho) as (o' & x & E & -> & Hh).
  exists o'. cbn [apply]. rewrite last_snoc, removelast_last. split; [done|]. by apply holding_built.
Qed.

Lemma kind_in2 a b t : (btf_kind t =? a) || (btf_kind t =? b) = bool_decide (btf_kind t ∈ [a; b]).
Proof.
  symmetry. destruct (Z.eqb_spec (btf_kind t) a), (Z.eqb_spec (btf_kind t) b); cbn [orb];
    first [apply bool_decide_eq_true|apply bool_decide_eq_false]; set_solver.
Qed.

Lemma kind_in1 a t : (btf_kind t =? a) = bool_decide (btf_kind t ∈ [a]).
Proof.
  symmetry. destruct (Z.eqb_spec (btf_kind t) a); first [apply bool_decide_eq_true|apply bool_decide_eq_false]; set_solver.
Qed.

Lemma bit_cases b : bool_bit b = 0 ∨ bool_bit b = 1.
Proof. destruct b; [by right|by left]. Qed.
Lemma in1 (x a : Z) : x ∈ [a] → x = a.
Proof. set_solver. Qed.

Lemma does_field ts ss o name id off sz : built ts ss o → word_ok off → word_ok sz →
  effect_fits (effect_of (last ts) (CField name id off sz)) ts ss →
  does (btf__add_field al_all name id off sz) (effect_of (last ts) (CField name id off sz)) ts ss o.
Proof.
  intros Ho Hoff Hsz. unfold word_ok, in_u in *. cbn [effect_of]. unfold btf__add_field.
  refine (does_on ts ss o _ _ _ _ Ho (kind_in2 BTF_KIND_STRUCT BTF_KIND_UNION) _). intros t El Hin.
  cbn zeta. rewrite bad_id_ok. fold (field_is_bitfield off sz). unfold field_ok. change (btf_kind (bare t)) with (btf_kind t).
  destruct (ok_id id); cbn [andb negb]; [|intros _; exact (does_reject _ _ _ _ Ho)].
  replace (field_is_bitfield off sz && ((sz =? 0) || (sz >? 255) || (off >? 16777215)))
    with (negb (negb (field_is_bitfield off sz) || (0 <? sz) && (sz <=? 255) && (off <=? 16777215))).
  2:{ rewrite !Z.gtb_ltb. destruct (field_is_bitfield off sz); [|done]. cbn [negb orb andb].
      destruct (Z.ltb_spec 0 sz), (Z.eqb_spec sz 0), (Z.leb_spec sz 255), (Z.ltb_spec 255 sz), (Z.leb_spec off 16777215),
        (Z.ltb_spec 16777215 off); try done; lia. }
  destruct (negb (field_is_bitfield off sz) || (0 <? sz) && (sz <=? 255) && (off <=? 16777215)) eqn:Hbits; cbn [andb negb];
    [|intros _; exact (does_reject _ _ _ _ Ho)].
  replace ((btf_kind t =? BTF_KIND_UNION) && negb (off =? 0)) with (negb (negb (btf_kind t =? BTF_KIND_UNION) || (off =? 0)))
    by (by destruct (btf_kind t =? BTF_KIND_UNION), (off =? 0)).
  destruct (negb (btf_kind t =? BTF_KIND_UNION) || (off =? 0)); cbn [negb]; [|intros _; exact (does_reject _ _ _ _ Ho)].
  assert (Z.lor off (Z.shiftl sz 24) = off + sz * 2 ^ 24) as ->.
  { apply orb_prop in Hbits as [Hb|Hb].
    - unfold field_is_bitfield in Hb. destruct (Z.eqb_spec sz 0) as [->|]; [|done]. rewrite Z.shiftl_0_l, Z.lor_0_r. lia.
    - rewrite Z.lor_comm, (lor_shift sz off 24); lia. }
  assert (item_kind (btf_kind t) = true ∧ item_words (btf_kind t) = 3) as [Hik Hiw].
  { generalize dependent (btf_kind t). intros k Hin. repeat (apply elem_of_cons in Hin as [->|Hin]; [done|]). by apply elem_of_nil in Hin. }
  intros Hfit. refine (does_item ts ss o t name _ _ (λ n, [n; id; off + sz * 2 ^ 24]) 12 _ Ho El eq_refl Hik (bit_cases _) _ _ _ Hfit).
  - intros n. by rewrite Hiw.
  - by rewrite Hiw.
  - done.
Qed.

Lemma does_enum_value ts ss o name v : built ts ss o →
  effect_fits (effect_of (last ts) (CEnumValue name v)) ts ss →
  does (btf__add_enum_value al_all name v) (effect_of (last ts) (CEnumValue name v)) ts ss o.
Proof.
  intros Ho. cbn [effect_of]. unfold btf__add_enum_value.
  refine (does_on ts ss o _ _ _ _ Ho (kind_in1 BTF_KIND_ENUM) _). intros t El Hin%in1. rewrite no_name_named.
  destruct (named name); cbn [negb]; [|intros _; exact (does_reject _ _ _ _ Ho)].
  rewrite Z.gtb_ltb, (Z.ltb_antisym INT_MIN v), (Z.ltb_antisym v UINT_MAX).
  destruct (INT_MIN <=? v), (v <=? UINT_MAX); cbn [andb orb negb]; try (intros _; exact (does_reject _ _ _ _ Ho)).
  refine (does_item ts ss o t name _ _ (λ n, [n; v]) 8 _ Ho El (eq_sym Hin) eq_refl (bit_cases _) (λ _, eq_refl) eq_refl _).
  intros Hv. cbn zeta. unfold btf_type_inc_vlen. change (btf_kind (bare t)) with (btf_kind t). rewrite Hin.
  change (btf_vlen (bare t)) with (btf_vlen t). change (kflag_Z (bare t)) with (bool_bit (btf_kflag t)).
  destruct (v <? 0); cbn [orb bt_info]; [|done]. set (t' := mkType _ _ _ _).
  pose proof (vlen_range t).
  destruct (info_fields t' BTF_KIND_ENUM (btf_vlen t + 1) (bool_bit (btf_kflag t))) as (-> & -> & _); [done|lia|apply bit_cases|done|done].
Qed.

Lemma does_enum64_value ts ss o name v : built ts ss o → in_u 64 v →
  effect_fits (effect_of (last ts) (CEnum64Value name v)) ts ss →
  does (btf__add_enum64_value al_all name v) (effect_of (last ts) (CEnum64Value name v)) ts ss o.
Proof.
  intros Ho Hv. cbn [effect_of]. unfold btf__add_enum64_value.
  refine (does_on ts ss o _ _ _ _ Ho (kind_in1 BTF_KIND_ENUM64) _). intros t El Hin%in1. rewrite no_name_named.
  destruct (named name); cbn [negb]; [|intros _; exact (does_reject _ _ _ _ Ho)]. rewrite Z.shiftr_div_pow2 by lia.
  refine (does_item ts ss o t name _ _ (λ n, [n; v; v / 2 ^ 32]) 12 _ Ho El (eq_sym Hin) eq_refl (bit_cases _) (λ _, eq_refl) eq_refl _).
  intros _. by rewrite <- Hin.
Qed.

Lemma does_func_param ts ss o name id : built ts ss o →
  effect_fits (effect_of (last ts) (CFuncParam name id)) ts ss →
  does (btf__add_func_param al_all name id) (effect_of (last ts) (CFuncParam name id)) ts ss o.
Proof.
  intros Ho. cbn [effect_of]. unfold btf__add_func_param. rewrite bad_id_ok.
  destruct (ok_id id); cbn [negb]; [|intros _; exact (does_reject _ _ _ _ Ho)].
  refine (does_on ts ss o _ _ _ _ Ho (kind_in1 BTF_KIND_FUNC_PROTO) _). intros t El Hin%in1.
  refine (does_item ts ss o t name _ _ (λ n, [n; id]) 8 _ Ho El (eq_sym Hin) eq_refl (bit_cases _) (λ _, eq_refl) eq_refl _).
  intros _. by rewrite <- Hin.
Qed.

Lemma does_var_info ts ss o id off sz : built ts ss o →
  effect_fits (effect_of (last ts) (CVarInfo id off sz)) ts ss →
  does (btf__add_datasec_var_info al_all id off sz) (effect_of (last ts) (CVarInfo id off sz)) ts ss o.
Proof.
  intros Ho. cbn [effect_of]. unfold btf__add_datasec_var_info.
  refine (does_on ts ss o _ _ _ _ Ho (kind_in1 BTF_KIND_DATASEC) _). intros t El Hin%in1. rewrite bad_id_ok.
  destruct (ok_id id); cbn [negb]; [|intros _; exact (does_reject _ _ _ _ Ho)].
  refine (does_item ts ss o t None _ _ (λ _, [id; off; sz]) 12 _ Ho El (eq_sym Hin) eq_refl (bit_cases _) (λ _, eq_refl) eq_refl _).
  intros _. by rewrite <- Hin.
Qed.

(** * Files *)

Lemma strs_bytes_bytes_ok ss : Forall bytes_ok ss → bytes_ok (strs_bytes ss).
Proof.
  induction 1 as [|s ss Hs Hss IH]; [constructor|]. cbn [strs_bytes flat_map]. apply bytes_ok_app. split; [|done].
  apply bytes_ok_app. split; [done|]. by apply (bool_decide_unpack (bytes_ok [0])).
Qed.

Lemma store_strs_ok ts ss : store_ok ts ss → strs_ok false (strs_bytes ss).
Proof.
  intros (_ & _ & _ & Hhd & Hsz). right. unfold file_size in Hsz. destruct ss as [|s ss]; [done|]. simplify_eq/=.
  split_and!; [done|unfold BTF_MAX_STR_OFFSET; cbn in *; lia| |done].
  change (last (strs_bytes ([] :: ss)) = Some 0). rewrite <- (rev_involutive ss).
  destruct (rev ss) as [|s l]; [done|]. cbn [rev]. rewrite app_comm_cons, strs_bytes_app. cbn [strs_bytes flat_map].
  rewrite app_nil_r, app_assoc. apply last_snoc.
Qed.

Lemma built_empty o : btf_new_empty true true None = inl o → built [] [[]] o.
Proof.
  intros [= <-]. unfold built.
  refine (conj _ (conj _ (conj (or_intror _) (conj (or_intror _) (or_introl _))))); try done.
  - split_and!; try done; by repeat constructor.
  - split; try done. apply idx_rel_nil.
Qed.

Lemma built_parsed sw ts ss o : store_ok ts ss →
  btf_new true true (λ _, true) (file_bytes sw ts (strs_bytes ss)) None = Some (inl o) → built ts ss o.
Proof.
  intros Hs E. pose proof Hs as (Hwf & _ & Hb & _ & Hsz).
  destruct (file_obj sw ts (strs_bytes ss) Hwf (strs_bytes_bytes_ok ss Hb) (store_strs_ok ts ss Hs) ltac:(lia)) as (o' & E' & Ho & Hraw).
  rewrite E in E'. simplify_eq. destruct Ho as [_ Hl Hba Eh Etl Et Hidx Es Hmod].
  refine (conj (conj Hba _) (conj Hs (conj (or_intror _) (conj _ (or_introl _))))).
  - by rewrite Hl.
  - split; try done. by apply Etl.
  - right. by rewrite Hraw.
  - by rewrite Hraw.
Qed.

(** What is written after [btf__set_endianness], and the object then. *)
Lemma built_write ts ss o endian : built ts ss o → endian = BTF_LITTLE_ENDIAN ∨ endian = BTF_BIG_ENDIAN →
  ∃ o', btf__raw_data true (btf__set_endianness o endian).1 =
    Some (o', Some (file_bytes (endian =? BTF_BIG_ENDIAN) ts (strs_bytes ss), file_size ts (strs_bytes ss))) ∧ built ts ss o'.
Proof.
  intros (Ha & Hs & Hp & Hc1 & Hc2) He. set (sw := endian =? BTF_BIG_ENDIAN). set (o1 := (btf__set_endianness o endian).1).
  assert (o_parts o1 = o_parts o ∧ o_links o1 = o_links o ∧ o_base o1 = o_base o ∧ r_swapped_endian (o_raw o1) = sw ∧
    r_data (o_raw o1) = r_data (o_raw o) ∧ r_size (o_raw o1) = r_size (o_raw o) ∧
    r_data_swapped (o_raw o1) = if sw then r_data_swapped (o_raw o) else None) as (Ep & El & Eb & Esw & E1 & E3 & E2)
    by (unfold o1, sw; by destruct He as [-> | ->]).
  assert (cache_ok (o_raw o1) ts ss) as [Hc1' Hc2'].
  { split; rewrite ?E1, ?E2, ?E3; [done|]. destruct sw; [done|by left]. }
  assert (btf_get_raw_data true o1 sw = Some (Some (file_bytes sw ts (strs_bytes ss), file_size ts (strs_bytes ss)))) as E.
  { destruct (if sw then r_data_swapped (o_raw o1) else r_data (o_raw o1)) as [d|] eqn:Ed.
    - unfold btf_get_raw_data. rewrite Ed. destruct sw; [destruct Hc2' as [|[Hd ->]]|destruct Hc1' as [|[Hd ->]]]; congruence.
    - pose proof Hs as (Hwf & _ & _ & _ & Hsz). rewrite <- Ep in Hp. apply get_file; [done|lia|..|done].
      + by destruct Hp as [[]|[]].
      + by destruct Hp as [[]|[]].
      + destruct Hp as [[_ _ _ [junk Ht] _ _ _]|[]]; [by exists junk|exists []; by rewrite app_nil_r].
      + unfold btf_strs_data. destruct Hp as [[_ _ _ _ _ _ (set & -> & Hrel & _)]|[_ _ _ _ _ ->]];
          [apply (sr_data _ _ Hrel)|exists []; by rewrite app_nil_r].
      + by destruct Hp as [[]|[]]. }
  unfold btf__raw_data. rewrite Esw, E. cbn [mbind option_bind]. eexists. split; [done|].
  split_and!; cbn [o_parts o_links o_base o_raw]; try done.
  - unfold alone. cbn [o_links o_base]. by rewrite El, Eb.
  - by rewrite Ep.
  - destruct sw; cbn [r_data r_data_swapped r_size]; split; cbn [r_data r_data_swapped r_size].
    + destruct Hc1' as [|[? _]]; [by left|by right].
    + by right.
    + by right.
    + destruct Hc2' as [|[? _]]; [by left|by right].
Qed.

(** What is written is read back. *)
Lemma built_readback ts ss o endian : built ts ss o → endian = BTF_LITTLE_ENDIAN ∨ endian = BTF_BIG_ENDIAN →
  ∃ o2 file n r, btf__raw_data true (btf__set_endianness o endian).1 = Some (o2, Some (file, n)) ∧
    btf_new true true (λ _, true) file None = Some (inl r) ∧
    btf_view r = Some (mkBtf ts 1 0 (strs_bytes ss) None 0).
Proof.
  intros H He. destruct (built_write ts ss o endian H He) as (o2 & Ew & _).
  pose proof H as (_ & Hs & _). pose proof Hs as (Hwf & _ & Hb & _ & Hsz).
  destruct (file_obj (endian =? BTF_BIG_ENDIAN) ts (strs_bytes ss) Hwf (strs_bytes_bytes_ok ss Hb) (store_strs_ok ts ss Hs) ltac:(lia))
    as (r & Er & Hr & _).
  eexists o2, _, _, r. split; [exact Ew|]. split; [done|]. exact (btf_view_of _ _ _ _ None _ _ Hr Hwf eq_refl).
Qed.

(** * Sequences of calls and writes *)

Inductive step := SCall (c : call) | SWrite (endian : Z).

Definition do_step (s : step) (o : btf_obj) : option (btf_obj * (Z + list Z)) :=
  match s with
  | SCall c => '(o, r) ← run (exec al_all c) o; Some (o, inl r)
  | SWrite endian => '(o, w) ← btf__raw_data true (btf__set_endianness o endian).1; '(data, _) ← w; Some (o, inr data)
  end.

Definition step_spec (s : step) (ts : list btf_type) (ss : list (list Z)) : list btf_type * list (list Z) * (Z + list Z) :=
  match s with
  | SCall c => let '(ts, ss, r) := call_spec c ts ss in (ts, ss, inl r)
  | SWrite endian => (ts, ss, inr (file_bytes (endian =? BTF_BIG_ENDIAN) ts (strs_bytes ss)))
  end.

Fixpoint do_steps (steps : list step) (o : btf_obj) : option (btf_obj * list (Z + list Z)) :=
  match steps with
  | [] => Some (o, [])
  | s :: steps => '(o, r) ← do_step s o; '(o, rs) ← do_steps steps o; Some (o, r :: rs)
  end.

Fixpoint steps_spec (steps : list step) (ts : list btf_type) (ss : list (list Z)) : list btf_type * list (list Z) * list (Z + list Z) :=
  match steps with
  | [] => (ts, ss, [])
  | s :: steps => let '(ts, ss, r) := step_spec s ts ss in let '(ts, ss, rs) := steps_spec steps ts ss in (ts, ss, r :: rs)
  end.

(** Every step has its room. *)
Fixpoint steps_fit (steps : list step) (ts : list btf_type) (ss : list (list Z)) : Prop :=
  match steps with
  | [] => True
  | s :: steps =>
      match s with
      | SCall c => args_ok c ∧ effect_fits (effect_of (last ts) c) ts ss
      | SWrite endian => endian = BTF_LITTLE_ENDIAN ∨ endian = BTF_BIG_ENDIAN
      end ∧ steps_fit steps (step_spec s ts ss).1.1 (step_spec s ts ss).1.2
  end.

(** A new object, or one that was read from a file. *)
Definition starts (ts : list btf_type) (ss : list (list Z)) (o : btf_obj) : Prop :=
  btf_new_empty true true None = inl o ∧ ts = [] ∧ ss = [[]] ∨
  store_ok ts ss ∧ ∃ sw, btf_new true true (λ _, true) (file_bytes sw ts (strs_bytes ss)) None = Some (inl o).

Lemma starts_built ts ss o : starts ts ss o → built ts ss o.
Proof. intros [(E & -> & ->)|(Hs & sw & E)]; [by apply built_empty|by eapply built_parsed]. Qed.

Lemma does_call c ts ss o : built ts ss o → args_ok c → effect_fits (effect_of (last ts) c) ts ss →
  does (exec al_all c) (effect_of (last ts) c) ts ss o.
Proof.
  intros Ho Ha. destruct c; cbn [exec args_ok] in *.
  - by apply does_str.
  - by apply does_int.
  - by apply does_float.
  - apply (does_ref ts ss o Ho); new_done.
  - apply (does_ref ts ss o Ho); new_done.
  - apply (does_ref ts ss o Ho); new_done.
  - apply (does_ref ts ss o Ho); new_done.
  - apply (does_named_ref ts ss o Ho); new_done.
  - apply (does_named_ref ts ss o Ho); new_done.
  - by apply does_array.
  - refine (does_new ts ss o Ho name BTF_KIND_STRUCT 0 0 byte_sz [] SIZEOF_TYPE _ eq_refl _); [new_done|done].
  - refine (does_new ts ss o Ho name BTF_KIND_UNION 0 0 byte_sz [] SIZEOF_TYPE _ eq_refl _); [new_done|done].
  - destruct Ha. by apply does_field.
  - apply (does_enum ts ss o Ho name byte_sz BTF_KIND_ENUM false); [done|new_done].
  - by apply does_enum_value.
  - apply (does_enum ts ss o Ho name byte_sz BTF_KIND_ENUM64 is_signed); [done|destruct is_signed; new_done].
  - by apply does_enum64_value.
  - by apply does_fwd.
  - by apply does_func.
  - cbn [effect_of]. apply (does_ref ts ss o Ho BTF_KIND_FUNC_PROTO None); new_done.
  - by apply does_func_param.
  - by apply does_var.
  - cbn [effect_of]. unfold btf__add_datasec. rewrite no_name_named.
    destruct (named name); [|intros _; exact (does_reject _ _ _ _ Ho)].
    refine (does_new ts ss o Ho name BTF_KIND_DATASEC 0 0 byte_sz [] SIZEOF_TYPE _ eq_refl _); [new_done|done].
  - by apply does_var_info.
  - by apply does_decl_tag.
Qed.

Lemma steps_refine steps ts ss o : built ts ss o → steps_fit steps ts ss →
  ∃ o', do_steps steps o = Some (o', (steps_spec steps ts ss).2) ∧
    built (steps_spec steps ts ss).1.1 (steps_spec steps ts ss).1.2 o'.
Proof.
  revert ts ss o. induction steps as [|s steps IH]; intros ts ss o Ho; [by exists o|]. intros [Hs Hfit].
  cbn [do_steps steps_spec].
  assert (∃ o1, do_step s o = Some (o1, (step_spec s ts ss).2) ∧ built (step_spec s ts ss).1.1 (step_spec s ts ss).1.2 o1)
    as (o1 & E & H1).
  { destruct s as [c|endian].
    - destruct Hs as [Ha Hf]. destruct (does_call c ts ss o Ho Ha Hf) as (o1 & E & H1). fold (call_spec c ts ss) in E, H1.
      exists o1. cbn [do_step step_spec]. rewrite E. by destruct (call_spec c ts ss) as [[? ?] ?].
    - destruct (built_write ts ss o endian Ho Hs) as (o1 & E & H1). exists o1. cbn [do_step]. by rewrite E. }
  rewrite E. cbn [mbind option_bind]. destruct (step_spec s ts ss) as [[ts1 ss1] r]. cbn [fst snd] in *.
  destruct (IH ts1 ss1 o1 H1 Hfit) as (o2 & E2 & H2). rewrite E2. cbn [mbind option_bind]. exists o2.
  by destruct (steps_spec steps ts1 ss1) as [[ts2 ss2] rs].
Qed.

(** * Theorems *)

(** C14. Every call that adds a string, a type or an item does to an object exactly what its
    specification does to the list of types and the list of strings it holds, on every
    branch: the checks, the offset of the name, the info word and the result. *)
Theorem btf_call_refines c ts ss o :
  built ts ss o → args_ok c → effect_fits (effect_of (last ts) c) ts ss →
  let '(ts', ss', r) := call_spec c ts ss in
  ∃ o', run (exec al_all c) o = Some (o', r) ∧ built ts' ss' o'.
Proof.
  intros Ho Ha Hf. destruct (does_call c ts ss o Ho Ha Hf) as (o' & E & H). fold (call_spec c ts ss) in E, H.
  destruct (call_spec c ts ss) as [[ts' ss'] r]. by exists o'.
Qed.

(** C11. After any sequence of calls and writes, from a new object or one that was read, the
    results and the files are the specified ones, and the file that is written in either
    byte order is read back to the types and the strings. *)
Theorem btf_build_roundtrip steps ts ss o :
  starts ts ss o → steps_fit steps ts ss →
  let '(ts', ss', outs) := steps_spec steps ts ss in
  ∃ o', do_steps steps o = Some (o', outs) ∧
    ∀ endian, endian = BTF_LITTLE_ENDIAN ∨ endian = BTF_BIG_ENDIAN →
    ∃ o2 file r, do_step (SWrite endian) o' = Some (o2, inr file) ∧
      btf_new true true (λ _, true) file None = Some (inl r) ∧
      btf_view r = Some (mkBtf ts' 1 0 (strs_bytes ss') None 0).
Proof.
  intros Ho%starts_built Hfit. destruct (steps_refine steps ts ss o Ho Hfit) as (o' & E & H).
  destruct (steps_spec steps ts ss) as [[ts' ss'] outs]. cbn [fst snd] in *. exists o'. split; [done|].
  intros endian He. destruct (built_readback ts' ss' o' endian H He) as (o2 & file & n & r & Ew & Er & Hv).
  exists o2, file, r. split; [cbn [do_step]; by rewrite Ew|done].
Qed.

(** A new object, a struct with a bit-field, a file, and an enumeration. *)
Definition demo_steps : list step :=
  let name s := Some (str_bytes s) in
  [SCall (CInt (name "int") 4 1); SCall (CStruct (name "s") 8); SCall (CField (name "a") 1 0 0);
   SCall (CField (name "int") 1 33 5); SWrite BTF_BIG_ENDIAN; SCall (CEnum None 4); SCall (CEnumValue (name "X") (-1));
   SWrite BTF_LITTLE_ENDIAN; SCall (CFunc (name "fn") 1 4)]%string.

Ltac name_fits := first [exact I|split; (apply (bool_decide_unpack (Forall _ _)); vm_compute; exact I)].
Ltac call_fits :=
  split; [first [exact I|by vm_compute]
         |split; [name_fits|split; [vm_compute; reflexivity|first [exact I|intros t [= <-]; vm_compute; reflexivity]]]].

Lemma demo_steps_fit : steps_fit demo_steps [] [[]].
Proof.
  repeat (split; [first [by left|by right|call_fits]|]); exact I.
Qed.

Definition empty_obj : btf_obj :=
  match btf_new_empty true true None with inl o => o | inr _ => mkObj (mkRaw None None 0 false)
    (mkParts false (mkHdr 0 0 0 0 0 0 0 0) [] [] 0 (mkIndex [] 0 0) (inl []) false) (mkLinks 0 0 0) None end.

Lemma btf_call_refines_witness : ∃ o',
  run (exec al_all (CInt (Some (str_bytes "int")) 4 1)) empty_obj = Some (o', 1) ∧
  built [mkType 1 (mk_info BTF_KIND_INT 0 false) 4 [2 ^ 24 + 32]] [[]; str_bytes "int"] o'.
Proof.
  apply (btf_call_refines (CInt (Some (str_bytes "int")) 4 1) [] [[]] empty_obj); [by apply built_empty|by vm_compute|].
  split; [name_fits|split; [vm_compute; reflexivity|exact I]].
Defined.

Lemma btf_build_roundtrip_witness :
  let '(ts', ss', outs) := steps_spec demo_steps [] [[]] in
  length ts' = 4%nat ∧
  ∃ o', do_steps demo_steps empty_obj = Some (o', outs) ∧
    ∀ endian, endian = BTF_LITTLE_ENDIAN ∨ endian = BTF_BIG_ENDIAN →
    ∃ o2 file r, do_step (SWrite endian) o' = Some (o2, inr file) ∧
      btf_new true true (λ _, true) file None = Some (inl r) ∧
      btf_view r = Some (mkBtf ts' 1 0 (strs_bytes ss') None 0).
Proof.
  split; [reflexivity|]. exact (btf_build_roundtrip demo_steps [] [[]] empty_obj (or_introl (conj eq_refl (conj eq_refl eq_refl))) demo_steps_fit).
Defined.

(** The 65536th item: [vlen] reads as 0, and the info word has a bit of no field. *)
Lemma vlen_overflow :
  let t := mkType 0 (mk_info BTF_KIND_ENUM 65535 false) 4 [] in
  let t' := mkType 0 (btf_type_inc_vlen t) 4 [] in
  btf_vlen t = 65535 ∧ btf_vlen t' = 0 ∧ btf_type_size t' = SIZEOF_TYPE ∧ bt_info t' = mk_info BTF_KIND_ENUM 65536 false.
Proof. vm_compute. done. Qed.

(** A bit-field, then a plain member at bit 2^24 + 8. *)
Lemma field_offset_lost :
  (ts ← Some (steps_spec [SCall (CInt (Some [105]) 4 0); SCall (CStruct (Some [115]) (2 ^ 22)); SCall (CField (Some [97]) 1 0 3);
                          SCall (CField (Some [98]) 1 (2 ^ 24 + 8) 0)] [] [[]]).1.1;
   t ← last ts;
   off ← btf_member_bit_offset t 1; sz ← btf_member_bitfield_size t 1; Some (off, sz)) = Some (8, 1).
Proof. vm_compute. reflexivity. Qed.
