(* ===== verification/BtfMerge.v ===== *)
(** Copying types from another BTF object (src/libbpf/src/btf.c lines 1553-1733, the
    visitors 4699-4827): [btf__add_type] copies one, [btf__add_btf] all of them; names
    are added to the strings of the destination and ids are moved behind its types.

    The destination is the state of the monad of BtfAdd.v.  A visitor is given the
    context and the word it points to and gives the new context and word.  [al n] are
    the allocations of the n-th string added, [hash_ok n] those of its entry in the map
    of offsets, [al0] those of the rest. *)
From stdpp Require Import base list sets strings.
From Stdlib Require Import ZArith Lia.
From S2P Require Import Prelude Bytes Mem Errno Hashmap Strset Btf BtfRaw BtfFile BtfAdd BtfStore BtfBuild.

#[local] Open Scope Z_scope.
#[local] Open Scope btf_scope.

(** * Definitions *)

Definition btf_dedup_identity_hash_fn (key : Z) : Z := key.
Definition btf_dedup_equal_fn (k1 k2 : Z) : bool := k1 =? k2.

(** [btf__str_by_offset] on an object. *)
Fixpoint obj_str_by_offset (o : btf_obj) (offset : Z) {struct o} : option (list Z) :=
  match o with
  | mkObj _ p l base =>
      if offset <? u32 (l_start_str_off l) then
        match base with Some b => obj_str_by_offset b offset | None => None end
      else if u32 (offset - l_start_str_off l) <? h_str_len (p_hdr p) then
        Some (cstr_at (btf_strs_data p) (u32 (offset - l_start_str_off l)))
      else None
  end.

(** [pi_calls] counts the strings added. *)
Record btf_pipe := mkPipe { pi_src : btf_obj; str_off_map : option (hashmap Z Z); pi_calls : nat }.

(** Adding a null string is undefined. *)
Definition btf_rewrite_str (al : nat → nat → allocs) (hash_ok : nat → bool * bool) (p : btf_pipe) (str_off : Z)
    : M (btf_pipe * Z) :=
  if str_off =? 0 then ret (p, str_off)
  else
    found <- read (match str_off_map p with
                   | None => Some None
                   | Some m => hashmap__find btf_dedup_identity_hash_fn btf_dedup_equal_fn m str_off
                   end) ;;
    match found with
    | Some mapped_off => ret (p, u32 mapped_off)
    | None =>
        s <- read (obj_str_by_offset (pi_src p) str_off) ;;
        off <- btf__add_str (al (pi_calls p)) s ;;
        match str_off_map p with
        | None => ret (mkPipe (pi_src p) None (S (pi_calls p)), off)
        | Some m =>
            let '(a1, a2) := hash_ok (pi_calls p) in
            r <- read (hashmap__insert btf_dedup_identity_hash_fn btf_dedup_equal_fn a1 a2 m str_off off HASHMAP_APPEND) ;;
            let '(m, err, _) := r in
            fail_if (negb (err =? 0)) err ;;;
            ret (mkPipe (pi_src p) (Some m) (S (pi_calls p)), off)
        end
    end.

Definition btf_rewrite_type_ids (_ : unit) (type_id : Z) : M (unit * Z) :=
  if type_id =? 0 then ret (tt, type_id)
  else o <- get ;; ret (tt, u32 (type_id + (l_start_id (o_links o) + ti_nr (p_index (o_parts o)) - 1))).

Section visit.
Context {S : Type} (visit : S → Z → M (S * Z)).

(** Visiting the word at [off]. *)
Definition visit_word (off : Z) (ctx : S) : M S :=
  o <- get ;;
  w <- read (load32 (p_types (o_parts o)) off) ;;
  r <- visit ctx w ;;
  put_words off [r.2] ;;;
  ret r.1.

(** Visiting a word in each of [n] structures of [stride] bytes. *)
Fixpoint visit_each (n : nat) (stride off : Z) (ctx : S) : M S :=
  match n with
  | O => ret ctx
  | Datatypes.S n => ctx <- visit_word off ctx ;; visit_each n stride (off + stride) ctx
  end.

Definition btf_type_visit_type_ids (t : Z) (ctx : S) : M S :=
  ty <- deref t ;;
  let n := Z.to_nat (btf_vlen ty) in
  let k := btf_kind ty in
  if (k =? BTF_KIND_INT) || (k =? BTF_KIND_FLOAT) || (k =? BTF_KIND_ENUM) || (k =? BTF_KIND_ENUM64) then ret ctx
  else if (k =? BTF_KIND_FWD) || (k =? BTF_KIND_CONST) || (k =? BTF_KIND_VOLATILE) || (k =? BTF_KIND_RESTRICT) ||
          (k =? BTF_KIND_PTR) || (k =? BTF_KIND_TYPEDEF) || (k =? BTF_KIND_FUNC) || (k =? BTF_KIND_VAR) ||
          (k =? BTF_KIND_DECL_TAG) || (k =? BTF_KIND_TYPE_TAG) then visit_word (t + 8) ctx
  else if k =? BTF_KIND_ARRAY then
    ctx <- visit_word (t + SIZEOF_TYPE) ctx ;; visit_word (t + SIZEOF_TYPE + 4) ctx
  else if (k =? BTF_KIND_STRUCT) || (k =? BTF_KIND_UNION) then visit_each n 12 (t + SIZEOF_TYPE + 4) ctx
  else if k =? BTF_KIND_FUNC_PROTO then
    ctx <- visit_word (t + 8) ctx ;; visit_each n 8 (t + SIZEOF_TYPE + 4) ctx
  else if k =? BTF_KIND_DATASEC then visit_each n 12 (t + SIZEOF_TYPE) ctx
  else fail (- EINVAL).

Definition btf_type_visit_str_offs (t : Z) (ctx : S) : M S :=
  ctx <- visit_word t ctx ;;
  ty <- deref t ;;
  let n := Z.to_nat (btf_vlen ty) in
  let k := btf_kind ty in
  if (k =? BTF_KIND_STRUCT) || (k =? BTF_KIND_UNION) then visit_each n 12 (t + SIZEOF_TYPE) ctx
  else if k =? BTF_KIND_ENUM then visit_each n 8 (t + SIZEOF_TYPE) ctx
  else if k =? BTF_KIND_ENUM64 then visit_each n 12 (t + SIZEOF_TYPE) ctx
  else if k =? BTF_KIND_FUNC_PROTO then visit_each n 8 (t + SIZEOF_TYPE) ctx
  else ret ctx.
End visit.

(** [memcpy] and [memset] into the types. *)
Definition put_bytes (off : Z) (bs : list Z) : M unit :=
  o <- get ;;
  types <- read (store (p_types (o_parts o)) off bs) ;;
  set_parts (with_types (o_parts o) types (p_types_cap (o_parts o))).

(** [src_type] is the memory at the type. *)
Definition btf__add_type (al0 : nat → allocs) (al : nat → nat → allocs) (src_btf : btf_obj) (src_type : list Z) : M Z :=
  ty <- read (type_load src_type 0) ;;
  let sz := btf_type_size ty in
  fail_if (sz <? 0) sz ;;;
  t <- make_room al0 sz ;;
  bs <- read (slice src_type 0 (Z.to_nat sz)) ;;
  put_bytes t bs ;;;
  btf_type_visit_str_offs (btf_rewrite_str al (λ _, (true, true))) t (mkPipe src_btf None 0) ;;;
  btf_commit_type (al0 O) sz.

Definition put_index (off v : Z) : M unit :=
  o <- get ;;
  let ti := p_index (o_parts o) in
  offs <- read (store (ti_offs ti) off (le_bytes 4 v)) ;;
  set_parts (with_index (o_parts o) (mkIndex offs (ti_cap ti) (ti_nr ti))).

(** [m], and what is done on its error. *)
Definition on_error {A} (m : M A) (handler : Z → M A) : M A := λ o,
  '(o, r) ← m o; match r with inl x => Some (o, inl x) | inr err => handler err o end.

(** The loop over the copied types: [t] is the offset of the next type, [off] of its
    entry in the index. *)
Fixpoint rewrite_types (cnt : nat) (al : nat → nat → allocs) (hash_ok : nat → bool * bool) (t off : Z) (p : btf_pipe)
    : M btf_pipe :=
  match cnt with
  | O => ret p
  | S cnt =>
      ty <- deref t ;;
      let sz := btf_type_size ty in
      fail_if (sz <? 0) sz ;;;
      put_index off (u32 t) ;;;
      p <- btf_type_visit_str_offs (btf_rewrite_str al hash_ok) t p ;;
      btf_type_visit_type_ids btf_rewrite_type_ids t tt ;;;
      rewrite_types cnt al hash_ok (t + sz) (off + 4) p
  end.

(** [err_out]: [strs_data] is null in an object that is modified, so zeroing the strings
    behind the old end is undefined when there are some. *)
Definition roll_back (data_sz old_strs_len err : Z) : M btf_pipe :=
  o <- get ;;
  put_bytes (h_type_len (p_hdr (o_parts o))) (replicate (Z.to_nat data_sz) 0) ;;;
  (if h_str_len (p_hdr (o_parts o)) =? old_strs_len then ret tt else undef) ;;;
  o <- get ;;
  set_parts (with_hdr (o_parts o) (hdr_with_str_len (p_hdr (o_parts o)) old_strs_len)) ;;;
  fail err.

Definition btf__add_btf (al0 : nat → allocs) (al : nat → nat → allocs) (hash_ok : nat → bool * bool) (src_btf : btf_obj) : M Z :=
  fail_if (bool_decide (is_Some (o_base src_btf))) (- ENOTSUP) ;;;
  or_err (btf_ensure_modifiable (al0 O)) (- ENOMEM) ;;;
  o <- get ;;
  let old_strs_len := h_str_len (p_hdr (o_parts o)) in
  let data_sz := s32 (h_type_len (p_hdr (o_parts src_btf))) in
  let cnt := s32 (u32 (obj_type_cnt src_btf - 1)) in
  t <- or_err (btf_add_type_mem (al0 O) (u64 data_sz)) (- ENOMEM) ;;
  o <- get ;;
  match btf_add_type_offs_mem (al_offs (al0 O)) (p_index (o_parts o)) (u64 cnt) with
  | None => fail (- ENOMEM)
  | Some (ti, off) =>
      set_parts (with_index (o_parts o) ti) ;;;
      match hashmap__new (al_map (al0 O)) with
      | None => fail (- ENOMEM)
      | Some m =>
          bs <- read (slice (p_types (o_parts src_btf)) 0 (Z.to_nat (u64 data_sz))) ;;
          put_bytes t bs ;;;
          on_error (rewrite_types (Z.to_nat cnt) al hash_ok t off (mkPipe src_btf (Some m) 0))
            (roll_back (u64 data_sz) old_strs_len) ;;;
          grow_sections data_sz ;;;
          o <- get ;;
          let ti := p_index (o_parts o) in
          let ti := mkIndex (ti_offs ti) (ti_cap ti) (u32 (ti_nr ti + cnt)) in
          set_parts (with_index (o_parts o) ti) ;;;
          ret (s32 (l_start_id (o_links o) + ti_nr ti - cnt))
      end
  end.

(** * The words a type refers with *)

(** The positions among the words of a type (name, info, size, then the rest) of [n]
    structures of [st] words, from [p0]. *)
Fixpoint each_pos (n st p0 : nat) : list nat :=
  match n with O => [] | S n => p0 :: each_pos n st (p0 + st) end.

Definition str_pos (t : btf_type) : list nat :=
  let n := Z.to_nat (btf_vlen t) in
  let k := btf_kind t in
  O :: (if (k =? BTF_KIND_STRUCT) || (k =? BTF_KIND_UNION) then each_pos n 3 3
        else if k =? BTF_KIND_ENUM then each_pos n 2 3
        else if k =? BTF_KIND_ENUM64 then each_pos n 3 3
        else if k =? BTF_KIND_FUNC_PROTO then each_pos n 2 3
        else []).

Definition id_pos (t : btf_type) : list nat :=
  let n := Z.to_nat (btf_vlen t) in
  let k := btf_kind t in
  if (k =? BTF_KIND_INT) || (k =? BTF_KIND_FLOAT) || (k =? BTF_KIND_ENUM) || (k =? BTF_KIND_ENUM64) then []
  else if (k =? BTF_KIND_FWD) || (k =? BTF_KIND_CONST) || (k =? BTF_KIND_VOLATILE) || (k =? BTF_KIND_RESTRICT) ||
          (k =? BTF_KIND_PTR) || (k =? BTF_KIND_TYPEDEF) || (k =? BTF_KIND_FUNC) || (k =? BTF_KIND_VAR) ||
          (k =? BTF_KIND_DECL_TAG) || (k =? BTF_KIND_TYPE_TAG) then [2%nat]
  else if k =? BTF_KIND_ARRAY then [3%nat; 4%nat]
  else if (k =? BTF_KIND_STRUCT) || (k =? BTF_KIND_UNION) then each_pos n 3 4
  else if k =? BTF_KIND_FUNC_PROTO then 2%nat :: each_pos n 2 4
  else if k =? BTF_KIND_DATASEC then each_pos n 3 3
  else [].

Lemma elem_of_each_pos n st p0 p : p ∈ each_pos n st p0 ↔ ∃ i, (i < n)%nat ∧ p = (p0 + i * st)%nat.
Proof.
  revert p0. induction n as [|n IH]; intros p0; cbn [each_pos].
  - split; [by intros ?%elem_of_nil|intros (i & ? & _); lia].
  - rewrite elem_of_cons, IH. split.
    + intros [->|(i & Hi & ->)]; [exists 0%nat; lia|exists (S i); lia].
    + intros ([|i] & Hi & ->); [left; lia|right; exists i; lia].
Qed.

Lemma each_pos_nodup n st p0 : (0 < st)%nat → NoDup (each_pos n st p0).
Proof.
  intros Hst. revert p0. induction n as [|n IH]; intros p0; cbn [each_pos]; constructor; [|apply IH].
  rewrite elem_of_each_pos. intros (i & _ & ?). nia.
Qed.

Definition all_kinds : list Z :=
  [BTF_KIND_INT; BTF_KIND_PTR; BTF_KIND_ARRAY; BTF_KIND_STRUCT; BTF_KIND_UNION; BTF_KIND_ENUM; BTF_KIND_FWD;
   BTF_KIND_TYPEDEF; BTF_KIND_VOLATILE; BTF_KIND_CONST; BTF_KIND_RESTRICT; BTF_KIND_FUNC; BTF_KIND_FUNC_PROTO;
   BTF_KIND_VAR; BTF_KIND_DATASEC; BTF_KIND_FLOAT; BTF_KIND_DECL_TAG; BTF_KIND_TYPE_TAG; BTF_KIND_ENUM64].

Lemma wf_kind t : type_wf t → btf_kind t ∈ all_kinds.
Proof.
  intros [_ Hs]. unfold btf_type_size in Hs. unfold all_kinds.
  repeat match type of Hs with context [?a =? ?b] => destruct (Z.eqb_spec a b) as [->|]; [by apply (bool_decide_unpack _)|] end.
  clear - Hs. cbn [orb] in Hs. unfold SIZEOF_TYPE, EINVAL in Hs. lia.
Qed.

(** Case analysis on the kind of a well-formed type. *)
Ltac wf_kinds t Hk :=
  generalize dependent (btf_kind t); let k := fresh "k" in intros k;
  unfold all_kinds; intros Hk; repeat (apply elem_of_cons in Hk as [->|Hk]; [|]); [..|by apply elem_of_nil in Hk].

Ltac pos_split :=
  let H := fresh in intros H;
  repeat match type of H with _ ∨ _ => destruct H as [H|H] end;
  try (destruct H as (? & ? & H)); try lia; try done.
Ltac pos_solve :=
  rewrite ?elem_of_cons, ?elem_of_each_pos, ?elem_of_nil; pos_split; split_and?; try lia; try pos_split.

Lemma pos_spec t : type_wf t →
  NoDup (str_pos t) ∧ (∀ p, p ∈ str_pos t → (p < length (type_words t))%nat ∧ p ≠ 1%nat) ∧
  NoDup (id_pos t) ∧ (∀ p, p ∈ id_pos t → (p < length (type_words t))%nat ∧ p ≠ 1%nat ∧ p ∉ str_pos t).
Proof.
  intros Hwf. pose proof (wf_kind t Hwf) as Hk. destruct Hwf as [_ Hs]. pose proof (vlen_range t) as Hv.
  unfold btf_type_size, SIZEOF_TYPE in Hs. unfold id_pos, str_pos, type_words. cbn [length].
  revert Hk Hs. set (n := btf_vlen t) in *. wf_kinds t Hk; intros Hs; cbn in Hs |- *; split_and!;
    repeat (apply NoDup_cons; split); try (apply each_pos_nodup; lia); try apply NoDup_nil_2;
    try match goal with |- ∀ p : nat, _ → _ => intros p end; try pos_solve.
Qed.

(** * Visiting *)

(** Visiting the words at some positions of the type at [t]. *)
Fixpoint visit_list {S} (visit : S → Z → M (S * Z)) (ps : list nat) (t : Z) (ctx : S) : M S :=
  match ps with
  | [] => ret ctx
  | p :: ps => ctx <- visit_word visit (t + 4 * Z.of_nat p) ctx ;; visit_list visit ps t ctx
  end.

Lemma bind_ext {A B} (m : M A) (f g : A → M B) o : (∀ x o, f x o = g x o) → bind m f o = bind m g o.
Proof. intros H. unfold bind. destruct (m o) as [[o' [x|err]]|]; [apply H|done..]. Qed.

Lemma visit_each_list {S} (visit : S → Z → M (S * Z)) n st p0 t a off ctx o :
  a = 4 * Z.of_nat st → off = t + 4 * Z.of_nat p0 →
  visit_each visit n a off ctx o = visit_list visit (each_pos n st p0) t ctx o.
Proof.
  intros -> ->. revert p0 ctx o. induction n as [|n IH]; intros p0 ctx o; [done|]. cbn [visit_each visit_list each_pos].
  apply bind_ext. intros ctx' o'. rewrite <- IH. f_equal. lia.
Qed.

(** A write into what is pending. *)
Lemma put_bytes_pend ts ss a old c off bs o : holding ts ss (a ++ old ++ c) o →
  off = Z.of_nat (length (types_bytes false ts) + length a) → length old = length bs →
  ∃ o', put_bytes off bs o = Some (o', inl tt) ∧ holding ts ss (a ++ bs ++ c) o' ∧ p_index (o_parts o') = p_index (o_parts o).
Proof.
  intros (Ha & H1 & H2 & Hs & [Hm Hh Htl [junk Ht] Hc Hi Hst]) -> Hl.
  unfold put_bytes. rewrite (bind_eq get _ o o o eq_refl), Ht.
  replace (types_bytes false ts ++ (a ++ old ++ c) ++ junk) with ((types_bytes false ts ++ a) ++ old ++ c ++ junk)
    by (by rewrite <- !app_assoc).
  rewrite (store_app_mid (types_bytes false ts ++ a)) by (first [by rewrite length_app|done]).
  unfold bind, read, ret, set_parts. cbn [mbind option_bind]. eexists. split; [done|]. split; [|done]. split_and!; try done.
  split; cbn [o_parts with_types p_modifiable p_hdr p_hdr_tail p_types p_types_cap p_index p_strs]; try done.
  - exists junk. by rewrite <- !app_assoc.
  - rewrite Ht in Hc. rewrite !length_app in Hc |- *. destruct Hc. split; [lia|done].
Qed.

Lemma load_pend ts ss a w c off o : holding ts ss (a ++ word_bytes false w ++ c) o → word_ok w →
  off = Z.of_nat (length (types_bytes false ts) + length a) → load32 (p_types (o_parts o)) off = Some w.
Proof.
  intros (_ & _ & _ & _ & [_ _ _ [junk Ht] _ _ _]) Hw ->. rewrite Ht.
  replace (types_bytes false ts ++ (a ++ word_bytes false w ++ c) ++ junk)
    with ((types_bytes false ts ++ a) ++ word_bytes false w ++ c ++ junk) by (by rewrite <- !app_assoc).
  apply load_word; [by rewrite length_app|done].
Qed.

Lemma deref_pend ts ss pre t post off o : holding ts ss (pre ++ words_bytes false (type_words t) ++ post) o →
  words_ok (type_words t) → off = Z.of_nat (length (types_bytes false ts) + length pre) →
  deref off o = Some (o, inl (bare t)).
Proof.
  intros (_ & _ & _ & _ & [_ _ _ [junk Ht] _ _ _]) Hw ->. unfold deref. rewrite (bind_eq get _ o o o eq_refl), Ht.
  rewrite type_words_head, words_bytes_app. rewrite type_words_head in Hw. apply Forall_app in Hw as [Hw _].
  replace (types_bytes false ts ++ (pre ++ (words_bytes false (type_head t) ++ words_bytes false (bt_rest t)) ++ post) ++ junk)
    with ((types_bytes false ts ++ pre) ++ words_bytes false (type_head t) ++ words_bytes false (bt_rest t) ++ post ++ junk)
    by (by rewrite <- !app_assoc).
  rewrite type_load_head; [done|by rewrite length_app|done].
Qed.

Section visits.
Context {S : Type} (visit : S → Z → M (S * Z)) (ts : list btf_type).
(** What holds of the context and the strings while an amount of room is left, how a
    word is related to its new one, and the room a word takes. *)
Context (P : S → list (list Z) → Z → Prop) (R : list (list Z) → Z → Z → Prop) (cost : Z → Z).

Definition visits : Prop := ∀ w ctx ss pend b o,
  P ctx ss (cost w + b) → 0 ≤ b → word_ok w → holding ts ss pend o →
  ∃ o' ctx' ss' w', visit ctx w o = Some (o', inl (ctx', w')) ∧ holding ts ss' pend o' ∧ same_types o o' ∧
    P ctx' ss' b ∧ word_ok w' ∧ R ss' w w' ∧ ss `prefix_of` ss'.

Context (Hvisit : visits) (Hmono : ∀ ss ss' w w', R ss w w' → ss `prefix_of` ss' → R ss' w w') (Hcost : ∀ w, 0 ≤ cost w).

Lemma visit_word_spec pre ws post j w ctx ss b t o :
  holding ts ss (pre ++ words_bytes false ws ++ post) o → words_ok ws → ws !! j = Some w → P ctx ss (cost w + b) → 0 ≤ b →
  t = Z.of_nat (length (types_bytes false ts) + length pre) →
  ∃ o' ctx' ss' w', visit_word visit (t + 4 * Z.of_nat j) ctx o = Some (o', inl ctx') ∧
    holding ts ss' (pre ++ words_bytes false (<[j := w']> ws) ++ post) o' ∧ p_index (o_parts o') = p_index (o_parts o) ∧
    P ctx' ss' b ∧ word_ok w' ∧ R ss' w w' ∧ ss `prefix_of` ss'.
Proof.
  intros Ho Hws Hj Hp Hb ->. pose proof (lookup_lt_Some _ _ _ Hj) as Hlt.
  assert (word_ok w) as Hw by by eapply Forall_lookup_1.
  set (a := pre ++ words_bytes false (take j ws)). set (c := words_bytes false (drop (Datatypes.S j) ws) ++ post).
  assert (∀ v, pre ++ words_bytes false (<[j := v]> ws) ++ post = a ++ word_bytes false v ++ c) as Hsplit.
  { intros v. unfold a, c. rewrite insert_take_drop by done. rewrite words_bytes_app. cbn [words_bytes flat_map].
    by rewrite <- !app_assoc. }
  assert (Z.of_nat (length (types_bytes false ts) + length pre) + 4 * Z.of_nat j = Z.of_nat (length (types_bytes false ts) + length a)) as Hoff.
  { unfold a. rewrite length_app, length_words_bytes, length_take_le by lia. lia. }
  assert (pre ++ words_bytes false ws ++ post = a ++ word_bytes false w ++ c) as E by (rewrite <- Hsplit; by rewrite list_insert_id).
  rewrite E in Ho. unfold visit_word. rewrite (bind_eq get _ o o o eq_refl).
  rewrite (load_pend _ _ _ _ _ _ _ Ho Hw Hoff), (bind_eq (read (Some w)) _ o o w eq_refl).
  destruct (Hvisit w ctx ss _ b o Hp Hb Hw Ho) as (o1 & ctx' & ss' & w' & E1 & H1 & (_ & _ & Hidx) & Hp' & Hw' & Hr & Hpre).
  rewrite (bind_eq _ _ _ _ _ E1). cbn [fst snd].
  destruct (put_bytes_pend ts ss' a (word_bytes false w) c _ (words_bytes false (map u32 [w'])) o1 H1 Hoff) as (o2 & E2 & H2 & Hidx2).
  { by rewrite length_word_bytes, length_words_bytes. }
  exists o2, ctx', ss', w'. rewrite (bind_eq (put_words _ _) _ o1 o2 tt E2). split; [done|].
  rewrite Hsplit. cbn [map words_bytes flat_map] in H2. rewrite app_nil_r, wrap_small in H2 by done.
  split; [done|]. split; [congruence|done].
Qed.

Definition cost_at (ps : list nat) (ws : list Z) : Z := foldr (λ p n, cost (ws !!! p) + n) 0 ps.

Definition moved (ps : list nat) (ss : list (list Z)) (ws ws' : list Z) : Prop :=
  length ws' = length ws ∧
  ∀ j w w', ws !! j = Some w → ws' !! j = Some w' → if decide (j ∈ ps) then R ss w w' else w' = w.

Lemma cost_at_nonneg ps ws : 0 ≤ cost_at ps ws.
Proof. induction ps as [|p ps IH]; cbn; [done|]. specialize (Hcost (ws !!! p)). unfold cost_at in IH. lia. Qed.

Lemma cost_at_insert ps ws p w : p ∉ ps → cost_at ps (<[p := w]> ws) = cost_at ps ws.
Proof.
  induction ps as [|q ps IH]; intros Hp; [done|]. cbn. apply not_elem_of_cons in Hp as [Hne Hp]. unfold cost_at in IH.
  rewrite IH by done. by rewrite list_lookup_total_insert_ne.
Qed.

Lemma visit_list_spec ps : NoDup ps → ∀ pre ws post ctx ss b t o,
  (∀ p, p ∈ ps → (p < length ws)%nat) → holding ts ss (pre ++ words_bytes false ws ++ post) o → words_ok ws →
  P ctx ss (cost_at ps ws + b) → 0 ≤ b → t = Z.of_nat (length (types_bytes false ts) + length pre) →
  ∃ o' ctx' ss' ws', visit_list visit ps t ctx o = Some (o', inl ctx') ∧
    holding ts ss' (pre ++ words_bytes false ws' ++ post) o' ∧ p_index (o_parts o') = p_index (o_parts o) ∧
    P ctx' ss' b ∧ words_ok ws' ∧ moved ps ss' ws ws' ∧ ss `prefix_of` ss'.
Proof.
  induction 1 as [|p ps Hp Hnd IH]; intros pre ws post ctx ss b t o Hlt Ho Hws HP Hb Ht.
  - exists o, ctx, ss, ws. split_and!; try done. split; [done|]. intros j w w' H1 H2. simplify_eq. by rewrite decide_False by set_solver.
  - cbn [visit_list]. destruct (lookup_lt_is_Some_2 ws p) as [w Hw]; [set_solver|].
    cbn [cost_at foldr] in HP. fold (cost_at ps ws) in HP. rewrite (list_lookup_total_correct _ _ _ Hw), <- Z.add_assoc in HP.
    pose proof (cost_at_nonneg ps ws) as Hnn.
    destruct (visit_word_spec pre ws post p w ctx ss (cost_at ps ws + b) t o Ho Hws Hw HP ltac:(lia) Ht)
      as (o1 & ctx1 & ss1 & w1 & E1 & H1 & Hi1 & HP1 & Hw1 & Hr1 & Hpre1).
    rewrite (bind_eq _ _ _ _ _ E1). rewrite <- (cost_at_insert ps ws p w1) in HP1 by done.
    destruct (IH pre (<[p := w1]> ws) post ctx1 ss1 b t o1) as (o2 & ctx2 & ss2 & ws2 & E2 & H2 & Hi2 & HP2 & Hok2 & [Hl2 Hm2] & Hpre2);
      [|done| |done..|].
    { intros q Hq. rewrite length_insert. set_solver. }
    { by apply Forall_insert. }
    exists o2, ctx2, ss2, ws2. rewrite length_insert in Hl2. split_and!; try done; [congruence| |by etrans]. split; [done|].
    intros j v v' Hj Hj'. destruct (decide (j = p)) as [->|Hne].
    + rewrite decide_True by set_solver. simplify_eq. specialize (Hm2 p w1 v').
      rewrite list_lookup_insert_eq, decide_False in Hm2 by (first [done|by eapply lookup_lt_Some]).
      rewrite (Hm2 eq_refl Hj'). by eapply Hmono.
    + specialize (Hm2 j v v'). rewrite list_lookup_insert_ne in Hm2 by done. specialize (Hm2 Hj Hj').
      destruct (decide (j ∈ ps)); [rewrite decide_True by set_solver|rewrite decide_False by set_solver]; done.
Qed.

(** The new words are those of a type of the same kind and size. *)
Lemma moved_type ps ss t ws : moved ps ss (type_words t) ws → 1%nat ∉ ps → words_ok ws → type_wf t →
  ∃ t', ws = type_words t' ∧ bt_info t' = bt_info t ∧ type_wf t'.
Proof.
  intros [Hl Hm] H1 Hok [_ Hs]. destruct ws as [|n [|i [|s rest]]]; try (cbn in Hl; lia).
  exists (mkType n i s rest). assert (i = bt_info t) as ->.
  { specialize (Hm 1%nat (bt_info t) i eq_refl eq_refl). by rewrite decide_False in Hm. }
  split; [done|]. split; [done|]. split; [done|]. cbn [bt_rest]. cbn in Hl.
  unfold btf_type_size, btf_kind, btf_vlen in Hs |- *. cbn [bt_info]. rewrite Hs. lia.
Qed.

(** The visitor of a type visits the words at [ps], in order. *)
Lemma visit_type_spec (m : M S) ps pre t post ctx ss b off o : type_wf t → NoDup ps →
  (∀ p, p ∈ ps → (p < length (type_words t))%nat ∧ p ≠ 1%nat) →
  m o = visit_list visit ps off ctx o →
  holding ts ss (pre ++ words_bytes false (type_words t) ++ post) o →
  P ctx ss (cost_at ps (type_words t) + b) → 0 ≤ b → off = Z.of_nat (length (types_bytes false ts) + length pre) →
  ∃ o' ctx' ss' t', m o = Some (o', inl ctx') ∧
    holding ts ss' (pre ++ words_bytes false (type_words t') ++ post) o' ∧ p_index (o_parts o') = p_index (o_parts o) ∧
    P ctx' ss' b ∧ type_wf t' ∧ bt_info t' = bt_info t ∧ moved ps ss' (type_words t) (type_words t') ∧ ss `prefix_of` ss'.
Proof.
  intros Hwf Hnd Hps -> Ho HP Hb Hoff.
  destruct (visit_list_spec ps Hnd pre (type_words t) post ctx ss b off o (λ p Hp, proj1 (Hps p Hp)) Ho (proj1 Hwf) HP Hb Hoff)
    as (o' & ctx' & ss' & ws' & E & H & Hi & HP' & Hok & Hm & Hpre).
  destruct (moved_type ps ss' t ws' Hm (λ H1, proj2 (Hps _ H1) eq_refl) Hok Hwf) as (t' & -> & Hinfo & Hwf').
  by exists o', ctx', ss', t'.
Qed.

Lemma visit_last off off' ctx o : off = off' → visit_word visit off ctx o = bind (visit_word visit off' ctx) (λ ctx, ret ctx) o.
Proof. intros ->. unfold bind at 1. by destruct (visit_word visit off' ctx o) as [[? [|]]|]. Qed.

Ltac each_solve := first
  [ done
  | apply visit_each_list; lia
  | apply visit_last; lia
  | apply bind_ext; intros; each_solve ].

Lemma visit_str_list pre t post ctx ss b off o : type_wf t → holding ts ss (pre ++ words_bytes false (type_words t) ++ post) o →
  P ctx ss (cost_at (str_pos t) (type_words t) + b) → 0 ≤ b → off = Z.of_nat (length (types_bytes false ts) + length pre) →
  btf_type_visit_str_offs visit off ctx o = visit_list visit (str_pos t) off ctx o.
Proof.
  intros Hwf Ho HP Hb Hoff. unfold btf_type_visit_str_offs, str_pos in *. cbn [visit_list cost_at foldr] in *.
  match goal with |- context [visit_list visit ?l] => set (ps := l) in * end. fold (cost_at ps (type_words t)) in HP.
  pose proof (cost_at_nonneg ps (type_words t)) as Hnn. rewrite <- Z.add_assoc in HP.
  destruct (visit_word_spec pre (type_words t) post 0 (bt_name_off t) ctx ss _ off o Ho (proj1 Hwf) eq_refl HP ltac:(lia) Hoff)
    as (o1 & ctx1 & ss1 & w1 & E1 & H1 & _ & _ & Hw1 & _ & _).
  change (4 * Z.of_nat 0) with 0 in E1 |- *. rewrite Z.add_0_r in E1 |- *.
  rewrite !(bind_eq _ _ _ _ _ E1). set (t1 := mkType w1 (bt_info t) (bt_size t) (bt_rest t)).
  change (<[0%nat:=w1]> (type_words t)) with (type_words t1) in H1.
  rewrite (bind_eq (deref off) _ o1 o1 (bare t1)).
  - change (btf_kind (bare t1)) with (btf_kind t). change (btf_vlen (bare t1)) with (btf_vlen t). subst ps. unfold SIZEOF_TYPE.
    pose proof (wf_kind t Hwf) as Hk. clear HP Hnn. revert Hk. wf_kinds t Hk; cbn; each_solve.
  - apply (deref_pend ts ss1 pre t1 post); [done| |done]. apply (Forall_insert word_ok (type_words t) 0 w1); [apply Hwf|done].
Qed.

Lemma visit_id_list pre t post ctx ss off o : type_wf t → holding ts ss (pre ++ words_bytes false (type_words t) ++ post) o →
  off = Z.of_nat (length (types_bytes false ts) + length pre) →
  btf_type_visit_type_ids visit off ctx o = visit_list visit (id_pos t) off ctx o.
Proof.
  intros Hwf Ho Hoff. unfold btf_type_visit_type_ids, id_pos.
  rewrite (bind_eq (deref off) _ o o (bare t)) by (apply (deref_pend ts ss pre t post); [done|apply Hwf|done]).
  change (btf_kind (bare t)) with (btf_kind t). change (btf_vlen (bare t)) with (btf_vlen t). unfold SIZEOF_TYPE.
  pose proof (wf_kind t Hwf) as Hk. revert Hk. wf_kinds t Hk; cbn; each_solve.
Qed.
End visits.

(** * The visitor of ids *)

(** Ids other than void are moved by [n]. *)
Definition id_rel (n : Z) (_ : list (list Z)) (w w' : Z) : Prop := w' = if w =? 0 then 0 else u32 (w + n).

(** The strings [ss0] stay. *)
Lemma visits_ids ts ss0 : visits btf_rewrite_type_ids ts (λ _ ss _, ss = ss0) (id_rel (Z.of_nat (length ts))) (λ _, 0).
Proof.
  intros w [] ss pend b o -> _ Hw Ho. pose proof (holding_types _ _ _ _ Ho) as [Hid _ _ _ Hi].
  unfold btf_rewrite_type_ids, id_rel. destruct (Z.eqb_spec w 0) as [->|].
  - by exists o, tt, ss0, 0.
  - rewrite (bind_eq get _ o o o eq_refl), Hid, (proj1 Hi), length_offsets.
    exists o, tt, ss0, (u32 (w + Z.of_nat (length ts))). split; [|split_and!; try done; by apply wrap_range].
    unfold ret. do 5 f_equal. lia.
Qed.

(** * The visitor of names *)

(** The string at an offset of the strings, which may be inside one of them. *)
Lemma strs_at ss w : Forall nonul ss → 0 ≤ w < Z.of_nat (length (strs_bytes ss)) →
  ∃ pre s post, strs_bytes ss = pre ++ s ++ 0 :: post ∧ w = Z.of_nat (length pre) ∧ nonul s.
Proof.
  intros Hnn. revert w. induction Hnn as [|s ss Hs Hnn IH]; intros w Hw; [cbn in Hw; lia|].
  cbn [strs_bytes flat_map] in Hw |- *. fold (strs_bytes ss) in Hw |- *. rewrite !length_app in Hw. cbn [length] in Hw.
  destruct (Z_lt_le_dec w (Z.of_nat (length s) + 1)) as [Hlt|Hge].
  - exists (take (Z.to_nat w) s), (drop (Z.to_nat w) s), (strs_bytes ss). split_and!.
    + by rewrite (app_assoc (take _ _)), take_drop, <- app_assoc.
    + rewrite length_take. lia.
    + by apply Forall_drop.
  - destruct (IH (w - Z.of_nat (length s) - 1) ltac:(lia)) as (pre & t & post & -> & Hl & Ht).
    exists ((s ++ [0]) ++ pre), t, post. split; [by rewrite <- !app_assoc|]. split; [|done].
    rewrite !length_app. cbn [length]. lia.
Qed.

Lemma cstr_at_more ss junk w : Forall nonul ss → 0 ≤ w < Z.of_nat (length (strs_bytes ss)) →
  cstr_at (strs_bytes ss ++ junk) w = cstr_at (strs_bytes ss) w.
Proof.
  intros Hnn Hw. destruct (strs_at ss w Hnn Hw) as (pre & s & post & E & -> & Hs).
  rewrite E, <- !app_assoc. cbn [app]. by rewrite !cstr_at_app.
Qed.

Lemma cstr_at_ok ss w : Forall nonul ss → Forall bytes_ok ss → 0 ≤ w < Z.of_nat (length (strs_bytes ss)) →
  nonul (cstr_at (strs_bytes ss) w) ∧ bytes_ok (cstr_at (strs_bytes ss) w).
Proof.
  intros Hnn Hb Hw. destruct (strs_at ss w Hnn Hw) as (pre & s & post & E & -> & Hs).
  pose proof (strs_bytes_bytes_ok ss Hb) as Hbs. rewrite E in Hbs |- *. rewrite cstr_at_app by done. split; [done|].
  apply Forall_app in Hbs as [_ Hbs]. by apply Forall_app in Hbs as [Hbs _].
Qed.

(** Offset [w] of [src] and offset [w'] of [ss] hold the same string; 0 stays 0. *)
Definition name_rel (src ss : list (list Z)) (w w' : Z) : Prop :=
  if w =? 0 then w' = 0
  else 0 ≤ w' < Z.of_nat (length (strs_bytes ss)) ∧ cstr_at (strs_bytes ss) w' = cstr_at (strs_bytes src) w.

Lemma name_rel_mono src ss ss' w w' : Forall nonul ss → name_rel src ss w w' → ss `prefix_of` ss' → name_rel src ss' w w'.
Proof.
  unfold name_rel. destruct (w =? 0); [done|]. intros Hnn [Hw E] [more ->]. rewrite strs_bytes_app, length_app.
  split; [lia|]. by rewrite cstr_at_more.
Qed.

Lemma intern_str_rel src ss w : Forall nonul ss → nonul (cstr_at (strs_bytes src) w) → w ≠ 0 →
  name_rel src (intern_str ss (cstr_at (strs_bytes src) w)).1 w (intern_str ss (cstr_at (strs_bytes src) w)).2.
Proof.
  intros Hnn Hs Hw. set (s := cstr_at (strs_bytes src) w) in *. unfold name_rel. destruct (Z.eqb_spec w 0); [done|]. fold s.
  assert (str_off (intern_str ss s).1 s = Some (intern_str ss s).2 ∧ Forall nonul (intern_str ss s).1) as [E Hnn'].
  { unfold intern_str. cbn [fst snd]. destruct (decide (s ∈ ss)) as [Hin|Hin].
    - destruct (str_off ss s) eqn:E; [done|]. by apply str_off_None in E.
    - split; [|by apply Forall_app; split; [|constructor]]. rewrite str_off_snoc.
      apply str_off_None in Hin as ->. by rewrite decide_True. }
  pose proof (str_off_cstr _ s _ [] Hnn' E) as [Hc H0]. rewrite app_nil_r in Hc. split; [|done]. split; [done|].
  apply str_off_split in E as (a & b & -> & ->). rewrite strs_bytes_app. cbn [strs_bytes flat_map]. rewrite !length_app. cbn [length]. lia.
Qed.

Lemma built_strs ts ss o : built ts ss o →
  (∃ junk, btf_strs_data (o_parts o) = strs_bytes ss ++ junk) ∧ p_hdr (o_parts o) = file_hdr ts (strs_bytes ss).
Proof.
  unfold btf_strs_data. intros (_ & _ & [[_ Hh _ _ _ _ (set & -> & Hrel & _)]|[_ Hh _ _ _ ->]] & _); (split; [|done]).
  - apply (sr_data _ _ Hrel).
  - exists []. by rewrite app_nil_r.
Qed.

Lemma built_str_by_offset ts ss o w : built ts ss o → 0 ≤ w < Z.of_nat (length (strs_bytes ss)) →
  obj_str_by_offset o w = Some (cstr_at (strs_bytes ss) w).
Proof.
  intros Ho Hw. destruct (built_strs ts ss o Ho) as [[junk Hj] Hh].
  destruct Ho as ((_ & _ & Hoff) & (_ & Hnn & _ & _ & Hsz) & _). destruct o as [r p l base]. cbn [o_parts o_links] in *.
  cbn [obj_str_by_offset]. unfold file_size in Hsz. rewrite Hoff, Hj, Hh. change (u32 0) with 0. rewrite Z.sub_0_r.
  rewrite wrap_small by (unfold in_u; lia). cbn [file_hdr h_str_len].
  destruct (Z.ltb_spec w 0); [lia|]. destruct (Z.ltb_spec w (Z.of_nat (length (strs_bytes ss)))); [|lia].
  by rewrite cstr_at_more.
Qed.

(** The map of the offsets copied so far. *)
#[export] Instance dedup_hash_key : HashKey btf_dedup_identity_hash_fn btf_dedup_equal_fn.
Proof. split; unfold btf_dedup_identity_hash_fn, btf_dedup_equal_fn; intros *; rewrite ?Z.eqb_eq; lia. Qed.

Definition map_rel (m : hashmap Z Z) (l : list (Z * Z)) (n : Z) : Prop :=
  hm_rel btf_dedup_identity_hash_fn btf_dedup_equal_fn m l ∧ hm_cap m ≤ 4 + 3 * n ∧ hm_sz m ≤ n ∧ 0 ≤ n < 2 ^ 58.

Lemma map_rel_cap_bits m l n : map_rel m l n → hm_cap_bits m < 63.
Proof.
  intros (Hrel & Hcap & _ & Hn). pose proof (ok_shape _ _ (proj1 Hrel)) as Hs.
  destruct (hm_buckets m); [|lia]. destruct Hs as (Hb & Hc & _). apply (Z.pow_lt_mono_r_iff 2); lia.
Qed.

Lemma map_find m l n k : map_rel m l n →
  ∃ r, hashmap__find btf_dedup_identity_hash_fn btf_dedup_equal_fn m k = Some r ∧
    match r with Some v => (k, v) ∈ l | None => ∀ e, e ∈ l → btf_dedup_equal_fn e.1 k = false end.
Proof.
  intros (Hrel & _). destruct (find_entry_rel _ _ m l k Hrel) as (r & Hr & Hf). unfold hashmap__find. rewrite Hr.
  cbn [mbind option_bind]. eexists. split; [done|]. destruct (spec_find btf_dedup_equal_fn l k) as [[j e]|].
  - destruct Hf as (i & bs & c & -> & He & Hj & _). cbn. apply Z.eqb_eq in He as <-. destruct e. by eapply list_elem_of_lookup_2.
  - by destruct Hf as [-> Hn].
Qed.

Lemma map_append m l n k v : map_rel m l n → (∀ e, e ∈ l → btf_dedup_equal_fn e.1 k = false) → n + 1 < 2 ^ 58 →
  ∃ m' old, hashmap__insert btf_dedup_identity_hash_fn btf_dedup_equal_fn true true m k v HASHMAP_APPEND = Some (m', 0, old) ∧
    map_rel m' ((k, v) :: l) (n + 1).
Proof.
  intros Hm Hnew Hn. pose proof (map_rel_cap_bits _ _ _ Hm) as Hb. destruct Hm as (Hrel & Hcap & Hsz & Hn0).
  destruct (insert_new _ _ m l true true k v HASHMAP_ADD Hrel Hb Hnew ltac:(done) ltac:(done)) as (m' & E & Hrel' & Hcap' & Hsz').
  rewrite andb_false_r in E, Hrel'. cbn [orb negb] in E, Hrel'.
  destruct (find_entry_rel _ _ m l k Hrel) as (r & Hr & Hf). rewrite (proj2 (spec_find_None _ l k) Hnew) in Hf. destruct Hf as [-> _].
  exists m', None. split.
  - rewrite <- E. unfold hashmap__insert at 2. rewrite decide_False by done. by rewrite Hr.
  - split; [done|]. lia.
Qed.

(** The room of a name; an offset outside the strings has none. *)
Definition name_cost (src : list (list Z)) (w : Z) : Z :=
  if w =? 0 then 0
  else if w <? Z.of_nat (length (strs_bytes src)) then Z.of_nat (length (cstr_at (strs_bytes src) w)) + 1
  else 2 ^ 32.

Lemma name_cost_nonneg src w : 0 ≤ name_cost src w.
Proof. unfold name_cost. destruct (w =? 0), (w <? Z.of_nat (length (strs_bytes src))); lia. Qed.

Section names.
Context (ts sts : list btf_type) (src : list (list Z)) (so : btf_obj) (Hsrc : built sts src so).

(** What holds of the pipe while there is room for [b] more bytes. *)
Definition pipe_ok (p : btf_pipe) (ss : list (list Z)) (b : Z) : Prop :=
  pi_src p = so ∧ file_size ts (strs_bytes ss) + b < 2 ^ 31 ∧ Z.of_nat (pi_calls p) + b < 2 ^ 31 ∧
  match str_off_map p with
  | None => True
  | Some m => ∃ l, map_rel m l (Z.of_nat (pi_calls p)) ∧ ∀ k v, (k, v) ∈ l → k ≠ 0 ∧ name_rel src ss k v
  end.

Lemma pipe_ok_more p ss ss' b b' : Forall nonul ss → pipe_ok p ss b → ss `prefix_of` ss' → b' ≤ b →
  file_size ts (strs_bytes ss') + b' < 2 ^ 31 → pipe_ok p ss' b'.
Proof.
  intros Hnn (H1 & H2 & H3 & H4) Hpre Hb Hs. split_and!; [done|done|lia|].
  destruct (str_off_map p); [|done]. destruct H4 as (l & Hm & Hl). exists l. split; [done|].
  intros k v Hkv. destruct (Hl k v Hkv). split; [done|]. by eapply name_rel_mono.
Qed.

(** A string that was added. *)
Lemma add_name w ss pend b o : holding ts ss pend o → 0 < w < Z.of_nat (length (strs_bytes src)) →
  file_size ts (strs_bytes ss) + (name_cost src w + b) < 2 ^ 31 → 0 ≤ b →
  let s := cstr_at (strs_bytes src) w in
  ∃ o', btf__add_str al_all s o = Some (o', inl (intern_str ss s).2) ∧
    holding ts (intern_str ss s).1 pend o' ∧ same_types o o' ∧ name_rel src (intern_str ss s).1 w (intern_str ss s).2 ∧
    0 ≤ (intern_str ss s).2 < 2 ^ 31 ∧
    file_size ts (strs_bytes (intern_str ss s).1) + b < 2 ^ 31 ∧ ss `prefix_of` (intern_str ss s).1.
Proof.
  intros Ho Hw Hmax Hb s. pose proof Hsrc as (_ & (_ & Hnn & Hbs & _ & _) & _).
  destruct (cstr_at_ok src w Hnn Hbs ltac:(lia)) as [Hs1 Hs2]. fold s in Hs1, Hs2.
  unfold name_cost in Hmax. destruct (Z.eqb_spec w 0); [lia|]. destruct (Z.ltb_spec w (Z.of_nat (length (strs_bytes src)))); [|lia].
  fold s in Hmax. destruct (add_str_frame ts ss pend s o Hs1 Hs2 ltac:(lia) Ho) as (o' & E & Ho' & Hsame).
  pose proof Ho as (_ & _ & _ & Hstore & _). destruct (intern_str_store ts ss s Hstore Hs1 Hs2 ltac:(lia)) as (_ & Hr & Hsz).
  exists o'. split_and!; try done; try lia.
  - apply intern_str_rel; [apply Hstore|done..].
  - unfold intern_str. cbn [fst]. destruct (decide (s ∈ ss)); [done|by apply prefix_app_r].
Qed.

Lemma visits_names :
  visits (btf_rewrite_str (λ _, al_all) (λ _, (true, true))) ts pipe_ok (name_rel src) (name_cost src).
Proof.
  intros w p ss pend b o Hp Hb Hw Ho. unfold btf_rewrite_str.
  pose proof Ho as (_ & _ & _ & (_ & Hnn & _) & _). destruct (Z.eqb_spec w 0) as [->|Hw0].
  { exists o, p, ss, 0. split_and!; try done; by eapply pipe_ok_more; [..|destruct Hp as (_ & ? & _); cbn in *; lia]. }
  pose proof Hp as (Hsrc' & Hmax & Hcalls & Hmap). pose proof (name_cost_nonneg src w) as Hc0.
  assert (w < Z.of_nat (length (strs_bytes src))) as Hlt.
  { unfold name_cost in Hcalls. destruct (Z.eqb_spec w 0); [done|].
    destruct (Z.ltb_spec w (Z.of_nat (length (strs_bytes src)))); [done|lia]. }
  assert (1 ≤ name_cost src w) as Hc1.
  { unfold name_cost. destruct (Z.eqb_spec w 0); [done|]. destruct (w <? Z.of_nat (length (strs_bytes src))); lia. }
  unfold word_ok, in_u in Hw.
  destruct (add_name w ss pend b o Ho ltac:(lia) Hmax Hb) as (o' & E & H & Hsame & Hrel & Hr & Hmax' & Hpre).
  destruct (str_off_map p) as [m|] eqn:Em.
  - destruct Hmap as (l & Hm & Hl). destruct (map_find m l _ w Hm) as (r & Ef & Hfound). rewrite Ef, (bind_eq (read (Some r)) _ o o r eq_refl).
    destruct r as [v|].
    + destruct (Hl w v Hfound) as [_ Hv]. unfold name_rel in Hv. destruct (Z.eqb_spec w 0); [done|].
      pose proof (proj1 Hv). unfold file_size in Hmax. rewrite wrap_small by (unfold in_u; lia).
      exists o, p, ss, v. split_and!; try done; try (unfold word_ok, in_u; lia); [|by apply Hl].
      eapply pipe_ok_more; [done..|lia|]. unfold file_size. lia.
    + rewrite Hsrc', (built_str_by_offset sts src so w Hsrc) by lia. rewrite (bind_eq (read (Some _)) _ o o _ eq_refl).
      rewrite (bind_eq _ _ _ _ _ E).
      destruct (map_append m l _ w (intern_str ss (cstr_at (strs_bytes src) w)).2 Hm Hfound ltac:(lia)) as (m' & old & Ei & Hm').
      rewrite Ei, (bind_eq (read (Some _)) _ o' o' _ eq_refl). change (fail_if (negb (0 =? 0)) 0 ;;; ?k) with k.
      eexists o', _, _, _. split; [done|]. split_and!; try done; try (unfold word_ok, in_u; lia).
      * split_and!; cbn [pi_src pi_calls str_off_map]; try done; try lia. eexists. split; [by rewrite Nat2Z.inj_succ|].
        intros k v [[= -> ->]|Hkv]%elem_of_cons; [done|]. destruct (Hl k v Hkv). split; [done|]. by eapply name_rel_mono.
  - rewrite (bind_eq (read (Some None)) _ o o None eq_refl).
    rewrite Hsrc', (built_str_by_offset sts src so w Hsrc) by lia. rewrite (bind_eq (read (Some _)) _ o o _ eq_refl).
    rewrite (bind_eq _ _ _ _ _ E). eexists o', _, _, _. split; [done|].
    split_and!; try done; try (unfold word_ok, in_u; lia).
    + split_and!; cbn [pi_src pi_calls str_off_map]; try done; lia.
Qed.
End names.

(** * One copied type *)

(** The type [t'] is [t] with its names taken over to [ss] and its ids moved by [n]. *)
Definition copied (n : Z) (src ss : list (list Z)) (t t' : btf_type) : Prop :=
  bt_info t' = bt_info t ∧ length (bt_rest t') = length (bt_rest t) ∧
  ∀ j w w', type_words t !! j = Some w → type_words t' !! j = Some w' →
    if decide (j ∈ str_pos t) then name_rel src ss w w'
    else if decide (j ∈ id_pos t) then w' = (if w =? 0 then 0 else u32 (w + n))
    else w' = w.

Lemma copied_mono n src ss ss' t t' : Forall nonul ss → ss `prefix_of` ss' → copied n src ss t t' → copied n src ss' t t'.
Proof.
  intros Hnn Hpre (H1 & H2 & H). split; [done|]. split; [done|]. intros j w w' Hw Hw'. specialize (H j w w' Hw Hw').
  destruct (decide (j ∈ str_pos t)); [|done]. by eapply name_rel_mono.
Qed.

(** The room of the names of a type and of types. *)
Definition names_cost (src : list (list Z)) (t : btf_type) : Z := cost_at (name_cost src) (str_pos t) (type_words t).
Definition all_names_cost (src : list (list Z)) (ts : list btf_type) : Z := foldr (λ t n, names_cost src t + n) 0 ts.

Lemma names_cost_nonneg src t : 0 ≤ names_cost src t.
Proof. apply cost_at_nonneg, name_cost_nonneg. Qed.
Lemma all_names_cost_nonneg src ts : 0 ≤ all_names_cost src ts.
Proof. unfold all_names_cost. induction ts as [|t ts IH]; cbn [foldr]; [done|]. pose proof (names_cost_nonneg src t). lia. Qed.

Lemma size_info t t' : bt_info t' = bt_info t → btf_type_size t' = btf_type_size t.
Proof. intros E. unfold btf_type_size, btf_kind, btf_vlen. by rewrite E. Qed.
Lemma pos_info t t' : bt_info t' = bt_info t → str_pos t' = str_pos t ∧ id_pos t' = id_pos t.
Proof. intros E. unfold str_pos, id_pos, btf_kind, btf_vlen. by rewrite E. Qed.

Lemma wf_rest_length t t' : type_wf t → type_wf t' → bt_info t' = bt_info t → length (bt_rest t') = length (bt_rest t).
Proof. intros [_ H] [_ H'] E. rewrite (size_info t t' E) in H'. lia. Qed.

Lemma length_words_wf t : type_wf t → length (types_bytes false [t]) = length (words_bytes false (type_words t)).
Proof. intros _. unfold types_bytes. cbn [flat_map]. by rewrite app_nil_r. Qed.

Section copy.
Context (ts sts : list btf_type) (src : list (list Z)) (so : btf_obj) (Hsrc : built sts src so).

Local Abbreviation rewrite_str := (btf_rewrite_str (λ _, al_all) (λ _, (true, true))).

Lemma copy_names pre t post p ss b off o : type_wf t → holding ts ss (pre ++ words_bytes false (type_words t) ++ post) o →
  pipe_ok ts src so p ss (names_cost src t + b) → 0 ≤ b → off = Z.of_nat (length (types_bytes false ts) + length pre) →
  ∃ o' p' ss' t', btf_type_visit_str_offs rewrite_str off p o = Some (o', inl p') ∧
    holding ts ss' (pre ++ words_bytes false (type_words t') ++ post) o' ∧ p_index (o_parts o') = p_index (o_parts o) ∧
    pipe_ok ts src so p' ss' b ∧ type_wf t' ∧ bt_info t' = bt_info t ∧
    moved (name_rel src) (str_pos t) ss' (type_words t) (type_words t') ∧ ss `prefix_of` ss'.
Proof.
  intros Hwf Ho Hp Hb Hoff. pose proof (pos_spec t Hwf) as (Hnd & Hps & _ & _).
  pose proof (visits_names ts sts src so Hsrc) as Hv.
  assert (∀ ss ss' w w', name_rel src ss w w' → ss `prefix_of` ss' → Forall nonul ss → name_rel src ss' w w') as Hm
    by (intros; by eapply name_rel_mono).
  (* the strings of a held object have no NUL inside *)
  set (R := λ ss w w', Forall nonul ss → name_rel src ss w w').
  assert (visits rewrite_str ts (pipe_ok ts src so) R (name_cost src)) as Hv'.
  { intros w ctx ss0 pend b0 o0 H1 H2 H3 H4. destruct (Hv w ctx ss0 pend b0 o0 H1 H2 H3 H4) as (o' & ctx' & ss' & w' & ? & ? & ? & ? & ? & ? & ?).
    exists o', ctx', ss', w'. split_and!; first [done|by intros _]. }
  assert (∀ ss ss' w w', R ss w w' → ss `prefix_of` ss' → R ss' w w') as Hmono.
  { intros ss1 ss2 w w' H1 Hpre Hnn. eapply name_rel_mono; [|apply H1|done]; destruct Hpre as [k ->]; by apply Forall_app in Hnn as [? _]. }
  destruct (visit_type_spec rewrite_str ts (pipe_ok ts src so) R (name_cost src) Hv' Hmono (name_cost_nonneg src)
    (btf_type_visit_str_offs rewrite_str off p) (str_pos t) pre t post p ss b off o Hwf Hnd Hps) as
    (o' & p' & ss' & t' & E & H & Hi & Hp' & Hwf' & Hinfo & Hmv & Hpre); [|done..|].
  { eapply visit_str_list; try done; apply name_cost_nonneg. }
  exists o', p', ss', t'. split_and!; try done. destruct Hmv as [Hl Hmv]. split; [done|].
  intros j w w' Hw Hw'. specialize (Hmv j w w' Hw Hw'). destruct (decide (j ∈ str_pos t)); [|done].
  apply Hmv. by destruct H as (_ & _ & _ & (_ & ? & _) & _).
Qed.

Lemma copy_ids pre t post ss off o : type_wf t → holding ts ss (pre ++ words_bytes false (type_words t) ++ post) o →
  off = Z.of_nat (length (types_bytes false ts) + length pre) →
  ∃ o' t', btf_type_visit_type_ids btf_rewrite_type_ids off tt o = Some (o', inl tt) ∧
    holding ts ss (pre ++ words_bytes false (type_words t') ++ post) o' ∧ p_index (o_parts o') = p_index (o_parts o) ∧
    type_wf t' ∧ bt_info t' = bt_info t ∧
    moved (id_rel (Z.of_nat (length ts))) (id_pos t) ss (type_words t) (type_words t').
Proof.
  intros Hwf Ho Hoff. pose proof (pos_spec t Hwf) as (_ & _ & Hnd & Hps).
  destruct (visit_type_spec btf_rewrite_type_ids ts (λ _ ss' _, ss' = ss) (id_rel (Z.of_nat (length ts))) (λ _, 0) (visits_ids ts ss)
    (λ _ _ _ _ H _, H) (λ _, Z.le_refl 0) (btf_type_visit_type_ids btf_rewrite_type_ids off tt) (id_pos t) pre t post tt ss 0 off o Hwf Hnd)
    as (o' & [] & ss' & t' & E & H & Hi & -> & Hwf' & Hinfo & Hmv & _); [| |done..|].
  { intros q Hq. destruct (Hps q Hq) as (? & ? & _). done. }
  { by eapply visit_id_list. }
  by exists o', t'.
Qed.

Lemma copied_both n ss ss' t t1 t2 : type_wf t → type_wf t1 → type_wf t2 → bt_info t1 = bt_info t → bt_info t2 = bt_info t1 →
  moved (name_rel src) (str_pos t) ss (type_words t) (type_words t1) →
  moved (id_rel n) (id_pos t1) ss' (type_words t1) (type_words t2) → copied n src ss t t2.
Proof.
  intros Hwf Hwf1 Hwf2 Hi1 Hi2 [Hl1 Hm1] [Hl2 Hm2]. split; [congruence|]. split; [by apply wf_rest_length; [..|congruence]|].
  intros j w w2 Hw Hw2. destruct (lookup_lt_is_Some_2 (type_words t1) j) as [w1 Hw1].
  { rewrite Hl1. by eapply lookup_lt_Some. }
  specialize (Hm1 j w w1 Hw Hw1). specialize (Hm2 j w1 w2 Hw1 Hw2). rewrite (proj2 (pos_info t t1 Hi1)) in Hm2.
  pose proof (pos_spec t Hwf) as (_ & _ & _ & Hid).
  destruct (decide (j ∈ str_pos t)), (decide (j ∈ id_pos t)) as [Hj|].
  - by destruct (Hid j Hj) as (_ & _ & ?).
  - by subst w2.
  - by subst w1.
  - congruence.
Qed.

(** The index has these entries, and room for [k] more. *)
Definition idx_room (ti : type_index) (offs : list Z) (k : nat) : Prop :=
  ∃ junk, ti_offs ti = words_bytes false offs ++ junk ∧ (4 * k ≤ length junk)%nat.

Lemma put_index_spec ss pend o offs more k v : holding ts ss pend o → offs = offsets 0 ts ++ more →
  idx_room (p_index (o_parts o)) offs (S k) →
  ∃ o', put_index (4 * Z.of_nat (length offs)) v o = Some (o', inl tt) ∧ holding ts ss pend o' ∧
    idx_room (p_index (o_parts o')) (offs ++ [v]) k.
Proof.
  intros (Ha & H1 & H2 & Hs & [Hm Hh Htl Ht Hc Hi Hst]) -> (junk & E & Hj). unfold put_index.
  rewrite (bind_eq get _ o o o eq_refl). rewrite E, <- (take_drop 4 junk).
  rewrite (store_app_mid (words_bytes false (offsets 0 ts ++ more))) by
    (rewrite ?length_words_bytes, ?length_le_bytes, ?length_take; lia).
  unfold bind, read, ret, set_parts. cbn [mbind option_bind]. eexists. split; [done|]. split.
  - split_and!; try done.
    split; cbn [o_parts with_index p_modifiable p_hdr p_hdr_tail p_types p_types_cap p_index p_strs]; try done.
    destruct Hi as (Hnr & _ & Hlen & Hcap & Hok). refine (conj Hnr (conj _ (conj _ (conj Hcap Hok)))); cbn [ti_offs ti_cap].
    + rewrite words_bytes_app, <- app_assoc. by eexists.
    + rewrite <- Hlen, E, !length_app, length_le_bytes, length_drop. lia.
    - exists (drop 4 junk). cbn [o_parts with_index p_index ti_offs]. split; [|rewrite length_drop; lia].
    rewrite (words_bytes_app _ _ [v]). cbn [words_bytes flat_map word_bytes]. by rewrite app_nil_r, <- app_assoc.
Qed.

(** The loop: [done] are the types that were rewritten, [rest] those to be. *)
Lemma rewrite_types_spec rest : ∀ done p ss b o,
  holding ts ss (types_bytes false (done ++ rest)) o → Forall type_wf (ts ++ done) → Forall type_wf rest →
  idx_room (p_index (o_parts o)) (offsets 0 (ts ++ done)) (length rest) →
  pipe_ok ts src so p ss (all_names_cost src rest + b) → 0 ≤ b →
  Z.of_nat (length (types_bytes false (ts ++ done ++ rest))) < 2 ^ 31 →
  ∃ o' p' ss' rest', rewrite_types (length rest) (λ _, al_all) (λ _, (true, true))
      (Z.of_nat (length (types_bytes false (ts ++ done)))) (4 * Z.of_nat (length (ts ++ done))) p o = Some (o', inl p') ∧
    holding ts ss' (types_bytes false (done ++ rest')) o' ∧ Forall type_wf rest' ∧
    idx_room (p_index (o_parts o')) (offsets 0 (ts ++ done ++ rest')) 0 ∧
    Forall2 (copied (Z.of_nat (length ts)) src ss') rest rest' ∧ ss `prefix_of` ss' ∧ pipe_ok ts src so p' ss' b ∧
    length (types_bytes false rest') = length (types_bytes false rest).
Proof.
  induction rest as [|t rest IH]; intros dn p ss b o Ho Hwf Hwfr Hidx Hp Hb Hlen.
  { exists o, p, ss, []. split_and!; try done. by rewrite app_nil_r. }
  apply Forall_cons in Hwfr as [Ht Hwfr]. cbn [rewrite_types length].
  assert (∀ u, types_bytes false (dn ++ u :: rest) = types_bytes false dn ++ words_bytes false (type_words u) ++ types_bytes false rest) as Hsplit.
  { intros u. by rewrite types_bytes_app, types_bytes_cons. }
  assert (Z.of_nat (length (types_bytes false (ts ++ dn))) = Z.of_nat (length (types_bytes false ts) + length (types_bytes false dn))) as Hoff
    by by rewrite types_bytes_app, length_app.
  rewrite Hsplit in Ho. pose proof (wf_head t Ht) as [_ _].
  rewrite (bind_eq (deref _) _ o o (bare t)) by (by apply (deref_pend ts ss (types_bytes false dn) t (types_bytes false rest)); [|apply Ht|]).
  change (btf_type_size (bare t)) with (btf_type_size t). pose proof (proj2 Ht) as Hsz. unfold SIZEOF_TYPE in Hsz.
  destruct (Z.ltb_spec (btf_type_size t) 0); [lia|]. change (fail_if false ?e ;;; ?k) with k.
  rewrite app_assoc, types_bytes_app, length_app in Hlen.
  rewrite (wrap_small 32) by (unfold in_u; lia).
  destruct (put_index_spec ss _ o (offsets 0 (ts ++ dn)) (offsets (Z.of_nat (length (types_bytes false ts))) dn) (length rest)
    (Z.of_nat (length (types_bytes false (ts ++ dn)))) Ho) as (o1 & E1 & H1 & Hi1); [|done|].
  { rewrite offsets_app, sizes_length; [done|]. by apply Forall_app in Hwf as [? _]. }
  rewrite length_offsets in E1. rewrite (bind_eq _ _ _ _ _ E1).
  cbn [all_names_cost foldr] in Hp. fold (all_names_cost src rest) in Hp. rewrite <- Z.add_assoc in Hp.
  pose proof (all_names_cost_nonneg src rest) as Hnn.
  destruct (copy_names (types_bytes false dn) t (types_bytes false rest) p ss (all_names_cost src rest + b) _ o1 Ht H1 Hp ltac:(lia) Hoff)
    as (o2 & p2 & ss2 & t1 & E2 & H2 & Hi2 & Hp2 & Hwf1 & Hinfo1 & Hm1 & Hpre2).
  rewrite (bind_eq _ _ _ _ _ E2).
  destruct (copy_ids (types_bytes false dn) t1 (types_bytes false rest) ss2 _ o2 Hwf1 H2 Hoff)
    as (o3 & t2 & E3 & H3 & Hi3 & Hwf2 & Hinfo2 & Hm2).
  rewrite (bind_eq _ _ _ _ _ E3).
  assert (btf_type_size t2 = btf_type_size t) as Hsz2 by (apply size_info; congruence).
  assert (length (words_bytes false (type_words t2)) = length (words_bytes false (type_words t))) as Hlw.
  { pose proof (length_type_bytes false t2 Hwf2). pose proof (length_type_bytes false t Ht). lia. }
  assert (Forall type_wf (ts ++ dn ++ [t2])) as Hwf3 by (rewrite app_assoc; apply Forall_app; by split; [|constructor]).
  destruct (IH (dn ++ [t2]) p2 ss2 b o3) as (o4 & p4 & ss4 & rest' & E4 & H4 & Hwf4 & Hi4 & Hcp & Hpre4 & Hp4 & Hl4); [| |done| |done|done| |].
  - rewrite <- app_assoc. cbn [app]. by rewrite Hsplit.
  - done.
  - rewrite Hi3, Hi2, app_assoc, offsets_snoc; [done|]. done.
  - rewrite types_bytes_cons, length_app in Hlen. rewrite <- app_assoc. cbn [app].
    rewrite app_assoc, types_bytes_app, length_app, types_bytes_cons, length_app. lia.
  - exists o4, p4, ss4, (t2 :: rest'). split_and!.
    + rewrite <- E4. f_equal; f_equal.
      * rewrite app_assoc, types_bytes_snoc, length_app. pose proof (length_type_bytes false t Ht). lia.
      * rewrite app_assoc, (length_app (ts ++ dn)). cbn [length]. lia.
    + by rewrite <- app_assoc in H4.
    + by constructor.
    + by rewrite <- app_assoc in Hi4.
    + constructor; [|done]. destruct H4 as (_ & _ & _ & (_ & Hnn4 & _) & _).
      eapply (copied_mono _ _ ss2); [destruct Hpre4 as [k ->]; by apply Forall_app in Hnn4 as [? _]|done|].
      by eapply (copied_both _ ss2 ss2 t t1 t2).
    + by etrans.
    + done.
    + rewrite !types_bytes_cons, !length_app. lia.
Qed.
End copy.

(** * Making room and committing *)

Lemma offs_room ti offs cnt : idx_rel ti offs → Z.of_nat (length offs) + Z.of_nat cnt ≤ BTF_MAX_NR_TYPES →
  ∃ ti', btf_add_type_offs_mem true ti (Z.of_nat cnt) = Some (ti', 4 * Z.of_nat (length offs)) ∧
    idx_rel ti' offs ∧ idx_room ti' offs cnt.
Proof.
  intros (Hnr & [junk E] & Hlen & Hcap & Hoks) Hmax. unfold btf_add_type_offs_mem.
  assert (Z.of_nat (length offs) ≤ ti_cap ti) as Hle.
  { apply (f_equal length) in E. rewrite length_app, length_words_bytes in E. lia. }
  unfold BTF_MAX_NR_TYPES in *.
  pose proof (add_mem_spec (ti_offs ti) (ti_cap ti) 4 (ti_nr ti) 0x7fffffff (Z.of_nat cnt)) as H.
  rewrite Hnr in *. specialize (H ltac:(lia) ltac:(lia) ltac:(lia) ltac:(lia) ltac:(lia)
    ltac:(Z.to_euclidean_division_equations; lia) ltac:(done) ltac:(done)).
  destruct (Z.leb_spec (Z.of_nat (length offs) + Z.of_nat cnt) 0x7fffffff); [|lia].
  destruct H as (data' & cap' & -> & Hl' & Hc' & Hroom & Hd'). cbn [mbind option_bind]. eexists. split; [do 2 f_equal; lia|].
  rewrite E, <- app_assoc in Hd'. set (junk' := junk ++ replicate _ 0) in *. split.
  - refine (conj eq_refl (conj _ (conj _ (conj _ Hoks)))); cbn [ti_offs ti_cap].
    + by exists junk'.
    + lia.
    + unfold BTF_MAX_NR_TYPES. lia.
  - exists junk'. cbn [ti_offs]. split; [done|]. apply (f_equal length) in Hd'. rewrite length_app, length_words_bytes in Hd'. lia.
Qed.

Lemma holding_index ts ss pend o ti : holding ts ss pend o → idx_rel ti (offsets 0 ts) →
  holding ts ss pend (mkObj (o_raw o) (with_index (o_parts o) ti) (o_links o) (o_base o)).
Proof. intros (Ha & H1 & H2 & Hs & [Hm Hh Htl Ht Hc Hi Hst]) Hti. split_and!; try done. Qed.

Lemma offsets_words_ok off ts : Forall type_wf ts → 0 ≤ off → off + Z.of_nat (length (types_bytes false ts)) < 2 ^ 32 →
  words_ok (offsets off ts).
Proof.
  intros Hwf. revert off. induction Hwf as [|t ts Ht Hwf IH]; intros off H0 Hmax; [constructor|].
  rewrite types_bytes_cons, length_app in Hmax. pose proof (length_type_bytes false t Ht) as Hl. constructor.
  - unfold word_ok, in_u. lia.
  - apply IH; lia.
Qed.

(** The section sizes and the number of types. *)
Definition commit_types (data_sz cnt : Z) : M Z :=
  grow_sections data_sz ;;;
  o <- get ;;
  let ti := p_index (o_parts o) in
  let ti := mkIndex (ti_offs ti) (ti_cap ti) (u32 (ti_nr ti + cnt)) in
  set_parts (with_index (o_parts o) ti) ;;;
  ret (s32 (l_start_id (o_links o) + ti_nr ti - cnt)).

Lemma commit_types_spec ts new ss o : holding ts ss (types_bytes false new) o → Forall type_wf new →
  idx_room (p_index (o_parts o)) (offsets 0 (ts ++ new)) 0 → file_size (ts ++ new) (strs_bytes ss) < 2 ^ 31 →
  ∃ o', commit_types (Z.of_nat (length (types_bytes false new))) (Z.of_nat (length new)) o =
      Some (o', inl (Z.of_nat (length ts) + 1)) ∧ holding (ts ++ new) ss [] o'.
Proof.
  intros (Ha & H1 & H2 & Hs & [Hm Hh Htl [junk Ht] Hc Hi Hst]) Hnew (j & Ej & _) Hmax. unfold commit_types, grow_sections.
  destruct Hs as (Hwf & Hnn & Hbs & Hhd & Hsz). assert (Forall type_wf (ts ++ new)) as Hwf2 by by apply Forall_app.
  pose proof (count_small (ts ++ new) (strs_bytes ss) Hwf2 ltac:(lia)) as Hcnt. rewrite length_app in Hcnt.
  pose proof Ha as (Hb & Hid & Hoff). destruct Hi as (Hnr & _ & Hlen & Hcap & Hok). rewrite length_offsets in Hnr.
  unfold bind, get, set_parts, ret. cbn [mbind option_bind o_raw o_parts o_links o_base with_hdr p_index]. rewrite Hid, Hnr.
  cbn [ti_nr]. rewrite wrap_small by (unfold in_u; lia). rewrite swrap_small by lia.
  eexists. split; [do 3 f_equal; lia|].
  unfold file_size in Hmax. rewrite types_bytes_app, length_app in Hmax.
  split_and!; try done.
  - refine (conj Hwf2 (conj Hnn (conj Hbs (conj Hhd _)))). unfold file_size. rewrite types_bytes_app, length_app. lia.
  - split; cbn [o_parts with_index with_hdr p_modifiable p_hdr p_hdr_tail p_types p_types_cap p_index p_strs]; try done.
    + rewrite Hh. unfold hdr_grow, file_hdr.
      cbn [h_magic h_version h_flags h_hdr_len h_type_off h_type_len h_str_off h_str_len].
      rewrite types_bytes_app, length_app. rewrite !wrap_small by (unfold in_u; lia). f_equal; lia.
    + exists junk. by rewrite types_bytes_app, Ht, <- !app_assoc.
    + refine (conj _ (conj _ (conj _ (conj Hcap _)))); cbn [ti_offs ti_cap ti_nr].
      * rewrite length_offsets, length_app. lia.
      * by exists j.
      * done.
      * apply offsets_words_ok; [done|lia|]. rewrite types_bytes_app, length_app. lia.
Qed.

Lemma built_types_slice ts ss o : built ts ss o →
  slice (p_types (o_parts o)) 0 (length (types_bytes false ts)) = Some (types_bytes false ts).
Proof.
  intros (_ & _ & [[_ _ _ [junk ->] _ _ _]|[_ _ _ -> _ _]] & _); [|apply slice_all].
  exact (slice_app_mid [] (types_bytes false ts) junk 0 _ eq_refl eq_refl).
Qed.

Lemma add_btf_spec ts ss o sts src so : built ts ss o → built sts src so →
  file_size (ts ++ sts) (strs_bytes ss) + all_names_cost src sts < 2 ^ 31 →
  ∃ o' ss' new, btf__add_btf al_all (λ _, al_all) (λ _, (true, true)) so o = Some (o', inl (Z.of_nat (length ts) + 1)) ∧
    built (ts ++ new) ss' o' ∧ Forall2 (copied (Z.of_nat (length ts)) src ss') sts new ∧ ss `prefix_of` ss'.
Proof.
  intros Ho Hso Hmax. pose proof (all_names_cost_nonneg src sts) as Hnn.
  pose proof Hso as ((Hsb & Hsid & _) & (Hswf & _ & _ & _ & Hssz) & _). pose proof (built_strs _ _ _ Hso) as [_ Hsh].
  pose proof (built_types _ _ _ Hso) as [_ _ Hscnt _ Hsi]. pose proof (proj1 Hsi) as Hsnr. rewrite length_offsets in Hsnr.
  unfold file_size in Hmax, Hssz. rewrite types_bytes_app, length_app in Hmax.
  unfold btf__add_btf. rewrite Hsb. change (fail_if (bool_decide (is_Some None)) ?e ;;; ?k) with k.
  destruct (triple_or_err _ _ (- ENOMEM) _ (triple_ensure ts ss) o Ho) as (o1 & [] & E1 & H1).
  unfold al_all at 1. rewrite (bind_eq _ _ _ _ _ E1), (bind_eq get _ o1 o1 o1 eq_refl).
  unfold obj_type_cnt. rewrite Hsid, Hsnr, Hsh. cbn [file_hdr h_type_len].
  set (n := length (types_bytes false sts)) in *.
  assert (s32 (Z.of_nat n) = Z.of_nat n) as -> by (apply swrap_small; lia).
  assert (s32 (u32 (u32 (1 + Z.of_nat (length sts)) - 1)) = Z.of_nat (length sts)) as ->.
  { rewrite (wrap_small 32 (1 + _)), wrap_small, swrap_small by (unfold in_u; lia). lia. }
  rewrite !(wrap_small 64) by (unfold in_u; lia). rewrite !Nat2Z.id.
  destruct (triple_or_err _ _ (- ENOMEM) _ (triple_add_mem ts ss (Z.of_nat n) ltac:(lia) ltac:(unfold file_size; lia)) o1 H1)
    as (o2 & t & E2 & -> & pend & Hpend & H2).
  unfold al_all at 1. rewrite (bind_eq _ _ _ _ _ E2), (bind_eq get _ o2 o2 o2 eq_refl).
  pose proof (holding_types _ _ _ _ H2) as [_ Hwf Hcnt _ Hi2].
  destruct (offs_room (p_index (o_parts o2)) (offsets 0 ts) (length sts) Hi2) as (ti & Eo & Hti & Hroom).
  { rewrite length_offsets. unfold BTF_MAX_NR_TYPES. lia. }
  change (al_offs (al_all 0)) with true. rewrite Eo. cbn [al_map al_all al_ok hashmap__new].
  pose proof (holding_index ts ss pend o2 ti H2 Hti) as H3. set (o3 := mkObj _ _ _ _) in H3.
  rewrite (bind_eq (set_parts _) _ o2 o3 tt eq_refl).
  pose proof (built_types_slice sts src so Hso) as Esl. fold n in Esl. rewrite Esl, (bind_eq (read (Some _)) _ o3 o3 _ eq_refl).
  rewrite <- (app_nil_l pend), <- (app_nil_r pend) in H3.
  destruct (put_bytes_pend ts ss [] pend [] (Z.of_nat (length (types_bytes false ts))) (types_bytes false sts) o3 H3)
    as (o4 & E4 & H4 & Hi4); [cbn; lia|lia|].
  rewrite (bind_eq _ _ _ _ _ E4). rewrite app_nil_l, app_nil_r in H4.
  destruct (rewrite_types_spec ts sts src so Hso sts [] (mkPipe so (Some (hashmap__init)) 0) ss (Z.of_nat n) o4)
    as (o5 & p' & ss' & new & E5 & H5 & Hwf5 & Hi5 & Hcp & Hpre & Hp5 & Hl5).
  { done. } { by rewrite app_nil_r. } { done. } { by rewrite Hi4, app_nil_r. }
  { split_and!; cbn [pi_src pi_calls str_off_map]; try done; [unfold file_size; lia|lia|].
    exists []. split; [|by intros k v ?%elem_of_nil]. split_and!; [apply hashmap_init_rel|done..]. }
  { lia. } { rewrite app_nil_l, types_bytes_app, length_app. fold n. lia. }
  rewrite app_nil_r in E5.
  assert (on_error (rewrite_types (length sts) (λ _, al_all) (λ _, (true, true)) (Z.of_nat (length (types_bytes false ts)))
    (4 * Z.of_nat (length (offsets 0 ts))) (mkPipe so (Some hashmap__init) 0)) (roll_back (Z.of_nat n) (h_str_len (p_hdr (o_parts o1)))) o4 =
    Some (o5, inl p')) as E6.
  { unfold on_error. rewrite length_offsets. by rewrite E5. }
  rewrite (bind_eq _ _ _ _ _ E6).
  destruct Hp5 as (_ & Hs5 & _ & _). unfold file_size in Hs5.
  destruct (commit_types_spec ts new ss' o5 H5 Hwf5 Hi5) as (o6 & E7 & H7).
  { unfold file_size. rewrite types_bytes_app, length_app. lia. }
  exists o6, ss', new. split_and!; try done.
  - rewrite <- E7. unfold commit_types. rewrite Hl5. fold n. by rewrite (Forall2_length _ _ _ Hcp).
  - by apply holding_built.
Qed.

Lemma add_type_spec ts ss o sts src so t junk : built ts ss o → built sts src so → type_wf t →
  file_size ts (strs_bytes ss) + btf_type_size t + names_cost src t < 2 ^ 31 →
  ∃ o' ss' t', btf__add_type al_all (λ _, al_all) so (words_bytes false (type_words t) ++ junk) o =
      Some (o', inl (Z.of_nat (length ts) + 1)) ∧
    built (ts ++ [t']) ss' o' ∧ copied 0 src ss' t t' ∧ ss `prefix_of` ss'.
Proof.
  intros Ho Hso Ht Hmax. pose proof (names_cost_nonneg src t) as Hnn. pose proof (length_type_bytes false t Ht) as Hlen.
  pose proof (wf_head t Ht) as [Hhead _]. unfold btf__add_type.
  assert (type_load (words_bytes false (type_words t) ++ junk) 0 = Some (bare t)) as El.
  { rewrite type_words_head, words_bytes_app, <- app_assoc. by apply (type_load_head [] t). }
  rewrite El, (bind_eq (read (Some _)) _ o o _ eq_refl). change (btf_type_size (bare t)) with (btf_type_size t).
  destruct (Z.ltb_spec (btf_type_size t) 0); [lia|]. change (fail_if false ?e ;;; ?k) with k.
  destruct (triple_make_room ts ss (btf_type_size t) ltac:(lia) ltac:(lia) o Ho) as (o1 & v & E1 & -> & pend & Hpend & H1).
  rewrite (bind_eq _ _ _ _ _ E1).
  pose proof (slice_app_mid [] (words_bytes false (type_words t)) junk 0 (Z.to_nat (btf_type_size t)) eq_refl ltac:(lia)) as Esl.
  rewrite app_nil_l in Esl. rewrite Esl, (bind_eq (read (Some _)) _ o1 o1 _ eq_refl).
  rewrite <- (app_nil_l pend), <- (app_nil_r pend) in H1.
  destruct (put_bytes_pend ts ss [] pend [] (Z.of_nat (length (types_bytes false ts))) (words_bytes false (type_words t)) o1 H1)
    as (o2 & E2 & H2 & _); [cbn; lia|lia|]. rewrite (bind_eq _ _ _ _ _ E2).
  destruct (copy_names ts sts src so Hso [] t [] (mkPipe so None 0) ss (btf_type_size t) (Z.of_nat (length (types_bytes false ts))) o2 Ht H2)
    as (o3 & p' & ss' & t' & E3 & H3 & _ & Hp' & Hwf' & Hinfo & [Hl Hm] & Hpre).
  { split_and!; cbn [pi_src pi_calls str_off_map]; try done; [lia|]. unfold file_size in Hmax. lia. }
  { lia. } { cbn; lia. }
  rewrite (bind_eq _ _ _ _ _ E3). rewrite app_nil_l, app_nil_r in H3. destruct Hp' as (_ & Hs' & _).
  pose proof (size_info t t' Hinfo) as Hsz.
  destruct (triple_commit ts ss' t' (btf_type_size t) Hwf' (eq_sym Hsz) Hs' o3 H3) as (o4 & id & E4 & -> & H4).
  exists o4, ss', t'. split_and!; try done; [by apply holding_built|].
  refine (conj Hinfo (conj (wf_rest_length t t' Ht Hwf' Hinfo) _)).
  intros j w w' Hw Hw'. specialize (Hm j w w' Hw Hw'). destruct (decide (j ∈ str_pos t)); [done|]. subst w'.
  destruct (decide (j ∈ id_pos t)); [|done]. destruct (Z.eqb_spec w 0) as [->|]; [done|].
  rewrite Z.add_0_r, wrap_small; [done|]. by apply (Forall_lookup_1 word_ok (type_words t) j w (proj1 Ht)).
Qed.

Lemma parse_store sw ts ss : store_ok ts ss →
  ∃ o, btf_new true true (λ _, true) (file_bytes sw ts (strs_bytes ss)) None = Some (inl o) ∧ built ts ss o.
Proof.
  intros Hs. pose proof Hs as (Hwf & _ & Hb & _ & Hsz).
  destruct (file_obj sw ts (strs_bytes ss) Hwf (strs_bytes_bytes_ok ss Hb) (store_strs_ok ts ss Hs) ltac:(lia)) as (o & E & _).
  exists o. split; [done|]. by eapply built_parsed.
Qed.

(** * Theorems *)

(** C13. Copying all types of another object: behind the types of the object come those of
    the source in their order, of the same kinds and sizes, with every name the string it
    was, every id other than void moved behind the types that were there, and every
    other word as it was; old strings stay where they are.  What is written in
    either byte order is read back to that. *)
Theorem btf_add_btf_copies sw sw' ts ss sts src :
  store_ok ts ss → store_ok sts src → file_size (ts ++ sts) (strs_bytes ss) + all_names_cost src sts < 2 ^ 31 →
  ∃ o so o' ss' new,
    btf_new true true (λ _, true) (file_bytes sw ts (strs_bytes ss)) None = Some (inl o) ∧
    btf_new true true (λ _, true) (file_bytes sw' sts (strs_bytes src)) None = Some (inl so) ∧
    run (btf__add_btf al_all (λ _, al_all) (λ _, (true, true)) so) o = Some (o', Z.of_nat (length ts) + 1) ∧
    Forall2 (copied (Z.of_nat (length ts)) src ss') sts new ∧ ss `prefix_of` ss' ∧
    ∀ endian, endian = BTF_LITTLE_ENDIAN ∨ endian = BTF_BIG_ENDIAN →
    ∃ o2 file n r, btf__raw_data true (btf__set_endianness o' endian).1 = Some (o2, Some (file, n)) ∧
      btf_new true true (λ _, true) file None = Some (inl r) ∧
      btf_view r = Some (mkBtf (ts ++ new) 1 0 (strs_bytes ss') None 0).
Proof.
  intros Hs Hss Hmax. destruct (parse_store sw ts ss Hs) as (o & E & Ho). destruct (parse_store sw' sts src Hss) as (so & E' & Hso).
  destruct (add_btf_spec ts ss o sts src so Ho Hso Hmax) as (o' & ss' & new & Er & H & Hcp & Hpre).
  exists o, so, o', ss', new. split; [done|]. split; [done|]. split; [unfold run; by rewrite Er|].
  split; [done|]. split; [done|]. intros endian He. exact (built_readback (ts ++ new) ss' o' endian H He).
Qed.

(** Copying one type: it becomes the last type, of the same kind and size, with every
    name the string it was and every other word as it was. *)
Theorem btf_add_type_copies sw sw' ts ss sts src t junk :
  store_ok ts ss → store_ok sts src → type_wf t →
  file_size ts (strs_bytes ss) + btf_type_size t + names_cost src t < 2 ^ 31 →
  ∃ o so o' ss' t',
    btf_new true true (λ _, true) (file_bytes sw ts (strs_bytes ss)) None = Some (inl o) ∧
    btf_new true true (λ _, true) (file_bytes sw' sts (strs_bytes src)) None = Some (inl so) ∧
    run (btf__add_type al_all (λ _, al_all) so (words_bytes false (type_words t) ++ junk)) o =
      Some (o', Z.of_nat (length ts) + 1) ∧
    built (ts ++ [t']) ss' o' ∧ copied 0 src ss' t t' ∧ ss `prefix_of` ss'.
Proof.
  intros Hs Hss Ht Hmax. destruct (parse_store sw ts ss Hs) as (o & E & Ho). destruct (parse_store sw' sts src Hss) as (so & E' & Hso).
  destruct (add_type_spec ts ss o sts src so t junk Ho Hso Ht Hmax) as (o' & ss' & t' & Er & H & Hcp & Hpre).
  exists o, so, o', ss', t'. split; [done|]. split; [done|]. split; [unfold run; by rewrite Er|done].
Qed.

(** * Examples *)

Definition demo_ss : list (list Z) := [[]; str_bytes "a"; str_bytes "int"]%string.
Definition demo_ts : list btf_type := [mkType 3 (mk_info BTF_KIND_INT 0 false) 4 [32]].
Definition demo_src : list (list Z) :=
  map str_bytes [""; "int"; "long unsigned int"; "s"; "a"; "b"; "arr"; "c"; "d"; "s_t"; "0:1"; "0:2:1"; "0:3:1";
                 "0"; "e"; "E0"; "E1"; "0:0"]%string.

Lemma demo_ts_wf : Forall type_wf demo_ts.
Proof. repeat (constructor; [by split; [repeat (constructor; [done|]); constructor|]|]). constructor. Qed.

Lemma demo_store : store_ok demo_ts demo_ss ∧ store_ok demo_types demo_src.
Proof.
  split; (refine (conj _ (conj _ (conj _ (conj eq_refl _)))); [first [apply demo_ts_wf|apply demo_types_wf]|
    apply (bool_decide_unpack (Forall (Forall _) _)); vm_compute; exact I|
    apply (bool_decide_unpack (Forall (Forall _) _)); vm_compute; exact I|vm_compute; reflexivity]).
Qed.

Lemma btf_add_btf_copies_witness : ∃ o so o' ss' new,
  btf_new true true (λ _, true) (file_bytes false demo_ts (strs_bytes demo_ss)) None = Some (inl o) ∧
  btf_new true true (λ _, true) (file_bytes true demo_types (strs_bytes demo_src)) None = Some (inl so) ∧
  run (btf__add_btf al_all (λ _, al_all) (λ _, (true, true)) so) o = Some (o', 2) ∧
  Forall2 (copied 1 demo_src ss') demo_types new ∧ demo_ss `prefix_of` ss' ∧
  ∀ endian, endian = BTF_LITTLE_ENDIAN ∨ endian = BTF_BIG_ENDIAN →
  ∃ o2 file n r, btf__raw_data true (btf__set_endianness o' endian).1 = Some (o2, Some (file, n)) ∧
    btf_new true true (λ _, true) file None = Some (inl r) ∧
    btf_view r = Some (mkBtf (demo_ts ++ new) 1 0 (strs_bytes ss') None 0).
Proof.
  apply (btf_add_btf_copies false true demo_ts demo_ss demo_types demo_src); [apply demo_store|apply demo_store|].
  vm_compute. reflexivity.
Defined.

Lemma btf_add_type_copies_witness : ∃ o so o' ss' t',
  btf_new true true (λ _, true) (file_bytes false demo_ts (strs_bytes demo_ss)) None = Some (inl o) ∧
  btf_new true true (λ _, true) (file_bytes true demo_types (strs_bytes demo_src)) None = Some (inl so) ∧
  run (btf__add_type al_all (λ _, al_all) so (words_bytes false (type_words (mkType 59 (mk_info BTF_KIND_ENUM 2 true) 4 [61; 0; 64; 5])) ++ [])) o =
    Some (o', 2) ∧
  built (demo_ts ++ [t']) ss' o' ∧ copied 0 demo_src ss' (mkType 59 (mk_info BTF_KIND_ENUM 2 true) 4 [61; 0; 64; 5]) t' ∧
  demo_ss `prefix_of` ss'.
Proof.
  apply (btf_add_type_copies false true demo_ts demo_ss demo_types demo_src); [apply demo_store|apply demo_store| |].
  - by split; [repeat (constructor; [done|]); constructor|].
  - vm_compute. reflexivity.
Defined.

(** The second string cannot be added: the strings are zeroed through a null pointer. *)
Lemma roll_back_null :
  (o ← (match btf_new true true (λ _, true) (file_bytes false demo_ts (strs_bytes demo_ss)) None with Some (inl o) => Some o | _ => None end);
   so ← (match btf_new true true (λ _, true) (file_bytes false demo_types (strs_bytes demo_src)) None with Some (inl o) => Some o | _ => None end);
   Some (run (btf__add_btf al_all (λ n, if (n <? 2)%nat then al_all else λ _, mkAllocs true true (true, true, true) [] true (false, true, true) true true)
     (λ _, (true, true)) so) o)) = Some None.
Proof. vm_compute. reflexivity. Qed.
