(* ===== verification/Reloc.v ===== *)
(** CO-RE relocations: data, name matching, the access specs of a relocation and the
    search for the field they name in a target type (src/libbpf/src/relo_core.c lines
    71-551 and 1422-1438; [skip_mods_and_typedefs] and the flavors of names are lines
    1999-2014 and 5257-5279 of src/libbpf/src/libbpf.c).

    [None] is undefined behaviour (a null or missing type or string is used, words
    behind a type are read that are not there) or a loop that does not end; the
    unbounded loops have fuel that any loop that ends stays below (see the lemmas).
    The arrays [spec] and [raw_spec] with their lengths are lists.  Logging is left
    out. *)
From stdpp Require Import base list strings.
From Stdlib Require Import ZArith Lia.
From S2P Require Import Prelude Bytes Mem Errno Btf.

#[local] Open Scope Z_scope.

Definition BPF_CORE_FIELD_BYTE_OFFSET : Z := 0.
Definition BPF_CORE_FIELD_BYTE_SIZE : Z := 1.
Definition BPF_CORE_FIELD_EXISTS : Z := 2.
Definition BPF_CORE_FIELD_SIGNED : Z := 3.
Definition BPF_CORE_FIELD_LSHIFT_U64 : Z := 4.
Definition BPF_CORE_FIELD_RSHIFT_U64 : Z := 5.
Definition BPF_CORE_TYPE_ID_LOCAL : Z := 6.
Definition BPF_CORE_TYPE_ID_TARGET : Z := 7.
Definition BPF_CORE_TYPE_EXISTS : Z := 8.
Definition BPF_CORE_TYPE_SIZE : Z := 9.
Definition BPF_CORE_ENUMVAL_EXISTS : Z := 10.
Definition BPF_CORE_ENUMVAL_VALUE : Z := 11.
Definition BPF_CORE_TYPE_MATCHES : Z := 12.

Definition core_relo_is_field_based (kind : Z) : bool :=
  (kind =? BPF_CORE_FIELD_BYTE_OFFSET) || (kind =? BPF_CORE_FIELD_BYTE_SIZE) ||
  (kind =? BPF_CORE_FIELD_EXISTS) || (kind =? BPF_CORE_FIELD_SIGNED) ||
  (kind =? BPF_CORE_FIELD_LSHIFT_U64) || (kind =? BPF_CORE_FIELD_RSHIFT_U64).
Definition core_relo_is_type_based (kind : Z) : bool :=
  (kind =? BPF_CORE_TYPE_ID_LOCAL) || (kind =? BPF_CORE_TYPE_ID_TARGET) ||
  (kind =? BPF_CORE_TYPE_EXISTS) || (kind =? BPF_CORE_TYPE_MATCHES) || (kind =? BPF_CORE_TYPE_SIZE).
Definition core_relo_is_enumval_based (kind : Z) : bool :=
  (kind =? BPF_CORE_ENUMVAL_EXISTS) || (kind =? BPF_CORE_ENUMVAL_VALUE).

Definition BPF_CORE_SPEC_MAX_LEN : Z := 64.

Record bpf_core_relo := mkRelo {
  relo_insn_off : Z;
  relo_type_id : Z;
  relo_access_str_off : Z;
  relo_kind : Z;
}.

(** [acc_name] is [None] for an array accessor. *)
Record bpf_core_accessor := mkAcc { acc_type_id : Z; acc_idx : Z; acc_name : option (list Z) }.

Record bpf_core_spec := mkSpec {
  sp_btf : btf;
  sp_spec : list bpf_core_accessor;
  sp_root_type_id : Z;
  sp_relo_kind : Z;
  sp_raw_spec : list Z;
  sp_bit_offset : Z;
}.
Definition sp_raw_len (s : bpf_core_spec) : Z := Z.of_nat (length (sp_raw_spec s)).

(** * Types behind modifiers and typedefs *)

Fixpoint skip_mods_loop (n : nat) (b : btf) (id : Z) : option (Z * btf_type) :=
  t ← btf__type_by_id b id;
  if btf_is_mod t || btf_is_typedef t then
    match n with O => None | S n => skip_mods_loop n b (bt_type t) end
  else Some (id, t).

(** The id and the type; a chain longer than the number of types is a cycle. *)
Definition skip_mods_and_typedefs (b : btf) (id : Z) : option (Z * btf_type) :=
  skip_mods_loop (Z.to_nat (btf__type_cnt b)) b id.

(** * Names and flavors *)

Definition UNDERSCORE : Z := 95.

Definition bpf_core_is_flavor_sep (s : list Z) : bool :=
  match s with
  | c0 :: c1 :: c2 :: c3 :: c4 :: _ =>
      negb (c0 =? UNDERSCORE) && (c1 =? UNDERSCORE) && (c2 =? UNDERSCORE) && (c3 =? UNDERSCORE) &&
      negb (c4 =? UNDERSCORE)
  | _ => false
  end.

(** The loop from index [k - 1] down to 0. *)
Fixpoint essential_scan (k : nat) (name : list Z) : nat :=
  match k with
  | O => length name
  | S i => if bpf_core_is_flavor_sep (drop i name) then S i else essential_scan i name
  end.

Definition bpf_core_essential_name_len (name : list Z) : nat :=
  essential_scan (length name - 4) name.

(** [strncmp(a, b, n) == 0] *)
Definition strncmp_eq (a b : list Z) (n : nat) : bool := bool_decide (take n a = take n b).

Definition bpf_core_names_match (local_btf : btf) (local_name_off : Z) (targ_btf : btf) (targ_name_off : Z)
    : option bool :=
  let local_n := btf__name_by_offset local_btf local_name_off in
  let targ_n := btf__name_by_offset targ_btf targ_name_off in
  if str_is_empty targ_n then Some (str_is_empty local_n)
  else
    targ_n ← targ_n; local_n ← local_n;
    let targ_len := bpf_core_essential_name_len targ_n in
    let local_len := bpf_core_essential_name_len local_n in
    Some ((targ_len =? local_len)%nat && strncmp_eq local_n targ_n local_len).

(** * Flexible arrays *)

Definition is_flex_arr (b : btf) (acc : bpf_core_accessor) (arr : btf_array) : option bool :=
  match acc_name acc with
  | None => Some false
  | Some _ =>
      if a_nelems arr >? 0 then Some false
      else t ← btf_type_by_id b (acc_type_id acc); Some (acc_idx acc =? u32 (btf_vlen t - 1))
  end.

(** * Parsing an access string *)

Definition isspace (c : Z) : bool := (c =? 32) || ((9 <=? c) && (c <=? 13)).
Definition isdigit (c : Z) : bool := (48 <=? c) && (c <=? 57).

Fixpoint skip_spaces (s : list Z) : list Z :=
  match s with c :: s' => if isspace c then skip_spaces s' else s | [] => [] end.

Fixpoint scan_digits (v : Z) (s : list Z) : Z * list Z :=
  match s with
  | c :: s' => if isdigit c then scan_digits (v * 10 + (c - 48)) s' else (v, s)
  | [] => (v, s)
  end.

(** [sscanf(s, "%d%n", &i, &len)]: [Some None] when no integer is read, otherwise the
    integer and the rest of the string; an integer outside [int] is undefined. *)
Definition sscanf_d (s : list Z) : option (option (Z * list Z)) :=
  let s := skip_spaces s in
  let '(neg, s) := match s with
                   | c :: s' => if c =? 45 then (true, s') else if c =? 43 then (false, s') else (false, s)
                   | [] => (false, s)
                   end in
  match s with
  | c :: _ =>
      if isdigit c then
        let '(v, s) := scan_digits 0 s in
        let v := if neg : bool then - v else v in
        if (INT_MIN <=? v) && (v <=? INT_MAX) then Some (Some (v, s)) else None
      else Some None
  | [] => Some None
  end.

(** [inr err]: an error. *)
Fixpoint parse_raw_spec (fuel : nat) (spec_str : list Z) (raw : list Z) : option (list Z + Z) :=
  match spec_str with
  | [] => Some (inl raw)
  | c :: s' =>
      match fuel with
      | O => None
      | S fuel =>
          r ← sscanf_d (if c =? 58 then s' else spec_str);
          match r with
          | None => Some (inr (- EINVAL))
          | Some (access_idx, rest) =>
              if Z.of_nat (length raw) =? BPF_CORE_SPEC_MAX_LEN then Some (inr (- E2BIG))
              else parse_raw_spec fuel rest (raw ++ [access_idx])
          end
      end
  end.

(** The loop over [raw_spec[1..]]: the accessors and the bit offset. *)
Fixpoint parse_access (b : btf) (raw : list Z) (id : Z) (accs : list bpf_core_accessor) (bit_offset : Z)
    : option ((list bpf_core_accessor * Z) + Z) :=
  match raw with
  | [] => Some (inl (accs, bit_offset))
  | access_idx :: raw =>
      '(id, t) ← skip_mods_and_typedefs b id;
      if btf_is_composite t then
        if access_idx >=? btf_vlen t then Some (inr (- EINVAL))
        else
          off ← btf_member_bit_offset t access_idx;
          let bit_offset := u32 (bit_offset + off) in
          m ← btf_member_at t access_idx;
          if negb (m_name_off m =? 0) then
            let name := btf__name_by_offset b (m_name_off m) in
            if str_is_empty name then Some (inr (- EINVAL))
            else parse_access b raw (m_type m) (accs ++ [mkAcc id (u32 access_idx) name]) bit_offset
          else parse_access b raw (m_type m) accs bit_offset
      else if btf_is_array t then
        a ← btf_array_of t;
        '(id, t) ← skip_mods_and_typedefs b (a_type a);
        acc ← last accs;
        flex ← is_flex_arr b acc a;
        if negb flex && (u32 access_idx >=? a_nelems a) then Some (inr (- EINVAL))
        else
          sz ← btf__resolve_size b id;
          if sz <? 0 then Some (inr sz)
          else parse_access b raw id (accs ++ [mkAcc id (u32 access_idx) None])
                 (u32 (bit_offset + access_idx * sz * 8))
      else Some (inr (- EINVAL))
  end.

Definition bpf_core_parse_spec (b : btf) (relo : bpf_core_relo) : option (bpf_core_spec + Z) :=
  let spec_str := btf__name_by_offset b (relo_access_str_off relo) in
  match spec_str with
  | None | Some [] => Some (inr (- EINVAL))
  | Some ((c :: _) as s) =>
      if c =? 58 then Some (inr (- EINVAL))
      else if core_relo_is_type_based (relo_kind relo) then
        if decide (s = str_bytes "0")
        then Some (inl (mkSpec b [] (relo_type_id relo) (relo_kind relo) [] 0))
        else Some (inr (- EINVAL))
      else
        r ← parse_raw_spec (length s) s [];
        match r with
        | inr err => Some (inr err)
        | inl [] => Some (inr (- EINVAL))
        | inl ((access_idx :: rest) as raw) =>
            '(id, t) ← skip_mods_and_typedefs b (relo_type_id relo);
            if core_relo_is_enumval_based (relo_kind relo) then
              if negb (btf_is_any_enum t) || (1 <? Z.of_nat (length raw)) || (access_idx >=? btf_vlen t)
              then Some (inr (- EINVAL))
              else
                name_off ← (if btf_is_enum t then e ← btf_enum_at t access_idx; Some (e_name_off e)
                            else e ← btf_enum64_at t access_idx; Some (e64_name_off e));
                Some (inl (mkSpec b [mkAcc id (u32 access_idx) (btf__name_by_offset b name_off)]
                             (relo_type_id relo) (relo_kind relo) raw 0))
            else if negb (core_relo_is_field_based (relo_kind relo)) then Some (inr (- EINVAL))
            else
              sz ← btf__resolve_size b id;
              if sz <? 0 then Some (inr sz)
              else
                r ← parse_access b rest id [mkAcc id (u32 access_idx) None] (u32 (access_idx * sz * 8));
                Some (match r with
                      | inl (accs, off) => inl (mkSpec b accs (relo_type_id relo) (relo_kind relo) raw off)
                      | inr err => inr err
                      end)
        end
  end.

(** * Compatibility of fields *)

Definition bool_Z (x : bool) : Z := if x then 1 else 0.

Fixpoint fields_compat_loop (n : nat) (local_btf : btf) (local_id : Z) (targ_btf : btf) (targ_id : Z) : option Z :=
  '(_, local_type) ← skip_mods_and_typedefs local_btf local_id;
  '(_, targ_type) ← skip_mods_and_typedefs targ_btf targ_id;
  if btf_is_composite local_type && btf_is_composite targ_type then Some 1
  else if negb (btf_kind_core_compat local_type targ_type) then Some 0
  else
    let k := btf_kind local_type in
    if (k =? BTF_KIND_PTR) || (k =? BTF_KIND_FLOAT) then Some 1
    else if (k =? BTF_KIND_FWD) || (k =? BTF_KIND_ENUM64) || (k =? BTF_KIND_ENUM) then
      local_name ← btf__name_by_offset local_btf (bt_name_off local_type);
      targ_name ← btf__name_by_offset targ_btf (bt_name_off targ_type);
      let local_len := bpf_core_essential_name_len local_name in
      let targ_len := bpf_core_essential_name_len targ_name in
      Some (bool_Z ((local_len =? 0)%nat || (targ_len =? 0)%nat ||
                    ((local_len =? targ_len)%nat && strncmp_eq local_name targ_name local_len)))
    else if k =? BTF_KIND_INT then
      lo ← btf_int_offset local_type;
      to ← btf_int_offset targ_type;
      Some (bool_Z ((lo =? 0) && (to =? 0)))
    else if k =? BTF_KIND_ARRAY then
      la ← btf_array_of local_type; ta ← btf_array_of targ_type;
      match n with
      | O => None
      | S n => fields_compat_loop n local_btf (a_type la) targ_btf (a_type ta)
      end
    else Some 0.

(** More rounds than local types is a cycle of arrays. *)
Definition bpf_core_fields_are_compat (local_btf : btf) (local_id : Z) (targ_btf : btf) (targ_id : Z) : option Z :=
  fields_compat_loop (Z.to_nat (btf__type_cnt local_btf)) local_btf local_id targ_btf targ_id.

(** * Searching a member *)

Definition sp_push (s : bpf_core_spec) (i bit_offset : Z) : bpf_core_spec :=
  mkSpec (sp_btf s) (sp_spec s) (sp_root_type_id s) (sp_relo_kind s) (sp_raw_spec s ++ [i])
    (u32 (sp_bit_offset s + bit_offset)).
Definition sp_pop (s : bpf_core_spec) (bit_offset : Z) : bpf_core_spec :=
  mkSpec (sp_btf s) (sp_spec s) (sp_root_type_id s) (sp_relo_kind s) (removelast (sp_raw_spec s))
    (u32 (sp_bit_offset s - bit_offset)).
Definition sp_add_acc (s : bpf_core_spec) (a : bpf_core_accessor) : bpf_core_spec :=
  mkSpec (sp_btf s) (sp_spec s ++ [a]) (sp_root_type_id s) (sp_relo_kind s) (sp_raw_spec s) (sp_bit_offset s).
Definition sp_pop_acc (s : bpf_core_spec) : bpf_core_spec :=
  mkSpec (sp_btf s) (removelast (sp_spec s)) (sp_root_type_id s) (sp_relo_kind s) (sp_raw_spec s) (sp_bit_offset s).

(** One member of the loop of [bpf_core_match_member]: [inr] returns, [inl] goes on with
    the next member.  [search] is the recursive call. *)
Definition match_one (search : Z → bpf_core_spec → Z → option (Z * bpf_core_spec * Z))
    (local_btf : btf) (local_name : option (list Z)) (local_member_type : Z) (targ_btf : btf) (targ_id : Z)
    (targ_type : btf_type) (i : Z) (spec : bpf_core_spec) (next : Z)
    : option ((bpf_core_spec * Z) + (Z * bpf_core_spec * Z)) :=
  bit_offset ← btf_member_bit_offset targ_type i;
  if sp_raw_len spec =? BPF_CORE_SPEC_MAX_LEN then Some (inr (- E2BIG, spec, next))
  else
    let spec := sp_push spec i bit_offset in
    m ← btf_member_at targ_type i;
    let targ_name := btf__name_by_offset targ_btf (m_name_off m) in
    if str_is_empty targ_name then
      '(found, spec, next) ← search (m_type m) spec next;
      if negb (found =? 0) then Some (inr (found, spec, next))
      else Some (inl (sp_pop spec bit_offset, next))
    else
      local_name ← local_name; targ_name ← targ_name;
      if decide (local_name = targ_name) then
        let spec := sp_add_acc spec (mkAcc targ_id i (Some targ_name)) in
        found ← bpf_core_fields_are_compat local_btf local_member_type targ_btf (m_type m);
        Some (inr (found, if found =? 0 then sp_pop_acc spec else spec, m_type m))
      else Some (inl (sp_pop spec bit_offset, next)).

Fixpoint match_members (search : Z → bpf_core_spec → Z → option (Z * bpf_core_spec * Z))
    (local_btf : btf) (local_name : option (list Z)) (local_member_type : Z) (targ_btf : btf) (targ_id : Z)
    (targ_type : btf_type) (n : nat) (i : Z) (spec : bpf_core_spec) (next : Z) : option (Z * bpf_core_spec * Z) :=
  match n with
  | O => Some (0, spec, next)
  | S n =>
      r ← match_one search local_btf local_name local_member_type targ_btf targ_id targ_type i spec next;
      match r with
      | inr res => Some res
      | inl (spec, next) =>
          match_members search local_btf local_name local_member_type targ_btf targ_id targ_type n (i + 1) spec next
      end
  end.

(** The result, the spec and [*next_targ_id]; the recursion is at most
    [BPF_CORE_SPEC_MAX_LEN] deep. *)
Fixpoint match_member_fuel (fuel : nat) (local_btf : btf) (local_acc : bpf_core_accessor) (targ_btf : btf)
    (targ_id : Z) (spec : bpf_core_spec) (next : Z) : option (Z * bpf_core_spec * Z) :=
  match fuel with
  | O => None
  | S fuel =>
      '(targ_id, targ_type) ← skip_mods_and_typedefs targ_btf targ_id;
      if negb (btf_is_composite targ_type) then Some (0, spec, next)
      else
        local_type ← btf_type_by_id local_btf (acc_type_id local_acc);
        local_member ← btf_member_at local_type (acc_idx local_acc);
        let local_name := btf__name_by_offset local_btf (m_name_off local_member) in
        match_members (match_member_fuel fuel local_btf local_acc targ_btf) local_btf local_name
          (m_type local_member) targ_btf targ_id targ_type (Z.to_nat (btf_vlen targ_type)) 0 spec next
  end.

Definition bpf_core_match_member (local_btf : btf) (local_acc : bpf_core_accessor) (targ_btf : btf) (targ_id : Z)
    (spec : bpf_core_spec) (next : Z) : option (Z * bpf_core_spec * Z) :=
  match_member_fuel (Z.to_nat BPF_CORE_SPEC_MAX_LEN + 2) local_btf local_acc targ_btf targ_id spec next.

(** * Essential names *)

(** The name without its flavor. *)
Definition essential_name (name : list Z) : list Z := take (bpf_core_essential_name_len name) name.

Lemma flavor_sep_shape s : bpf_core_is_flavor_sep s = true ↔
  ∃ c0 c4 y, s = c0 :: UNDERSCORE :: UNDERSCORE :: UNDERSCORE :: c4 :: y ∧ c0 ≠ UNDERSCORE ∧ c4 ≠ UNDERSCORE.
Proof.
  split.
  - destruct s as [|c0 [|c1 [|c2 [|c3 [|c4 y]]]]]; try done. cbn.
    destruct (Z.eqb_spec c0 UNDERSCORE), (Z.eqb_spec c1 UNDERSCORE), (Z.eqb_spec c2 UNDERSCORE),
      (Z.eqb_spec c3 UNDERSCORE), (Z.eqb_spec c4 UNDERSCORE); try done. subst. naive_solver.
  - intros (c0 & c4 & y & -> & H0 & H4). cbn.
    destruct (Z.eqb_spec c0 UNDERSCORE), (Z.eqb_spec c4 UNDERSCORE); done.
Qed.

Lemma flavor_sep_short s : (length s < 5)%nat → bpf_core_is_flavor_sep s = false.
Proof. destruct s as [|? [|? [|? [|? [|? ?]]]]]; cbn; try done. lia. Qed.

Lemma essential_scan_spec k name :
  (∃ i, (i < k)%nat ∧ essential_scan k name = S i ∧ bpf_core_is_flavor_sep (drop i name) = true ∧
     ∀ i', (i < i' < k)%nat → bpf_core_is_flavor_sep (drop i' name) = false) ∨
  (essential_scan k name = length name ∧ ∀ i, (i < k)%nat → bpf_core_is_flavor_sep (drop i name) = false).
Proof.
  induction k as [|k IH]; cbn [essential_scan]; [right; split; [done|lia]|].
  destruct (bpf_core_is_flavor_sep (drop k name)) eqn:E.
  - left. exists k. split_and!; [lia|done|done|lia].
  - destruct IH as [(i & Hi & -> & Hs & Hr)|[-> Hr]].
    + left. exists i. split_and!; [lia|done|done|]. intros i' Hi'.
      destruct (decide (i' = k)) as [-> |]; [done|]. apply Hr. lia.
    + right. split; [done|]. intros i Hi. destruct (decide (i = k)) as [-> |]; [done|]. apply Hr. lia.
Qed.

(** The essential length stops before the last separator, or is the whole length. *)
Lemma essential_len_spec name :
  (∃ i, bpf_core_essential_name_len name = S i ∧ bpf_core_is_flavor_sep (drop i name) = true ∧
     ∀ i', (i < i')%nat → bpf_core_is_flavor_sep (drop i' name) = false) ∨
  (bpf_core_essential_name_len name = length name ∧ ∀ i, bpf_core_is_flavor_sep (drop i name) = false).
Proof.
  assert (Hfar : ∀ i, (length name - 4 ≤ i)%nat → bpf_core_is_flavor_sep (drop i name) = false).
  { intros i Hi. apply flavor_sep_short. rewrite length_drop. lia. }
  unfold bpf_core_essential_name_len.
  destruct (essential_scan_spec (length name - 4) name) as [(i & Hi & -> & Hs & Hr)|[-> Hr]].
  - left. exists i. split_and!; [done|done|]. intros i' Hi'.
    destruct (decide (i' < length name - 4)%nat); [apply Hr; lia|apply Hfar; lia].
  - right. split; [done|]. intros i. destruct (decide (i < length name - 4)%nat); [apply Hr; lia|apply Hfar; lia].
Qed.

Lemma essential_len_le name : (bpf_core_essential_name_len name ≤ length name)%nat.
Proof.
  destruct (essential_len_spec name) as [(i & -> & Hs & _)|[-> _]]; [|done].
  apply flavor_sep_shape in Hs as (? & ? & ? & Hd & _). apply (f_equal length) in Hd.
  rewrite length_drop in Hd. cbn in Hd. lia.
Qed.

(** A flavor without a separator of its own is cut off. *)
Lemma essential_name_flavor x c0 c4 y :
  c0 ≠ UNDERSCORE → c4 ≠ UNDERSCORE →
  (∀ i, bpf_core_is_flavor_sep (drop i (UNDERSCORE :: UNDERSCORE :: UNDERSCORE :: c4 :: y)) = false) →
  essential_name (x ++ c0 :: UNDERSCORE :: UNDERSCORE :: UNDERSCORE :: c4 :: y) = x ++ [c0].
Proof.
  intros H0 H4 Hy. set (t := c0 :: UNDERSCORE :: UNDERSCORE :: UNDERSCORE :: c4 :: y).
  assert (Hsep : bpf_core_is_flavor_sep (drop (length x) (x ++ t)) = true).
  { rewrite drop_app_length. apply flavor_sep_shape. naive_solver. }
  assert (Hlast : ∀ i, (length x < i)%nat → bpf_core_is_flavor_sep (drop i (x ++ t)) = false).
  { intros i Hi. rewrite drop_app_ge by lia. replace (i - length x)%nat with (S (i - length x - 1)) by lia. apply Hy. }
  unfold essential_name. destruct (essential_len_spec (x ++ t)) as [(i & -> & Hs & Hr)|[_ Hr]].
  - assert (i = length x) as ->.
    { destruct (Nat.lt_trichotomy i (length x)) as [Hlt|[->|Hgt]]; [|done|].
      - by rewrite (Hr _ Hlt) in Hsep.
      - by rewrite (Hlast _ Hgt) in Hs. }
    unfold t. replace (S (length x)) with (length x + 1)%nat by lia. rewrite take_app_add. done.
  - by rewrite Hr in Hsep.
Qed.

Lemma essential_eq a b :
  ((bpf_core_essential_name_len b =? bpf_core_essential_name_len a)%nat &&
   strncmp_eq a b (bpf_core_essential_name_len a)) = true ↔ essential_name a = essential_name b.
Proof.
  unfold strncmp_eq, essential_name. rewrite andb_true_iff, Nat.eqb_eq, bool_decide_eq_true. split.
  - intros [-> ->]. done.
  - intros H. pose proof (essential_len_le a). pose proof (essential_len_le b).
    assert (bpf_core_essential_name_len b = bpf_core_essential_name_len a) as E.
    { apply (f_equal length) in H. rewrite !length_take in H. lia. }
    split; [done|]. by rewrite H, E.
Qed.

(** * Property of names *)

(** Two types match by name exactly when their names are the same up to flavors (the
    part behind the last triple underscore), so that every flavor of a name is a
    candidate for every other, and a name without a flavor for itself. *)
Theorem names_match_flavors b1 b2 off1 off2 n1 n2 :
  btf__name_by_offset b1 off1 = Some n1 → btf__name_by_offset b2 off2 = Some n2 → n2 ≠ [] →
  (bpf_core_names_match b1 off1 b2 off2 = Some true ↔ essential_name n1 = essential_name n2) ∧
  ∀ x c0 c4 y, c0 ≠ UNDERSCORE → c4 ≠ UNDERSCORE →
    (∀ i, bpf_core_is_flavor_sep (drop i (UNDERSCORE :: UNDERSCORE :: UNDERSCORE :: c4 :: y)) = false) →
    n2 = x ++ c0 :: UNDERSCORE :: UNDERSCORE :: UNDERSCORE :: c4 :: y → essential_name n2 = x ++ [c0].
Proof.
  intros H1 H2 Hne. split.
  - unfold bpf_core_names_match. rewrite H1, H2. destruct n2 as [|c n2]; [done|]. cbn [str_is_empty mbind option_bind].
    rewrite <- essential_eq. split; [by intros ?; simplify_eq|by intros ->].
  - intros x c0 c4 y ? ? ? ->. by apply essential_name_flavor.
Qed.

Definition demo_flavors : btf := mkBtf [] 1 0 (mk_strs [""; "task"; "task___v2"; "task_v2"]%string) None 8.

Lemma names_match_flavors_witness :
  (bpf_core_names_match demo_flavors 1 demo_flavors 6 = Some true ↔
   essential_name (str_bytes "task") = essential_name (str_bytes "task___v2")) ∧
  bpf_core_names_match demo_flavors 1 demo_flavors 6 = Some true ∧
  bpf_core_names_match demo_flavors 1 demo_flavors 16 = Some false.
Proof.
  split; [|split; vm_compute; reflexivity].
  apply (names_match_flavors demo_flavors demo_flavors 1 6 (str_bytes "task") (str_bytes "task___v2"));
    [vm_compute; reflexivity|vm_compute; reflexivity|discriminate].
Defined.
