(* ===== verification/RelocWf.v ===== *)
(** Well-formed BTF: every type id refers to a type, chains of modifiers end, and the
    words behind a type are there.  The kernel and the compiler only hand out such
    BTF; the checks are executable, and the lemmas say what they give the code of
    Reloc.v, RelocTypes.v and RelocCalc.v, which relies on them without testing. *)
From stdpp Require Import base list strings.
From Stdlib Require Import ZArith Lia.
From S2P Require Import Prelude Bytes Mem Errno Btf Reloc.

#[local] Open Scope Z_scope.

Definition some {A} (o : option A) : bool := match o with Some _ => true | None => false end.

Lemma some_is_Some {A} (o : option A) : some o = true ↔ is_Some o.
Proof. destruct o; cbn; split; [by eexists|done|done|by intros [??]]. Qed.

(** [p 0], ..., [p (n - 1)] *)
Definition all_below (n : Z) (p : Z → bool) : bool := forallb (λ i, p (Z.of_nat i)) (seq 0 (Z.to_nat n)).

Lemma all_below_spec n p : all_below n p = true → ∀ i, 0 ≤ i < n → p i = true.
Proof.
  unfold all_below. rewrite forallb_forall. intros H i Hi.
  rewrite <- (Z2Nat.id i) by lia. apply H, List.in_seq. lia.
Qed.

Definition type_ok (b : btf) (t : btf_type) : bool :=
  let k := btf_kind t in
  let valid id := some (btf__type_by_id b id) in
  some (btf__name_by_offset b (bt_name_off t)) &&
  (if (k =? BTF_KIND_PTR) || btf_is_mod t || btf_is_typedef t then valid (bt_type t)
   else if k =? BTF_KIND_INT then some (bt_word t 0)
   else if k =? BTF_KIND_ARRAY then match btf_array_of t with Some a => valid (a_type a) | None => false end
   else if btf_is_composite t then
     all_below (btf_vlen t) (λ i, match btf_member_at t i with
       | Some m => valid (m_type m) && some (btf__name_by_offset b (m_name_off m))
       | None => false
       end)
   else if k =? BTF_KIND_ENUM then
     all_below (btf_vlen t) (λ i, match btf_enum_at t i with
       | Some e => some (btf__name_by_offset b (e_name_off e)) | None => false end)
   else if k =? BTF_KIND_ENUM64 then
     all_below (btf_vlen t) (λ i, match btf_enum64_at t i with
       | Some e => some (btf__name_by_offset b (e64_name_off e)) | None => false end)
   else if k =? BTF_KIND_FUNC_PROTO then
     valid (bt_type t) &&
     all_below (btf_vlen t) (λ i, match btf_param_at t i with Some p => valid (p_type p) | None => false end)
   else true).

Fixpoint starts_ok (b : btf) : bool :=
  (0 <=? b_start_id b) && match b_base b with Some base => starts_ok base | None => true end.

Definition btf_wf (b : btf) : bool :=
  starts_ok b &&
  all_below (btf__type_cnt b) (λ id,
    match btf__type_by_id b id with
    | Some t => type_ok b t && some (skip_mods_and_typedefs b id)
    | None => false
    end).

Example demo_wf : btf_wf demo_btf = true.
Proof. vm_compute. reflexivity. Qed.

(** * What well-formedness gives *)

Definition valid (b : btf) (id : Z) : Prop := is_Some (btf__type_by_id b id).

Fixpoint type_by_id_nonneg (b : btf) id t {struct b} : starts_ok b = true → btf_type_by_id b id = Some t → 0 ≤ id.
Proof.
  destruct b as [types start str_off strs [base|] ptr]; cbn; intros [Hs Hb]%andb_prop; apply Z.leb_le in Hs.
  - destruct (Z.eqb_spec id 0); [lia|]. destruct (Z.ltb_spec id start); [by apply type_by_id_nonneg|lia].
  - destruct (Z.eqb_spec id 0); [lia|]. destruct (Z.ltb_spec id start); [done|lia].
Qed.

Section wf.
Context (b : btf) (Hwf : btf_wf b = true).

Lemma wf_type id t : btf__type_by_id b id = Some t →
  0 ≤ id < btf__type_cnt b ∧ type_ok b t = true ∧ ∃ id' t', skip_mods_and_typedefs b id = Some (id', t').
Proof.
  intros Ht. unfold btf_wf in Hwf. apply andb_prop in Hwf as [Hs Ha].
  assert (0 ≤ id < btf__type_cnt b) as Hid.
  { unfold btf__type_by_id in Ht. destruct (Z.geb_spec id (btf__type_cnt b)); [done|].
    split; [by eapply type_by_id_nonneg|lia]. }
  split; [done|]. pose proof (all_below_spec _ _ Ha id Hid) as H. cbn in H. rewrite Ht in H.
  apply andb_prop in H as [H1 H2]. split; [done|]. apply some_is_Some in H2 as [[id' t'] ?]. eauto.
Qed.

Lemma wf_by_id id t : btf__type_by_id b id = Some t → btf_type_by_id b id = Some t.
Proof. unfold btf__type_by_id. by destruct (id >=? btf__type_cnt b). Qed.

Lemma wf_ids id : 0 ≤ id < btf__type_cnt b → valid b id.
Proof.
  intros Hid. unfold btf_wf in Hwf. apply andb_prop in Hwf as [_ Ha].
  pose proof (all_below_spec _ _ Ha id Hid) as H. cbn in H. unfold valid.
  destruct (btf__type_by_id b id); [eauto|done].
Qed.

(** The end of a chain of modifiers is a type of the object, no modifier itself, and
    well formed. *)
Lemma skip_loop_end n id id' t : skip_mods_loop n b id = Some (id', t) →
  btf__type_by_id b id' = Some t ∧ btf_is_mod t || btf_is_typedef t = false.
Proof.
  revert id. induction n as [|n IH]; intros id; cbn [skip_mods_loop];
    (destruct (btf__type_by_id b id) as [t0|] eqn:E; cbn [mbind option_bind]; [|done]);
    (destruct (btf_is_mod t0 || btf_is_typedef t0) eqn:Em; [|intros ?; by simplify_eq]); [done|apply IH].
Qed.

Lemma skip_end id id' t : skip_mods_and_typedefs b id = Some (id', t) →
  btf__type_by_id b id' = Some t ∧ btf_is_mod t || btf_is_typedef t = false ∧ type_ok b t = true.
Proof.
  intros H. destruct (skip_loop_end _ _ _ _ H) as [Ht Hm]. split; [done|]. split; [done|].
  by destruct (wf_type _ _ Ht) as (_ & ? & _).
Qed.

Lemma skip_valid id : valid b id → ∃ id' t, skip_mods_and_typedefs b id = Some (id', t).
Proof. intros [t Ht]. by destruct (wf_type _ _ Ht) as (_ & _ & ?). Qed.

(** Skipping is idempotent. *)
Lemma skip_skip id id' t : skip_mods_and_typedefs b id = Some (id', t) →
  skip_mods_and_typedefs b id' = Some (id', t).
Proof.
  intros H. destruct (skip_loop_end _ _ _ _ H) as [Ht Hm]. unfold skip_mods_and_typedefs.
  destruct (Z.to_nat (btf__type_cnt b)); cbn [skip_mods_loop]; rewrite Ht; cbn [mbind option_bind]; by rewrite Hm.
Qed.
End wf.

Lemma type_ok_name b t : type_ok b t = true → ∃ name, btf__name_by_offset b (bt_name_off t) = Some name.
Proof. intros [H _]%andb_prop. by apply some_is_Some in H as [? ?]; eauto. Qed.

Lemma type_ok_ptr b t : type_ok b t = true → btf_kind t = BTF_KIND_PTR → valid b (bt_type t).
Proof. intros [_ H]%andb_prop Hk. cbv zeta in H. rewrite Hk in H. cbn in H. by apply some_is_Some in H. Qed.

Lemma type_ok_int b t : type_ok b t = true → btf_kind t = BTF_KIND_INT → is_Some (bt_word t 0).
Proof.
  intros [_ H]%andb_prop Hk. cbv zeta in H. unfold btf_is_mod, btf_is_typedef in H. rewrite Hk in H. cbn in H.
  by apply some_is_Some in H.
Qed.

Lemma type_ok_array b t : type_ok b t = true → btf_kind t = BTF_KIND_ARRAY →
  ∃ a, btf_array_of t = Some a ∧ valid b (a_type a).
Proof.
  intros [_ H]%andb_prop Hk. cbv zeta in H. unfold btf_is_mod, btf_is_typedef in H. rewrite Hk in H. cbn -[btf_array_of] in H.
  destruct (btf_array_of t) as [a|]; [|done]. exists a. split; [done|]. by apply some_is_Some in H.
Qed.

Lemma type_ok_proto b t : type_ok b t = true → btf_kind t = BTF_KIND_FUNC_PROTO →
  valid b (bt_type t) ∧ ∀ i, 0 ≤ i < btf_vlen t → ∃ p, btf_param_at t i = Some p ∧ valid b (p_type p).
Proof.
  intros [_ H]%andb_prop Hk. cbv zeta in H.
  unfold btf_is_mod, btf_is_typedef, btf_is_composite in H. rewrite Hk in H. cbn -[all_below btf_param_at btf_member_at] in H.
  apply andb_prop in H as [H1 H2]. split; [by apply some_is_Some|]. intros i Hi.
  pose proof (all_below_spec _ _ H2 i Hi) as H3. cbn -[btf_param_at] in H3. destruct (btf_param_at t i) as [p|]; [|done].
  exists p. split; [done|]. by apply some_is_Some in H3.
Qed.

Lemma type_ok_composite b t : type_ok b t = true → btf_is_composite t = true →
  ∀ i, 0 ≤ i < btf_vlen t → ∃ m name, btf_member_at t i = Some m ∧ valid b (m_type m) ∧
    btf__name_by_offset b (m_name_off m) = Some name.
Proof.
  intros [_ H]%andb_prop Hk. cbv zeta in H. unfold btf_is_mod, btf_is_typedef in H.
  rewrite Hk in H. unfold btf_is_composite in Hk. apply orb_prop in Hk as [Hk|Hk]; apply Z.eqb_eq in Hk;
    rewrite Hk in H; cbn -[all_below btf_param_at btf_member_at] in H; intros i Hi; pose proof (all_below_spec _ _ H i Hi) as H3; cbn -[btf_param_at btf_member_at btf_enum_at btf_enum64_at] in H3;
    (destruct (btf_member_at t i) as [m|]; [|done]); apply andb_prop in H3 as [H3 H4];
    apply some_is_Some in H3; apply some_is_Some in H4 as [name ?]; eauto.
Qed.

(** The variants of both kinds of enums, through [enum_name_off] of RelocTypes.v. *)
Lemma type_ok_enum b t : type_ok b t = true → btf_is_any_enum t = true →
  ∀ i, 0 ≤ i < btf_vlen t → ∃ off name,
    (if btf_is_enum t then e ← btf_enum_at t i; Some (e_name_off e)
     else e ← btf_enum64_at t i; Some (e64_name_off e)) = Some off ∧
    btf__name_by_offset b off = Some name.
Proof.
  intros [_ H]%andb_prop Hk. cbv zeta in H. unfold btf_is_any_enum in Hk. unfold btf_is_mod, btf_is_typedef, btf_is_composite in H.
  intros i Hi. unfold btf_is_enum, btf_is_enum64 in *. apply orb_prop in Hk as [Hk|Hk]; apply Z.eqb_eq in Hk;
    rewrite Hk in H |- *; cbn -[all_below btf_enum_at btf_enum64_at] in H |- *; pose proof (all_below_spec _ _ H i Hi) as H3; cbn -[btf_param_at btf_member_at btf_enum_at btf_enum64_at] in H3.
  - destruct (btf_enum_at t i) as [e|]; [|done]. apply some_is_Some in H3 as [name ?]. cbn. eauto.
  - destruct (btf_enum64_at t i) as [e|]; [|done]. apply some_is_Some in H3 as [name ?]. cbn. eauto.
Qed.
