(* ===== verification/RelocTypes.v ===== *)
(** Type-based CO-RE relocations: compatibility and matching of types
    (src/libbpf/src/relo_core.c lines 146-224 and 1440-1690; the wrappers of
    src/libbpf/src/libbpf.c lines 5514-5525).

    The counters [level] and [depth] of the code are the structural arguments; [level]
    is a natural number because both wrappers start it at 32 and it is only
    decremented after a test that it is positive. *)
From stdpp Require Import base list strings.
From Stdlib Require Import ZArith Lia.
From S2P Require Import Prelude Bytes Mem Errno Btf Reloc RelocWf.

#[local] Open Scope Z_scope.

(** * Compatibility *)

(** The loop over the parameters; [rec] is the recursive call at the level below
    ([None] at level 0). 1 stands for going on behind the loop. *)
Fixpoint compat_params (rec : option (Z → Z → option Z)) (local_btf targ_btf : btf) (local_type targ_type : btf_type)
    (n : nat) (i : Z) : option Z :=
  match n with
  | O => Some 1
  | S n =>
      match rec with
      | None => Some (- EINVAL)
      | Some f =>
          local_p ← btf_param_at local_type i;
          targ_p ← btf_param_at targ_type i;
          '(local_id, _) ← skip_mods_and_typedefs local_btf (p_type local_p);
          '(targ_id, _) ← skip_mods_and_typedefs targ_btf (p_type targ_p);
          err ← f local_id targ_id;
          if err <=? 0 then Some err else compat_params rec local_btf targ_btf local_type targ_type n (i + 1)
      end
  end.

(** From the label [recur] on. *)
Fixpoint compat_recur (depth : nat) (rec : option (Z → Z → option Z)) (local_btf : btf) (local_id : Z)
    (targ_btf : btf) (targ_id : Z) : option Z :=
  match depth with
  | O => Some (- EINVAL)
  | S depth =>
      '(_, local_type) ← skip_mods_and_typedefs local_btf local_id;
      '(_, targ_type) ← skip_mods_and_typedefs targ_btf targ_id;
      if negb (btf_kind_core_compat local_type targ_type) then Some 0
      else
        let k := btf_kind local_type in
        if (k =? BTF_KIND_UNKN) || (k =? BTF_KIND_STRUCT) || (k =? BTF_KIND_UNION) || (k =? BTF_KIND_ENUM) ||
           (k =? BTF_KIND_FWD) || (k =? BTF_KIND_ENUM64) then Some 1
        else if k =? BTF_KIND_INT then
          lo ← btf_int_offset local_type;
          to ← btf_int_offset targ_type;
          Some (bool_Z ((lo =? 0) && (to =? 0)))
        else if k =? BTF_KIND_PTR then
          compat_recur depth rec local_btf (bt_type local_type) targ_btf (bt_type targ_type)
        else if k =? BTF_KIND_ARRAY then
          la ← btf_array_of local_type; ta ← btf_array_of targ_type;
          compat_recur depth rec local_btf (a_type la) targ_btf (a_type ta)
        else if k =? BTF_KIND_FUNC_PROTO then
          if negb (btf_vlen local_type =? btf_vlen targ_type) then Some 0
          else
            r ← compat_params rec local_btf targ_btf local_type targ_type (Z.to_nat (btf_vlen local_type)) 0;
            if r <=? 0 then Some r
            else
              '(local_id, _) ← skip_mods_and_typedefs local_btf (bt_type local_type);
              '(targ_id, _) ← skip_mods_and_typedefs targ_btf (bt_type targ_type);
              compat_recur depth rec local_btf local_id targ_btf targ_id
        else Some 0
  end.

Definition MAX_COMPAT_DEPTH : nat := 32.

Fixpoint __bpf_core_types_are_compat (level : nat) (local_btf : btf) (local_id : Z) (targ_btf : btf) (targ_id : Z)
    : option Z :=
  local_type ← btf_type_by_id local_btf local_id;
  targ_type ← btf_type_by_id targ_btf targ_id;
  if negb (btf_kind_core_compat local_type targ_type) then Some 0
  else
    compat_recur MAX_COMPAT_DEPTH
      (match level with
       | O => None
       | S level => Some (λ l t, __bpf_core_types_are_compat level local_btf l targ_btf t)
       end) local_btf local_id targ_btf targ_id.

Definition bpf_core_types_are_compat (local_btf : btf) (local_id : Z) (targ_btf : btf) (targ_id : Z) : option Z :=
  __bpf_core_types_are_compat 32 local_btf local_id targ_btf targ_id.

(** * Matching *)

Definition enum_name_off (t : btf_type) (i : Z) : option Z :=
  if btf_is_enum t then e ← btf_enum_at t i; Some (e_name_off e)
  else e ← btf_enum64_at t i; Some (e64_name_off e).

(** The inner loop of [bpf_core_enums_match]: is there a target variant of this name? *)
Fixpoint enum_matched (local_btf : btf) (local_n_off : Z) (targ_btf : btf) (targ_t : btf_type) (n : nat) (j : Z)
    : option bool :=
  match n with
  | O => Some false
  | S n =>
      targ_n_off ← enum_name_off targ_t j;
      r ← bpf_core_names_match local_btf local_n_off targ_btf targ_n_off;
      if r : bool then Some true else enum_matched local_btf local_n_off targ_btf targ_t n (j + 1)
  end.

Fixpoint enums_matched (local_btf : btf) (local_t : btf_type) (targ_btf : btf) (targ_t : btf_type) (n : nat) (i : Z)
    : option Z :=
  match n with
  | O => Some 1
  | S n =>
      local_n_off ← enum_name_off local_t i;
      r ← enum_matched local_btf local_n_off targ_btf targ_t (Z.to_nat (btf_vlen targ_t)) 0;
      if r : bool then enums_matched local_btf local_t targ_btf targ_t n (i + 1) else Some 0
  end.

Definition bpf_core_enums_match (local_btf : btf) (local_t : btf_type) (targ_btf : btf) (targ_t : btf_type) : option Z :=
  if negb (bt_size local_t =? bt_size targ_t) then Some 0
  else if btf_vlen local_t >? btf_vlen targ_t then Some 0
  else enums_matched local_btf local_t targ_btf targ_t (Z.to_nat (btf_vlen local_t)) 0.

(** The inner loop of [bpf_core_composites_match]: 1 when a target member matches. *)
Fixpoint member_matched (rec : Z → Z → option Z) (local_btf : btf) (local_m : btf_member) (targ_btf : btf)
    (targ_t : btf_type) (n : nat) (j : Z) : option Z :=
  match n with
  | O => Some 0
  | S n =>
      targ_m ← btf_member_at targ_t j;
      r ← bpf_core_names_match local_btf (m_name_off local_m) targ_btf (m_name_off targ_m);
      if r : bool then
        err ← rec (m_type local_m) (m_type targ_m);
        if negb (err =? 0) then Some (if err <? 0 then err else 1)
        else member_matched rec local_btf local_m targ_btf targ_t n (j + 1)
      else member_matched rec local_btf local_m targ_btf targ_t n (j + 1)
  end.

Fixpoint members_matched (rec : Z → Z → option Z) (local_btf : btf) (local_t : btf_type) (targ_btf : btf)
    (targ_t : btf_type) (n : nat) (i : Z) : option Z :=
  match n with
  | O => Some 1
  | S n =>
      local_m ← btf_member_at local_t i;
      r ← member_matched rec local_btf local_m targ_btf targ_t (Z.to_nat (btf_vlen targ_t)) 0;
      if r <=? 0 then Some r else members_matched rec local_btf local_t targ_btf targ_t n (i + 1)
  end.

(** [rec] is [__bpf_core_types_match] with the same [behind_ptr] at the level below. *)
Definition bpf_core_composites_match (rec : Z → Z → option Z) (local_btf : btf) (local_t : btf_type)
    (targ_btf : btf) (targ_t : btf_type) : option Z :=
  if btf_vlen local_t >? btf_vlen targ_t then Some 0
  else members_matched rec local_btf local_t targ_btf targ_t (Z.to_nat (btf_vlen local_t)) 0.

Fixpoint match_params (rec : Z → Z → option Z) (local_t targ_t : btf_type) (n : nat) (i : Z) : option Z :=
  match n with
  | O => Some 1
  | S n =>
      local_p ← btf_param_at local_t i;
      targ_p ← btf_param_at targ_t i;
      err ← rec (p_type local_p) (p_type targ_p);
      if err <=? 0 then Some err else match_params rec local_t targ_t n (i + 1)
  end.

(** From the label [recur] on; [rec] is the recursive call at the level below. *)
Fixpoint match_recur (depth : nat) (rec : bool → Z → Z → option Z) (local_btf : btf) (local_id : Z)
    (targ_btf : btf) (targ_id : Z) (behind_ptr : bool) : option Z :=
  match depth with
  | O => Some (- EINVAL)
  | S depth =>
      '(_, local_t) ← skip_mods_and_typedefs local_btf local_id;
      '(_, targ_t) ← skip_mods_and_typedefs targ_btf targ_id;
      nm ← bpf_core_names_match local_btf (bt_name_off local_t) targ_btf (bt_name_off targ_t);
      if negb nm then Some 0
      else
        let local_k := btf_kind local_t in
        let targ_k := btf_kind targ_t in
        if local_k =? BTF_KIND_UNKN then Some (bool_Z (local_k =? targ_k))
        else if local_k =? BTF_KIND_FWD then
          let local_f := btf_kflag local_t in
          if behind_ptr then
            if local_k =? targ_k then Some (bool_Z (Bool.eqb local_f (btf_kflag targ_t)))
            else Some (bool_Z (((targ_k =? BTF_KIND_STRUCT) && negb local_f) ||
                               ((targ_k =? BTF_KIND_UNION) && local_f)))
          else if negb (local_k =? targ_k) then Some 0
          else Some (bool_Z (Bool.eqb local_f (btf_kflag targ_t)))
        else if (local_k =? BTF_KIND_ENUM) || (local_k =? BTF_KIND_ENUM64) then
          if negb (btf_is_any_enum targ_t) then Some 0
          else bpf_core_enums_match local_btf local_t targ_btf targ_t
        else if (local_k =? BTF_KIND_STRUCT) || (local_k =? BTF_KIND_UNION) then
          if behind_ptr then
            if local_k =? targ_k then Some 1
            else if negb (targ_k =? BTF_KIND_FWD) then Some 0
            else Some (bool_Z (Bool.eqb (local_k =? BTF_KIND_UNION) (btf_kflag targ_t)))
          else if negb (local_k =? targ_k) then Some 0
          else bpf_core_composites_match (rec behind_ptr) local_btf local_t targ_btf targ_t
        else if local_k =? BTF_KIND_INT then
          if negb (local_k =? targ_k) then Some 0
          else
            le ← btf_int_encoding local_t;
            te ← btf_int_encoding targ_t;
            Some (bool_Z ((bt_size local_t =? bt_size targ_t) &&
                          (Z.land le BTF_INT_SIGNED =? Z.land te BTF_INT_SIGNED)))
        else if local_k =? BTF_KIND_PTR then
          if negb (local_k =? targ_k) then Some 0
          else match_recur depth rec local_btf (bt_type local_t) targ_btf (bt_type targ_t) true
        else if local_k =? BTF_KIND_ARRAY then
          if negb (local_k =? targ_k) then Some 0
          else
            la ← btf_array_of local_t; ta ← btf_array_of targ_t;
            if negb (a_nelems la =? a_nelems ta) then Some 0
            else match_recur depth rec local_btf (a_type la) targ_btf (a_type ta) behind_ptr
        else if local_k =? BTF_KIND_FUNC_PROTO then
          if negb (local_k =? targ_k) then Some 0
          else if negb (btf_vlen local_t =? btf_vlen targ_t) then Some 0
          else
            r ← match_params (rec behind_ptr) local_t targ_t (Z.to_nat (btf_vlen local_t)) 0;
            if r <=? 0 then Some r
            else match_recur depth rec local_btf (bt_type local_t) targ_btf (bt_type targ_t) behind_ptr
        else Some 0
  end.

Fixpoint __bpf_core_types_match (level : nat) (local_btf : btf) (targ_btf : btf) (behind_ptr : bool)
    (local_id targ_id : Z) : option Z :=
  match level with
  | O => Some (- EINVAL)
  | S level =>
      _ ← btf_type_by_id local_btf local_id;
      _ ← btf_type_by_id targ_btf targ_id;
      match_recur MAX_COMPAT_DEPTH (__bpf_core_types_match level local_btf targ_btf) local_btf local_id
        targ_btf targ_id behind_ptr
  end.

Definition bpf_core_types_match (local_btf : btf) (local_id : Z) (targ_btf : btf) (targ_id : Z) : option Z :=
  __bpf_core_types_match 32 local_btf targ_btf false local_id targ_id.

(** * Compatibility as a relation *)

Definition compat_leaf_kind (k : Z) : bool :=
  (k =? BTF_KIND_UNKN) || (k =? BTF_KIND_STRUCT) || (k =? BTF_KIND_UNION) || (k =? BTF_KIND_ENUM) ||
  (k =? BTF_KIND_FWD) || (k =? BTF_KIND_ENUM64).

Section compat.
Context (lb tb : btf).

(** The rules of the comment of [bpf_core_types_are_compat]: names, sizes and modifiers
    do not count; pointers, arrays and signatures are compared part by part. *)
Inductive compat : Z → Z → Prop :=
  | compat_leaf l t lid lt tid tt :
      skip_mods_and_typedefs lb l = Some (lid, lt) → skip_mods_and_typedefs tb t = Some (tid, tt) →
      btf_kind_core_compat lt tt = true → compat_leaf_kind (btf_kind lt) = true → compat l t
  | compat_int l t lid lt tid tt :
      skip_mods_and_typedefs lb l = Some (lid, lt) → skip_mods_and_typedefs tb t = Some (tid, tt) →
      btf_kind lt = BTF_KIND_INT → btf_kind tt = BTF_KIND_INT →
      btf_int_offset lt = Some 0 → btf_int_offset tt = Some 0 → compat l t
  | compat_ptr l t lid lt tid tt :
      skip_mods_and_typedefs lb l = Some (lid, lt) → skip_mods_and_typedefs tb t = Some (tid, tt) →
      btf_kind lt = BTF_KIND_PTR → btf_kind tt = BTF_KIND_PTR → compat (bt_type lt) (bt_type tt) → compat l t
  | compat_array l t lid lt tid tt la ta :
      skip_mods_and_typedefs lb l = Some (lid, lt) → skip_mods_and_typedefs tb t = Some (tid, tt) →
      btf_kind lt = BTF_KIND_ARRAY → btf_kind tt = BTF_KIND_ARRAY →
      btf_array_of lt = Some la → btf_array_of tt = Some ta → compat (a_type la) (a_type ta) → compat l t
  | compat_proto l t lid lt tid tt :
      skip_mods_and_typedefs lb l = Some (lid, lt) → skip_mods_and_typedefs tb t = Some (tid, tt) →
      btf_kind lt = BTF_KIND_FUNC_PROTO → btf_kind tt = BTF_KIND_FUNC_PROTO → btf_vlen lt = btf_vlen tt →
      (∀ i lp tp, 0 ≤ i < btf_vlen lt → btf_param_at lt i = Some lp → btf_param_at tt i = Some tp →
        compat (p_type lp) (p_type tp)) →
      compat (bt_type lt) (bt_type tt) → compat l t.

(** The rule for two types behind their modifiers. *)
Definition compat_body (lt tt : btf_type) : Prop :=
  btf_kind_core_compat lt tt = true ∧
  (compat_leaf_kind (btf_kind lt) = true ∨
   (btf_kind lt = BTF_KIND_INT ∧ btf_int_offset lt = Some 0 ∧ btf_int_offset tt = Some 0) ∨
   (btf_kind lt = BTF_KIND_PTR ∧ compat (bt_type lt) (bt_type tt)) ∨
   (btf_kind lt = BTF_KIND_ARRAY ∧ ∃ la ta, btf_array_of lt = Some la ∧ btf_array_of tt = Some ta ∧
      compat (a_type la) (a_type ta)) ∨
   (btf_kind lt = BTF_KIND_FUNC_PROTO ∧ btf_vlen lt = btf_vlen tt ∧
      (∀ i lp tp, 0 ≤ i < btf_vlen lt → btf_param_at lt i = Some lp → btf_param_at tt i = Some tp →
        compat (p_type lp) (p_type tp)) ∧
      compat (bt_type lt) (bt_type tt))).

(** Kinds that are no enum are compatible only with themselves. *)
Lemma core_compat_eq lt tt k : btf_kind lt = k → k ≠ BTF_KIND_ENUM → k ≠ BTF_KIND_ENUM64 →
  btf_kind_core_compat lt tt = true → btf_kind tt = k.
Proof.
  intros Hk H1 H2. unfold btf_kind_core_compat, btf_is_any_enum, btf_is_enum, btf_is_enum64. rewrite Hk.
  destruct (Z.eqb_spec k (btf_kind tt)), (Z.eqb_spec k BTF_KIND_ENUM), (Z.eqb_spec k BTF_KIND_ENUM64); done.
Qed.

Lemma core_compat_same lt tt : btf_kind lt = btf_kind tt → btf_kind_core_compat lt tt = true.
Proof. unfold btf_kind_core_compat. intros ->. by rewrite Z.eqb_refl. Qed.

Lemma compat_iff l t lid lt tid tt :
  skip_mods_and_typedefs lb l = Some (lid, lt) → skip_mods_and_typedefs tb t = Some (tid, tt) →
  compat l t ↔ compat_body lt tt.
Proof.
  intros Hl Ht. unfold compat_body. split.
  - intros H; inversion H; subst; simplify_eq; (split; [by (done || (apply core_compat_same; congruence))|]).
    + by left.
    + right. by left.
    + right. right. by left.
    + right. right. right. left. split; [done|]. by eexists _, _.
    + right. right. right. right. by split.
  - intros [Hc [Hk|[(Hk & ? & ?)|[(Hk & ?)|[(Hk & la & ta & ? & ? & ?)|(Hk & ? & ? & ?)]]]]].
    + by eapply compat_leaf.
    + eapply compat_int; try done. by eapply core_compat_eq.
    + eapply compat_ptr; try done. by eapply core_compat_eq.
    + eapply compat_array; try done. by eapply core_compat_eq.
    + eapply compat_proto; try done. by eapply core_compat_eq.
Qed.

Lemma compat_body_array lt tt la ta :
  btf_kind lt = BTF_KIND_ARRAY → btf_kind_core_compat lt tt = true →
  btf_array_of lt = Some la → btf_array_of tt = Some ta → compat_body lt tt ↔ compat (a_type la) (a_type ta).
Proof.
  intros Hk Hc Hl Ht. unfold compat_body. rewrite Hk. split.
  - intros [_ [?|[[? _]|[[? _]|[(_ & la' & ta' & ? & ? & ?)|[? _]]]]]]; by simplify_eq.
  - intros H. split; [done|]. right. right. right. left. split; [done|]. by exists la, ta.
Qed.

Lemma compat_body_proto lt tt :
  btf_kind lt = BTF_KIND_FUNC_PROTO → btf_kind_core_compat lt tt = true →
  compat_body lt tt ↔ btf_vlen lt = btf_vlen tt ∧
    (∀ i lp tp, 0 ≤ i < btf_vlen lt → btf_param_at lt i = Some lp → btf_param_at tt i = Some tp →
       compat (p_type lp) (p_type tp)) ∧ compat (bt_type lt) (bt_type tt).
Proof.
  intros Hk Hc. unfold compat_body. rewrite Hk. split.
  - intros [_ [?|[[? _]|[[? _]|[[? _]|(_ & H)]]]]]; done.
  - intros H. split; [done|]. right. right. right. right. by split.
Qed.

(** Compatible is what is compatible behind the modifiers. *)
Lemma compat_skip l t lid lt tid tt :
  skip_mods_and_typedefs lb l = Some (lid, lt) → skip_mods_and_typedefs tb t = Some (tid, tt) →
  compat lid tid ↔ compat l t.
Proof.
  intros Hl Ht. rewrite (compat_iff l t lid lt tid tt Hl Ht).
  apply (compat_iff lid tid lid lt tid tt); by eapply skip_skip.
Qed.

(** A result that decides [P], or the depth error. *)
Definition verdict (P : Prop) (r : Z) : Prop := (r = 1 ∧ P) ∨ (r = 0 ∧ ¬ P) ∨ r = - EINVAL.

Lemma verdict_iff (P Q : Prop) r : (P ↔ Q) → verdict P r → verdict Q r.
Proof. unfold verdict. naive_solver. Qed.

Lemma verdict_bool (P : Prop) b : (b = true ↔ P) → verdict P (bool_Z b).
Proof. unfold verdict, bool_Z. destruct b; naive_solver. Qed.

(** Fewer than [d] pointers, arrays and signatures lie inside each other. *)
Fixpoint shallow (d : nat) (id : Z) : Prop :=
  match d with
  | O => False
  | S d =>
      ∀ id' t, skip_mods_and_typedefs lb id = Some (id', t) →
        (btf_kind t = BTF_KIND_PTR → shallow d (bt_type t)) ∧
        (btf_kind t = BTF_KIND_ARRAY → ∀ a, btf_array_of t = Some a → shallow d (a_type a)) ∧
        (btf_kind t = BTF_KIND_FUNC_PROTO → shallow d (bt_type t) ∧
           ∀ i p, 0 ≤ i < btf_vlen t → btf_param_at t i = Some p → shallow d (p_type p))
  end.

Lemma shallow_inv d id id' t : skip_mods_and_typedefs lb id = Some (id', t) → shallow (S d) id →
  (btf_kind t = BTF_KIND_PTR → shallow d (bt_type t)) ∧
  (btf_kind t = BTF_KIND_ARRAY → ∀ a, btf_array_of t = Some a → shallow d (a_type a)) ∧
  (btf_kind t = BTF_KIND_FUNC_PROTO → shallow d (bt_type t) ∧
     ∀ i p, 0 ≤ i < btf_vlen t → btf_param_at t i = Some p → shallow d (p_type p)).
Proof. intros Hs H. exact (H _ _ Hs). Qed.

Lemma shallow_skip d id id' t : skip_mods_and_typedefs lb id = Some (id', t) → shallow d id → shallow d id'.
Proof.
  intros Hs. destruct d as [|d]; [done|]. cbn. intros H id1 t1 H1.
  rewrite (skip_skip _ _ _ _ Hs) in H1. simplify_eq. by apply (H id1 t1).
Qed.

Context (Hlb : btf_wf lb = true) (Htb : btf_wf tb = true).

(** What the loop over the parameters needs of the recursive call, [lev] levels deep. *)
Definition rec_ok (lev : nat) (rec : option (Z → Z → option Z)) : Prop :=
  match rec with
  | None => lev = 0%nat
  | Some f => ∀ l t lid lt tid tt,
      skip_mods_and_typedefs lb l = Some (lid, lt) → skip_mods_and_typedefs tb t = Some (tid, tt) →
      ∃ r, f lid tid = Some r ∧ verdict (compat l t) r ∧
        ∀ d, shallow d l → (d ≤ MAX_COMPAT_DEPTH)%nat → (d ≤ lev)%nat → r ≠ - EINVAL
  end.

Lemma compat_params_spec lev rec lt tt n i :
  rec_ok lev rec → type_ok lb lt = true → type_ok tb tt = true →
  btf_kind lt = BTF_KIND_FUNC_PROTO → btf_kind tt = BTF_KIND_FUNC_PROTO →
  0 ≤ i → i + Z.of_nat n = btf_vlen lt → btf_vlen lt = btf_vlen tt →
  ∃ r, compat_params rec lb tb lt tt n i = Some r ∧
    verdict (∀ j lp tp, i ≤ j < btf_vlen lt → btf_param_at lt j = Some lp → btf_param_at tt j = Some tp →
               compat (p_type lp) (p_type tp)) r ∧
    ∀ d, (∀ j lp, i ≤ j < btf_vlen lt → btf_param_at lt j = Some lp → shallow d (p_type lp)) →
      (d ≤ MAX_COMPAT_DEPTH)%nat → (d ≤ lev)%nat → r ≠ - EINVAL.
Proof.
  intros Hrec Hlt Htt Hkl Hkt. revert i. induction n as [|n IH]; intros i Hi Hn Hv; cbn [compat_params].
  { exists 1. split; [done|]. split; [left; split; [done|lia]|done]. }
  destruct (type_ok_proto _ _ Hlt Hkl) as [_ Hpl]. destruct (type_ok_proto _ _ Htt Hkt) as [_ Hpt].
  destruct (Hpl i ltac:(lia)) as (lp & Elp & Vl). destruct (Hpt i ltac:(lia)) as (tp & Etp & Vt).
  destruct rec as [f|]; cbn [rec_ok] in Hrec.
  2:{ exists (- EINVAL). split; [done|]. split; [by right; right|]. intros d Hd _ Hl.
      specialize (Hd i lp ltac:(lia) Elp). by replace d with 0%nat in Hd by lia. }
  rewrite Elp, Etp. cbn [mbind option_bind].
  destruct (skip_valid _ Hlb _ Vl) as (lid & lt' & Sl). destruct (skip_valid _ Htb _ Vt) as (tid & tt' & St).
  rewrite Sl, St. cbn [mbind option_bind].
  destruct (Hrec _ _ _ _ _ _ Sl St) as (r & -> & Hr & Hsh). cbn [mbind option_bind].
  destruct Hr as [[-> Hc]|[[-> Hc]| ->]]; cbn.
  - destruct (IH (i + 1)) as (r & -> & Hr & Hsh'); [lia..|]. exists r. split; [done|]. split.
    + eapply verdict_iff; [|exact Hr]. split.
      * intros H j lp' tp' Hj Hl Ht. destruct (decide (j = i)) as [-> |]; [by simplify_eq|]. apply (H j); [lia|done..].
      * intros H j lp' tp' Hj. apply H. lia.
    + intros d Hd. apply Hsh'. intros j lp' Hj. apply Hd. lia.
  - exists 0. split; [done|]. split; [|done]. right. left. split; [done|]. intros H. apply Hc, (H i); [lia|done..].
  - exists (- EINVAL). split; [done|]. split; [by right; right|]. intros d Hd. apply (Hsh d), (Hd i); [lia|done].
Qed.

(** The final error is the one of depth. *)
Lemma verdict_err P d l : (shallow d l → False) → verdict P (- EINVAL) ∧ (shallow d l → - EINVAL ≠ - EINVAL).
Proof. intros H. split; [by right; right|]. intros Hs. by destruct (H Hs). Qed.

Lemma compat_recur_spec lev depth rec l t :
  rec_ok lev rec → valid lb l → valid tb t → (depth ≤ MAX_COMPAT_DEPTH)%nat →
  ∃ r, compat_recur depth rec lb l tb t = Some r ∧ verdict (compat l t) r ∧
    ∀ d, shallow d l → (d ≤ depth)%nat → (d ≤ S lev)%nat → r ≠ - EINVAL.
Proof.
  intros Hrec. revert l t. induction depth as [|depth IH]; intros l t Vl Vt Hd; cbn [compat_recur].
  { exists (- EINVAL). split; [done|]. split; [by right; right|]. intros d Hs ? _. by replace d with 0%nat in Hs by lia. }
  destruct (skip_valid _ Hlb _ Vl) as (lid & lt & Sl). destruct (skip_valid _ Htb _ Vt) as (tid & tt & St).
  rewrite Sl, St. cbn [mbind option_bind].
  destruct (skip_end _ Hlb _ _ _ Sl) as (_ & _ & Olt). destruct (skip_end _ Htb _ _ _ St) as (_ & _ & Ott).
  assert (Hone : ∀ P : Prop, (compat_body lt tt ↔ P) → ∀ r, verdict P r → verdict (compat l t) r).
  { intros P HP r Hr. eapply verdict_iff; [|exact Hr]. rewrite <- HP. symmetry. by eapply compat_iff. }
  assert (Hno : ¬ compat_body lt tt → ∃ r, Some 0 = Some r ∧ verdict (compat l t) r ∧
    ∀ d, shallow d l → (d ≤ S depth)%nat → (d ≤ S lev)%nat → r ≠ - EINVAL).
  { intros Hn. exists 0. split; [done|]. split; [|done]. apply (Hone (compat_body lt tt)); [done|]. by right; left. }
  destruct (btf_kind_core_compat lt tt) eqn:Hc; cbn [negb].
  2:{ apply Hno. intros [? _]. congruence. }
  fold (compat_leaf_kind (btf_kind lt)). destruct (compat_leaf_kind (btf_kind lt)) eqn:Hleaf.
  { exists 1. split; [done|]. split; [|done]. apply (Hone (compat_body lt tt)); [done|]. left. split; [done|]. split; [done|]. by left. }
  destruct (Z.eqb_spec (btf_kind lt) BTF_KIND_INT) as [Hk|Hk1].
  { pose proof (core_compat_eq lt tt _ Hk ltac:(done) ltac:(done) Hc) as Hkt.
    unfold btf_int_offset at 1 2. destruct (type_ok_int _ _ Olt Hk) as [w Ew]. destruct (type_ok_int _ _ Ott Hkt) as [w' Ew'].
    rewrite Ew, Ew'. cbn [mbind option_bind]. eexists. split; [done|]. split; [|intros d _ _ _; unfold bool_Z; by destruct (_ && _)].
    apply (Hone (compat_body lt tt)); [done|]. apply verdict_bool.
    unfold compat_body, btf_int_offset. rewrite Ew, Ew', Hk, andb_true_iff, !Z.eqb_eq. cbn. rewrite Hc.
    split; [intros [-> ->]; naive_solver|]. intros [_ [?|[(_ & ? & ?)|[[? _]|[[? _]|[? _]]]]]]; by simplify_eq. }
  destruct (Z.eqb_spec (btf_kind lt) BTF_KIND_PTR) as [Hk|Hk2].
  { pose proof (core_compat_eq lt tt _ Hk ltac:(done) ltac:(done) Hc) as Hkt.
    destruct (IH (bt_type lt) (bt_type tt)) as (r & -> & Hr & Hsh); [by apply type_ok_ptr..|lia|]. exists r. split; [done|].
    split; [eapply Hone; [|exact Hr]; unfold compat_body; rewrite Hk; naive_solver|].
    intros [|d] Hs ??; [done|]. apply (Hsh d); [exact (proj1 (shallow_inv _ _ _ _ Sl Hs) Hk)|lia..]. }
  destruct (Z.eqb_spec (btf_kind lt) BTF_KIND_ARRAY) as [Hk|Hk3].
  { pose proof (core_compat_eq lt tt _ Hk ltac:(done) ltac:(done) Hc) as Hkt.
    destruct (type_ok_array _ _ Olt Hk) as (la & Ela & Vla). destruct (type_ok_array _ _ Ott Hkt) as (ta & Eta & Vta).
    rewrite Ela, Eta. cbn [mbind option_bind]. destruct (IH (a_type la) (a_type ta)) as (r & -> & Hr & Hsh); [done..|lia|].
    exists r. split; [done|]. split; [eapply Hone; [|exact Hr]; by apply compat_body_array|].
    intros [|d] Hs ??; [done|]. apply (Hsh d); [exact (proj1 (proj2 (shallow_inv _ _ _ _ Sl Hs)) Hk la Ela)|lia..]. }
  destruct (Z.eqb_spec (btf_kind lt) BTF_KIND_FUNC_PROTO) as [Hk|Hk4].
  2:{ apply Hno. unfold compat_body. rewrite Hleaf. naive_solver. }
  pose proof (core_compat_eq lt tt _ Hk ltac:(done) ltac:(done) Hc) as Hkt.
  destruct (Z.eqb_spec (btf_vlen lt) (btf_vlen tt)) as [Hv|Hv]; cbn [negb].
  2:{ apply Hno. rewrite (compat_body_proto _ _ Hk Hc). by intros (? & _). }
  assert (0 ≤ btf_vlen lt) by (apply Z.land_nonneg; by right).
  destruct (compat_params_spec lev rec lt tt (Z.to_nat (btf_vlen lt)) 0) as (r & -> & Hr & Hsh); try done; [lia|].
  cbn [mbind option_bind]. destruct Hr as [[-> Hp]|[[-> Hp]| ->]]; cbn [Z.leb Z.compare Z.opp EINVAL].
  - destruct (type_ok_proto _ _ Olt Hk) as [Vlr _]. destruct (type_ok_proto _ _ Ott Hkt) as [Vtr _].
    destruct (skip_valid _ Hlb _ Vlr) as (lrid & lrt & Slr). destruct (skip_valid _ Htb _ Vtr) as (trid & trt & Str).
    rewrite Slr, Str. cbn [mbind option_bind].
    destruct (IH lrid trid) as (r & -> & Hr & Hsh');
      [eexists; by apply (skip_end _ Hlb _ _ _ Slr)|eexists; by apply (skip_end _ Htb _ _ _ Str)|lia|].
    exists r. split; [done|]. split.
    + eapply Hone; [|exact Hr]. rewrite (compat_skip _ _ _ _ _ _ Slr Str), (compat_body_proto _ _ Hk Hc).
      split; [by intros (_ & _ & ?)|by intros ?].
    + intros [|d] Hs ??; [done|]. apply (Hsh' d); [|lia..]. eapply shallow_skip; [exact Slr|].
      exact (proj1 (proj2 (proj2 (shallow_inv _ _ _ _ Sl Hs)) Hk)).
  - apply Hno. rewrite (compat_body_proto _ _ Hk Hc). by intros (_ & ? & _).
  - exists (- EINVAL). split; [done|]. split; [by right; right|]. intros [|d] Hs ??; [done|].
    apply (Hsh d); [|lia..]. intros j lp Hj. exact (proj2 (proj2 (proj2 (shallow_inv _ _ _ _ Sl Hs)) Hk) j lp Hj).
Qed.

Lemma types_are_compat_level level l t lt tt :
  btf__type_by_id lb l = Some lt → btf__type_by_id tb t = Some tt →
  ∃ r, __bpf_core_types_are_compat level lb l tb t = Some r ∧
    verdict (btf_kind_core_compat lt tt = true ∧ compat l t) r ∧
    ∀ d, shallow d l → (d ≤ MAX_COMPAT_DEPTH)%nat → (d ≤ S level)%nat → r ≠ - EINVAL.
Proof.
  revert l t lt tt. induction level as [|level IH]; intros l t lt tt Hl Ht; cbn [__bpf_core_types_are_compat];
    rewrite (wf_by_id _ _ _ Hl), (wf_by_id _ _ _ Ht); cbn [mbind option_bind].
  all: destruct (btf_kind_core_compat lt tt) eqn:Hc; cbn [negb];
    [|exists 0; split; [done|]; split; [|done]; right; left; split; [done|by intros [? _]]].
  1: destruct (compat_recur_spec 0 MAX_COMPAT_DEPTH None l t) as (r & -> & Hr & Hsh); [done|by eexists..|done|].
  2: destruct (compat_recur_spec (S level) MAX_COMPAT_DEPTH
       (Some (λ l' t', __bpf_core_types_are_compat level lb l' tb t')) l t) as (r & -> & Hr & Hsh); [|by eexists..|done|].
  1, 3: exists r; split; [done|]; split; [|exact Hsh]; (eapply verdict_iff; [|exact Hr]); naive_solver.
  intros l' t' lid lt' tid tt' Sl St.
  destruct (skip_end _ Hlb _ _ _ Sl) as (El & _ & _). destruct (skip_end _ Htb _ _ _ St) as (Et & _ & _).
  destruct (IH lid tid lt' tt' El Et) as (r & -> & Hr & Hsh). exists r. split; [done|]. split.
  - eapply verdict_iff; [|exact Hr].
    rewrite <- (compat_skip _ _ _ _ _ _ Sl St). rewrite (compat_iff lid tid lid lt' tid tt') by (by eapply skip_skip).
    unfold compat_body. naive_solver.
  - intros d Hs. apply Hsh. by eapply shallow_skip.
Qed.
End compat.

(** * Property *)

(** C18. On well-formed BTF the check for compatible types always returns; its answers 1
    and 0 decide the relation of the documented rules, and it fails with [-EINVAL]
    only for types nested 32 deep or deeper. *)
Theorem types_are_compat_decides lb tb l t lt tt :
  btf_wf lb = true → btf_wf tb = true → btf__type_by_id lb l = Some lt → btf__type_by_id tb t = Some tt →
  ∃ r, bpf_core_types_are_compat lb l tb t = Some r ∧
    ((r = 1 ∧ btf_kind_core_compat lt tt = true ∧ compat lb tb l t) ∨
     (r = 0 ∧ ¬ (btf_kind_core_compat lt tt = true ∧ compat lb tb l t)) ∨ r = - EINVAL) ∧
    (shallow lb 32 l → r ≠ - EINVAL).
Proof.
  intros Hl Ht El Et. destruct (types_are_compat_level lb tb Hl Ht 32 l t lt tt El Et) as (r & E & Hr & Hsh).
  exists r. split; [exact E|]. split; [exact Hr|]. intros Hs. apply (Hsh 32%nat Hs); unfold MAX_COMPAT_DEPTH; lia.
Qed.

Lemma types_are_compat_decides_witness :
  bpf_core_types_are_compat demo_btf 9 demo_btf 9 = Some 1 ∧
  bpf_core_types_are_compat demo_btf 9 demo_btf 3 = Some 0 ∧
  ∃ r, bpf_core_types_are_compat demo_btf 9 demo_btf 9 = Some r ∧
    ((r = 1 ∧ true = true ∧ compat demo_btf demo_btf 9 9) ∨
     (r = 0 ∧ ¬ (true = true ∧ compat demo_btf demo_btf 9 9)) ∨ r = - EINVAL) ∧
    (shallow demo_btf 32 9 → r ≠ - EINVAL).
Proof.
  split; [vm_compute; reflexivity|]. split; [vm_compute; reflexivity|].
  apply (types_are_compat_decides demo_btf demo_btf 9 9
    (mkType 0 (mk_info BTF_KIND_FUNC_PROTO 2 false) 1 [25; 6; 27; 8])
    (mkType 0 (mk_info BTF_KIND_FUNC_PROTO 2 false) 1 [25; 6; 27; 8])); vm_compute; reflexivity.
Defined.
