(* ===== verification/RelocCalc.v ===== *)
(** CO-RE relocations: matching a local spec to a target type, and the values a
    relocation stands for (src/libbpf/src/relo_core.c lines 557-963, on a little-endian
    host).

    [None] is undefined behaviour or a loop that does not end, as in Reloc.v. *)
From stdpp Require Import base list strings.
From Stdlib Require Import ZArith Lia.
From S2P Require Import Prelude Bytes Mem Errno Hashmap Btf Reloc RelocTypes.

#[local] Open Scope Z_scope.

(** * Matching a spec *)

Definition sp_empty (b : btf) (root kind : Z) : bpf_core_spec := mkSpec b [] root kind [] 0.

(** The loop over the variants of the target enum. *)
Fixpoint match_enumval (targ_btf : btf) (targ_id : Z) (targ_type : btf_type) (local_name : list Z) (n : nat) (i : Z)
    (targ_spec : bpf_core_spec) : option (Z * bpf_core_spec) :=
  match n with
  | O => Some (0, targ_spec)
  | S n =>
      name_off ← enum_name_off targ_type i;
      targ_name ← btf__name_by_offset targ_btf name_off;
      let local_len := bpf_core_essential_name_len local_name in
      if negb (bpf_core_essential_name_len targ_name =? local_len)%nat
      then match_enumval targ_btf targ_id targ_type local_name n (i + 1) targ_spec
      else if strncmp_eq local_name targ_name local_len
      then Some (1, sp_push (sp_add_acc targ_spec (mkAcc targ_id i (Some targ_name))) i 0)
      else match_enumval targ_btf targ_id targ_type local_name n (i + 1) targ_spec
  end.

(** The loop over the accessors of the local spec, [first] for the first one. The
    accessor of the target is appended: every round adds exactly one. *)
Fixpoint match_accessors (local_btf : btf) (targ_btf : btf) (accs : list bpf_core_accessor) (first : bool)
    (targ_id : Z) (targ_spec : bpf_core_spec) : option (Z * bpf_core_spec) :=
  match accs with
  | [] => Some (1, targ_spec)
  | acc :: accs =>
      '(targ_id, targ_type) ← skip_mods_and_typedefs targ_btf targ_id;
      match acc_name acc with
      | Some _ =>
          '(matched, targ_spec, targ_id) ← bpf_core_match_member local_btf acc targ_btf targ_id targ_spec targ_id;
          if matched <=? 0 then Some (matched, targ_spec)
          else match_accessors local_btf targ_btf accs false targ_id targ_spec
      | None =>
          elem ← (if first then Some (inl targ_id)
                  else if negb (btf_is_array targ_type) then Some (inr 0)
                  else
                    a ← btf_array_of targ_type;
                    prev ← last (sp_spec targ_spec);
                    flex ← is_flex_arr targ_btf prev a;
                    if negb flex && (acc_idx acc >=? a_nelems a) then Some (inr 0)
                    else '(targ_id, _) ← skip_mods_and_typedefs targ_btf (a_type a); Some (inl targ_id));
          match elem with
          | inr r => Some (r, targ_spec)
          | inl targ_id =>
              if sp_raw_len targ_spec =? BPF_CORE_SPEC_MAX_LEN then Some (- E2BIG, targ_spec)
              else
                let targ_spec := sp_push (sp_add_acc targ_spec (mkAcc targ_id (acc_idx acc) None))
                                   (s32 (acc_idx acc)) 0 in
                sz ← btf__resolve_size targ_btf targ_id;
                let sz := s32 sz in
                if sz <? 0 then Some (sz, targ_spec)
                else
                  match_accessors local_btf targ_btf accs false targ_id
                    (mkSpec (sp_btf targ_spec) (sp_spec targ_spec) (sp_root_type_id targ_spec)
                       (sp_relo_kind targ_spec) (sp_raw_spec targ_spec)
                       (u32 (sp_bit_offset targ_spec + acc_idx acc * sz * 8)))
          end
      end
  end.

Definition bpf_core_spec_match (local_spec : bpf_core_spec) (targ_btf : btf) (targ_id : Z)
    : option (Z * bpf_core_spec) :=
  let kind := sp_relo_kind local_spec in
  let targ_spec := sp_empty targ_btf targ_id kind in
  if core_relo_is_type_based kind then
    r ← (if kind =? BPF_CORE_TYPE_MATCHES
         then bpf_core_types_match (sp_btf local_spec) (sp_root_type_id local_spec) targ_btf targ_id
         else bpf_core_types_are_compat (sp_btf local_spec) (sp_root_type_id local_spec) targ_btf targ_id);
    Some (r, targ_spec)
  else if core_relo_is_enumval_based kind then
    '(targ_id, targ_type) ← skip_mods_and_typedefs targ_btf targ_id;
    if negb (btf_is_any_enum targ_type) then Some (0, targ_spec)
    else
      acc ← head (sp_spec local_spec);
      local_name ← acc_name acc;
      match_enumval targ_btf targ_id targ_type local_name (Z.to_nat (btf_vlen targ_type)) 0 targ_spec
  else if negb (core_relo_is_field_based kind) then Some (- EINVAL, targ_spec)
  else match_accessors (sp_btf local_spec) targ_btf (sp_spec local_spec) true targ_id targ_spec.

(** * The value of a relocation *)

(** What [bpf_core_calc_field_relo] writes through its pointers. *)
Record field_out := mkOut { fo_val : Z; fo_field_sz : Z; fo_type_id : Z; fo_validate : bool }.

(** The smallest load of a bitfield: [inr] when 8 bytes do not suffice. The loop doubles
    [byte_sz] until it is at least 8. *)
Fixpoint bitfield_load (fuel : nat) (bit_off bit_sz byte_sz : Z) : option (Z * Z + Z) :=
  if byte_sz =? 0 then None
  else
    let byte_off := u32 (bit_off / 8 / byte_sz * byte_sz) in
    if u32 (bit_off + bit_sz - byte_off * 8) >? u32 (byte_sz * 8) then
      if byte_sz >=? 8 then Some (inr (- E2BIG))
      else match fuel with O => None | S fuel => bitfield_load fuel bit_off bit_sz (u32 (byte_sz * 2)) end
    else Some (inl (byte_off, byte_sz)).

(** [validate] is false for the null pointer: the flag is then not written. *)
Definition set_validate (validate : bool) (o : field_out) (v : bool) : field_out :=
  if validate then mkOut (fo_val o) (fo_field_sz o) (fo_type_id o) v else o.
Definition set_val (o : field_out) (v : Z) : field_out :=
  mkOut (u64 v) (fo_field_sz o) (fo_type_id o) (fo_validate o).
Definition set_field (o : field_out) (sz ty : Z) : field_out :=
  mkOut (fo_val o) (u32 sz) ty (fo_validate o).

(** The part for a named field: [byte_off], [byte_sz], [bit_sz] and whether it is a
    bitfield, or an error. *)
Definition field_geometry (b : btf) (t mt : btf_type) (field_type_id idx bit_off : Z)
    : option ((Z * Z * Z * bool) + Z) :=
  bit_sz ← btf_member_bitfield_size t idx;
  if bit_sz >? 0 then
    r ← bitfield_load 4 bit_off bit_sz (bt_size mt);
    Some (match r with inl (byte_off, byte_sz) => inl (byte_off, byte_sz, bit_sz, true) | inr e => inr e end)
  else
    sz ← btf__resolve_size b field_type_id;
    if sz <? 0 then Some (inr (- EINVAL))
    else Some (inl (bit_off / 8, u32 sz, u32 (u32 sz * 8), false)).

Definition field_value (kind : Z) (mt : btf_type) (field_type_id bit_off byte_off byte_sz bit_sz : Z)
    (bitfield validate : bool) (o : field_out) : option (Z * field_out) :=
  let o := set_validate validate o (negb bitfield) in
  if kind =? BPF_CORE_FIELD_BYTE_OFFSET then
    Some (0, if bitfield then set_val o byte_off else set_field (set_val o byte_off) byte_sz field_type_id)
  else if kind =? BPF_CORE_FIELD_BYTE_SIZE then Some (0, set_val o byte_sz)
  else if kind =? BPF_CORE_FIELD_SIGNED then
    sgn ← (if btf_is_any_enum mt && btf_kflag mt then Some 1
           else enc ← btf_int_encoding mt; Some (bool_Z (negb (Z.land enc BTF_INT_SIGNED =? 0))));
    Some (0, set_validate validate (set_val o sgn) true)
  else if kind =? BPF_CORE_FIELD_LSHIFT_U64 then
    Some (0, set_val o (u32 (64 - (bit_off + bit_sz - byte_off * 8))))
  else if kind =? BPF_CORE_FIELD_RSHIFT_U64 then
    Some (0, set_validate validate (set_val o (u32 (64 - bit_sz))) true)
  else Some (- EOPNOTSUPP, o).

Definition bpf_core_calc_field_relo (kind : Z) (spec : option bpf_core_spec) (validate : bool) (o : field_out)
    : option (Z * field_out) :=
  let o := mkOut (fo_val o) 0 (fo_type_id o) (fo_validate o) in
  if kind =? BPF_CORE_FIELD_EXISTS then Some (0, set_val o (match spec with Some _ => 1 | None => 0 end))
  else
    match spec with
    | None => Some (- EUCLEAN, o)
    | Some spec =>
        acc ← last (sp_spec spec);
        t ← btf_type_by_id (sp_btf spec) (acc_type_id acc);
        match acc_name acc with
        | None =>
            if kind =? BPF_CORE_FIELD_BYTE_OFFSET then
              let o := set_val o (sp_bit_offset spec / 8) in
              sz ← btf__resolve_size (sp_btf spec) (acc_type_id acc);
              if sz <? 0 then Some (- EINVAL, o)
              else Some (0, set_validate validate (set_field o sz (acc_type_id acc)) true)
            else if kind =? BPF_CORE_FIELD_BYTE_SIZE then
              sz ← btf__resolve_size (sp_btf spec) (acc_type_id acc);
              if sz <? 0 then Some (- EINVAL, o) else Some (0, set_validate validate (set_val o sz) true)
            else Some (- EINVAL, o)
        | Some _ =>
            m ← btf_member_at t (acc_idx acc);
            '(field_type_id, mt) ← skip_mods_and_typedefs (sp_btf spec) (m_type m);
            g ← field_geometry (sp_btf spec) t mt field_type_id (acc_idx acc) (sp_bit_offset spec);
            match g with
            | inr err => Some (err, o)
            | inl (byte_off, byte_sz, bit_sz, bitfield) =>
                field_value kind mt field_type_id (sp_bit_offset spec) byte_off byte_sz bit_sz bitfield validate o
            end
        end
    end.

(** The error, the value and [validate]. *)
Definition bpf_core_calc_type_relo (kind : Z) (spec : option bpf_core_spec) (validate : bool) (v : Z) (va : bool)
    : option (Z * Z * bool) :=
  let va := if validate then true else va in
  match spec with
  | None => Some (0, 0, va)
  | Some spec =>
      if kind =? BPF_CORE_TYPE_ID_TARGET then
        Some (0, sp_root_type_id spec, if validate then false else va)
      else if (kind =? BPF_CORE_TYPE_EXISTS) || (kind =? BPF_CORE_TYPE_MATCHES) then Some (0, 1, va)
      else if kind =? BPF_CORE_TYPE_SIZE then
        sz ← btf__resolve_size (sp_btf spec) (sp_root_type_id spec);
        if sz <? 0 then Some (- EINVAL, v, va) else Some (0, sz, va)
      else Some (- EOPNOTSUPP, v, va)
  end.

Definition bpf_core_calc_enumval_relo (kind : Z) (spec : option bpf_core_spec) (v : Z) : option (Z * Z) :=
  if kind =? BPF_CORE_ENUMVAL_EXISTS then Some (0, match spec with Some _ => 1 | None => 0 end)
  else if kind =? BPF_CORE_ENUMVAL_VALUE then
    match spec with
    | None => Some (- EUCLEAN, v)
    | Some spec =>
        acc ← head (sp_spec spec);
        t ← btf_type_by_id (sp_btf spec) (acc_type_id acc);
        if btf_is_enum t then e ← btf_enum_at t (acc_idx acc); Some (0, u64 (e_val e))
        else e ← btf_enum64_at t (acc_idx acc); Some (0, btf_enum64_value e)
    end
  else Some (- EOPNOTSUPP, v).

Record bpf_core_relo_res := mkRes {
  res_orig_val : Z; res_new_val : Z;
  res_poison : bool; res_validate : bool; res_fail_memsz_adjust : bool;
  res_orig_sz : Z; res_orig_type_id : Z;
  res_new_sz : Z; res_new_type_id : Z;
}.

(** May the size of the load be adjusted? *)
Definition memsz_adjust_ok (orig_t new_t : btf_type) : option bool :=
  if btf_is_ptr orig_t && btf_is_ptr new_t then Some true
  else if btf_is_int orig_t && btf_is_int new_t then
    oe ← btf_int_encoding orig_t;
    if negb (oe =? BTF_INT_SIGNED) then
      ne ← btf_int_encoding new_t; Some (negb (ne =? BTF_INT_SIGNED))
    else Some false
  else Some false.

(** The code at [done]: poisoning is requested with [-EUCLEAN]. *)
Definition calc_done (err : Z) (r : bpf_core_relo_res) : Z * bpf_core_relo_res :=
  if err =? - EUCLEAN
  then (0, mkRes (res_orig_val r) (res_new_val r) true (res_validate r) (res_fail_memsz_adjust r)
             (res_orig_sz r) (res_orig_type_id r) (res_new_sz r) (res_new_type_id r))
  else (err, r).

Definition bpf_core_calc_relo (kind : Z) (local_spec : bpf_core_spec) (targ_spec : option bpf_core_spec)
    : option (Z * bpf_core_relo_res) :=
  if core_relo_is_field_based kind then
    '(err, o) ← bpf_core_calc_field_relo kind (Some local_spec) true (mkOut 0 0 0 true);
    let orig fail n := mkRes (fo_val o) (fo_val n) false (fo_validate o) fail
                         (fo_field_sz o) (fo_type_id o) (fo_field_sz n) (fo_type_id n) in
    let zero := mkOut 0 0 0 true in
    if negb (err =? 0) then Some (calc_done err (orig false zero))
    else
      '(err, n) ← bpf_core_calc_field_relo kind targ_spec false zero;
      if negb (err =? 0) then Some (calc_done err (orig false n))
      else if negb (fo_field_sz o =? fo_field_sz n) then
        orig_t ← btf_type_by_id (sp_btf local_spec) (fo_type_id o);
        targ ← targ_spec;
        new_t ← btf_type_by_id (sp_btf targ) (fo_type_id n);
        ok ← memsz_adjust_ok orig_t new_t;
        Some (calc_done 0 (orig (negb ok) n))
      else Some (calc_done 0 (orig false n))
  else if core_relo_is_type_based kind then
    '(err, ov, va) ← bpf_core_calc_type_relo kind (Some local_spec) true 0 true;
    if negb (err =? 0) then Some (calc_done err (mkRes ov 0 false va false 0 0 0 0))
    else
      '(err, nv, _) ← bpf_core_calc_type_relo kind targ_spec false 0 va;
      Some (calc_done err (mkRes ov nv false va false 0 0 0 0))
  else if core_relo_is_enumval_based kind then
    '(err, ov) ← bpf_core_calc_enumval_relo kind (Some local_spec) 0;
    if negb (err =? 0) then Some (calc_done err (mkRes ov 0 false true false 0 0 0 0))
    else
      '(err, nv) ← bpf_core_calc_enumval_relo kind targ_spec 0;
      Some (calc_done err (mkRes ov nv false true false 0 0 0 0))
  else Some (calc_done (- EOPNOTSUPP) (mkRes 0 0 false true false 0 0 0 0)).
