(* ===== verification/RelocPatch.v ===== *)
(** CO-RE relocations: patching a BPF instruction (src/libbpf/src/relo_core.c lines
    969-1150; [is_ldimm64_insn] of libbpf_internal.h).

    An instruction is the record of the fields of [struct bpf_insn]: [code] a byte, the
    registers 4-bit fields, [off] and [imm] signed. *)
From stdpp Require Import base list sets.
From Stdlib Require Import ZArith Lia.
From S2P Require Import Prelude RelocCalc.

#[local] Open Scope Z_scope.

Definition BPF_LD : Z := 0.
Definition BPF_LDX : Z := 1.
Definition BPF_ST : Z := 2.
Definition BPF_STX : Z := 3.
Definition BPF_ALU : Z := 4.
Definition BPF_JMP : Z := 5.
Definition BPF_ALU64 : Z := 7.
Definition BPF_W : Z := 0.
Definition BPF_H : Z := 8.
Definition BPF_B : Z := 16.
Definition BPF_DW : Z := 24.
Definition BPF_K : Z := 0.
Definition BPF_IMM : Z := 0.
Definition BPF_CALL : Z := 128.
Definition BPF_CLASS (code : Z) : Z := Z.land code 0x07.
Definition BPF_SIZE (code : Z) : Z := Z.land code 0x18.
Definition BPF_MODE (code : Z) : Z := Z.land code 0xe0.
Definition BPF_SRC (code : Z) : Z := Z.land code 0x08.
Definition SHRT_MAX : Z := 32767.

Record bpf_insn := mkInsn { i_code : Z; i_dst : Z; i_src : Z; i_off : Z; i_imm : Z }.

Definition is_ldimm64_insn (insn : bpf_insn) : bool :=
  i_code insn =? Z.lor (Z.lor BPF_LD BPF_IMM) BPF_DW.

Definition set_code (i : bpf_insn) (code : Z) : bpf_insn := mkInsn code (i_dst i) (i_src i) (i_off i) (i_imm i).
Definition set_off (i : bpf_insn) (off : Z) : bpf_insn :=
  mkInsn (i_code i) (i_dst i) (i_src i) (swrap 16 off) (i_imm i).
Definition set_imm (i : bpf_insn) (imm : Z) : bpf_insn :=
  mkInsn (i_code i) (i_dst i) (i_src i) (i_off i) (s32 imm).

Definition bpf_core_poison_insn (insn : bpf_insn) : bpf_insn :=
  mkInsn (Z.lor BPF_JMP BPF_CALL) 0 0 0 195896080.

Definition insn_bpf_size_to_bytes (insn : bpf_insn) : Z :=
  let sz := BPF_SIZE (i_code insn) in
  if sz =? BPF_DW then 8 else if sz =? BPF_W then 4 else if sz =? BPF_H then 2
  else if sz =? BPF_B then 1 else -1.

Definition insn_bytes_to_bpf_size (sz : Z) : Z :=
  if sz =? 8 then BPF_DW else if sz =? 4 then BPF_W else if sz =? 2 then BPF_H
  else if sz =? 1 then BPF_B else -1.

(** The code at [poison]; [insns] are the instructions from [insn] on, and [None] a
    write behind the last one. *)
Definition poison_insns (insns : list bpf_insn) : option (list bpf_insn) :=
  match insns with
  | insn :: rest =>
      if is_ldimm64_insn insn then
        match rest with
        | insn1 :: rest => Some (bpf_core_poison_insn insn :: bpf_core_poison_insn insn1 :: rest)
        | [] => None
        end
      else Some (bpf_core_poison_insn insn :: rest)
  | [] => None
  end.

(** The case of [BPF_LDX], [BPF_ST] and [BPF_STX]. *)
Definition patch_mem (insn : bpf_insn) (rest : list bpf_insn) (res : bpf_core_relo_res)
    : option (list bpf_insn * Z) :=
  let orig_val := res_orig_val res in
  let new_val := res_new_val res in
  if res_validate res && negb (u64 (i_off insn) =? orig_val) then Some (insn :: rest, - EINVAL)
  else if new_val >? SHRT_MAX then Some (insn :: rest, - ERANGE)
  else if res_fail_memsz_adjust res then insns ← poison_insns (insn :: rest); Some (insns, 0)
  else
    let insn := set_off insn new_val in
    if negb (res_new_sz res =? res_orig_sz res) then
      if negb (u32 (insn_bpf_size_to_bytes insn) =? res_orig_sz res) then Some (insn :: rest, - EINVAL)
      else
        let insn_bpf_sz := insn_bytes_to_bpf_size (res_new_sz res) in
        if insn_bpf_sz <? 0 then Some (insn :: rest, - EINVAL)
        else
          Some (set_code insn (Z.lor (Z.lor (BPF_MODE (i_code insn)) insn_bpf_sz) (BPF_CLASS (i_code insn))) :: rest, 0)
    else Some (insn :: rest, 0).

(** The case of [BPF_LD]. *)
Definition patch_ldimm64 (insn : bpf_insn) (rest : list bpf_insn) (res : bpf_core_relo_res)
    : option (list bpf_insn * Z) :=
  if negb (is_ldimm64_insn insn) then Some (insn :: rest, - EINVAL)
  else if negb (i_src insn =? 0) || negb (i_off insn =? 0) then Some (insn :: rest, - EINVAL)
  else
    match rest with
    | [] => None
    | insn1 :: rest' =>
        if negb (i_code insn1 =? 0) || negb (i_dst insn1 =? 0) || negb (i_src insn1 =? 0) || negb (i_off insn1 =? 0)
        then Some (insn :: rest, - EINVAL)
        else
          let imm := Z.lor (u32 (i_imm insn)) (u64 (Z.shiftl (u64 (i_imm insn1)) 32)) in
          if res_validate res && negb (imm =? res_orig_val res) then Some (insn :: rest, - EINVAL)
          else
            Some (set_imm insn (res_new_val res) ::
                  set_imm insn1 (Z.shiftr (res_new_val res) 32) :: rest', 0)
    end.

(** The instructions from [insn] on, and the result. *)
Definition bpf_core_patch_insn (insns : list bpf_insn) (res : bpf_core_relo_res) : option (list bpf_insn * Z) :=
  match insns with
  | [] => None
  | insn :: rest =>
      let class := BPF_CLASS (i_code insn) in
      if res_poison res then insns ← poison_insns insns; Some (insns, 0)
      else if (class =? BPF_ALU) || (class =? BPF_ALU64) then
        if negb (BPF_SRC (i_code insn) =? BPF_K) then Some (insns, - EINVAL)
        else if res_validate res && negb (u64 (i_imm insn) =? res_orig_val res) then Some (insns, - EINVAL)
        else Some (set_imm insn (res_new_val res) :: rest, 0)
      else if (class =? BPF_LDX) || (class =? BPF_ST) || (class =? BPF_STX) then patch_mem insn rest res
      else if class =? BPF_LD then patch_ldimm64 insn rest res
      else Some (insns, - EINVAL)
  end.

(** * The value an instruction holds *)

Definition insn_ok (i : bpf_insn) : Prop :=
  in_u 8 (i_code i) ∧ - 2 ^ 15 ≤ i_off i < 2 ^ 15 ∧ - 2 ^ 31 ≤ i_imm i < 2 ^ 31.

Definition is_alu (code : Z) : bool := (BPF_CLASS code =? BPF_ALU) || (BPF_CLASS code =? BPF_ALU64).
Definition is_mem (code : Z) : bool :=
  (BPF_CLASS code =? BPF_LDX) || (BPF_CLASS code =? BPF_ST) || (BPF_CLASS code =? BPF_STX).

(** The operand relocations are about: the immediate of an ALU instruction
    (sign-extended), the offset of a load or store, the 64 bits of a ldimm64. *)
Definition insn_value (insns : list bpf_insn) : option Z :=
  match insns with
  | insn :: rest =>
      if is_alu (i_code insn) then Some (u64 (i_imm insn))
      else if is_mem (i_code insn) then Some (u64 (i_off insn))
      else match rest with
           | insn1 :: _ => Some (Z.lor (u32 (i_imm insn)) (u64 (Z.shiftl (u64 (i_imm insn1)) 32)))
           | [] => None
           end
  | [] => None
  end.

(** What [insn_value] keeps of a 64-bit value written to the instruction. *)
Definition value_kept (code v : Z) : Z := if is_alu code then u64 (s32 v) else v.

(** The relocation the other way round. *)
Definition swap_res (r : bpf_core_relo_res) : bpf_core_relo_res :=
  mkRes (res_new_val r) (res_orig_val r) (res_poison r) (res_validate r) (res_fail_memsz_adjust r)
    (res_new_sz r) (res_new_type_id r) (res_orig_sz r) (res_orig_type_id r).

(** The instructions differ in an immediate value only, in the offset and the size of the
    memory access only. *)
Definition imm_only (i j : bpf_insn) : Prop := i_code j = i_code i ∧ i_dst j = i_dst i ∧ i_src j = i_src i ∧ i_off j = i_off i.
Definition access_only (i j : bpf_insn) : Prop :=
  i_dst j = i_dst i ∧ i_src j = i_src i ∧ i_imm j = i_imm i ∧
  ∀ n, 0 ≤ n → n ≠ 3 → n ≠ 4 → Z.testbit (i_code j) n = Z.testbit (i_code i) n.

(** The bytes that a load or store accesses, by bits 3 and 4 of its code. *)
Definition access_bytes (code : Z) : Z :=
  match Z.testbit code 4, Z.testbit code 3 with
  | false, false => 4
  | false, true => 2
  | true, false => 1
  | true, true => 8
  end.

(** What may differ after a patch: of an ALU instruction the immediate value, of a load or
    store the offset and the size, of the two instructions of a ldimm64 the immediate
    values; the instructions behind are as they were. *)
Definition patched_only (insns insns' : list bpf_insn) : Prop :=
  match insns, insns' with
  | i :: rest, j :: rest' =>
      if is_alu (i_code i) then imm_only i j ∧ rest' = rest
      else if is_mem (i_code i) then access_only i j ∧ rest' = rest
      else imm_only i j ∧ ∃ i1 j1 tl, rest = i1 :: tl ∧ rest' = j1 :: tl ∧ imm_only i1 j1
  | _, _ => False
  end.

(** The size of the access after a patch: the new one where it differs from the original
    one, which the instruction must have had. *)
Definition access_resized (res : bpf_core_relo_res) (i j : bpf_insn) : Prop :=
  if res_new_sz res =? res_orig_sz res then i_code j = i_code i
  else access_bytes (i_code i) = res_orig_sz res ∧ access_bytes (i_code j) = res_new_sz res.

(** A call of no function, that the verifier reports with its number. *)
Definition poisoned_insn : bpf_insn := mkInsn 0x85 0 0 0 0xbad2310.

(** * Lemmas *)

Lemma imm64_split v : in_u 64 v →
  Z.lor (u32 (s32 v)) (u64 (Z.shiftl (u64 (s32 (Z.shiftr v 32))) 32)) = v.
Proof.
  intros Hv. rewrite <- (wrap_small 64 v Hv) at 3. apply Z.bits_inj'. intros i Hi.
  rewrite Z.lor_spec, !wrap_testbit by lia.
  destruct (Z.ltb_spec i 32), (Z.ltb_spec i 64); cbn [andb orb]; try lia; try done.
  - rewrite swrap_testbit, Z.shiftl_spec_low, orb_false_r by lia. done.
  - rewrite Z.shiftl_spec_high, wrap_testbit, swrap_testbit, Z.shiftr_spec by lia.
    destruct (Z.ltb_spec (i - 32) 64); [|lia]. cbn [andb]. f_equal. lia.
Qed.

Lemma imm64_join a b : - 2 ^ 31 ≤ a < 2 ^ 31 → - 2 ^ 31 ≤ b < 2 ^ 31 →
  let v := Z.lor (u32 a) (u64 (Z.shiftl (u64 b) 32)) in s32 v = a ∧ s32 (Z.shiftr v 32) = b.
Proof.
  intros Ha Hb v. split.
  - rewrite <- (swrap_small 32 a) by lia. apply swrap_ext, wrap_bits; [lia|]. intros i Hi. unfold v.
    rewrite Z.lor_spec, !wrap_testbit, Z.shiftl_spec_low, andb_false_r, orb_false_r by lia.
    destruct (Z.ltb_spec i 32); [done|lia].
  - rewrite <- (swrap_small 32 b) by lia. apply swrap_ext, wrap_bits; [lia|]. intros i Hi. unfold v.
    rewrite Z.shiftr_spec, Z.lor_spec, !wrap_testbit, Z.shiftl_spec_high, wrap_testbit by lia.
    destruct (Z.ltb_spec (i + 32) 32), (Z.ltb_spec (i + 32) 64), (Z.ltb_spec (i + 32 - 32) 64); try lia. cbn.
    f_equal. lia.
Qed.

(** The fields of a code byte. *)
Definition code_ok (c : Z) : bool :=
  (Z.lor (Z.lor (BPF_MODE c) (BPF_SIZE c)) (BPF_CLASS c) =? c) &&
  forallb (λ s, let c' := Z.lor (Z.lor (BPF_MODE c) s) (BPF_CLASS c) in
                (BPF_SIZE c' =? s) && (BPF_MODE c' =? BPF_MODE c) && (BPF_CLASS c' =? BPF_CLASS c))
    [BPF_DW; BPF_W; BPF_H; BPF_B].

Lemma code_fields c : in_u 8 c → code_ok c = true.
Proof.
  intros Hc. assert (forallb code_ok (map Z.of_nat (seq 0 256)) = true) as H by (vm_compute; reflexivity).
  rewrite forallb_forall in H. apply H. apply List.in_map_iff. exists (Z.to_nat c). unfold in_u in Hc.
  split; [lia|]. apply List.in_seq. lia.
Qed.

Definition set_size (c s : Z) : Z := Z.lor (Z.lor (BPF_MODE c) s) (BPF_CLASS c).

Lemma set_size_fields c s : in_u 8 c → s ∈ [BPF_DW; BPF_W; BPF_H; BPF_B] →
  BPF_SIZE (set_size c s) = s ∧ BPF_MODE (set_size c s) = BPF_MODE c ∧ BPF_CLASS (set_size c s) = BPF_CLASS c.
Proof.
  intros [_ H]%code_fields%andb_prop Hs. rewrite forallb_forall in H.
  apply list_elem_of_In, H in Hs. cbv zeta in Hs. fold (set_size c s) in Hs.
  apply andb_prop in Hs as [[H1 H2]%andb_prop H3]. lia.
Qed.

Lemma set_size_same c : in_u 8 c → set_size c (BPF_SIZE c) = c.
Proof. intros [H _]%code_fields%andb_prop. by apply Z.eqb_eq in H. Qed.

Lemma set_size_twice c s : in_u 8 c → s ∈ [BPF_DW; BPF_W; BPF_H; BPF_B] →
  set_size (set_size c s) (BPF_SIZE c) = c.
Proof.
  intros Hc Hs. destruct (set_size_fields c s Hc Hs) as (_ & Hm & Hk).
  rewrite <- (set_size_same c Hc) at 3. unfold set_size at 1. by rewrite Hm, Hk.
Qed.

(** The four sizes and their byte counts. *)
Lemma size_of_bytes n : insn_bytes_to_bpf_size n <? 0 = false →
  insn_bytes_to_bpf_size n ∈ [BPF_DW; BPF_W; BPF_H; BPF_B] ∧ 0 < n < 2 ^ 32 ∧
  ∀ i, BPF_SIZE (i_code i) = insn_bytes_to_bpf_size n → insn_bpf_size_to_bytes i = n.
Proof.
  unfold insn_bytes_to_bpf_size, insn_bpf_size_to_bytes.
  destruct (Z.eqb_spec n 8) as [-> | ]; [|destruct (Z.eqb_spec n 4) as [-> | ]; [|destruct (Z.eqb_spec n 2) as [-> | ];
    [|destruct (Z.eqb_spec n 1) as [-> | ]; [|done]]]]; intros _; (split; [set_solver|split; [lia|]]);
    by intros i ->.
Qed.

Lemma bytes_of_size c : in_u 8 c →
  let n := insn_bpf_size_to_bytes (mkInsn c 0 0 0 0) in
  0 < n < 2 ^ 32 ∧ insn_bytes_to_bpf_size n = BPF_SIZE c.
Proof.
  intros Hc. unfold insn_bpf_size_to_bytes, insn_bytes_to_bpf_size. cbn [i_code].
  assert (BPF_SIZE c ∈ [BPF_DW; BPF_W; BPF_H; BPF_B]) as Hs.
  { assert (forallb (λ c, bool_decide (BPF_SIZE c ∈ [BPF_DW; BPF_W; BPF_H; BPF_B])) (map Z.of_nat (seq 0 256)) = true)
      as H by (vm_compute; reflexivity).
    rewrite forallb_forall in H. specialize (H c). apply bool_decide_eq_true in H; [done|].
    apply List.in_map_iff. exists (Z.to_nat c). unfold in_u in Hc. split; [lia|]. apply List.in_seq. lia. }
  repeat (apply elem_of_cons in Hs as [-> | Hs]; [vm_compute; intuition congruence|]). by apply elem_of_nil in Hs.
Qed.

Lemma bytes_of_insn i : in_u 8 (i_code i) →
  u32 (insn_bpf_size_to_bytes i) = insn_bpf_size_to_bytes i ∧
  insn_bytes_to_bpf_size (insn_bpf_size_to_bytes i) = BPF_SIZE (i_code i).
Proof.
  intros [H1 H2]%bytes_of_size. unfold insn_bpf_size_to_bytes in *. cbn [i_code] in *. split; [|done].
  apply wrap_small. unfold in_u. lia.
Qed.

Lemma access_bytes_size i : in_u 8 (i_code i) → insn_bpf_size_to_bytes i = access_bytes (i_code i).
Proof.
  intros Hc. assert (forallb (λ c, insn_bpf_size_to_bytes (mkInsn c 0 0 0 0) =? access_bytes c) (map Z.of_nat (seq 0 256)) = true) as H by (vm_compute; reflexivity).
  rewrite forallb_forall in H. apply Z.eqb_eq, H, List.in_map_iff. exists (Z.to_nat (i_code i)). unfold in_u in Hc.
  split; [lia|]. apply List.in_seq. lia.
Qed.

(** Setting the size leaves the other bits. *)
Lemma set_size_bits c s n : in_u 8 c → s ∈ [BPF_DW; BPF_W; BPF_H; BPF_B] → 0 ≤ n → n ≠ 3 → n ≠ 4 →
  Z.testbit (set_size c s) n = Z.testbit c n.
Proof.
  intros Hc Hs Hn H3 H4. assert (Z.testbit s n = false) as Hsn.
  { assert (s = Z.land s 24) as -> by (repeat (apply elem_of_cons in Hs as [-> | Hs]; [done|]); by apply elem_of_nil in Hs).
    rewrite Z.land_spec. destruct (decide (n < 5)); [|rewrite (Z.bits_above_log2 24) by (cbn; lia); apply andb_false_r].
    assert (n = 0 ∨ n = 1 ∨ n = 2) as [-> | [-> | ->]] by lia; apply andb_false_r. }
  unfold set_size, BPF_MODE, BPF_CLASS. rewrite !Z.lor_spec, !Z.land_spec, Hsn, orb_false_r, <- andb_orb_distrib_r.
  destruct (decide (n < 8)) as [Hlt|Hge].
  - assert (n = 0 ∨ n = 1 ∨ n = 2 ∨ n = 5 ∨ n = 6 ∨ n = 7) as Hcase by lia.
    repeat destruct Hcase as [-> | Hcase]; subst; apply andb_true_r.
  - assert (Z.testbit c n = false) as ->; [|done]. destruct (Z.eq_dec c 0) as [->|]; [apply Z.bits_0|].
    apply Z.bits_above_log2; [apply Hc|]. apply (Z.lt_le_trans _ 8); [|lia]. apply Z.log2_lt_pow2; unfold in_u in Hc; lia.
Qed.

(** * Patching by class *)

Definition new_code (c : Z) (res : bpf_core_relo_res) : Z :=
  if res_new_sz res =? res_orig_sz res then c else set_size c (insn_bytes_to_bpf_size (res_new_sz res)).

(** A successful patch of a load or store: the tests that passed, and the result. *)
Definition mem_patch_ok (insn : bpf_insn) (res : bpf_core_relo_res) : Prop :=
  (res_validate res = true → u64 (i_off insn) = res_orig_val res) ∧ res_new_val res ≤ SHRT_MAX ∧
  (res_new_sz res ≠ res_orig_sz res →
   u32 (insn_bpf_size_to_bytes insn) = res_orig_sz res ∧ insn_bytes_to_bpf_size (res_new_sz res) <? 0 = false).

Lemma patch_mem_ok insn rest res insns' :
  res_fail_memsz_adjust res = false →
  patch_mem insn rest res = Some (insns', 0) ↔
  mem_patch_ok insn res ∧
  insns' = set_code (set_off insn (res_new_val res)) (new_code (i_code insn) res) :: rest.
Proof.
  intros Hf. unfold patch_mem, mem_patch_ok, new_code. cbv zeta. rewrite Hf. cbn [i_code set_off set_code].
  assert (Hsz : insn_bpf_size_to_bytes (set_off insn (res_new_val res)) = insn_bpf_size_to_bytes insn) by done.
  rewrite Hsz. fold (set_size (i_code insn) (insn_bytes_to_bpf_size (res_new_sz res))).
  rewrite Z.gtb_ltb.
  destruct (res_validate res), (Z.eqb_spec (u64 (i_off insn)) (res_orig_val res)),
    (Z.ltb_spec SHRT_MAX (res_new_val res)), (Z.eqb_spec (res_new_sz res) (res_orig_sz res)),
    (Z.eqb_spec (u32 (insn_bpf_size_to_bytes insn)) (res_orig_sz res)),
    (insn_bytes_to_bpf_size (res_new_sz res) <? 0) eqn:E; cbn [andb negb];
    (split; [intros ?; simplify_eq; split_and!; (done || lia || naive_solver)|
             intros [(? & ? & ?) ?]; subst; try done; naive_solver lia]).
Qed.

Definition imm64 (insn insn1 : bpf_insn) : Z := Z.lor (u32 (i_imm insn)) (u64 (Z.shiftl (u64 (i_imm insn1)) 32)).

Definition ld_patch_ok (insn insn1 : bpf_insn) (res : bpf_core_relo_res) : Prop :=
  is_ldimm64_insn insn = true ∧ i_src insn = 0 ∧ i_off insn = 0 ∧
  i_code insn1 = 0 ∧ i_dst insn1 = 0 ∧ i_src insn1 = 0 ∧ i_off insn1 = 0 ∧
  (res_validate res = true → imm64 insn insn1 = res_orig_val res).

Lemma patch_ldimm64_ok insn rest res insns' :
  patch_ldimm64 insn rest res = Some (insns', 0) ↔
  ∃ insn1 rest', rest = insn1 :: rest' ∧ ld_patch_ok insn insn1 res ∧
    insns' = set_imm insn (res_new_val res) :: set_imm insn1 (Z.shiftr (res_new_val res) 32) :: rest'.
Proof.
  unfold patch_ldimm64, ld_patch_ok. split.
  - destruct (is_ldimm64_insn insn); [|done]. cbn [negb].
    destruct (Z.eqb_spec (i_src insn) 0), (Z.eqb_spec (i_off insn) 0); try done. cbn [negb orb].
    destruct rest as [|insn1 rest']; [done|].
    destruct (Z.eqb_spec (i_code insn1) 0), (Z.eqb_spec (i_dst insn1) 0), (Z.eqb_spec (i_src insn1) 0),
      (Z.eqb_spec (i_off insn1) 0); try done. cbn [negb orb]. cbv zeta. fold (imm64 insn insn1).
    destruct (res_validate res), (Z.eqb_spec (imm64 insn insn1) (res_orig_val res)); cbn [andb negb];
      intros ?; simplify_eq; eexists _, _; split_and!; done.
  - intros (insn1 & rest' & -> & (-> & -> & -> & -> & -> & -> & -> & Hv) & ->). cbn [negb orb Z.eqb]. cbv zeta.
    fold (imm64 insn insn1). destruct (res_validate res); [|done].
    rewrite Hv by done. by rewrite Z.eqb_refl.
Qed.

Lemma insn_class_cases insn : is_ldimm64_insn insn = true → is_alu (i_code insn) = false ∧ is_mem (i_code insn) = false.
Proof. unfold is_ldimm64_insn. intros ->%Z.eqb_eq. done. Qed.

Lemma set_imm_id i v : insn_ok i → u64 (i_imm i) = v → set_imm i v = i.
Proof.
  intros (_ & _ & Hi) <-. destruct i as [c d s o im]. unfold set_imm. cbn in *. f_equal.
  rewrite swrap_wrap by lia. apply swrap_small; lia.
Qed.

(** What a successful patch of each class does. *)
Lemma patch_ok_cases insn rest res insns' :
  res_poison res = false → res_fail_memsz_adjust res = false →
  bpf_core_patch_insn (insn :: rest) res = Some (insns', 0) ↔
  (is_alu (i_code insn) = true ∧ BPF_SRC (i_code insn) = BPF_K ∧
   (res_validate res = true → u64 (i_imm insn) = res_orig_val res) ∧ insns' = set_imm insn (res_new_val res) :: rest) ∨
  (is_alu (i_code insn) = false ∧ is_mem (i_code insn) = true ∧ mem_patch_ok insn res ∧
   insns' = set_code (set_off insn (res_new_val res)) (new_code (i_code insn) res) :: rest) ∨
  (is_alu (i_code insn) = false ∧ is_mem (i_code insn) = false ∧
   ∃ insn1 rest', rest = insn1 :: rest' ∧ ld_patch_ok insn insn1 res ∧
     insns' = set_imm insn (res_new_val res) :: set_imm insn1 (Z.shiftr (res_new_val res) 32) :: rest').
Proof.
  intros Hp Hf. unfold bpf_core_patch_insn. rewrite Hp. cbv zeta.
  fold (is_alu (i_code insn)). fold (is_mem (i_code insn)).
  destruct (is_alu (i_code insn)) eqn:Ha.
  - destruct (Z.eqb_spec (BPF_SRC (i_code insn)) BPF_K) as [Hk|Hk]; cbn [negb].
    + destruct (res_validate res), (Z.eqb_spec (u64 (i_imm insn)) (res_orig_val res)); cbn [andb negb];
        (split; [intros ?; simplify_eq; left; done|intros [(_&_&?&?)|[(?&_)|(?&_)]]; naive_solver]).
    + split; [done|]. intros [(_&?&_)|[(?&_)|(?&_)]]; done.
  - destruct (is_mem (i_code insn)) eqn:Hm.
    + rewrite patch_mem_ok by done. naive_solver.
    + destruct (Z.eqb_spec (BPF_CLASS (i_code insn)) BPF_LD) as [Hc|Hc].
      * rewrite patch_ldimm64_ok. naive_solver.
      * split; [done|]. intros [(?&_)|[(_&?&_)|(_&_&insn1&rest'&_&(Hl&_)&_)]]; try done.
        unfold is_ldimm64_insn in Hl. apply Z.eqb_eq in Hl. rewrite Hl in Hc. done.
Qed.

Lemma insn_value_alu insn rest : is_alu (i_code insn) = true → insn_value (insn :: rest) = Some (u64 (i_imm insn)).
Proof. cbn. by intros ->. Qed.
Lemma insn_value_mem insn rest : is_alu (i_code insn) = false → is_mem (i_code insn) = true →
  insn_value (insn :: rest) = Some (u64 (i_off insn)).
Proof. cbn. by intros -> ->. Qed.
Lemma insn_value_ld insn insn1 rest : is_alu (i_code insn) = false → is_mem (i_code insn) = false →
  insn_value (insn :: insn1 :: rest) = Some (imm64 insn insn1).
Proof. cbn. by intros -> ->. Qed.

(** The new code byte differs in the size bits only. *)
Lemma new_code_fields insn res : in_u 8 (i_code insn) → mem_patch_ok insn res →
  BPF_CLASS (new_code (i_code insn) res) = BPF_CLASS (i_code insn) ∧
  BPF_MODE (new_code (i_code insn) res) = BPF_MODE (i_code insn).
Proof.
  intros Hc (_ & _ & Hs). unfold new_code. destruct (Z.eqb_spec (res_new_sz res) (res_orig_sz res)); [done|].
  destruct (Hs ltac:(done)) as [_ Hn]. apply size_of_bytes in Hn as (Hin & _ & _).
  by destruct (set_size_fields _ _ Hc Hin) as (_ & ? & ?).
Qed.

Lemma off_small v : 0 ≤ v ≤ SHRT_MAX → swrap 16 v = v ∧ u64 (swrap 16 v) = v.
Proof.
  intros Hv. unfold SHRT_MAX in Hv. rewrite swrap_small by (cbn; lia).
  split; [done|]. apply wrap_small. unfold in_u. lia.
Qed.

(** Patching a load or store back. *)
Lemma mem_patch_back insn res :
  insn_ok insn → in_u 64 (res_new_val res) → in_u 64 (res_orig_val res) → mem_patch_ok insn res →
  res_validate res = true → res_orig_val res ≤ SHRT_MAX →
  let insn' := set_code (set_off insn (res_new_val res)) (new_code (i_code insn) res) in
  mem_patch_ok insn' (swap_res res) ∧
  set_code (set_off insn' (res_orig_val res)) (new_code (i_code insn') (swap_res res)) = insn.
Proof.
  intros (Hc & Ho & Him) [Hn _] [Hor _] (Hv & Hmax & Hs) Hva Hom. cbv zeta.
  destruct (off_small (res_new_val res) ltac:(lia)) as [Hn1 Hn2].
  destruct (off_small (res_orig_val res) ltac:(lia)) as [Ho1 _].
  assert (Hoff : swrap 16 (res_orig_val res) = i_off insn).
  { rewrite <- (Hv Hva), swrap_wrap by lia. apply swrap_small; lia. }
  unfold mem_patch_ok, new_code, swap_res.
  cbn [res_validate res_orig_val res_new_val res_new_sz res_orig_sz i_off set_off set_code i_code i_dst i_src i_imm].
  destruct (Z.eqb_spec (res_new_sz res) (res_orig_sz res)) as [He|He].
  - rewrite He, Z.eqb_refl. split; [split_and!; done|]. destruct insn as [c d s o im].
    unfold set_code, set_off. cbn in *. by rewrite Hoff.
  - destruct (Hs He) as [Hb Hsz]. destruct (bytes_of_insn insn Hc) as [Hb1 Hb2]. rewrite Hb1 in Hb.
    apply size_of_bytes in Hsz as (Hin & Hrange & Hbytes).
    destruct (set_size_fields _ _ Hc Hin) as (Hf & _ & _).
    destruct (Z.eqb_spec (res_orig_sz res) (res_new_sz res)); [done|]. rewrite <- Hb, Hb2.
    split; [split_and!|].
    + done.
    + done.
    + intros _. split.
      * rewrite Hbytes by exact Hf. apply wrap_small. exact Hrange || (unfold in_u; lia).
      * apply Z.ltb_ge, Z.land_nonneg. by right.
    + destruct insn as [c d s o im]. unfold set_code, set_off. cbn in *.
      rewrite Hoff, set_size_twice by done. done.
Qed.

(** What a load or store becomes. *)
Lemma mem_patch_access insn res : insn_ok insn → mem_patch_ok insn res →
  let insn' := set_code (set_off insn (res_new_val res)) (new_code (i_code insn) res) in
  access_only insn insn' ∧ access_resized res insn insn'.
Proof.
  intros (Hc & _ & _) (_ & _ & Hs) insn'. unfold access_only, access_resized, insn', new_code. cbn [i_dst i_src i_imm i_code set_code set_off].
  destruct (Z.eqb_spec (res_new_sz res) (res_orig_sz res)); [done|]. destruct (Hs ltac:(done)) as [Hb Hn].
  destruct (bytes_of_insn insn Hc) as [Hb1 _]. rewrite Hb1, access_bytes_size in Hb by done. apply size_of_bytes in Hn as (Hin & _ & Hbytes).
  destruct (set_size_fields _ _ Hc Hin) as (Hf & _ & _). split; [split_and!; [done..|]; intros; by apply set_size_bits|]. split; [done|].
  set (c' := set_size _ _) in *. rewrite <- (Hbytes (mkInsn c' 0 0 0 0) Hf). symmetry. apply (access_bytes_size (mkInsn c' 0 0 0 0)). cbn [i_code].
  unfold c', set_size, in_u. split; [apply Z.lor_nonneg; split; [apply Z.lor_nonneg; split|]|].
  - apply Z.land_nonneg. by right.
  - repeat (apply elem_of_cons in Hin as [-> | Hin]; [done|]). by apply elem_of_nil in Hin.
  - apply Z.land_nonneg. by right.
  - fold (set_size (i_code insn) (insn_bytes_to_bpf_size (res_new_sz res))). clear -Hc Hin.
    assert (forallb (λ c, forallb (λ s, set_size c s <? 256) [BPF_DW; BPF_W; BPF_H; BPF_B]) (map Z.of_nat (seq 0 256)) = true) as H by (vm_compute; reflexivity).
    rewrite forallb_forall in H. specialize (H (i_code insn)). rewrite forallb_forall in H. change (2 ^ 8) with 256. apply Z.ltb_lt, H; [|by apply list_elem_of_In].
    apply List.in_map_iff. exists (Z.to_nat (i_code insn)). unfold in_u in Hc. split; [lia|]. apply List.in_seq. lia.
Qed.

(** Poisoning. *)
Lemma poison_insns_spec insn rest insns' : poison_insns (insn :: rest) = Some insns' →
  if is_ldimm64_insn insn then ∃ i1 tl, rest = i1 :: tl ∧ insns' = poisoned_insn :: poisoned_insn :: tl else insns' = poisoned_insn :: rest.
Proof.
  unfold poison_insns. destruct (is_ldimm64_insn insn); [|by intros [= <-]]. destruct rest as [|i1 tl]; [done|]. intros [= <-]. by exists i1, tl.
Qed.

(** Is the instruction made invalid? *)
Definition poisons (code : Z) (res : bpf_core_relo_res) : bool := res_poison res || (is_mem code && res_fail_memsz_adjust res).

Lemma patch_poison insn rest res insns' : poisons (i_code insn) res = true → bpf_core_patch_insn (insn :: rest) res = Some (insns', 0) →
  poison_insns (insn :: rest) = Some insns'.
Proof.
  unfold poisons, bpf_core_patch_insn. destruct (res_poison res); cbn [orb].
  - intros _. destruct (poison_insns _); cbn; intros ?; by simplify_eq.
  - intros [Hm Hf]%andb_true_iff. fold (is_alu (i_code insn)). fold (is_mem (i_code insn)).
    assert (is_alu (i_code insn) = false) as ->.
    { revert Hm. unfold is_mem, is_alu. generalize (BPF_CLASS (i_code insn)). intros c.
      destruct (Z.eqb_spec c BPF_ALU) as [->|]; [done|]. by destruct (Z.eqb_spec c BPF_ALU64) as [->|]. }
    rewrite Hm. unfold patch_mem. rewrite Hf. destruct (_ && _); [done|]. destruct (_ >? _); [done|].
    destruct (poison_insns _); cbn; intros ?; by simplify_eq.
Qed.

Lemma patch_no_poison insn rest res : poisons (i_code insn) res = false →
  bpf_core_patch_insn (insn :: rest) res =
  bpf_core_patch_insn (insn :: rest) (mkRes (res_orig_val res) (res_new_val res) false (res_validate res) false
    (res_orig_sz res) (res_orig_type_id res) (res_new_sz res) (res_new_type_id res)).
Proof.
  unfold poisons. intros [Hp Hf]%orb_false_iff. unfold bpf_core_patch_insn. rewrite Hp. cbn [res_poison].
  fold (is_alu (i_code insn)). fold (is_mem (i_code insn)). destruct (is_alu _); [done|]. destruct (is_mem _); [|done]. cbn [andb] in Hf.
  unfold patch_mem. by rewrite Hf.
Qed.

(** * Property *)

(** C17. A successful patch.  When the relocation asks for it, or the size of a load or store
    cannot be adjusted, the instruction becomes a call of no function (both halves of a
    ldimm64 do).  Otherwise the new value is where the instruction holds its relocatable
    value (of an ALU instruction cut to 32 bits and sign-extended); nothing differs but
    the immediate value of an ALU instruction or a ldimm64, and the offset and size of a
    load or store; the size is the new one if it is to change.  If validation is asked
    for, the expected value was there, and relocating back gives the original
    instructions whenever the values fit. *)
Theorem patch_insn_spec insn rest res insns' :
  Forall insn_ok (insn :: rest) → in_u 64 (res_new_val res) → in_u 64 (res_orig_val res) →
  bpf_core_patch_insn (insn :: rest) res = Some (insns', 0) →
  if poisons (i_code insn) res then
    if is_ldimm64_insn insn then ∃ i1 tl, rest = i1 :: tl ∧ insns' = poisoned_insn :: poisoned_insn :: tl
    else insns' = poisoned_insn :: rest
  else
    patched_only (insn :: rest) insns' ∧
    insn_value insns' = Some (value_kept (i_code insn) (res_new_val res)) ∧
    (is_mem (i_code insn) = true → ∃ insn' rest', insns' = insn' :: rest' ∧ access_resized res insn insn') ∧
    (res_validate res = true → insn_value (insn :: rest) = Some (res_orig_val res)) ∧
    (res_validate res = true → res_fail_memsz_adjust res = false → value_kept (i_code insn) (res_new_val res) = res_new_val res →
     (is_mem (i_code insn) = true → res_orig_val res ≤ SHRT_MAX) →
     bpf_core_patch_insn insns' (swap_res res) = Some (insn :: rest, 0)).
Proof.
  intros Hok Hn Ho H. destruct (poisons (i_code insn) res) eqn:Hpo; [by eapply poison_insns_spec, patch_poison|].
  rewrite (patch_no_poison insn rest res Hpo) in H.
  apply patch_ok_cases in H; [|done..]. cbn [res_orig_val res_new_val res_validate] in H.
  pose proof (proj1 (proj1 (orb_false_iff _ _) Hpo)) as Hp.
  apply Forall_cons in Hok as [Hi Hrest]. pose proof Hi as (Hc & Hio & Him).
  unfold value_kept.
  destruct H as [(Ha & Hk & Hv & ->)|[(Ha & Hm & Hmo & ->)|(Ha & Hm & insn1 & rest' & -> & Hl & ->)]].
  - assert (is_mem (i_code insn) = false) as Hm.
    { revert Ha. unfold is_mem, is_alu. generalize (BPF_CLASS (i_code insn)). intros c.
      destruct (Z.eqb_spec c BPF_ALU) as [->|]; [done|]. by destruct (Z.eqb_spec c BPF_ALU64) as [->|]. }
    unfold patched_only. rewrite Ha. split_and!.
    + done.
    + done.
    + by rewrite insn_value_alu.
    + by rewrite Hm.
    + intros Hva. rewrite insn_value_alu by done. by rewrite Hv.
    + intros Hva Hfm Hfit _. apply patch_ok_cases; [done..|]. left. split_and!; [done|done|done|].
      f_equal. unfold set_imm at 1. cbn. symmetry. by apply set_imm_id, Hv.
  - change (mem_patch_ok insn res) in Hmo. change (new_code (i_code insn) (mkRes _ _ _ _ _ _ _ _ _)) with (new_code (i_code insn) res) in *.
    destruct (new_code_fields insn res Hc Hmo) as [Hcl Hmd]. destruct (mem_patch_access insn res Hi Hmo) as [Hao Har].
    assert (Ha' : is_alu (new_code (i_code insn) res) = false) by (unfold is_alu; rewrite Hcl; exact Ha).
    assert (Hm' : is_mem (new_code (i_code insn) res) = true) by (unfold is_mem; rewrite Hcl; exact Hm).
    unfold patched_only. rewrite Ha, Hm. split_and!.
    + done.
    + done.
    + rewrite insn_value_mem by done. cbn. f_equal. apply off_small. destruct Hn, Hmo as (_ & ? & _). lia.
    + intros _. by eexists _, _.
    + intros Hva. rewrite insn_value_mem by done. f_equal. by apply Hmo.
    + intros Hva Hfm _ Hom. destruct (mem_patch_back insn res Hi Hn Ho Hmo Hva (Hom eq_refl)) as [H1 H2].
      apply patch_ok_cases; [done..|]. right. left. split_and!; [done|done|done|]. by rewrite <- H2 at 1.
  - apply Forall_cons in Hrest as [Hi1 _].
    destruct Hl as (H1 & H2 & H3 & H4 & H5 & H6 & H7 & H8). cbn [res_validate res_orig_val] in H8.
    unfold patched_only. rewrite Ha, Hm. split_and!.
    + done.
    + eexists _, _, _. by split_and!.
    + rewrite insn_value_ld by done. f_equal. by apply imm64_split.
    + done.
    + intros Hva. rewrite insn_value_ld by done. f_equal. by apply H8.
    + intros Hva Hfm _ _. apply patch_ok_cases; [done..|]. right. right. split; [done|]. split; [done|].
      eexists _, _. split_and!; [done| |].
      * split_and!; try done. intros _. by apply imm64_split.
      * destruct (imm64_join (i_imm insn) (i_imm insn1)) as [J1 J2]; [apply Him|apply Hi1|].
        fold (imm64 insn insn1) in J1, J2. rewrite (H8 Hva) in J1, J2. cbn.
        unfold set_imm. cbn. rewrite J1, J2. by destruct insn, insn1.
Qed.

(** A 32-bit load at [r2 + 4] with a field that moved to offset 8 and grew to 8 bytes; and
    one whose size cannot be adjusted. *)
Lemma patch_insn_spec_witness :
  let insn := mkInsn 0x61 1 2 4 0 in
  let res := mkRes 4 8 false true false 4 1 8 2 in
  let insns' := [mkInsn 0x79 1 2 8 0] in
  (patched_only [insn] insns' ∧
   insn_value insns' = Some 8 ∧
   (true = true → ∃ insn' rest', insns' = insn' :: rest' ∧ access_resized res insn insn') ∧
   (true = true → insn_value [insn] = Some 4) ∧
   (true = true → false = false → 8 = 8 → (is_mem (i_code insn) = true → 4 ≤ SHRT_MAX) →
    bpf_core_patch_insn insns' (swap_res res) = Some ([insn], 0))) ∧
  [mkInsn 0x85 0 0 0 195896080] = poisoned_insn :: [].
Proof.
  split.
  - apply (patch_insn_spec (mkInsn 0x61 1 2 4 0) [] (mkRes 4 8 false true false 4 1 8 2) [mkInsn 0x79 1 2 8 0]);
      try reflexivity; try (split; cbn; lia).
    repeat constructor; cbn; lia.
  - apply (patch_insn_spec (mkInsn 0x61 1 2 4 0) [] (mkRes 4 8 false true true 4 1 8 2) [mkInsn 0x85 0 0 0 195896080]);
      try reflexivity; try (split; cbn; lia).
    repeat constructor; cbn; lia.
Defined.
