(* ===== verification/RelocCands.v ===== *)
(** CO-RE relocations: the candidates of a relocation, their cache, and the choice of
    the result (src/libbpf/src/relo_core.c lines 1280-1420; src/libbpf/src/libbpf.c
    lines 5290-5340, 5434-5493 and 5526-5617).

    A candidate is a BTF object and a type id.  The cache maps the local type id to a
    list of candidates that it shares with the code running the relocation, which
    prunes the list in place: the lists live in a heap of their own, [cands_heap]. *)
From stdpp Require Import base list strings.
From Stdlib Require Import ZArith Lia.
From S2P Require Import Prelude Bytes Mem Errno Hashmap Btf Reloc RelocTypes RelocCalc.

#[local] Open Scope Z_scope.

Abbreviation bpf_core_cand := (btf * Z)%type.

(** The loop of [bpf_core_add_cands] from type id [i] on; [realloc_ok] says which
    reallocations succeed. *)
Fixpoint add_cands_loop (n : nat) (realloc_ok : nat → bool) (local_t : btf_type) (local_name : option (list Z))
    (local_essent_len : nat) (targ_btf : btf) (i : Z) (cands : list bpf_core_cand)
    : option (list bpf_core_cand * Z) :=
  match n with
  | O => Some (cands, 0)
  | S n =>
      if i <? btf__type_cnt targ_btf then
        t ← btf__type_by_id targ_btf i;
        let targ_name := btf__name_by_offset targ_btf (bt_name_off t) in
        if negb (btf_kind_core_compat t local_t) || str_is_empty targ_name
        then add_cands_loop n realloc_ok local_t local_name local_essent_len targ_btf (i + 1) cands
        else
          targ_name ← targ_name;
          if negb (bpf_core_essential_name_len targ_name =? local_essent_len)%nat
          then add_cands_loop n realloc_ok local_t local_name local_essent_len targ_btf (i + 1) cands
          else
            local_name' ← local_name;
            if negb (strncmp_eq local_name' targ_name local_essent_len)
            then add_cands_loop n realloc_ok local_t local_name local_essent_len targ_btf (i + 1) cands
            else if negb (realloc_ok (length cands)) then Some (cands, - ENOMEM)
            else add_cands_loop n realloc_ok local_t local_name local_essent_len targ_btf (i + 1)
                   (cands ++ [(targ_btf, i)])
      else Some (cands, 0)
  end.

Definition bpf_core_add_cands (realloc_ok : nat → bool) (local_cand : bpf_core_cand) (local_essent_len : nat)
    (targ_btf : btf) (targ_start_id : Z) (cands : list bpf_core_cand) : option (list bpf_core_cand * Z) :=
  local_t ← btf__type_by_id local_cand.1 local_cand.2;
  add_cands_loop (Z.to_nat (btf__type_cnt targ_btf)) realloc_ok local_t
    (btf__str_by_offset local_cand.1 (bt_name_off local_t)) local_essent_len targ_btf targ_start_id cands.

(** What [bpf_core_find_cands] takes from the object and the kernel: the override and
    the vmlinux BTF, and what [load_module_btfs] gives (an error or the BTF objects of
    the modules). *)
Record cand_env := mkCandEnv {
  ce_override : option btf;
  ce_vmlinux : btf;
  ce_modules : list btf + Z;
}.

Fixpoint add_module_cands (realloc_ok : nat → bool) (local_cand : bpf_core_cand) (local_essent_len : nat)
    (start_id : Z) (mods : list btf) (cands : list bpf_core_cand) : option (list bpf_core_cand + Z) :=
  match mods with
  | [] => Some (inl cands)
  | m :: mods =>
      '(cands, err) ← bpf_core_add_cands realloc_ok local_cand local_essent_len m start_id cands;
      if negb (err =? 0) then Some (inr err)
      else add_module_cands realloc_ok local_cand local_essent_len start_id mods cands
  end.

Definition bpf_core_find_cands (calloc_ok : bool) (realloc_ok : nat → bool) (env : cand_env) (local_btf : btf)
    (local_type_id : Z) : option (list bpf_core_cand + Z) :=
  match btf__type_by_id local_btf local_type_id with
  | None => Some (inr (- EINVAL))
  | Some local_t =>
      match btf__name_by_offset local_btf (bt_name_off local_t) with
      | None | Some [] => Some (inr (- EINVAL))
      | Some local_name =>
          let len := bpf_core_essential_name_len local_name in
          if negb calloc_ok then Some (inr (- ENOMEM))
          else
            let main_btf := default (ce_vmlinux env) (ce_override env) in
            '(cands, err) ← bpf_core_add_cands realloc_ok (local_btf, local_type_id) len main_btf 1 [];
            if negb (err =? 0) then Some (inr err)
            else if (0 <? length cands)%nat then Some (inl cands)
            else
              match ce_override env, ce_modules env with
              | Some _, _ => Some (inl cands)
              | None, inr err => Some (inr err)
              | None, inl mods =>
                  add_module_cands realloc_ok (local_btf, local_type_id) len
                    (btf__type_cnt (ce_vmlinux env)) mods cands
              end
      end
  end.

(** * The choice among the candidates *)

(** The loop of [bpf_core_calc_relo_insn]: [cands] is overwritten in place while
    [cands[0..j)] keeps the matching ones; [targ] is the result and the spec of the
    first one. The result is the list, the error, [j] and [targ]. *)
Fixpoint calc_cands (kind : Z) (local_spec : bpf_core_spec) (n i : nat) (cands : list bpf_core_cand) (j : nat)
    (targ : option (bpf_core_relo_res * bpf_core_spec))
    : option (list bpf_core_cand * Z * nat * option (bpf_core_relo_res * bpf_core_spec)) :=
  match n with
  | O => Some (cands, 0, j, targ)
  | S n =>
      cand ← cands !! i;
      '(err, cand_spec) ← bpf_core_spec_match local_spec cand.1 cand.2;
      if err <? 0 then Some (cands, err, j, targ)
      else if err =? 0 then calc_cands kind local_spec n (S i) cands j targ
      else
        '(err, cand_res) ← bpf_core_calc_relo kind local_spec (Some cand_spec);
        if negb (err =? 0) then Some (cands, err, j, targ)
        else
          match targ with
          | None => calc_cands kind local_spec n (S i) (<[j := cand]> cands) (S j) (Some (cand_res, cand_spec))
          | Some (targ_res, targ_spec) =>
              if negb (sp_bit_offset cand_spec =? sp_bit_offset targ_spec) then Some (cands, - EINVAL, j, targ)
              else if negb (Bool.eqb (res_poison cand_res) (res_poison targ_res)) ||
                      negb (res_new_val cand_res =? res_new_val targ_res) then Some (cands, - EINVAL, j, targ)
              else calc_cands kind local_spec n (S i) (<[j := cand]> cands) (S j) targ
          end
  end.

(** The candidates afterwards, the error and [*targ_res] when it is set. *)
Definition bpf_core_calc_relo_insn (relo : bpf_core_relo) (local_btf : btf) (cands : list bpf_core_cand)
    : option (list bpf_core_cand * Z * option bpf_core_relo_res) :=
  local_type ← btf_type_by_id local_btf (relo_type_id relo);
  match btf__name_by_offset local_btf (bt_name_off local_type) with
  | None => Some (cands, - EINVAL, None)
  | Some local_name =>
      spec ← bpf_core_parse_spec local_btf relo;
      match spec with
      | inr _ => Some (cands, - EINVAL, None)
      | inl local_spec =>
          if relo_kind relo =? BPF_CORE_TYPE_ID_LOCAL then
            Some (cands, 0, Some (mkRes (sp_root_type_id local_spec) (sp_root_type_id local_spec)
                                    false false false 0 0 0 0))
          else if str_is_empty (Some local_name) then Some (cands, - EOPNOTSUPP, None)
          else
            '(cands, err, j, targ) ← calc_cands (relo_kind relo) local_spec (length cands) 0 cands 0 None;
            if negb (err =? 0) then Some (cands, err, fst <$> targ)
            else
              match targ with
              | Some (targ_res, _) => Some (take j cands, 0, Some targ_res)
              | None =>
                  '(err, targ_res) ← bpf_core_calc_relo (relo_kind relo) local_spec None;
                  Some (cands, err, Some targ_res)
              end
      end
  end.

(** * The cache *)

Definition bpf_core_hash_fn (key : Z) : Z := key.
Definition bpf_core_equal_fn (k1 k2 : Z) : bool := k1 =? k2.

Record cand_state := mkCandState {
  cand_cache : hashmap Z nat;
  cands_heap : list (list bpf_core_cand);
}.

(** The state, the error and the result of the relocation. [oracle] are the
    allocations: of the list, of its growth, and of the hash map. *)
Definition bpf_core_resolve_relo (oracle : bool * (nat → bool) * bool * bool) (env : cand_env)
    (relo : bpf_core_relo) (local_btf : btf) (st : cand_state)
    : option (cand_state * Z * option bpf_core_relo_res) :=
  let '(calloc_ok, realloc_ok, a1, a2) := oracle in
  let local_id := relo_type_id relo in
  match btf__type_by_id local_btf local_id with
  | None => Some (st, - EINVAL, None)
  | Some local_type =>
      match btf__name_by_offset local_btf (bt_name_off local_type) with
      | None => Some (st, - EINVAL, None)
      | Some _ =>
          if relo_kind relo =? BPF_CORE_TYPE_ID_LOCAL then
            '(_, err, res) ← bpf_core_calc_relo_insn relo local_btf [];
            Some (st, err, res)
          else
            found ← hashmap__find bpf_core_hash_fn bpf_core_equal_fn (cand_cache st) local_id;
            loc ← (match found with
                   | Some p => Some (inl (st, p))
                   | None =>
                       r ← bpf_core_find_cands calloc_ok realloc_ok env local_btf local_id;
                       match r with
                       | inr err => Some (inr (st, err))
                       | inl cands =>
                           let p := length (cands_heap st) in
                           '(cache, err, _) ← hashmap__insert bpf_core_hash_fn bpf_core_equal_fn a1 a2
                                                (cand_cache st) local_id p HASHMAP_SET;
                           if negb (err =? 0) then Some (inr (mkCandState cache (cands_heap st), err))
                           else Some (inl (mkCandState cache (cands_heap st ++ [cands]), p))
                       end
                   end);
            match loc with
            | inr (st, err) => Some (st, err, None)
            | inl (st, p) =>
                cands ← cands_heap st !! p;
                '(cands, err, res) ← bpf_core_calc_relo_insn relo local_btf cands;
                Some (mkCandState (cand_cache st) (<[p := cands]> (cands_heap st)), err, res)
            end
      end
  end.

(** * The choice without the list in place *)

(** What a candidate says: an error, that it does not match, or its result. *)
Definition cand_eval (kind : Z) (local_spec : bpf_core_spec) (cand : bpf_core_cand)
    : option (Z + option (bpf_core_relo_res * bpf_core_spec)) :=
  '(err, cand_spec) ← bpf_core_spec_match local_spec cand.1 cand.2;
  if err <? 0 then Some (inl err)
  else if err =? 0 then Some (inr None)
  else
    '(err, cand_res) ← bpf_core_calc_relo kind local_spec (Some cand_spec);
    if negb (err =? 0) then Some (inl err) else Some (inr (Some (cand_res, cand_spec))).

(** Two results that the code takes for the same. *)
Definition same_choice (x y : bpf_core_relo_res * bpf_core_spec) : Prop :=
  sp_bit_offset x.2 = sp_bit_offset y.2 ∧ res_poison x.1 = res_poison y.1 ∧ res_new_val x.1 = res_new_val y.1.

#[export] Instance same_choice_dec x y : Decision (same_choice x y).
Proof. unfold same_choice. apply _. Defined.

#[export] Instance same_choice_equiv : Equivalence same_choice.
Proof.
  split.
  - intros x. done.
  - intros x y (?&?&?). done.
  - intros x y z (H1&H2&H3) (?&?&?). unfold same_choice. by rewrite H1, H2, H3.
Qed.

Definition agrees (targ : option (bpf_core_relo_res * bpf_core_spec)) (x : bpf_core_relo_res * bpf_core_spec) : Prop :=
  match targ with Some y => same_choice y x | None => True end.

#[export] Instance agrees_dec targ x : Decision (agrees targ x).
Proof. unfold agrees. destruct targ; apply _. Defined.

(** The matching candidates and the first result, or an error. *)
Fixpoint choose (kind : Z) (local_spec : bpf_core_spec) (cands : list bpf_core_cand)
    (targ : option (bpf_core_relo_res * bpf_core_spec))
    : option ((list bpf_core_cand * option (bpf_core_relo_res * bpf_core_spec)) + Z) :=
  match cands with
  | [] => Some (inl ([], targ))
  | c :: cands =>
      e ← cand_eval kind local_spec c;
      match e with
      | inl err => Some (inr err)
      | inr None => choose kind local_spec cands targ
      | inr (Some x) =>
          if decide (agrees targ x) then
            r ← choose kind local_spec cands (Some (default x targ));
            Some (match r with inl (ms, t) => inl (c :: ms, t) | inr err => inr err end)
          else Some (inr (- EINVAL))
      end
  end.

(** One candidate of the loop. *)
Lemma calc_cands_step kind local_spec n i cands j targ c :
  cands !! i = Some c →
  calc_cands kind local_spec (S n) i cands j targ =
  e ← cand_eval kind local_spec c;
  match e with
  | inl err => Some (cands, err, j, targ)
  | inr None => calc_cands kind local_spec n (S i) cands j targ
  | inr (Some x) =>
      if decide (agrees targ x)
      then calc_cands kind local_spec n (S i) (<[j := c]> cands) (S j) (Some (default x targ))
      else Some (cands, - EINVAL, j, targ)
  end.
Proof.
  intros Hc. cbn [calc_cands]. rewrite Hc. cbn [mbind option_bind]. unfold cand_eval.
  destruct (bpf_core_spec_match local_spec c.1 c.2) as [[err cs]|]; cbn [mbind option_bind]; [|done].
  destruct (err <? 0); [done|]. destruct (err =? 0); [done|].
  destruct (bpf_core_calc_relo kind local_spec (Some cs)) as [[err' res]|]; cbn [mbind option_bind]; [|done].
  destruct (err' =? 0); cbn [negb mbind option_bind]; [|done].
  destruct targ as [[tr ts]|]; cbn [agrees default]; [|by rewrite decide_True].
  destruct (Z.eqb_spec (sp_bit_offset cs) (sp_bit_offset ts)) as [Hb|Hb], (Bool.eqb_spec (res_poison res) (res_poison tr)) as [Hp|Hp],
    (Z.eqb_spec (res_new_val res) (res_new_val tr)) as [Hv|Hv]; cbn [negb orb];
    try (rewrite decide_False; [done|unfold same_choice; cbn; naive_solver]).
  by rewrite decide_True.
Qed.

Lemma cand_eval_err kind local_spec c err : cand_eval kind local_spec c = Some (inl err) → err ≠ 0.
Proof.
  unfold cand_eval. destruct (bpf_core_spec_match _ _ _) as [[e cs]|]; cbn [mbind option_bind]; [|done].
  destruct (Z.ltb_spec e 0); [intros ?; simplify_eq; lia|]. destruct (e =? 0); [done|].
  destruct (bpf_core_calc_relo _ _ _) as [[e' r]|]; cbn [mbind option_bind]; [|done].
  destruct (Z.eqb_spec e' 0); cbn; intros ?; by simplify_eq.
Qed.

(** The loop on the list in place is [choose]. *)
Lemma calc_cands_choose kind local_spec n i cands j targ :
  (j ≤ i)%nat → (n + i)%nat = length cands →
  match choose kind local_spec (drop i cands) targ with
  | None => calc_cands kind local_spec n i cands j targ = None
  | Some (inr err) => err ≠ 0 ∧ ∃ cands' j' targ',
      calc_cands kind local_spec n i cands j targ = Some (cands', err, j', targ')
  | Some (inl (ms, targ')) => ∃ cands',
      calc_cands kind local_spec n i cands j targ = Some (cands', 0, (j + length ms)%nat, targ') ∧
      take (j + length ms) cands' = take j cands ++ ms ∧ (ms = [] → cands' = cands)
  end.
Proof.
  revert i cands j targ. induction n as [|n IH]; intros i cands j targ Hj Hn.
  { rewrite drop_ge by lia. cbn. eexists. rewrite Nat.add_0_r, app_nil_r. done. }
  destruct (lookup_lt_is_Some_2 cands i ltac:(lia)) as [c Hc].
  rewrite (drop_S _ _ _ Hc), (calc_cands_step _ _ _ _ _ _ _ c Hc). cbn [choose].
  destruct (cand_eval kind local_spec c) as [[err|[x|]]|] eqn:Ec; cbn [mbind option_bind]; [| | |done].
  - apply cand_eval_err in Ec. eauto.
  - case_decide as Ha; [|split; [done|eauto]].
    specialize (IH (S i) (<[j:=c]> cands) (S j) (Some (default x targ)) ltac:(lia)).
    rewrite length_insert in IH. specialize (IH ltac:(lia)). rewrite drop_insert_lt in IH by lia.
    destruct (choose kind local_spec (drop (S i) cands) (Some (default x targ))) as [[[ms t]|err]|]; [| |exact IH].
    + destruct IH as (cands' & -> & Ht & _). exists cands'. cbn [length].
      replace (j + S (length ms))%nat with (S j + length ms)%nat by lia. split_and!; [done| |done].
      rewrite Ht. rewrite (take_S_r _ j c) by (rewrite list_lookup_insert_eq; [done|lia]).
      by rewrite take_insert_ge, <- app_assoc by lia.
    + exact IH.
  - specialize (IH (S i) cands j targ ltac:(lia) ltac:(lia)). exact IH.
Qed.

(** * What the choice means *)

(** The matching candidates with their results, in order. *)
Definition matching (cands : list bpf_core_cand) (evals : list (option (bpf_core_relo_res * bpf_core_spec)))
    : list (bpf_core_cand * (bpf_core_relo_res * bpf_core_spec)) :=
  omap (λ '(c, e), (λ x, (c, x)) <$> e) (zip cands evals).

(** [choose] succeeds exactly when every candidate can be evaluated and the matching
    ones say the same. *)
Definition evaluated (kind : Z) (local_spec : bpf_core_spec) (cands : list bpf_core_cand)
    (evals : list (option (bpf_core_relo_res * bpf_core_spec))) : Prop :=
  Forall2 (λ c e, cand_eval kind local_spec c = Some (inr e)) cands evals.

Lemma choose_spec kind local_spec cands targ ms t :
  choose kind local_spec cands targ = Some (inl (ms, t)) ↔
  ∃ evals, evaluated kind local_spec cands evals ∧ ms = (matching cands evals).*1 ∧
    t = match targ with Some x => Some x | None => head (matching cands evals).*2 end ∧
    Forall (λ x, agrees t x) (matching cands evals).*2.
Proof.
  revert targ ms t. induction cands as [|c cands IH]; intros targ ms t; cbn [choose].
  { split.
    - intros ?; simplify_eq. exists []. split_and!; [constructor|done|by destruct t|constructor].
    - intros (evals & HF & -> & -> & _). inversion HF; subst. by destruct targ. }
  assert (Hin : ∀ evals, evaluated kind local_spec (c :: cands) evals →
    ∃ e evals', evals = e :: evals' ∧ cand_eval kind local_spec c = Some (inr e) ∧ evaluated kind local_spec cands evals').
  { intros evals HF. inversion HF; subst; eauto. }
  destruct (cand_eval kind local_spec c) as [[err|[x|]]|] eqn:Ec; cbn [mbind option_bind].
  - split; [done|]. intros (evals & HF & _). destruct (Hin _ HF) as (? & ? & _ & ? & _). done.
  - case_decide as Ha.
    + split.
      * destruct (choose kind local_spec cands (Some (default x targ))) as [[[ms' t']|]|] eqn:E; cbn [mbind option_bind];
          [|done|done]. intros ?; simplify_eq.
        apply IH in E as (evals & HF & -> & -> & HA). exists (Some x :: evals).
        split_and!; [by constructor|done|by destruct targ|].
        cbn. constructor; [|done]. destruct targ; [done|cbn; reflexivity].
      * intros (evals & HF & -> & -> & HA). destruct (Hin _ HF) as (e & evals' & -> & He & HF'). simplify_eq.
        cbn in HA. apply Forall_cons in HA as [_ HA].
        rewrite (proj2 (IH (Some (default x targ)) (matching cands evals').*1 (Some (default x targ)))).
        -- cbn. by destruct targ.
        -- exists evals'. split_and!; [done|done|done|]. by destruct targ.
    + split; [done|]. intros (evals & HF & -> & -> & HA). destruct (Hin _ HF) as (e & evals' & -> & He & HF').
      simplify_eq. cbn in HA. apply Forall_cons in HA as [HA _]. destruct targ; done.
  - rewrite IH. split.
    + intros (evals & HF & -> & -> & HA). exists (None :: evals). split_and!; [by constructor|done|done|done].
    + intros (evals & HF & -> & -> & HA). destruct (Hin _ HF) as (e & evals' & -> & He & HF'). simplify_eq.
      exists evals'. done.
  - split; [done|]. intros (evals & HF & _). destruct (Hin _ HF) as (? & ? & _ & ? & _). done.
Qed.

(** [bpf_core_calc_relo_insn] on a relocation that needs candidates. *)
Lemma relo_insn_eq relo b cands t name spec :
  btf_type_by_id b (relo_type_id relo) = Some t → btf__name_by_offset b (bt_name_off t) = Some name → name ≠ [] →
  bpf_core_parse_spec b relo = Some (inl spec) → relo_kind relo ≠ BPF_CORE_TYPE_ID_LOCAL →
  bpf_core_calc_relo_insn relo b cands =
  '(cands, err, j, targ) ← calc_cands (relo_kind relo) spec (length cands) 0 cands 0 None;
  if negb (err =? 0) then Some (cands, err, fst <$> targ)
  else match targ with
       | Some (targ_res, _) => Some (take j cands, 0, Some targ_res)
       | None => '(err, targ_res) ← bpf_core_calc_relo (relo_kind relo) spec None; Some (cands, err, Some targ_res)
       end.
Proof.
  intros Ht Hn Hne Hp Hk. unfold bpf_core_calc_relo_insn. rewrite Ht. cbn [mbind option_bind].
  rewrite Hn, Hp. cbn [mbind option_bind]. destruct (Z.eqb_spec (relo_kind relo) BPF_CORE_TYPE_ID_LOCAL); [done|].
  by destruct name.
Qed.

(** The premises of the two properties: the relocation parses to [spec], and its type
    has a name. *)
Record relo_parsed (relo : bpf_core_relo) (b : btf) (spec : bpf_core_spec) : Prop := {
  rp_name : ∃ t name, btf_type_by_id b (relo_type_id relo) = Some t ∧
    btf__name_by_offset b (bt_name_off t) = Some name ∧ name ≠ [];
  rp_spec : bpf_core_parse_spec b relo = Some (inl spec);
  rp_kind : relo_kind relo ≠ BPF_CORE_TYPE_ID_LOCAL;
}.

Lemma relo_choice_iff relo b spec cands cands' res :
  relo_parsed relo b spec →
  bpf_core_calc_relo_insn relo b cands = Some (cands', 0, Some res) ↔
  ∃ evals, evaluated (relo_kind relo) spec cands evals ∧
    match matching cands evals with
    | [] => cands' = cands ∧ bpf_core_calc_relo (relo_kind relo) spec None = Some (0, res)
    | (_, x) :: _ => cands' = (matching cands evals).*1 ∧ res = x.1 ∧
        Forall (λ y, same_choice x y) (matching cands evals).*2
    end.
Proof.
  intros [(t & name & Ht & Hn & Hne) Hp Hk]. rewrite (relo_insn_eq relo b cands t name spec) by done.
  pose proof (calc_cands_choose (relo_kind relo) spec (length cands) 0 cands 0 None ltac:(lia) ltac:(lia)) as H.
  rewrite drop_0 in H.
  assert (Hno : ∀ evals, evaluated (relo_kind relo) spec cands evals →
    match matching cands evals with [] => True | (_, x) :: _ => Forall (λ y, same_choice x y) (matching cands evals).*2 end →
    choose (relo_kind relo) spec cands None = Some (inl ((matching cands evals).*1, head (matching cands evals).*2))).
  { intros evals HF HA. apply choose_spec. exists evals. split_and!; [done|done|done|].
    destruct (matching cands evals) as [|[c x] l]; [by apply Forall_nil|exact HA]. }
  destruct (choose (relo_kind relo) spec cands None) as [[[ms targ]|err]|] eqn:Ech; [| |].
  - destruct H as (cands1 & -> & Ht1 & Hms). cbn [mbind option_bind Z.eqb negb]. rewrite Nat.add_0_l in *.
    apply choose_spec in Ech as (evals & HF & -> & -> & HA). split.
    + intros H. exists evals. split; [done|]. destruct (matching cands evals) as [|[c x] l]; cbn [head list_fmap fmap] in *.
      * destruct (bpf_core_calc_relo (relo_kind relo) spec None) as [[e r]|]; cbn in H; [|done]. simplify_eq.
        rewrite (Hms eq_refl). done.
      * destruct x as [r s]. cbn [fst snd] in *. simplify_eq. split_and!; [exact Ht1|done|exact HA].
    + intros (evals' & HF' & H).
      assert (evals' = evals) as ->.
      { clear -HF HF'. revert evals HF. induction HF' as [|c e l l' He HF' IH]; intros evals HF; inversion HF; subst; [done|].
        f_equal; [congruence|by apply IH]. }
      destruct (matching cands evals) as [|[c x] l]; cbn [head list_fmap fmap] in *.
      * destruct H as [-> H]. rewrite (Hms eq_refl), H. done.
      * destruct H as (-> & -> & _). destruct x as [r s]. cbn. do 3 f_equal. exact Ht1.
  - destruct H as (He & cands1 & j' & targ' & ->). cbn [mbind option_bind]. destruct (Z.eqb_spec err 0); [done|].
    cbn. split; [intros ?; simplify_eq|]. intros (evals & HF & H). exfalso.
    specialize (Hno evals HF). destruct (matching cands evals) as [|[c x] l]; [by specialize (Hno I)|].
    destruct H as (_ & _ & HA). by specialize (Hno HA).
  - rewrite H. cbn. split; [done|]. intros (evals & HF & H'). exfalso.
    specialize (Hno evals HF). destruct (matching cands evals) as [|[c x] l]; [by specialize (Hno I)|].
    destruct H' as (_ & _ & HA). by specialize (Hno HA).
Qed.

Lemma evaluated_perm kind spec cands cands2 evals :
  cands ≡ₚ cands2 → evaluated kind spec cands evals →
  ∃ evals2, evaluated kind spec cands2 evals2 ∧ matching cands evals ≡ₚ matching cands2 evals2.
Proof.
  intros HP. revert evals. induction HP as [|c l l' HP IH|c1 c2 l|l1 l2 l3 H1 IH1 H2 IH2]; intros evals HF.
  - by exists evals.
  - inversion HF as [|? e ? evals' He HF']; subst. destruct (IH _ HF') as (evals2 & HF2 & HP2).
    exists (e :: evals2). split; [by constructor|]. unfold matching. cbn. destruct e; cbn; [by rewrite HP2|done].
  - inversion HF as [|? e1 ? ? He1 HF1]; subst. inversion HF1 as [|? e2 ? evals' He2 HF2]; subst.
    exists (e2 :: e1 :: evals'). split; [by repeat constructor|]. unfold matching. cbn.
    destruct e1, e2; cbn; try done. apply Permutation_swap.
  - destruct (IH1 _ HF) as (e2 & HF2 & HP2). destruct (IH2 _ HF2) as (e3 & HF3 & HP3).
    exists e3. split; [done|by etrans].
Qed.

(** * Properties *)

(** C19. The result of a relocation: when it succeeds every candidate was evaluated without
    an error; without a matching candidate the list stays as it is and the result is
    the one for a missing target; otherwise the list keeps exactly the matching
    candidates in order, the result is that of the first, and all of them agree on the
    bit offset, on poisoning and on the new value. *)
Theorem relo_choice relo b spec cands cands' res :
  relo_parsed relo b spec → bpf_core_calc_relo_insn relo b cands = Some (cands', 0, Some res) →
  ∃ evals, evaluated (relo_kind relo) spec cands evals ∧
    match matching cands evals with
    | [] => cands' = cands ∧ bpf_core_calc_relo (relo_kind relo) spec None = Some (0, res)
    | (_, x) :: _ => cands' = (matching cands evals).*1 ∧ res = x.1 ∧
        Forall (λ y, same_choice x y) (matching cands evals).*2
    end.
Proof. intros Hp. by apply relo_choice_iff. Qed.

(** C21. The order of the candidates does not matter for whether a relocation succeeds, nor
    for poisoning and the new value. *)
Theorem relo_order_independent relo b spec cands cands2 cands' res :
  relo_parsed relo b spec → cands ≡ₚ cands2 →
  bpf_core_calc_relo_insn relo b cands = Some (cands', 0, Some res) →
  ∃ cands2' res2, bpf_core_calc_relo_insn relo b cands2 = Some (cands2', 0, Some res2) ∧ cands' ≡ₚ cands2' ∧
    res_new_val res2 = res_new_val res ∧ res_poison res2 = res_poison res.
Proof.
  intros Hp HP (evals & HF & H)%(relo_choice_iff relo b spec _ _ _ Hp).
  destruct (evaluated_perm _ _ _ _ _ HP HF) as (evals2 & HF2 & HM).
  destruct (matching cands evals) as [|[c x] l] eqn:E1, (matching cands2 evals2) as [|[c2 x2] l2] eqn:E2;
    [|by apply Permutation_nil_cons in HM|by symmetry in HM; apply Permutation_nil_cons in HM|].
  - destruct H as [-> H]. exists cands2, res. split_and!; try done.
    apply (relo_choice_iff relo b spec _ _ _ Hp). exists evals2. by rewrite E2.
  - destruct H as (-> & -> & HA). eexists _, x2.1.
    assert (HA2 : Forall (λ y, same_choice x y) ((c2, x2) :: l2).*2) by (by rewrite <- HM).
    assert (Hx2 : same_choice x x2) by (cbn in HA2; by apply Forall_cons in HA2 as [? _]).
    split_and!.
    + apply (relo_choice_iff relo b spec _ _ _ Hp). exists evals2. rewrite E2. split_and!; [done|done|done|].
      eapply Forall_impl; [exact HA2|]. intros y Hy. cbn in *. by rewrite <- Hx2.
    + by rewrite <- HM.
    + symmetry. apply Hx2.
    + symmetry. apply Hx2.
Qed.

(** [s->arr[1]] of the example, with a candidate that has no such field. *)
Definition demo_relo : bpf_core_relo := mkRelo 0 3 45 BPF_CORE_FIELD_BYTE_OFFSET.
Definition demo_spec : bpf_core_spec :=
  mkSpec demo_btf [mkAcc 3 0 None; mkAcc 3 2 (Some [97; 114; 114]); mkAcc 1 1 None] 3 BPF_CORE_FIELD_BYTE_OFFSET
    [0; 2; 1] 96.
Definition demo_res : bpf_core_relo_res := mkRes 12 12 false true false 4 1 4 1.

Lemma demo_parsed : relo_parsed demo_relo demo_btf demo_spec.
Proof.
  split; [|vm_compute; reflexivity|done].
  eexists _, [115]. split_and!; [vm_compute; reflexivity|vm_compute; reflexivity|done].
Qed.

Lemma relo_choice_witness :
  let cands := [(demo_btf, 5); (demo_btf, 3)] in
  bpf_core_calc_relo_insn demo_relo demo_btf cands = Some ([(demo_btf, 3)], 0, Some demo_res) ∧
  ∃ evals, evaluated BPF_CORE_FIELD_BYTE_OFFSET demo_spec cands evals ∧
    match matching cands evals with
    | [] => [(demo_btf, 3)] = cands ∧ bpf_core_calc_relo BPF_CORE_FIELD_BYTE_OFFSET demo_spec None = Some (0, demo_res)
    | (_, x) :: _ => [(demo_btf, 3)] = (matching cands evals).*1 ∧ demo_res = x.1 ∧
        Forall (λ y, same_choice x y) (matching cands evals).*2
    end.
Proof.
  assert (bpf_core_calc_relo_insn demo_relo demo_btf [(demo_btf, 5); (demo_btf, 3)] =
          Some ([(demo_btf, 3)], 0, Some demo_res)) as H by (vm_compute; reflexivity).
  split; [exact H|].
  exact (relo_choice demo_relo demo_btf demo_spec _ _ _ demo_parsed H).
Defined.

Lemma relo_order_independent_witness :
  ∃ cands2' res2,
    bpf_core_calc_relo_insn demo_relo demo_btf [(demo_btf, 3); (demo_btf, 5)] = Some (cands2', 0, Some res2) ∧
    [(demo_btf, 3)] ≡ₚ cands2' ∧ res_new_val res2 = 12 ∧ res_poison res2 = false.
Proof.
  apply (relo_order_independent demo_relo demo_btf demo_spec [(demo_btf, 5); (demo_btf, 3)] [(demo_btf, 3); (demo_btf, 5)]
    [(demo_btf, 3)] demo_res demo_parsed (Permutation_swap _ _ [])). vm_compute; reflexivity.
Defined.
