(* ===== verification/RelocMatch.v ===== *)
(** The search for a named field: [bpf_core_match_member] goes through the members of a
    composite type and of its anonymous members in order, and finds the first one of
    the name; relocating against the type a program was compiled with finds the field
    the access string spells. *)
From stdpp Require Import base list sets strings.
From Stdlib Require Import ZArith Lia.
From S2P Require Import Prelude Bytes Mem Errno Btf Reloc RelocWf RelocTypes RelocCalc.

#[local] Open Scope Z_scope.

(** * The fields of a composite type, anonymous members unfolded *)

(** A field: the indices that lead to it, its bit offset and the one in the composite type
    that it is a member of, that type with its index there, the member and its name. *)
Record field := mkField {
  f_path : list Z; f_off : Z; f_own : Z; f_cid : Z; f_idx : Z; f_member : btf_member; f_name : list Z;
}.

Definition f_under (i off : Z) (f : field) : field :=
  mkField (i :: f_path f) (off + f_off f) (f_own f) (f_cid f) (f_idx f) (f_member f) (f_name f).

Fixpoint flat_members (rec : Z → option (list field)) (b : btf) (cid : Z) (t : btf_type) (n : nat) (i : Z)
    : option (list field) :=
  match n with
  | O => Some []
  | S n =>
      off ← btf_member_bit_offset t i;
      m ← btf_member_at t i;
      name ← btf__name_by_offset b (m_name_off m);
      here ← (if str_is_empty (Some name) then fs ← rec (m_type m); Some (map (f_under i off) fs)
              else Some [mkField [i] off off cid i m name]);
      rest ← flat_members rec b cid t n (i + 1);
      Some (here ++ rest)
  end.

(** [None]: no composite type, or anonymous members nested [n] deep or deeper. *)
Fixpoint flat (n : nat) (b : btf) (id : Z) : option (list field) :=
  match n with
  | O => None
  | S n =>
      '(cid, t) ← skip_mods_and_typedefs b id;
      if btf_is_composite t then flat_members (flat n b) b cid t (Z.to_nat (btf_vlen t)) 0 else None
  end.

Fixpoint first_field (name : list Z) (fs : list field) : option field :=
  match fs with
  | [] => None
  | f :: fs => if decide (f_name f = name) then Some f else first_field name fs
  end.

(** The spec of the target once the field is found. *)
Definition sp_found (s : bpf_core_spec) (f : field) : bpf_core_spec :=
  mkSpec (sp_btf s) (sp_spec s ++ [mkAcc (f_cid f) (f_idx f) (Some (f_name f))]) (sp_root_type_id s)
    (sp_relo_kind s) (sp_raw_spec s ++ f_path f) (u32 (sp_bit_offset s + f_off f)).

(** The spec of the target when the field is found and is not compatible: of the indices
    that led to it the first one stays, and of its bit offset the part in its composite
    type. *)
Definition sp_left (s : bpf_core_spec) (f : field) : bpf_core_spec :=
  mkSpec (sp_btf s) (sp_spec s) (sp_root_type_id s) (sp_relo_kind s) (sp_raw_spec s ++ take 1 (f_path f))
    (u32 (sp_bit_offset s + f_own f)).

Definition named (name : list Z) (fs : list field) : list field := filter (λ f, f_name f = name) fs.

(** * Lemmas on the search *)

Lemma first_field_app name a b :
  first_field name (a ++ b) = match first_field name a with Some f => Some f | None => first_field name b end.
Proof. induction a as [|f a IH]; cbn; [done|]. by case_decide. Qed.

Lemma first_field_under name i off fs :
  first_field name (map (f_under i off) fs) = f_under i off <$> first_field name fs.
Proof. induction fs as [|f fs IH]; cbn; [done|]. by case_decide. Qed.

Lemma first_field_in name fs f : first_field name fs = Some f → f ∈ fs ∧ f_name f = name.
Proof.
  induction fs as [|g fs IH]; cbn; [done|]. case_decide; [intros ?; simplify_eq; split; [by left|done]|].
  intros [? ?]%IH. split; [by right|done].
Qed.

Lemma sp_pop_push s i off : in_u 32 (sp_bit_offset s) → sp_pop (sp_push s i off) off = s.
Proof.
  intros Hs. unfold sp_pop, sp_push. cbn. destruct s as [b sp r k raw o]. cbn in *. f_equal.
  - apply removelast_last.
  - unfold wrap. rewrite Zminus_mod_idemp_l. replace (o + off - off) with o by lia. by apply wrap_small.
Qed.

Lemma sp_found_under s i off f :
  sp_found (sp_push s i off) f = sp_found s (f_under i off f).
Proof.
  unfold sp_found, sp_push, f_under. cbn. f_equal; [by rewrite <- app_assoc|].
  rewrite wrap_add_l. f_equal. lia.
Qed.

Lemma sp_pop_left s i off f : f_path f ≠ [] → sp_pop (sp_left (sp_push s i off) f) off = sp_left s (f_under i off f).
Proof.
  intros Hp. unfold sp_pop, sp_left, sp_push, f_under. cbn. f_equal.
  - destruct (f_path f) as [|j p]; [done|]. change (take 1 (j :: p)) with [j]. by rewrite removelast_last.
  - unfold wrap. rewrite Zminus_mod_idemp_l. rewrite <- Zminus_mod_idemp_l, Zplus_mod_idemp_l, Zminus_mod_idemp_l. f_equal. lia.
Qed.

Lemma first_field_None name fs : first_field name fs = None ↔ named name fs = [].
Proof.
  unfold named. induction fs as [|f fs IH]; [done|]. cbn [first_field]. rewrite filter_cons. by case_decide.
Qed.

(** What follows the only field of the name has none. *)
Lemma first_field_rest name a fs f : first_field name a = Some f → (length (named name (a ++ fs)) ≤ 1)%nat → first_field name fs = None.
Proof.
  unfold named. rewrite filter_app, length_app. intros Hf Hl. apply first_field_None.
  destruct (named name a) as [|g l] eqn:E; [by rewrite (proj2 (first_field_None name a) E) in Hf|]. unfold named in *. rewrite E in Hl. cbn in Hl.
  apply nil_length_inv. lia.
Qed.

Lemma flat_members_paths rec b cid t n i fs : (∀ id sub, rec id = Some sub → Forall (λ f, f_path f ≠ []) sub) →
  flat_members rec b cid t n i = Some fs → Forall (λ f, f_path f ≠ []) fs.
Proof.
  intros Hrec. revert i fs. induction n as [|n IH]; intros i fs Hf; cbn [flat_members] in Hf; [by simplify_eq|].
  destruct (btf_member_bit_offset t i) as [off|]; cbn [mbind option_bind] in Hf; [|done].
  destruct (btf_member_at t i) as [m|]; cbn [mbind option_bind] in Hf; [|done].
  destruct (btf__name_by_offset b (m_name_off m)) as [name|]; cbn [mbind option_bind] in Hf; [|done].
  destruct (if str_is_empty (Some name) then _ else _) as [here|] eqn:Eh; cbn [mbind option_bind] in Hf; [|done].
  destruct (flat_members rec b cid t n (i + 1)) as [rest|] eqn:Er; cbn [mbind option_bind] in Hf; [|done]. simplify_eq.
  apply Forall_app. split; [|by apply (IH (i + 1))]. destruct (str_is_empty (Some name)).
  - destruct (rec (m_type m)); cbn [mbind option_bind] in Eh; [|done]. simplify_eq. by apply Forall_map, Forall_true.
  - simplify_eq. by repeat constructor.
Qed.

Lemma flat_paths b n id fs : flat n b id = Some fs → Forall (λ f, f_path f ≠ []) fs.
Proof.
  revert id fs. induction n as [|n IH]; intros id fs Hf; [done|]. cbn [flat] in Hf.
  destruct (skip_mods_and_typedefs b id) as [[cid t]|]; cbn [mbind option_bind] in Hf; [|done].
  destruct (btf_is_composite t); [|done]. by eapply flat_members_paths.
Qed.

Section search.
Context (lb tb : btf) (acc : bpf_core_accessor) (lt : btf_type) (lm : btf_member) (lname : list Z).
Context (Hlt : btf_type_by_id lb (acc_type_id acc) = Some lt) (Hlm : btf_member_at lt (acc_idx acc) = Some lm)
  (Hln : btf__name_by_offset lb (m_name_off lm) = Some lname).

Definition compat (f : field) : option Z := bpf_core_fields_are_compat lb (m_type lm) tb (m_type (f_member f)).

(** The answer for the first field of the name: whether it is compatible. *)
Definition search_result (fs : list field) (spec : bpf_core_spec) (next : Z) : option (Z * bpf_core_spec * Z) :=
  match first_field lname fs with
  | Some f => r ← compat f; Some (r, if r =? 0 then sp_left spec f else sp_found spec f, m_type (f_member f))
  | None => Some (0, spec, next)
  end.

(** [d] more indices have room; one more, and no other field of the name, when the field
    is not compatible. *)
Definition search_pre (d : nat) (fs : list field) (spec : bpf_core_spec) : Prop :=
  sp_raw_len spec + Z.of_nat d ≤ 64 ∧ in_u 32 (sp_bit_offset spec) ∧
  ∀ f, first_field lname fs = Some f → compat f = Some 0 → (length (named lname fs) ≤ 1)%nat ∧ sp_raw_len spec + Z.of_nat d < 64.

Lemma push_pre d i off sub rest spec : search_pre (S d) (map (f_under i off) sub ++ rest) spec → search_pre d sub (sp_push spec i off).
Proof.
  intros (Hl & Ho & Hc). unfold search_pre, sp_raw_len in *. split; [unfold sp_push; cbn; rewrite length_app; cbn; lia|]. split; [apply wrap_range; lia|].
  intros f Hf H0. destruct (Hc (f_under i off f)) as [Hn Hr]; [by rewrite first_field_app, first_field_under, Hf|exact H0|].
  unfold named in Hn. rewrite filter_app, length_app in Hn. split.
  - assert (length (filter (λ g, f_name g = lname) (map (f_under i off) sub)) = length (named lname sub)) as <-; [|lia].
    clear. unfold named. induction sub as [|g sub IH]; [done|]. cbn [map]. rewrite !filter_cons. cbn [f_name f_under]. case_decide; cbn; lia.
  - unfold sp_push. cbn. rewrite length_app. cbn. lia.
Qed.

Lemma rest_pre d here rest spec : first_field lname here = None → search_pre d (here ++ rest) spec → search_pre d rest spec.
Proof.
  intros Hh (Hl & Ho & Hc). split; [done|]. split; [done|]. intros f Hf H0. destruct (Hc f) as [Hn Hr]; [by rewrite first_field_app, Hh|done|].
  split; [|done]. unfold named in *. rewrite filter_app, length_app in Hn. lia.
Qed.

Lemma match_members_flat rec search d cid t n i fs spec next :
  (∀ id sub spec next, rec id = Some sub → Forall (λ f, f_path f ≠ []) sub ∧
     (search_pre d sub spec → search id spec next = search_result sub spec next)) →
  flat_members rec tb cid t n i = Some fs → search_pre (S d) fs spec →
  match_members search lb (Some lname) (m_type lm) tb cid t n i spec next = search_result fs spec next.
Proof.
  intros Hrec. revert i fs spec next. induction n as [|n IH]; intros i fs spec next Hf Hpre;
    cbn [flat_members match_members] in Hf |- *.
  { by simplify_eq. }
  pose proof Hpre as (Hd & Ho & Hc). unfold match_one.
  destruct (btf_member_bit_offset t i) as [off|]; cbn [mbind option_bind] in Hf |- *; [|done].
  destruct (Z.eqb_spec (sp_raw_len spec) BPF_CORE_SPEC_MAX_LEN) as [Hl|_]; [unfold BPF_CORE_SPEC_MAX_LEN in Hl; lia|].
  destruct (btf_member_at t i) as [m|]; cbn [mbind option_bind] in Hf |- *; [|done].
  destruct (btf__name_by_offset tb (m_name_off m)) as [name|] eqn:En; cbn [mbind option_bind] in Hf |- *; [|done].
  destruct (str_is_empty (Some name)) eqn:Ee; cbn [mbind option_bind] in Hf |- *.
  - destruct (rec (m_type m)) as [sub|] eqn:Es; cbn [mbind option_bind] in Hf; [|done].
    destruct (flat_members rec tb cid t n (i + 1)) as [rest|] eqn:Er; cbn [mbind option_bind] in Hf; [|done].
    simplify_eq. destruct (Hrec _ _ (sp_push spec i off) next Es) as [Hpaths ->]; [|by eapply push_pre].
    unfold search_result. rewrite first_field_app, first_field_under.
    destruct (first_field lname sub) as [f|] eqn:Ef; cbn [fmap option_fmap option_map].
    + change (compat (f_under i off f)) with (compat f). destruct (compat f) as [r|] eqn:Ec; cbn [mbind option_bind]; [|done].
      destruct (Z.eqb_spec r 0) as [->|Hr]; cbn [negb mbind option_bind]; [|by rewrite sp_found_under].
      rewrite sp_pop_left by (apply first_field_in in Ef as [Ef _]; rewrite Forall_forall in Hpaths; by apply Hpaths).
      assert (first_field lname (map (f_under i off) sub) = Some (f_under i off f)) as Hfu by by rewrite first_field_under, Ef.
      destruct (Hc (f_under i off f)) as [Hn Hroom]; [by rewrite first_field_app, Hfu|done|].
      pose proof (first_field_rest _ _ _ _ Hfu Hn) as Hrest. rewrite (IH (i + 1) rest (sp_left spec (f_under i off f)) (m_type (f_member f)) Er).
      * unfold search_result. by rewrite Hrest.
      * split; [|split; [apply wrap_range; lia|by intros f' Hf'; rewrite Hrest in Hf']].
        unfold sp_raw_len, sp_left in *. cbn. rewrite length_app. cbn. rewrite take_0. cbn. lia.
    + cbn [mbind option_bind negb Z.eqb]. rewrite sp_pop_push by done. apply IH; [done|]. eapply rest_pre; [|exact Hpre]. by rewrite first_field_under, Ef.
  - destruct (flat_members rec tb cid t n (i + 1)) as [rest|] eqn:Er; cbn [mbind option_bind] in Hf; [|done].
    simplify_eq. unfold search_result. rewrite first_field_app. cbn [first_field f_name]. case_decide as Hname.
    + subst name. rewrite decide_True by done. unfold compat. cbn [f_member m_type].
      destruct (bpf_core_fields_are_compat lb (m_type lm) tb (m_type m)) as [r|]; cbn [mbind option_bind]; [|done].
      destruct (r =? 0); [|done]. do 3 f_equal. unfold sp_pop_acc, sp_add_acc, sp_push, sp_left. cbn. by rewrite removelast_last.
    + rewrite decide_False by congruence. cbn [mbind option_bind]. rewrite sp_pop_push by done. apply IH; [done|].
      eapply rest_pre; [|exact Hpre]. cbn. by rewrite decide_False.
Qed.

Lemma match_member_flat n fuel id fs spec next :
  (n ≤ fuel)%nat → flat n tb id = Some fs → search_pre n fs spec →
  match_member_fuel fuel lb acc tb id spec next = search_result fs spec next.
Proof.
  revert fuel id fs spec next. induction n as [|n IH]; intros fuel id fs spec next Hfu Hf Hc; [done|].
  destruct fuel as [|fuel]; [lia|]. cbn [match_member_fuel]. cbn [flat] in Hf.
  destruct (skip_mods_and_typedefs tb id) as [[cid t]|]; cbn [mbind option_bind] in Hf |- *; [|done].
  destruct (btf_is_composite t); [|done]. cbn [negb]. rewrite Hlt. cbn [mbind option_bind]. rewrite Hlm.
  cbn [mbind option_bind]. cbv zeta. rewrite Hln.
  eapply match_members_flat; try done. intros id' fs' spec' next' Hf'. split; [by eapply flat_paths|].
  intros Hc'. eapply IH; try done. lia.
Qed.

(** All fields of the name are compatible. *)
Lemma compat_pre d fs spec : (∀ f, f ∈ fs → f_name f = lname → compat f = Some 1) →
  sp_raw_len spec + Z.of_nat d ≤ 64 → in_u 32 (sp_bit_offset spec) → search_pre d fs spec.
Proof.
  intros Hc Hl Ho. split; [done|]. split; [done|]. intros f [Hin Hn]%first_field_in H0. by rewrite (Hc f Hin Hn) in H0.
Qed.
End search.

(** * Facts about the fields *)

Lemma flat_members_entry rec b cid t n i fs (P : field → Prop) :
  btf_type_by_id b cid = Some t → btf_is_composite t = true →
  (∀ j m off name, btf_member_at t j = Some m → btf_member_bit_offset t j = Some off →
     btf__name_by_offset b (m_name_off m) = Some name → name ≠ [] → P (mkField [j] off off cid j m name)) →
  (∀ id sub, rec id = Some sub → Forall P sub) → (∀ j off f, P f → P (f_under j off f)) →
  flat_members rec b cid t n i = Some fs → Forall P fs.
Proof.
  intros Ht Hc Hhere Hrec Hu. revert i fs. induction n as [|n IH]; intros i fs Hf; cbn [flat_members] in Hf; [simplify_eq; constructor|].
  destruct (btf_member_bit_offset t i) as [off|] eqn:Eo; cbn [mbind option_bind] in Hf; [|done].
  destruct (btf_member_at t i) as [m|] eqn:Em; cbn [mbind option_bind] in Hf; [|done].
  destruct (btf__name_by_offset b (m_name_off m)) as [name|] eqn:En; cbn [mbind option_bind] in Hf; [|done].
  destruct name as [|c name]; cbn [str_is_empty] in Hf.
  - destruct (rec (m_type m)) as [sub|] eqn:Es; cbn [mbind option_bind] in Hf; [|done].
    destruct (flat_members rec b cid t n (i + 1)) as [rest|] eqn:Er; cbn [mbind option_bind] in Hf; [|done]. simplify_eq.
    apply Forall_app. split; [|by eapply IH]. apply Forall_fmap. eapply Forall_impl; [by eapply Hrec|]. intros f. apply Hu.
  - cbn [mbind option_bind] in Hf.
    destruct (flat_members rec b cid t n (i + 1)) as [rest|] eqn:Er; cbn [mbind option_bind] in Hf; [|done]. simplify_eq.
    constructor; [by eapply Hhere|by eapply IH].
Qed.

(** A field is a named member of its composite type. *)
Definition field_ok (b : btf) (f : field) : Prop :=
  f_name f ≠ [] ∧ btf__name_by_offset b (m_name_off (f_member f)) = Some (f_name f) ∧
  ∃ t, btf_type_by_id b (f_cid f) = Some t ∧ btf_is_composite t = true ∧ btf_member_at t (f_idx f) = Some (f_member f).

Lemma flat_field_ok b n id fs : flat n b id = Some fs → Forall (field_ok b) fs.
Proof.
  revert id fs. induction n as [|n IH]; intros id fs Hf; [done|]. cbn [flat] in Hf.
  destruct (skip_mods_and_typedefs b id) as [[cid t]|] eqn:Es; cbn [mbind option_bind] in Hf; [|done].
  destruct (btf_is_composite t) eqn:Ec; [|done]. apply skip_loop_end in Es as [Et _]. apply wf_by_id in Et.
  eapply flat_members_entry; try done.
  intros j m off name Hm Ho Hn Hne. split; [done|]. split; [done|]. by exists t.
Qed.

Lemma flat_skip b n id cid t : skip_mods_and_typedefs b id = Some (cid, t) → flat n b cid = flat n b id.
Proof. intros Hs. destruct n; [done|]. cbn [flat]. by rewrite (skip_skip _ _ _ _ Hs), Hs. Qed.

(** * Parsing an access path *)

(** The path ends in a named member or an array element, as every C expression does. *)
Fixpoint path_end (b : btf) (raw : list Z) (id : Z) : bool :=
  match raw with
  | [] => true
  | i :: raw' =>
      match skip_mods_and_typedefs b id with
      | Some (_, t) =>
          if btf_is_composite t then
            match btf_member_at t i with
            | Some m => negb ((m_name_off m =? 0) && (length raw' =? 0)%nat) && path_end b raw' (m_type m)
            | None => false
            end
          else match btf_array_of t with Some a => path_end b raw' (a_type a) | None => false end
      | None => false
      end
  end.

Definition f_acc (f : field) : bpf_core_accessor := mkAcc (f_cid f) (f_idx f) (Some (f_name f)).

Lemma flat_members_lookup rec b cid t n i fs k :
  flat_members rec b cid t n i = Some fs → i ≤ k < i + Z.of_nat n →
  ∃ off m name, btf_member_bit_offset t k = Some off ∧ btf_member_at t k = Some m ∧
    btf__name_by_offset b (m_name_off m) = Some name ∧
    (if str_is_empty (Some name)
     then ∃ sub, rec (m_type m) = Some sub ∧ ∀ f, f ∈ sub → f_under k off f ∈ fs
     else mkField [k] off off cid k m name ∈ fs).
Proof.
  revert i fs. induction n as [|n IH]; intros i fs Hf Hk; [lia|]. cbn [flat_members] in Hf.
  destruct (btf_member_bit_offset t i) as [off|] eqn:Eo; cbn [mbind option_bind] in Hf; [|done].
  destruct (btf_member_at t i) as [m|] eqn:Em; cbn [mbind option_bind] in Hf; [|done].
  destruct (btf__name_by_offset b (m_name_off m)) as [name|] eqn:En; cbn [mbind option_bind] in Hf; [|done].
  destruct (if str_is_empty (Some name) then _ else _) as [here|] eqn:Eh; cbn [mbind option_bind] in Hf; [|done].
  destruct (flat_members rec b cid t n (i + 1)) as [rest|] eqn:Er; cbn [mbind option_bind] in Hf; [|done]. simplify_eq.
  destruct (decide (k = i)) as [->|Hne].
  - exists off, m, name. split_and!; [done|done|done|]. destruct (str_is_empty (Some name)).
    + destruct (rec (m_type m)) as [sub|]; cbn [mbind option_bind] in Eh; [|done]. simplify_eq. exists sub. split; [done|].
      intros f Hin. apply elem_of_app. left. by apply (list_elem_of_fmap_2 (f_under i off)).
    + simplify_eq. by left.
  - destruct (IH (i + 1) rest Er ltac:(lia)) as (off' & m' & name' & ? & ? & ? & H).
    exists off', m', name'. split_and!; [done|done|done|]. destruct (str_is_empty (Some name')).
    + destruct H as (sub & ? & H). exists sub. split; [done|]. intros f Hin. apply elem_of_app. right. by apply H.
    + apply elem_of_app. by right.
Qed.

(** The names with offset 0 are the empty ones. *)
Definition names_ok (b : btf) : Prop := btf__name_by_offset b 0 = Some [].

Lemma member_at_nonneg t i m : btf_member_at t i = Some m → 0 ≤ i.
Proof. unfold btf_member_at, bt_word. destruct (Z.leb_spec 0 (3 * i)); [lia|done]. Qed.

Lemma bit_offset_nonneg t i off : btf_member_bit_offset t i = Some off → 0 ≤ i.
Proof.
  unfold btf_member_bit_offset. destruct (btf_member_at t i) eqn:E; [|done]. intros _. by eapply member_at_nonneg.
Qed.

(** Following a path into a composite type reaches one of its fields. *)
Lemma parse_field b n id fs i raw accs off res :
  names_ok b → flat n b id = Some fs → path_end b (i :: raw) id = true → in_u 32 off →
  parse_access b (i :: raw) id accs off = Some (inl res) →
  ∃ f raw', f ∈ fs ∧ i :: raw = f_path f ++ raw' ∧ (length raw' ≤ length raw)%nat ∧
    path_end b raw' (m_type (f_member f)) = true ∧
    parse_access b raw' (m_type (f_member f)) (accs ++ [f_acc f]) (u32 (off + f_off f)) = Some (inl res).
Proof.
  intros Hz. revert id fs i raw accs off. induction n as [|n IH]; intros id fs i raw accs off Hf He Ho Hp; [done|].
  cbn [flat] in Hf. cbn [parse_access path_end] in Hp, He.
  destruct (skip_mods_and_typedefs b id) as [[cid t]|]; cbn [mbind option_bind] in Hf, Hp; [|done].
  destruct (btf_is_composite t); [|done].
  destruct (Z.geb_spec i (btf_vlen t)) as [|Hlt]; [done|].
  destruct (btf_member_bit_offset t i) as [moff|] eqn:Eo; cbn [mbind option_bind] in Hp; [|done].
  pose proof (bit_offset_nonneg _ _ _ Eo) as Hi.
  destruct (flat_members_lookup _ _ _ _ _ _ _ i Hf ltac:(lia)) as (? & m & name & ? & Em & En & H). simplify_eq.
   cbn [mbind option_bind] in Hp. rewrite Em in Hp, He. cbn [mbind option_bind] in Hp.
  apply andb_prop in He as [Hend He]. rewrite En in Hp.
  destruct (Z.eqb_spec (m_name_off m) 0) as [E0|E0]; cbn [negb andb] in Hp, Hend.
  - rewrite E0, Hz in En. simplify_eq. cbn [str_is_empty] in H. destruct H as (sub & Hs & Hsub).
    destruct raw as [|i' raw]; [done|].
    destruct (IH (m_type m) sub i' raw accs (u32 (off + moff)) Hs He (wrap_range 32 _ ltac:(lia)) Hp)
      as (f & raw' & Hin & Heq & Hlen & Hpe & Hpa).
    exists (f_under i moff f), raw'. split_and!; [by apply Hsub|cbn; by rewrite Heq|cbn; lia|done|].
    cbn [f_under f_member f_off]. rewrite <- Hpa. unfold f_acc. cbn. rewrite wrap_add_l. do 2 f_equal. lia.
  - destruct (str_is_empty (Some name)) eqn:Ee; [done|]. exists (mkField [i] moff moff cid i m name), raw.
    split_and!; [exact H|done|done|done|]. cbn [f_member f_off]. rewrite <- Hp. unfold f_acc. cbn.
    rewrite (wrap_small 32 i); [done|]. unfold in_u. pose proof (Z.land_ones (bt_info t) 16 ltac:(lia)) as Hlo.
    unfold btf_vlen in Hlt. change (Z.ones 16) with 65535 in Hlo. rewrite Hlo in Hlt.
    pose proof (Z.mod_pos_bound (bt_info t) (2 ^ 16) ltac:(lia)). lia.
Qed.

(** * Property *)

(** C20. The search for a local member in a target type visits the members in order,
    unfolding anonymous ones, and answers for the first field of the name whether it is
    compatible.  If it is, the spec gets its indices, its bit offset and an accessor; if
    there is none, 0 is returned and the spec is as it was; if it is not compatible, 0 is
    returned but the first of its indices and its offset in its own composite type stay
    in the spec.  No case is undefined but that of the comparison, and the depth of 64 is
    not exceeded.  (For the last case the name is that of one field only.) *)
Theorem match_member_finds lb tb acc lt lm lname n id fs spec next :
  btf_type_by_id lb (acc_type_id acc) = Some lt → btf_member_at lt (acc_idx acc) = Some lm →
  btf__name_by_offset lb (m_name_off lm) = Some lname →
  flat n tb id = Some fs →
  sp_raw_len spec + Z.of_nat n ≤ BPF_CORE_SPEC_MAX_LEN → in_u 32 (sp_bit_offset spec) →
  match first_field lname fs with
  | None => bpf_core_match_member lb acc tb id spec next = Some (0, spec, next)
  | Some f =>
      ∀ r, bpf_core_fields_are_compat lb (m_type lm) tb (m_type (f_member f)) = Some r →
        (r ≠ 0 → bpf_core_match_member lb acc tb id spec next = Some (r, sp_found spec f, m_type (f_member f))) ∧
        (r = 0 → (length (named lname fs) ≤ 1)%nat → sp_raw_len spec + Z.of_nat n < BPF_CORE_SPEC_MAX_LEN →
           bpf_core_match_member lb acc tb id spec next = Some (0, sp_left spec f, m_type (f_member f)))
  end.
Proof.
  unfold BPF_CORE_SPEC_MAX_LEN. intros Hlt Hlm Hln Hf Hl Ho.
  assert (n ≤ 64)%nat as Hn by (unfold sp_raw_len in Hl; lia).
  assert (search_pre lb tb lm lname n fs spec → bpf_core_match_member lb acc tb id spec next = search_result lb tb lm lname fs spec next) as H.
  { intros Hpre. unfold bpf_core_match_member, BPF_CORE_SPEC_MAX_LEN. change (Z.to_nat 64 + 2)%nat with 66%nat.
    apply (match_member_flat lb tb acc lt lm lname Hlt Hlm Hln n); [lia|done..]. }
  unfold search_result in H. unfold search_pre in H. destruct (first_field lname fs) as [f|]; [|apply H; by split].
  intros r Hr. unfold compat in H. rewrite Hr in H. cbn [mbind option_bind] in H. split.
  - intros Hne. destruct (Z.eqb_spec r 0) as [|_]; [done|]. apply H. split; [done|]. split; [done|]. intros f' Hf' H0. injection Hf' as ->. congruence.
  - intros -> Hone Hroom. apply H. split; [done|]. split; [done|]. by intros.
Qed.

(** The member [c] of the example, inside an anonymous member; and in a target where it has
    become a struct. *)
Definition demo_changed : btf := match demo_btf with
  | mkBtf ts a b c d e => mkBtf (<[4%nat := mkType 0 (mk_info BTF_KIND_STRUCT 2 false) 16 [33; 3; 0;  35; 6; 64]]> ts) a b c d e
  end.

Lemma match_member_finds_witness :
  (∃ f, bpf_core_match_member demo_btf (mkAcc 5 0 (Some [99])) demo_btf 3 (sp_empty demo_btf 3 0) 3 =
        Some (1, sp_found (sp_empty demo_btf 3 0) f, 2) ∧ f_path f = [3; 0] ∧ f_off f = 128) ∧
  (∃ spec, bpf_core_match_member demo_btf (mkAcc 5 0 (Some [99])) demo_changed 3 (sp_empty demo_changed 3 0) 3 = Some (0, spec, 3) ∧
           sp_raw_spec spec = [3]).
Proof.
  split.
  - exists (mkField [3; 0] 128 0 5 0 (mkMember 33 2 0) [99]). split; [|done].
    pose proof (match_member_finds demo_btf demo_btf (mkAcc 5 0 (Some [99]))
      (mkType 0 (mk_info BTF_KIND_STRUCT 2 false) 16 [33; 2; 0;  35; 6; 64]) (mkMember 33 2 0) [99] 2 3
      (default [] (flat 2 demo_btf 3)) (sp_empty demo_btf 3 0) 3 eq_refl eq_refl eq_refl eq_refl ltac:(vm_compute; discriminate) ltac:(split; [discriminate|reflexivity])) as H.
    vm_compute in H. exact (proj1 (H 1 eq_refl) ltac:(discriminate)).
  - exists (sp_left (sp_empty demo_changed 3 0) (mkField [3; 0] 128 0 5 0 (mkMember 33 3 0) [99])). split; [|reflexivity].
    pose proof (match_member_finds demo_btf demo_changed (mkAcc 5 0 (Some [99]))
      (mkType 0 (mk_info BTF_KIND_STRUCT 2 false) 16 [33; 2; 0;  35; 6; 64]) (mkMember 33 2 0) [99] 2 3
      (default [] (flat 2 demo_changed 3)) (sp_empty demo_changed 3 0) 3 eq_refl eq_refl eq_refl eq_refl ltac:(vm_compute; discriminate) ltac:(split; [discriminate|reflexivity])) as H.
    vm_compute in H. exact (proj2 (H 0 eq_refl) eq_refl ltac:(lia) eq_refl).
Defined.
