(* ===== verification/RelocSelf.v ===== *)
(** Relocating a program against the BTF it was compiled with: every field access is
    matched to itself, and patching changes no instruction that holds the value of the
    field; for all but bitfields an instruction that holds another one is refused. *)
From stdpp Require Import base list sets strings.
From Stdlib Require Import ZArith Lia.
From S2P Require Import Prelude Bytes Mem Errno Btf Reloc RelocWf RelocTypes RelocCalc RelocPatch RelocCands RelocMatch.

#[local] Open Scope Z_scope.

(** * Object files whose fields can be relocated *)

(** The types C gives to fields: no functions, no void, no bit-offset integers. *)
Fixpoint data_field (n : nat) (b : btf) (id : Z) : bool :=
  match skip_mods_and_typedefs b id with
  | Some (_, t) =>
      if btf_is_composite t || btf_is_ptr t || (btf_kind t =? BTF_KIND_FLOAT) || btf_is_fwd t || btf_is_any_enum t
      then true
      else if btf_is_int t then bool_decide (btf_int_offset t = Some 0)
      else if btf_is_array t then
        match n, btf_array_of t with S n, Some a => data_field n b (a_type a) | _, _ => false end
      else false
  | None => false
  end.

(** Well-formed BTF as a C compiler writes it: the empty name is at offset 0, the field
    names of a composite type (anonymous members unfolded, fewer than [D] deep) are
    different, fields have data types, and sizes are below 2^31. *)
Definition c_object (b : btf) (D : nat) : bool :=
  btf_wf b && bool_decide (btf__name_by_offset b 0 = Some []) &&
  all_below (btf__type_cnt b) (λ id,
    match skip_mods_and_typedefs b id with
    | Some (_, t) =>
        (if btf_is_composite t then
           match flat D b id with
           | Some fs => bool_decide (NoDup (f_name <$> fs)) &&
               forallb (λ f, data_field (Z.to_nat (btf__type_cnt b)) b (m_type (f_member f))) fs
           | None => false
           end
         else true) &&
        match btf__resolve_size b id with Some sz => sz <? 2 ^ 31 | None => false end
    | None => false
    end).

Example demo_c_object : c_object demo_btf 2 = true.
Proof. vm_compute. reflexivity. Qed.

Lemma fields_compat_self b n N id : btf_wf b = true → (n ≤ N)%nat → data_field n b id = true →
  fields_compat_loop N b id b id = Some 1.
Proof.
  intros Hwf. revert N id. induction n as [|n IH]; intros N id Hn Hd; destruct N as [|N]; try lia;
    cbn [data_field] in Hd; cbn [fields_compat_loop].
  all: destruct (skip_mods_and_typedefs b id) as [[id' t]|] eqn:Es; [|done]; cbn [mbind option_bind].
  all: destruct (skip_end _ Hwf _ _ _ Es) as (_ & _ & Hok).
  all: destruct (type_ok_name _ _ Hok) as [name En]; rewrite En; cbn [mbind option_bind].
  all: rewrite andb_diag; destruct (btf_is_composite t) eqn:Ec; [done|].
  all: rewrite (core_compat_same t t eq_refl); cbn [negb orb] in Hd |- *.
  all: unfold btf_is_ptr, btf_is_fwd, btf_is_any_enum, btf_is_enum, btf_is_enum64, btf_is_int, btf_is_array in Hd.
  all: destruct (Z.eqb_spec (btf_kind t) BTF_KIND_PTR); cbn [orb] in Hd |- *; [done|].
  all: destruct (Z.eqb_spec (btf_kind t) BTF_KIND_FLOAT); cbn [orb] in Hd |- *; [done|].
  all: assert (Hname : bool_Z ((bpf_core_essential_name_len name =? 0)%nat || (bpf_core_essential_name_len name =? 0)%nat ||
      ((bpf_core_essential_name_len name =? bpf_core_essential_name_len name)%nat &&
       strncmp_eq name name (bpf_core_essential_name_len name))) = 1)
    by (rewrite (proj2 (essential_eq name name) eq_refl); by rewrite orb_true_r).
  all: destruct (Z.eqb_spec (btf_kind t) BTF_KIND_FWD); cbn [orb] in Hd |- *; [by rewrite Hname|].
  all: destruct (Z.eqb_spec (btf_kind t) BTF_KIND_ENUM64); cbn [orb] in Hd |- *; [by rewrite Hname|].
  all: destruct (Z.eqb_spec (btf_kind t) BTF_KIND_ENUM); cbn [orb] in Hd |- *; [by rewrite Hname|].
  all: destruct (Z.eqb_spec (btf_kind t) BTF_KIND_INT); [apply bool_decide_eq_true in Hd; by rewrite Hd|].
  all: destruct (Z.eqb_spec (btf_kind t) BTF_KIND_ARRAY); [|done]; destruct (btf_array_of t) as [a|]; try done.
  cbn [mbind option_bind]. apply IH; [lia|done].
Qed.

Lemma first_field_unique fs f : NoDup (f_name <$> fs) → f ∈ fs → first_field (f_name f) fs = Some f.
Proof.
  induction fs as [|g fs IH]; cbn; [set_solver|]. intros [Hg Hn]%NoDup_cons [->|Hin]%elem_of_cons.
  - by rewrite decide_True.
  - rewrite decide_False; [by apply IH|]. intros Heq. apply Hg. rewrite Heq. by apply list_elem_of_fmap_2.
Qed.

Section self.
Context (b : btf) (D : nat) (Hself : c_object b D = true).

Lemma self_wf : btf_wf b = true ∧ names_ok b.
Proof.
  unfold c_object in Hself. apply andb_prop in Hself as [[H1 H2]%andb_prop _]. split; [done|].
  by apply bool_decide_eq_true in H2.
Qed.

Lemma self_type id cid t : skip_mods_and_typedefs b id = Some (cid, t) →
  (btf_is_composite t = true → ∃ fs, flat D b id = Some fs ∧ NoDup (f_name <$> fs) ∧
     ∀ f, f ∈ fs → bpf_core_fields_are_compat b (m_type (f_member f)) b (m_type (f_member f)) = Some 1) ∧
  ∀ sz, btf__resolve_size b id = Some sz → sz < 2 ^ 31.
Proof.
  intros Hs. destruct self_wf as [Hwf _].
  assert (Hid : 0 ≤ id < btf__type_cnt b).
  { unfold skip_mods_and_typedefs in Hs.
    assert (∃ t0, btf__type_by_id b id = Some t0) as [t0 Ht0].
    { destruct (Z.to_nat (btf__type_cnt b)); cbn in Hs; destruct (btf__type_by_id b id); eauto; done. }
    by destruct (wf_type _ Hwf _ _ Ht0). }
  unfold c_object in Hself. apply andb_prop in Hself as [_ H]. pose proof (all_below_spec _ _ H id Hid) as H'.
  cbn beta in H'. rewrite Hs in H'. apply andb_prop in H' as [H1 H2]. split.
  - intros Hc. rewrite Hc in H1. destruct (flat D b id) as [fs|]; [|done]. apply andb_prop in H1 as [H3 H4].
    exists fs. split_and!; [done|by apply bool_decide_eq_true in H3|]. intros f Hf. rewrite forallb_forall in H4.
    eapply fields_compat_self; [done| |apply H4; by apply list_elem_of_In]. done.
  - intros sz Hsz. rewrite Hsz in H2. by apply Z.ltb_lt in H2.
Qed.

Lemma path_end_skip raw id id' t : skip_mods_and_typedefs b id = Some (id', t) →
  path_end b raw id' = path_end b raw id.
Proof. intros Hs. destruct raw; [done|]. cbn [path_end]. by rewrite (skip_skip _ _ _ _ Hs), Hs. Qed.

Lemma wrap_mul_add w x i k : wrap w (x + wrap w i * k) = wrap w (x + i * k).
Proof.
  unfold wrap. rewrite (Zplus_mod x (i `mod` 2 ^ w * k)), (Zplus_mod x (i * k)). by rewrite Zmult_mod_idemp_l.
Qed.

Definition is_int32 (i : Z) : Prop := INT_MIN ≤ i ≤ INT_MAX.

Lemma s32_u32 i : is_int32 i → s32 (u32 i) = i.
Proof.
  unfold is_int32, INT_MIN, INT_MAX. intros Hi. rewrite swrap_wrap by lia. apply swrap_small; lia.
Qed.

Lemma match_accessors_self N raw id accs off accs' off' ts :
  (length raw ≤ N)%nat → parse_access b raw id accs off = Some (inl (accs', off')) → path_end b raw id = true →
  sp_spec ts = accs → sp_bit_offset ts = off → in_u 32 off → Forall is_int32 raw → (D ≤ 66)%nat →
  sp_raw_len ts + Z.of_nat (length raw + D) ≤ 64 →
  ∃ news, accs' = accs ++ news ∧
    match_accessors b b news false id ts =
    Some (1, mkSpec (sp_btf ts) accs' (sp_root_type_id ts) (sp_relo_kind ts) (sp_raw_spec ts ++ raw) off').
Proof.
  destruct self_wf as [Hwf Hz].
  revert raw id accs off ts. induction N as [|N IH]; intros raw id accs off ts HN Hp He Hts Hto Ho Hr HD Hl.
  all: destruct raw as [|i raw]; [|cbn in HN; try lia].
  1, 2: cbn in Hp; simplify_eq; exists []; rewrite app_nil_r; split; [done|]; cbn; rewrite app_nil_r; by destruct ts.
  apply Forall_cons in Hr as [Hi Hr]. pose proof Hp as Hp0. cbn [parse_access] in Hp. cbn [length] in Hl.
  destruct (skip_mods_and_typedefs b id) as [[cid t]|] eqn:Es; cbn [mbind option_bind] in Hp; [|done].
  destruct (btf_is_composite t) eqn:Ec.
  - destruct (self_type _ _ _ Es) as [Hf _]. destruct (Hf Ec) as (fs & Hfs & Hnd & Hcompat).
    destruct (parse_field b D id fs i raw accs off (accs', off') Hz Hfs He Ho Hp0)
      as (f & raw' & Hin & Heq & Hlen & Hpe & Hpa).
    pose proof (flat_field_ok _ _ _ _ Hfs) as Hok. rewrite Forall_forall in Hok.
    destruct (Hok f Hin) as (Hne & Hname & lt & Hlt & _ & Hlm).
    assert (Hlenp : (length (f_path f) = S (length raw) - length raw')%nat ∧ (length raw' ≤ length raw)%nat).
    { apply (f_equal length) in Heq. rewrite length_app in Heq. cbn in Heq. lia. }
    destruct (IH raw' (m_type (f_member f)) (accs ++ [f_acc f]) (u32 (off + f_off f)) (sp_found ts f))
      as (news & -> & Hm); try done.
    + lia.
    + unfold sp_found. cbn. by rewrite Hts.
    + unfold sp_found. cbn. by rewrite Hto.
    + apply wrap_range. lia.
    + assert (Hall : Forall is_int32 (i :: raw)) by (by constructor). rewrite Heq in Hall. by apply Forall_app in Hall as [_ ?].
    + unfold sp_raw_len, sp_found in *. cbn. rewrite length_app. lia.
    + exists (f_acc f :: news). split; [by rewrite <- app_assoc|]. cbn [match_accessors f_acc acc_name].
      rewrite Es. cbn [mbind option_bind]. fold (f_acc f). unfold bpf_core_match_member.
      rewrite (match_member_flat b b (f_acc f) lt (f_member f) (f_name f) Hlt Hlm Hname D _ cid fs ts cid).
      * unfold search_result, compat. rewrite (first_field_unique _ _ Hnd Hin), (Hcompat f Hin). cbn.
        rewrite Hm. unfold sp_found. cbn. by rewrite Heq, <- (app_assoc (sp_raw_spec ts)).
      * change (Z.to_nat BPF_CORE_SPEC_MAX_LEN + 2)%nat with 66%nat. done.
      * by rewrite (flat_skip _ _ _ _ _ Es).
      * apply compat_pre; [|lia|by rewrite Hto].
        intros g Hg Hgn. assert (g = f) as ->; [|by apply Hcompat].
        pose proof (first_field_unique _ _ Hnd Hg) as Hg1. pose proof (first_field_unique _ _ Hnd Hin) as Hg2.
        rewrite Hgn in Hg1. congruence.
  - destruct (btf_is_array t) eqn:Ea; [|done]. cbn [path_end] in He. rewrite Es, Ec in He.
    destruct (btf_array_of t) as [a|] eqn:Eaa; cbn [mbind option_bind] in Hp; [|done].
    destruct (skip_mods_and_typedefs b (a_type a)) as [[eid et]|] eqn:Ese; cbn [mbind option_bind] in Hp; [|done].
    destruct (last accs) as [prev|] eqn:El; cbn [mbind option_bind] in Hp; [|done].
    destruct (is_flex_arr b prev a) as [flex|] eqn:Efl; cbn [mbind option_bind] in Hp; [|done].
    destruct (negb flex && (u32 i >=? a_nelems a)) eqn:Eb; [done|].
    destruct (btf__resolve_size b eid) as [sz|] eqn:Esz; cbn [mbind option_bind] in Hp; [|done].
    destruct (Z.ltb_spec sz 0) as [|Hsz0]; [done|].
    assert (Hsz : sz < 2 ^ 31) by (by apply (self_type _ _ _ (skip_skip _ _ _ _ Ese))).
    set (ts' := mkSpec (sp_btf ts) (sp_spec ts ++ [mkAcc eid (u32 i) None]) (sp_root_type_id ts) (sp_relo_kind ts)
                  (sp_raw_spec ts ++ [i]) (u32 (off + i * sz * 8))).
    destruct (IH raw eid (accs ++ [mkAcc eid (u32 i) None]) (u32 (off + i * sz * 8)) ts') as (news & -> & Hm); try done.
    + lia.
    + by rewrite (path_end_skip _ _ _ _ Ese).
    + unfold ts'. cbn. by rewrite Hts.
    + apply wrap_range. lia.
    + unfold sp_raw_len, ts' in *. cbn. rewrite length_app. cbn. lia.
    + exists (mkAcc eid (u32 i) None :: news). split; [by rewrite <- app_assoc|].
      cbn [match_accessors acc_name acc_idx]. rewrite Es. cbn [mbind option_bind]. rewrite Ea. cbn [negb].
      rewrite Eaa, Hts, El. cbn [mbind option_bind]. rewrite Efl. cbn [mbind option_bind]. rewrite Eb, Ese.
      cbn [mbind option_bind].
      destruct (Z.eqb_spec (sp_raw_len ts) BPF_CORE_SPEC_MAX_LEN) as [Hx|_]; [unfold BPF_CORE_SPEC_MAX_LEN in Hx; lia|].
      rewrite Esz. cbn [mbind option_bind]. rewrite (swrap_small 32 sz) by lia.
      destruct (Z.ltb_spec sz 0); [lia|]. rewrite s32_u32 by done. unfold sp_push, sp_add_acc. cbn.
      replace (mkSpec _ _ _ _ _ (u32 (_ + _))) with ts'.
      * rewrite Hm. unfold ts'. cbn. by rewrite <- (app_assoc (sp_raw_spec ts)).
      * unfold ts'. f_equal. rewrite Hto, Z.add_0_r, wrap_add_l, <- !Z.mul_assoc, wrap_mul_add. done.
Qed.
End self.

(** * The parsed spec of a field relocation *)

Lemma sscanf_range s v rest : sscanf_d s = Some (Some (v, rest)) → is_int32 v.
Proof.
  unfold sscanf_d, is_int32.
  destruct (match skip_spaces s with [] => _ | _ => _ end) as [neg s']. destruct s' as [|c s']; [done|].
  destruct (isdigit c); [|done]. destruct (scan_digits 0 (c :: s')) as [x s''].
  destruct (Z.leb_spec INT_MIN (if neg then - x else x)), (Z.leb_spec (if neg then - x else x) INT_MAX); cbn; intros ?;
    by simplify_eq.
Qed.

Lemma parse_raw_range fuel s raw raw' :
  parse_raw_spec fuel s raw = Some (inl raw') → Forall is_int32 raw → Forall is_int32 raw'.
Proof.
  revert s raw. induction fuel as [|fuel IH]; intros s raw; destruct s as [|c s]; cbn [parse_raw_spec]; intros H HF;
    try (by simplify_eq).
  destruct (sscanf_d (if c =? 58 then s else c :: s)) as [[[v rest]|]|] eqn:E; cbn [mbind option_bind] in H; [|done|done].
  destruct (Z.of_nat (length raw) =? BPF_CORE_SPEC_MAX_LEN); [done|].
  apply IH in H; [done|]. apply Forall_app. split; [done|]. constructor; [by eapply sscanf_range|constructor].
Qed.

Lemma field_based_only kind : core_relo_is_field_based kind = true →
  core_relo_is_type_based kind = false ∧ core_relo_is_enumval_based kind = false.
Proof.
  unfold core_relo_is_field_based.
  destruct (Z.eqb_spec kind BPF_CORE_FIELD_BYTE_OFFSET) as [->|]; [done|].
  destruct (Z.eqb_spec kind BPF_CORE_FIELD_BYTE_SIZE) as [->|]; [done|].
  destruct (Z.eqb_spec kind BPF_CORE_FIELD_EXISTS) as [->|]; [done|].
  destruct (Z.eqb_spec kind BPF_CORE_FIELD_SIGNED) as [->|]; [done|].
  destruct (Z.eqb_spec kind BPF_CORE_FIELD_LSHIFT_U64) as [->|]; [done|].
  by destruct (Z.eqb_spec kind BPF_CORE_FIELD_RSHIFT_U64) as [->|].
Qed.

Lemma parse_spec_field b relo spec :
  core_relo_is_field_based (relo_kind relo) = true → bpf_core_parse_spec b relo = Some (inl spec) →
  ∃ i rest id t sz accs off,
    skip_mods_and_typedefs b (relo_type_id relo) = Some (id, t) ∧ btf__resolve_size b id = Some sz ∧ 0 ≤ sz ∧
    parse_access b rest id [mkAcc id (u32 i) None] (u32 (i * sz * 8)) = Some (inl (accs, off)) ∧
    spec = mkSpec b accs (relo_type_id relo) (relo_kind relo) (i :: rest) off ∧ Forall is_int32 (i :: rest).
Proof.
  intros Hk. destruct (field_based_only _ Hk) as [Ht He]. unfold bpf_core_parse_spec. rewrite Ht, He, Hk.
  destruct (btf__name_by_offset b (relo_access_str_off relo)) as [[|c s]|]; [done| |done].
  destruct (c =? 58); [done|].
  destruct (parse_raw_spec (length (c :: s)) (c :: s) []) as [[[|i rest]|]|] eqn:Er; cbn [mbind option_bind]; try done.
  destruct (skip_mods_and_typedefs b (relo_type_id relo)) as [[id t]|]; cbn [mbind option_bind negb]; [|done].
  destruct (btf__resolve_size b id) as [sz|] eqn:Esz; cbn [mbind option_bind]; [|done].
  destruct (Z.ltb_spec sz 0); [done|].
  destruct (parse_access b rest id _ _) as [[[accs off]|]|] eqn:Ea; cbn [mbind option_bind]; intros ?; simplify_eq.
  exists i, rest, id, t, sz, accs, off. split_and!; try done. eapply parse_raw_range; [done|constructor].
Qed.

(** * The value of a field is the same on both sides *)

Definition out_eq (x y : Z * field_out) : Prop :=
  x.1 = y.1 ∧ fo_val x.2 = fo_val y.2 ∧ fo_field_sz x.2 = fo_field_sz y.2 ∧ fo_type_id x.2 = fo_type_id y.2 ∧
  x.1 ≠ - EUCLEAN.

Lemma bitfield_load_err fuel a s z e : bitfield_load fuel a s z = Some (inr e) → e = - E2BIG.
Proof.
  revert z. induction fuel as [|fuel IH]; intros z; cbn [bitfield_load]; destruct (z =? 0); try done; cbv zeta;
    destruct (u32 _ >? u32 _); try done; destruct (z >=? 8); try (by intros ?; simplify_eq); try done. apply IH.
Qed.

Lemma field_geometry_nonzero b t mt fid idx off e : field_geometry b t mt fid idx off = Some (inr e) → e ≠ 0.
Proof.
  unfold field_geometry. destruct (btf_member_bitfield_size t idx) as [s|]; cbn [mbind option_bind]; [|done].
  destruct (s >? 0).
  - destruct (bitfield_load 4 off s (bt_size mt)) as [[[? ?]|e']|] eqn:E; cbn; intros ?; simplify_eq.
    by rewrite (bitfield_load_err _ _ _ _ _ E).
  - destruct (btf__resolve_size b fid) as [sz|]; cbn [mbind option_bind]; [|done].
    destruct (sz <? 0); intros ?; by simplify_eq.
Qed.

Lemma field_geometry_err b t mt fid idx off e : field_geometry b t mt fid idx off = Some (inr e) → e ≠ - EUCLEAN.
Proof.
  unfold field_geometry. destruct (btf_member_bitfield_size t idx) as [s|]; cbn [mbind option_bind]; [|done].
  destruct (s >? 0).
  - destruct (bitfield_load 4 off s (bt_size mt)) as [[[? ?]|e']|] eqn:E; cbn; intros ?; simplify_eq.
    by rewrite (bitfield_load_err _ _ _ _ _ E).
  - destruct (btf__resolve_size b fid) as [sz|]; cbn [mbind option_bind]; [|done].
    destruct (sz <? 0); intros ?; by simplify_eq.
Qed.

Lemma field_value_validate kind mt fid off bo bs bz bf x y :
  field_value kind mt fid off bo bs bz bf true (mkOut 0 0 0 true) = Some x →
  field_value kind mt fid off bo bs bz bf false (mkOut 0 0 0 true) = Some y → out_eq x y.
Proof.
  unfold field_value. cbv zeta.
  destruct (kind =? BPF_CORE_FIELD_BYTE_OFFSET); [destruct bf; intros ??; by simplify_eq|].
  destruct (kind =? BPF_CORE_FIELD_BYTE_SIZE); [intros ??; by simplify_eq|].
  destruct (kind =? BPF_CORE_FIELD_SIGNED).
  { destruct (if btf_is_any_enum mt && btf_kflag mt then _ else _); cbn; [intros ??; by simplify_eq|done]. }
  destruct (kind =? BPF_CORE_FIELD_LSHIFT_U64); [intros ??; by simplify_eq|].
  destruct (kind =? BPF_CORE_FIELD_RSHIFT_U64); intros ??; by simplify_eq.
Qed.

Lemma calc_field_validate kind spec x y :
  bpf_core_calc_field_relo kind (Some spec) true (mkOut 0 0 0 true) = Some x →
  bpf_core_calc_field_relo kind (Some spec) false (mkOut 0 0 0 true) = Some y → out_eq x y.
Proof.
  unfold bpf_core_calc_field_relo. cbn [fo_val fo_type_id fo_validate].
  destruct (kind =? BPF_CORE_FIELD_EXISTS); [intros ??; by simplify_eq|].
  destruct (last (sp_spec spec)) as [acc|]; cbn [mbind option_bind]; [|done].
  destruct (btf_type_by_id (sp_btf spec) (acc_type_id acc)) as [t|]; cbn [mbind option_bind]; [|done].
  destruct (acc_name acc).
  - destruct (btf_member_at t (acc_idx acc)) as [m|]; cbn [mbind option_bind]; [|done].
    destruct (skip_mods_and_typedefs (sp_btf spec) (m_type m)) as [[fid mt]|]; cbn [mbind option_bind]; [|done].
    destruct (field_geometry _ _ _ _ _ _) as [[[[[bo bs] bz] bf]|e]|] eqn:Eg; cbn [mbind option_bind]; [| |done].
    + apply field_value_validate.
    + intros ??; simplify_eq. split_and!; try done. cbn. by eapply field_geometry_err.
  - destruct (kind =? BPF_CORE_FIELD_BYTE_OFFSET), (kind =? BPF_CORE_FIELD_BYTE_SIZE),
      (btf__resolve_size (sp_btf spec) (acc_type_id acc)) as [sz|]; cbn [mbind option_bind]; try done;
      try destruct (sz <? 0); intros ??; by simplify_eq.
Qed.

(** Is the accessed field a bitfield? *)
Definition spec_is_bitfield (spec : bpf_core_spec) : bool :=
  match last (sp_spec spec) with
  | Some (mkAcc id idx (Some _)) =>
      match btf_type_by_id (sp_btf spec) id with
      | Some t => match btf_member_bitfield_size t idx with Some n => 0 <? n | None => false end
      | None => false
      end
  | _ => false
  end.

(** The relocations whose value depends on how a bitfield is loaded. *)
Definition load_dependent (kind : Z) : bool :=
  (kind =? BPF_CORE_FIELD_BYTE_OFFSET) || (kind =? BPF_CORE_FIELD_BYTE_SIZE) || (kind =? BPF_CORE_FIELD_LSHIFT_U64).

Lemma field_geometry_bitfield b t mt fid idx off bo bs bz bf :
  field_geometry b t mt fid idx off = Some (inl (bo, bs, bz, bf)) →
  ∃ n, btf_member_bitfield_size t idx = Some n ∧ bf = (0 <? n).
Proof.
  unfold field_geometry. destruct (btf_member_bitfield_size t idx) as [n|]; cbn [mbind option_bind]; [|done].
  intros H. exists n. split; [done|]. rewrite <- Z.gtb_ltb. destruct (n >? 0).
  - destruct (bitfield_load _ _ _ _) as [[[? ?]|]|]; cbn in H; by simplify_eq.
  - destruct (btf__resolve_size b fid) as [sz|]; cbn [mbind option_bind] in H; [|done]. by destruct (sz <? 0); simplify_eq.
Qed.

Lemma calc_field_validated kind spec o :
  bpf_core_calc_field_relo kind (Some spec) true (mkOut 0 0 0 true) = Some (0, o) →
  fo_validate o = negb (spec_is_bitfield spec && load_dependent kind).
Proof.
  unfold bpf_core_calc_field_relo, spec_is_bitfield, load_dependent. cbn [fo_val fo_type_id fo_validate].
  destruct (Z.eqb_spec kind BPF_CORE_FIELD_EXISTS) as [->|_].
  { intros ?; simplify_eq. cbn. symmetry. apply negb_true_iff, andb_false_r. }
  destruct (last (sp_spec spec)) as [[id idx name]|]; cbn [mbind option_bind acc_type_id acc_idx acc_name]; [|done].
  destruct (btf_type_by_id (sp_btf spec) id) as [t|]; cbn [mbind option_bind]; [|done]. destruct name as [name|].
  - destruct (btf_member_at t idx) as [m|]; cbn [mbind option_bind]; [|done].
    destruct (skip_mods_and_typedefs (sp_btf spec) (m_type m)) as [[fid mt]|]; cbn [mbind option_bind]; [|done].
    destruct (field_geometry _ _ _ _ _ _) as [[[[[bo bs] bz] bf]|e]|] eqn:Eg; cbn [mbind option_bind]; [| |done].
    2: { intros ?; simplify_eq. destruct (field_geometry_nonzero _ _ _ _ _ _ _ Eg). done. }
    destruct (field_geometry_bitfield _ _ _ _ _ _ _ _ _ _ Eg) as (n & -> & ->).
    unfold field_value. cbv zeta. cbn [set_validate].
    destruct (Z.eqb_spec kind BPF_CORE_FIELD_BYTE_OFFSET) as [->|_]; [destruct (0 <? n); intros ?; by simplify_eq|].
    destruct (Z.eqb_spec kind BPF_CORE_FIELD_BYTE_SIZE) as [->|_]; [destruct (0 <? n); intros ?; by simplify_eq|].
    destruct (Z.eqb_spec kind BPF_CORE_FIELD_SIGNED) as [->|_].
    { rewrite andb_false_r. destruct (if btf_is_any_enum mt && btf_kflag mt then _ else _); cbn; [intros ?; by simplify_eq|done]. }
    destruct (Z.eqb_spec kind BPF_CORE_FIELD_LSHIFT_U64) as [->|_]; [destruct (0 <? n); intros ?; by simplify_eq|].
    rewrite andb_false_r. destruct (kind =? BPF_CORE_FIELD_RSHIFT_U64); intros ?; by simplify_eq.
  - destruct (kind =? BPF_CORE_FIELD_BYTE_OFFSET), (kind =? BPF_CORE_FIELD_BYTE_SIZE), (btf__resolve_size (sp_btf spec) id) as [sz|];
      cbn [mbind option_bind]; try done; destruct (sz <? 0); intros ?; by simplify_eq.
Qed.

Lemma calc_relo_self kind spec res :
  core_relo_is_field_based kind = true → bpf_core_calc_relo kind spec (Some spec) = Some (0, res) →
  res_new_val res = res_orig_val res ∧ res_new_sz res = res_orig_sz res ∧ res_poison res = false ∧
  res_fail_memsz_adjust res = false ∧ res_validate res = negb (spec_is_bitfield spec && load_dependent kind).
Proof.
  intros Hk. unfold bpf_core_calc_relo. rewrite Hk.
  destruct (bpf_core_calc_field_relo kind (Some spec) true (mkOut 0 0 0 true)) as [[e o]|] eqn:E1; cbn [mbind option_bind]; [|done].
  cbv zeta.
  destruct (bpf_core_calc_field_relo kind (Some spec) false (mkOut 0 0 0 true)) as [[e' n]|] eqn:E2; cbn [mbind option_bind].
  - destruct (calc_field_validate _ _ _ _ E1 E2) as (He & Hv & Hs & Ht & Hne). cbn in He, Hv, Hs, Ht, Hne. subst e'.
    unfold calc_done. destruct (Z.eqb_spec e 0) as [->|He0]; cbn [negb].
    + rewrite Hs, Z.eqb_refl. change (0 =? - EUCLEAN) with false. cbn. intros ?; simplify_eq. cbn.
      split_and!; [congruence..|done|done|]. by eapply calc_field_validated.
    + destruct (Z.eqb_spec e (- EUCLEAN)); intros ?; by simplify_eq.
  - destruct (Z.eqb_spec e 0) as [->|He0]; cbn [negb]; [done|].
    assert (Hne : e ≠ - EUCLEAN); [|unfold calc_done; destruct (Z.eqb_spec e (- EUCLEAN)); intros ?; by simplify_eq].
    intros ->. revert E1 E2. unfold bpf_core_calc_field_relo. cbn [fo_val fo_type_id fo_validate].
    destruct (kind =? BPF_CORE_FIELD_EXISTS); [done|].
    destruct (last (sp_spec spec)) as [acc|]; cbn [mbind option_bind]; [|done].
    destruct (btf_type_by_id (sp_btf spec) (acc_type_id acc)) as [t|]; cbn [mbind option_bind]; [|done].
    destruct (acc_name acc).
    + destruct (btf_member_at t (acc_idx acc)) as [m|]; cbn [mbind option_bind]; [|done].
      destruct (skip_mods_and_typedefs (sp_btf spec) (m_type m)) as [[fid mt]|]; cbn [mbind option_bind]; [|done].
      destruct (field_geometry _ _ _ _ _ _) as [[[[[bo bs] bz] bf]|er]|] eqn:Eg; cbn [mbind option_bind]; [|done..].
      unfold field_value. cbv zeta. repeat (case_match; try done). all: destruct (btf_int_encoding mt); done.
    + destruct (kind =? BPF_CORE_FIELD_BYTE_OFFSET), (kind =? BPF_CORE_FIELD_BYTE_SIZE),
        (btf__resolve_size (sp_btf spec) (acc_type_id acc)) as [sz|]; cbn [mbind option_bind]; try done;
        destruct (sz <? 0); intros ? ?; discriminate.
Qed.

(** Writing the value that is there changes nothing. *)
Lemma patch_same insns res insns' :
  Forall insn_ok insns → res_validate res = true ∨ insn_value insns = Some (res_orig_val res) →
  res_poison res = false → res_fail_memsz_adjust res = false →
  res_new_val res = res_orig_val res → res_new_sz res = res_orig_sz res →
  bpf_core_patch_insn insns res = Some (insns', 0) → insns' = insns.
Proof.
  intros Hok Hva Hp Hf Hv Hs. destruct insns as [|insn rest]; [done|].
  apply Forall_cons in Hok as [Hi Hrest]. pose proof Hi as (Hc & Ho & Him).
  rewrite patch_ok_cases by done. rewrite Hv.
  intros [(Ha & _ & H & ->)|[(Ha & Hm & (H & _) & ->)|(Ha & Hm & insn1 & rest' & -> & Hl & ->)]].
  - rewrite insn_value_alu in Hva by done. rewrite (set_imm_id insn _ Hi); [done|]. destruct Hva as [Hva|Hva]; [auto|congruence].
  - rewrite insn_value_mem in Hva by done. assert (u64 (i_off insn) = res_orig_val res) as <- by (destruct Hva as [Hva|Hva]; [auto|congruence]).
    unfold new_code. rewrite Hs, Z.eqb_refl. f_equal. destruct insn as [c d s o im].
    unfold set_code, set_off. cbn in *. rewrite swrap_wrap by lia. by rewrite swrap_small by lia.
  - destruct Hl as (_ & _ & _ & _ & _ & _ & _ & H). apply Forall_cons in Hrest as [Hi1 _]. rewrite insn_value_ld in Hva by done.
    destruct (imm64_join (i_imm insn) (i_imm insn1)) as [J1 J2]; [apply Him|apply Hi1|].
    fold (imm64 insn insn1) in J1, J2.
    assert (imm64 insn insn1 = res_orig_val res) as Hi64 by (destruct Hva as [Hva|Hva]; [auto|congruence]).
    rewrite Hi64 in J1, J2. unfold set_imm. rewrite J1, J2. by destruct insn, insn1.
Qed.

(** * Property *)

(** C15. A field relocation of an object against its own BTF: the spec of the access string
    is matched to itself, and the relocation expects and writes the same value without
    poisoning.  It is validated except for a bitfield, when it asks for the offset, the
    size or the left shift of its load.  Patching leaves the program as it is if the
    relocation is validated, and also for a bitfield if the instruction holds the
    expected value.  (An instruction of a bitfield relocation that holds another value is
    given the expected one.) *)
Theorem relo_self b D relo spec :
  c_object b D = true → core_relo_is_field_based (relo_kind relo) = true →
  bpf_core_parse_spec b relo = Some (inl spec) →
  path_end b (tail (sp_raw_spec spec)) (relo_type_id relo) = true → sp_raw_len spec + Z.of_nat D ≤ 64 →
  bpf_core_spec_match spec b (relo_type_id relo) = Some (1, spec) ∧
  ∀ cands res, relo_parsed relo b spec →
    bpf_core_calc_relo_insn relo b [(b, relo_type_id relo)] = Some (cands, 0, Some res) →
    res_new_val res = res_orig_val res ∧ res_new_sz res = res_orig_sz res ∧ res_poison res = false ∧
    res_validate res = negb (spec_is_bitfield spec && load_dependent (relo_kind relo)) ∧
    ∀ insns insns', Forall insn_ok insns → res_validate res = true ∨ insn_value insns = Some (res_orig_val res) →
      bpf_core_patch_insn insns res = Some (insns', 0) → insns' = insns.
Proof.
  intros Hself Hk Hp He Hl. destruct (field_based_only _ Hk) as [Ht Hen].
  assert (Hm : bpf_core_spec_match spec b (relo_type_id relo) = Some (1, spec)).
  { destruct (parse_spec_field _ _ _ Hk Hp) as (i & rest & id & t & sz & accs & off & Hs & Hsz & Hsz0 & Ha & -> & Hr).
    cbn [sp_raw_spec tail] in He. unfold sp_raw_len in Hl. cbn [sp_raw_spec length] in Hl.
    apply Forall_cons in Hr as [Hi Hr].
    assert (Hsz1 : sz < 2 ^ 31) by (by apply (self_type b D Hself _ _ _ (skip_skip _ _ _ _ Hs))).
    set (ts := mkSpec b [mkAcc id (u32 i) None] (relo_type_id relo) (relo_kind relo) [i] (u32 (i * sz * 8))).
    destruct (match_accessors_self b D Hself (length rest) rest id [mkAcc id (u32 i) None] (u32 (i * sz * 8)) accs off ts)
      as (news & -> & Hm); try done.
    - by rewrite (path_end_skip b _ _ _ _ Hs).
    - apply wrap_range. lia.
    - lia.
    - unfold sp_raw_len. cbn. lia.
    - unfold bpf_core_spec_match. cbn [sp_relo_kind sp_btf sp_spec app]. rewrite Ht, Hen, Hk. cbn [negb].
      cbn [match_accessors acc_name acc_idx]. rewrite Hs. cbn [mbind option_bind].
      change (sp_raw_len (sp_empty b (relo_type_id relo) (relo_kind relo)) =? BPF_CORE_SPEC_MAX_LEN) with false.
      cbn iota.
      rewrite Hsz. cbn [mbind option_bind]. rewrite (swrap_small 32 sz) by lia.
      destruct (Z.ltb_spec sz 0); [lia|]. rewrite s32_u32 by done. cbn.
      replace (u32 (u32 (0 + 0) + u32 i * sz * 8)) with (u32 (i * sz * 8)); [exact Hm|].
      rewrite wrap_add_l, <- !Z.mul_assoc, wrap_mul_add. done. }
  split; [exact Hm|]. intros cands res Hpr Hres.
  apply (relo_choice_iff relo b spec _ _ _ Hpr) in Hres as (evals & HF & H).
  destruct evals as [|e [|? ?]]; inversion HF as [|? ? ? ? Hev HF']; subst; [|by inversion HF'].
  unfold cand_eval in Hev. cbn [fst snd] in Hev. rewrite Hm in Hev. cbn [mbind option_bind Z.ltb Z.eqb Z.compare] in Hev.
  destruct (bpf_core_calc_relo (relo_kind relo) spec (Some spec)) as [[err r]|] eqn:Ec; cbn [mbind option_bind] in Hev; [|done].
  destruct (Z.eqb_spec err 0) as [->|]; cbn [negb] in Hev; [|done]. simplify_eq.
  cbn in H. destruct H as (_ & -> & _). cbn [fst].
  destruct (calc_relo_self _ _ _ Hk Ec) as (H1 & H2 & H3 & H4 & H5). split_and!; try done.
  intros insns insns' Hok Hva. by apply patch_same.
Qed.

(** [s->arr[1]] of the example, whose instruction adds the offset 12; and the offset 4 of
    the load of the bitfield [s->b], which is not validated. *)
Definition demo_bit_relo : bpf_core_relo := mkRelo 0 3 41 BPF_CORE_FIELD_BYTE_OFFSET.
Definition demo_bit_spec : bpf_core_spec :=
  mkSpec demo_btf [mkAcc 3 0 None; mkAcc 3 1 (Some [98])] 3 BPF_CORE_FIELD_BYTE_OFFSET [0; 1] 35.
Definition demo_bit_res : bpf_core_relo_res := mkRes 4 4 false false false 0 0 0 0.

Lemma relo_self_witness :
  (bpf_core_spec_match demo_spec demo_btf 3 = Some (1, demo_spec) ∧
   bpf_core_calc_relo_insn demo_relo demo_btf [(demo_btf, 3)] = Some ([(demo_btf, 3)], 0, Some demo_res) ∧
   ∀ insns', bpf_core_patch_insn [mkInsn 0x07 1 0 0 12] demo_res = Some (insns', 0) → insns' = [mkInsn 0x07 1 0 0 12]) ∧
  (res_validate demo_bit_res = negb (spec_is_bitfield demo_bit_spec && load_dependent BPF_CORE_FIELD_BYTE_OFFSET) ∧
   (∀ insns', bpf_core_patch_insn [mkInsn 0x07 1 0 0 4] demo_bit_res = Some (insns', 0) → insns' = [mkInsn 0x07 1 0 0 4]) ∧
   bpf_core_patch_insn [mkInsn 0x07 1 0 0 0] demo_bit_res = Some ([mkInsn 0x07 1 0 0 4], 0)).
Proof.
  assert (∀ imm, 0 ≤ imm < 100 → Forall insn_ok [mkInsn 0x07 1 0 0 imm]) as Hok.
  { intros imm Hi. repeat constructor; cbn; lia. }
  split.
  - destruct (relo_self demo_btf 2 demo_relo demo_spec) as [Hm H];
      [exact demo_c_object|reflexivity|exact (rp_spec _ _ _ demo_parsed)|vm_compute; reflexivity|vm_compute; discriminate|].
    split; [exact Hm|]. split; [vm_compute; reflexivity|].
    destruct (H [(demo_btf, 3)] demo_res demo_parsed ltac:(vm_compute; reflexivity)) as (_ & _ & _ & _ & Hs).
    intros insns'. apply Hs; [apply (Hok 12); lia|by left].
  - destruct (relo_self demo_btf 2 demo_bit_relo demo_bit_spec) as [_ H];
      [exact demo_c_object|reflexivity|vm_compute; reflexivity|vm_compute; reflexivity|vm_compute; discriminate|].
    destruct (H [(demo_btf, 3)] demo_bit_res) as (_ & _ & _ & Hv & Hs);
      [split; [|vm_compute; reflexivity|done]; eexists _, [115]; split_and!; [vm_compute; reflexivity..|done]|vm_compute; reflexivity|].
    split; [exact Hv|]. split; [|vm_compute; reflexivity]. intros insns'. apply Hs; [apply (Hok 4); lia|by right].
Defined.
