(* ===== verification/RelocField.v ===== *)
(** Bitfields through CO-RE: the byte offset, size and shifts that
    [bpf_core_calc_field_relo] computes, used by the macro [BPF_CORE_READ_BITFIELD] of
    src/libbpf/src/bpf_core_read.h (lines 85-113, the little-endian case), read exactly
    the bits of the field. *)
From stdpp Require Import base list.
From Stdlib Require Import ZArith Lia.
From S2P Require Import Prelude Bytes Btf Reloc RelocCalc.

#[local] Open Scope Z_scope.

(** [mem] is the memory from [s] on, and the relocated constants are arguments. Another
    size leaves [val] uninitialised; a shift by 64 or more is undefined. *)
Definition BPF_CORE_READ_BITFIELD (mem : list Z) (byte_off byte_sz lshift rshift : Z) (signed : bool) : option Z :=
  val ← (if byte_sz =? 1 then load8 mem byte_off else if byte_sz =? 2 then load16 mem byte_off
         else if byte_sz =? 4 then load32 mem byte_off else if byte_sz =? 8 then load64 mem byte_off else None);
  if (lshift <? 64) && (rshift <? 64) then
    let val := u64 (Z.shiftl val lshift) in
    Some (if signed then u64 (Z.shiftr (s64 val) rshift) else Z.shiftr val rshift)
  else None.

(** The last accessor of [spec] names a bitfield of [bit_sz] bits in a unit of [2 ^ k]
    bytes. *)
Record bitfield_access (spec : bpf_core_spec) (bit_sz k : Z) : Prop := {
  ba_last : ∃ acc t m id mt,
    last (sp_spec spec) = Some acc ∧ acc_name acc ≠ None ∧
    btf_type_by_id (sp_btf spec) (acc_type_id acc) = Some t ∧
    btf_member_at t (acc_idx acc) = Some m ∧
    skip_mods_and_typedefs (sp_btf spec) (m_type m) = Some (id, mt) ∧
    btf_member_bitfield_size t (acc_idx acc) = Some bit_sz ∧ bt_size mt = 2 ^ k;
  ba_sz : 0 < bit_sz;
  ba_k : 0 ≤ k ≤ 3;
  ba_off : 0 ≤ sp_bit_offset spec ∧ sp_bit_offset spec + bit_sz < 2 ^ 32;
}.

(** The bits of the field in the memory. *)
Definition field_bits (mem : list Z) (off bit_sz : Z) : Z := wrap bit_sz (Z.shiftr (le_val mem) off).

(** * Bits of little-endian memory *)

Lemma le_val_nonneg bs : bytes_ok bs → 0 ≤ le_val bs.
Proof. intros H. by apply le_val_range in H as [? _]. Qed.

Lemma le_val_app a b : le_val (a ++ b) = le_val a + 2 ^ (8 * Z.of_nat (length a)) * le_val b.
Proof.
  induction a as [|x a IH]; cbn [app le_val length]; [cbn; lia|]. rewrite IH, pow256. lia.
Qed.

Lemma le_val_take_drop n o mem :
  bytes_ok mem → (o + n ≤ length mem)%nat →
  le_val (take n (drop o mem)) = wrap (8 * Z.of_nat n) (Z.shiftr (le_val mem) (8 * Z.of_nat o)).
Proof.
  intros Hm Hl.
  assert (Hb : bytes_ok (take o mem) ∧ bytes_ok (take n (drop o mem)) ∧ bytes_ok (drop n (drop o mem))).
  { split_and!; repeat first [apply Forall_take|apply Forall_drop]; exact Hm. }
  destruct Hb as (H1 & H2 & H3).
  rewrite <- (take_drop o mem) at 2. rewrite <- (take_drop n (drop o mem)) at 2.
  rewrite !le_val_app, !length_take, length_drop.
  replace (o `min` length mem)%nat with o by lia.
  replace (n `min` (length mem - o))%nat with n by lia.
  apply le_val_range in H1 as H1r, H2 as H2r. rewrite length_take in H1r.
  rewrite length_take, length_drop in H2r. unfold in_u in *.
  replace (o `min` length mem)%nat with o in H1r by lia.
  replace (n `min` (length mem - o))%nat with n in H2r by lia.
  rewrite Z.shiftr_div_pow2 by lia.
  rewrite (Z.mul_comm (2 ^ (8 * Z.of_nat o))), Z.div_add by lia.
  rewrite (Z.div_small (le_val (take o mem))) by lia. unfold wrap.
  rewrite Z.add_0_l, (Z.mul_comm (2 ^ (8 * Z.of_nat n))), Z.mod_add by lia.
  rewrite Z.mod_small; lia.
Qed.

(** Shifting left by [64 - e] and right by [64 - n] keeps the [n] bits below bit [e]. *)
Lemma shift_extract v e n :
  0 ≤ v → 0 < n ≤ e → e ≤ 64 →
  Z.shiftr (u64 (Z.shiftl v (64 - e))) (64 - n) = wrap n (Z.shiftr v (e - n)).
Proof.
  intros Hv Hn He. apply Z.bits_inj'. intros i Hi.
  rewrite Z.shiftr_spec, !wrap_testbit, Z.shiftl_spec by lia.
  destruct (Z.ltb_spec i n).
  - rewrite Z.shiftr_spec by lia. destruct (Z.ltb_spec (i + (64 - n)) 64); [|lia].
    cbn. f_equal. lia.
  - destruct (Z.ltb_spec (i + (64 - n)) 64); [lia|]. done.
Qed.

(** The arithmetic shift sign-extends the field. *)
Lemma shift_extract_signed v e n :
  0 ≤ v → 0 < n ≤ e → e ≤ 64 →
  Z.shiftr (s64 (u64 (Z.shiftl v (64 - e)))) (64 - n) = swrap n (Z.shiftr v (e - n)).
Proof.
  intros Hv Hn He. pose proof (shift_extract v e n Hv Hn He) as H.
  set (u := u64 (Z.shiftl v (64 - e))) in *.
  assert (Hu : in_u 64 u) by (apply wrap_range; lia). unfold in_u in Hu.
  assert (Hp : 2 ^ 64 = 2 ^ (64 - n) * 2 ^ n) by (rewrite <- Z.pow_add_r by lia; f_equal; lia).
  assert (Hp' : 2 ^ 63 = 2 ^ (64 - n) * 2 ^ (n - 1)) by (rewrite <- Z.pow_add_r by lia; f_equal; lia).
  pose proof (pow2_pos (64 - n) ltac:(lia)). pose proof (pow2_pos (n - 1) ltac:(lia)).
  unfold swrap at 2. rewrite <- H. rewrite !Z.shiftr_div_pow2 by lia. unfold swrap.
  rewrite (wrap_small 64 u Hu). change (64 - 1) with 63.
  destruct (Z.ltb_spec u (2 ^ 63)) as [Hlt|Hge].
  - destruct (Z.ltb_spec (u / 2 ^ (64 - n)) (2 ^ (n - 1))) as [_|Hc]; [done|].
    exfalso. pose proof (Z.mul_div_le u (2 ^ (64 - n)) ltac:(lia)). nia.
  - destruct (Z.ltb_spec (u / 2 ^ (64 - n)) (2 ^ (n - 1))) as [Hc|_].
    + exfalso. pose proof (Z.mul_succ_div_gt u (2 ^ (64 - n)) ltac:(lia)). nia.
    + rewrite Hp. replace (u - 2 ^ (64 - n) * 2 ^ n) with (u + (- 2 ^ n) * 2 ^ (64 - n)) by lia.
      rewrite Z.div_add by lia. lia.
Qed.

(** * The load window *)

(** A field that is not split by an aligned eight-byte boundary gets an aligned window
    of 1, 2, 4 or 8 bytes; one that is split gets none. *)
(** The window of [byte_sz] bytes the loop looks at. *)
Lemma window_bounds bit_off bit_sz k :
  0 ≤ k ≤ 3 → 0 < bit_sz → 0 ≤ bit_off → bit_off + bit_sz < 2 ^ 32 →
  let byte_off := bit_off / 8 / 2 ^ k * 2 ^ k in
  0 ≤ byte_off ∧ byte_off * 8 ≤ bit_off ∧ bit_off < (byte_off + 2 ^ k) * 8 ∧
  u32 byte_off = byte_off ∧
  u32 (bit_off + bit_sz - byte_off * 8) = bit_off + bit_sz - byte_off * 8 ∧ u32 (2 ^ k * 8) = 2 ^ k * 8.
Proof.
  intros Hk Hs Ho Hb. cbv zeta.
  assert (Hc : k = 0 ∨ k = 1 ∨ k = 2 ∨ k = 3) by lia.
  destruct Hc as [-> | [-> | [-> | -> ]]]; cbn [Z.pow Z.pow_pos Pos.iter Z.mul Pos.mul] in *;
    split_and!; try (Z.div_mod_to_equations; lia); apply wrap_small; unfold in_u; Z.div_mod_to_equations; lia.
Qed.

(** A field that is not split by an aligned eight-byte boundary gets an aligned window
    of 1, 2, 4 or 8 bytes; one that is split gets none. *)
Lemma bitfield_load_spec fuel bit_off bit_sz k :
  0 ≤ k ≤ 3 → 3 - k ≤ Z.of_nat fuel → 0 < bit_sz → 0 ≤ bit_off → bit_off + bit_sz < 2 ^ 32 →
  (bitfield_load fuel bit_off bit_sz (2 ^ k) = Some (inr (- E2BIG)) ∧
     bit_off / 64 ≠ (bit_off + bit_sz - 1) / 64) ∨
  ∃ byte_off j, bitfield_load fuel bit_off bit_sz (2 ^ k) = Some (inl (byte_off, 2 ^ j)) ∧ k ≤ j ≤ 3 ∧
     0 ≤ byte_off ∧ byte_off `mod` 2 ^ j = 0 ∧ byte_off * 8 ≤ bit_off ∧ bit_off + bit_sz ≤ byte_off * 8 + 2 ^ j * 8.
Proof.
  revert k. induction fuel as [|fuel IH]; intros k Hk Hf Hs Ho Hb.
  all: destruct (window_bounds bit_off bit_sz k Hk Hs Ho Hb) as (W1 & W2 & W3 & W4 & W5 & W6).
  all: pose proof (pow2_pos k ltac:(lia)); cbn [bitfield_load].
  all: destruct (Z.eqb_spec (2 ^ k) 0); [lia|]; cbv zeta; rewrite W4, W5, W6, Z.gtb_ltb.
  all: destruct (Z.ltb_spec (2 ^ k * 8) (bit_off + bit_sz - bit_off / 8 / 2 ^ k * 2 ^ k * 8)).
  2, 4: right; exists (bit_off / 8 / 2 ^ k * 2 ^ k), k; split_and!; try done; try lia; apply Z.mod_mul; lia.
  - left. replace k with 3 in * by lia. split; [done|]. change (2 ^ 3) with 8 in *. Z.div_mod_to_equations; lia.
  - destruct (Z.geb_spec (2 ^ k) 8) as [Hge|Hlt].
    + left. split; [done|]. assert (k = 3) as ->.
      { destruct (decide (k = 3)); [done|]. pose proof (Z.pow_le_mono_r 2 k 2 ltac:(lia) ltac:(lia)). lia. }
      change (2 ^ 3) with 8 in *. Z.div_mod_to_equations; lia.
    + assert (k ≠ 3) by (intros ->; lia).
      assert (u32 (2 ^ k * 2) = 2 ^ (k + 1)) as ->.
      { rewrite Z.pow_add_r by lia. apply wrap_small. unfold in_u. change (2 ^ 1) with 2. lia. }
      destruct (IH (k + 1)) as [IHl|(bo & j & ? & ? & ?)]; [lia|lia|done|done|done|by left|].
      right. exists bo, j. split_and!; try done; lia.
Qed.

(** The macro on the window and the shifts. *)
Lemma read_bitfield mem byte_off j bit_off bit_sz signed :
  bytes_ok mem → 0 ≤ j ≤ 3 → 0 ≤ byte_off → byte_off + 2 ^ j ≤ Z.of_nat (length mem) →
  0 < bit_sz → byte_off * 8 ≤ bit_off → bit_off + bit_sz ≤ byte_off * 8 + 2 ^ j * 8 →
  BPF_CORE_READ_BITFIELD mem byte_off (2 ^ j) (64 - (bit_off + bit_sz - byte_off * 8)) (64 - bit_sz) signed =
  Some (if signed then u64 (swrap bit_sz (field_bits mem bit_off bit_sz)) else field_bits mem bit_off bit_sz).
Proof.
  intros Hm Hj Ho Hl Hs H1 H2. set (e := bit_off + bit_sz - byte_off * 8).
  assert (Hw : 2 ^ j * 8 ≤ 64) by (pose proof (Z.pow_le_mono_r 2 j 3 ltac:(lia) ltac:(lia)); lia).
  set (v := wrap (8 * 2 ^ j) (Z.shiftr (le_val mem) (8 * byte_off))).
  assert (Hload : ∀ n, Z.of_nat n = 2 ^ j → load n mem byte_off = Some v).
  { intros n Hn. unfold load, slice.
    destruct (Z.leb_spec 0 byte_off), (Z.leb_spec (byte_off + Z.of_nat n) (Z.of_nat (length mem))); try lia.
    cbn. f_equal. rewrite le_val_take_drop by (done || lia). unfold v. rewrite Hn, Z2Nat.id by lia. done. }
  assert (Hval : (if 2 ^ j =? 1 then load8 mem byte_off else if 2 ^ j =? 2 then load16 mem byte_off
         else if 2 ^ j =? 4 then load32 mem byte_off else if 2 ^ j =? 8 then load64 mem byte_off else None) = Some v).
  { assert (Hc : j = 0 ∨ j = 1 ∨ j = 2 ∨ j = 3) by lia.
    destruct Hc as [-> | [-> | [-> | -> ]]]; cbn [Z.pow Z.pow_pos Pos.iter Z.mul Pos.mul Z.eqb Pos.eqb];
      apply Hload; done. }
  unfold BPF_CORE_READ_BITFIELD. rewrite Hval. cbn [mbind option_bind].
  destruct (Z.ltb_spec (64 - e) 64), (Z.ltb_spec (64 - bit_sz) 64); try lia. cbn [andb]. cbv zeta.
  assert (Hv : 0 ≤ v) by (apply wrap_range; lia).
  assert (Hfb : wrap bit_sz (Z.shiftr v (e - bit_sz)) = field_bits mem bit_off bit_sz).
  { unfold field_bits, v. apply Z.bits_inj'. intros i Hi. rewrite !wrap_testbit by lia.
    destruct (Z.ltb_spec i bit_sz); [|done]. cbn [andb]. rewrite Z.shiftr_spec, wrap_testbit by lia.
    destruct (Z.ltb_spec (i + (e - bit_sz)) (8 * 2 ^ j)); [|lia]. cbn [andb].
    rewrite !Z.shiftr_spec by lia. f_equal. lia. }
  f_equal. destruct signed.
  - rewrite shift_extract_signed by lia. f_equal. rewrite <- Hfb. unfold swrap. by rewrite wrap_wrap by lia.
  - rewrite shift_extract by lia. exact Hfb.
Qed.

(** * Property *)

(** C16. Reading a bitfield with the relocated byte offset, byte size and shifts gives the
    bits of the field (sign-extended when it is signed), for every memory; the window
    is aligned and as large as 1, 2, 4 or 8 bytes, and relocating fails with [-E2BIG]
    exactly for fields that an aligned eight-byte load cannot read. *)
Theorem bitfield_extract spec bit_sz k :
  bitfield_access spec bit_sz k →
  let off := sp_bit_offset spec in
  let calc kind := bpf_core_calc_field_relo kind (Some spec) false (mkOut 0 0 0 true) in
  (off / 64 ≠ (off + bit_sz - 1) / 64 ∧
   ∀ kind, kind ≠ BPF_CORE_FIELD_EXISTS → ∃ o, calc kind = Some (- E2BIG, o)) ∨
  ∃ byte_off j o1 o2 o3 o4,
    0 ≤ j ≤ 3 ∧ byte_off `mod` 2 ^ j = 0 ∧
    calc BPF_CORE_FIELD_BYTE_OFFSET = Some (0, o1) ∧ fo_val o1 = byte_off ∧
    calc BPF_CORE_FIELD_BYTE_SIZE = Some (0, o2) ∧ fo_val o2 = 2 ^ j ∧
    calc BPF_CORE_FIELD_LSHIFT_U64 = Some (0, o3) ∧ calc BPF_CORE_FIELD_RSHIFT_U64 = Some (0, o4) ∧
    ∀ mem signed, bytes_ok mem → byte_off + 2 ^ j ≤ Z.of_nat (length mem) →
      BPF_CORE_READ_BITFIELD mem (fo_val o1) (fo_val o2) (fo_val o3) (fo_val o4) signed =
      Some (if signed then u64 (swrap bit_sz (field_bits mem off bit_sz)) else field_bits mem off bit_sz).
Proof.
  intros [(acc & t & m & id & mt & Hl & Hn & Ht & Hm & Hs & Hbs & Hmt) Hsz Hk [Ho1 Ho2]] off calc.
  assert (Hcalc : ∀ kind, kind ≠ BPF_CORE_FIELD_EXISTS → calc kind =
    r ← bitfield_load 4 off bit_sz (2 ^ k);
    match r with
    | inl (byte_off, byte_sz) => field_value kind mt id off byte_off byte_sz bit_sz true false (mkOut 0 0 0 true)
    | inr e => Some (e, mkOut 0 0 0 true)
    end).
  { intros kind Hkind. unfold calc, bpf_core_calc_field_relo.
    destruct (Z.eqb_spec kind BPF_CORE_FIELD_EXISTS); [done|]. rewrite Hl. cbn [mbind option_bind]. rewrite Ht.
    cbn [mbind option_bind]. destruct (acc_name acc); [|done]. rewrite Hm. cbn [mbind option_bind]. rewrite Hs.
    cbn [mbind option_bind]. unfold field_geometry. rewrite Hbs. cbn [mbind option_bind].
    destruct (Z.gtb_spec bit_sz 0); [|lia]. rewrite Hmt. fold off.
    destruct (bitfield_load 4 off bit_sz (2 ^ k)) as [[[bo bs]|e]|]; done. }
  destruct (bitfield_load_spec 4 off bit_sz k) as [[Hb Hne]|(bo & j & Hb & Hj & H1 & H2 & H3 & H4)]; try lia.
  - left. split; [done|]. intros kind Hkind. rewrite (Hcalc kind Hkind), Hb. cbn. eauto.
  - right. assert (Hw : 2 ^ j * 8 ≤ 64) by (pose proof (Z.pow_le_mono_r 2 j 3 ltac:(lia) ltac:(lia)); lia).
    assert (0 < 2 ^ j) by (apply pow2_pos; lia).
    assert (Hu : ∀ x, 0 ≤ x < 2 ^ 32 → u64 x = x ∧ u64 (u32 x) = x).
    { intros x Hx. rewrite (wrap_small 32 x) by exact Hx. split; apply wrap_small; unfold in_u; lia. }
    eexists bo, j, _, _, _, _. rewrite !Hcalc, Hb by done. cbn. split_and!; try done; try lia.
    + apply Hu. lia.
    + apply Hu. lia.
    + intros mem signed Hmem Hlen. cbn [fo_val set_val set_validate set_field].
      rewrite (proj1 (Hu bo ltac:(lia))), (proj1 (Hu (2 ^ j) ltac:(lia))),
        (proj2 (Hu (64 - (off + bit_sz - bo * 8)) ltac:(lia))), (proj2 (Hu (64 - bit_sz) ltac:(lia))).
      apply read_bitfield; (done || lia).
Qed.

(** [s->b] of the example. *)
Definition demo_bitfield_spec : bpf_core_spec :=
  mkSpec demo_btf [mkAcc 3 0 None; mkAcc 3 1 (Some [98])] 3 BPF_CORE_FIELD_BYTE_OFFSET [0; 1] 35.

Lemma bitfield_extract_witness :
  bpf_core_parse_spec demo_btf (mkRelo 0 3 41 BPF_CORE_FIELD_BYTE_OFFSET) = Some (inl demo_bitfield_spec) ∧
  bitfield_access demo_bitfield_spec 5 2 ∧
  let calc kind := bpf_core_calc_field_relo kind (Some demo_bitfield_spec) false (mkOut 0 0 0 true) in
  (35 / 64 ≠ (35 + 5 - 1) / 64 ∧ ∀ kind, kind ≠ BPF_CORE_FIELD_EXISTS → ∃ o, calc kind = Some (- E2BIG, o)) ∨
  ∃ byte_off j o1 o2 o3 o4,
    0 ≤ j ≤ 3 ∧ byte_off `mod` 2 ^ j = 0 ∧
    calc BPF_CORE_FIELD_BYTE_OFFSET = Some (0, o1) ∧ fo_val o1 = byte_off ∧
    calc BPF_CORE_FIELD_BYTE_SIZE = Some (0, o2) ∧ fo_val o2 = 2 ^ j ∧
    calc BPF_CORE_FIELD_LSHIFT_U64 = Some (0, o3) ∧ calc BPF_CORE_FIELD_RSHIFT_U64 = Some (0, o4) ∧
    ∀ mem signed, bytes_ok mem → byte_off + 2 ^ j ≤ Z.of_nat (length mem) →
      BPF_CORE_READ_BITFIELD mem (fo_val o1) (fo_val o2) (fo_val o3) (fo_val o4) signed =
      Some (if signed then u64 (swrap 5 (field_bits mem 35 5)) else field_bits mem 35 5).
Proof.
  split; [vm_compute; reflexivity|].
  assert (bitfield_access demo_bitfield_spec 5 2) as H.
  { split; [|lia|lia|cbn; lia]. do 5 eexists. split_and!; try (vm_compute; reflexivity). done. }
  split; [exact H|exact (bitfield_extract demo_bitfield_spec 5 2 H)].
Defined.
