(* ===== verification/BtfDump.v ===== *)
(** The state of a BTF dump and the order in which it defines types
    (src/libbpf/src/btf_dump.c lines 29-590).

    A dump turns the types of a BTF object into C declarations.  [dump_type] first
    puts the definitions that a type needs into a queue, each behind those that it
    needs itself, and then emits the queue.  [d_alloc] says, in turn, which allocations
    succeed. *)
From stdpp Require Import base list sets.
From Stdlib Require Import ZArith Lia.
From S2P Require Import Prelude Mem Hashmap Btf.

#[local] Open Scope Z_scope.

Inductive order_state_t := NOT_ORDERED | ORDERING | ORDERED.
Inductive emit_state_t := NOT_EMITTED | EMITTING | EMITTED.

#[export] Instance order_state_eq_dec : EqDecision order_state_t.
Proof. solve_decision. Defined.
#[export] Instance emit_state_eq_dec : EqDecision emit_state_t.
Proof. solve_decision. Defined.

Record aux_state := mkAux {
  order_state : order_state_t; emit_state : emit_state_t; fwd_emitted : bool; name_resolved : bool; referenced : bool;
}.

(** [calloc]ed memory. *)
Definition aux_zero : aux_state := mkAux NOT_ORDERED NOT_EMITTED false false false.

(** The array of the stack of declarations: how many ids it has and can have, and how
    often it has been moved.  The ids themselves are in the frames. *)
Record decl_stack := mkStack { st_cnt : Z; st_cap : Z; st_moved : Z }.

(** [d_queue] is the used part of its array, [d_out] what has been printed. *)
Record btf_dump := mkDump {
  d_btf : btf; d_ptr_sz : Z; d_strip_mods : bool; d_skip_anon_defs : bool; d_last_id : Z;
  d_states : list aux_state; d_names : list (option (list Z));
  d_queue : list Z; d_queue_cap : Z; d_stack : decl_stack;
  d_type_names : hashmap (list Z) Z; d_ident_names : hashmap (list Z) Z;
  d_out : list Z; d_alloc : list bool;
}.

Definition with_alloc (d : btf_dump) (al : list bool) : btf_dump :=
  mkDump (d_btf d) (d_ptr_sz d) (d_strip_mods d) (d_skip_anon_defs d) (d_last_id d) (d_states d) (d_names d) (d_queue d)
    (d_queue_cap d) (d_stack d) (d_type_names d) (d_ident_names d) (d_out d) al.

(** The next allocation, and the dump behind it. *)
Definition take_alloc (d : btf_dump) : bool * btf_dump :=
  match d_alloc d with
  | [] => (true, d)
  | ok :: al => (ok, with_alloc d al)
  end.

Definition with_states (d : btf_dump) (l : list aux_state) : btf_dump :=
  mkDump (d_btf d) (d_ptr_sz d) (d_strip_mods d) (d_skip_anon_defs d) (d_last_id d) l (d_names d) (d_queue d)
    (d_queue_cap d) (d_stack d) (d_type_names d) (d_ident_names d) (d_out d) (d_alloc d).
Definition with_names (d : btf_dump) (l : list (option (list Z))) : btf_dump :=
  mkDump (d_btf d) (d_ptr_sz d) (d_strip_mods d) (d_skip_anon_defs d) (d_last_id d) (d_states d) l (d_queue d)
    (d_queue_cap d) (d_stack d) (d_type_names d) (d_ident_names d) (d_out d) (d_alloc d).
Definition with_queue (d : btf_dump) (q : list Z) (cap : Z) : btf_dump :=
  mkDump (d_btf d) (d_ptr_sz d) (d_strip_mods d) (d_skip_anon_defs d) (d_last_id d) (d_states d) (d_names d) q
    cap (d_stack d) (d_type_names d) (d_ident_names d) (d_out d) (d_alloc d).
Definition with_last_id (d : btf_dump) (id : Z) : btf_dump :=
  mkDump (d_btf d) (d_ptr_sz d) (d_strip_mods d) (d_skip_anon_defs d) id (d_states d) (d_names d) (d_queue d)
    (d_queue_cap d) (d_stack d) (d_type_names d) (d_ident_names d) (d_out d) (d_alloc d).
Definition with_stack (d : btf_dump) (st : decl_stack) : btf_dump :=
  mkDump (d_btf d) (d_ptr_sz d) (d_strip_mods d) (d_skip_anon_defs d) (d_last_id d) (d_states d) (d_names d) (d_queue d)
    (d_queue_cap d) st (d_type_names d) (d_ident_names d) (d_out d) (d_alloc d).
Definition with_maps (d : btf_dump) (types idents : hashmap (list Z) Z) : btf_dump :=
  mkDump (d_btf d) (d_ptr_sz d) (d_strip_mods d) (d_skip_anon_defs d) (d_last_id d) (d_states d) (d_names d) (d_queue d)
    (d_queue_cap d) (d_stack d) types idents (d_out d) (d_alloc d).
Definition with_out (d : btf_dump) (out : list Z) : btf_dump :=
  mkDump (d_btf d) (d_ptr_sz d) (d_strip_mods d) (d_skip_anon_defs d) (d_last_id d) (d_states d) (d_names d) (d_queue d)
    (d_queue_cap d) (d_stack d) (d_type_names d) (d_ident_names d) out (d_alloc d).
Definition with_strip_mods (d : btf_dump) (strip : bool) : btf_dump :=
  mkDump (d_btf d) (d_ptr_sz d) strip (d_skip_anon_defs d) (d_last_id d) (d_states d) (d_names d) (d_queue d)
    (d_queue_cap d) (d_stack d) (d_type_names d) (d_ident_names d) (d_out d) (d_alloc d).

(** [None]: a state outside the array. *)
Definition state_of (d : btf_dump) (id : Z) : option aux_state := if 0 <=? id then d_states d !! Z.to_nat id else None.
Definition set_state (d : btf_dump) (id : Z) (s : aux_state) : btf_dump := with_states d (<[Z.to_nat id := s]> (d_states d)).

Definition set_order (s : aux_state) (o : order_state_t) : aux_state :=
  mkAux o (emit_state s) (fwd_emitted s) (name_resolved s) (referenced s).
Definition set_emit (s : aux_state) (e : emit_state_t) : aux_state :=
  mkAux (order_state s) e (fwd_emitted s) (name_resolved s) (referenced s).
Definition set_fwd_emitted (s : aux_state) : aux_state :=
  mkAux (order_state s) (emit_state s) true (name_resolved s) (referenced s).
Definition set_name_resolved (s : aux_state) : aux_state :=
  mkAux (order_state s) (emit_state s) (fwd_emitted s) true (referenced s).
Definition set_referenced (s : aux_state) : aux_state :=
  mkAux (order_state s) (emit_state s) (fwd_emitted s) (name_resolved s) true.

(** [d->type_states[id].order_state = o] *)
Definition mark_order (d : btf_dump) (id : Z) (o : order_state_t) : option btf_dump :=
  s ← state_of d id; Some (set_state d id (set_order s o)).

(** * Resizing *)

(** [libbpf_ensure_mem] for an array of elements of [elem_sz] bytes whose new elements
    are zero; the capacity is the length. *)
Definition ensure_list {A} (ok : bool) (l : list A) (zero : A) (elem_sz need : Z) : list A * Z :=
  let cap := Z.of_nat (length l) in
  if need <=? cap then (l, 0)
  else if need >? SIZE_MAX then (l, - ENOMEM)
  else
    let new_cnt := add_mem_cnt cap cap SIZE_MAX (u64 (need - cap)) in
    match libbpf_reallocarray ok new_cnt elem_sz with
    | Some _ => (l ++ replicate (Z.to_nat (new_cnt - cap)) zero, 0)
    | None => (l, - ENOMEM)
    end.

(** [d->type_states[id].referenced = 1] *)
Definition mark_ref (d : btf_dump) (id : Z) : option btf_dump :=
  s ← state_of d id; Some (set_state d id (set_referenced s)).

(** The types that [t] refers to, in the order of [btf_dump_mark_referenced]. *)
Definition refs_from (n : Z) (at_ : Z → option Z) : option (list Z) := mapM (λ i, at_ (Z.of_nat i)) (seq 0 (Z.to_nat n)).
Definition member_types (t : btf_type) : option (list Z) := refs_from (btf_vlen t) (λ i, m_type <$> btf_member_at t i).
Definition param_types (t : btf_type) : option (list Z) := refs_from (btf_vlen t) (λ i, p_type <$> btf_param_at t i).
Definition secinfo_types (t : btf_type) : option (list Z) := refs_from (btf_vlen t) (λ i, bt_word t (3 * i)).

(** [Some None]: [-EINVAL]. *)
Definition referenced_by (t : btf_type) : option (option (list Z)) :=
  let k := btf_kind t in
  if (k =? BTF_KIND_INT) || (k =? BTF_KIND_ENUM) || (k =? BTF_KIND_ENUM64) || (k =? BTF_KIND_FWD) || (k =? BTF_KIND_FLOAT)
  then Some (Some [])
  else if (k =? BTF_KIND_VOLATILE) || (k =? BTF_KIND_CONST) || (k =? BTF_KIND_RESTRICT) || (k =? BTF_KIND_PTR) ||
          (k =? BTF_KIND_TYPEDEF) || (k =? BTF_KIND_FUNC) || (k =? BTF_KIND_VAR) || (k =? BTF_KIND_DECL_TAG) || (k =? BTF_KIND_TYPE_TAG)
  then Some (Some [bt_type t])
  else if k =? BTF_KIND_ARRAY then a ← btf_array_of t; Some (Some [a_index_type a; a_type a])
  else if (k =? BTF_KIND_STRUCT) || (k =? BTF_KIND_UNION) then l ← member_types t; Some (Some l)
  else if k =? BTF_KIND_FUNC_PROTO then l ← param_types t; Some (Some l)
  else if k =? BTF_KIND_DATASEC then l ← secinfo_types t; Some (Some l)
  else Some None.

(** The loop from type [i] on. *)
Fixpoint mark_referenced_from (k : nat) (d : btf_dump) (i : Z) : option (btf_dump * Z) :=
  match k with
  | O => Some (d, 0)
  | S k =>
      t ← btf__type_by_id (d_btf d) i;
      l ← referenced_by t;
      match l with
      | None => Some (d, - EINVAL)
      | Some ids => d ← foldM mark_ref d ids; mark_referenced_from k d (i + 1)
      end
  end.

Definition btf_dump_mark_referenced (d : btf_dump) : option (btf_dump * Z) :=
  mark_referenced_from (Z.to_nat (btf__type_cnt (d_btf d) - (d_last_id d + 1))) d (d_last_id d + 1).

Definition btf_dump_resize (d : btf_dump) : option (btf_dump * Z) :=
  let last_id := s32 (btf__type_cnt (d_btf d) - 1) in
  if last_id <=? d_last_id d then Some (d, 0)
  else
    let '(ok, d) := take_alloc d in
    let '(states, err) := ensure_list ok (d_states d) aux_zero 1 (u64 (s32 (last_id + 1))) in
    let d := with_states d states in
    if negb (err =? 0) then Some (d, - ENOMEM)
    else
      let '(ok, d) := take_alloc d in
      let '(names, err) := ensure_list ok (d_names d) None 8 (u64 (s32 (last_id + 1))) in
      let d := with_names d names in
      if negb (err =? 0) then Some (d, - ENOMEM)
      else
        d ← (if d_last_id d =? 0 then
               s ← state_of d 0; Some (set_state d 0 (set_emit (set_order s ORDERED) EMITTED))
             else Some d);
        '(d, err) ← btf_dump_mark_referenced d;
        if negb (err =? 0) then Some (d, err) else Some (with_last_id d last_id, 0).

(** [inr]: an error pointer. *)
Definition btf_dump__new (b : btf) (has_printf opts_valid : bool) (alloc : list bool) : option (btf_dump + Z) :=
  if negb opts_valid || negb has_printf then Some (inr (- EINVAL))
  else
    ptr_sz ← btf__pointer_size b;
    let d := mkDump b (if ptr_sz =? 0 then 8 else ptr_sz) false false 0 [] [] [] 0 (mkStack 0 0 0) hashmap__init hashmap__init [] alloc in
    let '(ok0, d) := take_alloc d in
    if negb ok0 then Some (inr (- ENOMEM))
    else
      let '(ok1, d) := take_alloc d in
      if negb ok1 then Some (inr (- ENOMEM))
      else
        let '(ok2, d) := take_alloc d in
        if negb ok2 then Some (inr (- ENOMEM))
        else
          '(d, err) ← btf_dump_resize d;
          Some (if negb (err =? 0) then inr err else inl d).

(** * Ordering *)

Definition ELOOP : Z := 40.

Definition btf_dump_add_emit_queue_id (d : btf_dump) (id : Z) : btf_dump * Z :=
  if Z.of_nat (length (d_queue d)) >=? d_queue_cap d then
    let new_cap := Z.max 16 (s32 (d_queue_cap d * 3) ÷ 2) in
    let '(ok, d) := take_alloc d in
    match libbpf_reallocarray ok new_cap 4 with
    | None => (d, - ENOMEM)
    | Some _ => (with_queue d (d_queue d ++ [id]) new_cap, 0)
    end
  else (with_queue d (d_queue d ++ [id]) (d_queue_cap d), 0).

(** [order] for each id in turn, until one fails; [strong]: some result was positive. *)
Fixpoint order_each (order : btf_dump → Z → option (btf_dump * Z)) (d : btf_dump) (ids : list Z) (strong : bool)
    : option (btf_dump * Z * bool) :=
  match ids with
  | [] => Some (d, 0, strong)
  | id :: ids =>
      '(d, err) ← order d id;
      if err <? 0 then Some (d, err, strong) else order_each order d ids (strong || (err >? 0))
  end.

Definition has_name (t : btf_type) : bool := negb (bt_name_off t =? 0).

(** Putting a definition into the queue, when [add] says so, and marking it. *)
Definition order_done (d : btf_dump) (id : Z) (add : bool) : option (btf_dump * Z) :=
  let '(d, err) := if add then btf_dump_add_emit_queue_id d id else (d, 0) in
  if negb (err =? 0) then Some (d, err) else d ← mark_order d id ORDERED; Some (d, 1).

(** The result is 1 for a strong link, 0 for a weak one, negative for an error; [None]
    is an access outside the arrays, or a recursion beyond [fuel]. *)
Fixpoint btf_dump_order_type (fuel : nat) (d : btf_dump) (id : Z) (through_ptr : bool) : option (btf_dump * Z) :=
  match fuel with
  | O => None
  | S fuel =>
      s ← state_of d id;
      if decide (order_state s = ORDERED) then Some (d, 1)
      else
        t ← btf__type_by_id (d_btf d) id;
        if decide (order_state s = ORDERING) then
          Some (d, if btf_is_composite t && through_ptr && has_name t then 0 else - ELOOP)
        else
          let k := btf_kind t in
          if (k =? BTF_KIND_INT) || (k =? BTF_KIND_FLOAT) then d ← mark_order d id ORDERED; Some (d, 0)
          else if k =? BTF_KIND_PTR then
            '(d, err) ← btf_dump_order_type fuel d (bt_type t) true;
            d ← mark_order d id ORDERED; Some (d, err)
          else if k =? BTF_KIND_ARRAY then a ← btf_array_of t; btf_dump_order_type fuel d (a_type a) false
          else if (k =? BTF_KIND_STRUCT) || (k =? BTF_KIND_UNION) then
            if through_ptr && has_name t then Some (d, 0)
            else
              d ← mark_order d id ORDERING;
              ids ← member_types t;
              '(d, err, _) ← order_each (λ d m, btf_dump_order_type fuel d m false) d ids false;
              if err <? 0 then Some (d, err) else order_done d id (has_name t)
          else if (k =? BTF_KIND_ENUM) || (k =? BTF_KIND_ENUM64) || (k =? BTF_KIND_FWD) then
            order_done d id (has_name t || negb (referenced s))
          else if k =? BTF_KIND_TYPEDEF then
            '(d, is_strong) ← btf_dump_order_type fuel d (bt_type t) through_ptr;
            if is_strong <? 0 then Some (d, is_strong)
            else if through_ptr && (is_strong =? 0) then Some (d, 0)
            else order_done d id true
          else if (k =? BTF_KIND_VOLATILE) || (k =? BTF_KIND_CONST) || (k =? BTF_KIND_RESTRICT) || (k =? BTF_KIND_TYPE_TAG) then
            btf_dump_order_type fuel d (bt_type t) through_ptr
          else if k =? BTF_KIND_FUNC_PROTO then
            '(d, err) ← btf_dump_order_type fuel d (bt_type t) through_ptr;
            if err <? 0 then Some (d, err)
            else
              ids ← param_types t;
              '(d, err, strong) ← order_each (λ d p, btf_dump_order_type fuel d p through_ptr) d ids (err >? 0);
              Some (d, if err <? 0 then err else if strong : bool then 1 else 0)
          else if (k =? BTF_KIND_FUNC) || (k =? BTF_KIND_VAR) || (k =? BTF_KIND_DATASEC) || (k =? BTF_KIND_DECL_TAG) then
            d ← mark_order d id ORDERED; Some (d, 0)
          else Some (d, - EINVAL)
  end.

(** The first pass of [btf_dump__dump_type]: the queue of the definitions to emit. *)
Definition btf_dump_order (fuel : nat) (d : btf_dump) (id : Z) : option (btf_dump * Z) :=
  if id >=? btf__type_cnt (d_btf d) then Some (d, - EINVAL)
  else
    '(d, err) ← btf_dump_resize d;
    if negb (err =? 0) then Some (d, err)
    else
      '(d, err) ← btf_dump_order_type fuel (with_queue d [] (d_queue_cap d)) id false;
      Some (d, if err <? 0 then err else 0).

(** * States *)

Lemma state_of_set d id s id' : (∃ s0, state_of d id = Some s0) →
  state_of (set_state d id s) id' = if decide (id' = id) then Some s else state_of d id'.
Proof.
  intros [s0 Hs]. unfold state_of, set_state in *. cbn. destruct (Z.leb_spec 0 id) as [H0|]; [|done].
  destruct (Z.leb_spec 0 id') as [H0'|].
  - destruct (decide (id' = id)) as [->|Hne].
    + apply list_lookup_insert_eq. by eapply lookup_lt_Some.
    + apply list_lookup_insert_ne. lia.
  - destruct (decide (id' = id)); [lia|done].
Qed.
