(* ===== verification/BtfOrder.v ===== *)
(** The order in which a dump defines types: every definition comes behind those that it
    needs to be complete, and the search for it ends (btf_dump_order_type of
    src/libbpf/src/btf_dump.c). *)
From stdpp Require Import base list sets strings.
From Stdlib Require Import ZArith Lia.
From S2P Require Import Prelude Mem Hashmap Btf RelocWf BtfDump.

#[local] Open Scope Z_scope.

(** * Types as nodes *)

(** What the order looks at in a type. *)
Inductive node :=
  | NdBase
  | NdPtr (t : Z)
  | NdArray (t : Z)
  | NdComp (named : bool) (members : list Z)
  | NdEnum (named : bool)
  | NdTypedef (t : Z)
  | NdMod (t : Z)
  | NdProto (ret : Z) (params : list Z)
  | NdOther
  | NdBad.

Definition node_of (t : btf_type) : option node :=
  let k := btf_kind t in
  if (k =? BTF_KIND_INT) || (k =? BTF_KIND_FLOAT) then Some NdBase
  else if k =? BTF_KIND_PTR then Some (NdPtr (bt_type t))
  else if k =? BTF_KIND_ARRAY then a ← btf_array_of t; Some (NdArray (a_type a))
  else if (k =? BTF_KIND_STRUCT) || (k =? BTF_KIND_UNION) then l ← member_types t; Some (NdComp (has_name t) l)
  else if (k =? BTF_KIND_ENUM) || (k =? BTF_KIND_ENUM64) || (k =? BTF_KIND_FWD) then Some (NdEnum (has_name t))
  else if k =? BTF_KIND_TYPEDEF then Some (NdTypedef (bt_type t))
  else if (k =? BTF_KIND_VOLATILE) || (k =? BTF_KIND_CONST) || (k =? BTF_KIND_RESTRICT) || (k =? BTF_KIND_TYPE_TAG) then Some (NdMod (bt_type t))
  else if k =? BTF_KIND_FUNC_PROTO then l ← param_types t; Some (NdProto (bt_type t) l)
  else if (k =? BTF_KIND_FUNC) || (k =? BTF_KIND_VAR) || (k =? BTF_KIND_DATASEC) || (k =? BTF_KIND_DECL_TAG) then Some NdOther
  else Some NdBad.

Definition node_at (b : btf) (id : Z) : option node := t ← btf__type_by_id b id; node_of t.

(** The types that a node leads to. *)
Definition targets (n : node) : list Z :=
  match n with
  | NdPtr t | NdArray t | NdTypedef t | NdMod t => [t]
  | NdComp _ ms => ms
  | NdProto r ps => r :: ps
  | _ => []
  end.

(** The body of the recursion in terms of nodes. *)
Definition order_body (order : btf_dump → Z → bool → option (btf_dump * Z)) (d : btf_dump) (id : Z) (through_ptr : bool)
    (s : aux_state) (n : node) : option (btf_dump * Z) :=
  match n with
  | NdBase | NdOther => d ← mark_order d id ORDERED; Some (d, 0)
  | NdPtr t => '(d, err) ← order d t true; d ← mark_order d id ORDERED; Some (d, err)
  | NdArray t => order d t false
  | NdComp named ms =>
      if through_ptr && named then Some (d, 0)
      else
        d ← mark_order d id ORDERING;
        '(d, err, _) ← order_each (λ d m, order d m false) d ms false;
        if err <? 0 then Some (d, err) else order_done d id named
  | NdEnum named => order_done d id (named || negb (referenced s))
  | NdTypedef t =>
      '(d, is_strong) ← order d t through_ptr;
      if is_strong <? 0 then Some (d, is_strong)
      else if through_ptr && (is_strong =? 0) then Some (d, 0)
      else order_done d id true
  | NdMod t => order d t through_ptr
  | NdProto r ps =>
      '(d, err) ← order d r through_ptr;
      if err <? 0 then Some (d, err)
      else
        '(d, err, strong) ← order_each (λ d p, order d p through_ptr) d ps (err >? 0);
        Some (d, if err <? 0 then err else if strong : bool then 1 else 0)
  | NdBad => Some (d, - EINVAL)
  end.

Lemma order_type_S fuel d id thr s n : state_of d id = Some s → node_at (d_btf d) id = Some n →
  btf_dump_order_type (S fuel) d id thr =
    if decide (order_state s = ORDERED) then Some (d, 1)
    else if decide (order_state s = ORDERING) then
      Some (d, match n with NdComp true _ => if thr then 0 else - ELOOP | _ => - ELOOP end)
    else order_body (btf_dump_order_type fuel) d id thr s n.
Proof.
  unfold node_at. intros Hs Hn. cbn [btf_dump_order_type]. rewrite Hs. cbn [mbind option_bind].
  destruct (btf__type_by_id (d_btf d) id) as [t|]; [|done]. cbn [mbind option_bind] in Hn |- *.
  destruct (decide (order_state s = ORDERED)); [done|]. unfold node_of in Hn. unfold btf_is_composite.
  destruct (decide (order_state s = ORDERING)).
  - destruct ((btf_kind t =? BTF_KIND_INT) || (btf_kind t =? BTF_KIND_FLOAT)) eqn:E1.
    { apply orb_prop in E1 as [E1|E1]; apply Z.eqb_eq in E1; rewrite E1; cbn; by simplify_eq. }
    destruct (btf_kind t =? BTF_KIND_PTR) eqn:E2; [apply Z.eqb_eq in E2; rewrite E2; cbn; by simplify_eq|].
    destruct (btf_kind t =? BTF_KIND_ARRAY) eqn:E3.
    { apply Z.eqb_eq in E3; rewrite E3; cbn -[btf_array_of] in *. destruct (btf_array_of t); cbn in Hn; by simplify_eq. }
    destruct ((btf_kind t =? BTF_KIND_STRUCT) || (btf_kind t =? BTF_KIND_UNION)) eqn:E4.
    { destruct (member_types t); cbn in Hn; [|done]. simplify_eq. destruct thr, (has_name t); done. }
    cbn [andb]. repeat (match type of Hn with context [if ?c then _ else _] => destruct c end); try (by simplify_eq).
    destruct (param_types t); cbn in Hn; by simplify_eq.
  - destruct ((btf_kind t =? BTF_KIND_INT) || (btf_kind t =? BTF_KIND_FLOAT)); [by simplify_eq|].
    destruct (btf_kind t =? BTF_KIND_PTR); [by simplify_eq|].
    destruct (btf_kind t =? BTF_KIND_ARRAY); [destruct (btf_array_of t); cbn in Hn |- *; by simplify_eq|].
    destruct ((btf_kind t =? BTF_KIND_STRUCT) || (btf_kind t =? BTF_KIND_UNION)).
    { destruct (member_types t) as [l|]; cbn in Hn; [|done]. simplify_eq. cbn [order_body].
      destruct (thr && has_name t); [done|]. by destruct (mark_order d id ORDERING). }
    destruct ((btf_kind t =? BTF_KIND_ENUM) || (btf_kind t =? BTF_KIND_ENUM64) || (btf_kind t =? BTF_KIND_FWD)); [by simplify_eq|].
    destruct (btf_kind t =? BTF_KIND_TYPEDEF); [by simplify_eq|].
    destruct ((btf_kind t =? BTF_KIND_VOLATILE) || (btf_kind t =? BTF_KIND_CONST) || (btf_kind t =? BTF_KIND_RESTRICT) ||
              (btf_kind t =? BTF_KIND_TYPE_TAG)); [by simplify_eq|].
    destruct (btf_kind t =? BTF_KIND_FUNC_PROTO).
    { destruct (param_types t) as [l|]; cbn in Hn; [|done]. simplify_eq. cbn [order_body].
      destruct (btf_dump_order_type fuel d (bt_size t) thr) as [[d' err]|]; [|done]. cbn [mbind option_bind]. done. }
    destruct ((btf_kind t =? BTF_KIND_FUNC) || (btf_kind t =? BTF_KIND_VAR) || (btf_kind t =? BTF_KIND_DATASEC) ||
              (btf_kind t =? BTF_KIND_DECL_TAG)); by simplify_eq.
Qed.

(** * What a definition needs *)

(** [strong_dep b id thr y]: something of type [id] cannot be declared before [y] is
    defined; [thr]: it is declared behind a pointer or in a function type, where a
    struct that has a name need not be complete, and neither a typedef of one. *)
Inductive strong_dep (b : btf) : Z → bool → Z → Prop :=
  | sd_comp id thr named ms : node_at b id = Some (NdComp named ms) → thr && named = false → strong_dep b id thr id
  | sd_enum id thr named : node_at b id = Some (NdEnum named) → strong_dep b id thr id
  | sd_typedef id t : node_at b id = Some (NdTypedef t) → strong_dep b id false id
  | sd_under_typedef id thr t y : node_at b id = Some (NdTypedef t) → strong_dep b t thr y → strong_dep b id thr y
  | sd_mod id thr t y : node_at b id = Some (NdMod t) → strong_dep b t thr y → strong_dep b id thr y
  | sd_ptr id thr t y : node_at b id = Some (NdPtr t) → strong_dep b t true y → strong_dep b id thr y
  | sd_array id thr t y : node_at b id = Some (NdArray t) → strong_dep b t false y → strong_dep b id thr y
  | sd_proto id thr r ps t y : node_at b id = Some (NdProto r ps) → t ∈ r :: ps → strong_dep b t true y → strong_dep b id thr y.

(** The definition of [x] names [y] where [y] has to be defined. *)
Definition needs (b : btf) (x y : Z) : Prop :=
  match node_at b x with
  | Some (NdComp _ ms) => ∃ t, t ∈ ms ∧ strong_dep b t false y
  | Some (NdTypedef t) => strong_dep b t false y
  | _ => False
  end.

(** Structs without a name are defined inside of the definitions that have them. *)
Definition inlined (b : btf) (s : Z) : Prop := ∃ ms, node_at b s = Some (NdComp false ms).

Inductive requires (b : btf) : Z → Z → Prop :=
  | rq_needs x y : needs b x y → requires b x y
  | rq_inlined x s y : needs b x s → inlined b s → requires b s y → requires b x y.

(** The types that are defined on their own, [R] being those that others refer to. *)
Definition defines (b : btf) (R : Z → bool) (y : Z) : bool :=
  match node_at b y with
  | Some (NdComp named _) => named
  | Some (NdEnum named) => named || negb (R y)
  | Some (NdTypedef _) => true
  | _ => false
  end.

(** Definitions in an order that C accepts. *)
Definition topological (b : btf) (R : Z → bool) (h : list Z) : Prop :=
  ∀ i x, h !! i = Some x → ∀ y, requires b x y → defines b R y = true → y ∈ take i h.

Lemma strong_dep_weaken b id y : strong_dep b id true y → strong_dep b id false y.
Proof.
  intros H. remember true as thr eqn:E. induction H; simplify_eq.
  - by eapply sd_comp.
  - by eapply sd_enum.
  - eapply sd_under_typedef; eauto.
  - eapply sd_mod; eauto.
  - by eapply sd_ptr.
  - by eapply sd_array.
  - by eapply sd_proto.
Qed.

Lemma strong_dep_any b id thr y : strong_dep b id thr y → strong_dep b id false y.
Proof. destruct thr; [apply strong_dep_weaken|done]. Qed.

Lemma topological_snoc b R h x : topological b R h → (∀ y, requires b x y → defines b R y = true → y ∈ h) → topological b R (h ++ [x]).
Proof.
  intros Ht Hx i z Hz y Hr Hd. apply lookup_app_Some in Hz as [Hz|[Hi Hz]].
  - rewrite take_app_le by (apply lookup_lt_Some in Hz; lia). by eapply Ht.
  - apply list_lookup_singleton_Some in Hz as [Hi0 <-]. rewrite take_app_ge by lia. apply elem_of_app. left. by apply Hx.
Qed.

(** * The invariant *)

Definition ordered (d : btf_dump) (id : Z) : Prop := ∃ s, state_of d id = Some s ∧ order_state s = ORDERED.

Section order.
Context (b : btf) (R : Z → bool) (n : Z).
Context (Hwf : ∀ id t, btf__type_by_id b id = Some t → is_Some (node_of t)).

(** A dump of [b] with a state for each of its types. *)
Record dump_ok (d : btf_dump) : Prop := {
  dk_btf : d_btf d = b;
  dk_states : ∀ id, 0 ≤ id < n → is_Some (state_of d id);
  dk_refs : ∀ id s, state_of d id = Some s → referenced s = R id;
}.

(** [h] are the definitions put out so far. *)
Record order_inv (h : list Z) (d : btf_dump) : Prop := {
  oi_deps : ∀ id y, ordered d id → strong_dep b id false y → ordered d y;
  oi_needs : ∀ x y, ordered d x → needs b x y → ordered d y;
  oi_out : ∀ y, ordered d y → defines b R y = true → y ∈ h;
  oi_topo : topological b R h;
}.

(** What ordering leaves and adds. *)
Record grows (d d' : btf_dump) : Prop := {
  gr_last : d_last_id d' = d_last_id d;
  gr_ok : dump_ok d → dump_ok d';
  gr_ordered : ∀ id, ordered d id → ordered d' id;
  gr_queue : ∃ more, d_queue d' = d_queue d ++ more;
}.

Lemma grows_refl d : grows d d.
Proof. split; [done..|]. exists []. by rewrite app_nil_r. Qed.

Lemma grows_trans d1 d2 d3 : grows d1 d2 → grows d2 d3 → grows d1 d3.
Proof.
  intros [L1 H1 H2 [m1 H3]] [L2 H4 H5 [m2 H6]]. split; [congruence|auto..|]. exists (m1 ++ m2). by rewrite H6, H3, app_assoc.
Qed.

Lemma mark_order_spec d id o d' : mark_order d id o = Some d' →
  ∃ s, state_of d id = Some s ∧ d' = set_state d id (set_order s o) ∧
    ∀ id', state_of d' id' = if decide (id' = id) then Some (set_order s o) else state_of d id'.
Proof.
  unfold mark_order. destruct (state_of d id) as [s|] eqn:E; [|done]. cbn. intros [= <-]. exists s. split; [done|]. split; [done|].
  intros id'. apply state_of_set. by exists s.
Qed.

Lemma mark_ordered d id d' : mark_order d id ORDERED = Some d' → grows d d' ∧ d_queue d' = d_queue d ∧
  ∀ x, ordered d' x ↔ x = id ∨ ordered d x.
Proof.
  intros H. destruct (mark_order_spec d id ORDERED d' H) as (s & Hs & -> & Hst).
  assert (∀ x, ordered (set_state d id (set_order s ORDERED)) x ↔ x = id ∨ ordered d x) as Ho.
  { intros x. unfold ordered. rewrite Hst. destruct (decide (x = id)) as [->|Hne].
    - split; [by left|]. intros _. by eexists.
    - split; [by right|]. by intros [?|?]. }
  split; [|done]. split; [done|..].
  - intros [H1 H2 H3]. split; [done| |].
    + intros id' Hid. rewrite Hst. destruct (decide (id' = id)); [by eexists|by apply H2].
    + intros id' s'. rewrite Hst. destruct (decide (id' = id)) as [->|]; [|apply H3]. intros [= <-]. exact (H3 id s Hs).
  - intros x Hx. apply Ho. by right.
  - exists []. by rewrite app_nil_r.
Qed.

Lemma mark_ordering d id d' : mark_order d id ORDERING = Some d' → ¬ ordered d id → grows d d' ∧ d_queue d' = d_queue d ∧
  ∀ x, ordered d' x ↔ ordered d x.
Proof.
  intros H Hn. destruct (mark_order_spec d id ORDERING d' H) as (s & Hs & -> & Hst).
  assert (∀ x, ordered (set_state d id (set_order s ORDERING)) x ↔ ordered d x) as Ho.
  { intros x. unfold ordered. rewrite Hst. destruct (decide (x = id)) as [->|Hne]; [|done].
    split; [by intros (s' & [= <-] & ?)|]. intros Hx. by destruct (Hn Hx). }
  split; [|done]. split; [done|..].
  - intros [H1 H2 H3]. split; [done| |].
    + intros id' Hid. rewrite Hst. destruct (decide (id' = id)); [by eexists|by apply H2].
    + intros id' s'. rewrite Hst. destruct (decide (id' = id)) as [->|]; [|apply H3]. intros [= <-]. exact (H3 id s Hs).
  - intros x Hx. by apply Ho.
  - exists []. by rewrite app_nil_r.
Qed.

(** A type is marked: what it needs is ordered, and it is out if it is defined on its own. *)
Lemma inv_mark h d d' id : order_inv h d → (∀ x, ordered d' x ↔ x = id ∨ ordered d x) →
  (∀ y, strong_dep b id false y → y = id ∨ ordered d y) → (∀ y, needs b id y → ordered d y) →
  (defines b R id = true → id ∈ h) → order_inv h d'.
Proof.
  intros [H1 H2 H3 H4] Ho Hd Hn Hout. split; [| | |done].
  - intros x y [->|Hx]%Ho Hs; apply Ho; [by apply Hd|right; by eapply H1].
  - intros x y [->|Hx]%Ho Hs; apply Ho; right; [by apply Hn|by eapply H2].
  - intros y [->|Hy]%Ho; [done|by apply H3].
Qed.

Lemma inv_same h d d' : order_inv h d → (∀ x, ordered d' x ↔ ordered d x) → order_inv h d'.
Proof. intros [H1 H2 H3 H4] Ho. split; [| | |done]; setoid_rewrite Ho; done. Qed.

(** Everything that an addition requires is ordered already. *)
Lemma requires_ordered h d x y : order_inv h d → (∀ y, needs b x y → ordered d y) → requires b x y → ordered d y.
Proof.
  intros Hi Hx Hr. induction Hr as [x y Hn|x s y Hn Hin Hr IH]; [by apply Hx|]. apply IH. intros z Hz.
  eapply (oi_needs _ _ Hi); [by apply Hx|done].
Qed.

Lemma inv_add h d x : order_inv h d → (∀ y, needs b x y → ordered d y) → order_inv (h ++ [x]) d.
Proof.
  intros Hi Hx. pose proof Hi as [H1 H2 H3 H4]. split; [done..| |].
  - intros y Hy Hd. apply elem_of_app. left. by apply H3.
  - apply topological_snoc; [done|]. intros y Hr Hd. apply H3; [|done]. by eapply requires_ordered.
Qed.
(** * The recursion *)

Definition order_spec (order : btf_dump → Z → bool → option (btf_dump * Z)) : Prop :=
  ∀ h d id thr d' r, dump_ok d → order_inv (h ++ d_queue d) d → order d id thr = Some (d', r) → 0 ≤ r →
    grows d d' ∧ order_inv (h ++ d_queue d') d' ∧ (∀ y, strong_dep b id thr y → ordered d' y) ∧
    (0 < r → ∀ y, strong_dep b id false y → ordered d' y).

Lemma order_each_spec order thr : order_spec order → ∀ ids h d d' err strong strong', dump_ok d → order_inv (h ++ d_queue d) d →
  order_each (λ d m, order d m thr) d ids strong = Some (d', err, strong') → 0 ≤ err →
  grows d d' ∧ order_inv (h ++ d_queue d') d' ∧ (∀ t y, t ∈ ids → strong_dep b t thr y → ordered d' y).
Proof.
  intros Ho ids. induction ids as [|id ids IH]; intros h d d' err strong strong' Hd Hi; cbn [order_each].
  - intros [= <- <- <-] _. split; [apply grows_refl|]. split; [done|]. by intros t y ?%elem_of_nil.
  - destruct (order d id thr) as [[d1 e1]|] eqn:E1; [|done]. cbn [mbind option_bind].
    destruct (Z.ltb_spec e1 0) as [|He1]; [intros [= <- <- <-]; lia|]. intros E Herr.
    destruct (Ho h d id thr d1 e1 Hd Hi E1 He1) as (G1 & I1 & S1 & _).
    destruct (IH h d1 d' err _ strong' (gr_ok _ _ G1 Hd) I1 E Herr) as (G2 & I2 & S2).
    split; [by eapply grows_trans|]. split; [done|]. intros t y [->|Ht]%elem_of_cons Hs; [|by eapply S2].
    apply (gr_ordered _ _ G2). by apply S1.
Qed.

Lemma add_queue_spec d id d' err : btf_dump_add_emit_queue_id d id = (d', err) → err = 0 →
  d_queue d' = d_queue d ++ [id] ∧ grows d d' ∧ (∀ x, ordered d' x ↔ ordered d x) ∧ (∀ x, state_of d' x = state_of d x).
Proof.
  unfold btf_dump_add_emit_queue_id, take_alloc. intros H Herr.
  assert (d_queue d' = d_queue d ++ [id] ∧ d_btf d' = d_btf d ∧ d_states d' = d_states d ∧ d_last_id d' = d_last_id d) as (Hq & Hb & Hs & Hlast).
  { destruct (Z.of_nat (length (d_queue d)) >=? d_queue_cap d); [|by simplify_eq].
    destruct (d_alloc d); cbn -[libbpf_reallocarray] in H; destruct (libbpf_reallocarray _ _ _); simplify_eq; done. }
  assert (∀ x, state_of d' x = state_of d x) as Hst by (intros x; unfold state_of; by rewrite Hs).
  assert (∀ x, ordered d' x ↔ ordered d x) as Ho by (intros x; unfold ordered; by rewrite Hst).
  split; [done|]. split; [|done]. split; [done| |by intros x; rewrite Ho|by eexists].
  intros [H1 H2 H3]. split; [by rewrite Hb|by setoid_rewrite Hst|by setoid_rewrite Hst].
Qed.

Lemma order_done_spec h d id add d' r : order_inv (h ++ d_queue d) d → order_done d id add = Some (d', r) → 0 ≤ r →
  (∀ y, strong_dep b id false y → y = id ∨ ordered d y) → (∀ y, needs b id y → ordered d y) →
  (defines b R id = true → add = true) →
  grows d d' ∧ order_inv (h ++ d_queue d') d' ∧ ordered d' id.
Proof.
  intros Hi H Hr Hdeps Hneeds Hadd. unfold order_done in H. destruct add.
  - destruct (btf_dump_add_emit_queue_id d id) as [d1 err] eqn:Eq. destruct (Z.eqb_spec err 0) as [->|Hne]; cbn [negb] in H.
    2: { unfold btf_dump_add_emit_queue_id in Eq. destruct (Z.of_nat (length (d_queue d)) >=? d_queue_cap d); [|by simplify_eq].
         destruct (take_alloc d) as [ok d2]. destruct (libbpf_reallocarray _ _ _); by simplify_eq. }
    destruct (add_queue_spec d id d1 0 Eq eq_refl) as (Hq & G1 & Ho1 & _).
    destruct (mark_order d1 id ORDERED) as [d2|] eqn:Em; [|done]. cbn in H. simplify_eq.
    destruct (mark_ordered d1 id d' Em) as (G2 & Hq2 & Ho2). split; [by eapply grows_trans|]. split; [|by apply Ho2; left].
    rewrite Hq2, Hq, app_assoc. eapply inv_mark; [|exact Ho2| | |].
    + apply inv_add; [by eapply inv_same|]. intros y Hy. by apply Ho1, Hneeds.
    + intros y Hy. destruct (Hdeps y Hy); [by left|right; by apply Ho1].
    + intros y Hy. by apply Ho1, Hneeds.
    + intros _. set_solver.
  - cbn in H. destruct (mark_order d id ORDERED) as [d2|] eqn:Em; [|done]. cbn in H. simplify_eq.
    destruct (mark_ordered d id d' Em) as (G2 & Hq2 & Ho2). split; [done|]. split; [|by apply Ho2; left].
    rewrite Hq2. eapply inv_mark; [done|exact Ho2|done..|]. intros Hdef. by specialize (Hadd Hdef).
Qed.

(** The dependencies of a node. *)
Lemma strong_dep_inv id thr y nd : node_at b id = Some nd → strong_dep b id thr y →
  match nd with
  | NdComp named _ => y = id ∧ thr && named = false
  | NdEnum _ => y = id
  | NdTypedef t => (y = id ∧ thr = false) ∨ strong_dep b t thr y
  | NdMod t => strong_dep b t thr y
  | NdPtr t => strong_dep b t true y
  | NdArray t => strong_dep b t false y
  | NdProto r ps => ∃ t, t ∈ r :: ps ∧ strong_dep b t true y
  | _ => False
  end.
Proof. intros Hn Hs. destruct Hs; rewrite H in Hn; simplify_eq; eauto. Qed.

Lemma marked_base h d id nd : node_at b id = Some nd → (nd = NdBase ∨ nd = NdOther) → order_inv (h ++ d_queue d) d → ∀ d',
  mark_order d id ORDERED = Some d' → grows d d' ∧ order_inv (h ++ d_queue d') d' ∧ ∀ (thr : bool) y, strong_dep b id thr y → ordered d' y.
Proof.
  intros Hn Hb Hi d' Em. destruct (mark_ordered d id d' Em) as (G & Hq & Ho). split; [done|].
  assert (∀ thr y, ¬ strong_dep b id thr y) as Hno by (intros thr y Hs; apply (strong_dep_inv id thr y nd Hn) in Hs; by destruct Hb as [-> | ->]).
  split; [|intros thr y Hs; by destruct (Hno thr y)]. rewrite Hq. eapply inv_mark; [done|exact Ho| | |].
  - intros y Hs. by destruct (Hno false y).
  - unfold needs. rewrite Hn. by destruct Hb as [-> | ->].
  - unfold defines. rewrite Hn. by destruct Hb as [-> | ->].
Qed.
Lemma order_ptr h d id t d' r order : order_spec order → dump_ok d → order_inv (h ++ d_queue d) d → node_at b id = Some (NdPtr t) →
  ('(d, err) ← order d t true; d ← mark_order d id ORDERED; Some (d, err)) = Some (d', r) → 0 ≤ r →
  grows d d' ∧ order_inv (h ++ d_queue d') d' ∧ ∀ (thr : bool) y, strong_dep b id thr y → ordered d' y.
Proof.
  intros Ho Hd Hi Hn H Hr. destruct (order d t true) as [[d1 e1]|] eqn:E1; [|done]. cbn [mbind option_bind] in H.
  destruct (mark_order d1 id ORDERED) as [d2|] eqn:Em; [|done]. cbn in H. simplify_eq.
  destruct (Ho h d t true d1 r Hd Hi E1 Hr) as (G1 & I1 & S1 & _). destruct (mark_ordered d1 id d' Em) as (G2 & Hq2 & Ho2).
  assert (∀ thr y, strong_dep b id thr y → ordered d1 y) as Hs by (intros thr' y Hs; apply S1; by apply (strong_dep_inv id thr' y _ Hn) in Hs).
  split; [by eapply grows_trans|]. split; [|intros thr' y Hy; apply Ho2; right; by eapply Hs].
  rewrite Hq2. eapply inv_mark; [done|exact Ho2| | |].
  - intros y Hy. right. by eapply Hs.
  - unfold needs. by rewrite Hn.
  - unfold defines. by rewrite Hn.
Qed.

Lemma order_comp h d id named ms thr d' r order s : order_spec order → dump_ok d → order_inv (h ++ d_queue d) d →
  node_at b id = Some (NdComp named ms) → state_of d id = Some s → order_state s ≠ ORDERED →
  order_body order d id thr s (NdComp named ms) = Some (d', r) → 0 ≤ r →
  grows d d' ∧ order_inv (h ++ d_queue d') d' ∧ (∀ y, strong_dep b id thr y → ordered d' y) ∧
  (0 < r → ∀ y, strong_dep b id false y → ordered d' y).
Proof.
  intros Ho Hd Hi Hn Hs Hst H Hr. cbn [order_body] in H. destruct (thr && named) eqn:Etn.
  { simplify_eq. split; [apply grows_refl|]. split; [done|]. split; [|lia]. intros y Hy.
    apply (strong_dep_inv id thr y _ Hn) in Hy as [_ Hy]. congruence. }
  destruct (mark_order d id ORDERING) as [d1|] eqn:Em; [|done]. cbn [mbind option_bind] in H.
  assert (¬ ordered d id) as Hno by (intros (s' & Hs' & ?); congruence).
  destruct (mark_ordering d id d1 Em Hno) as (G1 & Hq1 & Ho1).
  assert (order_inv (h ++ d_queue d1) d1) as I1 by (rewrite Hq1; by eapply inv_same).
  destruct (order_each _ d1 ms false) as [[[d2 e2] st2]|] eqn:E2; [|done]. cbn [mbind option_bind] in H.
  destruct (Z.ltb_spec e2 0) as [|He2]; [simplify_eq; lia|].
  destruct (order_each_spec order false Ho ms h d1 d2 e2 false st2 (gr_ok _ _ G1 Hd) I1 E2 He2) as (G2 & I2 & S2).
  destruct (order_done_spec h d2 id named d' r I2 H Hr) as (G3 & I3 & Hid).
  { intros y Hy. apply (strong_dep_inv id false y _ Hn) in Hy as [-> _]. by left. }
  { unfold needs. rewrite Hn. intros y (t & Ht & Hy). by eapply S2. }
  { unfold defines. by rewrite Hn. }
  split; [eapply grows_trans; [done|by eapply grows_trans]|]. split; [done|].
  split; [intros y Hy|intros _ y Hy]; apply (strong_dep_inv _ _ _ _ Hn) in Hy as [-> _]; done.
Qed.

Lemma order_enum h d id named thr d' r s : dump_ok d → order_inv (h ++ d_queue d) d →
  node_at b id = Some (NdEnum named) → state_of d id = Some s → order_done d id (named || negb (referenced s)) = Some (d', r) → 0 ≤ r →
  grows d d' ∧ order_inv (h ++ d_queue d') d' ∧ (∀ y, strong_dep b id thr y → ordered d' y) ∧
  (0 < r → ∀ y, strong_dep b id false y → ordered d' y).
Proof.
  intros Hd Hi Hn Hs H Hr. destruct (order_done_spec h d id _ d' r Hi H Hr) as (G & I & Hid).
  { intros y Hy. apply (strong_dep_inv id false y _ Hn) in Hy as ->. by left. }
  { unfold needs. by rewrite Hn. }
  { unfold defines. rewrite Hn. by rewrite (dk_refs _ Hd id s Hs). }
  split; [done|]. split; [done|]. split; [intros y Hy|intros _ y Hy]; apply (strong_dep_inv _ _ _ _ Hn) in Hy as ->; done.
Qed.

Lemma order_typedef h d id t thr d' r order s : order_spec order → dump_ok d → order_inv (h ++ d_queue d) d →
  node_at b id = Some (NdTypedef t) → order_body order d id thr s (NdTypedef t) = Some (d', r) → 0 ≤ r →
  grows d d' ∧ order_inv (h ++ d_queue d') d' ∧ (∀ y, strong_dep b id thr y → ordered d' y) ∧
  (0 < r → ∀ y, strong_dep b id false y → ordered d' y).
Proof.
  intros Ho Hd Hi Hn H Hr. cbn [order_body] in H. destruct (order d t thr) as [[d1 e1]|] eqn:E1; [|done]. cbn [mbind option_bind] in H.
  destruct (Z.ltb_spec e1 0) as [|He1]; [simplify_eq; lia|]. destruct (Ho h d t thr d1 e1 Hd Hi E1 He1) as (G1 & I1 & S1 & P1).
  destruct (thr && (e1 =? 0)) eqn:Et.
  { simplify_eq. apply andb_prop in Et as [-> _]. split; [done|]. split; [done|]. split; [|lia]. intros y Hy.
    apply (strong_dep_inv id true y _ Hn) in Hy as [[_ ?]|Hy]; [done|by apply S1]. }
  assert (∀ y, strong_dep b t false y → ordered d1 y) as Hfull.
  { destruct thr; [|done]. cbn in Et. apply Z.eqb_neq in Et. apply P1. lia. }
  destruct (order_done_spec h d1 id true d' r I1 H Hr) as (G2 & I2 & Hid); [| |done|].
  { intros y Hy. apply (strong_dep_inv id false y _ Hn) in Hy as [[-> _]|Hy]; [by left|right; by apply Hfull]. }
  { unfold needs. rewrite Hn. exact Hfull. }
  assert (∀ y, strong_dep b id false y → ordered d' y) as Hall.
  { intros y Hy. apply (strong_dep_inv id false y _ Hn) in Hy as [[-> _]|Hy]; [done|]. by apply (gr_ordered _ _ G2), Hfull. }
  split; [by eapply grows_trans|]. split; [done|]. split; [|by intros _]. intros y Hy. by apply Hall, strong_dep_any with thr.
Qed.

Lemma order_proto h d id rt ps thr d' r order s : order_spec order → dump_ok d → order_inv (h ++ d_queue d) d →
  node_at b id = Some (NdProto rt ps) → order_body order d id thr s (NdProto rt ps) = Some (d', r) → 0 ≤ r →
  grows d d' ∧ order_inv (h ++ d_queue d') d' ∧ (∀ thr y, strong_dep b id thr y → ordered d' y).
Proof.
  intros Ho Hd Hi Hn H Hr. cbn [order_body] in H. destruct (order d rt thr) as [[d1 e1]|] eqn:E1; [|done]. cbn [mbind option_bind] in H.
  destruct (Z.ltb_spec e1 0) as [|He1]; [simplify_eq; lia|]. destruct (Ho h d rt thr d1 e1 Hd Hi E1 He1) as (G1 & I1 & S1 & _).
  destruct (order_each _ d1 ps _) as [[[d2 e2] st2]|] eqn:E2; [|done]. cbn [mbind option_bind] in H. simplify_eq.
  destruct (Z.ltb_spec e2 0) as [|He2]; [lia|].
  destruct (order_each_spec order thr Ho ps h d1 d' e2 _ st2 (gr_ok _ _ G1 Hd) I1 E2 He2) as (G2 & I2 & S2).
  split; [by eapply grows_trans|]. split; [done|]. intros thr' y Hy.
  apply (strong_dep_inv id thr' y _ Hn) in Hy as (t & Ht & Hy).
  assert (strong_dep b t thr y) as Hty by (destruct thr; [done|by apply strong_dep_weaken]).
  apply elem_of_cons in Ht as [->|Ht]; [apply (gr_ordered _ _ G2); by apply S1|by eapply S2].
Qed.

(** Ordering a type orders what it needs, and keeps the invariant. *)
Lemma order_type_spec fuel : order_spec (btf_dump_order_type fuel).
Proof.
  induction fuel as [|fuel IH]; intros h d id thr d' r Hd Hi H Hr; [done|].
  pose proof H as H0. cbn [btf_dump_order_type] in H0. destruct (state_of d id) as [s|] eqn:Hs; [|done]. cbn [mbind option_bind] in H0.
  destruct (decide (order_state s = ORDERED)) as [Eo|Eo].
  { simplify_eq. split; [apply grows_refl|]. split; [done|]. assert (ordered d' id) as Hord by (by exists s).
    split; [intros y Hy; apply strong_dep_any in Hy|intros _ y Hy]; by eapply (oi_deps _ _ Hi). }
  destruct (btf__type_by_id (d_btf d) id) as [t|] eqn:Et; [|done]. clear H0.
  destruct (node_at (d_btf d) id) as [nd|] eqn:Hn.
  2: { exfalso. unfold node_at in Hn. rewrite Et in Hn. cbn in Hn. rewrite (dk_btf _ Hd) in Et. destruct (Hwf id t Et). congruence. }
  rewrite (order_type_S fuel d id thr s nd Hs Hn) in H. rewrite decide_False in H by done. rewrite (dk_btf _ Hd) in Hn.
  destruct (decide (order_state s = ORDERING)) as [Eg|Eg].
  { assert (r = 0 ∧ d' = d ∧ thr = true ∧ ∃ ms, nd = NdComp true ms) as (-> & -> & -> & ms & ->).
    { destruct nd as [| | |[] ms| | | | | |], thr; simplify_eq; unfold ELOOP in Hr; try lia. eauto 10. }
    split; [apply grows_refl|]. split; [done|]. split; [|lia]. intros y Hy. by apply (strong_dep_inv id true y _ Hn) in Hy as [_ ?]. }
  destruct nd as [|t'|t'|named ms|named|t'|t'|rt ps| |].
  - cbn [order_body] in H. destruct (mark_order d id ORDERED) as [d1|] eqn:Em; [|done]. cbn in H. simplify_eq.
    destruct (marked_base h d id NdBase Hn ltac:(by left) Hi d' Em) as (G & I & S). split; [done|]. split; [done|]. split; [apply S|by intros _; apply S].
  - destruct (order_ptr h d id t' d' r _ IH Hd Hi Hn H Hr) as (G & I & S). split; [done|]. split; [done|]. split; [apply S|by intros _; apply S].
  - cbn [order_body] in H. destruct (IH h d t' false d' r Hd Hi H Hr) as (G & I & S & _). split; [done|]. split; [done|].
    split; [intros y Hy|intros _ y Hy]; apply (strong_dep_inv _ _ _ _ Hn) in Hy; by apply S.
  - by eapply order_comp.
  - by eapply order_enum.
  - by eapply order_typedef.
  - cbn [order_body] in H. destruct (IH h d t' thr d' r Hd Hi H Hr) as (G & I & S & P). split; [done|]. split; [done|].
    split; [intros y Hy|intros Hp y Hy]; apply (strong_dep_inv _ _ _ _ Hn) in Hy; [by apply S|by apply P].
  - destruct (order_proto h d id rt ps thr d' r _ s IH Hd Hi Hn H Hr) as (G & I & S). split; [done|]. split; [done|]. split; [apply S|by intros _; apply S].
  - cbn [order_body] in H. destruct (mark_order d id ORDERED) as [d1|] eqn:Em; [|done]. cbn in H. simplify_eq.
    destruct (marked_base h d id NdOther Hn ltac:(by right) Hi d' Em) as (G & I & S). split; [done|]. split; [done|]. split; [apply S|by intros _; apply S].
  - cbn [order_body] in H. by simplify_eq.
Qed.
End order.

(** * The recursion ends *)

(** References other than those of members lead downwards. *)
Definition descends (b : btf) (rank : Z → nat) : Prop :=
  ∀ id nd, node_at b id = Some nd → (∀ named ms, nd ≠ NdComp named ms) → ∀ t, t ∈ targets nd → (rank t < rank id)%nat.

Section ends.
Context (b : btf) (R : Z → bool) (rank : Z → nat) (top : nat).
Notation n := (btf__type_cnt b).
Context (Hnodes : ∀ id, 0 ≤ id < n → ∃ nd, node_at b id = Some nd ∧ ∀ t, t ∈ targets nd → 0 ≤ t < n).
Context (Hrank : descends b rank) (Htop : ∀ id, (rank id ≤ top)%nat).

Definition is_comp (id : Z) : bool := match node_at b id with Some (NdComp _ _) => true | _ => false end.

Definition fresh_comp (d : btf_dump) (id : Z) : Prop := is_comp id = true ∧ ∃ s, state_of d id = Some s ∧ order_state s = NOT_ORDERED.

#[local] Instance fresh_comp_dec d id : Decision (fresh_comp d id).
Proof.
  unfold fresh_comp. destruct (is_comp id); [|right; by intros [??]]. destruct (state_of d id) as [s|]; [|right; by intros [_ (?&?&?)]].
  destruct (decide (order_state s = NOT_ORDERED)); [left; eauto|right; intros [_ (s' & [= <-] & ?)]; done].
Defined.

(** The structs and unions that have not been visited. *)
Definition fresh (d : btf_dump) : list nat := filter (λ i, fresh_comp d (Z.of_nat i)) (seq 0 (Z.to_nat n)).
Definition level (d : btf_dump) : nat := length (fresh d).
Definition rk (id : Z) : nat := if is_comp id then O else rank id.

Lemma level_le d d' : (∀ id, fresh_comp d' id → fresh_comp d id) → (level d' ≤ level d)%nat.
Proof.
  intros H. unfold level, fresh. induction (seq 0 (Z.to_nat n)) as [|i l IH]; [done|]. rewrite !filter_cons.
  destruct (decide (fresh_comp d' (Z.of_nat i))); [rewrite decide_True by auto|destruct (decide _)]; cbn; lia.
Qed.

Lemma level_lt d d' id : 0 ≤ id < n → fresh_comp d id → ¬ fresh_comp d' id → (∀ id, fresh_comp d' id → fresh_comp d id) → (level d' < level d)%nat.
Proof.
  intros Hid Hf Hf' H. unfold level, fresh. assert (Z.to_nat id ∈ seq 0 (Z.to_nat n)) as Hin by (apply elem_of_seq; lia).
  assert (∀ l, (length (filter (λ i, fresh_comp d' (Z.of_nat i)) l) ≤ length (filter (λ i, fresh_comp d (Z.of_nat i)) l))%nat) as Hle.
  { intros l. induction l as [|i l IH]; [done|]. rewrite !filter_cons.
    destruct (decide (fresh_comp d' (Z.of_nat i))); [rewrite decide_True by auto|destruct (decide _)]; cbn; lia. }
  induction (seq 0 (Z.to_nat n)) as [|i l IH]; [by apply elem_of_nil in Hin|]. rewrite !filter_cons. apply elem_of_cons in Hin as [<-|Hin].
  - rewrite Z2Nat.id by lia. rewrite decide_False, decide_True by done. cbn. specialize (Hle l). lia.
  - specialize (IH Hin). destruct (decide (fresh_comp d' (Z.of_nat i))); [rewrite decide_True by auto|destruct (decide _)]; cbn; lia.
Qed.

(** What a visit leaves. *)
Record visited (d d' : btf_dump) : Prop := {
  vi_ok : dump_ok b R n d';
  vi_last : d_last_id d' = d_last_id d;
  vi_fresh : ∀ id, fresh_comp d' id → fresh_comp d id;
}.

Lemma visited_refl d : dump_ok b R n d → visited d d.
Proof. by split. Qed.

Lemma visited_trans d1 d2 d3 : visited d1 d2 → visited d2 d3 → visited d1 d3.
Proof. intros [H1 H2 H3] [H4 H5 H6]. split; [done|congruence|auto]. Qed.

Lemma mark_total d id o : dump_ok b R n d → 0 ≤ id < n → o ≠ NOT_ORDERED → ∃ d', mark_order d id o = Some d' ∧ visited d d' ∧ ¬ fresh_comp d' id.
Proof.
  intros Hd Hid Ho. destruct (dk_states _ _ _ _ Hd id Hid) as [s Hs].
  assert (mark_order d id o = Some (set_state d id (set_order s o))) as E by (unfold mark_order; by rewrite Hs).
  destruct (mark_order_spec _ _ _ _ E) as (s' & Hs' & _ & Hst). assert (s' = s) as -> by congruence.
  eexists. split; [exact E|].
  assert (∀ id', fresh_comp (set_state d id (set_order s o)) id' → id' ≠ id ∧ fresh_comp d id') as Hf.
  { intros id' [Hc (s1 & Hs1 & Hn)]. rewrite Hst in Hs1. destruct (decide (id' = id)); [simplify_eq; by cbn in Hn|]. split; [done|]. by split; [|exists s1]. }
  split; [|by intros H; apply Hf in H as [? _]]. split; [|done|intros id' H; by apply Hf in H as [_ ?]].
  destruct Hd as [H1 H2 H3]. split; [done| |].
  - intros id' Hi. rewrite Hst. destruct (decide _); [by eexists|by apply H2].
  - intros id' s1. rewrite Hst. destruct (decide (id' = id)) as [->|]; [|apply H3]. intros [= <-]. exact (H3 id s Hs).
Qed.

Lemma add_queue_visited d id : dump_ok b R n d → visited d (btf_dump_add_emit_queue_id d id).1.
Proof.
  intros Hd. assert (∀ d', d_btf d' = d_btf d → d_states d' = d_states d → d_last_id d' = d_last_id d → visited d d') as H.
  { intros d' Hb Hs Hl. assert (∀ x, state_of d' x = state_of d x) as Hst by (intros x; unfold state_of; by rewrite Hs).
    destruct Hd as [H1 H2 H3]. split; [split; [by rewrite Hb|by setoid_rewrite Hst|by setoid_rewrite Hst]|done|].
    intros x. unfold fresh_comp. by rewrite Hst. }
  unfold btf_dump_add_emit_queue_id, take_alloc. destruct (_ >=? _); [|by apply H].
  destruct (d_alloc d); destruct (libbpf_reallocarray _ _ _); by apply H.
Qed.

Lemma order_done_total d id add : dump_ok b R n d → 0 ≤ id < n → ∃ d' r, order_done d id add = Some (d', r) ∧ visited d d'.
Proof.
  intros Hd Hid. unfold order_done.
  assert (∃ d1 err, (if add then btf_dump_add_emit_queue_id d id else (d, 0)) = (d1, err) ∧ visited d d1) as (d1 & err & -> & V1).
  { destruct add; [|exists d, 0; by split; [|apply visited_refl]]. pose proof (add_queue_visited d id Hd). destruct (btf_dump_add_emit_queue_id d id). eauto. }
  destruct (err =? 0); cbn [negb]; [|eauto]. destruct (mark_total d1 id ORDERED (vi_ok _ _ V1) Hid ltac:(done)) as (d2 & -> & V2 & _).
  cbn. exists d2, 1. split; [done|]. by eapply visited_trans.
Qed.

Definition ends_at (order : btf_dump → Z → bool → option (btf_dump * Z)) (f : nat) : Prop :=
  ∀ d id thr, dump_ok b R n d → 0 ≤ id < n → (level d * (top + 2) + rk id < f)%nat → ∃ d' r, order d id thr = Some (d', r) ∧ visited d d'.

Lemma order_each_total order f thr : ends_at order f → ∀ ids d strong, dump_ok b R n d → (∀ t, t ∈ ids → 0 ≤ t < n ∧ (level d * (top + 2) + rk t < f)%nat) →
  ∃ d' err st, order_each (λ d m, order d m thr) d ids strong = Some (d', err, st) ∧ visited d d'.
Proof.
  intros Ho ids. induction ids as [|id ids IH]; intros d strong Hd Ht; cbn [order_each].
  - do 3 eexists. split; [done|]. by apply visited_refl.
  - destruct (Ht id ltac:(set_solver)) as [Hid Hf]. destruct (Ho d id thr Hd Hid Hf) as (d1 & r & -> & V1). cbn [mbind option_bind].
    destruct (r <? 0); [by do 3 eexists|]. destruct (IH d1 (strong || (r >? 0)) (vi_ok _ _ V1)) as (d' & err & st & -> & V2).
    { intros t Hin. destruct (Ht t ltac:(set_solver)) as [? Hft]. split; [done|]. pose proof (level_le d d1 (vi_fresh _ _ V1)). nia. }
    do 3 eexists. split; [done|]. by eapply visited_trans.
Qed.

Lemma rk_target id nd t : node_at b id = Some nd → (∀ named ms, nd ≠ NdComp named ms) → t ∈ targets nd → (rk t < rk id)%nat.
Proof.
  intros Hn Hc Ht. pose proof (Hrank id nd Hn Hc t Ht). unfold rk. assert (is_comp id = false) as ->.
  { unfold is_comp. rewrite Hn. destruct nd; try done. by destruct (Hc named members). }
  destruct (is_comp t); lia.
Qed.

Lemma order_ends fuel : ends_at (btf_dump_order_type fuel) fuel.
Proof.
  induction fuel as [|fuel IH]; intros d id thr Hd Hid Hf; [lia|]. destruct (dk_states _ _ _ _ Hd id Hid) as [s Hs].
  destruct (Hnodes id Hid) as (nd & Hn & Ht). rewrite (order_type_S fuel d id thr s nd Hs) by (by rewrite (dk_btf _ _ _ _ Hd)).
  destruct (decide (order_state s = ORDERED)) as [|Eo]; [do 2 eexists; by split; [|apply visited_refl]|].
  destruct (decide (order_state s = ORDERING)) as [|Eg]; [do 2 eexists; by split; [|apply visited_refl]|].
  assert (∀ t, (∀ named ms, nd ≠ NdComp named ms) → t ∈ targets nd → 0 ≤ t < n ∧ (level d * (top + 2) + rk t < fuel)%nat) as Hdown.
  { intros t Hc Hin. split; [by apply Ht|]. pose proof (rk_target id nd t Hn Hc Hin). lia. }
  assert (∃ d', mark_order d id ORDERED = Some d' ∧ visited d d') as Hmark.
  { destruct (mark_total d id ORDERED Hd Hid ltac:(done)) as (d' & ? & ? & _). eauto. }
  destruct nd as [|t|t|named ms|named|t|t|rt ps| |]; cbn [order_body targets] in *.
  - destruct Hmark as (d' & -> & V). by do 2 eexists.
  - destruct (Hdown t ltac:(done) ltac:(set_solver)) as [Ht1 Ht2]. destruct (IH d t true Hd Ht1 Ht2) as (d1 & r & -> & V1). cbn [mbind option_bind].
    destruct (mark_total d1 id ORDERED (vi_ok _ _ V1) Hid ltac:(done)) as (d2 & -> & V2 & _). do 2 eexists. split; [done|]. by eapply visited_trans.
  - destruct (Hdown t ltac:(done) ltac:(set_solver)) as [Ht1 Ht2]. by apply IH.
  - destruct (thr && named); [do 2 eexists; by split; [|apply visited_refl]|].
    destruct (mark_total d id ORDERING Hd Hid ltac:(done)) as (d1 & -> & V1 & Hnf). cbn [mbind option_bind].
    assert (is_comp id = true) as Hc by (unfold is_comp; by rewrite Hn).
    assert (fresh_comp d id) as Hfr by (split; [done|]; exists s; split; [done|]; by destruct (order_state s)).
    pose proof (level_lt d d1 id Hid Hfr Hnf (vi_fresh _ _ V1)) as Hlev.
    destruct (order_each_total _ fuel false IH ms d1 false (vi_ok _ _ V1)) as (d2 & err & st & -> & V2).
    { intros t Hin. split; [by apply Ht|]. unfold rk in *. rewrite Hc in Hf. pose proof (Htop t). destruct (is_comp t); nia. }
    cbn [mbind option_bind]. destruct (err <? 0); [do 2 eexists; split; [done|]; by eapply visited_trans|].
    destruct (order_done_total d2 id named (vi_ok _ _ V2) Hid) as (d3 & r & -> & V3). do 2 eexists. split; [done|].
    eapply visited_trans; [done|]. by eapply visited_trans.
  - by apply order_done_total.
  - destruct (Hdown t ltac:(done) ltac:(set_solver)) as [Ht1 Ht2]. destruct (IH d t thr Hd Ht1 Ht2) as (d1 & r & -> & V1). cbn [mbind option_bind].
    destruct (r <? 0); [by do 2 eexists|]. destruct (thr && (r =? 0)); [by do 2 eexists|].
    destruct (order_done_total d1 id true (vi_ok _ _ V1) Hid) as (d2 & r2 & -> & V2). do 2 eexists. split; [done|]. by eapply visited_trans.
  - destruct (Hdown t ltac:(done) ltac:(set_solver)) as [Ht1 Ht2]. by apply IH.
  - destruct (Hdown rt ltac:(done) ltac:(set_solver)) as [Ht1 Ht2]. destruct (IH d rt thr Hd Ht1 Ht2) as (d1 & r & -> & V1). cbn [mbind option_bind].
    destruct (r <? 0); [by do 2 eexists|].
    destruct (order_each_total _ fuel thr IH ps d1 (r >? 0) (vi_ok _ _ V1)) as (d2 & err & st & -> & V2).
    { intros t Hin. destruct (Hdown t ltac:(done) ltac:(set_solver)) as [? Hlt]. split; [done|]. pose proof (level_le d d1 (vi_fresh _ _ V1)). nia. }
    cbn [mbind option_bind]. do 2 eexists. split; [done|]. by eapply visited_trans.
  - destruct Hmark as (d' & -> & V). by do 2 eexists.
  - do 2 eexists. by split; [|apply visited_refl].
Qed.
End ends.

(** * A new dump *)

(** The types that the types from [i] on refer to, as the dump marks them. *)
Fixpoint refs_upto (b : btf) (k : nat) (i : Z) : list Z :=
  match k with
  | O => []
  | S k => default [] (default None (t ← btf__type_by_id b i; referenced_by t)) ++ refs_upto b k (i + 1)
  end.

Definition all_refs (b : btf) : list Z := refs_upto b (Z.to_nat (btf__type_cnt b - 1)) 1.
Definition is_ref (b : btf) (id : Z) : bool := bool_decide (id ∈ all_refs b).

(** Nothing but the states changes. *)
Definition same_rest (d d' : btf_dump) : Prop :=
  d_btf d' = d_btf d ∧ d_last_id d' = d_last_id d ∧ d_queue d' = d_queue d.

Lemma mark_refs_spec ids d d' : foldM mark_ref d ids = Some d' → same_rest d d' ∧
  ∀ id, state_of d' id = if decide (id ∈ ids) then set_referenced <$> state_of d id else state_of d id.
Proof.
  revert d. induction ids as [|x ids IH]; intros d; cbn [foldM].
  - intros [= <-]. split; [done|]. intros id. by rewrite decide_False by apply not_elem_of_nil.
  - destruct (mark_ref d x) as [d1|] eqn:E1; [|done]. cbn [mbind option_bind]. intros H.
    unfold mark_ref in E1. destruct (state_of d x) as [s|] eqn:Es; [|done]. cbn [mbind option_bind] in E1. injection E1 as <-.
    destruct (IH _ H) as [(R1 & R2 & R3) Hst]. split; [done|]. intros id. rewrite Hst, (state_of_set d x) by (by exists s).
    destruct (decide (id = x)) as [->|Hne].
    + rewrite (decide_True (P := x ∈ x :: ids)) by set_solver. rewrite Es. by destruct (decide (x ∈ ids)).
    + destruct (decide (id ∈ ids)); [by rewrite decide_True by set_solver|]. by rewrite decide_False by set_solver.
Qed.

Lemma mark_referenced_spec k d i d' : mark_referenced_from k d i = Some (d', 0) → same_rest d d' ∧
  ∀ id, state_of d' id = if decide (id ∈ refs_upto (d_btf d) k i) then set_referenced <$> state_of d id else state_of d id.
Proof.
  revert d i. induction k as [|k IH]; intros d i; cbn [mark_referenced_from refs_upto].
  - intros [= <-]. split; [done|]. intros id. by rewrite decide_False by apply not_elem_of_nil.
  - destruct (btf__type_by_id (d_btf d) i) as [t|]; [|done]. cbn [mbind option_bind].
    destruct (referenced_by t) as [[ids|]|]; [|done..]. cbn [mbind option_bind default from_option id].
    destruct (foldM mark_ref d ids) as [d1|] eqn:E1; [|done]. cbn [mbind option_bind]. intros H.
    destruct (mark_refs_spec ids d d1 E1) as [(R1 & R2 & R3) S1]. destruct (IH d1 (i + 1) H) as [(R4 & R5 & R6) S2].
    split; [split; [congruence|split; congruence]|]. intros id. rewrite S2, S1, R1. cbn.
    destruct (decide (id ∈ refs_upto (d_btf d) k (i + 1))), (decide (id ∈ ids));
      [rewrite decide_True by (apply elem_of_app; auto)..|rewrite decide_False by (rewrite elem_of_app; naive_solver)]; try done.
    by destruct (state_of d id).
Qed.

Lemma ensure_list_spec {A} ok (l : list A) zero sz need l' : 0 ≤ need < 2 ^ 64 → Z.of_nat (length l) < 2 ^ 64 → ensure_list ok l zero sz need = (l', 0) →
  ∃ k, l' = l ++ replicate k zero ∧ need ≤ Z.of_nat (length l') ∧ Z.of_nat k < need + 2 * Z.of_nat (length l) + 17.
Proof.
  intros Hn Hl. unfold ensure_list. destruct (Z.leb_spec need (Z.of_nat (length l))) as [|Hlt].
  { intros [= <-]. exists O. rewrite app_nil_r. split; [done|lia]. }
  destruct (need >? SIZE_MAX); [done|]. destruct (libbpf_reallocarray _ _ _); [|done]. intros [= <-]. eexists. split; [done|].
  rewrite length_app, length_replicate. unfold add_mem_cnt. set (c := Z.of_nat (length l)) in *. set (m := if _ >? SIZE_MAX then _ else _).
  assert (0 ≤ c) as Hc by (unfold c; lia). assert (m < 2 * c + 17) as Hm.
  { assert (u64 (c + c / 4) ≤ c + c / 4) by (apply Z.mod_le; [pose proof (Z.div_pos c 4)|]; lia). pose proof (Z.div_le_upper_bound c 4 c).
    unfold m. clear m. destruct (Z.ltb_spec (u64 (c + c / 4)) 16); [change (16 >? SIZE_MAX) with false; cbv iota; lia|].
    destruct (Z.gtb_spec (u64 (c + c / 4)) SIZE_MAX); lia. }
  rewrite (wrap_small 64 (need - _)) by (unfold in_u; lia). replace (c + (need - c)) with need by lia.
  rewrite (wrap_small 64 need) by (unfold in_u; lia). clearbody m. destruct (Z.ltb_spec m need); lia.
Qed.

(** A dump before the types that others refer to are marked. *)
Definition unmarked_dump (b : btf) (ptr_sz : Z) (n m : nat) (alloc : list bool) : btf_dump :=
  mkDump b ptr_sz false false 0 (<[O := set_emit (set_order aux_zero ORDERED) EMITTED]> (replicate n aux_zero)) (replicate m None)
    [] 0 (mkStack 0 0 0) hashmap__init hashmap__init [] alloc.

Lemma take_alloc_spec d : ∃ ok al, take_alloc d = (ok, with_alloc d al) ∧ (d_alloc d = [] → al = []).
Proof.
  unfold take_alloc. destruct (d_alloc d) as [|ok al] eqn:E; [|by exists ok, al]. exists true, []. split; [|done]. f_equal. destruct d. cbn in E. by subst.
Qed.

Definition empty_dump (b : btf) (ptr_sz : Z) (alloc : list bool) : btf_dump :=
  mkDump b ptr_sz false false 0 [] [] [] 0 (mkStack 0 0 0) hashmap__init hashmap__init [] alloc.

Lemma resize_empty b psz al d : 1 < btf__type_cnt b < 2 ^ 31 → btf_dump_resize (empty_dump b psz al) = Some (d, 0) →
  ∃ n m al' d', btf_dump_mark_referenced (unmarked_dump b psz n m al') = Some (d', 0) ∧
    d = with_last_id d' (btf__type_cnt b - 1) ∧ (al = [] → al' = []) ∧ btf__type_cnt b ≤ Z.of_nat n < 2 ^ 32 ∧ btf__type_cnt b ≤ Z.of_nat m.
Proof.
  intros Hn. unfold btf_dump_resize. change (d_btf (empty_dump b psz al)) with b. change (d_last_id (empty_dump b psz al)) with 0.
  set (cnt := btf__type_cnt b) in *. rewrite (swrap_small 32 (cnt - 1)) by lia. destruct (Z.leb_spec (cnt - 1) 0); [lia|].
  replace (cnt - 1 + 1) with cnt by lia. rewrite (swrap_small 32 cnt) by lia. rewrite (wrap_small 64 cnt) by (unfold in_u; lia).
  destruct (take_alloc_spec (empty_dump b psz al)) as (ok3 & al3 & -> & H3). change (with_alloc (empty_dump b psz al) al3) with (empty_dump b psz al3).
  change (d_states (empty_dump b psz al3)) with (@nil aux_state).
  destruct (ensure_list ok3 [] aux_zero 1 cnt) as [states err3] eqn:E3. destruct (Z.eqb_spec err3 0) as [->|]; [|done]. cbn [negb].
  destruct (take_alloc_spec (with_states (empty_dump b psz al3) states)) as (ok4 & al4 & -> & H4).
  change (d_names (with_alloc (with_states (empty_dump b psz al3) states) al4)) with (@nil (option (list Z))).
  destruct (ensure_list ok4 [] None 8 cnt) as [names err4] eqn:E4. destruct (Z.eqb_spec err4 0) as [->|]; [|done]. cbn [negb].
  apply ensure_list_spec in E3 as (n & -> & Hn1 & Hn2); [|lia|cbn; lia]. apply ensure_list_spec in E4 as (m & -> & Hm1 & _); [|lia|cbn; lia].
  cbn [app] in *. rewrite length_replicate in Hn1. rewrite length_replicate in Hm1. cbn [length] in Hn2. destruct n as [|n]; [lia|].
  set (d4 := with_names _ _). change (d_last_id d4) with 0. change (0 =? 0) with true. cbv iota.
  change (state_of d4 0) with (Some aux_zero). cbn [mbind option_bind].
  change (set_state d4 0 (set_emit (set_order aux_zero ORDERED) EMITTED)) with (unmarked_dump b psz (S n) m al4). clear d4.
  destruct (btf_dump_mark_referenced (unmarked_dump b psz (S n) m al4)) as [[d' err7]|] eqn:E7; [|done]. cbn [mbind option_bind].
  destruct (Z.eqb_spec err7 0) as [->|]; cbn [negb]; [|intros; by simplify_eq]. intros [= <-].
  exists (S n), m, al4, d'. split; [exact E7|]. split; [done|]. split; [exact (λ Hal, H4 (H3 Hal))|]. clear E7. lia.
Qed.

(** A new dump, in terms of its fields. *)
Lemma new_dump_shape b opts_valid alloc d : 1 < btf__type_cnt b < 2 ^ 31 → btf_dump__new b true opts_valid alloc = Some (inl d) →
  ∃ psz n m al d', btf_dump_mark_referenced (unmarked_dump b psz n m al) = Some (d', 0) ∧
    d = with_last_id d' (btf__type_cnt b - 1) ∧ (alloc = [] → al = []) ∧ btf__type_cnt b ≤ Z.of_nat n < 2 ^ 32 ∧ btf__type_cnt b ≤ Z.of_nat m.
Proof.
  intros Hn. unfold btf_dump__new. destruct (negb opts_valid || negb true); [done|].
  destruct (btf__pointer_size b) as [psz|]; [|done]. cbn [mbind option_bind]. set (sz := if psz =? 0 then 8 else psz).
  change (mkDump b _ false false 0 [] [] [] 0 (mkStack 0 0 0) hashmap__init hashmap__init [] alloc) with (empty_dump b sz alloc).
  destruct (take_alloc_spec (empty_dump b sz alloc)) as ([] & al0 & -> & H0); [|done]. cbn [negb].
  change (with_alloc (empty_dump b sz alloc) al0) with (empty_dump b sz al0).
  destruct (take_alloc_spec (empty_dump b sz al0)) as ([] & al1 & -> & H1); [|done]. cbn [negb].
  change (with_alloc (empty_dump b sz al0) al1) with (empty_dump b sz al1).
  destruct (take_alloc_spec (empty_dump b sz al1)) as ([] & al2 & -> & H2); [|done]. cbn [negb].
  change (with_alloc (empty_dump b sz al1) al2) with (empty_dump b sz al2).
  destruct (btf_dump_resize (empty_dump b sz al2)) as [[d' err]|] eqn:Er; [|done]. cbn [mbind option_bind]. destruct (Z.eqb_spec err 0) as [->|]; [|done].
  cbn [negb]. intros [= ->]. destruct (resize_empty b sz al2 d Hn Er) as (n & m & al' & d1 & E & -> & Ha & Hb).
  exists sz, n, m, al', d1. split; [done|]. split; [done|]. split; [exact (λ Hal, Ha (H2 (H1 (H0 Hal))))|done].
Qed.

(** Nothing is ordered but void, and the types that others refer to are marked. *)
Lemma new_dump b opts_valid alloc d : btf__type_cnt b < 2 ^ 31 → 1 < btf__type_cnt b → btf_dump__new b true opts_valid alloc = Some (inl d) →
  dump_ok b (is_ref b) (btf__type_cnt b) d ∧ d_last_id d = btf__type_cnt b - 1 ∧ d_queue d = [] ∧ ∀ id, ordered d id → id = 0.
Proof.
  intros Hmax H1 H. destruct (new_dump_shape b opts_valid alloc d ltac:(lia) H) as (psz & k & m & al & d7 & E7 & -> & _ & Hk & _). clear H.
  set (d6 := unmarked_dump b psz k m al) in *.
  assert (∀ id, state_of d6 id = if decide (id = 0) then Some (set_emit (set_order aux_zero ORDERED) EMITTED) else
    if (0 <=? id) then replicate k aux_zero !! Z.to_nat id else None) as H6.
  { intros id. unfold state_of, d6. cbn [d_states unmarked_dump]. destruct (decide (id = 0)) as [->|Hne].
    - apply list_lookup_insert_eq. rewrite length_replicate. lia.
    - destruct (Z.leb_spec 0 id); [|done]. apply list_lookup_insert_ne. lia. }
  unfold btf_dump_mark_referenced in E7. change (d_btf d6) with b in E7. change (d_last_id d6) with 0 in E7. change (0 + 1) with 1 in E7.
  destruct (mark_referenced_spec _ d6 1 d7 E7) as [(B7 & L7 & Q7) S7]. change (d_btf d6) with b in *.
  change (refs_upto b (Z.to_nat (btf__type_cnt b - 1)) 1) with (all_refs b) in S7.
  assert (∀ id, state_of (with_last_id d7 (btf__type_cnt b - 1)) id = state_of d7 id) as Hlast by done.
  split; [split|split; [done|split]].
  - done.
  - intros id Hid. rewrite Hlast, S7, H6. assert (∃ s, (if decide (id = 0) then Some (set_emit (set_order aux_zero ORDERED) EMITTED) else
      if (0 <=? id) then replicate k aux_zero !! Z.to_nat id else None) = Some s) as [s ->].
    { destruct (decide (id = 0)); [eauto|]. destruct (Z.leb_spec 0 id); [|lia]. eexists. apply lookup_replicate_2. lia. }
    destruct (decide _); by eexists.
  - intros id s. rewrite Hlast, S7, H6. unfold is_ref.
    set (o := if decide (id = 0) then Some (set_emit (set_order aux_zero ORDERED) EMITTED) else if 0 <=? id then replicate k aux_zero !! Z.to_nat id else None).
    assert (∀ x, o = Some x → referenced x = false) as Ho.
    { intros x. unfold o. destruct (decide (id = 0)); [by intros [= <-]|]. destruct (0 <=? id); [|done]. intros Hx. by apply lookup_replicate in Hx as [-> _]. }
    destruct (decide (id ∈ all_refs b)).
    + destruct o; [|done]. intros [= <-]. by rewrite bool_decide_true.
    + intros Hs. rewrite bool_decide_false by done. by apply Ho.
  - done.
  - intros id (s & Hs & Hord). rewrite Hlast, S7, H6 in Hs. destruct (decide (id = 0)); [done|].
    destruct (0 <=? id); [|by destruct (decide (id ∈ all_refs b))].
    destruct (replicate k aux_zero !! Z.to_nat id) as [x|] eqn:Ex; [|by destruct (decide (id ∈ all_refs b))].
    apply lookup_replicate in Ex as [-> _]. destruct (decide (id ∈ all_refs b)); cbn in Hs; injection Hs as <-; done.
Qed.

(** * Calls *)

(** The first pass for one type after the other, with all definitions it puts out. *)
Fixpoint order_calls (fuel : nat) (d : btf_dump) (ids : list Z) : option (btf_dump * list Z * Z) :=
  match ids with
  | [] => Some (d, [], 0)
  | id :: ids =>
      '(d, err) ← btf_dump_order fuel d id;
      if negb (err =? 0) then Some (d, [], err)
      else '(d', h, err) ← order_calls fuel d ids; Some (d', d_queue d ++ h, err)
  end.

(** Enough rounds for every struct and union, between which a chain of references is no
    longer than [top]. *)
Definition dump_fuel (b : btf) (top : nat) : nat := S (Z.to_nat (btf__type_cnt b) * (top + 2) + top).

Lemma refs_from_total n at_ (P : Z → Prop) : (∀ i, 0 ≤ i < n → ∃ x, at_ i = Some x ∧ P x) → ∃ l, refs_from n at_ = Some l ∧ Forall P l.
Proof.
  intros H. unfold refs_from. assert (∀ l, Forall (λ i, 0 ≤ Z.of_nat i < n) l → ∃ r, mapM (λ i, at_ (Z.of_nat i)) l = Some r ∧ Forall P r) as Hl.
  { intros l. induction 1 as [|i l Hi _ IH]; [by exists []|]. destruct IH as (r & Hr & Hp). destruct (H _ Hi) as (x & Hx & Hpx).
    exists (x :: r). split; [|by constructor]. cbn. rewrite Hx. cbn. by rewrite Hr. }
  apply Hl. apply Forall_forall. intros i Hi%elem_of_seq. lia.
Qed.

Section calls.
Context (b : btf) (Hwf : btf_wf b = true).
Notation n := (btf__type_cnt b).

Lemma valid_range id : valid b id → 0 ≤ id < n.
Proof. intros [t Ht]. by apply (wf_type b Hwf) in Ht as (? & _). Qed.

(** Well-formed types are nodes that lead to types. *)
Lemma wf_node id t : btf__type_by_id b id = Some t → ∃ nd, node_of t = Some nd ∧ ∀ y, y ∈ targets nd → 0 ≤ y < n.
Proof.
  intros Ht. destruct (wf_type b Hwf id t Ht) as (_ & Hok & _). unfold node_of.
  destruct ((btf_kind t =? BTF_KIND_INT) || (btf_kind t =? BTF_KIND_FLOAT)); [eexists; split; [done|]; by intros y ?%elem_of_nil|].
  assert (∀ t', type_ok b t = true → (btf_kind t =? BTF_KIND_PTR) || btf_is_mod t || btf_is_typedef t = true → t' ∈ [bt_type t] → 0 ≤ t' < n) as Hone.
  { intros t' Hk Hc ->%list_elem_of_singleton. unfold type_ok in Hk. rewrite Hc in Hk. apply andb_prop in Hk as [_ Hk].
    apply valid_range. by apply some_is_Some. }
  destruct (btf_kind t =? BTF_KIND_PTR) eqn:Ep; [eexists; split; [done|]; intros y; apply Hone; [done|by rewrite ?Ep]|].
  destruct (Z.eqb_spec (btf_kind t) BTF_KIND_ARRAY) as [Ea|_].
  { destruct (type_ok_array b t Hok Ea) as (a & -> & Hv). eexists. split; [done|]. intros y ->%list_elem_of_singleton. by apply valid_range. }
  destruct ((btf_kind t =? BTF_KIND_STRUCT) || (btf_kind t =? BTF_KIND_UNION)) eqn:Ec.
  { destruct (refs_from_total (btf_vlen t) (λ i, m_type <$> btf_member_at t i) (λ y, 0 ≤ y < n)) as (l & Hl & Hp).
    { intros i Hi. destruct (type_ok_composite b t Hok Ec i Hi) as (m & name & Hm & Hv & _). exists (m_type m). rewrite Hm. split; [done|by apply valid_range]. }
    unfold member_types. rewrite Hl. eexists. split; [done|]. by rewrite Forall_forall in Hp. }
  destruct ((btf_kind t =? BTF_KIND_ENUM) || (btf_kind t =? BTF_KIND_ENUM64) || (btf_kind t =? BTF_KIND_FWD)); [eexists; split; [done|]; by intros y ?%elem_of_nil|].
  destruct (btf_kind t =? BTF_KIND_TYPEDEF) eqn:Etd.
  { eexists. split; [done|]. intros y. apply Hone; [done|]. unfold btf_is_typedef. by rewrite Etd, orb_true_r. }
  destruct ((btf_kind t =? BTF_KIND_VOLATILE) || (btf_kind t =? BTF_KIND_CONST) || (btf_kind t =? BTF_KIND_RESTRICT) || (btf_kind t =? BTF_KIND_TYPE_TAG)) eqn:Em.
  { eexists. split; [done|]. intros y. apply Hone; [done|]. unfold btf_is_mod. by rewrite Em, orb_true_r. }
  destruct (Z.eqb_spec (btf_kind t) BTF_KIND_FUNC_PROTO) as [Ef|_].
  { destruct (type_ok_proto b t Hok Ef) as [Hr Hps]. destruct (refs_from_total (btf_vlen t) (λ i, p_type <$> btf_param_at t i) (λ y, 0 ≤ y < n)) as (l & Hl & Hp).
    { intros i Hi. destruct (Hps i Hi) as (p & Hp & Hv). exists (p_type p). rewrite Hp. split; [done|by apply valid_range]. }
    unfold param_types. rewrite Hl. eexists. split; [done|]. intros y [->|Hy]%elem_of_cons; [by apply valid_range|]. rewrite Forall_forall in Hp. by apply Hp. }
  destruct ((btf_kind t =? BTF_KIND_FUNC) || (btf_kind t =? BTF_KIND_VAR) || (btf_kind t =? BTF_KIND_DATASEC) || (btf_kind t =? BTF_KIND_DECL_TAG));
    eexists; (split; [done|]); by intros y ?%elem_of_nil.
Qed.

Lemma wf_node_is_Some id t : btf__type_by_id b id = Some t → is_Some (node_of t).
Proof. intros Ht. destruct (wf_node id t Ht) as (nd & H & _). by exists nd. Qed.

Lemma void_node : 1 < n → node_at b 0 = Some NdBad.
Proof.
  intros H1. unfold node_at, btf__type_by_id. destruct (Z.geb_spec 0 n); [lia|]. by destruct b as [? ? ? ? [?|] ?].
Qed.
End calls.

(** A dump with all its states, in which nothing has to be resized. *)
Record dump_at (b : btf) (d : btf_dump) : Prop := {
  da_ok : dump_ok b (is_ref b) (btf__type_cnt b) d;
  da_last : d_last_id d = btf__type_cnt b - 1;
}.

Lemma resize_nothing b d : 1 < btf__type_cnt b < 2 ^ 31 → dump_at b d → btf_dump_resize d = Some (d, 0).
Proof.
  intros Hn [Hd Hl]. unfold btf_dump_resize. rewrite (dk_btf _ _ _ _ Hd), Hl. rewrite swrap_small by lia.
  destruct (Z.leb_spec (btf__type_cnt b - 1) (btf__type_cnt b - 1)); [done|lia].
Qed.

(** One call: in a dump where the definitions [h] are out. *)
Lemma order_call_spec b fuel d id d' h : btf_wf b = true → 1 < btf__type_cnt b < 2 ^ 31 → dump_at b d → order_inv b (is_ref b) h d →
  btf_dump_order fuel d id = Some (d', 0) →
  dump_at b d' ∧ order_inv b (is_ref b) (h ++ d_queue d') d' ∧ (∀ y, ordered d y → ordered d' y) ∧ ∀ y, strong_dep b id false y → ordered d' y.
Proof.
  intros Hwf Hn Hd Hi. unfold btf_dump_order. destruct (id >=? _); [done|]. rewrite (resize_nothing b d Hn Hd). cbn [mbind option_bind Z.eqb negb].
  set (d0 := with_queue d [] (d_queue_cap d)). assert (∀ y, ordered d0 y ↔ ordered d y) as Ho by done.
  destruct (btf_dump_order_type fuel d0 id false) as [[d1 r]|] eqn:E; [|done]. cbn [mbind option_bind].
  destruct (Z.ltb_spec r 0) as [|Hr]; intros Heq; simplify_eq; [lia|].
  assert (dump_ok b (is_ref b) (btf__type_cnt b) d0) as Hd0 by (destruct (da_ok _ _ Hd); split; done).
  assert (order_inv b (is_ref b) (h ++ d_queue d0) d0) as Hi0 by (cbn; rewrite app_nil_r; destruct Hi; split; done).
  destruct (order_type_spec b (is_ref b) (btf__type_cnt b) (wf_node_is_Some b Hwf) fuel h d0 id false d' r Hd0 Hi0 E Hr) as (G & I & S & _).
  split; [|split; [done|split; [apply G|done]]]. split; [by apply G|]. by rewrite (gr_last _ _ _ _ _ G), <- (da_last _ _ Hd).
Qed.

Lemma order_calls_spec b fuel : btf_wf b = true → 1 < btf__type_cnt b < 2 ^ 31 → ∀ ids d h0 d' h, dump_at b d → order_inv b (is_ref b) h0 d →
  order_calls fuel d ids = Some (d', h, 0) →
  order_inv b (is_ref b) (h0 ++ h) d' ∧ (∀ y, ordered d y → ordered d' y) ∧ ∀ id y, id ∈ ids → strong_dep b id false y → ordered d' y.
Proof.
  intros Hwf Hn ids. induction ids as [|id ids IH]; intros d h0 d' h Hd Hi; cbn [order_calls].
  - intros [= <- <-]. rewrite app_nil_r. split; [done|]. split; [done|]. by intros id y ?%elem_of_nil.
  - destruct (btf_dump_order fuel d id) as [[d1 err]|] eqn:E1; [|done]. cbn [mbind option_bind]. destruct (Z.eqb_spec err 0) as [->|]; cbn [negb]; [|intros; by simplify_eq].
    destruct (order_calls fuel d1 ids) as [[[d2 h2] err2]|] eqn:E2; [|done]. cbn [mbind option_bind]. intros [= -> <- ->].
    destruct (order_call_spec b fuel d id d1 h0 Hwf Hn Hd Hi E1) as (Hd1 & I1 & O1 & S1).
    destruct (IH d1 (h0 ++ d_queue d1) d' h2 Hd1 I1 E2) as (I2 & O2 & S2). rewrite app_assoc. split; [done|]. split; [auto|].
    intros x y [->|Hx]%elem_of_cons Hy; [by apply O2, S1|by eapply S2].
Qed.

Lemma new_dump_at b opts_valid alloc d : btf_wf b = true → 1 < btf__type_cnt b < 2 ^ 31 → btf_dump__new b true opts_valid alloc = Some (inl d) →
  dump_at b d ∧ order_inv b (is_ref b) [] d.
Proof.
  intros Hwf Hn H. destruct (new_dump b opts_valid alloc d ltac:(lia) ltac:(lia) H) as (Hd & Hl & _ & Ho). split; [done|].
  pose proof (void_node b Hwf ltac:(lia)) as Hv. split.
  - intros id y Hid%Ho Hs. subst id. by apply (strong_dep_inv b 0 false y _ Hv) in Hs.
  - intros x y Hx%Ho. subst x. unfold needs. by rewrite Hv.
  - intros y Hy%Ho. subst y. unfold defines. by rewrite Hv.
  - by intros i x Hx.
Qed.

(** C8. The order of a dump is one that C accepts: over any calls that succeed on a new
    dump of well-formed BTF, with whatever allocations fail on the way to it, every
    definition that is put out comes behind all definitions that it needs to be complete
    (those of its members and of the structs inside of it, through typedefs, modifiers
    and arrays, and behind pointers where a struct has no name), and everything that a
    requested type needs has been put out. *)
Theorem btf_dump_order_topological b opts_valid alloc d fuel ids d' h :
  btf_wf b = true → 1 < btf__type_cnt b < 2 ^ 31 → btf_dump__new b true opts_valid alloc = Some (inl d) →
  order_calls fuel d ids = Some (d', h, 0) →
  topological b (is_ref b) h ∧
  ∀ id x, id ∈ ids → strong_dep b id false x →
    (defines b (is_ref b) x = true → x ∈ h) ∧ ∀ y, requires b x y → defines b (is_ref b) y = true → y ∈ h.
Proof.
  intros Hwf Hn Hnew H. destruct (new_dump_at b opts_valid alloc d Hwf Hn Hnew) as [Hd Hi].
  destruct (order_calls_spec b fuel Hwf Hn ids d [] d' h Hd Hi H) as (I & _ & S). cbn [app] in I. split; [apply I|].
  intros id x Hid Hx. pose proof (S id x Hid Hx) as Ho. split; [intros Hdef; by apply (oi_out _ _ _ _ I)|].
  intros y Hr Hdef. apply (oi_out _ _ _ _ I); [|done]. eapply requires_ordered; [done| |done]. intros z Hz. by eapply (oi_needs _ _ _ _ I).
Qed.

(** C22. Ordering ends: on well-formed BTF in which chains of references between structs
    are no longer than [top], any calls, for any ids and whether or not they succeed,
    return within [dump_fuel] nested calls, and without an access outside the arrays. *)
Theorem btf_dump_order_ends b rank top opts_valid alloc d ids :
  btf_wf b = true → 1 < btf__type_cnt b < 2 ^ 31 → descends b rank → (∀ id, (rank id ≤ top)%nat) →
  btf_dump__new b true opts_valid alloc = Some (inl d) → Forall (λ id, 0 ≤ id) ids →
  ∃ d' h err, order_calls (dump_fuel b top) d ids = Some (d', h, err).
Proof.
  intros Hwf Hn Hrank Htop Hnew Hids. destruct (new_dump_at b opts_valid alloc d Hwf Hn Hnew) as [Hd _]. clear Hnew. revert d Hd.
  induction Hids as [|id ids Hid _ IH]; intros d Hd; cbn [order_calls]; [by do 3 eexists|].
  unfold btf_dump_order. rewrite (dk_btf _ _ _ _ (da_ok _ _ Hd)). destruct (Z.geb_spec id (btf__type_cnt b)) as [|Hlt].
  { cbn. by do 3 eexists. }
  rewrite (resize_nothing b d Hn Hd). cbn [mbind option_bind Z.eqb negb]. set (d0 := with_queue d [] (d_queue_cap d)).
  assert (dump_ok b (is_ref b) (btf__type_cnt b) d0) as Hd0 by (destruct (da_ok _ _ Hd); split; done).
  assert (∀ i, 0 ≤ i < btf__type_cnt b → ∃ nd, node_at b i = Some nd ∧ ∀ y, y ∈ targets nd → 0 ≤ y < btf__type_cnt b) as Hnodes.
  { intros i Hi. destruct (wf_ids b Hwf i Hi) as [t Ht]. destruct (wf_node b Hwf i t Ht) as (nd & Hnd & Hy). exists nd. unfold node_at. by rewrite Ht. }
  destruct (order_ends b (is_ref b) rank top Hnodes Hrank Htop (dump_fuel b top) d0 id false Hd0) as (d1 & r & -> & V); [lia| |].
  { unfold dump_fuel, rk. pose proof (Htop id). assert (level b d0 ≤ Z.to_nat (btf__type_cnt b))%nat.
    { unfold level, fresh. etransitivity; [apply length_filter|]. by rewrite length_seq. }
    destruct (is_comp b id); nia. }
  cbn [mbind option_bind]. destruct (r <? 0) eqn:Er; cbn [negb].
  - destruct (Z.eqb_spec r 0); cbn [negb]; [lia|]. by do 3 eexists.
  - cbn. destruct (IH d1) as (d2 & h & err & ->); [|cbn; by do 3 eexists].
    split; [apply V|]. by rewrite (vi_last _ _ _ _ V), <- (da_last _ _ Hd).
Qed.

(** * Examples *)

Definition demo_rank (id : Z) : nat := if bool_decide (id ∈ [4; 6; 7]) then 1 else if id =? 9 then 2 else 0.

Lemma demo_descends : descends demo_btf demo_rank.
Proof.
  intros id nd Hn Hc t Ht. assert (0 ≤ id < 10) as Hid.
  { unfold node_at in Hn. destruct (btf__type_by_id demo_btf id) eqn:E; [|done]. by apply (wf_type demo_btf demo_wf) in E as (? & _). }
  assert (id = 0 ∨ id = 1 ∨ id = 2 ∨ id = 3 ∨ id = 4 ∨ id = 5 ∨ id = 6 ∨ id = 7 ∨ id = 8 ∨ id = 9) as Hids by lia.
  revert Hn. decompose [or] Hids; subst id; intros [= <-]; try (exfalso; by eapply Hc); cbn in Ht; revert Ht;
    rewrite ?elem_of_cons, ?elem_of_nil; intros Ht; decompose [or] Ht; subst; try done; apply Nat.ltb_lt; vm_compute; reflexivity.
Qed.

Definition demo_dump : btf_dump :=
  match btf_dump__new demo_btf true true [] with Some (inl d) => d | _ => mkDump demo_btf 8 false false 0 [] [] [] 0 (mkStack 0 0 0) hashmap__init hashmap__init [] [] end.

Lemma btf_dump_order_topological_witness :
  ∃ d' h, order_calls (dump_fuel demo_btf 2) demo_dump [9; 7] = Some (d', h, 0) ∧ h = [8; 3; 7] ∧ topological demo_btf (is_ref demo_btf) h.
Proof.
  assert (∃ d' h, order_calls (dump_fuel demo_btf 2) demo_dump [9; 7] = Some (d', h, 0) ∧ h = [8; 3; 7]) as (d' & h & E & Hh)
    by (do 2 eexists; split; vm_compute; reflexivity).
  exists d', h. split; [exact E|]. split; [exact Hh|].
  apply (btf_dump_order_topological demo_btf true [] demo_dump (dump_fuel demo_btf 2) [9; 7] d' h); [vm_compute; reflexivity|split; vm_compute; reflexivity|vm_compute; reflexivity|exact E].
Defined.

Lemma btf_dump_order_ends_witness : ∃ d' h err, order_calls (dump_fuel demo_btf 2) demo_dump [3; 9; 100] = Some (d', h, err).
Proof.
  apply (btf_dump_order_ends demo_btf demo_rank 2 true [] demo_dump [3; 9; 100]).
  - vm_compute; reflexivity.
  - split; vm_compute; reflexivity.
  - exact demo_descends.
  - intros id. unfold demo_rank. destruct (bool_decide _); [lia|]. destruct (id =? 9); lia.
  - vm_compute; reflexivity.
  - repeat constructor; lia.
Defined.

(** A pointer to itself is followed for ever: pointers, typedefs and function types are
    not marked while they are visited. *)
Definition loop_btf : btf := mkBtf [mkType 0 (mk_info BTF_KIND_PTR 0 false) 1 []] 1 0 [0] None 8.
Definition loop_dump : btf_dump :=
  match btf_dump__new loop_btf true true [] with Some (inl d) => d | _ => demo_dump end.

Lemma order_ptr_loop fuel thr : btf_dump_order_type fuel loop_dump 1 thr = None.
Proof.
  revert thr. induction fuel as [|fuel IH]; intros thr; [done|].
  rewrite (order_type_S fuel loop_dump 1 thr (mkAux NOT_ORDERED NOT_EMITTED false false true) (NdPtr 1)) by (vm_compute; reflexivity).
  cbn. by rewrite IH.
Qed.

(** The enum that a function returns is not marked as referenced: it is defined on its
    own as well as inside of the function type. *)
Definition ret_btf : btf :=
  mkBtf [mkType 0 (mk_info BTF_KIND_ENUM 1 false) 4 [1; 0]; mkType 0 (mk_info BTF_KIND_FUNC_PROTO 0 false) 1 []] 1 0 (mk_strs [""; "A"]%string) None 8.

Lemma proto_ret_unmarked : btf_wf ret_btf = true ∧ is_ref ret_btf 1 = false ∧ targets <$> node_at ret_btf 2 = Some [1].
Proof. split_and!; vm_compute; reflexivity. Qed.

(** After a call that fails, types that it visited count as put out: here the dump of
    the struct 3, which contains itself, fails; the dump of the struct 4 then succeeds
    without the definition of the struct 2 inside of it. *)
Definition lost_btf : btf :=
  mkBtf [mkType 1 (mk_info BTF_KIND_INT 0 false) 4 [32];
         mkType 5 (mk_info BTF_KIND_STRUCT 1 false) 4 [0; 1; 0];
         mkType 0 (mk_info BTF_KIND_STRUCT 2 false) 4 [0; 2; 0; 0; 3; 0];
         mkType 8 (mk_info BTF_KIND_STRUCT 1 false) 4 [0; 2; 0]] 1 0 (mk_strs [""; "int"; "pt"; "u"]%string) None 8.
Definition lost_dump : btf_dump :=
  match btf_dump__new lost_btf true true [] with Some (inl d) => d | _ => demo_dump end.

Lemma order_failed_lost :
  btf_wf lost_btf = true ∧ needs lost_btf 4 2 ∧ defines lost_btf (is_ref lost_btf) 2 = true ∧
  ∃ d d', btf_dump_order 10 lost_dump 3 = Some (d, - ELOOP) ∧ btf_dump_order 10 d 4 = Some (d', 0) ∧ d_queue d' = [4].
Proof.
  split; [vm_compute; reflexivity|]. split.
  { assert (node_at lost_btf 4 = Some (NdComp true [2])) as Hn by (vm_compute; reflexivity). unfold needs. rewrite Hn. exists 2.
    split; [by left|]. apply (sd_comp lost_btf 2 false true [1]); [vm_compute; reflexivity|done]. }
  split; [vm_compute; reflexivity|]. do 2 eexists. split; [vm_compute; reflexivity|]. split; vm_compute; reflexivity.
Qed.

(** With no types there are no states: the order of void is read from a null pointer. *)
Lemma order_no_types :
  match btf_dump__new (mkBtf [] 1 0 [0] None 8) true true [] with Some (inl d) => btf_dump_order 1 d 0 = None | _ => False end.
Proof. vm_compute. reflexivity. Qed.
