(* ===== verification/BtfEmit.v ===== *)
(** Printing types as C (src/libbpf/src/btf_dump.c lines 590-1545): names, layouts,
    declarations, definitions and forward declarations.

    What is printed goes to [d_out].  [None] is a null pointer passed on, printed or used,
    an access outside an array, an id read from the stack of declarations after the stack
    has been moved, or a recursion beyond the fuel. *)
From stdpp Require Import base list strings pretty.
From Stdlib Require Import ZArith Lia.
From S2P Require Import Prelude Mem Errno Hashmap Btf BtfDump.

#[local] Open Scope Z_scope.

Definition out (s : string) (d : btf_dump) : btf_dump := with_out d (d_out d ++ str_bytes s).
Definition out_bytes (s : list Z) (d : btf_dump) : btf_dump := with_out d (d_out d ++ s).
Definition dec (x : Z) : list Z := str_bytes (pretty x).

Definition PREFIX_CNT : Z := 13.
(** [lvl] tabs, at most [PREFIX_CNT]; [lvl] is compared as a [size_t]. *)
Definition pfx (lvl : Z) : list Z := replicate (Z.to_nat (if u64 lvl >=? PREFIX_CNT then PREFIX_CNT else lvl)) 9.

(** * Names *)

Definition str_equal_fn (a b : list Z) : bool := bool_decide (a = b).

(** [types]: in [d->type_names], else in [d->ident_names]. *)
Definition btf_dump_name_dups (d : btf_dump) (types : bool) (orig_name : list Z) : option (btf_dump * Z) :=
  let m := if types then d_type_names d else d_ident_names d in
  found ← hashmap__find str_hash str_equal_fn m orig_name;
  let dup_cnt := u64 (default 0 found + 1) in
  let '(ok1, d) := if bool_decide (found = None) && hashmap_needs_to_grow m then take_alloc d else (true, d) in
  let '(ok2, d) := if bool_decide (found = None) && ok1 then take_alloc d else (true, d) in
  '(m, _, _) ← hashmap__insert str_hash str_equal_fn ok1 ok2 m orig_name dup_cnt HASHMAP_SET;
  Some (if types then with_maps d m (d_ident_names d) else with_maps d (d_type_names d) m, dup_cnt).

Definition name_at (d : btf_dump) (id : Z) : option (option (list Z)) := if 0 <=? id then d_names d !! Z.to_nat id else None.

(** [s->name_resolved = 1] *)
Definition mark_resolved (d : btf_dump) (id : Z) : option btf_dump :=
  s ← state_of d id; Some (set_state d id (set_name_resolved s)).

(** [None] also where the name is null: it is printed. *)
Definition btf_dump_resolve_name (d : btf_dump) (id : Z) (types : bool) : option (btf_dump * list Z) :=
  s ← state_of d id;
  t ← btf__type_by_id (d_btf d) id;
  if bt_name_off t =? 0 then Some (d, [])
  else
    let orig_name := btf__name_by_offset (d_btf d) (bt_name_off t) in
    cached ← name_at d id;
    if name_resolved s then name ← (match cached with Some c => Some c | None => orig_name end); Some (d, name)
    else
      orig_name ← orig_name;
      if btf_is_fwd t || (btf_is_enum t && (btf_vlen t =? 0)) then d ← mark_resolved d id; Some (d, orig_name)
      else
        '(d, dup_cnt) ← btf_dump_name_dups d types orig_name;
        let '(d, cached) :=
          if dup_cnt >? 1 then
            let '(ok, d) := take_alloc d in
            let new_name := take 255 (orig_name ++ str_bytes "___" ++ dec dup_cnt) in
            if ok : bool then (with_names d (<[Z.to_nat id := Some new_name]> (d_names d)), Some new_name) else (with_names d (<[Z.to_nat id := None]> (d_names d)), None)
          else (d, cached) in
        d ← mark_resolved d id;
        Some (d, match cached with Some c => c | None => orig_name end).

Definition btf_dump_type_name (d : btf_dump) (id : Z) : option (btf_dump * list Z) := btf_dump_resolve_name d id true.
Definition btf_dump_ident_name (d : btf_dump) (id : Z) : option (btf_dump * list Z) := btf_dump_resolve_name d id false.

Definition btf_dump_is_blacklisted (d : btf_dump) (id : Z) : option bool :=
  t ← btf__type_by_id (d_btf d) id;
  if bt_name_off t =? 0 then Some false
  else name ← btf__name_by_offset (d_btf d) (bt_name_off t); Some (bool_decide (name = str_bytes "__builtin_va_list")).

(** * Layout *)

Definition align_of (b : btf) (id : Z) : option Z := btf__align_of (S (Z.to_nat (btf__type_cnt b))) b id.

(** The loop over the fields from [i] on. *)
Fixpoint has_unaligned (k : nat) (b : btf) (t : btf_type) (i : Z) : option bool :=
  match k with
  | O => Some false
  | S k =>
      m ← btf_member_at t i;
      align ← align_of b (m_type m);
      bit_sz ← btf_member_bitfield_size t i;
      if negb (align =? 0) && (bit_sz =? 0) && negb (m_offset m mod u32 (8 * align) =? 0) then Some true
      else has_unaligned k b t (i + 1)
  end.

Definition btf_is_struct_packed (b : btf) (id : Z) (t : btf_type) : option bool :=
  align ← align_of b id;
  if negb (align =? 0) && negb (bt_size t mod u32 align =? 0) then Some true
  else has_unaligned (Z.to_nat (btf_vlen t)) b t 0.

Definition chip_away_bits (total at_most : Z) : Z := if total mod at_most =? 0 then at_most else total mod at_most.

(** The type and the width of the next bit-field of a padding of [off_diff] bits. *)
Definition pad_field (ptr_bits off_diff : Z) : string * Z :=
  if (ptr_bits >? 32) && (off_diff >? 32) then ("long"%string, chip_away_bits off_diff ptr_bits)
  else if off_diff >? 16 then ("int"%string, chip_away_bits off_diff 32)
  else if off_diff >? 8 then ("short"%string, chip_away_bits off_diff 16)
  else ("char"%string, chip_away_bits off_diff 8).

Fixpoint pad_bits (k : nat) (ptr_bits off_diff lvl : Z) (d : btf_dump) : option btf_dump :=
  if off_diff <=? 0 then Some d
  else
    match k with
    | O => None
    | S k =>
        let '(pad_type, bits) := pad_field ptr_bits off_diff in
        pad_bits k ptr_bits (off_diff - bits) lvl
          (out ";" (out_bytes (dec bits) (out ": " (out pad_type (out_bytes (pfx lvl) (out_bytes [10] d))))))
    end.

Definition btf_dump_emit_bit_padding (d : btf_dump) (cur_off m_off m_bit_sz align lvl : Z) : option btf_dump :=
  let off_diff := s32 (m_off - cur_off) in
  if off_diff <=? 0 then Some d
  else if (m_bit_sz =? 0) && (off_diff <? align * 8) then Some d
  else pad_bits (Z.to_nat off_diff) (d_ptr_sz d * 8) off_diff lvl d.

(** * Names in declarations *)

Definition btf_dump_emit_struct_fwd (d : btf_dump) (id : Z) (t : btf_type) : option btf_dump :=
  '(d, name) ← btf_dump_type_name d id;
  Some (out_bytes name (out (if has_name t then " " else "") (out (if btf_kind t =? BTF_KIND_STRUCT then "struct" else "union") d))).

Definition btf_dump_emit_enum_fwd (d : btf_dump) (id : Z) (t : btf_type) : option btf_dump :=
  '(d, name) ← btf_dump_type_name d id; Some (out_bytes name (out "enum " d)).

Definition btf_dump_emit_fwd_def (d : btf_dump) (id : Z) (t : btf_type) : option btf_dump :=
  '(d, name) ← btf_dump_type_name d id; Some (out_bytes name (out (if btf_kflag t then "union " else "struct ") d)).

Definition missing_base_types : list (string * string) :=
  [("__Poly8_t", "unsigned char"); ("__Poly16_t", "unsigned short"); ("__Poly64_t", "unsigned long long");
   ("__Poly128_t", "unsigned __int128")]%string.

Definition btf_dump_emit_missing_aliases (d : btf_dump) (id : Z) (t : btf_type) : option btf_dump :=
  '(d, name) ← btf_dump_type_name d id;
  Some (match list_find (λ p, name = str_bytes p.1) missing_base_types with
        | Some (_, (_, base)) => out_bytes [10; 10] (out ";" (out_bytes name (out " " (out base (out "typedef " d)))))
        | None => d
        end).

(** * Enums *)

(** One enumerator: its name, made unique, and its value with a suffix. *)
Definition emit_enumerator (d : btf_dump) (lvl : Z) (name_off : Z) (val : list Z) (suffix : string) : option btf_dump :=
  name ← btf__name_by_offset (d_btf d) name_off;
  '(d, dup_cnt) ← btf_dump_name_dups d false name;
  let d := out_bytes name (out_bytes (pfx (lvl + 1)) (out_bytes [10] d)) in
  let d := if dup_cnt >? 1 then out_bytes (dec dup_cnt) (out "___" d) else d in
  Some (out "," (out suffix (out_bytes val (out " = " d)))).

Fixpoint btf_dump_emit_enum32_val (k : nat) (d : btf_dump) (t : btf_type) (lvl i : Z) : option btf_dump :=
  match k with
  | O => Some d
  | S k =>
      v ← btf_enum_at t i;
      d ← emit_enumerator d lvl (e_name_off v) (dec (if btf_kflag t then e_val v else u32 (e_val v))) "";
      btf_dump_emit_enum32_val k d t lvl (i + 1)
  end.

Fixpoint btf_dump_emit_enum64_val (k : nat) (d : btf_dump) (t : btf_type) (lvl i : Z) : option btf_dump :=
  match k with
  | O => Some d
  | S k =>
      v ← btf_enum64_at t i;
      let val := btf_enum64_value v in
      d ← emit_enumerator d lvl (e64_name_off v) (dec (if btf_kflag t then swrap 64 val else val)) (if btf_kflag t then "LL" else "ULL");
      btf_dump_emit_enum64_val k d t lvl (i + 1)
  end.

Definition btf_dump_emit_enum_def (d : btf_dump) (id : Z) (t : btf_type) (lvl : Z) : option btf_dump :=
  let vlen := btf_vlen t in
  '(d, name) ← btf_dump_type_name d id;
  let d := out_bytes name (out (if has_name t then " " else "") (out "enum" d)) in
  if vlen =? 0 then Some d
  else
    d ← (if btf_is_enum t then btf_dump_emit_enum32_val (Z.to_nat vlen) (out " {" d) t lvl 0
         else btf_dump_emit_enum64_val (Z.to_nat vlen) (out " {" d) t lvl 0);
    Some (out "}" (out_bytes (pfx lvl) (out_bytes [10] d))).

(** * Declarations *)

(** [false]: [-ENOMEM]. *)
Definition btf_dump_push_decl_stack_id (d : btf_dump) : btf_dump * bool :=
  let st := d_stack d in
  if st_cnt st >=? st_cap st then
    let new_cap := Z.max 16 (s32 (st_cap st * 3) ÷ 2) in
    let '(ok, d) := take_alloc d in
    match libbpf_reallocarray ok new_cap 4 with
    | None => (d, false)
    | Some _ => (with_stack d (mkStack (st_cnt st + 1) new_cap (st_moved st + 1)), true)
    end
  else (with_stack d (mkStack (st_cnt st + 1) (st_cap st) (st_moved st)), true).

(** The ids pushed, the last one first; [None] inside: no memory. *)
Fixpoint decl_chain (k : nat) (d : btf_dump) (id : Z) (ids : list Z) : option (btf_dump * option (list Z)) :=
  match k with
  | O => None
  | S k =>
      t ← btf__type_by_id (d_btf d) id;
      let '(d, ids) := if d_strip_mods d && btf_is_mod t then (d, Some ids)
                       else let '(d, ok) := btf_dump_push_decl_stack_id d in (d, if ok then Some (id :: ids) else None) in
      match ids with
      | None => Some (d, None)
      | Some ids =>
          let kd := btf_kind t in
          if id =? 0 then Some (d, Some ids)
          else if (kd =? BTF_KIND_PTR) || (kd =? BTF_KIND_VOLATILE) || (kd =? BTF_KIND_CONST) || (kd =? BTF_KIND_RESTRICT) ||
                  (kd =? BTF_KIND_FUNC_PROTO) || (kd =? BTF_KIND_TYPE_TAG) then decl_chain k d (bt_type t) ids
          else if kd =? BTF_KIND_ARRAY then a ← btf_array_of t; decl_chain k d (a_type a) ids
          else Some (d, Some ids)
      end
  end.

(** The id on top of a frame that was taken when the stack had been moved [moved]
    times. *)
Definition top_id (d : btf_dump) (moved : Z) (decls : list Z) : option (option (Z * list Z)) :=
  match decls with
  | [] => Some None
  | id :: rest => if st_moved (d_stack d) =? moved then Some (Some (id, rest)) else None
  end.

Definition mod_text (t : btf_type) : option string :=
  if btf_kind t =? BTF_KIND_VOLATILE then Some "volatile"%string
  else if btf_kind t =? BTF_KIND_CONST then Some "const"%string
  else if btf_kind t =? BTF_KIND_RESTRICT then Some "restrict"%string
  else None.

Fixpoint btf_dump_emit_mods (d : btf_dump) (moved : Z) (decls : list Z) : option (btf_dump * list Z) :=
  match decls with
  | [] => Some (d, [])
  | id :: rest =>
      if st_moved (d_stack d) =? moved then
        t ← btf__type_by_id (d_btf d) id;
        match mod_text t with
        | Some s => btf_dump_emit_mods (out " " (out s d)) moved rest
        | None => Some (d, decls)
        end
      else None
  end.

Fixpoint btf_dump_drop_mods (d : btf_dump) (moved : Z) (decls : list Z) : option (list Z) :=
  match decls with
  | [] => Some []
  | id :: rest =>
      if st_moved (d_stack d) =? moved then
        t ← btf__type_by_id (d_btf d) id;
        if btf_is_mod t then btf_dump_drop_mods d moved rest else Some decls
      else None
  end.

Definition btf_dump_emit_name (d : btf_dump) (name : list Z) (last_was_ptr : bool) : btf_dump :=
  out_bytes name (out (if negb (bool_decide (name = [])) && negb last_was_ptr then " " else "") d).

(** * Definitions and declarations, over the printer [decl] of nested declarations *)

Section chain.
Variable decl : btf_dump → Z → list Z → Z → option btf_dump.

(** The loop over the members from [i] on, [off] the bits laid out so far. *)
Fixpoint struct_members (k : nat) (d : btf_dump) (t : btf_type) (packed : bool) (lvl i off : Z) : option (btf_dump * Z) :=
  match k with
  | O => Some (d, off)
  | S k =>
      m ← btf_member_at t i;
      fname ← btf__name_by_offset (d_btf d) (m_name_off m);
      m_sz ← btf_member_bitfield_size t i;
      m_off ← btf_member_bit_offset t i;
      align ← (if packed then Some 1 else align_of (d_btf d) (m_type m));
      d ← btf_dump_emit_bit_padding d off (s32 m_off) m_sz align (lvl + 1);
      d ← decl (out_bytes (pfx (lvl + 1)) (out_bytes [10] d)) (m_type m) fname (lvl + 1);
      if negb (m_sz =? 0) then
        struct_members k (out ";" (out_bytes (dec m_sz) (out ": " d))) t packed lvl (i + 1) (s32 (s32 m_off + m_sz))
      else
        sz ← btf__resolve_size (d_btf d) (m_type m);
        struct_members k (out ";" d) t packed lvl (i + 1) (s32 (s32 m_off + s32 (Z.max 0 sz) * 8))
  end.

Definition btf_dump_emit_struct_def (d : btf_dump) (id : Z) (t : btf_type) (lvl : Z) : option btf_dump :=
  let is_struct := btf_kind t =? BTF_KIND_STRUCT in
  let vlen := btf_vlen t in
  packed ← (if is_struct then btf_is_struct_packed (d_btf d) id t else Some false);
  let packed : bool := packed in
  '(d, name) ← btf_dump_type_name d id;
  let d := out " {" (out_bytes name (out (if has_name t then " " else "") (out (if is_struct then "struct" else "union") d))) in
  '(d, off) ← struct_members (Z.to_nat vlen) d t packed lvl 0 0;
  d ← (if is_struct then
         align ← (if packed then Some 1 else align_of (d_btf d) id);
         btf_dump_emit_bit_padding d off (s32 (u32 (bt_size t * 8))) 0 align (lvl + 1)
       else Some d);
  let d := out "}" (out_bytes (pfx lvl) (if vlen =? 0 then d else out_bytes [10] d)) in
  Some (if packed then out " __attribute__((packed))" d else d).

(** The loop over the parameters from [i] on. *)
Fixpoint emit_params (k : nat) (d : btf_dump) (t : btf_type) (lvl i : Z) : option btf_dump :=
  match k with
  | O => Some d
  | S k =>
      let d := if i >? 0 then out ", " d else d in
      p ← btf_param_at t i;
      if (i =? btf_vlen t - 1) && (p_type p =? 0) then Some (out "..." d)
      else
        name ← btf__name_by_offset (d_btf d) (p_name_off p);
        d ← decl d (p_type p) name lvl;
        emit_params k d t lvl (i + 1)
  end.

(** Whether there is a single parameter, of type void. *)
Definition void_params (t : btf_type) : option bool :=
  if btf_vlen t =? 1 then p ← btf_param_at t 0; Some (p_type p =? 0) else Some false.

Definition emit_param_list (d : btf_dump) (t : btf_type) (lvl : Z) : option btf_dump :=
  void ← void_params t;
  if void : bool then Some (out "()" d)
  else d ← emit_params (Z.to_nat (btf_vlen t)) (out "(" d) t lvl 0; Some (out ")" d).

(** [moved]: how often the stack had been moved when the frame was taken; [k] bounds the
    ids that are left. *)
Fixpoint btf_dump_emit_type_chain (k : nat) (d : btf_dump) (moved : Z) (decls : list Z) (fname : list Z) (lvl : Z)
    (last_was_ptr : bool) : option btf_dump :=
  match k with
  | O => None
  | S k =>
      top ← top_id d moved decls;
      match top with
      | None => Some (btf_dump_emit_name d fname last_was_ptr)
      | Some (id, decls) =>
          if id =? 0 then
            '(d, decls) ← btf_dump_emit_mods d moved decls;
            btf_dump_emit_type_chain k (out "void" d) moved decls fname lvl false
          else
            t ← btf__type_by_id (d_btf d) id;
            let kind := btf_kind t in
            if (kind =? BTF_KIND_INT) || (kind =? BTF_KIND_FLOAT) then
              '(d, decls) ← btf_dump_emit_mods d moved decls;
              name ← btf__name_by_offset (d_btf d) (bt_name_off t);
              btf_dump_emit_type_chain k (out_bytes name d) moved decls fname lvl false
            else if (kind =? BTF_KIND_STRUCT) || (kind =? BTF_KIND_UNION) then
              '(d, decls) ← btf_dump_emit_mods d moved decls;
              d ← (if negb (has_name t) && negb (d_skip_anon_defs d) then btf_dump_emit_struct_def d id t lvl
                   else btf_dump_emit_struct_fwd d id t);
              btf_dump_emit_type_chain k d moved decls fname lvl false
            else if (kind =? BTF_KIND_ENUM) || (kind =? BTF_KIND_ENUM64) then
              '(d, decls) ← btf_dump_emit_mods d moved decls;
              d ← (if negb (has_name t) && negb (d_skip_anon_defs d) then btf_dump_emit_enum_def d id t lvl
                   else btf_dump_emit_enum_fwd d id t);
              btf_dump_emit_type_chain k d moved decls fname lvl false
            else if kind =? BTF_KIND_FWD then
              '(d, decls) ← btf_dump_emit_mods d moved decls;
              d ← btf_dump_emit_fwd_def d id t;
              btf_dump_emit_type_chain k d moved decls fname lvl false
            else if kind =? BTF_KIND_TYPEDEF then
              '(d, decls) ← btf_dump_emit_mods d moved decls;
              '(d, name) ← btf_dump_ident_name d id;
              btf_dump_emit_type_chain k (out_bytes name d) moved decls fname lvl false
            else if kind =? BTF_KIND_PTR then
              btf_dump_emit_type_chain k (out (if last_was_ptr then "*" else " *") d) moved decls fname lvl true
            else if kind =? BTF_KIND_VOLATILE then btf_dump_emit_type_chain k (out " volatile" d) moved decls fname lvl false
            else if kind =? BTF_KIND_CONST then btf_dump_emit_type_chain k (out " const" d) moved decls fname lvl false
            else if kind =? BTF_KIND_RESTRICT then btf_dump_emit_type_chain k (out " restrict" d) moved decls fname lvl false
            else if kind =? BTF_KIND_TYPE_TAG then
              '(d, decls) ← btf_dump_emit_mods d moved decls;
              name ← btf__name_by_offset (d_btf d) (bt_name_off t);
              let quoted := [34] ++ name ++ [34] in
              btf_dump_emit_type_chain k (out ")))" (out_bytes quoted (out " __attribute__((btf_type_tag(" d))) moved decls fname lvl false
            else if kind =? BTF_KIND_ARRAY then
              a ← btf_array_of t;
              decls ← btf_dump_drop_mods d moved decls;
              top ← top_id d moved decls;
              match top with
              | None => Some (out "]" (out_bytes (dec (a_nelems a)) (out "[" (btf_dump_emit_name d fname last_was_ptr))))
              | Some (next_id, _) =>
                  next_t ← btf__type_by_id (d_btf d) next_id;
                  let multidim := btf_is_array next_t in
                  let d := if negb (bool_decide (fname = [])) && negb last_was_ptr then out " " d else d in
                  d ← btf_dump_emit_type_chain k (if multidim then d else out "(" d) moved decls fname lvl true;
                  Some (out "]" (out_bytes (dec (a_nelems a)) (out "[" (if multidim then d else out ")" d))))
              end
            else if kind =? BTF_KIND_FUNC_PROTO then
              decls ← btf_dump_drop_mods d moved decls;
              d ← match decls with
                  | [] => Some (btf_dump_emit_name d fname last_was_ptr)
                  | _ => d ← btf_dump_emit_type_chain k (out " (" d) moved decls fname lvl true; Some (out ")" d)
                  end;
              emit_param_list d t lvl
            else Some d
      end
  end.

Definition btf_dump_emit_typedef_def (d : btf_dump) (id : Z) (t : btf_type) (lvl : Z) : option btf_dump :=
  '(d, name) ← btf_dump_ident_name d id;
  if (bt_type t =? 0) && bool_decide (name = str_bytes "__gnuc_va_list") then
    Some (out "typedef __builtin_va_list __gnuc_va_list" d)
  else decl (out "typedef " d) (bt_type t) name lvl.
End chain.

Definition pop_frame (d : btf_dump) (start : Z) : btf_dump :=
  with_stack d (mkStack start (st_cap (d_stack d)) (st_moved (d_stack d))).

Fixpoint btf_dump_emit_type_decl (fuel : nat) (d : btf_dump) (id : Z) (fname : list Z) (lvl : Z) : option btf_dump :=
  match fuel with
  | O => None
  | S fuel =>
      let stack_start := st_cnt (d_stack d) in
      '(d, decls) ← decl_chain (S fuel) d id [];
      match decls with
      | None => Some (pop_frame d stack_start)
      | Some decls =>
          d ← btf_dump_emit_type_chain (btf_dump_emit_type_decl fuel) (S (length decls)) d (st_moved (d_stack d)) decls fname lvl true;
          Some (pop_frame d stack_start)
      end
  end.

(** * Dumping a type *)

Section emit.
Variable decl : btf_dump → Z → list Z → Z → option btf_dump.

(** [tstate->emit_state = e] and [tstate->fwd_emitted = 1] *)
Definition mark_emit (d : btf_dump) (id : Z) (e : emit_state_t) : option btf_dump :=
  s ← state_of d id; Some (set_state d id (set_emit s e)).
Definition mark_fwd_emitted (d : btf_dump) (id : Z) : option btf_dump :=
  s ← state_of d id; Some (set_state d id (set_fwd_emitted s)).

Definition end_decl (d : btf_dump) : btf_dump := out_bytes [10; 10] (out ";" d).

Fixpoint emit_each (emit : btf_dump → Z → option btf_dump) (d : btf_dump) (ids : list Z) : option btf_dump :=
  match ids with
  | [] => Some d
  | id :: ids => d ← emit d id; emit_each emit d ids
  end.

(** A typedef in full, unless the compiler has it built in. *)
Definition emit_typedef (d : btf_dump) (id : Z) (t : btf_type) : option btf_dump :=
  blacklisted ← btf_dump_is_blacklisted d id;
  if blacklisted : bool then Some d else d ← btf_dump_emit_typedef_def decl d id t 0; Some (end_decl d).

Definition emit_struct_fwd_decl (d : btf_dump) (id : Z) (t : btf_type) : option btf_dump :=
  d ← btf_dump_emit_struct_fwd d id t; mark_fwd_emitted (end_decl d) id.

Fixpoint btf_dump_emit_type (fuel : nat) (d : btf_dump) (id cont_id : Z) : option btf_dump :=
  match fuel with
  | O => None
  | S fuel =>
      s ← state_of d id;
      if decide (emit_state s = EMITTED) then Some d
      else
        t ← btf__type_by_id (d_btf d) id;
        let kind := btf_kind t in
        if decide (emit_state s = EMITTING) then
          if fwd_emitted s then Some d
          else if (kind =? BTF_KIND_STRUCT) || (kind =? BTF_KIND_UNION) then
            if (id =? cont_id) || negb (has_name t) then Some d else emit_struct_fwd_decl d id t
          else if kind =? BTF_KIND_TYPEDEF then d ← emit_typedef d id t; mark_fwd_emitted d id
          else Some d
        else if kind =? BTF_KIND_INT then d ← btf_dump_emit_missing_aliases d id t; mark_emit d id EMITTED
        else if (kind =? BTF_KIND_ENUM) || (kind =? BTF_KIND_ENUM64) then
          d ← (if cont_id =? 0 then d ← btf_dump_emit_enum_def d id t 0; Some (end_decl d) else Some d);
          mark_emit d id EMITTED
        else if (kind =? BTF_KIND_PTR) || (kind =? BTF_KIND_VOLATILE) || (kind =? BTF_KIND_CONST) || (kind =? BTF_KIND_RESTRICT) ||
                (kind =? BTF_KIND_TYPE_TAG) then btf_dump_emit_type fuel d (bt_type t) cont_id
        else if kind =? BTF_KIND_ARRAY then a ← btf_array_of t; btf_dump_emit_type fuel d (a_type a) cont_id
        else if kind =? BTF_KIND_FWD then d ← btf_dump_emit_fwd_def d id t; mark_emit (end_decl d) id EMITTED
        else if kind =? BTF_KIND_TYPEDEF then
          d ← mark_emit d id EMITTING;
          d ← btf_dump_emit_type fuel d (bt_type t) id;
          s ← state_of d id;
          d ← (if fwd_emitted s then Some d else emit_typedef d id t);
          mark_emit d id EMITTED
        else if (kind =? BTF_KIND_STRUCT) || (kind =? BTF_KIND_UNION) then
          d ← mark_emit d id EMITTING;
          d ← (if (cont_id =? 0) || negb (has_name t) then
                 ids ← member_types t;
                 emit_each (λ d m, btf_dump_emit_type fuel d m (if has_name t then id else cont_id)) d ids
               else if negb (fwd_emitted s) && negb (id =? cont_id) then emit_struct_fwd_decl d id t
               else Some d);
          if cont_id =? 0 then d ← btf_dump_emit_struct_def decl d id t 0; mark_emit (end_decl d) id EMITTED
          else mark_emit d id NOT_EMITTED
        else if kind =? BTF_KIND_FUNC_PROTO then
          d ← btf_dump_emit_type fuel d (bt_type t) cont_id;
          ids ← param_types t;
          emit_each (λ d p, btf_dump_emit_type fuel d p cont_id) d ids
        else Some d
  end.
End emit.

Definition btf_dump__dump_type (fuel : nat) (d : btf_dump) (id : Z) : option (btf_dump * Z) :=
  '(d, err) ← btf_dump_order fuel d id;
  if negb (err =? 0) then Some (d, err)
  else
    d ← emit_each (λ d id, btf_dump_emit_type (btf_dump_emit_type_decl fuel) fuel d id 0) d (d_queue d);
    Some (d, 0).

Definition btf_dump__emit_type_decl (fuel : nat) (d : btf_dump) (id : Z) (fname : list Z) (lvl : Z) (strip : bool) (opts_valid : bool)
    : option (btf_dump * Z) :=
  if negb opts_valid then Some (d, - EINVAL)
  else
    '(d, err) ← btf_dump_resize d;
    if negb (err =? 0) then Some (d, err)
    else d ← btf_dump_emit_type_decl fuel (with_strip_mods d strip) id fname lvl; Some (with_strip_mods d false, 0).
