(* ===== verification/BtfDecl.v ===== *)
(** What a dump prints for a type is the C declaration of that type
    ([btf_dump_emit_type_decl] of src/libbpf/src/btf_dump.c).

    The text is cut into the tokens of C and parsed by the grammar of declarations (C11
    6.7), whose semantics gives the declared name its type; the types are those the BTF
    describes. *)
From stdpp Require Import base list strings pretty numbers.
From Stdlib Require Import ZArith Lia.
From S2P Require Import Prelude Mem Errno Hashmap Btf RelocWf BtfDump BtfOrder BtfEmit.

#[local] Open Scope Z_scope.

(** * Tokens *)

(** Identifiers, keywords and numbers; everything else one character at a time. *)
Inductive token := TId (s : list Z) | TPunct (c : Z).

Definition is_ident (c : Z) : bool :=
  (97 <=? c) && (c <=? 122) || (65 <=? c) && (c <=? 90) || (48 <=? c) && (c <=? 57) || (c =? 95).
Definition is_space (c : Z) : bool := (c =? 32) || (c =? 9) || (c =? 10).

Definition flush (acc : list Z) : list token := match acc with [] => [] | _ => [TId acc] end.

Fixpoint lex_from (acc s : list Z) : list token :=
  match s with
  | [] => flush acc
  | c :: s =>
      if is_ident c then lex_from (acc ++ [c]) s
      else flush acc ++ (if is_space c then [] else [TPunct c]) ++ lex_from [] s
  end.
Definition lex (s : list Z) : list token := lex_from [] s.

(** A name in the sense of C. *)
Definition good_name (n : list Z) : bool := negb (bool_decide (n = [])) && forallb is_ident n.

(** * Types of C *)

Inductive qual := Qconst | Qvolatile | Qrestrict.
Record quals := mkQuals { q_const : bool; q_volatile : bool; q_restrict : bool }.
Definition no_quals : quals := mkQuals false false false.
Definition add_qual (q : qual) (s : quals) : quals :=
  match q with
  | Qconst => mkQuals true (q_volatile s) (q_restrict s)
  | Qvolatile => mkQuals (q_const s) true (q_restrict s)
  | Qrestrict => mkQuals (q_const s) (q_volatile s) true
  end.
Definition quals_of (qs : list qual) : quals := foldl (λ s q, add_qual q s) no_quals qs.

Definition qual_text (q : qual) : string := match q with Qconst => "const" | Qvolatile => "volatile" | Qrestrict => "restrict" end.
Definition qual_tok (q : qual) : token := TId (str_bytes (qual_text q)).

(** A type that has a name stands for itself. *)
Inductive ctype :=
  | CBase (q : quals) (id : Z)
  | CPtr (q : quals) (t : ctype)
  | CArr (n : Z) (t : ctype)
  | CFun (ret : ctype) (params : list (list Z * ctype)) (variadic : bool).

(** Qualifiers of arrays and functions are not printed. *)
Definition qualify (q : qual) (t : ctype) : ctype :=
  match t with
  | CBase s id => CBase (add_qual q s) id
  | CPtr s t => CPtr (add_qual q s) t
  | t => t
  end.

(** * The grammar of declarations *)

Section grammar.
(** The type specifiers: the tokens that name a type. *)
Variable spec : list token → Z → Prop.

Definition name_toks (n : list Z) : list token := flush n.

(** [declarator ts T n U]: behind specifiers of type [T], [ts] declares [n] with the
    type [U]. *)
Inductive declarator : list token → ctype → list Z → ctype → Prop :=
  | D_direct ts T n U : direct ts T n U → declarator ts T n U
  | D_ptr qs ts T n U : declarator ts (CPtr (quals_of qs) T) n U → declarator (TPunct 42 :: map qual_tok qs ++ ts) T n U
with direct : list token → ctype → list Z → ctype → Prop :=
  | D_name n T : direct (name_toks n) T n T
  | D_paren ts T n U : declarator ts T n U → ts ≠ [] → direct (TPunct 40 :: ts ++ [TPunct 41]) T n U
  | D_array ts k T n U : direct ts (CArr k T) n U → direct (ts ++ [TPunct 91; TId (dec k); TPunct 93]) T n U
  | D_fun ts pts ps v T n U : direct ts (CFun T ps v) n U → params pts ps v → direct (ts ++ TPunct 40 :: pts ++ [TPunct 41]) T n U
with params : list token → list (list Z * ctype) → bool → Prop :=
  | P_none : params [] [] false
  | P_last ts n U : declaration ts n U → params ts [(n, U)] false
  | P_variadic ts n U : declaration ts n U → params (ts ++ [TPunct 44; TPunct 46; TPunct 46; TPunct 46]) [(n, U)] true
  | P_more ts rest n U p ps v : declaration ts n U → params rest (p :: ps) v → params (ts ++ TPunct 44 :: rest) ((n, U) :: p :: ps) v
with declaration : list token → list Z → ctype → Prop :=
  | Decl qs base id ts n U : spec base id → declarator ts (CBase (quals_of qs) id) n U →
      declaration (map qual_tok qs ++ base ++ ts) n U.
End grammar.

Scheme declarator_mind := Induction for declarator Sort Prop
  with direct_mind := Induction for direct Sort Prop
  with params_mind := Induction for params Sort Prop
  with declaration_mind := Induction for declaration Sort Prop.
Combined Scheme grammar_ind from declarator_mind, direct_mind, params_mind, declaration_mind.

(** * The types that the BTF describes *)

Definition base_kind (t : btf_type) : bool :=
  let k := btf_kind t in
  (k =? BTF_KIND_INT) || (k =? BTF_KIND_FLOAT) || (k =? BTF_KIND_STRUCT) || (k =? BTF_KIND_UNION) || (k =? BTF_KIND_ENUM) ||
  (k =? BTF_KIND_ENUM64) || (k =? BTF_KIND_FWD) || (k =? BTF_KIND_TYPEDEF).

(** The name of a type that is referred to by its name.  That of a number may have
    several words. *)
Definition base_name_ok (t : btf_type) (name : list Z) : bool :=
  if (btf_kind t =? BTF_KIND_INT) || (btf_kind t =? BTF_KIND_FLOAT) then
    forallb (λ c, is_ident c || is_space c) name && negb (forallb is_space name)
  else has_name t && good_name name.

Definition qual_of (t : btf_type) : option qual :=
  if btf_kind t =? BTF_KIND_VOLATILE then Some Qvolatile
  else if btf_kind t =? BTF_KIND_CONST then Some Qconst
  else if btf_kind t =? BTF_KIND_RESTRICT then Some Qrestrict
  else None.

(** The parameters from [i] on; a last one of type void stands for any arguments. *)
Fixpoint params_of (ct : Z → option ctype) (k : nat) (b : btf) (t : btf_type) (i : Z) : option (list (list Z * ctype) * bool) :=
  match k with
  | O => Some ([], false)
  | S k =>
      p ← btf_param_at t i;
      if (i =? btf_vlen t - 1) && (p_type p =? 0) then Some ([], true)
      else
        name ← btf__name_by_offset b (p_name_off p);
        if negb (forallb is_ident name) then None
        else u ← ct (p_type p); '(ps, v) ← params_of ct k b t (i + 1); Some ((name, u) :: ps, v)
  end.

Definition proto_params (ct : Z → option ctype) (b : btf) (t : btf_type) : option (list (list Z * ctype) * bool) :=
  void ← void_params t;
  if void : bool then Some ([], false) else params_of ct (Z.to_nat (btf_vlen t)) b t 0.

(** What a type that is not printed by its name makes of the type it refers to. *)
Definition wrap_type (ct : Z → option ctype) (b : btf) (t : btf_type) (u : ctype) : option ctype :=
  if btf_kind t =? BTF_KIND_PTR then Some (CPtr no_quals u)
  else if btf_kind t =? BTF_KIND_ARRAY then a ← btf_array_of t; if 0 <=? a_nelems a then Some (CArr (a_nelems a) u) else None
  else if btf_kind t =? BTF_KIND_FUNC_PROTO then '(ps, v) ← proto_params ct b t; Some (CFun u ps v)
  else q ← qual_of t; Some (qualify q u).

Definition next_type (t : btf_type) : option Z := if btf_kind t =? BTF_KIND_ARRAY then a_type <$> btf_array_of t else Some (bt_type t).

(** [strip]: qualifiers and tags are left out.  [None]: a chain longer than [n], a type
    that is missing or cannot be declared, one without a name that C would accept, or
    one with a tag. *)
Fixpoint ctype_of (n : nat) (strip : bool) (b : btf) (id : Z) : option ctype :=
  match n with
  | O => None
  | S n =>
      if id =? 0 then Some (CBase no_quals 0)
      else
        t ← btf__type_by_id b id;
        if base_kind t then
          name ← btf__name_by_offset b (bt_name_off t);
          if base_name_ok t name then Some (CBase no_quals id) else None
        else
          next ← next_type t;
          u ← ctype_of n strip b next;
          if strip && btf_is_mod t then Some u else wrap_type (ctype_of n strip b) b t u
  end.

(** * What a dump calls a type *)

(** The name of a type once it is settled: the one kept, or that of the BTF. *)
Definition resolved (d : btf_dump) (id : Z) (n : list Z) : Prop :=
  ∃ s t cached, state_of d id = Some s ∧ name_resolved s = true ∧ btf__type_by_id (d_btf d) id = Some t ∧
    name_at d id = Some cached ∧ match cached with Some c => n = c | None => btf__name_by_offset (d_btf d) (bt_name_off t) = Some n end.

Definition keyword (t : btf_type) : option string :=
  let k := btf_kind t in
  if k =? BTF_KIND_STRUCT then Some "struct"%string
  else if k =? BTF_KIND_UNION then Some "union"%string
  else if (k =? BTF_KIND_ENUM) || (k =? BTF_KIND_ENUM64) then Some "enum"%string
  else if k =? BTF_KIND_FWD then Some (if btf_kflag t then "union" else "struct")%string
  else None.

(** The tokens that name type [id] in what [d] prints. *)
Definition type_spec (d : btf_dump) (ts : list token) (id : Z) : Prop :=
  if id =? 0 then ts = [TId (str_bytes "void")]
  else
    ∃ t, btf__type_by_id (d_btf d) id = Some t ∧
      if (btf_kind t =? BTF_KIND_INT) || (btf_kind t =? BTF_KIND_FLOAT) then
        ∃ name, btf__name_by_offset (d_btf d) (bt_name_off t) = Some name ∧ ts = lex name
      else
        ∃ name, resolved d id name ∧
          ts = match keyword t with Some k => [TId (str_bytes k); TId name] | None => [TId name] end.

(** * Dumps in good order *)

Definition unresolved (l : list aux_state) : Z := Z.of_nat (length (filter (λ s, name_resolved s = false) l)).

Definition NAMES_MAX : Z := 2 ^ 56.

(** A map of names that can take one more for each of [n] types. *)
Definition names_map_ok (m : hashmap (list Z) Z) (n : Z) : Prop :=
  (∃ l, hm_rel str_hash str_equal_fn m l) ∧ hm_cap m ≤ 4 + 3 * NAMES_MAX ∧ hm_sz m + n ≤ NAMES_MAX.

Record printer_ok (d : btf_dump) : Prop := {
  dk_alloc : d_alloc d = [];
  dk_void : btf__type_by_id (d_btf d) 0 = Some btf_void;
  dk_arrays : ∀ id t, btf__type_by_id (d_btf d) id = Some t → is_Some (state_of d id) ∧ is_Some (name_at d id);
  dk_cached : ∀ i c, d_names d !! i = Some (Some c) → good_name c = true;
  dk_fresh : ∀ i s c, d_states d !! i = Some s → name_resolved s = false → d_names d !! i = Some c → c = None;
  dk_types : names_map_ok (d_type_names d) (unresolved (d_states d));
  dk_idents : names_map_ok (d_ident_names d) (unresolved (d_states d));
}.

(** What is kept: the BTF and the names settled. *)
Record grows (d d' : btf_dump) : Prop := {
  gr_btf : d_btf d' = d_btf d;
  gr_names : ∀ id n, resolved d id n → resolved d' id n;
}.

(** The fields that printing names and declarations does not touch. *)
Definition kept (d d' : btf_dump) : Prop := d_strip_mods d' = d_strip_mods d ∧ d_last_id d' = d_last_id d ∧ d_ptr_sz d' = d_ptr_sz d.

Lemma kept_trans d1 d2 d3 : kept d1 d2 → kept d2 d3 → kept d1 d3.
Proof. intros (? & ? & ?) (? & ? & ?). repeat split; congruence. Qed.

#[export] Instance grows_preorder : PreOrder grows.
Proof.
  split; [by intros d; split|]. intros d1 d2 d3 [B1 N1] [B2 N2]. split; [congruence|auto].
Qed.

Lemma type_spec_grows d d' ts id : grows d d' → type_spec d ts id → type_spec d' ts id.
Proof.
  intros G. unfold type_spec. destruct (id =? 0); [done|]. rewrite (gr_btf _ _ G).
  intros (t & Ht & H). exists t. split; [done|]. destruct (_ || _); [done|].
  destruct H as (n & Hn & ->). exists n. by split; [apply (gr_names _ _ G)|].
Qed.

Lemma grammar_mono (P Q : list token → Z → Prop) : (∀ ts id, P ts id → Q ts id) →
  (∀ ts T n U, declarator P ts T n U → declarator Q ts T n U) ∧
  (∀ ts T n U, direct P ts T n U → direct Q ts T n U) ∧
  (∀ ts ps v, params P ts ps v → params Q ts ps v) ∧
  (∀ ts n U, declaration P ts n U → declaration Q ts n U).
Proof.
  intros HPQ. apply grammar_ind; intros; by econstructor; eauto.
Qed.

(** * Cutting a text into tokens *)

(** [s] does not go on with a word. *)
Definition breaks (s : list Z) : bool := match s with [] => true | c :: _ => negb (is_ident c) end.

Lemma lex_from_app acc a b : breaks b = true → lex_from acc (a ++ b) = lex_from acc a ++ lex b.
Proof.
  intros Hb. revert acc. induction a as [|c a IH]; intros acc; cbn [app lex_from].
  - destruct b as [|c b]; [by rewrite app_nil_r|]. cbn in Hb. apply negb_true_iff in Hb. unfold lex. cbn [lex_from]. by rewrite Hb.
  - destruct (is_ident c); [apply IH|]. rewrite IH. by rewrite <- !app_assoc.
Qed.

Lemma lex_app a b : breaks b = true → lex (a ++ b) = lex a ++ lex b.
Proof. apply lex_from_app. Qed.

Lemma lex_word acc n : forallb is_ident n = true → lex_from acc n = flush (acc ++ n).
Proof.
  revert acc. induction n as [|c n IH]; intros acc H; cbn [lex_from]; [by rewrite app_nil_r|].
  cbn in H. apply andb_true_iff in H as [-> H]. rewrite IH by done. by rewrite <- app_assoc.
Qed.

Lemma lex_name n : forallb is_ident n = true → lex n = name_toks n.
Proof. apply (lex_word []). Qed.

Lemma lex_good n : good_name n = true → lex n = [TId n].
Proof. unfold good_name. intros [H1 H2]%andb_true_iff. rewrite lex_name by done. by destruct n. Qed.

Lemma digit_ident x : forallb is_ident (str_bytes (String (pretty_N_char x) "")) = true.
Proof. unfold pretty_N_char. by repeat case_match. Qed.

Lemma str_bytes_cons c s : str_bytes (String c s) = str_bytes (String c "") ++ str_bytes s.
Proof. done. Qed.

Lemma pretty_N_go_good x s : good_name (str_bytes s) = true → good_name (str_bytes (pretty_N_go x s)) = true.
Proof.
  revert s. induction (N.lt_wf_0 x) as [x _ IH]; intros s Hs.
  assert (x = 0 ∨ 0 < x)%N as [->|?] by lia; [done|].
  rewrite pretty_N_go_step by done. apply IH; [by apply N.div_lt|].
  rewrite str_bytes_cons. unfold good_name in *. apply andb_true_iff in Hs as [_ Hs].
  rewrite forallb_app, digit_ident, Hs. done.
Qed.

Lemma dec_good x : 0 ≤ x → good_name (dec x) = true.
Proof.
  intros Hx. unfold dec, pretty, pretty_Z. destruct x as [|p|]; [done| |lia].
  unfold pretty, pretty_positive. unfold pretty, pretty_N. case_decide; [done|].
  rewrite pretty_N_go_step by lia. apply pretty_N_go_good.
  rewrite str_bytes_cons. unfold good_name. rewrite forallb_app, digit_ident. done.
Qed.

Lemma good_take n k : (0 < k)%nat → good_name n = true → good_name (take k n) = true.
Proof.
  intros Hk. unfold good_name. intros [H1 H2]%andb_true_iff. destruct n as [|c n], k as [|k]; try done; [lia|].
  cbn in *. apply andb_true_iff in H2 as [-> H2]. cbn. revert k Hk. clear H1. induction n as [|a n IH]; intros [|k] Hk; try done.
  cbn in *. apply andb_true_iff in H2 as [-> H2]. cbn. destruct k; [done|]. apply IH; [done|lia].
Qed.

Lemma good_app a b : good_name a = true → forallb is_ident b = true → good_name (a ++ b) = true.
Proof.
  unfold good_name. intros [H1 H2]%andb_true_iff Hb. rewrite forallb_app, H2, Hb. by destruct a.
Qed.

Lemma good_ident n : good_name n = true → forallb is_ident n = true.
Proof. by intros [_ H]%andb_true_iff. Qed.

(** * Settling a name *)

#[export] Instance name_hash_key : HashKey str_hash str_equal_fn.
Proof.
  unfold str_equal_fn. split; intros; rewrite ?bool_decide_eq_true in *; congruence.
Qed.

Lemma names_map_bits m n : 0 ≤ n → names_map_ok m n → hm_cap_bits m < 63.
Proof.
  intros Hn ((l & Hrel) & Hcap & _). pose proof (ok_shape _ _ (proj1 Hrel)) as Hs. unfold NAMES_MAX in Hcap.
  destruct (hm_buckets m); [|lia]. destruct Hs as (Hb & Hc & _). apply (Z.pow_lt_mono_r_iff 2); lia.
Qed.

Lemma names_map_find m n k : 0 ≤ n → names_map_ok m n → ∃ v, hashmap__find str_hash str_equal_fn m k = Some v.
Proof.
  intros Hn Hm. pose proof (names_map_bits m n Hn Hm) as Hb. destruct Hm as ((l & Hrel) & _).
  pose proof (hm_step_rel str_hash str_equal_fn m l (Find k) Hrel eq_refl Hb) as H. cbn [hm_step] in H.
  destruct (spec_step _ _ _ _) as [l' r]. destruct H as (m' & H & _).
  destruct (hashmap__find _ _ m k) as [v|]; [by exists v|done].
Qed.

Lemma names_map_set m n k v : 1 ≤ n → names_map_ok m n →
  ∃ m' r old, hashmap__insert str_hash str_equal_fn true true m k v HASHMAP_SET = Some (m', r, old) ∧ names_map_ok m' (n - 1).
Proof.
  intros Hn Hm. pose proof (names_map_bits m n ltac:(lia) Hm) as Hb. destruct Hm as ((l & Hrel) & Hcap & Hsz).
  pose proof (hm_step_rel str_hash str_equal_fn m l (Insert true true k v HASHMAP_SET) Hrel eq_refl Hb) as H. cbn [hm_step] in H.
  destruct (spec_step _ _ _ _) as [l' r']. destruct H as (m' & H & Hrel' & Hcap' & Hsz').
  destruct (hashmap__insert _ _ true true m k v HASHMAP_SET) as [[[m1 r] old]|]; [|done].
  cbn in H. injection H as -> _. exists m', r, old. split; [done|].
  split; [by exists l'|]. unfold NAMES_MAX in *. lia.
Qed.

Lemma names_map_less m n n' : n' ≤ n → names_map_ok m n → names_map_ok m n'.
Proof. intros Hn (Hrel & Hcap & Hsz). split; [done|]. split; [done|lia]. Qed.

Lemma unresolved_insert l i s s' : l !! i = Some s → name_resolved s = false → name_resolved s' = true →
  unresolved (<[i := s']> l) = unresolved l - 1.
Proof.
  unfold unresolved. revert i. induction l as [|a l IH]; intros [|i] Hi Hs Hs'; try done; cbn in Hi.
  - change (<[O := s']> (a :: l)) with (s' :: l). injection Hi as ->. rewrite !filter_cons, decide_False by (by rewrite Hs'). rewrite decide_True by done. cbn. lia.
  - change (<[S i := s']> (a :: l)) with (a :: <[i := s']> l). specialize (IH i Hi Hs Hs'). rewrite !filter_cons. destruct (decide _); cbn [length]; lia.
Qed.

Lemma state_of_lookup d id s : state_of d id = Some s → 0 ≤ id ∧ d_states d !! Z.to_nat id = Some s.
Proof. unfold state_of. destruct (Z.leb_spec 0 id); [done|discriminate]. Qed.

(** The effect of settling the name of [id] as [cached]. *)
Definition settle (d : btf_dump) (id : Z) (s : aux_state) (cached : option (list Z)) : btf_dump :=
  set_state (with_names d (<[Z.to_nat id := cached]> (d_names d))) id (set_name_resolved s).

Lemma settle_grows d mt mi id s cached : state_of d id = Some s → name_resolved s = false →
  grows d (settle (with_maps d mt mi) id s cached).
Proof.
  intros Hs Hr. pose proof (state_of_lookup _ _ _ Hs) as [Hid _]. split; [done|].
  intros id' n (s' & t & c & Hs' & Hr' & Ht & Hc & Hn). assert (id' ≠ id) as Hne by (intros ->; congruence).
  exists s', t, c. unfold settle. rewrite state_of_set by (by exists s). rewrite decide_False by done.
  split; [done|]. split; [done|]. split; [done|]. split; [|done].
  unfold name_at in *. cbn [d_names set_state with_states with_names with_maps]. destruct (Z.leb_spec 0 id'); [|done].
  rewrite list_lookup_insert_ne by lia. done.
Qed.

Lemma name_of_settle d id s cached : state_of d id = Some s → is_Some (name_at d id) → name_at (settle d id s cached) id = Some cached.
Proof.
  intros Hs [c Hc]. pose proof (state_of_lookup _ _ _ Hs) as [Hid _]. unfold settle, name_at in *. cbn [d_names set_state with_states with_names].
  rewrite (proj2 (Z.leb_le 0 id)) in * by done. apply list_lookup_insert_eq. by eapply lookup_lt_Some.
Qed.

Lemma settle_arrays d id s cached i : state_of d id = Some s →
  (is_Some (state_of d i) → is_Some (state_of (settle d id s cached) i)) ∧ (is_Some (name_at d i) → is_Some (name_at (settle d id s cached) i)).
Proof.
  intros Hs. unfold settle, set_state, state_of, name_at. cbn [d_states d_names with_states with_names].
  destruct (0 <=? i); [|done]. split; intros H; apply lookup_lt_is_Some in H; apply lookup_lt_is_Some; by rewrite length_insert.
Qed.

Lemma settle_ok d mt mi id s cached : printer_ok d → state_of d id = Some s → name_resolved s = false →
  match cached with Some c => good_name c = true | None => True end →
  names_map_ok mt (unresolved (d_states d) - 1) → names_map_ok mi (unresolved (d_states d) - 1) →
  printer_ok (settle (with_maps d mt mi) id s cached).
Proof.
  intros [Ha Hv Harr Hc Hf Ht Hi] Hs Hr Hg Ht' Hi'. pose proof (state_of_lookup _ _ _ Hs) as [Hid Hl].
  assert (unresolved (d_states (settle (with_maps d mt mi) id s cached)) = unresolved (d_states d) - 1) as Hu.
  { unfold settle. cbn [d_states set_state with_states with_names with_maps]. by apply unresolved_insert with s. }
  split; [done|done| | | | by rewrite Hu| by rewrite Hu].
  - intros i t Hty. destruct (Harr i t Hty) as [H1 H2]. split; [by apply settle_arrays|by apply settle_arrays].
  - intros i c. unfold settle. cbn [d_names set_state with_states with_names with_maps].
    intros [(<- & -> & _)|[_ H]]%list_lookup_insert_Some; [done|by apply (Hc i)].
  - intros i s' c. unfold settle. cbn [d_states d_names set_state with_states with_names with_maps].
    intros [(<- & <- & _)|[Hne H]]%list_lookup_insert_Some; [done|]. rewrite list_lookup_insert_ne by done. by apply Hf.
Qed.

Lemma settle_same d id s cached : name_at d id = Some cached → settle d id s cached = set_state d id (set_name_resolved s).
Proof.
  unfold name_at, settle. destruct (0 <=? id); [|done]. intros H. rewrite list_insert_id by done. by destruct d.
Qed.

Lemma with_maps_same d : with_maps d (d_type_names d) (d_ident_names d) = d.
Proof. by destruct d. Qed.

Lemma unresolved_pos l i s : l !! i = Some s → name_resolved s = false → 1 ≤ unresolved l.
Proof.
  intros Hl Hr. unfold unresolved. assert (s ∈ filter (λ s, name_resolved s = false) l) as Hin.
  { apply list_elem_of_filter. split; [done|]. by apply list_elem_of_lookup_2 with i. }
  destruct (filter _ l); [by apply elem_of_nil in Hin|]. cbn [length]. lia.
Qed.

(** What the name of a type is settled to, given that of the BTF. *)
Lemma name_dups_spec d types n : printer_ok d → 1 ≤ unresolved (d_states d) →
  ∃ mt mi c, btf_dump_name_dups d types n = Some (with_maps d mt mi, c) ∧ 0 ≤ c ∧
    names_map_ok mt (unresolved (d_states d) - 1) ∧ names_map_ok mi (unresolved (d_states d) - 1).
Proof.
  intros [Ha _ _ _ _ Ht Hi] Hu. set (m := if types then d_type_names d else d_ident_names d).
  assert (names_map_ok m (unresolved (d_states d))) as Hm by (by destruct types).
  unfold btf_dump_name_dups. fold m. destruct (names_map_find m _ n (Z.le_trans 0 1 _ ltac:(done) Hu) Hm) as [v ->]. cbn [mbind option_bind].
  assert (∀ b : bool, (if b then take_alloc d else (true, d)) = (true, d)) as Htake.
  { intros []; unfold take_alloc; by rewrite ?Ha. }
  rewrite Htake. cbv iota. rewrite Htake. cbv iota.
  destruct (names_map_set m _ n (u64 (default 0 v + 1)) Hu Hm) as (m' & r & old & -> & Hm'). cbn [mbind option_bind].
  assert (0 ≤ u64 (default 0 v + 1)) by (apply wrap_range; lia).
  assert (∀ x, names_map_ok x (unresolved (d_states d)) → names_map_ok x (unresolved (d_states d) - 1)) as Hless
    by (intros x; apply names_map_less; lia).
  destruct types; do 3 eexists; eauto 6.
Qed.

(** Printing a name: it is settled and kept from then on. *)
Lemma resolve_name_spec d id types t orig : printer_ok d → btf__type_by_id (d_btf d) id = Some t → has_name t = true →
  btf__name_by_offset (d_btf d) (bt_name_off t) = Some orig → good_name orig = true →
  ∃ d' n, btf_dump_resolve_name d id types = Some (d', n) ∧ grows d d' ∧ printer_ok d' ∧ kept d d' ∧
    d_out d' = d_out d ∧ d_stack d' = d_stack d ∧
    resolved d' id n ∧ good_name n = true.
Proof.
  intros Hok Ht Hn Ho Hg. destruct (dk_arrays d Hok id t Ht) as [[s Hs] [cached Hc]]. pose proof (state_of_lookup _ _ _ Hs) as [Hid Hl].
  unfold has_name in Hn. apply negb_true_iff in Hn. unfold btf_dump_resolve_name. rewrite Hs, Ht. cbn [mbind option_bind]. rewrite Hn, Ho, Hc. cbn [mbind option_bind].
  assert (match cached with Some c => good_name c = true | None => True end) as Hgc.
  { destruct cached as [c|]; [|done]. unfold name_at in Hc. rewrite (proj2 (Z.leb_le 0 id)) in Hc by done. by apply (dk_cached d Hok (Z.to_nat id)). }
  destruct (name_resolved s) eqn:Hr.
  { exists d, (default orig cached). split; [by destruct cached|]. split; [done|]. split; [done|]. split; [done|]. split; [done|]. split; [done|].
    split; [|by destruct cached]. exists s, t, cached. split; [done|]. split; [done|]. split; [done|]. split; [done|]. by destruct cached. }
  pose proof (unresolved_pos _ _ _ Hl Hr) as Hu.
  assert (∀ mt mi c n, names_map_ok mt (unresolved (d_states d) - 1) → names_map_ok mi (unresolved (d_states d) - 1) →
    match c with Some x => n = x ∧ good_name x = true | None => n = orig end → let d' := settle (with_maps d mt mi) id s c in
    grows d d' ∧ printer_ok d' ∧ kept d d' ∧ d_out d' = d_out d ∧ d_stack d' = d_stack d ∧ resolved d' id n ∧ good_name n = true) as Hsettle.
  { intros mt mi c n Hmt Hmi Hcn d'. split; [by apply settle_grows|].
    split; [apply settle_ok; try done; by destruct c as [x|]; [destruct Hcn|]|]. split; [done|]. split; [done|]. split; [done|].
    split; [|destruct c; [by destruct Hcn as [-> ?]|by rewrite Hcn]].
    exists (set_name_resolved s), t, c. split; [unfold d', settle; rewrite state_of_set by (by exists s); by rewrite decide_True|].
    split; [done|]. split; [done|]. split; [by apply name_of_settle; [|exists cached]|].
    destruct c; [by destruct Hcn|by rewrite Hcn]. }
  destruct (btf_is_fwd t || btf_is_enum t && (btf_vlen t =? 0)).
  { unfold mark_resolved. rewrite Hs. cbn [mbind option_bind].
    pose proof (Hsettle (d_type_names d) (d_ident_names d) cached orig) as H. rewrite with_maps_same in H.
    rewrite <- (settle_same d id s cached Hc). eexists _, _. split; [reflexivity|]. apply H.
    - eapply names_map_less; [|apply (dk_types d Hok)]. lia.
    - eapply names_map_less; [|apply (dk_idents d Hok)]. lia.
    - unfold name_at in Hc. rewrite (proj2 (Z.leb_le 0 id)) in Hc by done. by rewrite (dk_fresh d Hok _ s cached Hl Hr Hc). }
  destruct (name_dups_spec d types orig Hok Hu) as (mt & mi & c & -> & Hc0 & Hmt & Hmi). cbn [mbind option_bind].
  assert (cached = None) as ->.
  { unfold name_at in Hc. rewrite (proj2 (Z.leb_le 0 id)) in Hc by done. by apply (dk_fresh d Hok _ s cached Hl Hr Hc). }
  destruct (c >? 1).
  - unfold take_alloc. cbn [d_alloc with_maps]. rewrite (dk_alloc d Hok).
    set (new := take 255 _). assert (good_name new = true) as Hnew.
    { apply good_take; [lia|]. apply good_app; [done|]. by rewrite forallb_app, (good_ident _ (dec_good c Hc0)). }
    exists (settle (with_maps d mt mi) id s (Some new)), new. split; [|by apply Hsettle].
    unfold mark_resolved, settle, set_state, state_of in *. cbn [d_states with_states with_names with_maps d_names]. by rewrite Hs.
  - exists (settle (with_maps d mt mi) id s None), orig. split; [|by apply Hsettle].
    rewrite (settle_same (with_maps d mt mi) id s None Hc). unfold mark_resolved.
    change (state_of (with_maps d mt mi) id) with (state_of d id). by rewrite Hs.
Qed.

(** * Printing *)

(** [d'] is [d] after [s] has been printed. *)
Record prints (d : btf_dump) (s : list Z) (d' : btf_dump) : Prop := {
  pr_grows : grows d d';
  pr_kept : kept d d';
  pr_ok : printer_ok d';
  pr_out : d_out d' = d_out d ++ s;
}.

Lemma prints_nil d : printer_ok d → prints d [] d.
Proof. intros H. split; [done|done|done|by rewrite app_nil_r]. Qed.

Lemma prints_trans d1 s1 d2 s2 d3 : prints d1 s1 d2 → prints d2 s2 d3 → prints d1 (s1 ++ s2) d3.
Proof.
  intros [G1 S1 O1 E1] [G2 S2 O2 E2]. split; [by transitivity d2|by eapply kept_trans|done|]. by rewrite E2, E1, app_assoc.
Qed.

(** The fields that matter for names are those of [d]. *)
Lemma prints_fields d d' s : printer_ok d → d_btf d' = d_btf d → kept d d' → d_states d' = d_states d →
  d_names d' = d_names d → d_type_names d' = d_type_names d → d_ident_names d' = d_ident_names d → d_alloc d' = d_alloc d →
  d_out d' = d_out d ++ s → prints d s d'.
Proof.
  intros [Ha Hv Harr Hc Hf Ht Hi] Eb Es Est En Etn Ein Eal Eo. split; [|done|split|done]; unfold resolved, state_of, name_at in *; try (rewrite ?Eb, ?Est, ?En, ?Etn, ?Ein; done).
  - split; [done|]. unfold resolved, state_of, name_at. by rewrite Eb, Est, En.
  - by rewrite Eal.
Qed.

Lemma prints_bytes d s : printer_ok d → prints d s (out_bytes s d).
Proof. intros H. by apply prints_fields. Qed.

Lemma prints_str d s : printer_ok d → prints d (str_bytes s) (out s d).
Proof. apply prints_bytes. Qed.

Lemma prints_stack d st : printer_ok d → prints d [] (with_stack d st).
Proof. intros H. apply prints_fields; try done. by rewrite app_nil_r. Qed.

(** * One step of a chain *)

Lemma qual_kind t q : qual_of t = Some q →
  btf_kind t = match q with Qconst => BTF_KIND_CONST | Qvolatile => BTF_KIND_VOLATILE | Qrestrict => BTF_KIND_RESTRICT end.
Proof.
  unfold qual_of. destruct (Z.eqb_spec (btf_kind t) BTF_KIND_VOLATILE); [by intros [= <-]|].
  destruct (Z.eqb_spec (btf_kind t) BTF_KIND_CONST); [by intros [= <-]|].
  destruct (Z.eqb_spec (btf_kind t) BTF_KIND_RESTRICT); [by intros [= <-]|done].
Qed.

Lemma mod_text_qual t : mod_text t = qual_text <$> qual_of t.
Proof. unfold mod_text, qual_of. by destruct (btf_kind t =? BTF_KIND_VOLATILE), (btf_kind t =? BTF_KIND_CONST), (btf_kind t =? BTF_KIND_RESTRICT). Qed.

(** A type of a chain that is not printed by its name. *)
Record in_chain (b : btf) (id : Z) (t : btf_type) : Prop := { ic_id : id ≠ 0; ic_type : btf__type_by_id b id = Some t }.

(** The types [ids] are the qualifiers [qs]. *)
Definition are_quals (b : btf) (ids : list Z) (qs : list qual) : Prop :=
  Forall2 (λ id q, ∃ t, in_chain b id t ∧ qual_of t = Some q) ids qs.

(** [ids] does not begin with a qualifier. *)
Definition no_qual_first (b : btf) (ids : list Z) : Prop :=
  match ids with [] => True | id :: _ => ∃ t, in_chain b id t ∧ qual_of t = None ∧ btf_is_mod t = false end.

Definition quals_text (qs : list qual) : list Z := flat_map (λ q, str_bytes (qual_text q) ++ str_bytes " ") qs.
Definition quals_text_after (qs : list qual) : list Z := flat_map (λ q, str_bytes " " ++ str_bytes (qual_text q)) qs.

Lemma out_eq s d : out s d = out_bytes (str_bytes s) d.
Proof. done. Qed.
Lemma out_bytes_app a b d : out_bytes b (out_bytes a d) = out_bytes (a ++ b) d.
Proof. unfold out_bytes, with_out. cbn. by rewrite <- app_assoc. Qed.
Lemma out_bytes_nil d : out_bytes [] d = d.
Proof. unfold out_bytes, with_out. rewrite app_nil_r. by destruct d. Qed.

Lemma emit_mods_spec d ids qs rest : are_quals (d_btf d) ids qs → no_qual_first (d_btf d) rest →
  btf_dump_emit_mods d (st_moved (d_stack d)) (ids ++ rest) = Some (out_bytes (quals_text qs) d, rest).
Proof.
  intros Hq Hr. revert d qs Hq Hr. induction ids as [|id ids IH]; intros d qs Hq Hr.
  - apply Forall2_nil_inv_l in Hq as ->. cbn [app quals_text flat_map]. rewrite out_bytes_nil. destruct rest as [|r rest]; [done|].
    destruct Hr as (t & [_ Ht] & Hqt & _). cbn [btf_dump_emit_mods]. rewrite Z.eqb_refl, Ht. cbn [mbind option_bind].
    by rewrite mod_text_qual, Hqt.
  - apply Forall2_cons_inv_l in Hq as (q & qs' & (t & [_ Ht] & Hqt) & Hq & ->). cbn [app btf_dump_emit_mods]. rewrite Z.eqb_refl, Ht.
    cbn [mbind option_bind]. rewrite mod_text_qual, Hqt. cbn [fmap option_fmap option_map].
    pose proof (IH (out " " (out (qual_text q) d)) qs' Hq Hr) as H. cbn [d_stack out with_out] in H. rewrite H. do 2 f_equal.
    rewrite !out_eq, !out_bytes_app. cbn [quals_text flat_map]. by rewrite <- !app_assoc.
Qed.

Lemma drop_mods_spec d ids qs rest : are_quals (d_btf d) ids qs → no_qual_first (d_btf d) rest →
  btf_dump_drop_mods d (st_moved (d_stack d)) (ids ++ rest) = Some rest.
Proof.
  intros Hq Hr. revert qs Hq. induction ids as [|id ids IH]; intros qs Hq.
  - destruct rest as [|r rest]; [done|]. destruct Hr as (t & [_ Ht] & _ & Hm). cbn [app btf_dump_drop_mods].
    rewrite Z.eqb_refl, Ht. cbn [mbind option_bind]. by rewrite Hm.
  - apply Forall2_cons_inv_l in Hq as (q & qs' & (t & [_ Ht] & Hqt) & Hq & ->). cbn [app btf_dump_drop_mods]. rewrite Z.eqb_refl, Ht.
    cbn [mbind option_bind]. assert (btf_is_mod t = true) as ->; [|by eapply IH].
    unfold btf_is_mod. rewrite (qual_kind t q Hqt). by destruct q.
Qed.

Section steps.
Variable decl : btf_dump → Z → list Z → Z → option btf_dump.

Lemma chain_ptr k d id decls fname lvl lw t : in_chain (d_btf d) id t → btf_kind t = BTF_KIND_PTR →
  btf_dump_emit_type_chain decl (S k) d (st_moved (d_stack d)) (id :: decls) fname lvl lw =
  btf_dump_emit_type_chain decl k (out (if lw : bool then "*" else " *") d) (st_moved (d_stack d)) decls fname lvl true.
Proof.
  intros [Hid Ht] Hk. apply Z.eqb_neq in Hid. cbn [btf_dump_emit_type_chain top_id]. rewrite Z.eqb_refl. cbn [mbind option_bind].
  rewrite Hid, Ht. cbn [mbind option_bind]. by rewrite Hk.
Qed.

Lemma chain_qual k d id decls fname lvl lw t q : in_chain (d_btf d) id t → qual_of t = Some q →
  btf_dump_emit_type_chain decl (S k) d (st_moved (d_stack d)) (id :: decls) fname lvl lw =
  btf_dump_emit_type_chain decl k (out_bytes (str_bytes " " ++ str_bytes (qual_text q)) d) (st_moved (d_stack d)) decls fname lvl false.
Proof.
  intros [Hid Ht] Hq. apply Z.eqb_neq in Hid. cbn [btf_dump_emit_type_chain top_id]. rewrite Z.eqb_refl. cbn [mbind option_bind].
  rewrite Hid, Ht. cbn [mbind option_bind]. rewrite (qual_kind t q Hq). by destruct q.
Qed.

Lemma chain_quals k d ids qs decls fname lvl : are_quals (d_btf d) ids qs →
  btf_dump_emit_type_chain decl (length ids + k) d (st_moved (d_stack d)) (ids ++ decls) fname lvl true =
  btf_dump_emit_type_chain decl k (out_bytes (quals_text_after qs) d) (st_moved (d_stack d)) decls fname lvl (bool_decide (ids = [])).
Proof.
  intros Hq.
  assert (∀ lw, btf_dump_emit_type_chain decl (length ids + k) d (st_moved (d_stack d)) (ids ++ decls) fname lvl lw =
    btf_dump_emit_type_chain decl k (out_bytes (quals_text_after qs) d) (st_moved (d_stack d)) decls fname lvl
      (if bool_decide (ids = []) then lw else false)) as H.
  { revert d qs Hq. induction ids as [|id ids IH]; intros d qs Hq lw.
    - apply Forall2_nil_inv_l in Hq as ->. cbn [quals_text_after flat_map]. by rewrite out_bytes_nil.
    - apply Forall2_cons_inv_l in Hq as (q & qs' & (t & Ht & Hqt) & Hq & ->). cbn [app length Nat.add].
      rewrite (chain_qual _ _ _ _ _ _ _ t q Ht Hqt). set (d1 := out_bytes _ d).
      change (st_moved (d_stack d)) with (st_moved (d_stack d1)). rewrite (IH d1 qs' Hq).
      unfold d1. rewrite out_bytes_app. by destruct ids. }
  rewrite H. by destruct ids.
Qed.

Lemma chain_nil k d fname lvl lw moved :
  btf_dump_emit_type_chain decl (S k) d moved [] fname lvl lw = Some (btf_dump_emit_name d fname lw).
Proof. done. Qed.

Lemma chain_array k d id ids qs decls fname lvl lw t a : in_chain (d_btf d) id t → btf_kind t = BTF_KIND_ARRAY → btf_array_of t = Some a →
  are_quals (d_btf d) ids qs → no_qual_first (d_btf d) decls →
  btf_dump_emit_type_chain decl (S k) d (st_moved (d_stack d)) (id :: ids ++ decls) fname lvl lw =
  match decls with
  | [] => Some (out "]" (out_bytes (dec (a_nelems a)) (out "[" (btf_dump_emit_name d fname lw))))
  | next_id :: _ =>
      next_t ← btf__type_by_id (d_btf d) next_id;
      let d := if negb (bool_decide (fname = [])) && negb lw then out " " d else d in
      d ← btf_dump_emit_type_chain decl k (if btf_is_array next_t then d else out "(" d) (st_moved (d_stack d)) decls fname lvl true;
      Some (out "]" (out_bytes (dec (a_nelems a)) (out "[" (if btf_is_array next_t then d else out ")" d))))
  end.
Proof.
  intros [Hid Ht] Hk Ha Hq Hr. apply Z.eqb_neq in Hid. cbn [btf_dump_emit_type_chain top_id]. rewrite Z.eqb_refl. cbn [mbind option_bind].
  rewrite Hid, Ht. cbn [mbind option_bind]. rewrite Hk, Ha, (drop_mods_spec d ids qs decls Hq Hr). cbn [mbind option_bind].
  change (BTF_KIND_ARRAY =? BTF_KIND_ARRAY) with true. destruct decls as [|n decls]; [done|]. cbn [top_id]. rewrite Z.eqb_refl.
  cbn. destruct (btf__type_by_id (d_btf d) n); [|done]. cbn. by destruct (negb _ && negb _).
Qed.

Lemma chain_proto k d id ids qs decls fname lvl lw t : in_chain (d_btf d) id t → btf_kind t = BTF_KIND_FUNC_PROTO →
  are_quals (d_btf d) ids qs → no_qual_first (d_btf d) decls →
  btf_dump_emit_type_chain decl (S k) d (st_moved (d_stack d)) (id :: ids ++ decls) fname lvl lw =
  (d ← match decls with
       | [] => Some (btf_dump_emit_name d fname lw)
       | _ => d ← btf_dump_emit_type_chain decl k (out " (" d) (st_moved (d_stack d)) decls fname lvl true; Some (out ")" d)
       end;
   emit_param_list decl d t lvl).
Proof.
  intros [Hid Ht] Hk Hq Hr. apply Z.eqb_neq in Hid. cbn [btf_dump_emit_type_chain top_id]. rewrite Z.eqb_refl. cbn [mbind option_bind].
  rewrite Hid, Ht. cbn [mbind option_bind]. by rewrite Hk, (drop_mods_spec d ids qs decls Hq Hr).
Qed.
End steps.

(** * Printing a type by its name *)

(** The name of [id] as [btf_dump_emit_type_chain] prints it. *)
Definition print_base (d : btf_dump) (id : Z) (t : btf_type) : option btf_dump :=
  let k := btf_kind t in
  if (k =? BTF_KIND_INT) || (k =? BTF_KIND_FLOAT) then
    name ← btf__name_by_offset (d_btf d) (bt_name_off t); Some (out_bytes name d)
  else if (k =? BTF_KIND_STRUCT) || (k =? BTF_KIND_UNION) then btf_dump_emit_struct_fwd d id t
  else if (k =? BTF_KIND_ENUM) || (k =? BTF_KIND_ENUM64) then btf_dump_emit_enum_fwd d id t
  else if k =? BTF_KIND_FWD then btf_dump_emit_fwd_def d id t
  else '(d, name) ← btf_dump_ident_name d id; Some (out_bytes name d).

(** A type that is printed by its name, and that has one. *)
Definition base_ok (b : btf) (id : Z) : Prop :=
  id = 0 ∨ ∃ t name, in_chain b id t ∧ base_kind t = true ∧ btf__name_by_offset b (bt_name_off t) = Some name ∧ base_name_ok t name = true.

Lemma base_kind_cases t : base_kind t = true →
  btf_kind t = BTF_KIND_INT ∨ btf_kind t = BTF_KIND_FLOAT ∨ btf_kind t = BTF_KIND_STRUCT ∨ btf_kind t = BTF_KIND_UNION ∨
  btf_kind t = BTF_KIND_ENUM ∨ btf_kind t = BTF_KIND_ENUM64 ∨ btf_kind t = BTF_KIND_FWD ∨ btf_kind t = BTF_KIND_TYPEDEF.
Proof. unfold base_kind. rewrite !orb_true_iff, !Z.eqb_eq. tauto. Qed.

Lemma chain_base decl k d id ids qs decls fname lvl lw t name : in_chain (d_btf d) id t → base_kind t = true →
  btf__name_by_offset (d_btf d) (bt_name_off t) = Some name → base_name_ok t name = true →
  are_quals (d_btf d) ids qs → no_qual_first (d_btf d) decls →
  btf_dump_emit_type_chain decl (S k) d (st_moved (d_stack d)) (id :: ids ++ decls) fname lvl lw =
  (d1 ← print_base (out_bytes (quals_text qs) d) id t; btf_dump_emit_type_chain decl k d1 (st_moved (d_stack d)) decls fname lvl false).
Proof.
  intros [Hid Ht] Hb Hname Hok Hq Hr. apply Z.eqb_neq in Hid. cbn [btf_dump_emit_type_chain top_id]. rewrite Z.eqb_refl. cbn [mbind option_bind].
  rewrite Hid, Ht. cbn [mbind option_bind]. rewrite (emit_mods_spec d ids qs decls Hq Hr). cbn [mbind option_bind].
  unfold print_base. change (d_btf (out_bytes _ d)) with (d_btf d). rewrite Hname. revert Hok. unfold base_name_ok.
  destruct (base_kind_cases t Hb) as [->|[->|[->|[->|[->|[->|[->| ->]]]]]]]; try done;
    intros [-> _]%andb_true_iff; cbn [negb andb]; try done.
  cbn. by destruct (btf_dump_ident_name _ id) as [[]|].
Qed.

Lemma print_base_spec d id t name : printer_ok d → in_chain (d_btf d) id t → base_kind t = true →
  btf__name_by_offset (d_btf d) (bt_name_off t) = Some name → base_name_ok t name = true →
  ∃ d' text, print_base d id t = Some d' ∧ prints d text d' ∧ d_stack d' = d_stack d ∧ type_spec d' (lex text) id.
Proof.
  intros Hok [Hid Ht] Hb Hname Hn. unfold print_base, base_name_ok in *.
  destruct ((btf_kind t =? BTF_KIND_INT) || (btf_kind t =? BTF_KIND_FLOAT)) eqn:Hk.
  { exists (out_bytes name d), name. rewrite Hname. split; [done|]. split; [by apply prints_bytes|]. split; [done|].
    unfold type_spec. rewrite (proj2 (Z.eqb_neq id 0) Hid). exists t. split; [done|]. rewrite Hk. by exists name. }
  apply andb_true_iff in Hn as [Hn Hg].
  assert (∀ types kw, (match keyword t with Some k => str_bytes k ++ str_bytes " " | None => [] end) = kw →
    ∃ d1 n, btf_dump_resolve_name d id types = Some (d1, n) ∧ prints d (kw ++ n) (out_bytes (kw ++ n) d1) ∧ d_stack d1 = d_stack d ∧
      type_spec (out_bytes (kw ++ n) d1) (lex (kw ++ n)) id) as H.
  { intros types kw <-. destruct (resolve_name_spec d id types t name Hok Ht Hn Hname Hg) as (d1 & n & E & G & O1 & Em & Eo & Es & Hres & Hgn).
    exists d1, n. split; [done|]. split.
    { destruct (prints_bytes d1 ((match keyword t with Some k => str_bytes k ++ str_bytes " " | None => [] end) ++ n) O1) as [G2 S2 O2 E2].
      split; [by transitivity d1|by eapply kept_trans|done|by rewrite E2, Eo]. }
    split; [done|]. unfold type_spec. rewrite (proj2 (Z.eqb_neq id 0) Hid). exists t. cbn [d_btf out_bytes with_out].
    rewrite (gr_btf _ _ G). split; [done|]. rewrite Hk. exists n. split; [done|].
    destruct (keyword t) as [k|] eqn:Hkw; [|by apply lex_good]. 
    assert (lex ((str_bytes k ++ str_bytes " ") ++ n) = TId (str_bytes k) :: lex n) as ->; [|by rewrite (lex_good n Hgn)].
    revert Hkw. unfold keyword. destruct (btf_kflag t); repeat case_match; intros [= <-]; done. }
  destruct (base_kind_cases t Hb) as [Ek|[Ek|[Ek|[Ek|[Ek|[Ek|[Ek|Ek]]]]]]]; try (by rewrite Ek in Hk); rewrite Ek; cbv iota.
  - destruct (H true (str_bytes "struct" ++ str_bytes " ")) as (d1 & n & E & Hp & Hst & Hsp); [by unfold keyword; rewrite Ek|].
    eexists _, _. split; [|split; [exact Hp|done]]. unfold btf_dump_emit_struct_fwd, btf_dump_type_name. rewrite E. cbn [mbind option_bind].
    by rewrite Hn, Ek, !out_eq, !out_bytes_app.
  - destruct (H true (str_bytes "union" ++ str_bytes " ")) as (d1 & n & E & Hp & Hst & Hsp); [by unfold keyword; rewrite Ek|].
    eexists _, _. split; [|split; [exact Hp|done]]. unfold btf_dump_emit_struct_fwd, btf_dump_type_name. rewrite E. cbn [mbind option_bind].
    by rewrite Hn, Ek, !out_eq, !out_bytes_app.
  - destruct (H true (str_bytes "enum" ++ str_bytes " ")) as (d1 & n & E & Hp & Hst & Hsp); [by unfold keyword; rewrite Ek|].
    eexists _, _. split; [|split; [exact Hp|done]]. unfold btf_dump_emit_enum_fwd, btf_dump_type_name. rewrite E. cbn [mbind option_bind].
    by rewrite out_eq, out_bytes_app.
  - destruct (H true (str_bytes "enum" ++ str_bytes " ")) as (d1 & n & E & Hp & Hst & Hsp); [by unfold keyword; rewrite Ek|].
    eexists _, _. split; [|split; [exact Hp|done]]. unfold btf_dump_emit_enum_fwd, btf_dump_type_name. rewrite E. cbn [mbind option_bind].
    by rewrite out_eq, out_bytes_app.
  - destruct (H true (str_bytes (if btf_kflag t then "union" else "struct") ++ str_bytes " ")) as (d1 & n & E & Hp & Hst & Hsp);
      [by unfold keyword; rewrite Ek|].
    eexists _, _. split; [|split; [exact Hp|done]]. unfold btf_dump_emit_fwd_def, btf_dump_type_name. rewrite E. cbn [mbind option_bind].
    rewrite out_eq, out_bytes_app. by destruct (btf_kflag t).
  - destruct (H false []) as (d1 & n & E & Hp & Hst & Hsp); [by unfold keyword; rewrite Ek|].
    eexists _, _. split; [|split; [exact Hp|done]]. unfold btf_dump_ident_name. by rewrite E.
Qed.

(** * The frame of a declaration *)

(** The types [ids], in turn, make [U] of [T]; parameters are described to depth [N]. *)
Inductive wraps (strip : bool) (b : btf) (N : nat) : list Z → ctype → ctype → Prop :=
  | wraps_nil T : wraps strip b N [] T T
  | wraps_cons n id t ids T T' U : (n ≤ N)%nat → in_chain b id t → wrap_type (ctype_of n strip b) b t T = Some T' →
      wraps strip b N ids T' U → wraps strip b N (id :: ids) T U.

Lemma wraps_snoc strip b N n ids id t T T' U : wraps strip b N ids T T' → (n ≤ N)%nat → in_chain b id t →
  wrap_type (ctype_of n strip b) b t T' = Some U → wraps strip b N (ids ++ [id]) T U.
Proof.
  intros Hw Hn Ht HU. induction Hw as [T|m id' t' ids T T1 U' Hm Ht' Hw' Hrest IH]; cbn [app].
  - exact (wraps_cons _ _ _ n id t [] T U U Hn Ht HU (wraps_nil _ _ _ U)).
  - exact (wraps_cons _ _ _ m id' t' _ T T1 U Hm Ht' Hw' (IH HU)).
Qed.

Lemma wraps_le strip b N N' ids T U : (N ≤ N')%nat → wraps strip b N ids T U → wraps strip b N' ids T U.
Proof.
  intros HN. induction 1 as [T|m id' t' ids T T1 U' Hm Ht' Hw' Hrest IH]; [constructor|].
  exact (wraps_cons _ _ _ m id' t' _ T T1 U' (Nat.le_trans _ _ _ Hm HN) Ht' Hw' IH).
Qed.

(** The qualifiers at the head of a frame. *)
Lemma wraps_quals strip b N ids T U : wraps strip b N ids T U →
  ∃ qids qs rest, ids = qids ++ rest ∧ are_quals b qids qs ∧ no_qual_first b rest ∧ wraps strip b N rest (foldl (λ T q, qualify q T) T qs) U.
Proof.
  induction 1 as [T|n id t ids T T' U Hn Ht Hw Hrest IH].
  { exists [], [], []. split; [done|]. split; [constructor|]. split; [done|constructor]. }
  destruct (qual_of t) as [q|] eqn:Hq.
  - destruct IH as (qids & qs & rest & -> & Hqs & Hno & Hwr). exists (id :: qids), (q :: qs), rest. split; [done|].
    split; [constructor; [by exists t|done]|]. split; [done|]. cbn [foldl].
    assert (T' = qualify q T) as <-; [|done]. revert Hw. unfold wrap_type. rewrite Hq. rewrite (qual_kind t q Hq).
    by destruct q; intros [= <-].
  - exists [], [], (id :: ids). split; [done|]. split; [constructor|]. split; [|by econstructor].
    exists t. split; [done|]. split; [done|]. revert Hw. unfold wrap_type. rewrite Hq. unfold btf_is_mod.
    revert Hq. unfold qual_of. destruct (Z.eqb_spec (btf_kind t) BTF_KIND_VOLATILE) as [|_]; [done|].
    destruct (Z.eqb_spec (btf_kind t) BTF_KIND_CONST) as [|_]; [done|]. destruct (Z.eqb_spec (btf_kind t) BTF_KIND_RESTRICT) as [|_]; [done|].
    intros _. cbn [orb]. destruct (Z.eqb_spec (btf_kind t) BTF_KIND_PTR) as [->|_]; [done|]. destruct (Z.eqb_spec (btf_kind t) BTF_KIND_ARRAY) as [->|_]; [done|].
    destruct (Z.eqb_spec (btf_kind t) BTF_KIND_FUNC_PROTO) as [->|_]; done.
Qed.

Lemma qualify_none qs n T : foldl (λ T q, qualify q T) (CArr n T) qs = CArr n T.
Proof. by induction qs. Qed.
Lemma qualify_fun qs T ps v : foldl (λ T q, qualify q T) (CFun T ps v) qs = CFun T ps v.
Proof. by induction qs. Qed.
Lemma qualify_ptr qs T : foldl (λ T q, qualify q T) (CPtr no_quals T) qs = CPtr (quals_of qs) T.
Proof.
  unfold quals_of. generalize no_quals. induction qs as [|q qs IH]; intros s; [done|]. apply IH.
Qed.
Lemma qualify_base qs id : foldl (λ T q, qualify q T) (CBase no_quals id) qs = CBase (quals_of qs) id.
Proof.
  unfold quals_of. generalize no_quals. induction qs as [|q qs IH]; intros s; [done|]. apply IH.
Qed.

Lemma half_bound x : x < 2 ^ 31 → x ÷ 2 < 2 ^ 31.
Proof.
  intros Hx. destruct (Z.le_gt_cases 0 x) as [Hp|Hn].
  - rewrite Z.quot_div_nonneg by lia. pose proof (Z.div_lt_upper_bound x 2 (2 ^ 31) ltac:(lia)). lia.
  - pose proof (Z.quot_opp_l x 2 ltac:(lia)) as Ho. pose proof (Z.quot_pos (- x) 2 ltac:(lia) ltac:(lia)). lia.
Qed.

Lemma push_ok d : d_alloc d = [] → ∃ st, btf_dump_push_decl_stack_id d = (with_stack d st, true).
Proof.
  intros Ha. unfold btf_dump_push_decl_stack_id, take_alloc. rewrite Ha. destruct (_ >=? _); [|by eexists].
  unfold libbpf_reallocarray. set (c := Z.max 16 _ * 4). assert (c >? SIZE_MAX = false) as ->; [|by eexists].
  pose proof (half_bound (s32 (st_cap (d_stack d) * 3))) as Hh. pose proof (swrap_range 32 (st_cap (d_stack d) * 3) ltac:(lia)).
  change SIZE_MAX with (2 ^ 64 - 1). lia.
Qed.

Lemma base_not_mod t : base_kind t = true → btf_is_mod t = false.
Proof. intros H. unfold btf_is_mod. by destruct (base_kind_cases t H) as [->|[->|[->|[->|[->|[->|[->| ->]]]]]]]. Qed.

(** The type that a frame goes on with. *)
Lemma decl_chain_step k d id t ids : in_chain (d_btf d) id t →
  (base_kind t = true → decl_chain (S k) d id ids =
    let '(d, ok) := btf_dump_push_decl_stack_id d in Some (d, if ok then Some (id :: ids) else None)) ∧
  (∀ next, d_alloc d = [] → next_type t = Some next → d_strip_mods d && btf_is_mod t = true → decl_chain (S k) d id ids = decl_chain k d next ids) ∧
  (∀ ct u U next, d_alloc d = [] → next_type t = Some next → d_strip_mods d && btf_is_mod t = false → wrap_type ct (d_btf d) t u = Some U →
    ∃ st, decl_chain (S k) d id ids = decl_chain k (with_stack d st) next (id :: ids)).
Proof.
  intros [Hid Ht]. apply Z.eqb_neq in Hid. cbn [decl_chain]. rewrite Ht. cbn [mbind option_bind]. split; [|split].
  - intros Hb. rewrite (base_not_mod t Hb), andb_false_r. destruct (btf_dump_push_decl_stack_id d) as [d1 []]; [|done]. rewrite Hid.
    by destruct (base_kind_cases t Hb) as [->|[->|[->|[->|[->|[->|[->| ->]]]]]]].
  - intros next _ Hnx Hm. rewrite Hm, Hid. apply andb_true_iff in Hm as [_ Hm]. unfold next_type in Hnx. revert Hm Hnx. unfold btf_is_mod.
    rewrite !orb_true_iff, !Z.eqb_eq. by intros [[[->| ->]| ->]| ->] [= <-].
  - intros ct u U next Ha Hnx Hm Hw. rewrite Hm. destruct (push_ok d Ha) as [st ->]. exists st. rewrite Hid. revert Hw Hnx. unfold wrap_type, next_type.
    destruct (Z.eqb_spec (btf_kind t) BTF_KIND_PTR) as [->|_]; [by intros _ [= <-]|].
    destruct (Z.eqb_spec (btf_kind t) BTF_KIND_ARRAY) as [->|_].
    { destruct (btf_array_of t); [|done]. by intros _ [= <-]. }
    destruct (Z.eqb_spec (btf_kind t) BTF_KIND_FUNC_PROTO) as [->|_]; [by intros _ [= <-]|].
    destruct (qual_of t) as [q|] eqn:Hq; [|done]. rewrite (qual_kind t q Hq). by destruct q; intros _ [= <-].
Qed.

Lemma ctype_of_0 n strip b : ctype_of (S n) strip b 0 = Some (CBase no_quals 0).
Proof. done. Qed.

Lemma decl_chain_spec n k d id U ids0 : printer_ok d → ctype_of n (d_strip_mods d) (d_btf d) id = Some U → (n ≤ k)%nat →
  ∃ st base ids, decl_chain k d id ids0 = Some (with_stack d st, Some (base :: ids ++ ids0)) ∧ base_ok (d_btf d) base ∧
    wraps (d_strip_mods d) (d_btf d) (pred n) ids (CBase no_quals base) U.
Proof.
  revert k d id U ids0. induction n as [|n IH]; intros k d id U ids0 Hok HU Hk; [done|]. destruct k as [|k]; [lia|].
  pose proof (dk_alloc d Hok) as Ha. destruct (decide (id = 0)) as [->|Hid].
  { rewrite ctype_of_0 in HU. injection HU as <-. cbn [decl_chain]. rewrite (dk_void d Hok). cbn [mbind option_bind].
    replace (d_strip_mods d && btf_is_mod btf_void) with false by (by destruct (d_strip_mods d)). destruct (push_ok d Ha) as [st ->].
    exists st, 0, []. split; [done|]. split; [by left|constructor]. }
  cbn [ctype_of] in HU. rewrite (proj2 (Z.eqb_neq id 0) Hid) in HU. destruct (btf__type_by_id (d_btf d) id) as [t|] eqn:Ht; [|done]. cbn [mbind option_bind] in HU.
  assert (in_chain (d_btf d) id t) as Hin by done. destruct (decl_chain_step k d id t ids0 Hin) as (Hbase & Hstrip & Hwrap).
  destruct (base_kind t) eqn:Hb.
  { destruct (btf__name_by_offset _ _) as [name|] eqn:Hname; [|done]. cbn [mbind option_bind] in HU.
    destruct (base_name_ok t name) eqn:Hbn; [|done]. injection HU as <-. rewrite (Hbase eq_refl). destruct (push_ok d Ha) as [st ->].
    exists st, id, []. split; [done|]. split; [right; by exists t, name|constructor]. }
  destruct (next_type t) as [next|] eqn:Hnx; [|done]. cbn [mbind option_bind] in HU. destruct (ctype_of n _ _ next) as [u|] eqn:Hu; [|done].
  cbn [mbind option_bind] in HU. destruct (d_strip_mods d && btf_is_mod t) eqn:Hm.
  - injection HU as <-. rewrite (Hstrip next Ha eq_refl eq_refl). destruct (IH k d next u ids0 Hok Hu ltac:(lia)) as (st & base & ids & E & Hbo & Hw).
    exists st, base, ids. split; [done|]. split; [done|]. eapply wraps_le; [|exact Hw]. cbn. lia.
  - destruct (Hwrap _ u U next Ha eq_refl eq_refl HU) as [st ->].
    destruct (IH k (with_stack d st) next u (id :: ids0) (pr_ok _ _ _ (prints_stack d st Hok)) Hu ltac:(lia)) as (st' & base & ids & E & Hbo & Hw).
    exists st', base, (ids ++ [id]). rewrite E, <- app_assoc. split; [done|]. split; [done|]. cbn [pred].
    eapply wraps_snoc; [eapply wraps_le; [|exact Hw]|reflexivity|done|exact HU]. lia.
Qed.

(** * The text of a chain *)

Lemma declarator_grows d d' : grows d d' →
  (∀ ts T n U, declarator (type_spec d) ts T n U → declarator (type_spec d') ts T n U) ∧
  (∀ ts T n U, direct (type_spec d) ts T n U → direct (type_spec d') ts T n U) ∧
  (∀ ts ps v, params (type_spec d) ts ps v → params (type_spec d') ts ps v) ∧
  (∀ ts n U, declaration (type_spec d) ts n U → declaration (type_spec d') ts n U).
Proof. intros G. apply grammar_mono. intros ts id. by apply type_spec_grows. Qed.

Lemma pr_strip d s d' : prints d s d' → d_strip_mods d' = d_strip_mods d.
Proof. intros [_ K _ _]. apply K. Qed.
Lemma prints_btf d s d' : prints d s d' → d_btf d' = d_btf d.
Proof. intros [G _ _ _]. apply G. Qed.

Definition name_text (name : list Z) (last_was_ptr : bool) : list Z :=
  (if negb (bool_decide (name = [])) && negb last_was_ptr then [32] else []) ++ name.

Lemma emit_name_prints d name lw : printer_ok d → prints d (name_text name lw) (btf_dump_emit_name d name lw).
Proof.
  intros H. unfold btf_dump_emit_name, name_text. rewrite out_eq, out_bytes_app.
  destruct (negb _ && negb lw); by apply prints_bytes.
Qed.

Lemma name_text_lex name lw : forallb is_ident name = true → lex (name_text name lw) = name_toks name.
Proof. intros H. unfold name_text. destruct (_ && _); exact (lex_name name H). Qed.

Lemma name_text_breaks name lw : lw = false ∨ name = [] → breaks (name_text name lw) = true.
Proof. unfold name_text. intros [->| ->]; [|done]. by destruct name. Qed.

(** Text between two punctuation marks. *)
Lemma lex_enclosed o s c rest : is_ident o = false → is_space o = false → is_ident c = false → is_space c = false →
  lex (o :: s ++ c :: rest) = TPunct o :: lex s ++ TPunct c :: lex rest.
Proof.
  intros Ho Hos Hc Hcs. unfold lex at 1. cbn [lex_from]. rewrite Ho, Hos. cbn [flush app]. f_equal.
  change (lex_from [] (s ++ c :: rest)) with (lex (s ++ c :: rest)). rewrite lex_app by (cbn; by rewrite Hc). f_equal.
  unfold lex. cbn [lex_from]. by rewrite Hc, Hcs.
Qed.

Section chain_text.
Variable decl : btf_dump → Z → list Z → Z → option btf_dump.
Variable N : nat.
Hypothesis Hdecl : ∀ n d id fname lvl U, (n ≤ N)%nat → printer_ok d → ctype_of n (d_strip_mods d) (d_btf d) id = Some U →
  forallb is_ident fname = true → ∃ d' s, decl d id fname lvl = Some d' ∧ prints d s d' ∧ declaration (type_spec d') (lex s) fname U.

(** The parameters behind the first one. *)
Lemma emit_params_spec n k d t lvl i ps v : (n ≤ N)%nat → printer_ok d → 0 < i →
  params_of (ctype_of n (d_strip_mods d) (d_btf d)) k (d_btf d) t i = Some (ps, v) →
  ∃ d' s, emit_params decl k d t lvl i = Some d' ∧ prints d s d' ∧ breaks s = true ∧
    ∀ ts m U, declaration (type_spec d') ts m U → params (type_spec d') (ts ++ lex s) ((m, U) :: ps) v.
Proof.
  intros Hn. revert d i ps v. induction k as [|k IH]; intros d i ps v Hok Hi Hps.
  { injection Hps as <- <-. exists d, []. split; [done|]. split; [by apply prints_nil|]. split; [done|]. intros ts m U HD.
    rewrite app_nil_r. by constructor. }
  cbn [params_of] in Hps. cbn [emit_params]. rewrite (proj2 (Z.gtb_lt i 0) Hi). destruct (btf_param_at t i) as [p|]; [|done]. cbn [mbind option_bind] in *.
  destruct ((i =? btf_vlen t - 1) && (p_type p =? 0)).
  { injection Hps as <- <-. exists (out "..." (out ", " d)), (str_bytes ", " ++ str_bytes "..."). split; [done|].
    split; [apply (prints_trans _ _ (out ", " d)); [by apply prints_str|apply prints_str, (pr_ok d (str_bytes ", ")), prints_str, Hok]|].
    split; [done|]. intros ts m U HD. by apply P_variadic. }
  change (d_btf (out ", " d)) with (d_btf d). destruct (btf__name_by_offset _ (p_name_off p)) as [name|]; [|done]. cbn [mbind option_bind] in *.
  destruct (forallb is_ident name) eqn:Hname; [|done]. cbn [negb] in Hps. destruct (ctype_of n _ _ (p_type p)) as [u|] eqn:Hu; [|done].
  cbn [mbind option_bind] in Hps. destruct (params_of _ k _ t (i + 1)) as [[ps' v']|] eqn:Hps'; [|done]. injection Hps as <- <-.
  pose proof (prints_str d ", " Hok) as Hp0.
  destruct (Hdecl n (out ", " d) (p_type p) name lvl u Hn (pr_ok _ _ _ Hp0) Hu Hname) as (d1 & s1 & -> & Hp1 & HD1). cbn [mbind option_bind].
  pose proof (prints_btf _ _ _ Hp1) as Eb. pose proof (pr_strip _ _ _ Hp1) as Es. cbn in Eb, Es. rewrite <- Eb, <- Es in Hps'.
  destruct (IH d1 (i + 1) ps' v' (pr_ok _ _ _ Hp1) ltac:(lia) Hps') as (d2 & s2 & -> & Hp2 & Hb2 & HP2).
  exists d2, (str_bytes ", " ++ s1 ++ s2). split; [done|]. split; [by eapply prints_trans, prints_trans|]. split; [done|].
  intros ts m U HD. change (lex (str_bytes ", " ++ s1 ++ s2)) with (TPunct 44 :: lex (s1 ++ s2)). rewrite lex_app by done.
  apply P_more; [done|]. apply HP2. by apply (declarator_grows d1 d2 (pr_grows _ _ _ Hp2)).
Qed.

Lemma emit_param_list_spec n d t lvl ps v : (n ≤ N)%nat → printer_ok d →
  proto_params (ctype_of n (d_strip_mods d) (d_btf d)) (d_btf d) t = Some (ps, v) →
  ∃ d' s, emit_param_list decl d t lvl = Some d' ∧ prints d (40 :: s ++ [41]) d' ∧ params (type_spec d') (lex s) ps v.
Proof.
  intros Hn Hok. unfold proto_params, emit_param_list. destruct (void_params t) as [void|] eqn:Hv; [|done]. cbn [mbind option_bind].
  destruct void.
  { intros [= <- <-]. exists (out "()" d), []. split; [done|]. split; [exact (prints_str d "()" Hok)|constructor]. }
  destruct (Z.to_nat (btf_vlen t)) as [|k] eqn:Hk.
  { intros [= <- <-]. exists (out ")" (out "(" d)), []. split; [done|]. split; [|constructor].
    apply (prints_trans d [40] (out "(" d) [41]); [exact (prints_str d "(" Hok)|]. apply (prints_str (out "(" d) ")"), (pr_ok _ _ _ (prints_str d "(" Hok)). }
  cbn [params_of emit_params]. change (0 >? 0) with false. cbv iota. destruct (btf_param_at t 0) as [p|] eqn:Hp; [|done]. cbn [mbind option_bind].
  assert ((0 =? btf_vlen t - 1) && (p_type p =? 0) = false) as ->.
  { revert Hv. unfold void_params. rewrite Hp. destruct (Z.eqb_spec (btf_vlen t) 1) as [->|]; [by intros [= ->]|].
    intros _. by rewrite (proj2 (Z.eqb_neq 0 (btf_vlen t - 1))) by lia. }
  change (d_btf (out "(" d)) with (d_btf d). destruct (btf__name_by_offset _ (p_name_off p)) as [name|]; [|done]. cbn [mbind option_bind].
  destruct (forallb is_ident name) eqn:Hname; [|done]. cbn [negb]. destruct (ctype_of n _ _ (p_type p)) as [u|] eqn:Hu; [|done].
  cbn [mbind option_bind]. destruct (params_of _ k _ t (0 + 1)) as [[ps' v']|] eqn:Hps'; [|done]. intros [= <- <-].
  pose proof (prints_str d "(" Hok) as Hp0.
  destruct (Hdecl n (out "(" d) (p_type p) name lvl u Hn (pr_ok _ _ _ Hp0) Hu Hname) as (d1 & s1 & -> & Hp1 & HD1). cbn [mbind option_bind].
  pose proof (prints_btf _ _ _ Hp1) as Eb. pose proof (pr_strip _ _ _ Hp1) as Es. cbn in Eb, Es. rewrite <- Eb, <- Es in Hps'.
  destruct (emit_params_spec n k d1 t lvl (0 + 1) ps' v' Hn (pr_ok _ _ _ Hp1) ltac:(lia) Hps') as (d2 & s2 & -> & Hp2 & Hb2 & HP2).
  exists (out ")" d2), (s1 ++ s2). split; [done|]. pose proof (prints_str d2 ")" (pr_ok _ _ _ Hp2)) as Hp3. split.
  - replace (40 :: (s1 ++ s2) ++ [41]) with (str_bytes "(" ++ s1 ++ s2 ++ str_bytes ")") by (cbn; by rewrite <- app_assoc).
    by eapply prints_trans, prints_trans, prints_trans.
  - apply (declarator_grows d2 _ (pr_grows _ _ _ Hp3)). rewrite lex_app by done. apply HP2. by apply (declarator_grows d1 d2 (pr_grows _ _ _ Hp2)).
Qed.

(** What is printed for the rest of a frame, behind the specifiers of type [T]. *)
Definition rest_printed (d d' : btf_dump) (fname : list Z) (lw : bool) (ids : list Z) (T U : ctype) (s : list Z) : Prop :=
  prints d s d' ∧ (lw = false ∨ fname = [] → breaks s = true) ∧ declarator (type_spec d') (lex s) T fname U ∧
  (match ids with id :: _ => ∀ t, btf__type_by_id (d_btf d) id = Some t → btf_is_array t = true → direct (type_spec d') (lex s) T fname U | [] => True end) ∧
  (ids ≠ [] → lex s ≠ []).

Definition chain_ok (len : nat) : Prop := ∀ ids k d T U fname lvl lw, (length ids ≤ len)%nat → (length ids < k)%nat → printer_ok d →
  wraps (d_strip_mods d) (d_btf d) N ids T U → no_qual_first (d_btf d) ids → forallb is_ident fname = true →
  ∃ d' s, btf_dump_emit_type_chain decl k d (st_moved (d_stack d)) ids fname lvl lw = Some d' ∧ rest_printed d d' fname lw ids T U s.

Lemma chain_ok_nil k d T fname lvl lw : (0 < k)%nat → printer_ok d → forallb is_ident fname = true →
  ∃ d' s, btf_dump_emit_type_chain decl k d (st_moved (d_stack d)) [] fname lvl lw = Some d' ∧ rest_printed d d' fname lw [] T T s.
Proof.
  intros Hk Hok Hf. destruct k as [|k]; [lia|]. rewrite chain_nil. exists (btf_dump_emit_name d fname lw), (name_text fname lw).
  split; [done|]. split; [by apply emit_name_prints|]. split; [apply name_text_breaks|]. rewrite name_text_lex by done.
  split; [apply D_direct, D_name|done].
Qed.

Lemma chain_ok_ptr len k d id t ids T U fname lvl lw : chain_ok len → (length ids ≤ len)%nat → (length ids < k)%nat → printer_ok d →
  in_chain (d_btf d) id t → btf_kind t = BTF_KIND_PTR → wraps (d_strip_mods d) (d_btf d) N ids (CPtr no_quals T) U → forallb is_ident fname = true →
  ∃ d' s, btf_dump_emit_type_chain decl (S k) d (st_moved (d_stack d)) (id :: ids) fname lvl lw = Some d' ∧ rest_printed d d' fname lw (id :: ids) T U s.
Proof.
  intros IH Hlen Hk Hok Ht Hkt Hw Hf. rewrite (chain_ptr _ _ _ _ _ _ _ _ t Ht Hkt).
  destruct (wraps_quals _ _ _ _ _ _ Hw) as (qids & qs & rest & -> & Hqs & Hno & Hwr). rewrite qualify_ptr in Hwr.
  set (star := if lw then "*" else " *"). rewrite length_app in Hlen, Hk. replace k with (length qids + (k - length qids))%nat by lia.
  change (st_moved (d_stack d)) with (st_moved (d_stack (out star d))).
  rewrite (chain_quals _ _ (out star d) qids qs rest fname lvl Hqs). set (d1 := out_bytes _ _).
  assert (prints d (str_bytes star ++ quals_text_after qs) d1) as Hp1.
  { eapply prints_trans; [by apply prints_str|]. apply prints_bytes, (pr_ok d (str_bytes star)), prints_str, Hok. }
  destruct (IH rest (k - length qids)%nat d1 (CPtr (quals_of qs) T) U fname lvl (bool_decide (qids = [])) ltac:(lia) ltac:(lia) (pr_ok _ _ _ Hp1) Hwr Hno Hf)
    as (d2 & s & E & Hp2 & Hb & HD & _ & _).
  change (st_moved (d_stack (out star d))) with (st_moved (d_stack d1)). rewrite E. exists d2, ((str_bytes star ++ quals_text_after qs) ++ s).
  split; [done|]. assert (lex ((str_bytes star ++ quals_text_after qs) ++ s) = TPunct 42 :: map qual_tok qs ++ lex s) as Hlex.
  { rewrite <- app_assoc. transitivity (TPunct 42 :: lex (quals_text_after qs ++ s)); [unfold star; by destruct lw|]. f_equal.
    assert (breaks s = true ∨ qs = []) as Hbq.
    { destruct qids as [|q0 qids]; [right; by apply Forall2_nil_inv_l in Hqs|left; apply Hb; by left]. }
    clear -Hbq. induction qs as [|q qs IH]; [done|]. destruct Hbq as [Hbs|]; [|done].
    change (quals_text_after (q :: qs) ++ s) with (((str_bytes " " ++ str_bytes (qual_text q)) ++ quals_text_after qs) ++ s).
    rewrite <- app_assoc, lex_app by (by destruct qs). rewrite IH by (by left). by destruct q. }
  unfold rest_printed. rewrite Hlex. split; [by eapply prints_trans|]. split; [|split; [by apply D_ptr|split; [|done]]].
  - intros _. by destruct lw.
  - intros t' Ht' Ha. destruct Ht as [_ Ht]. rewrite Ht in Ht'. injection Ht' as <-. unfold btf_is_array in Ha. by rewrite Hkt in Ha.
Qed.

Lemma lex_bracket n : 0 ≤ n → lex (91 :: dec n ++ [93]) = [TPunct 91; TId (dec n); TPunct 93].
Proof. intros Hn. rewrite lex_enclosed by done. by rewrite (lex_good _ (dec_good n Hn)). Qed.

Lemma prints_bracket d s d1 n : prints d s d1 → prints d (s ++ 91 :: dec n ++ [93]) (out "]" (out_bytes (dec n) (out "[" d1))).
Proof.
  intros Hp. rewrite !out_eq, !out_bytes_app. eapply prints_trans; [done|]. exact (prints_bytes d1 _ (pr_ok _ _ _ Hp)).
Qed.

Lemma chain_ok_array len k d id t a ids T U fname lvl lw : chain_ok len → (length ids ≤ len)%nat → (length ids < k)%nat → printer_ok d →
  in_chain (d_btf d) id t → btf_kind t = BTF_KIND_ARRAY → btf_array_of t = Some a → 0 ≤ a_nelems a →
  wraps (d_strip_mods d) (d_btf d) N ids (CArr (a_nelems a) T) U → forallb is_ident fname = true →
  ∃ d' s, btf_dump_emit_type_chain decl (S k) d (st_moved (d_stack d)) (id :: ids) fname lvl lw = Some d' ∧ rest_printed d d' fname lw (id :: ids) T U s.
Proof.
  intros IH Hlen Hk Hok Ht Hkt Ha Hne Hw Hf.
  destruct (wraps_quals _ _ _ _ _ _ Hw) as (qids & qs & rest & -> & Hqs & Hno & Hwr). rewrite qualify_none in Hwr.
  rewrite (chain_array _ _ _ _ _ _ _ _ _ _ t a Ht Hkt Ha Hqs Hno). rewrite length_app in Hlen, Hk.
  set (n := a_nelems a) in *.
  assert (∀ d1 s, prints d s d1 → (lw = false ∨ fname = [] → breaks s = true) → direct (type_spec d1) (lex s) (CArr n T) fname U →
    ∃ d' s', Some (out "]" (out_bytes (dec n) (out "[" d1))) = Some d' ∧ rest_printed d d' fname lw (id :: qids ++ rest) T U s') as Hfin.
  { intros d1 s Hp Hb HD. eexists _, (s ++ 91 :: dec n ++ [93]). split; [done|].
    assert (direct (type_spec (out "]" (out_bytes (dec n) (out "[" d1)))) (lex (s ++ 91 :: dec n ++ [93])) T fname U) as HD'.
    { rewrite lex_app, lex_bracket by done. apply D_array. exact HD. }
    split; [by apply prints_bracket|]. split; [intros Hc; specialize (Hb Hc); by destruct s|]. split; [by apply D_direct|]. split; [done|].
    intros _. rewrite lex_app, lex_bracket by done. by destruct (lex s). }
  destruct rest as [|next rest].
  { apply (Hfin (btf_dump_emit_name d fname lw) (name_text fname lw)); [by apply emit_name_prints|apply name_text_breaks|].
    rewrite name_text_lex by done. inversion Hwr; subst. apply D_name. }
  destruct Hno as (nt & Hnt & Hnq & Hnm). rewrite (ic_type _ _ _ Hnt). cbn [mbind option_bind].
  set (sp := if negb (bool_decide (fname = [])) && negb lw then [32] else []).
  set (d0 := if negb (bool_decide (fname = [])) && negb lw then out " " d else d).
  assert (prints d sp d0) as Hp0 by (unfold sp, d0; destruct (_ && _); [by apply (prints_str d " ")|by apply prints_nil]).
  set (d1 := if btf_is_array nt then d0 else out "(" d0).
  assert (prints d (sp ++ if btf_is_array nt then [] else [40]) d1) as Hp1.
  { unfold d1. destruct (btf_is_array nt); [by rewrite app_nil_r|]. eapply prints_trans; [done|]. exact (prints_str d0 "(" (pr_ok _ _ _ Hp0)). }
  assert (st_moved (d_stack d0) = st_moved (d_stack d1)) as -> by (unfold d1; by destruct (btf_is_array nt)).
  assert (d_btf d1 = d_btf d) as Eb by (by apply (prints_btf _ _ _ Hp1)). assert (d_strip_mods d1 = d_strip_mods d) as Es by (by apply (pr_strip _ _ _ Hp1)).
  destruct (IH (next :: rest) k d1 (CArr n T) U fname lvl true ltac:(lia) ltac:(lia) (pr_ok _ _ _ Hp1)) as (d2 & s & -> & Hp2 & Hb & HD & Harr & Hne2);
    [by rewrite Eb, Es|rewrite Eb; by exists nt|done|]. cbn [mbind option_bind].
  destruct (btf_is_array nt) eqn:Hna.
  - apply (Hfin d2 (sp ++ s)).
    + rewrite app_nil_r in Hp1. by eapply prints_trans.
    + unfold sp. intros [->|E]; [destruct (bool_decide (fname = [])) eqn:Ef; [|done]; apply Hb; right; by apply bool_decide_eq_true in Ef|].
      rewrite bool_decide_true by done. apply Hb. by right.
    + assert (lex (sp ++ s) = lex s) as -> by (unfold sp; by destruct (_ && _)). apply (Harr nt); [rewrite Eb; apply Hnt|done].
  - apply (Hfin (out ")" d2) (sp ++ 40 :: s ++ [41])).
    + replace (sp ++ 40 :: s ++ [41]) with ((sp ++ [40]) ++ s ++ str_bytes ")") by (by rewrite <- app_assoc).
      eapply prints_trans, prints_trans; [done|done|]. apply prints_str, Hp2.
    + intros _. unfold sp. by destruct (_ && _).
    + assert (lex (sp ++ 40 :: s ++ [41]) = lex (40 :: s ++ [41])) as -> by (unfold sp; by destruct (_ && _)).
      rewrite lex_enclosed by done. apply D_paren; [|by apply Hne2]. exact HD.
Qed.

Lemma chain_ok_proto len k d id t n ps v ids T U fname lvl lw : chain_ok len → (length ids ≤ len)%nat → (length ids < k)%nat → printer_ok d →
  in_chain (d_btf d) id t → btf_kind t = BTF_KIND_FUNC_PROTO → (n ≤ N)%nat →
  proto_params (ctype_of n (d_strip_mods d) (d_btf d)) (d_btf d) t = Some (ps, v) →
  wraps (d_strip_mods d) (d_btf d) N ids (CFun T ps v) U → forallb is_ident fname = true →
  ∃ d' s, btf_dump_emit_type_chain decl (S k) d (st_moved (d_stack d)) (id :: ids) fname lvl lw = Some d' ∧ rest_printed d d' fname lw (id :: ids) T U s.
Proof.
  intros IH Hlen Hk Hok Ht Hkt Hn Hps Hw Hf.
  destruct (wraps_quals _ _ _ _ _ _ Hw) as (qids & qs & rest & -> & Hqs & Hno & Hwr). rewrite qualify_fun in Hwr.
  rewrite (chain_proto _ _ _ _ _ _ _ _ _ _ t Ht Hkt Hqs Hno). rewrite length_app in Hlen, Hk.
  assert (∀ d1 s, prints d s d1 → (lw = false ∨ fname = [] → breaks s = true) → direct (type_spec d1) (lex s) (CFun T ps v) fname U →
    ∃ d' s', emit_param_list decl d1 t lvl = Some d' ∧ rest_printed d d' fname lw (id :: qids ++ rest) T U s') as Hfin.
  { intros d1 s Hp Hb HD. rewrite <- (prints_btf _ _ _ Hp), <- (pr_strip _ _ _ Hp) in Hps.
    destruct (emit_param_list_spec n d1 t lvl ps v Hn (pr_ok _ _ _ Hp) Hps) as (d2 & s2 & E & Hp2 & HP).
    exists d2, (s ++ 40 :: s2 ++ [41]). split; [done|].
    assert (direct (type_spec d2) (lex (s ++ 40 :: s2 ++ [41])) T fname U) as HD'.
    { rewrite lex_app, lex_enclosed by done. eapply D_fun; [|exact HP]. by apply (declarator_grows d1 d2 (pr_grows _ _ _ Hp2)). }
    split; [by eapply prints_trans|]. split; [intros Hc; specialize (Hb Hc); by destruct s|]. split; [by apply D_direct|]. split; [done|].
    intros _. rewrite lex_app, lex_enclosed by done. by destruct (lex s). }
  destruct rest as [|next rest].
  { apply (Hfin (btf_dump_emit_name d fname lw) (name_text fname lw)); [by apply emit_name_prints|apply name_text_breaks|].
    rewrite name_text_lex by done. inversion Hwr; subst. apply D_name. }
  pose proof (prints_str d " (" Hok) as Hp1. change (st_moved (d_stack d)) with (st_moved (d_stack (out " (" d))).
  destruct (IH (next :: rest) k (out " (" d) (CFun T ps v) U fname lvl true ltac:(lia) ltac:(lia) (pr_ok _ _ _ Hp1) Hwr Hno Hf)
    as (d2 & s & -> & Hp2 & _ & HD & _ & Hne2). cbn [mbind option_bind].
  apply (Hfin (out ")" d2) (str_bytes " (" ++ s ++ [41])).
  - eapply prints_trans, prints_trans; [done|done|]. apply (prints_str d2 ")"), Hp2.
  - done.
  - change (lex (str_bytes " (" ++ s ++ [41])) with (lex (40 :: s ++ [41])). rewrite lex_enclosed by done. apply D_paren; [|by apply Hne2]. exact HD.
Qed.

Lemma chain_ok_all len : chain_ok len.
Proof.
  induction len as [|len IH]; intros ids k d T U fname lvl lw Hlen Hk Hok Hw Hno Hf; inversion Hw as [T0|n id t ids' T0 T' U0 Hn Ht Hwt Hw']; subst;
    try (by apply chain_ok_nil; [lia|..]); cbn [length] in *; [lia|]. destruct k as [|k]; [lia|].
  destruct Hno as (t2 & Ht2 & Hnq & _). assert (t2 = t) as -> by (destruct Ht2 as [_ E2], Ht as [_ E1]; congruence).
  revert Hwt. unfold wrap_type. destruct (Z.eqb_spec (btf_kind t) BTF_KIND_PTR) as [Hkt|_].
  { intros [= <-]. by apply (chain_ok_ptr len k d id t ids' T U fname lvl lw IH ltac:(lia) ltac:(lia) Hok Ht Hkt Hw' Hf). }
  destruct (Z.eqb_spec (btf_kind t) BTF_KIND_ARRAY) as [Hkt|_].
  { destruct (btf_array_of t) as [a|] eqn:Ha; [|done]. cbn [mbind option_bind]. destruct (Z.leb_spec 0 (a_nelems a)) as [Hne|]; [|done]. intros [= <-].
    by apply (chain_ok_array len k d id t a ids' T U fname lvl lw IH ltac:(lia) ltac:(lia) Hok Ht Hkt Ha Hne Hw' Hf). }
  destruct (Z.eqb_spec (btf_kind t) BTF_KIND_FUNC_PROTO) as [Hkt|_].
  { destruct (proto_params _ _ t) as [[ps v]|] eqn:Hps; [|done]. intros [= <-].
    by apply (chain_ok_proto len k d id t n ps v ids' T U fname lvl lw IH ltac:(lia) ltac:(lia) Hok Ht Hkt Hn Hps Hw' Hf). }
  by rewrite Hnq.
Qed.
End chain_text.

(** * Declarations *)

Lemma quals_lex qs s : lex (quals_text qs ++ s) = map qual_tok qs ++ lex s.
Proof.
  induction qs as [|q qs IH]; [done|]. cbn [map app]. rewrite <- IH.
  change (quals_text (q :: qs)) with ((str_bytes (qual_text q) ++ str_bytes " ") ++ quals_text qs). rewrite <- !app_assoc. by destruct q.
Qed.

Lemma chain_void decl k d ids qs decls fname lvl lw : are_quals (d_btf d) ids qs → no_qual_first (d_btf d) decls →
  btf_dump_emit_type_chain decl (S k) d (st_moved (d_stack d)) (0 :: ids ++ decls) fname lvl lw =
  btf_dump_emit_type_chain decl k (out "void" (out_bytes (quals_text qs) d)) (st_moved (d_stack d)) decls fname lvl false.
Proof.
  intros Hq Hr. cbn [btf_dump_emit_type_chain top_id]. rewrite Z.eqb_refl. cbn [mbind option_bind]. change (0 =? 0) with true. cbv iota.
  by rewrite (emit_mods_spec d ids qs decls Hq Hr).
Qed.

(** The specifiers of a declaration. *)
Lemma chain_specs decl k d base ids qs decls fname lvl : printer_ok d → base_ok (d_btf d) base →
  are_quals (d_btf d) ids qs → no_qual_first (d_btf d) decls →
  ∃ d' text, btf_dump_emit_type_chain decl (S k) d (st_moved (d_stack d)) (base :: ids ++ decls) fname lvl true =
    btf_dump_emit_type_chain decl k d' (st_moved (d_stack d')) decls fname lvl false ∧
    prints d (quals_text qs ++ text) d' ∧ type_spec d' (lex text) base.
Proof.
  intros Hok [->|(t & name & Ht & Hb & Hname & Hn)] Hq Hr; pose proof (prints_bytes d (quals_text qs) Hok) as Hp0.
  - rewrite (chain_void _ _ _ _ qs) by done. exists (out "void" (out_bytes (quals_text qs) d)), (str_bytes "void"). split; [done|]. split; [|done].
    eapply prints_trans; [done|]. apply prints_str, Hp0.
  - rewrite (chain_base _ _ _ _ _ qs _ _ _ _ t name) by done.
    destruct (print_base_spec (out_bytes (quals_text qs) d) base t name (pr_ok _ _ _ Hp0) Ht Hb Hname Hn) as (d1 & text & -> & Hp1 & Hst & Hsp).
    cbn [mbind option_bind]. exists d1, text. split; [by rewrite Hst|]. split; [by eapply prints_trans|done].
Qed.

Lemma emit_type_decl_spec fuel : ∀ n d id fname lvl U, (n ≤ fuel)%nat → printer_ok d →
  ctype_of n (d_strip_mods d) (d_btf d) id = Some U → forallb is_ident fname = true →
  ∃ d' s, btf_dump_emit_type_decl fuel d id fname lvl = Some d' ∧ prints d s d' ∧ declaration (type_spec d') (lex s) fname U ∧
    st_cnt (d_stack d') = st_cnt (d_stack d).
Proof.
  induction fuel as [|fuel IH]; intros n d id fname lvl U Hn Hok HU Hf; [by destruct n; [|lia]|]. cbn [btf_dump_emit_type_decl].
  destruct (decl_chain_spec n (S fuel) d id U [] Hok HU Hn) as (st & base & ids & -> & Hb & Hw). cbn [mbind option_bind].
  rewrite app_nil_r. destruct (wraps_quals _ _ _ _ _ _ Hw) as (qids & qs & rest & -> & Hqs & Hno & Hwr). rewrite qualify_base in Hwr.
  pose proof (prints_stack d st Hok) as Hp0.
  destruct (chain_specs (btf_dump_emit_type_decl fuel) (length (base :: qids ++ rest)) (with_stack d st) base qids qs rest fname lvl
    (pr_ok _ _ _ Hp0) Hb Hqs Hno) as (d1 & text & -> & Hp1 & Hsp).
  pose proof (prints_btf _ _ _ Hp1) as Eb. pose proof (pr_strip _ _ _ Hp1) as Es. cbn in Eb, Es.
  assert (∀ m e i f l V, (m ≤ pred n)%nat → printer_ok e → ctype_of m (d_strip_mods e) (d_btf e) i = Some V → forallb is_ident f = true →
    ∃ e' s, btf_dump_emit_type_decl fuel e i f l = Some e' ∧ prints e s e' ∧ declaration (type_spec e') (lex s) f V) as Hdecl.
  { intros m e i f l V Hm He HV Hfi. destruct (IH m e i f l V ltac:(lia) He HV Hfi) as (e' & s & H1 & H2 & H3 & _). by exists e', s. }
  destruct (chain_ok_all _ (pred n) Hdecl (length rest) rest (length (base :: qids ++ rest)) d1 (CBase (quals_of qs) base) U fname lvl false
    ltac:(lia) ltac:(cbn; rewrite length_app; lia) (pr_ok _ _ _ Hp1)) as (d2 & s & -> & Hp2 & Hbr & HD & _);
    [by rewrite Eb, Es|by rewrite Eb|done|]. cbn [mbind option_bind].
  pose proof (prints_stack d2 (mkStack (st_cnt (d_stack d)) (st_cap (d_stack d2)) (st_moved (d_stack d2))) (pr_ok _ _ _ Hp2)) as Hp3.
  exists (pop_frame d2 (st_cnt (d_stack d))), ((quals_text qs ++ text) ++ s). split; [done|]. split.
  { rewrite <- (app_nil_r (_ ++ s)). eapply prints_trans; [eapply (prints_trans _ []); [done|by eapply prints_trans]|done]. }
  split; [|done]. apply (declarator_grows d2 _ (pr_grows _ _ _ Hp3)). rewrite <- app_assoc, quals_lex, lex_app by (apply Hbr; by left).
  eapply Decl; [|exact HD]. by eapply type_spec_grows, Hsp; apply Hp2.
Qed.

(** * New dumps *)

(** Marking changes the [referenced] flags only. *)
Lemma mark_referenced_states k d i d' r : mark_referenced_from k d i = Some (d', r) → Forall (λ s, name_resolved s = false) (d_states d) →
  ∃ l, d' = with_states d l ∧ length l = length (d_states d) ∧ Forall (λ s, name_resolved s = false) l.
Proof.
  assert (∀ ids d d', foldM mark_ref d ids = Some d' → Forall (λ s, name_resolved s = false) (d_states d) →
    ∃ l, d' = with_states d l ∧ length l = length (d_states d) ∧ Forall (λ s, name_resolved s = false) l) as Hids.
  { induction ids as [|x ids IH]; intros e e'; cbn [foldM].
    { intros [= <-] HF. exists (d_states e). split; [by destruct e|done]. }
    destruct (mark_ref e x) as [e1|] eqn:E1; [|done]. cbn [mbind option_bind]. intros H HF.
    unfold mark_ref in E1. destruct (state_of e x) as [s|] eqn:Es; [|done]. cbn [mbind option_bind] in E1. injection E1 as <-.
    apply state_of_lookup in Es as [Hx Hs]. destruct (IH _ _ H) as (l & -> & Hlen & HF').
    { cbn. apply Forall_insert; [done|]. cbn. by eapply (Forall_lookup_1 _ _ _ _ HF). }
    exists l. split; [done|]. split; [by rewrite Hlen; cbn; rewrite length_insert|done]. }
  revert d i. induction k as [|k IH]; intros d i; cbn [mark_referenced_from].
  { intros [= <- <-] HF. exists (d_states d). split; [by destruct d|done]. }
  destruct (btf__type_by_id (d_btf d) i) as [t|]; [|done]. cbn [mbind option_bind]. destruct (referenced_by t) as [[ids|]|]; [|cbn [mbind option_bind]|done].
  - cbn [mbind option_bind]. destruct (foldM mark_ref d ids) as [d1|] eqn:E; [|done]. cbn [mbind option_bind]. intros H HF.
    destruct (Hids ids d d1 E HF) as (l & -> & Hlen & HF1). destruct (IH _ _ H HF1) as (l' & -> & Hlen' & HF2).
    exists l'. split; [done|]. split; [by rewrite Hlen'|done].
  - intros [= <- <-] HF. exists (d_states d). split; [by destruct d|done].
Qed.

Lemma unresolved_le l : unresolved l ≤ Z.of_nat (length l).
Proof. unfold unresolved. pose proof (length_filter (λ s, name_resolved s = false) l). lia. Qed.

Lemma new_printer b opts_valid d : btf_wf b = true → 1 < btf__type_cnt b < 2 ^ 31 → btf_dump__new b true opts_valid [] = Some (inl d) →
  printer_ok d ∧ d_btf d = b ∧ d_last_id d = btf__type_cnt b - 1 ∧ d_out d = [].
Proof.
  intros Hwf Hn H. destruct (new_dump_shape b opts_valid [] d Hn H) as (psz & n & m & al & d' & E & -> & Hal & Hk & Hm). specialize (Hal eq_refl) as ->.
  destruct (mark_referenced_states _ _ _ _ _ E) as (l & -> & Hlen & HF).
  { cbn [d_states unmarked_dump]. apply Forall_insert; [|done]. by apply Forall_replicate. }
  cbn [d_states unmarked_dump] in Hlen. rewrite length_insert, length_replicate in Hlen.
  assert (names_map_ok hashmap__init (unresolved l)) as Hmap.
  { split; [exists []; apply hashmap_init_rel|]. pose proof (unresolved_le l). unfold NAMES_MAX. cbn. lia. }
  split; [|done]. split; try done.
  - unfold btf__type_by_id. cbn. destruct (Z.geb_spec 0 (btf__type_cnt b)); [lia|]. by destruct b as [? ? ? ? [?|] ?].
  - intros id t Ht. destruct (wf_type b Hwf id t Ht) as [Hid _]. unfold state_of, name_at. cbn. rewrite (proj2 (Z.leb_le 0 id)) by lia.
    split; apply lookup_lt_is_Some; rewrite ?length_replicate; lia.
  - intros i c. cbn. intros [Hc _]%lookup_replicate. done.
  - intros i s c _ _. cbn. by intros [-> _]%lookup_replicate.
Qed.

(** * Calls of the public function *)

Record decl_call := mkCall { c_id : Z; c_name : list Z; c_lvl : Z; c_strip : bool }.

Fixpoint decl_calls (fuel : nat) (d : btf_dump) (calls : list decl_call) : option (btf_dump * Z) :=
  match calls with
  | [] => Some (d, 0)
  | c :: calls =>
      '(d, err) ← btf_dump__emit_type_decl fuel d (c_id c) (c_name c) (c_lvl c) (c_strip c) true;
      if negb (err =? 0) then Some (d, err) else decl_calls fuel d calls
  end.

Definition declarable (n : nat) (b : btf) (c : decl_call) : Prop :=
  is_Some (ctype_of n (c_strip c) b (c_id c)) ∧ forallb is_ident (c_name c) = true.

(** The text [s] is the declaration that [c] asks for, with the names that [d] has. *)
Definition declares (n : nat) (b : btf) (d : btf_dump) (c : decl_call) (s : list Z) : Prop :=
  ∃ U, ctype_of n (c_strip c) b (c_id c) = Some U ∧ declaration (type_spec d) (lex s) (c_name c) U.

Lemma with_strip_ok d strip : printer_ok d → printer_ok (with_strip_mods d strip) ∧ grows d (with_strip_mods d strip).
Proof. intros [Ha Hv Harr Hc Hf Ht Hi]. by split; split. Qed.

Lemma emit_decl_public n fuel d c : (n ≤ fuel)%nat → printer_ok d → 1 < btf__type_cnt (d_btf d) < 2 ^ 31 → d_last_id d = btf__type_cnt (d_btf d) - 1 →
  declarable n (d_btf d) c →
  ∃ d' s, btf_dump__emit_type_decl fuel d (c_id c) (c_name c) (c_lvl c) (c_strip c) true = Some (d', 0) ∧ printer_ok d' ∧ grows d d' ∧
    d_last_id d' = d_last_id d ∧ d_out d' = d_out d ++ s ∧ declares n (d_btf d) d' c s.
Proof.
  intros Hn Hok Hcnt Hlast [[U HU] Hname]. unfold btf_dump__emit_type_decl. cbn [negb]. unfold btf_dump_resize.
  rewrite (swrap_small 32 (btf__type_cnt (d_btf d) - 1)) by lia. rewrite Hlast, Z.leb_refl. cbn [mbind option_bind]. change (negb (0 =? 0)) with false. cbv iota.
  destruct (with_strip_ok d (c_strip c) Hok) as [Hok1 G1].
  destruct (emit_type_decl_spec fuel n (with_strip_mods d (c_strip c)) (c_id c) (c_name c) (c_lvl c) U Hn Hok1 HU Hname) as (d1 & s & -> & Hp & HD & _).
  cbn [mbind option_bind]. destruct (with_strip_ok d1 false (pr_ok _ _ _ Hp)) as [Hok2 G2]. exists (with_strip_mods d1 false), s. split; [done|].
  split; [done|]. split; [by transitivity (with_strip_mods d (c_strip c)); [|transitivity d1; [apply Hp|]]|].
  split; [rewrite <- Hlast; apply (pr_kept _ _ _ Hp)|]. split; [apply (pr_out _ _ _ Hp)|]. exists U. split; [done|]. by apply (declarator_grows d1 _ G2).
Qed.

(** C7. What a dump prints for a type is its declaration: after any calls for types that
    C can declare (of chains of at most [n] references), whatever their names and indents
    and with or without modifiers, the output is one text per call, and the tokens of
    each parse, by the grammar and the rules of C for declarators, as the declaration of
    the given name with the type that the BTF describes, pointers, qualifiers, arrays and
    parameters in their places.  A named type has the same name in all of them. *)
Theorem type_decls_declare b opts_valid d calls n fuel :
  btf_wf b = true → 1 < btf__type_cnt b < 2 ^ 31 → btf_dump__new b true opts_valid [] = Some (inl d) →
  Forall (declarable n b) calls → (n ≤ fuel)%nat →
  ∃ d' texts, decl_calls fuel d calls = Some (d', 0) ∧ d_out d' = concat texts ∧ Forall2 (declares n b d') calls texts.
Proof.
  intros Hwf Hcnt Hnew Hcalls Hn. destruct (new_printer b opts_valid d Hwf Hcnt Hnew) as (Hok & Hb & Hlast & Hout). clear Hnew.
  assert (∃ d' texts, decl_calls fuel d calls = Some (d', 0) ∧ grows d d' ∧ d_out d' = d_out d ++ concat texts ∧ Forall2 (declares n b d') calls texts)
    as (d' & texts & E & _ & Eo & HF); [|exists d', texts; by rewrite Eo, Hout].
  clear Hout. revert d Hok Hb Hlast. induction Hcalls as [|c calls Hc _ IH]; intros d Hok Hb Hlast; cbn [decl_calls].
  { exists d, []. cbn. by rewrite app_nil_r. }
  destruct (emit_decl_public n fuel d c Hn Hok) as (d1 & s & -> & Hok1 & G1 & Hl1 & Ho1 & HD); [by rewrite Hb..|]. cbn [mbind option_bind].
  change (negb (0 =? 0)) with false. cbv iota. rewrite Hb in HD.
  destruct (IH d1 Hok1) as (d2 & texts & -> & G2 & Ho2 & HF); [by rewrite (gr_btf _ _ G1)|by rewrite Hl1|].
  exists d2, (s :: texts). split; [done|]. split; [by transitivity d1|]. split; [by rewrite Ho2, Ho1, <- app_assoc|].
  constructor; [|done]. destruct HD as (U & HU & HD). exists U. split; [done|]. by apply (declarator_grows d1 _ G2).
Qed.

(** * Examples *)

Definition decl_types : list btf_type :=
  let ty k vlen name ref rest := mkType name (mk_info k vlen false) ref rest in
  [ty BTF_KIND_INT 0 1 4 [32];
   ty BTF_KIND_STRUCT 0 5 4 [];
   ty BTF_KIND_PTR 0 0 2 [];
   ty BTF_KIND_CONST 0 0 1 [];
   ty BTF_KIND_PTR 0 0 4 [];
   ty BTF_KIND_ARRAY 0 0 0 [5; 1; 3];
   ty BTF_KIND_ARRAY 0 0 0 [6; 1; 2];
   ty BTF_KIND_PTR 0 0 7 [];
   ty BTF_KIND_FUNC_PROTO 3 0 8 [10; 3; 12; 6; 0; 0];
   ty BTF_KIND_PTR 0 0 9 [];
   ty BTF_KIND_CONST 0 0 10 [];
   ty BTF_KIND_STRUCT 0 5 8 []].

Definition decl_btf : btf := mkBtf decl_types 1 0 (mk_strs [""; "int"; "node"; "p"; "v"]%string) None 8.
Definition decl_dump : btf_dump := match btf_dump__new decl_btf true true [] with Some (inl d) => d | _ => demo_dump end.
Definition decl_demo : list decl_call :=
  [mkCall 11 (str_bytes "f") 0 false; mkCall 11 [] 0 true; mkCall 12 (str_bytes "x") 0 false].

(** The function pointer [f] returns a pointer to an array; the second struct of the
    same name gets a name of its own. *)
Lemma type_decls_declare_witness :
  ∃ d' texts, decl_calls 9 decl_dump decl_demo = Some (d', 0) ∧ d_out d' = concat texts ∧ Forall2 (declares 9 decl_btf d') decl_demo texts ∧
    d_out d' = str_bytes "const int *(* (* const f)(struct node *p, const int *v[3], ...))[2][3]" ++
               str_bytes "int *(* (*)(struct node *p, int *v[3], ...))[2][3]" ++ str_bytes "struct node___2 x".
Proof.
  destruct (type_decls_declare decl_btf true decl_dump decl_demo 9 9) as (d' & texts & E & Ho & HF).
  - vm_compute. reflexivity.
  - vm_compute. split; reflexivity.
  - vm_compute. reflexivity.
  - repeat constructor; vm_compute; try reflexivity; eexists; reflexivity.
  - reflexivity.
  - exists d', texts. split; [exact E|]. split; [exact Ho|]. split; [exact HF|].
    assert (d_out <$> (fst <$> decl_calls 9 decl_dump decl_demo) = Some (d_out d')) as H by (by rewrite E).
    apply (inj Some). rewrite <- H. vm_compute. reflexivity.
Defined.

(** The definition of a struct without a name, inside of an array, is printed while the
    ids of the array wait in the frame.  A member whose declaration makes the stack grow
    moves it, and the array is read from where the stack was. *)
Definition ptrs_btf (n : nat) : btf :=
  mkBtf (mkType 1 (mk_info BTF_KIND_INT 0 false) 4 [32] ::
         mkType 0 (mk_info BTF_KIND_STRUCT 1 false) 8 [5; Z.of_nat n + 3; 0] ::
         mkType 0 (mk_info BTF_KIND_ARRAY 0 false) 0 [2; 1; 2] ::
         map (λ i, mkType 0 (mk_info BTF_KIND_PTR 0 false) (if i =? 0 then 1 else i + 3) []) (seqZ 0 (Z.of_nat n)))
        1 0 (mk_strs [""; "int"; "m"]%string) None 8.

Definition array_decl (n : nat) : option (Z * list Z) :=
  match btf_dump__new (ptrs_btf n) true true [] with
  | Some (inl d) => '(d, err) ← btf_dump__emit_type_decl 100 d 3 (str_bytes "a") 0 false true; Some (err, d_out d)
  | _ => None
  end.

Lemma frame_moved :
  array_decl 13 = Some (0, str_bytes "struct {" ++ [10; 9] ++ str_bytes "int *************m;" ++ [10] ++ str_bytes "} a[2]") ∧ array_decl 14 = None.
Proof. split; vm_compute; reflexivity. Qed.

(** A name that is made different with a number may be that of a third type. *)
Definition same_btf : btf :=
  mkBtf [mkType 1 (mk_info BTF_KIND_STRUCT 0 false) 1 []; mkType 1 (mk_info BTF_KIND_STRUCT 0 false) 2 []; mkType 3 (mk_info BTF_KIND_STRUCT 0 false) 4 []]
    1 0 (mk_strs [""; "x"; "x___2"]%string) None 8.

Lemma same_names :
  match btf_dump__new same_btf true true [] with
  | Some (inl d) => (λ r, d_out r.1) <$> decl_calls 2 d [mkCall 1 [] 0 false; mkCall 2 [] 0 false; mkCall 3 [] 0 false]
  | _ => None
  end = Some (str_bytes "struct x" ++ str_bytes "struct x___2" ++ str_bytes "struct x___2").
Proof. vm_compute. reflexivity. Qed.

(** A qualifier of a type with a tag is printed without a space between. *)
Definition tag_btf : btf :=
  mkBtf [mkType 1 (mk_info BTF_KIND_INT 0 false) 4 [32]; mkType 5 (mk_info BTF_KIND_TYPE_TAG 0 false) 1 []; mkType 0 (mk_info BTF_KIND_CONST 0 false) 2 []]
    1 0 (mk_strs [""; "int"; "t"]%string) None 8.

Lemma tag_glued :
  match btf_dump__new tag_btf true true [] with
  | Some (inl d) => (λ r, take 9 (d_out r.1)) <$> decl_calls 5 d [mkCall 3 [] 0 false]
  | _ => None
  end = Some (str_bytes "intconst ").
Proof. vm_compute. reflexivity. Qed.

