(* ===== verification/BtfData.v ===== *)
(** Printing typed data (src/libbpf/src/btf_dump.c lines 1486-1517 and 1575-2403): the
    bytes of a value, given the BTF of its type, as a C initialiser.

    [mem] is the data, [addr] its address, and a pointer into it is an offset; the host is
    little endian with pointers of 64 bits.  [None] is a load outside the data, a shift by
    the width or more, a null pointer used, a copy beyond the end of a buffer, an
    uninitialised variable returned, or a recursion beyond the fuel. *)
From stdpp Require Import base list strings pretty.
From Stdlib Require Import ZArith Lia.
From S2P Require Import Prelude Bytes Mem Errno Hashmap Btf Reloc BtfDump BtfEmit.

#[local] Open Scope Z_scope.

Definition ENODATA : Z := 61.
Definition ENOTSUP : Z := 95.
Definition BTF_INT_SIGNED : Z := 1.
Definition BTF_FUNC_STATIC : Z := 0.
Definition BTF_FUNC_EXTERN : Z := 2.

(** [td_data_end] is an offset into the data. *)
Record btf_dump_data := mkData {
  td_data_end : Z; td_compact : bool; td_skip_names : bool; td_emit_zeroes : bool; td_indent_lvl : Z; td_indent_str : list Z;
  td_depth : Z; td_is_array_member : bool; td_is_array_terminated : bool; td_is_array_char : bool;
}.

Definition with_depth (td : btf_dump_data) (depth : Z) : btf_dump_data :=
  mkData (td_data_end td) (td_compact td) (td_skip_names td) (td_emit_zeroes td) (td_indent_lvl td) (td_indent_str td)
    depth (td_is_array_member td) (td_is_array_terminated td) (td_is_array_char td).
Definition with_array_member (td : btf_dump_data) (b : bool) : btf_dump_data :=
  mkData (td_data_end td) (td_compact td) (td_skip_names td) (td_emit_zeroes td) (td_indent_lvl td) (td_indent_str td)
    (td_depth td) b (td_is_array_terminated td) (td_is_array_char td).
Definition with_array_terminated (td : btf_dump_data) : btf_dump_data :=
  mkData (td_data_end td) (td_compact td) (td_skip_names td) (td_emit_zeroes td) (td_indent_lvl td) (td_indent_str td)
    (td_depth td) (td_is_array_member td) true (td_is_array_char td).
Definition with_array_char (td : btf_dump_data) : btf_dump_data :=
  mkData (td_data_end td) (td_compact td) (td_skip_names td) (td_emit_zeroes td) (td_indent_lvl td) (td_indent_str td)
    (td_depth td) (td_is_array_member td) (td_is_array_terminated td) true.

Definition with_skip_anon_defs (d : btf_dump) (skip : bool) : btf_dump :=
  mkDump (d_btf d) (d_ptr_sz d) (d_strip_mods d) skip (d_last_id d) (d_states d) (d_names d) (d_queue d)
    (d_queue_cap d) (d_stack d) (d_type_names d) (d_ident_names d) (d_out d) (d_alloc d).

(** * Text *)

Definition hex_digit_of (x : Z) : Z := if x <? 10 then 48 + x else 87 + x.
(** The last [n] hexadecimal digits. *)
Fixpoint hex_fixed (n : nat) (x : Z) : list Z :=
  match n with O => [] | S n => hex_fixed n (x / 16) ++ [hex_digit_of (x mod 16)] end.
(** [%llx]: without leading zeroes. *)
Fixpoint hex_from (n : nat) (x : Z) : list Z :=
  match n with
  | O => []
  | S n => (if x / 16 =? 0 then [] else hex_from n (x / 16)) ++ [hex_digit_of (x mod 16)]
  end.
Definition hex (x : Z) : list Z := str_bytes "0x" ++ hex_from 16 x.

(** [isprint] in the C locale. *)
Definition isprint (c : Z) : bool := (32 <=? c) && (c <=? 126).

Definition btf_dump_data_newline (td : btf_dump_data) : list Z := if td_compact td || (td_depth td =? 0) then [] else [10].
Definition btf_dump_data_delim (td : btf_dump_data) : list Z := if td_depth td =? 0 then [] else [44].

Definition btf_dump_data_pfx (d : btf_dump) (td : btf_dump_data) : btf_dump :=
  if td_compact td then d else out_bytes (concat (replicate (Z.to_nat (td_indent_lvl td + td_depth td)) (td_indent_str td))) d.

Definition btf_dump_type_values (d : btf_dump) (td : btf_dump_data) (s : list Z) : btf_dump :=
  out_bytes (s ++ btf_dump_data_delim td ++ btf_dump_data_newline td) d.

Definition btf_dump_unsupported_data (d : btf_dump) (t : btf_type) : btf_dump * Z :=
  (out ">" (out_bytes (dec (btf_kind t)) (out "<unsupported kind:" d)), - ENOTSUP).

Definition btf_dump_emit_type_cast (fuel : nat) (d : btf_dump) (td : btf_dump_data) (id : Z) (top_level : bool) : option btf_dump :=
  if td_is_array_member td then Some d
  else
    t ← btf__type_by_id (d_btf d) id;
    if btf_is_var t || (btf_kind t =? BTF_KIND_DATASEC) then Some d
    else
      let d := if top_level then out "(" d else d in
      d ← btf_dump_emit_type_decl fuel (with_strip_mods (with_skip_anon_defs d true) true) id [] 0;
      let d := with_skip_anon_defs (with_strip_mods d false) false in
      Some (if top_level then out ")" d else d).

(** * Values *)

Section data.
Variables (mem : list Z) (addr : Z).

(** [num << left >> right] *)
Definition shift_out (num left right : Z) : option Z :=
  if (left <? 64) && (right <? 64) then Some (Z.shiftr (u64 (Z.shiftl num left)) right) else None.

(** [inr]: an error. *)
Definition btf_dump_get_bitfield_value (t : btf_type) (off bits_offset bit_sz : Z) : option (Z + Z) :=
  if bt_size t >? 8 then Some (inr (- EINVAL))
  else
    num ← load (Z.to_nat (bt_size t)) mem off;
    let nr_copy_bits := u8 (bit_sz + bits_offset) in
    v ← shift_out num (u16 (64 - nr_copy_bits)) (u16 (64 - bit_sz));
    Some (inl v).

Definition btf_dump_bitfield_check_zero (t : btf_type) (off bits_offset bit_sz : Z) : option Z :=
  r ← btf_dump_get_bitfield_value t off bits_offset bit_sz;
  Some (match r with inr err => err | inl v => if v =? 0 then - ENODATA else 0 end).

Definition btf_dump_bitfield_data (d : btf_dump) (td : btf_dump_data) (t : btf_type) (off bits_offset bit_sz : Z) : option (btf_dump * Z) :=
  r ← btf_dump_get_bitfield_value t off bits_offset bit_sz;
  Some (match r with inr err => (d, err) | inl v => (btf_dump_type_values d td (hex v), 0) end).

Definition btf_dump_base_type_check_zero (ptr_sz : Z) (t : btf_type) (off : Z) : option Z :=
  let nr_bytes := if btf_kind t =? BTF_KIND_PTR then ptr_sz else s32 (bt_size t) in
  if (nr_bytes <? 1) || (nr_bytes >? 16) then Some (- EINVAL)
  else v ← load (Z.to_nat nr_bytes) mem off; Some (if v =? 0 then - ENODATA else 0).

Definition ptr_is_aligned (b : btf) (type_id off : Z) : option bool :=
  alignment ← align_of b type_id;
  Some (negb (alignment =? 0) && (u64 (addr + off) mod u64 alignment =? 0)).

(** The text of an integer of [sz] bytes. *)
Definition int_text (sz v : Z) (sign : bool) : list Z := dec (if sign then swrap (8 * sz) v else v).

(** The text of one of sixteen bytes. *)
Definition int128_text (lsi msi : Z) : list Z := if msi =? 0 then hex lsi else hex msi ++ hex_fixed 16 lsi.

(** An element of an array of characters: its text, if it is printed as one, and
    whether it ends the array. *)
Definition char_data (td : btf_dump_data) (v : Z) : option (list Z) * btf_dump_data :=
  if negb (td_is_array_char td) then (None, td)
  else if v =? 0 then (Some [], with_array_terminated td)
  else if isprint v then (Some ([39; v; 39] ++ btf_dump_data_delim td ++ btf_dump_data_newline td), td)
  else (None, td).

Definition btf_dump_int_data (d : btf_dump) (td : btf_dump_data) (t : btf_type) (type_id off : Z) : option (btf_dump * btf_dump_data * Z) :=
  encoding ← btf_int_encoding t;
  let sign := negb (Z.land encoding BTF_INT_SIGNED =? 0) in
  let sz := bt_size t in
  if (sz =? 0) || (sz >? 16) then Some (d, td, - EINVAL)
  else
    aligned ← ptr_is_aligned (d_btf d) type_id off;
    _ ← (if aligned : bool then Some 0 else load (Z.to_nat sz) mem off);
    if sz =? 16 then
      lsi ← load 8 mem off; msi ← load 8 mem (off + 8);
      Some (btf_dump_type_values d td (int128_text lsi msi), td, 0)
    else if (sz =? 8) || (sz =? 4) || (sz =? 2) then
      v ← load (Z.to_nat sz) mem off; Some (btf_dump_type_values d td (int_text sz v sign), td, 0)
    else if sz =? 1 then
      if td_is_array_char td && td_is_array_terminated td then Some (d, td, 0)
      else
        v ← load 1 mem off;
        Some (match char_data td v with
              | (Some s, td) => (out_bytes s d, td, 0)
              | (None, td) => (btf_dump_type_values d td (int_text 1 v sign), td, 0)
              end)
    else Some (d, td, - EINVAL).

(** [float_text sz v]: what [printf] prints for the floating point number of [sz] bytes
    that has the representation [v]. *)
Variable float_text : Z → Z → list Z.

Definition btf_dump_float_data (d : btf_dump) (td : btf_dump_data) (t : btf_type) (type_id off : Z) : option (btf_dump * Z) :=
  let sz := bt_size t in
  aligned ← ptr_is_aligned (d_btf d) type_id off;
  _ ← (if aligned : bool then Some 0 else if sz >? 16 then None else load (Z.to_nat sz) mem off);
  if (sz =? 16) || (sz =? 8) || (sz =? 4) then
    v ← load (Z.to_nat sz) mem off; Some (btf_dump_type_values d td (float_text sz v), 0)
  else Some (d, - EINVAL).

(** A pointer is printed with [%p] where it is aligned. *)
Definition btf_dump_ptr_data (d : btf_dump) (td : btf_dump_data) (id off : Z) : option (btf_dump * Z) :=
  aligned ← ptr_is_aligned (d_btf d) id off;
  v ← load (Z.to_nat (d_ptr_sz d)) mem off;
  Some (btf_dump_type_values d td (if (aligned : bool) && (d_ptr_sz d =? 8) && (v =? 0) then str_bytes "(nil)" else hex v), 0).

Definition btf_dump_get_enum_value (b : btf) (t : btf_type) (off id : Z) : option (Z + Z) :=
  aligned ← ptr_is_aligned b id off;
  if negb aligned then r ← btf_dump_get_bitfield_value t off 0 0; Some (match r with inl v => inl (s64 v) | inr err => inr err end)
  else
    let sz := bt_size t in
    if sz =? 8 then v ← load 8 mem off; Some (inl (s64 v))
    else if (sz =? 4) || (sz =? 2) || (sz =? 1) then v ← load (Z.to_nat sz) mem off; Some (inl (if btf_kflag t then swrap (8 * sz) v else v))
    else Some (inr (- EINVAL)).
End data.

(** The name of the enumerator of the value, from [i] on. *)
Fixpoint enum_name (k : nat) (b : btf) (t : btf_type) (value i : Z) : option (option (list Z)) :=
  match k with
  | O => Some None
  | S k =>
      '(name_off, eq) ← (if btf_is_enum t then e ← btf_enum_at t i; Some (e_name_off e, value =? e_val e)
                         else e ← btf_enum64_at t i; Some (e64_name_off e, u64 value =? btf_enum64_value e));
      if eq : bool then name ← btf__name_by_offset b name_off; Some (Some name) else enum_name k b t value (i + 1)
  end.

Definition enum_text (t : btf_type) (value : Z) : list Z :=
  if btf_is_enum t then dec (if btf_kflag t then s32 value else u32 value)
  else if btf_kflag t then dec (s64 value) ++ str_bytes "LL" else dec (u64 value) ++ str_bytes "ULL".

(** [mem] and [addr]: the data or a variable of the caller. *)
Definition btf_dump_enum_data (mem : list Z) (addr : Z) (d : btf_dump) (td : btf_dump_data) (t : btf_type) (id off : Z) : option (btf_dump * Z) :=
  r ← btf_dump_get_enum_value mem addr (d_btf d) t off id;
  match r with
  | inr err => Some (d, err)
  | inl value =>
      name ← enum_name (Z.to_nat (btf_vlen t)) (d_btf d) t value 0;
      Some (btf_dump_type_values d td (match name with Some n => n | None => enum_text t value end), 0)
  end.

(** * Data of any type *)

Section dump.
Variables (mem : list Z) (addr : Z).

(** The size, or a negative error. *)
Definition btf_dump_type_data_check_overflow (b : btf) (td : btf_dump_data) (id off bits_offset : Z) : option Z :=
  size ← btf__resolve_size b id;
  if (size <? 0) || (size >=? INT_MAX) then Some (- EINVAL)
  else
    '(_, t) ← skip_mods_and_typedefs b id;
    let k := btf_kind t in
    if ((k =? BTF_KIND_INT) || (k =? BTF_KIND_FLOAT) || (k =? BTF_KIND_PTR) || (k =? BTF_KIND_ENUM) || (k =? BTF_KIND_ENUM64)) &&
       (off + bits_offset / 8 + size >? td_data_end td) then Some (- E2BIG)
    else Some size.

(** The loop over the elements from [i] on: an array is zero when all of them are. *)
Fixpoint elems_zero (check : Z → option Z) (k : nat) (ischar : bool) (elem_size off i : Z) : option Z :=
  match k with
  | O => Some (- ENODATA)
  | S k =>
      first_zero ← (if (i =? 0) && ischar then v ← load 1 mem off; Some (v =? 0) else Some false);
      if first_zero : bool then Some (- ENODATA)
      else
        err ← check (off + u32 (i * elem_size));
        if err =? - ENODATA then elems_zero check k ischar elem_size off (i + 1) else Some err
  end.

(** The loop over the members from [i] on. *)
Fixpoint members_zero (check : Z → Z → Z → Z → option Z) (k : nat) (t : btf_type) (off i : Z) : option Z :=
  match k with
  | O => Some (- ENODATA)
  | S k =>
      m ← btf_member_at t i;
      moffset ← btf_member_bit_offset t i;
      bit_sz ← btf_member_bitfield_size t i;
      err ← check (m_type m) (off + moffset / 8) (moffset mod 8) (u8 bit_sz);
      if negb (err =? ENODATA) then Some err else members_zero check k t off (i + 1)
  end.

(** [- ENODATA]: the data is zero and not printed. *)
Fixpoint btf_dump_type_data_check_zero (fuel : nat) (d : btf_dump) (td : btf_dump_data) (id off bits_offset bit_sz : Z) : option Z :=
  match fuel with
  | O => None
  | S fuel =>
      if td_emit_zeroes td || (td_depth td =? 0) || (td_is_array_member td && negb (td_is_array_char td)) then Some 0
      else
        '(_, t) ← skip_mods_and_typedefs (d_btf d) id;
        let k := btf_kind t in
        if (k =? BTF_KIND_INT) && negb (bit_sz =? 0) then btf_dump_bitfield_check_zero mem t off bits_offset bit_sz
        else if (k =? BTF_KIND_INT) || (k =? BTF_KIND_FLOAT) || (k =? BTF_KIND_PTR) then
          btf_dump_base_type_check_zero mem (d_ptr_sz d) t off
        else if k =? BTF_KIND_ARRAY then
          a ← btf_array_of t;
          size ← btf__resolve_size (d_btf d) (a_type a);
          '(_, elem_type) ← skip_mods_and_typedefs (d_btf d) (a_type a);
          let elem_size := u32 size in
          elems_zero (λ o, btf_dump_type_data_check_zero fuel d td (a_type a) o bits_offset 0) (Z.to_nat (a_nelems a))
            (btf_is_int elem_type && (elem_size =? 1)) elem_size off 0
        else if (k =? BTF_KIND_STRUCT) || (k =? BTF_KIND_UNION) then
          members_zero (λ i o bo bs, btf_dump_type_data_check_zero fuel d td i o bo bs) (Z.to_nat (btf_vlen t)) t off 0
        else if (k =? BTF_KIND_ENUM) || (k =? BTF_KIND_ENUM64) then
          r ← btf_dump_get_enum_value mem addr (d_btf d) t off id;
          Some (match r with inr err => err | inl value => if value =? 0 then - ENODATA else 0 end)
        else Some 0
  end.

Variables (float_text : Z → Z → list Z) (local_addr : Z).

(** The body of the recursion, over the printer [dump] of nested data (its arguments: the
    name, the type, the offset, the offset and the size in bits). *)
Section step.
Variable dump : btf_dump → btf_dump_data → list Z → Z → Z → Z → Z → option (btf_dump * btf_dump_data * Z).

Definition btf_dump_var_data (fuel : nat) (d : btf_dump) (td : btf_dump_data) (v : btf_type) (off : Z) : option (btf_dump * btf_dump_data * Z) :=
  linkage ← bt_word v 0;
  let d := out (if linkage =? BTF_FUNC_STATIC then "static " else if linkage =? BTF_FUNC_EXTERN then "extern " else "") d in
  d ← btf_dump_emit_type_cast fuel d td (bt_type v) false;
  name ← btf__name_by_offset (d_btf d) (bt_name_off v);
  dump (out " = " (out_bytes name (out " " d))) td [] (bt_type v) off 0 0.

(** The loop over the elements that are left; errors are ignored. *)
Fixpoint array_elems (k : nat) (d : btf_dump) (td : btf_dump_data) (elem_type_id elem_size off : Z) : option (btf_dump * btf_dump_data) :=
  match k with
  | O => Some (d, td)
  | S k =>
      if td_is_array_terminated td then Some (d, td)
      else
        '(d, td, _) ← dump d td [] elem_type_id off 0 0;
        array_elems k d td elem_type_id elem_size (off + elem_size)
  end.

Definition btf_dump_array_data (d : btf_dump) (td : btf_dump_data) (t : btf_type) (off : Z) : option (btf_dump * btf_dump_data * Z) :=
  a ← btf_array_of t;
  '(_, elem_type) ← skip_mods_and_typedefs (d_btf d) (a_type a);
  elem_size ← btf__resolve_size (d_btf d) (a_type a);
  if elem_size <=? 0 then Some (d, td, - EINVAL)
  else
    let td := if btf_is_int elem_type && (elem_size =? 1) then with_array_char td else td in
    let td := with_depth td (td_depth td + 1) in
    let d := out_bytes (btf_dump_data_newline td) (out "[" d) in
    let is_array_member := td_is_array_member td in
    '(d, td) ← array_elems (Z.to_nat (a_nelems a)) d (with_array_member td true) (a_type a) elem_size off;
    let td := with_array_member td is_array_member in
    let td := with_depth td (td_depth td - 1) in
    Some (btf_dump_type_values (btf_dump_data_pfx d td) td (str_bytes "]"), td, 0).

(** The loop over the members from [i] on; [err] is the last result. *)
Fixpoint data_members (k : nat) (d : btf_dump) (td : btf_dump_data) (t : btf_type) (off i : Z) (err : option Z)
    : option (btf_dump * btf_dump_data * option Z) :=
  match k with
  | O => Some (d, td, err)
  | S k =>
      m ← btf_member_at t i;
      mname ← btf__name_by_offset (d_btf d) (m_name_off m);
      moffset ← btf_member_bit_offset t i;
      bit_sz ← btf_member_bitfield_size t i;
      '(d, td, err) ← dump d td mname (m_type m) (off + moffset / 8) (moffset mod 8) (u8 bit_sz);
      if err <? 0 then Some (d, td, Some err) else data_members k d td t off (i + 1) (Some err)
  end.

Definition btf_dump_struct_data (d : btf_dump) (td : btf_dump_data) (t : btf_type) (off : Z) : option (btf_dump * btf_dump_data * Z) :=
  let td := with_depth td (td_depth td + 1) in
  let d := out_bytes (btf_dump_data_newline td) (out "{" d) in
  '(d, td, err) ← data_members (Z.to_nat (btf_vlen t)) d td t off 0 None;
  err ← err;
  if err <? 0 then Some (d, td, err)
  else
    let td := with_depth td (td_depth td - 1) in
    Some (btf_dump_type_values (btf_dump_data_pfx d td) td (str_bytes "}"), td, err).

(** The loop over the variables from [i] on. *)
Fixpoint data_vars (k : nat) (d : btf_dump) (td : btf_dump_data) (t : btf_type) (off i : Z) : option (btf_dump * btf_dump_data * Z) :=
  match k with
  | O => Some (d, td, 0)
  | S k =>
      type ← bt_word t (3 * i);
      offset ← bt_word t (3 * i + 1);
      '(d, td, err) ← dump d td [] type (off + offset) 0 0;
      if err <? 0 then Some (d, td, err) else data_vars k (out ";" d) td t off (i + 1)
  end.

Definition btf_dump_datasec_data (d : btf_dump) (td : btf_dump_data) (t : btf_type) (off : Z) : option (btf_dump * btf_dump_data * Z) :=
  name ← btf__name_by_offset (d_btf d) (bt_name_off t);
  let quoted := [34] ++ name ++ [34] in
  data_vars (Z.to_nat (btf_vlen t)) (btf_dump_type_values d td (str_bytes "SEC(" ++ quoted ++ str_bytes ") ")) td t off 0.

Definition keep (td : btf_dump_data) (r : btf_dump * Z) : btf_dump * btf_dump_data * Z := let '(d, err) := r in (d, td, err).

(** A value of an enum in a bit-field is read from a variable of eight bytes. *)
Definition enum_bitfield_data (d : btf_dump) (td : btf_dump_data) (t : btf_type) (id off bits_offset bit_sz : Z) : option (btf_dump * Z) :=
  r ← btf_dump_get_bitfield_value mem t off bits_offset bit_sz;
  match r with
  | inr err => Some (d, err)
  | inl print_num => btf_dump_enum_data (le_bytes 8 print_num) local_addr d td t id 0
  end.

(** The switch over the kind of [t], the type [id] without modifiers and typedefs. *)
Definition type_data (fuel : nat) (d : btf_dump) (td : btf_dump_data) (t : btf_type) (id off bits_offset bit_sz : Z)
    : option (btf_dump * btf_dump_data * Z) :=
  let k := btf_kind t in
  if (k =? BTF_KIND_UNKN) || (k =? BTF_KIND_FWD) || (k =? BTF_KIND_FUNC) || (k =? BTF_KIND_FUNC_PROTO) || (k =? BTF_KIND_DECL_TAG) then
    Some (keep td (btf_dump_unsupported_data d t))
  else if k =? BTF_KIND_INT then
    if negb (bit_sz =? 0) then keep td <$> btf_dump_bitfield_data mem d td t off bits_offset bit_sz
    else btf_dump_int_data mem addr d td t id off
  else if k =? BTF_KIND_FLOAT then keep td <$> btf_dump_float_data mem addr float_text d td t id off
  else if k =? BTF_KIND_PTR then keep td <$> btf_dump_ptr_data mem addr d td id off
  else if k =? BTF_KIND_ARRAY then btf_dump_array_data d td t off
  else if (k =? BTF_KIND_STRUCT) || (k =? BTF_KIND_UNION) then btf_dump_struct_data d td t off
  else if (k =? BTF_KIND_ENUM) || (k =? BTF_KIND_ENUM64) then
    keep td <$> (if negb (bit_sz =? 0) then enum_bitfield_data d td t id off bits_offset bit_sz else btf_dump_enum_data mem addr d td t id off)
  else if k =? BTF_KIND_VAR then btf_dump_var_data fuel d td t off
  else if k =? BTF_KIND_DATASEC then btf_dump_datasec_data d td t off
  else Some (d, td, - EINVAL).

(** The name of a member and the cast to its type. *)
Definition data_names (fuel : nat) (d : btf_dump) (td : btf_dump_data) (fname : list Z) (id : Z) : option btf_dump :=
  if td_skip_names td then Some d
  else
    let d := if bool_decide (fname = []) then d else out " = " (out_bytes fname (out "." d)) in
    btf_dump_emit_type_cast fuel d td id true.
End step.

(** An empty [fname] stands for none. *)
Fixpoint btf_dump_dump_type_data (fuel : nat) (d : btf_dump) (td : btf_dump_data) (fname : list Z) (id off bits_offset bit_sz : Z)
    : option (btf_dump * btf_dump_data * Z) :=
  match fuel with
  | O => None
  | S fuel =>
      size ← btf_dump_type_data_check_overflow (d_btf d) td id off bits_offset;
      if size <? 0 then Some (d, td, size)
      else
        err ← btf_dump_type_data_check_zero (S fuel) d td id off bits_offset bit_sz;
        if err =? - ENODATA then Some (d, td, size)
        else if negb (err =? 0) then Some (d, td, err)
        else
          d ← data_names (S fuel) (btf_dump_data_pfx d td) td fname id;
          '(_, t) ← skip_mods_and_typedefs (d_btf d) id;
          '(d, td, err) ← type_data (btf_dump_dump_type_data fuel) (S fuel) d td t id off bits_offset bit_sz;
          Some (d, td, if err <? 0 then err else s32 size)
  end.

(** What the caller may choose; no [indent_str] means a tab. *)
Record dump_type_data_opts := mkOpts { o_indent_str : option (list Z); o_indent_level : Z; o_compact : bool; o_skip_names : bool; o_emit_zeroes : bool }.

Definition btf_dump__dump_type_data (fuel : nat) (d : btf_dump) (id : Z) (opts_valid : bool) (opts : option dump_type_data_opts) : option (btf_dump * Z) :=
  if negb opts_valid then Some (d, - EINVAL)
  else
    match btf__type_by_id (d_btf d) id with
    | None => Some (d, - ENOENT)
    | Some _ =>
        o ← opts;
        let td := mkData (Z.of_nat (length mem)) (o_compact o) (o_skip_names o) (o_emit_zeroes o) (u8 (o_indent_level o))
                    (match o_indent_str o with None => [9] | Some s => take 31 s end) 0 false false false in
        '(d, _, ret) ← btf_dump_dump_type_data fuel d td [] id 0 0 0;
        Some (d, ret)
    end.
End dump.
