(* ===== verification/BtfBounds.v ===== *)
(** Printing typed data stays inside the data (btf_dump_dump_type_data of
    src/libbpf/src/btf_dump.c): however little of it there is when all fields are printed,
    and when the data is as long as its type when those that are zero are left out. *)
From stdpp Require Import base list strings.
From Stdlib Require Import ZArith Lia.
From S2P Require Import Prelude Bytes Mem Errno Hashmap Btf Reloc RelocWf BtfDump BtfOrder BtfEmit BtfDecl BtfData.

#[local] Open Scope Z_scope.

(** * The size of a type and the type itself *)

(** The kinds whose data is checked against the end. *)
Definition checked_kind (t : btf_type) : bool :=
  let k := btf_kind t in
  (k =? BTF_KIND_INT) || (k =? BTF_KIND_FLOAT) || (k =? BTF_KIND_PTR) || (k =? BTF_KIND_ENUM) || (k =? BTF_KIND_ENUM64).

Lemma checked_cases t : checked_kind t = true →
  btf_kind t = BTF_KIND_INT ∨ btf_kind t = BTF_KIND_FLOAT ∨ btf_kind t = BTF_KIND_PTR ∨ btf_kind t = BTF_KIND_ENUM ∨ btf_kind t = BTF_KIND_ENUM64.
Proof. unfold checked_kind. rewrite !orb_true_iff, !Z.eqb_eq. tauto. Qed.

Lemma resolve_done_one x size : resolve_size_done x 1 = size → 0 ≤ size → x = size.
Proof.
  unfold resolve_size_done. destruct (Z.ltb_spec x 0); [unfold EINVAL; lia|]. destruct (negb (1 =? 0) && _); [unfold E2BIG; lia|]. lia.
Qed.

Lemma mod_ref_kind t : btf_is_mod t || btf_is_typedef t = true →
  sized_kind (btf_kind t) = false ∧ (btf_kind t =? BTF_KIND_PTR) = false ∧ ref_kind (btf_kind t) = true.
Proof.
  unfold btf_is_mod, btf_is_typedef. rewrite !orb_true_iff, !Z.eqb_eq.
  intros [[[[->| ->]| ->]| ->]| ->]; (split; [reflexivity|split; reflexivity]).
Qed.

Lemma skip_loop_step m b id id' t : skip_mods_loop m b id = Some (id', t) →
  ∃ t0, btf__type_by_id b id = Some t0 ∧
    ((btf_is_mod t0 || btf_is_typedef t0 = true ∧ ∃ m', m = S m' ∧ skip_mods_loop m' b (bt_type t0) = Some (id', t)) ∨
     (btf_is_mod t0 || btf_is_typedef t0 = false ∧ t = t0 ∧ id' = id)).
Proof.
  destruct m as [|m]; cbn [skip_mods_loop]; (destruct (btf__type_by_id b id) as [t0|]; cbn [mbind option_bind]; [|discriminate]); intros H; exists t0; (split; [reflexivity|]);
    destruct (btf_is_mod t0 || btf_is_typedef t0); [discriminate H|right; by injection H|left; split; [done|by exists m]|right; by injection H].
Qed.

(** What [btf__resolve_size] finds through modifiers and typedefs is the size of the type
    behind them. *)
Lemma resolve_skip_loop b n m id id' t size : resolve_size_loop n b (btf__type_by_id b id) 1 = Some size → 0 ≤ size →
  skip_mods_loop m b id = Some (id', t) → checked_kind t = true →
  if btf_kind t =? BTF_KIND_PTR then btf_ptr_sz b = Some size else bt_size t = size.
Proof.
  revert m id. induction n as [|n IH]; intros m id; cbn [resolve_size_loop].
  { intros [= H] Hs. by apply resolve_done_one in H; [lia|]. }
  intros H Hs Hskip Hk.
  destruct (skip_loop_step m b id id' t Hskip) as (t0 & Ht0 & Hcase).
  rewrite Ht0 in H. destruct (btf_type_is_void_or_null (Some t0)).
  { injection H as H. by apply resolve_done_one in H; [lia|]. }
  cbn [mbind option_bind] in H. unfold resolve_size_step in H.
  destruct Hcase as [(Em & m' & -> & Hskip')|(Em & -> & ->)].
  - destruct (mod_ref_kind t0 Em) as (E1 & E2 & E3). rewrite E1, E2, E3 in H. cbn [mbind option_bind] in H. exact (IH m' (bt_type t0) H Hs Hskip' Hk).
  - destruct (checked_cases t0 Hk) as [E|[E|[E|[E|E]]]]; rewrite E in *;
      first [ change (sized_kind BTF_KIND_PTR) with false in H; change (BTF_KIND_PTR =? BTF_KIND_PTR) with true in *; cbv iota in *;
              destruct (btf_ptr_sz b) as [sz|]; [|discriminate H]; cbn [mbind option_bind] in H; injection H as H; by apply resolve_done_one in H as ->
            | match type of H with context [sized_kind ?k] => change (sized_kind k) with true in H; change (k =? BTF_KIND_PTR) with false end;
              cbv iota in *; cbn [mbind option_bind] in H; injection H as H; by apply resolve_done_one in H ].
Qed.

Lemma resolve_skip b id id' t size : btf__resolve_size b id = Some size → 0 ≤ size →
  skip_mods_and_typedefs b id = Some (id', t) → checked_kind t = true →
  if btf_kind t =? BTF_KIND_PTR then btf_ptr_sz b = Some size else bt_size t = size.
Proof. apply resolve_skip_loop. Qed.

(** * Data that can be printed *)

Section bounds.
Variables (mem : list Z) (addr local_addr : Z) (float_text : Z → Z → list Z) (b : btf) (skip_names emit_zeroes : bool).

(** The bits of a bit-field are inside of its integer. *)
Definition bits_ok (t : btf_type) (bits_offset bit_sz : Z) : bool :=
  (8 <? bt_size t) || ((0 <=? bits_offset) && (0 <? bit_sz) && (bits_offset + bit_sz <=? 64)).

(** What is printed of the type itself: nothing, or a declaration of depth [n]. *)
Definition cast_ok (n : nat) (id : Z) : bool :=
  match btf__type_by_id b id with
  | Some t => btf_is_var t || (btf_kind t =? BTF_KIND_DATASEC) || some (ctype_of n true b id)
  | None => false
  end.

Definition aligned_at (a id off : Z) : bool := match ptr_is_aligned a b id off with Some x => x | None => false end.

(** The data has [size] bytes from [off] on. *)
Definition holds (off size : Z) : bool := (0 <=? off) && (0 <=? size) && (off + size <=? Z.of_nat (length mem)).

(** What the test for zero of the type [id] reads is in the data: its members and elements
    to depth [n], enums aligned. *)
Fixpoint zero_ok (n : nat) (id off bits_offset bit_sz : Z) : bool :=
  match n with
  | O => false
  | S n =>
      match skip_mods_and_typedefs b id with
      | None => false
      | Some (_, t) =>
          let k := btf_kind t in
          if (k =? BTF_KIND_INT) && negb (bit_sz =? 0) then bits_ok t bits_offset bit_sz && holds off (bt_size t)
          else if (k =? BTF_KIND_INT) || (k =? BTF_KIND_FLOAT) then holds off (bt_size t)
          else if k =? BTF_KIND_PTR then match btf_ptr_sz b with Some sz => holds off sz | None => false end
          else if k =? BTF_KIND_ARRAY then
            match btf_array_of t with
            | None => false
            | Some a =>
                match btf__resolve_size b (a_type a) with
                | None => false
                | Some size =>
                    some (skip_mods_and_typedefs b (a_type a)) && (0 <=? size) && (a_nelems a * size <? 2 ^ 32) && holds off (a_nelems a * size) &&
                    all_below (a_nelems a) (λ i, zero_ok n (a_type a) (off + i * size) bits_offset 0)
                end
            end
          else if (k =? BTF_KIND_STRUCT) || (k =? BTF_KIND_UNION) then
            all_below (btf_vlen t) (λ i,
              match btf_member_at t i, btf_member_bit_offset t i, btf_member_bitfield_size t i with
              | Some m, Some bit_off, Some bits => zero_ok n (m_type m) (off + bit_off / 8) (bit_off mod 8) (u8 bits)
              | _, _, _ => false
              end)
          else if (k =? BTF_KIND_ENUM) || (k =? BTF_KIND_ENUM64) then aligned_at addr id off && holds off (bt_size t)
          else true
      end
  end.

(** What the code takes for granted of the layout of the type [id] at [off], nested to
    depth [n]: types that are there, names that C accepts, enums that are aligned, structs
    that are not empty, bit-fields inside of their integers; and unless fields that are
    zero are printed too, that the data is as long as the type. *)
Fixpoint printable (n : nat) (id off bits_offset bit_sz : Z) : bool :=
  match n with
  | O => false
  | S n =>
      (skip_names || cast_ok (S n) id) && some (btf__resolve_size b id) && (emit_zeroes || zero_ok (S n) id off bits_offset bit_sz) &&
      match skip_mods_and_typedefs b id with
      | None => false
      | Some (_, t) =>
          let k := btf_kind t in
          if k =? BTF_KIND_INT then if bit_sz =? 0 then some (align_of b id) else bits_ok t bits_offset bit_sz
          else if k =? BTF_KIND_FLOAT then some (align_of b id) && (bt_size t <=? 16)
          else if k =? BTF_KIND_PTR then some (align_of b id)
          else if k =? BTF_KIND_ARRAY then
            match btf_array_of t with
            | None => false
            | Some a =>
                match btf__resolve_size b (a_type a) with
                | None => false
                | Some size => some (skip_mods_and_typedefs b (a_type a)) && all_below (a_nelems a) (λ i, printable n (a_type a) (off + i * size) 0 0)
                end
            end
          else if (k =? BTF_KIND_STRUCT) || (k =? BTF_KIND_UNION) then
            negb (btf_vlen t =? 0) && all_below (btf_vlen t) (λ i,
              match btf_member_at t i, btf_member_bit_offset t i, btf_member_bitfield_size t i with
              | Some m, Some bit_off, Some bits => (0 <=? bit_off) && printable n (m_type m) (off + bit_off / 8) (bit_off mod 8) (u8 bits)
              | _, _, _ => false
              end)
          else if (k =? BTF_KIND_ENUM) || (k =? BTF_KIND_ENUM64) then
            if bit_sz =? 0 then aligned_at addr id off else bits_ok t bits_offset bit_sz && aligned_at local_addr id 0
          else if k =? BTF_KIND_VAR then some (bt_word t 0) && cast_ok n (bt_type t) && printable n (bt_type t) off 0 0
          else if k =? BTF_KIND_DATASEC then
            all_below (btf_vlen t) (λ i,
              match bt_word t (3 * i), bt_word t (3 * i + 1) with
              | Some v, Some o => (0 <=? o) && printable n v (off + o) 0 0
              | _, _ => false
              end)
          else true
      end
  end.

(** The state between the steps. *)
Record data_inv (d : btf_dump) (td : btf_dump_data) : Prop := {
  di_ok : printer_ok d;
  di_btf : d_btf d = b;
  di_ptr_sz : btf_ptr_sz b = Some (d_ptr_sz d);
  di_zeroes : td_emit_zeroes td = emit_zeroes;
  di_names : td_skip_names td = skip_names;
  di_end : td_data_end td = Z.of_nat (length mem);
}.

Hypothesis Hwf : btf_wf b = true.

Lemma data_inv_bytes d td s : data_inv d td → data_inv (out_bytes s d) td.
Proof. intros [H1 H2 H3 H4 H5 H6]. split; try done. apply (prints_bytes d s H1). Qed.

Lemma data_inv_prints d td d' s : data_inv d td → prints d s d' → data_inv d' td.
Proof.
  intros [H1 H2 H3 H4 H5 H6] Hp. split; try done; [apply Hp|by rewrite (prints_btf _ _ _ Hp)|].
  destruct (pr_kept _ _ _ Hp) as (_ & _ & ->). done.
Qed.

Lemma data_inv_td d td td' : data_inv d td → td_emit_zeroes td' = td_emit_zeroes td → td_skip_names td' = td_skip_names td →
  td_data_end td' = td_data_end td → data_inv d td'.
Proof. intros [H1 H2 H3 H4 H5 H6] E1 E2 E3. split; congruence. Qed.

(** * Values *)

Lemma load_ok sz off : 0 ≤ off → 0 ≤ sz → off + sz ≤ Z.of_nat (length mem) → ∃ v, load (Z.to_nat sz) mem off = Some v.
Proof. intros H1 H2 H3. apply load_is_Some. rewrite Z2Nat.id; lia. Qed.

Lemma bitfield_value_ok t off bits_offset bit_sz : 0 ≤ off → 0 ≤ bt_size t → off + bt_size t ≤ Z.of_nat (length mem) → bits_ok t bits_offset bit_sz = true →
  ∃ r, btf_dump_get_bitfield_value mem t off bits_offset bit_sz = Some r.
Proof.
  intros Ho Hs Hend Hb. unfold btf_dump_get_bitfield_value. destruct (Z.gtb_spec (bt_size t) 8) as [|Hle]; [by eexists|].
  unfold bits_ok in Hb. rewrite orb_true_iff, !andb_true_iff, !Z.ltb_lt, !Z.leb_le in Hb. destruct Hb as [|((H1 & H2) & H3)]; [lia|]. destruct (load_ok (bt_size t) off Ho Hs Hend) as [v ->]. cbn [mbind option_bind].
  unfold shift_out. rewrite (wrap_small 8 (bit_sz + bits_offset)), !wrap_small by (unfold in_u; lia).
  rewrite (proj2 (Z.ltb_lt (64 - (bit_sz + bits_offset)) 64)), (proj2 (Z.ltb_lt (64 - bit_sz) 64)) by lia. by eexists.
Qed.

Lemma aligned_ok id off : is_Some (align_of b id) → ∃ x, ptr_is_aligned addr b id off = Some x.
Proof. intros [al E]. unfold ptr_is_aligned. rewrite E. by eexists. Qed.

Lemma bitfield_data_ok d td t off bits_offset bit_sz : data_inv d td → 0 ≤ off → 0 ≤ bt_size t → off + bt_size t ≤ Z.of_nat (length mem) →
  bits_ok t bits_offset bit_sz = true → ∃ d' r, btf_dump_bitfield_data mem d td t off bits_offset bit_sz = Some (d', r) ∧ data_inv d' td.
Proof.
  intros Hi Ho Hs Hend Hb. unfold btf_dump_bitfield_data. destruct (bitfield_value_ok t off bits_offset bit_sz Ho Hs Hend Hb) as [r ->].
  cbn [mbind option_bind]. destruct r; eexists _, _; (split; [reflexivity|]); [by apply data_inv_bytes|done].
Qed.

Lemma int_data_ok d td t id off : data_inv d td → 0 ≤ off → 0 ≤ bt_size t → off + bt_size t ≤ Z.of_nat (length mem) →
  is_Some (bt_word t 0) → is_Some (align_of b id) →
  ∃ d' td' r, btf_dump_int_data mem addr d td t id off = Some (d', td', r) ∧ data_inv d' td'.
Proof.
  intros Hi Ho Hs Hend [w Hw] Hal. unfold btf_dump_int_data, btf_int_encoding. rewrite Hw. cbn [mbind option_bind].
  destruct (Z.eqb_spec (bt_size t) 0); cbn [orb]; [by eauto 6|]. destruct (Z.gtb_spec (bt_size t) 16); [by eauto 6|].
  rewrite (di_btf _ _ Hi). destruct (aligned_ok id off Hal) as [al ->]. cbn [mbind option_bind].
  destruct (load_ok (bt_size t) off Ho Hs Hend) as [v Hv]. rewrite Hv.
  assert ((if al then Some 0 else Some v) = Some (if al then 0 else v)) as -> by (by destruct al). cbn [mbind option_bind].
  destruct (Z.eqb_spec (bt_size t) 16) as [E|_].
  { destruct (load_ok 8 off Ho ltac:(lia) ltac:(lia)) as [lsi H1], (load_ok 8 (off + 8) ltac:(lia) ltac:(lia) ltac:(lia)) as [msi H2].
    change (Z.to_nat 8) with 8%nat in H1, H2. rewrite H1. cbn [mbind option_bind]. rewrite H2. cbn [mbind option_bind].
    eexists _, _, _. split; [reflexivity|]. by apply data_inv_bytes. }
  destruct ((bt_size t =? 8) || (bt_size t =? 4) || (bt_size t =? 2)).
  { cbn [mbind option_bind]. eexists _, _, _. split; [reflexivity|]. by apply data_inv_bytes. }
  destruct (Z.eqb_spec (bt_size t) 1) as [E|_]; [|by eauto 6]. destruct (td_is_array_char td && td_is_array_terminated td); [by eauto 6|].
  rewrite E in Hv. change (Z.to_nat 1) with 1%nat in Hv. rewrite Hv. cbn [mbind option_bind].
  unfold char_data. destruct (negb (td_is_array_char td)); [eexists _, _, _; split; [reflexivity|by apply data_inv_bytes]|].
  destruct (v =? 0); [eexists _, _, _; split; [reflexivity|by eapply data_inv_td; [apply data_inv_bytes|..]]|].
  destruct (isprint v); eexists _, _, _; (split; [reflexivity|by apply data_inv_bytes]).
Qed.

Lemma float_data_ok d td t id off : data_inv d td → 0 ≤ off → 0 ≤ bt_size t ≤ 16 → off + bt_size t ≤ Z.of_nat (length mem) →
  is_Some (align_of b id) → ∃ d' r, btf_dump_float_data mem addr float_text d td t id off = Some (d', r) ∧ data_inv d' td.
Proof.
  intros Hi Ho [Hs Hmax] Hend Hal. unfold btf_dump_float_data. rewrite (di_btf _ _ Hi). destruct (aligned_ok id off Hal) as [al ->]. cbn [mbind option_bind].
  destruct (load_ok (bt_size t) off Ho Hs Hend) as [v Hv]. rewrite Hv. destruct (Z.gtb_spec (bt_size t) 16); [lia|].
  assert ((if al then Some 0 else Some v) = Some (if al then 0 else v)) as -> by (by destruct al). cbn [mbind option_bind].
  destruct (_ || _); cbn [mbind option_bind]; eexists _, _; (split; [reflexivity|]); [by apply data_inv_bytes|done].
Qed.

Lemma ptr_data_ok d td id off : data_inv d td → 0 ≤ off → 0 ≤ d_ptr_sz d → off + d_ptr_sz d ≤ Z.of_nat (length mem) →
  is_Some (align_of b id) → ∃ d' r, btf_dump_ptr_data mem addr d td id off = Some (d', r) ∧ data_inv d' td.
Proof.
  intros Hi Ho Hs Hend Hal. unfold btf_dump_ptr_data. rewrite (di_btf _ _ Hi). destruct (aligned_ok id off Hal) as [al ->]. cbn [mbind option_bind].
  destruct (load_ok (d_ptr_sz d) off Ho Hs Hend) as [v ->]. cbn [mbind option_bind]. eexists _, _. split; [reflexivity|]. by apply data_inv_bytes.
Qed.

(** * The test for zero *)

Lemma holds_load off size : holds off size = true → ∃ v, load (Z.to_nat size) mem off = Some v.
Proof. unfold holds. rewrite !andb_true_iff, !Z.leb_le. intros [[H1 H2] H3]. by apply load_ok. Qed.

Lemma bitfield_zero_ok t off bits_offset bit_sz : bits_ok t bits_offset bit_sz = true → holds off (bt_size t) = true →
  ∃ r, btf_dump_bitfield_check_zero mem t off bits_offset bit_sz = Some r ∧ r ≤ 0.
Proof.
  intros Hb. unfold holds. rewrite !andb_true_iff, !Z.leb_le. intros [[H1 H2] H3]. unfold btf_dump_bitfield_check_zero, btf_dump_get_bitfield_value.
  destruct (Z.gtb_spec (bt_size t) 8) as [|Hle]; [by eexists|].
  destruct (bitfield_value_ok t off bits_offset bit_sz H1 H2 H3 Hb) as [r Hr]. unfold btf_dump_get_bitfield_value in Hr.
  destruct (Z.gtb_spec (bt_size t) 8); [lia|]. destruct (load _ mem off); cbn [mbind option_bind] in Hr |- *; [|done].
  destruct (shift_out _ _ _) as [v|]; cbn [mbind option_bind] in Hr |- *; [|done]. eexists. split; [done|]. by destruct (v =? 0).
Qed.

Lemma base_zero_ok ptr_sz t off : holds off (if btf_kind t =? BTF_KIND_PTR then ptr_sz else bt_size t) = true →
  ∃ r, btf_dump_base_type_check_zero mem ptr_sz t off = Some r ∧ r ≤ 0.
Proof.
  intros H. unfold btf_dump_base_type_check_zero. cbv zeta. set (sz := if btf_kind t =? BTF_KIND_PTR then ptr_sz else s32 (bt_size t)).
  destruct (Z.ltb_spec sz 1), (Z.gtb_spec sz 16); cbn [orb]; try by eexists.
  destruct (holds_load off _ H) as [v Hv].
  assert (∃ v, load (Z.to_nat sz) mem off = Some v) as [v' ->]; [|eexists; split; [done|by destruct (v' =? 0)]].
  unfold sz in *. destruct (btf_kind t =? BTF_KIND_PTR); [by eexists|].
  unfold holds in H. rewrite !andb_true_iff, !Z.leb_le in H. destruct H as [[Ho Hs] He].
  apply load_ok; [done|lia|]. assert (s32 (bt_size t) ≤ bt_size t); [|lia].
  unfold swrap, wrap. pose proof (Z.mod_le (bt_size t) (2 ^ 32) Hs ltac:(lia)). destruct (_ <? _); lia.
Qed.

Lemma elems_zero_ok check k ischar size off i : 0 ≤ i → 0 ≤ size → (i + Z.of_nat k) * size < 2 ^ 32 →
  (i = 0 → (0 < k)%nat → ischar = true → is_Some (load 1 mem off)) →
  (∀ j, i ≤ j < i + Z.of_nat k → ∃ r, check (off + j * size) = Some r ∧ r ≤ 0) →
  ∃ r, elems_zero mem check k ischar size off i = Some r ∧ r ≤ 0.
Proof.
  revert i. induction k as [|k IH]; intros i Hi Hs Hmax Hfirst Hc; cbn [elems_zero]; [by eexists|].
  assert (∃ z, (if (i =? 0) && ischar then v ← load 1 mem off; Some (v =? 0) else Some false) = Some z) as [z ->].
  { destruct (Z.eqb_spec i 0) as [->|], ischar; cbn [andb]; try by eexists. destruct (Hfirst eq_refl ltac:(lia) eq_refl) as [v ->]. by eexists. }
  cbn [mbind option_bind]. destruct z; [by eexists|]. rewrite wrap_small by (unfold in_u; nia).
  destruct (Hc i ltac:(lia)) as (r & -> & Hr). cbn [mbind option_bind]. destruct (r =? - ENODATA); [|by eexists].
  apply IH; [lia|lia|nia|lia|]. intros j Hj. apply Hc. lia.
Qed.

Lemma members_zero_ok check k t off i : 0 ≤ i →
  (∀ j, i ≤ j < i + Z.of_nat k → ∃ m bit_off bits r, btf_member_at t j = Some m ∧ btf_member_bit_offset t j = Some bit_off ∧
     btf_member_bitfield_size t j = Some bits ∧ check (m_type m) (off + bit_off / 8) (bit_off mod 8) (u8 bits) = Some r ∧ r ≤ 0) →
  ∃ r, members_zero check k t off i = Some r ∧ r ≤ 0.
Proof.
  revert i. induction k as [|k IH]; intros i Hi Hc; cbn [members_zero]; [by eexists|].
  destruct (Hc i ltac:(lia)) as (m & bit_off & bits & r & -> & -> & -> & E & Hr). cbn [mbind option_bind]. rewrite E. cbn [mbind option_bind].
  destruct (negb (r =? ENODATA)); [by eexists|]. apply IH; [lia|]. intros j Hj. apply Hc. lia.
Qed.

Lemma enum_zero_ok t id off : aligned_at addr id off = true → holds off (bt_size t) = true →
  ∃ r, btf_dump_get_enum_value mem addr b t off id = Some r ∧ ∀ err, r = inr err → err ≤ 0.
Proof.
  intros Hal Hh. unfold btf_dump_get_enum_value. unfold aligned_at in Hal. destruct (ptr_is_aligned addr b id off) as [[]|]; [|done..]. cbn [mbind option_bind negb].
  destruct (holds_load off _ Hh) as [v Hv]. destruct (Z.eqb_spec (bt_size t) 8) as [E|_].
  { rewrite E in Hv. change (Z.to_nat 8) with 8%nat in Hv. rewrite Hv. by eexists. }
  destruct (_ || _); [rewrite Hv; by eexists|]. eexists. split; [done|]. by intros err [= <-].
Qed.

Lemma check_zero_ok n : ∀ fuel d td id off bits_offset bit_sz, (n ≤ fuel)%nat → d_btf d = b → btf_ptr_sz b = Some (d_ptr_sz d) →
  zero_ok n id off bits_offset bit_sz = true →
  ∃ r, btf_dump_type_data_check_zero mem addr fuel d td id off bits_offset bit_sz = Some r ∧ r ≤ 0.
Proof.
  induction n as [|n IH]; intros fuel d td id off bits_offset bit_sz Hn Hb Hptr Hz; [done|]. destruct fuel as [|fuel]; [lia|].
  cbn [zero_ok btf_dump_type_data_check_zero] in Hz |- *. destruct (td_emit_zeroes td || _ || _); [by eexists|].
  rewrite Hb. destruct (skip_mods_and_typedefs b id) as [[id' t]|]; cbn [mbind option_bind] in Hz |- *; [|done]. cbv zeta in Hz |- *.
  destruct ((btf_kind t =? BTF_KIND_INT) && negb (bit_sz =? 0)); [apply andb_true_iff in Hz as [Z1 Z2]; by apply bitfield_zero_ok|].
  destruct ((btf_kind t =? BTF_KIND_INT) || (btf_kind t =? BTF_KIND_FLOAT)) eqn:K1; cbn [orb].
  { apply base_zero_ok. apply orb_true_iff in K1 as [K|K]; apply Z.eqb_eq in K; by rewrite K. }
  destruct (btf_kind t =? BTF_KIND_PTR) eqn:K2; [apply base_zero_ok; rewrite K2; by rewrite Hptr in Hz|].
  destruct (btf_kind t =? BTF_KIND_ARRAY).
  { destruct (btf_array_of t) as [a|]; cbn [mbind option_bind] in Hz |- *; [|done]. destruct (btf__resolve_size b (a_type a)) as [size|]; cbn [mbind option_bind] in Hz |- *; [|done].
    destruct (skip_mods_and_typedefs b (a_type a)) as [[eid et]|]; cbn [mbind option_bind some andb] in Hz |- *; [|done].
    rewrite !andb_true_iff, Z.leb_le, Z.ltb_lt in Hz. destruct Hz as [[[H1 H2] H3] H4].
    destruct (decide (a_nelems a ≤ 0)) as [Hle|Hpos]; [replace (Z.to_nat (a_nelems a)) with O by lia; by eexists|].
    rewrite wrap_small by (unfold in_u; nia). apply elems_zero_ok; [lia|done|lia| |].
    - intros _ _ Hch. apply andb_true_iff in Hch as [_ Hch]. apply Z.eqb_eq in Hch. unfold holds in H3. rewrite !andb_true_iff, !Z.leb_le in H3.
      destruct (load_ok 1 off) as [v Hv]; [lia|lia|nia|]. exists v. exact Hv.
    - intros j Hj. apply IH; [lia|done|done|]. apply (all_below_spec _ _ H4). lia. }
  destruct ((btf_kind t =? BTF_KIND_STRUCT) || (btf_kind t =? BTF_KIND_UNION)).
  { apply members_zero_ok; [lia|]. intros j Hj. pose proof (all_below_spec _ _ Hz j ltac:(lia)) as H. cbv beta in H.
    destruct (btf_member_at t j) as [m|]; [|done]. destruct (btf_member_bit_offset t j) as [bo|]; [|done]. destruct (btf_member_bitfield_size t j) as [bs|]; [|done].
    destruct (IH fuel d td (m_type m) (off + bo / 8) (bo mod 8) (u8 bs) ltac:(lia) Hb Hptr H) as (r & Hr & Hle). by exists m, bo, bs, r. }
  destruct ((btf_kind t =? BTF_KIND_ENUM) || (btf_kind t =? BTF_KIND_ENUM64)); [|by exists 0]. apply andb_true_iff in Hz as [H1 H2].
  destruct (enum_zero_ok t id off H1 H2) as (r & -> & Hle).
  cbn [mbind option_bind]. eexists. split; [done|]. destruct r as [v|err]; [by destruct (v =? 0)|by apply Hle].
Qed.

(** * Enums *)

Lemma enum_name_ok t value k i : type_ok b t = true → btf_is_any_enum t = true → 0 ≤ i → Z.of_nat k + i ≤ btf_vlen t →
  ∃ r, enum_name k b t value i = Some r.
Proof.
  intros Hok Hk. revert i. induction k as [|k IH]; intros i Hi Hn; cbn [enum_name]; [by eexists|].
  destruct (type_ok_enum b t Hok Hk i ltac:(lia)) as (off & name & Hoff & Hname). destruct (IH (i + 1) ltac:(lia) ltac:(lia)) as [r Hr].
  destruct (btf_is_enum t).
  - destruct (btf_enum_at t i) as [e|]; [|done]. injection Hoff as <-. cbn [mbind option_bind]. rewrite Hname, Hr.
    destruct (value =? e_val e); cbn [mbind option_bind]; by eexists.
  - destruct (btf_enum64_at t i) as [e|]; [|done]. injection Hoff as <-. cbn [mbind option_bind]. rewrite Hname, Hr.
    destruct (u64 value =? btf_enum64_value e); cbn [mbind option_bind]; by eexists.
Qed.

(** [m] and [a]: the data, or the variable a bit-field is copied to. *)
Lemma enum_data_ok m a d td t id off : data_inv d td → type_ok b t = true → btf_is_any_enum t = true → aligned_at a id off = true →
  0 ≤ off → (bt_size t ≤ 8 → off + bt_size t ≤ Z.of_nat (length m)) →
  ∃ d' r, btf_dump_enum_data m a d td t id off = Some (d', r) ∧ data_inv d' td.
Proof.
  intros Hi Hok Hk Hal Ho Hend. unfold btf_dump_enum_data, btf_dump_get_enum_value. rewrite (di_btf _ _ Hi). unfold aligned_at in Hal.
  destruct (ptr_is_aligned a b id off) as [[]|]; [|done..]. cbn [mbind option_bind negb].
  assert (∃ r, (if bt_size t =? 8 then v ← load 8 m off; Some (inl (s64 v))
    else if (bt_size t =? 4) || (bt_size t =? 2) || (bt_size t =? 1) then
      v ← load (Z.to_nat (bt_size t)) m off; Some (inl (if btf_kflag t then swrap (8 * bt_size t) v else v))
    else Some (inr (- EINVAL))) = Some r) as [r ->].
  { destruct (Z.eqb_spec (bt_size t) 8) as [E|_].
    - assert (is_Some (load 8 m off)) as [v ->] by (apply load_is_Some; lia). by eexists.
    - destruct ((bt_size t =? 4) || (bt_size t =? 2) || (bt_size t =? 1)) eqn:E; [|by eexists].
      assert (bt_size t = 4 ∨ bt_size t = 2 ∨ bt_size t = 1) as Hs by (revert E; rewrite !orb_true_iff, !Z.eqb_eq; tauto).
      assert (is_Some (load (Z.to_nat (bt_size t)) m off)) as [v ->] by (apply load_is_Some; rewrite Z2Nat.id; lia). by eexists. }
  cbn [mbind option_bind]. destruct r as [value|err]; [|by eauto].
  assert (0 ≤ btf_vlen t) as Hv by (apply Z.land_nonneg; by right).
  destruct (enum_name_ok t value (Z.to_nat (btf_vlen t)) 0 Hok Hk ltac:(lia) ltac:(lia)) as [name ->]. cbn [mbind option_bind].
  eexists _, _. split; [reflexivity|]. by apply data_inv_bytes.
Qed.

(** * Names *)

Lemma with_field_ok d skip strip : printer_ok d →
  printer_ok (with_strip_mods (with_skip_anon_defs d skip) strip).
Proof. intros [H1 H2 H3 H4 H5 H6 H7]. by split. Qed.

Lemma type_cast_ok n fuel d td id top : (n ≤ fuel)%nat → data_inv d td → cast_ok n id = true →
  ∃ d', btf_dump_emit_type_cast fuel d td id top = Some d' ∧ data_inv d' td.
Proof.
  intros Hn Hi Hc. unfold cast_ok in Hc. destruct (btf__type_by_id b id) as [t|] eqn:Ht; [|done]. unfold btf_dump_emit_type_cast. destruct (td_is_array_member td); [by eexists|].
  rewrite (di_btf _ _ Hi), Ht. cbn [mbind option_bind]. destruct (btf_is_var t || (btf_kind t =? BTF_KIND_DATASEC)); [by eexists|].
  cbn [orb] in Hc. apply some_is_Some in Hc as [U HU]. set (d0 := if top then out "(" d else d).
  assert (data_inv d0 td) as Hi0 by (unfold d0; destruct top; [by apply data_inv_bytes|done]).
  destruct (emit_type_decl_spec fuel n (with_strip_mods (with_skip_anon_defs d0 true) true) id [] 0 U Hn) as (d1 & s & -> & Hp & _);
    [by apply with_field_ok, Hi0|cbn [d_strip_mods d_btf with_strip_mods with_skip_anon_defs]; by rewrite (di_btf _ _ Hi0)|done|].
  cbn [mbind option_bind]. set (d2 := with_skip_anon_defs (with_strip_mods d1 false) false).
  assert (data_inv d2 td) as Hi2.
  { destruct Hi0 as [H1 H2 H3 H4 H5 H6]. destruct (pr_ok _ _ _ Hp) as [P1 P2 P3 P4 P5 P6 P7]. split; try done.
    - change (d_btf d2) with (d_btf d1). by rewrite (prints_btf _ _ _ Hp).
    - change (d_ptr_sz d2) with (d_ptr_sz d1). destruct (pr_kept _ _ _ Hp) as (_ & _ & ->). done. }
  eexists. split; [reflexivity|]. destruct top; [by apply data_inv_bytes|done].
Qed.

Lemma data_names_ok n fuel d td fname id : (n ≤ fuel)%nat → data_inv d td → skip_names || cast_ok n id = true →
  ∃ d', data_names fuel d td fname id = Some d' ∧ data_inv d' td.
Proof.
  intros Hn Hi Hc. unfold data_names. rewrite (di_names _ _ Hi). destruct skip_names; [by eexists|].
  apply (type_cast_ok n); [done| |done]. destruct (bool_decide _); [done|]. by apply data_inv_bytes, data_inv_bytes, data_inv_bytes.
Qed.

(** * Nested data *)

Lemma keep_ok td (o : option (btf_dump * Z)) : (∃ d' r, o = Some (d', r) ∧ data_inv d' td) →
  ∃ d' td' r, keep td <$> o = Some (d', td', r) ∧ data_inv d' td'.
Proof. intros (d' & r & -> & Hi). by exists d', td, r. Qed.

Section step.
Variable dump : btf_dump → btf_dump_data → list Z → Z → Z → Z → Z → option (btf_dump * btf_dump_data * Z).
Variable n : nat.
Hypothesis Hdump : ∀ d td fname id off bits_offset bit_sz, data_inv d td → printable n id off bits_offset bit_sz = true → 0 ≤ off → 0 ≤ bits_offset →
  ∃ d' td' r, dump d td fname id off bits_offset bit_sz = Some (d', td', r) ∧ data_inv d' td'.

Lemma array_elems_ok id size k off d td : data_inv d td → 0 ≤ off → 0 ≤ size → (∀ i, 0 ≤ i < Z.of_nat k → printable n id (off + i * size) 0 0 = true) →
  ∃ d' td', array_elems dump k d td id size off = Some (d', td') ∧ data_inv d' td'.
Proof.
  revert off d td. induction k as [|k IH]; intros off d td Hi Ho Hs Hp; cbn [array_elems]; [by eauto|].
  destruct (td_is_array_terminated td); [by eauto|].
  destruct (Hdump d td [] id off 0 0 Hi) as (d1 & td1 & r & -> & Hi1); [|done|done|].
  { specialize (Hp 0 ltac:(lia)). by rewrite Z.mul_0_l, Z.add_0_r in Hp. }
  cbn [mbind option_bind]. apply IH; [done|lia|done|]. intros i Hi2. specialize (Hp (i + 1) ltac:(lia)).
  by replace (off + size + i * size) with (off + (i + 1) * size) by lia.
Qed.

Lemma array_data_ok d td t a size off : data_inv d td → 0 ≤ off → btf_array_of t = Some a → btf__resolve_size b (a_type a) = Some size →
  is_Some (skip_mods_and_typedefs b (a_type a)) → (∀ i, 0 ≤ i < a_nelems a → printable n (a_type a) (off + i * size) 0 0 = true) →
  ∃ d' td' r, btf_dump_array_data dump d td t off = Some (d', td', r) ∧ data_inv d' td'.
Proof.
  intros Hi Ho Ha Hs [[ei et] He] Hp. unfold btf_dump_array_data. rewrite Ha. cbn [mbind option_bind]. rewrite (di_btf _ _ Hi), He. cbn [mbind option_bind].
  rewrite Hs. cbn [mbind option_bind]. destruct (Z.leb_spec size 0) as [|Hpos]; [by eauto 6|].
  set (td1 := if btf_is_int et && (size =? 1) then with_array_char td else td).
  assert (data_inv d td1) as Hi1 by (unfold td1; destruct (_ && _); by eapply data_inv_td).
  destruct (array_elems_ok (a_type a) size (Z.to_nat (a_nelems a)) off
    (out_bytes (btf_dump_data_newline (with_depth td1 (td_depth td1 + 1))) (out "[" d)) (with_array_member (with_depth td1 (td_depth td1 + 1)) true))
    as (d2 & td2 & -> & Hi2); [|done|lia| |].
  { eapply data_inv_td; [apply data_inv_bytes, data_inv_bytes, Hi1|done..]. }
  { intros i Hir. apply Hp. lia. }
  cbn [mbind option_bind]. eexists _, _, _. split; [reflexivity|]. apply data_inv_bytes. unfold btf_dump_data_pfx.
  destruct (td_compact _); [|apply data_inv_bytes]; by eapply data_inv_td.
Qed.

Lemma data_members_ok t off k i d td err : data_inv d td → 0 ≤ off → type_ok b t = true → btf_is_composite t = true → 0 ≤ i → Z.of_nat k + i ≤ btf_vlen t →
  (∀ j, 0 ≤ j < btf_vlen t → ∃ m bit_off bits, btf_member_at t j = Some m ∧ btf_member_bit_offset t j = Some bit_off ∧
     btf_member_bitfield_size t j = Some bits ∧ 0 ≤ bit_off ∧ printable n (m_type m) (off + bit_off / 8) (bit_off mod 8) (u8 bits) = true) →
  ∃ d' td' err', data_members dump k d td t off i err = Some (d', td', err') ∧ data_inv d' td' ∧ (k ≠ O ∨ is_Some err → is_Some err').
Proof.
  intros Hi Ho Hok Hc Hi0 Hk Hp. revert i d td err Hi Hi0 Hk. induction k as [|k IH]; intros i d td err Hi Hi0 Hk; cbn [data_members].
  { exists d, td, err. split; [done|]. split; [done|]. intros [|]; done. }
  destruct (Hp i ltac:(lia)) as (m & bit_off & bits & Hm & -> & -> & Hbo & Hpm). destruct (type_ok_composite b t Hok Hc i ltac:(lia)) as (m' & name & Hm' & _ & Hname).
  rewrite Hm in Hm'. injection Hm' as <-. rewrite Hm. cbn [mbind option_bind]. rewrite (di_btf _ _ Hi), Hname. cbn [mbind option_bind].
  destruct (Hdump d td name (m_type m) (off + bit_off / 8) (bit_off mod 8) (u8 bits) Hi Hpm) as (d1 & td1 & r & -> & Hi1);
    [pose proof (Z.div_pos bit_off 8); lia|apply Z.mod_pos_bound; lia|]. cbn [mbind option_bind].
  destruct (r <? 0); [by eauto 8|]. destruct (IH (i + 1) d1 td1 (Some r) Hi1 ltac:(lia) ltac:(lia)) as (d2 & td2 & err2 & -> & Hi2 & He).
  exists d2, td2, err2. split; [done|]. split; [done|]. intros _. apply He. right. by eexists.
Qed.

Lemma struct_data_ok d td t off : data_inv d td → 0 ≤ off → type_ok b t = true → btf_is_composite t = true → btf_vlen t ≠ 0 →
  (∀ j, 0 ≤ j < btf_vlen t → ∃ m bit_off bits, btf_member_at t j = Some m ∧ btf_member_bit_offset t j = Some bit_off ∧
     btf_member_bitfield_size t j = Some bits ∧ 0 ≤ bit_off ∧ printable n (m_type m) (off + bit_off / 8) (bit_off mod 8) (u8 bits) = true) →
  ∃ d' td' r, btf_dump_struct_data dump d td t off = Some (d', td', r) ∧ data_inv d' td'.
Proof.
  intros Hi Ho Hok Hc Hn Hp. unfold btf_dump_struct_data. assert (0 ≤ btf_vlen t) as Hv by (apply Z.land_nonneg; by right).
  destruct (data_members_ok t off (Z.to_nat (btf_vlen t)) 0 (out_bytes (btf_dump_data_newline (with_depth td (td_depth td + 1))) (out "{" d))
    (with_depth td (td_depth td + 1)) None) as (d1 & td1 & err & -> & Hi1 & He); [|done|done|done|lia|lia|done|].
  { eapply data_inv_td; [apply data_inv_bytes, data_inv_bytes, Hi|done..]. }
  destruct He as [e ->]; [left; lia|]. cbn [mbind option_bind]. destruct (e <? 0); [by eauto 6|].
  eexists _, _, _. split; [reflexivity|]. apply data_inv_bytes. unfold btf_dump_data_pfx.
  destruct (td_compact _); [|apply data_inv_bytes]; by eapply data_inv_td.
Qed.

Lemma var_data_ok fuel d td v off : (n ≤ fuel)%nat → data_inv d td → 0 ≤ off → type_ok b v = true → is_Some (bt_word v 0) → cast_ok n (bt_type v) = true →
  printable n (bt_type v) off 0 0 = true → ∃ d' td' r, btf_dump_var_data dump fuel d td v off = Some (d', td', r) ∧ data_inv d' td'.
Proof.
  intros Hn Hi Ho Hok [l Hl] Hc Hp. unfold btf_dump_var_data. rewrite Hl. cbn [mbind option_bind]. set (d0 := out _ d).
  destruct (type_cast_ok n fuel d0 td (bt_type v) false Hn) as (d1 & -> & Hi1); [by apply data_inv_bytes|done|]. cbn [mbind option_bind].
  destruct (type_ok_name b v Hok) as [name Hname]. rewrite (di_btf _ _ Hi1), Hname. cbn [mbind option_bind].
  apply Hdump; [|done|done|done]. by apply data_inv_bytes, data_inv_bytes, data_inv_bytes.
Qed.

Lemma data_vars_ok t off k i d td : data_inv d td → 0 ≤ off → 0 ≤ i → Z.of_nat k + i ≤ btf_vlen t →
  (∀ j, 0 ≤ j < btf_vlen t → ∃ v o, bt_word t (3 * j) = Some v ∧ bt_word t (3 * j + 1) = Some o ∧ 0 ≤ o ∧ printable n v (off + o) 0 0 = true) →
  ∃ d' td' r, data_vars dump k d td t off i = Some (d', td', r) ∧ data_inv d' td'.
Proof.
  intros Hi Ho Hi0 Hk Hp. revert i d td Hi Hi0 Hk. induction k as [|k IH]; intros i d td Hi Hi0 Hk; cbn [data_vars]; [by eauto 6|].
  destruct (Hp i ltac:(lia)) as (v & o & -> & -> & Hoo & Hpv). cbn [mbind option_bind].
  destruct (Hdump d td [] v (off + o) 0 0 Hi Hpv) as (d1 & td1 & r & -> & Hi1); [lia|done|]. cbn [mbind option_bind].
  destruct (r <? 0); [by eauto 6|]. apply IH; [by apply data_inv_bytes|lia|lia].
Qed.

Lemma datasec_data_ok d td t off : data_inv d td → 0 ≤ off → type_ok b t = true →
  (∀ j, 0 ≤ j < btf_vlen t → ∃ v o, bt_word t (3 * j) = Some v ∧ bt_word t (3 * j + 1) = Some o ∧ 0 ≤ o ∧ printable n v (off + o) 0 0 = true) →
  ∃ d' td' r, btf_dump_datasec_data dump d td t off = Some (d', td', r) ∧ data_inv d' td'.
Proof.
  intros Hi Ho Hok Hp. unfold btf_dump_datasec_data. destruct (type_ok_name b t Hok) as [name Hname]. rewrite (di_btf _ _ Hi), Hname.
  cbn [mbind option_bind]. assert (0 ≤ btf_vlen t) as Hv by (apply Z.land_nonneg; by right).
  apply data_vars_ok; [by apply data_inv_bytes|done|lia|lia|done].
Qed.

Lemma enum_bitfield_ok d td t id off bits_offset bit_sz : data_inv d td → 0 ≤ off → 0 ≤ bt_size t → off + bt_size t ≤ Z.of_nat (length mem) →
  type_ok b t = true → btf_is_any_enum t = true → bits_ok t bits_offset bit_sz = true → aligned_at local_addr id 0 = true →
  ∃ d' r, enum_bitfield_data mem local_addr d td t id off bits_offset bit_sz = Some (d', r) ∧ data_inv d' td.
Proof.
  intros Hi Ho Hs Hend Hok Hk Hb Hal. unfold enum_bitfield_data. destruct (bitfield_value_ok t off bits_offset bit_sz Ho Hs Hend Hb) as [[v|err] ->];
    cbn [mbind option_bind]; [|by eauto]. apply enum_data_ok; try done.
Qed.

(** The data of a type that is no modifier: [checked] data ends inside of [mem]. *)
Lemma type_data_ok fuel d td t id id' off bits_offset bit_sz : (n ≤ fuel)%nat → data_inv d td → 0 ≤ off → type_ok b t = true →
  skip_mods_and_typedefs b id = Some (id', t) → printable (S n) id off bits_offset bit_sz = true →
  (checked_kind t = true → ∃ size, btf__resolve_size b id = Some size ∧ 0 ≤ size ∧ off + size ≤ Z.of_nat (length mem)) →
  ∃ d' td' r, type_data mem addr float_text local_addr dump fuel d td t id off bits_offset bit_sz = Some (d', td', r) ∧ data_inv d' td'.
Proof.
  intros Hn Hi Ho Hok Hskip Hp Hchk. cbn [printable] in Hp. apply andb_true_iff in Hp as [_ Hp]. rewrite Hskip in Hp.
  assert (checked_kind t = true → 0 ≤ off + (if btf_kind t =? BTF_KIND_PTR then d_ptr_sz d else bt_size t) ≤ Z.of_nat (length mem) ∧
    0 ≤ if btf_kind t =? BTF_KIND_PTR then d_ptr_sz d else bt_size t) as Hend.
  { intros Hk. destruct (Hchk Hk) as (size & Hs & Hs0 & He). pose proof (resolve_skip b id id' t size Hs Hs0 Hskip Hk) as Hsz.
    rewrite (di_ptr_sz _ _ Hi) in Hsz. destruct (btf_kind t =? BTF_KIND_PTR); [injection Hsz as ->|rewrite Hsz]; lia. }
  unfold type_data. unfold checked_kind in Hend. cbv zeta in *.
  destruct ((btf_kind t =? BTF_KIND_UNKN) || (btf_kind t =? BTF_KIND_FWD) || (btf_kind t =? BTF_KIND_FUNC) || (btf_kind t =? BTF_KIND_FUNC_PROTO) || (btf_kind t =? BTF_KIND_DECL_TAG)).
  { eexists _, _, _. split; [reflexivity|]. by apply data_inv_bytes, data_inv_bytes, data_inv_bytes. }
  destruct (Z.eqb_spec (btf_kind t) BTF_KIND_INT) as [E|_].
  { destruct (Hend eq_refl) as [Hend1 Hend2]. rewrite E in Hend1, Hend2. change (BTF_KIND_INT =? BTF_KIND_PTR) with false in *. cbv iota in *.
    destruct (bit_sz =? 0); cbn [negb].
    - apply int_data_ok; [done|done|done|lia|exact (type_ok_int b t Hok E)|by apply some_is_Some].
    - apply keep_ok, bitfield_data_ok; try done. lia. }
  destruct (Z.eqb_spec (btf_kind t) BTF_KIND_FLOAT) as [E|_].
  { destruct (Hend eq_refl) as [Hend1 Hend2]. rewrite E in Hend1, Hend2. change (BTF_KIND_FLOAT =? BTF_KIND_PTR) with false in *. cbv iota in *.
    apply andb_true_iff in Hp as [Hal Hmax]. apply Z.leb_le in Hmax. apply some_is_Some in Hal. apply keep_ok, float_data_ok; [done|done|lia|lia|done]. }
  destruct (Z.eqb_spec (btf_kind t) BTF_KIND_PTR) as [E|_].
  { destruct (Hend eq_refl) as [Hend1 Hend2]. apply keep_ok, ptr_data_ok; [done|done|done|lia|by apply some_is_Some]. }
  destruct (Z.eqb_spec (btf_kind t) BTF_KIND_ARRAY) as [E|_].
  { destruct (btf_array_of t) as [a|] eqn:Ha; [|done]. destruct (btf__resolve_size b (a_type a)) as [size|] eqn:Hs; [|done].
    apply andb_true_iff in Hp as [He Hp]. apply some_is_Some in He. apply (array_data_ok d td t a size off); try done. exact (all_below_spec _ _ Hp). }
  destruct ((btf_kind t =? BTF_KIND_STRUCT) || (btf_kind t =? BTF_KIND_UNION)) eqn:Ec.
  { apply andb_true_iff in Hp as [Hne Hp]. apply negb_true_iff, Z.eqb_neq in Hne. apply struct_data_ok; try done. intros j Hj.
    pose proof (all_below_spec _ _ Hp j Hj) as H. cbv beta in H. destruct (btf_member_at t j) as [m|]; [|done]. destruct (btf_member_bit_offset t j) as [bo|]; [|done].
    destruct (btf_member_bitfield_size t j) as [bs|]; [|done]. apply andb_true_iff in H as [H1 H2]. apply Z.leb_le in H1. by exists m, bo, bs. }
  destruct ((btf_kind t =? BTF_KIND_ENUM) || (btf_kind t =? BTF_KIND_ENUM64)) eqn:Ee.
  { cbn [orb] in Hend. destruct (Hend Ee) as [Hend1 Hend2]. destruct (bit_sz =? 0); cbn [negb].
    - apply keep_ok, enum_data_ok; [done|done|exact Ee|done|done|lia].
    - apply andb_true_iff in Hp as [Hb Hal]. apply keep_ok, enum_bitfield_ok; [done|done|done|lia|done|exact Ee|done|done]. }
  destruct (btf_kind t =? BTF_KIND_VAR).
  { apply andb_true_iff in Hp as [[Hl Hc]%andb_true_iff Hp]. apply some_is_Some in Hl. by apply var_data_ok. }
  destruct (btf_kind t =? BTF_KIND_DATASEC); [|by exists d, td, (- EINVAL)]. apply datasec_data_ok; try done. intros j Hj.
  pose proof (all_below_spec _ _ Hp j Hj) as H. cbv beta in H. destruct (bt_word t (3 * j)) as [v|]; [|done]. destruct (bt_word t (3 * j + 1)) as [o|]; [|done].
  apply andb_true_iff in H as [H1 H2]. apply Z.leb_le in H1. by exists v, o.
Qed.
End step.

(** The whole recursion; what it returns is an error or the size. *)
Lemma dump_type_data_ok n : ∀ fuel d td fname id off bits_offset bit_sz, (n ≤ fuel)%nat → data_inv d td → printable n id off bits_offset bit_sz = true →
  0 ≤ off → 0 ≤ bits_offset →
  ∃ d' td' r, btf_dump_dump_type_data mem addr float_text local_addr fuel d td fname id off bits_offset bit_sz = Some (d', td', r) ∧ data_inv d' td' ∧
    (r < 0 ∨ btf__resolve_size b id = Some r).
Proof.
  induction n as [|n IH]; intros fuel d td fname id off bits_offset bit_sz Hn Hi Hp Ho Hb; [done|]. destruct fuel as [|fuel]; [lia|].
  pose proof Hp as Hp'. cbn [printable] in Hp'. apply andb_true_iff in Hp' as [[[Hcast Hs]%andb_true_iff Hzero]%andb_true_iff Hskip]. apply some_is_Some in Hs as [size Hs].
  destruct (skip_mods_and_typedefs b id) as [[id' t]|] eqn:Hsk; [|done]. clear Hskip. rename Hsk into Hskip. cbn [btf_dump_dump_type_data]. rewrite (di_btf _ _ Hi).
  unfold btf_dump_type_data_check_overflow. rewrite Hs. cbn [mbind option_bind].
  destruct (Z.ltb_spec size 0) as [|Hs0]; cbn [orb]; [exists d, td, (- EINVAL); split; [done|]; split; [done|]; by left|].
  destruct (Z.geb_spec size INT_MAX) as [|Hmax]; [exists d, td, (- EINVAL); split; [done|]; split; [done|]; by left|].
  rewrite Hskip. cbn [mbind option_bind]. fold (checked_kind t). rewrite (di_end _ _ Hi).
  destruct (checked_kind t && (off + bits_offset / 8 + size >? Z.of_nat (length mem))) eqn:Eo;
    [exists d, td, (- E2BIG); split; [done|]; split; [done|]; by left|]. cbn [mbind option_bind].
  rewrite (proj2 (Z.ltb_ge size 0) Hs0).
  assert (∃ e, btf_dump_type_data_check_zero mem addr (S fuel) d td id off bits_offset bit_sz = Some e ∧ e ≤ 0) as (e & -> & He).
  { destruct emit_zeroes eqn:Ez; [cbn [btf_dump_type_data_check_zero]; rewrite (di_zeroes _ _ Hi), Ez; by eexists|].
    apply (check_zero_ok (S n)); [done|apply (di_btf _ _ Hi)|by rewrite (di_ptr_sz _ _ Hi)|done]. }
  cbn [mbind option_bind]. destruct (e =? - ENODATA); [exists d, td, size; split; [done|]; split; [done|]; by right|]. destruct (Z.eqb_spec e 0) as [_|]; cbn [negb]; [|exists d, td, e; split; [done|]; split; [done|]; lia].
  destruct (data_names_ok (S n) (S fuel) (btf_dump_data_pfx d td) td fname id Hn) as (d1 & -> & Hi1); [|done|].
  { unfold btf_dump_data_pfx. destruct (td_compact td); [done|by apply data_inv_bytes]. }
  cbn [mbind option_bind]. rewrite (di_btf _ _ Hi1), Hskip. cbn [mbind option_bind].
  destruct (type_data_ok (btf_dump_dump_type_data mem addr float_text local_addr fuel) n) with (fuel := S fuel) (d := d1) (td := td) (t := t) (id := id) (id' := id')
    (off := off) (bits_offset := bits_offset) (bit_sz := bit_sz) as (d2 & td2 & r & -> & Hi2); try done.
  - intros d0 td0 fname0 id0 off0 bo0 bs0 H1 H2 H3 H4. destruct (IH fuel d0 td0 fname0 id0 off0 bo0 bs0 ltac:(lia) H1 H2 H3 H4) as (d2 & td2 & r & ? & ? & _). by exists d2, td2, r.
  - lia.
  - by apply (skip_end b Hwf id id' t).
  - intros Hk. rewrite Hk in Eo. cbn [andb] in Eo. exists size. split; [done|]. split; [done|].
    pose proof (Z.div_pos bits_offset 8 Hb ltac:(lia)). destruct (Z.gtb_spec (off + bits_offset / 8 + size) (Z.of_nat (length mem))); [done|lia].
  - cbn [mbind option_bind]. eexists _, _, _. split; [done|]. split; [done|]. destruct (Z.ltb_spec r 0); [by left|right].
    rewrite swrap_small; [done|lia|]. unfold INT_MAX in Hmax. lia.
Qed.
End bounds.


(** * Examples *)

(** An integer, an array of characters, a struct inside of a struct, a bit-field, an enum
    and a pointer. *)
Definition data_types : list btf_type :=
  let ty k vlen kf name ref rest := mkType name (mk_info k vlen kf) ref rest in
  [ty BTF_KIND_INT 0 false 1 4 [2 ^ 24 + 32];
   ty BTF_KIND_INT 0 false 5 1 [8];
   ty BTF_KIND_ARRAY 0 false 0 0 [2; 1; 4];
   ty BTF_KIND_STRUCT 2 false 10 8 [12; 1; 0; 14; 1; 32];
   ty BTF_KIND_PTR 0 false 0 4 [];
   ty BTF_KIND_STRUCT 6 true 16 40 [12; 1; 0; 14; 3; 32; 18; 4; 64; 20; 1; 5 * 2 ^ 24 + 129; 22; 5; 192; 24; 3; 256];
   ty BTF_KIND_ARRAY 0 false 0 0 [1; 1; 2];
   ty BTF_KIND_ENUM 1 false 26 4 [28; 2 ^ 32 - 1];
   ty BTF_KIND_STRUCT 0 false 30 0 [];
   ty BTF_KIND_STRUCT 2 false 10 5 [12; 2; 0; 14; 8; 8];
   ty BTF_KIND_STRUCT 1 false 10 8 [12; 7; 0];
   ty BTF_KIND_FLOAT 0 false 5 32 []].
Definition data_btf : btf :=
  mkBtf data_types 1 0 (mk_strs [""; "int"; "char"; "p"; "x"; "y"; "s"; "q"; "b"; "r"; "z"; "e"; "M"; "v"]%string) None 8.
Definition data_dump : btf_dump := match btf_dump__new data_btf true true [] with Some (inl d) => d | _ => demo_dump end.
Definition no_floats (sz v : Z) : list Z := [].
Definition compact_opts (emit_zeroes : bool) : dump_type_data_opts := mkOpts None 0 true false emit_zeroes.

Definition print_data (mem : list Z) (id : Z) (o : option dump_type_data_opts) : option (list Z * Z) :=
  '(d, r) ← btf_dump__dump_type_data mem 4096 no_floats 8192 20 data_dump id true o; Some (d_out d, r).

Definition s_data : list Z :=
  le_bytes 4 (-5) ++ [104; 105; 0; 0] ++ le_bytes 4 0 ++ le_bytes 4 7 ++ [0x2a; 1; 2; 3] ++ le_bytes 4 0 ++ le_bytes 8 0xdeadbeef ++ [65; 66; 67; 68] ++ le_bytes 4 0.


(** A struct whose first member is zero is left out, whatever its other members are. *)
Lemma zero_first_member :
  print_data s_data 6 (Some (compact_opts false)) =
  Some (str_bytes "(struct s){.x = (int)-5,.y = (char[4])['h','i',],.b = (int)0x15,.r = (struct p *)0xdeadbeef,.z = (char[4])['A','B','C','D',],}", 40).
Proof. vm_compute. reflexivity. Qed.

(** Once an array of characters has ended with a zero, all later ones are empty. *)
Lemma terminated_for_ever :
  print_data s_data 6 (Some (compact_opts true)) =
  Some (str_bytes "(struct s){.x = (int)-5,.y = (char[4])['h','i',],.q = (struct p){.x = (int)0,.y = (int)7,},.b = (int)0x15,.r = (struct p *)0xdeadbeef,.z = (char[4])[],}", 40).
Proof. vm_compute. reflexivity. Qed.

(** The test for zero of an array inside of a struct reads past the end of the data,
    which only single values are checked against. *)
Lemma zero_check_overrun : print_data (le_bytes 4 0) 11 (Some (compact_opts false)) = None.
Proof. vm_compute. reflexivity. Qed.

(** A struct without members returns an uninitialised variable. *)
Lemma empty_struct_result : btf__resolve_size data_btf 9 = Some 0 ∧ print_data [] 9 (Some (compact_opts true)) = None.
Proof. split; vm_compute; reflexivity. Qed.

(** An enum that is not aligned is read as a bit-field of no bits: a shift by 64. *)
Lemma unaligned_enum_shift : print_data [1; 2; 3; 4; 5] 10 (Some (compact_opts true)) = None.
Proof. vm_compute. reflexivity. Qed.

(** The enumerator of an unsigned enum with the top bit set is not found. *)
Lemma unsigned_enumerator : print_data (le_bytes 4 (2 ^ 32 - 1)) 8 (Some (compact_opts true)) = Some (str_bytes "(enum e)4294967295", 4).
Proof. vm_compute. reflexivity. Qed.

(** Without options their [indent_str] is read from a null pointer. *)
Lemma no_opts : print_data (le_bytes 4 1) 1 None = None.
Proof. vm_compute. reflexivity. Qed.

(** A floating point number of more than sixteen bytes that is not aligned is copied
    beyond the end of a variable. *)
Lemma float_too_long : btf_dump_float_data (replicate 40 0) 4097 no_floats data_dump (mkData 40 true true true 0 [9] 0 false false false)
  (mkType 5 (mk_info BTF_KIND_FLOAT 0 false) 32 []) 12 0 = None.
Proof. vm_compute. reflexivity. Qed.
