(* ===== verification/BtfDedup.v ===== *)
(** Deduplicating BTF (src/libbpf/src/btf.c lines 2887-4641).

    [btf__dedup] finds, for every type, a canonical type that says the same: first the
    strings are interned, then types that refer to none are compared, then structs with
    all that can be reached from them, then the rest; at last the types that are not
    canonical are left out, and ids are renumbered.

    The object is the one of Btf.v: its types in the order of [type_offs], its strings.
    The arrays [map] and [hypot_map] are lists, read and written with a check ([None]).
    [dd_alloc] says, in turn, which allocations succeed.  No .BTF.ext section is given. *)
From stdpp Require Import base list sets.
From Stdlib Require Import ZArith Lia.
From S2P Require Import Prelude Bytes Mem Errno Hashmap Strset Btf BtfRaw BtfMerge BtfDump.

#[local] Open Scope Z_scope.

(** * State *)

Definition BTF_UNPROCESSED_ID : Z := 2 ^ 32 - 1.
Definition BTF_IN_PROGRESS_ID : Z := 2 ^ 32 - 2.

(** The hypothetical mapping; [hypot_cnt] is the length of the list. *)
Record hypot := mkHypot { hy_map : list Z; hy_list : list Z; hy_cap : Z; hy_adjust_canon : bool }.

Record btf_dedup := mkDedup {
  dd_btf : btf; dd_hash_fn : Z → Z; dd_table : hashmap Z Z; dd_map : list Z; dd_hypot : hypot; dd_alloc : list bool;
}.

Definition dd_with_btf (d : btf_dedup) (b : btf) : btf_dedup := mkDedup b (dd_hash_fn d) (dd_table d) (dd_map d) (dd_hypot d) (dd_alloc d).
Definition dd_with_table (d : btf_dedup) (m : hashmap Z Z) : btf_dedup := mkDedup (dd_btf d) (dd_hash_fn d) m (dd_map d) (dd_hypot d) (dd_alloc d).
Definition dd_with_map (d : btf_dedup) (m : list Z) : btf_dedup := mkDedup (dd_btf d) (dd_hash_fn d) (dd_table d) m (dd_hypot d) (dd_alloc d).
Definition dd_with_hypot (d : btf_dedup) (h : hypot) : btf_dedup := mkDedup (dd_btf d) (dd_hash_fn d) (dd_table d) (dd_map d) h (dd_alloc d).
Definition dd_with_alloc (d : btf_dedup) (al : list bool) : btf_dedup := mkDedup (dd_btf d) (dd_hash_fn d) (dd_table d) (dd_map d) (dd_hypot d) al.

Definition pop_alloc (al : list bool) : bool * list bool := match al with [] => (true, []) | ok :: al => (ok, al) end.

Definition aref (l : list Z) (i : Z) : option Z := if 0 <=? i then l !! Z.to_nat i else None.
Definition aset (l : list Z) (i v : Z) : option (list Z) := _ ← aref l i; Some (<[Z.to_nat i := v]> l).

(** [d->map[id] = v] *)
Definition set_map (d : btf_dedup) (id v : Z) : option btf_dedup := m ← aset (dd_map d) id v; Some (dd_with_map d m).

(** [if (err) goto done;] *)
Definition next_pass (r : option (btf_dedup * Z)) (f : btf_dedup → option (btf_dedup * Z)) : option (btf_dedup * Z) :=
  '(d, err) ← r; if negb (err =? 0) then Some (d, err) else f d.

(** * Hashes and comparisons of types *)

(** [long], as it wraps on x86-64. *)
Definition hash_combine (h value : Z) : Z := s64 (h * 31 + value).

Definition btf_hash_common (t : btf_type) : Z :=
  hash_combine (hash_combine (hash_combine 0 (bt_name_off t)) (bt_info t)) (bt_size t).
Definition btf_equal_common (t1 t2 : btf_type) : bool :=
  (bt_name_off t1 =? bt_name_off t2) && (bt_info t1 =? bt_info t2) && (bt_size t1 =? bt_size t2).

Definition btf_hash_int_decl_tag (t : btf_type) : option Z :=
  info ← bt_word t 0; Some (hash_combine (btf_hash_common t) info).
Definition btf_equal_int_tag (t1 t2 : btf_type) : option bool :=
  if negb (btf_equal_common t1 t2) then Some false
  else info1 ← bt_word t1 0; info2 ← bt_word t2 0; Some (info1 =? info2).

(** [info & ~0xffff] *)
Definition info_no_vlen (t : btf_type) : Z := Z.land (bt_info t) 0xffff0000.

Definition btf_hash_enum (t : btf_type) : Z :=
  hash_combine (hash_combine (hash_combine 0 (bt_name_off t)) (info_no_vlen t)) (bt_size t).

(** The loops over the items of two types. *)
Fixpoint all_equal (n : nat) (i : Z) (same : Z → option bool) : option bool :=
  match n with
  | O => Some true
  | S n => e ← same i; if e : bool then all_equal n (i + 1) same else Some false
  end.
Definition items_equal (t : btf_type) (same : Z → option bool) : option bool := all_equal (Z.to_nat (btf_vlen t)) 0 same.

Definition btf_equal_enum (t1 t2 : btf_type) : option bool :=
  if negb (btf_equal_common t1 t2) then Some false
  else items_equal t1 (λ i, m1 ← btf_enum_at t1 i; m2 ← btf_enum_at t2 i;
         Some ((e_name_off m1 =? e_name_off m2) && (e_val m1 =? e_val m2))).
Definition btf_equal_enum64 (t1 t2 : btf_type) : option bool :=
  if negb (btf_equal_common t1 t2) then Some false
  else items_equal t1 (λ i, m1 ← btf_enum64_at t1 i; m2 ← btf_enum64_at t2 i;
         Some ((e64_name_off m1 =? e64_name_off m2) && (e64_val_lo32 m1 =? e64_val_lo32 m2) &&
               (e64_val_hi32 m1 =? e64_val_hi32 m2))).

Definition btf_is_enum_fwd (t : btf_type) : bool := btf_is_any_enum t && (btf_vlen t =? 0).

(** Ignoring [vlen]. *)
Definition equal_no_vlen (t1 t2 : btf_type) : bool :=
  (bt_name_off t1 =? bt_name_off t2) && (info_no_vlen t1 =? info_no_vlen t2) && (bt_size t1 =? bt_size t2).
Definition btf_compat_enum (t1 t2 : btf_type) : option bool :=
  if negb (btf_is_enum_fwd t1) && negb (btf_is_enum_fwd t2) then btf_equal_enum t1 t2 else Some (equal_no_vlen t1 t2).
Definition btf_compat_enum64 (t1 t2 : btf_type) : option bool :=
  if negb (btf_is_enum_fwd t1) && negb (btf_is_enum_fwd t2) then btf_equal_enum64 t1 t2 else Some (equal_no_vlen t1 t2).

(** The loop that hashes two words of every item. *)
Fixpoint hash_items (n : nat) (i : Z) (item : Z → option (Z * Z)) (h : Z) : option Z :=
  match n with
  | O => Some h
  | S n => '(a, b) ← item i; hash_items n (i + 1) item (hash_combine (hash_combine h a) b)
  end.

Definition btf_hash_struct (t : btf_type) : option Z :=
  hash_items (Z.to_nat (btf_vlen t)) 0 (λ i, m ← btf_member_at t i; Some (m_name_off m, m_offset m)) (btf_hash_common t).
Definition btf_shallow_equal_struct (t1 t2 : btf_type) : option bool :=
  if negb (btf_equal_common t1 t2) then Some false
  else items_equal t1 (λ i, m1 ← btf_member_at t1 i; m2 ← btf_member_at t2 i;
         Some ((m_name_off m1 =? m_name_off m2) && (m_offset m1 =? m_offset m2))).

Definition btf_hash_array (t : btf_type) : option Z :=
  a ← btf_array_of t;
  Some (hash_combine (hash_combine (hash_combine (btf_hash_common t) (a_type a)) (a_index_type a)) (a_nelems a)).
Definition btf_equal_array (t1 t2 : btf_type) : option bool :=
  if negb (btf_equal_common t1 t2) then Some false
  else a1 ← btf_array_of t1; a2 ← btf_array_of t2;
       Some ((a_type a1 =? a_type a2) && (a_index_type a1 =? a_index_type a2) && (a_nelems a1 =? a_nelems a2)).
Definition btf_compat_array (t1 t2 : btf_type) : option bool :=
  if negb (btf_equal_common t1 t2) then Some false
  else a1 ← btf_array_of t1; a2 ← btf_array_of t2; Some (a_nelems a1 =? a_nelems a2).

Definition btf_hash_fnproto (t : btf_type) : option Z :=
  hash_items (Z.to_nat (btf_vlen t)) 0 (λ i, p ← btf_param_at t i; Some (p_name_off p, p_type p)) (btf_hash_common t).
Definition btf_equal_fnproto (t1 t2 : btf_type) : option bool :=
  if negb (btf_equal_common t1 t2) then Some false
  else items_equal t1 (λ i, p1 ← btf_param_at t1 i; p2 ← btf_param_at t2 i;
         Some ((p_name_off p1 =? p_name_off p2) && (p_type p1 =? p_type p2))).
Definition btf_compat_fnproto (t1 t2 : btf_type) : option bool :=
  if negb ((bt_name_off t1 =? bt_name_off t2) && (bt_info t1 =? bt_info t2)) then Some false
  else items_equal t1 (λ i, p1 ← btf_param_at t1 i; p2 ← btf_param_at t2 i; Some (p_name_off p1 =? p_name_off p2)).

(** * The table of canonical types *)

Definition btf_dedup_collision_hash_fn (key : Z) : Z := 0.

(** [for_each_dedup_cand]: the ids in the order of the chain. *)
Definition dedup_cands (d : btf_dedup) (hash : Z) : option (list Z) :=
  es ← hashmap_key_entries (dd_hash_fn d) btf_dedup_equal_fn (dd_table d) (u64 hash); Some (map (λ e, u32 e.2) es).

Definition btf_dedup_table_add (d : btf_dedup) (hash type_id : Z) : option (btf_dedup * Z) :=
  let '(a1, al) := pop_alloc (dd_alloc d) in
  let '(a2, al) := pop_alloc al in
  '(m, err, _) ← hashmap__insert (dd_hash_fn d) btf_dedup_equal_fn a1 a2 (dd_table d) (u64 hash) type_id HASHMAP_APPEND;
  Some (dd_with_alloc (dd_with_table d m) al, err).

(** The end of the functions that look for a canonical type. *)
Definition set_canonical (d : btf_dedup) (hash type_id new_id : Z) : option (btf_dedup * Z) :=
  d ← set_map d type_id new_id;
  if type_id =? new_id then
    '(d, err) ← btf_dedup_table_add d hash type_id; Some (d, if negb (err =? 0) then - ENOMEM else 0)
  else Some (d, 0).

(** The first candidate that is equal, or the type itself. *)
Fixpoint equal_cand (b : btf) (equal : btf_type → btf_type → option bool) (t : btf_type) (type_id : Z) (cands : list Z) : option Z :=
  match cands with
  | [] => Some type_id
  | cand_id :: cands =>
      cand ← btf_type_by_id b cand_id;
      e ← equal t cand;
      if e : bool then Some cand_id else equal_cand b equal t type_id cands
  end.

(** * Creation and preparation *)

Definition btf_is_datasec (t : btf_type) : bool := btf_kind t =? BTF_KIND_DATASEC.

Record dedup_opts := mkDedupOpts { force_collisions : bool }.

Definition initial_map (b : btf) : option (list Z) :=
  l ← mapM (λ i, t ← btf_type_by_id b (Z.of_nat i);
                 Some (if btf_is_var t || btf_is_datasec t then Z.of_nat i else BTF_UNPROCESSED_ID))
           (seq 1 (Z.to_nat (btf__type_cnt b) - 1));
  Some (0 :: l).

(** [Some (inr err)] is [ERR_PTR(err)]. *)
Definition btf_dedup_new (b : btf) (opts : option dedup_opts) (alloc : list bool) : option (btf_dedup + Z) :=
  let '(a1, al) := pop_alloc alloc in
  let hash_fn := if default false (force_collisions <$> opts) then btf_dedup_collision_hash_fn else btf_dedup_identity_hash_fn in
  if negb a1 then Some (inr (- ENOMEM))
  else
    let '(a2, al) := pop_alloc al in
    match hashmap__new a2 with
    | None => Some (inr (- ENOMEM))
    | Some table =>
        let '(a3, al) := pop_alloc al in
        if negb a3 then Some (inr (- ENOMEM))
        else
          map ← initial_map b;
          let '(a4, al) := pop_alloc al in
          if negb a4 then Some (inr (- ENOMEM))
          else
            let hypot_map := replicate (Z.to_nat (btf__type_cnt b)) BTF_UNPROCESSED_ID in
            Some (inl (mkDedup b hash_fn table map (mkHypot hypot_map [] 0 false) al))
    end.

(** What [btf_dedup_prep] does with a type: its hash, nothing, or an error. *)
Inductive prep_type := PrepHash (h : Z) | PrepSkip | PrepUnknown.

Definition prep_hash (t : btf_type) : option prep_type :=
  let k := btf_kind t in
  if (k =? BTF_KIND_VAR) || (k =? BTF_KIND_DATASEC) then Some PrepSkip
  else if (k =? BTF_KIND_CONST) || (k =? BTF_KIND_VOLATILE) || (k =? BTF_KIND_RESTRICT) || (k =? BTF_KIND_PTR) ||
          (k =? BTF_KIND_FWD) || (k =? BTF_KIND_TYPEDEF) || (k =? BTF_KIND_FUNC) || (k =? BTF_KIND_FLOAT) ||
          (k =? BTF_KIND_TYPE_TAG) then Some (PrepHash (btf_hash_common t))
  else if (k =? BTF_KIND_INT) || (k =? BTF_KIND_DECL_TAG) then PrepHash <$> btf_hash_int_decl_tag t
  else if (k =? BTF_KIND_ENUM) || (k =? BTF_KIND_ENUM64) then Some (PrepHash (btf_hash_enum t))
  else if (k =? BTF_KIND_STRUCT) || (k =? BTF_KIND_UNION) then PrepHash <$> btf_hash_struct t
  else if k =? BTF_KIND_ARRAY then PrepHash <$> btf_hash_array t
  else if k =? BTF_KIND_FUNC_PROTO then PrepHash <$> btf_hash_fnproto t
  else Some PrepUnknown.

Fixpoint prep_types (n : nat) (type_id : Z) (d : btf_dedup) : option (btf_dedup * Z) :=
  match n with
  | O => Some (d, 0)
  | S n =>
      t ← btf_type_by_id (dd_btf d) type_id;
      d ← set_map d type_id type_id;
      p ← prep_hash t;
      match p with
      | PrepSkip => prep_types n (type_id + 1) d
      | PrepUnknown => Some (d, - EINVAL)
      | PrepHash h =>
          '(d, err) ← btf_dedup_table_add d h type_id;
          if negb (err =? 0) then Some (d, - ENOMEM) else prep_types n (type_id + 1) d
      end
  end.

Definition btf_dedup_prep (d : btf_dedup) : option (btf_dedup * Z) :=
  match b_base (dd_btf d) with
  | None => Some (d, 0)
  | Some _ => prep_types (Z.to_nat (b_start_id (dd_btf d) - 1)) 1 d
  end.

(** * Visiting the words of a type *)

(** The type with another word at position [p] of [type_words]. *)
Definition set_word (p : nat) (w : Z) (t : btf_type) : btf_type :=
  match <[p := w]> (type_words t) with n :: i :: s :: rest => mkType n i s rest | _ => t end.

Section visit.
Context {S : Type} (visit : S → Z → option (S * Z * Z)).

(** [visit] gives the new state, the new word and an error, for each word in turn. *)
Fixpoint visit_words (ps : list nat) (s : S) (t : btf_type) : option (S * btf_type * Z) :=
  match ps with
  | [] => Some (s, t, 0)
  | p :: ps =>
      w ← type_words t !! p;
      '(s, w, err) ← visit s w;
      if negb (err =? 0) then Some (s, t, err) else visit_words ps s (set_word p w t)
  end.

(** [btf_type_visit_str_offs] and [btf_type_visit_type_ids]; [str_pos] and [id_pos] are
    the positions that they visit. *)
Definition visit_str_offs (s : S) (t : btf_type) : option (S * btf_type * Z) := visit_words (str_pos t) s t.
Definition visit_type_ids (s : S) (t : btf_type) : option (S * btf_type * Z) :=
  if decide (btf_kind t ∈ all_kinds) then visit_words (id_pos t) s t else Some (s, t, - EINVAL).

(** All types of an object, until there is an error. *)
Fixpoint visit_types (visit_type : S → btf_type → option (S * btf_type * Z)) (s : S) (ts : list btf_type)
    : option (S * list btf_type * Z) :=
  match ts with
  | [] => Some (s, [], 0)
  | t :: ts =>
      '(s, t, err) ← visit_type s t;
      if negb (err =? 0) then Some (s, t :: ts, err)
      else '(s, ts, err) ← visit_types visit_type s ts; Some (s, t :: ts, err)
  end.
End visit.

Definition b_with_types (b : btf) (ts : list btf_type) : btf :=
  mkBtf ts (b_start_id b) (b_start_str_off b) (b_strs b) (b_base b) (b_ptr_sz b).
Definition b_with_strs (b : btf) (strs : list Z) : btf :=
  mkBtf (b_types b) (b_start_id b) (b_start_str_off b) strs (b_base b) (b_ptr_sz b).

(** * Strings *)

(** [btf__find_str] for an object whose strings are indexed now. *)
Definition find_own_str_in (b : btf) (s : list Z) : option Z :=
  r ← strset__new (true, true, true) [] BTF_MAX_STR_OFFSET (Some (b_strs b));
  match r with
  | inr err => Some err
  | inl set => '(_, off) ← strset__find_str true set s; Some (if off <? 0 then off else s32 (b_start_str_off b + off))
  end.
Fixpoint find_str_in (b : btf) (s : list Z) : option Z :=
  match b_base b with
  | None => find_own_str_in b s
  | Some base => off ← find_str_in base s; if negb (off =? - ENOENT) then Some off else find_own_str_in b s
  end.

(** The state is the new set and the allocations to come. *)
Definition strs_dedup_remap_str_off (b : btf) (st : strset * list bool) (str_off : Z) : option (strset * list bool * Z * Z) :=
  if (str_off =? 0) || (str_off <? b_start_str_off b) then Some (st, str_off, 0)
  else
    s ← btf__str_by_offset b str_off;
    found ← (match b_base b with None => Some (- ENOENT) | Some base => find_str_in base s end);
    if found >=? 0 then Some (st, found, 0)
    else if negb (found =? - ENOENT) then Some (st, str_off, found)
    else
      let '(set, al) := st in
      let '(a1, al) := pop_alloc al in
      let '(a2, al) := pop_alloc al in
      let '(a3, al) := pop_alloc al in
      '(set, off) ← strset__add_str (a1, a2, a3) set s;
      Some (set, al, if off <? 0 then str_off else u32 (b_start_str_off b + off), if off <? 0 then off else 0).

(** [strs_deduped] is the field of the object. *)
Definition btf_dedup_strings (strs_deduped : bool) (d : btf_dedup) : option (btf_dedup * Z) :=
  if strs_deduped then Some (d, 0)
  else
    let '(a1, al) := pop_alloc (dd_alloc d) in
    let '(a2, al) := pop_alloc al in
    r ← strset__new (a1, a2, true) [] BTF_MAX_STR_OFFSET None;
    match r with
    | inr err => Some (dd_with_alloc d al, err)
    | inl set =>
        let b := dd_btf d in
        '(set, al, err) ← (match b_base b with
                           | Some _ => Some (set, al, 0)
                           | None =>
                               let '(a1, al) := pop_alloc al in
                               let '(a2, al) := pop_alloc al in
                               let '(a3, al) := pop_alloc al in
                               '(set, off) ← strset__add_str (a1, a2, a3) set [];
                               Some (set, al, if off <? 0 then off else 0)
                           end);
        if negb (err =? 0) then Some (dd_with_alloc d al, err)
        else
          '(set, al, ts, err) ← visit_types (visit_str_offs (strs_dedup_remap_str_off b)) (set, al) (b_types b);
          let d := dd_with_alloc (dd_with_btf d (b_with_types b ts)) al in
          if negb (err =? 0) then Some (d, err)
          else
            let strs := take (Z.to_nat (strset__data_size set)) (strset__data set) in
            Some (dd_with_btf d (b_with_strs (dd_btf d) strs), 0)
    end.

(** * Primitive types *)

(** The loop for enums; a forward declaration that was canonical is resolved on the way. *)
Fixpoint enum_cands (equal compat : btf_type → btf_type → option bool) (d : btf_dedup) (t : btf_type) (type_id : Z)
    (cands : list Z) : option (btf_dedup * Z) :=
  match cands with
  | [] => Some (d, type_id)
  | cand_id :: cands =>
      cand ← btf_type_by_id (dd_btf d) cand_id;
      e ← equal t cand;
      if e : bool then Some (d, cand_id)
      else
        c ← compat t cand;
        if c : bool then
          if btf_is_enum_fwd t then Some (d, cand_id)
          else d ← set_map d cand_id type_id; enum_cands equal compat d t type_id cands
        else enum_cands equal compat d t type_id cands
  end.

Definition btf_dedup_prim_type (d : btf_dedup) (type_id : Z) : option (btf_dedup * Z) :=
  t ← btf_type_by_id (dd_btf d) type_id;
  let k := btf_kind t in
  if (k =? BTF_KIND_CONST) || (k =? BTF_KIND_VOLATILE) || (k =? BTF_KIND_RESTRICT) || (k =? BTF_KIND_PTR) ||
     (k =? BTF_KIND_TYPEDEF) || (k =? BTF_KIND_ARRAY) || (k =? BTF_KIND_STRUCT) || (k =? BTF_KIND_UNION) ||
     (k =? BTF_KIND_FUNC) || (k =? BTF_KIND_FUNC_PROTO) || (k =? BTF_KIND_VAR) || (k =? BTF_KIND_DATASEC) ||
     (k =? BTF_KIND_DECL_TAG) || (k =? BTF_KIND_TYPE_TAG) then Some (d, 0)
  else if k =? BTF_KIND_INT then
    h ← btf_hash_int_decl_tag t;
    cands ← dedup_cands d h;
    new_id ← equal_cand (dd_btf d) btf_equal_int_tag t type_id cands;
    set_canonical d h type_id new_id
  else if k =? BTF_KIND_ENUM then
    let h := btf_hash_enum t in
    cands ← dedup_cands d h;
    '(d, new_id) ← enum_cands btf_equal_enum btf_compat_enum d t type_id cands;
    set_canonical d h type_id new_id
  else if k =? BTF_KIND_ENUM64 then
    let h := btf_hash_enum t in
    cands ← dedup_cands d h;
    '(d, new_id) ← enum_cands btf_equal_enum64 btf_compat_enum64 d t type_id cands;
    set_canonical d h type_id new_id
  else if (k =? BTF_KIND_FWD) || (k =? BTF_KIND_FLOAT) then
    let h := btf_hash_common t in
    cands ← dedup_cands d h;
    new_id ← equal_cand (dd_btf d) (λ t1 t2, Some (btf_equal_common t1 t2)) t type_id cands;
    set_canonical d h type_id new_id
  else Some (d, - EINVAL).

(** A pass over the types of the object: [f] for each id until one fails. *)
Fixpoint each_type (f : btf_dedup → Z → option (btf_dedup * Z)) (n : nat) (id : Z) (d : btf_dedup) : option (btf_dedup * Z) :=
  match n with
  | O => Some (d, 0)
  | S n => '(d, err) ← f d id; if negb (err =? 0) then Some (d, err) else each_type f n (id + 1) d
  end.
Definition own_types (f : btf_dedup → Z → option (btf_dedup * Z)) (d : btf_dedup) : option (btf_dedup * Z) :=
  each_type f (length (b_types (dd_btf d))) (b_start_id (dd_btf d)) d.

Definition btf_dedup_prim_types : btf_dedup → option (btf_dedup * Z) := own_types btf_dedup_prim_type.

(** * Resolving ids *)

Definition id_mapped (v : Z) : bool := v <=? BTF_MAX_NR_TYPES.
Definition is_type_mapped (d : btf_dedup) (type_id : Z) : option bool := id_mapped <$> aref (dd_map d) type_id.

(** Chains of mapped ids are followed; every id is on a chain once, so the length of the
    map is fuel enough. *)
Fixpoint resolve_loop (fuel : nat) (map : list Z) (type_id : Z) : option Z :=
  match fuel with
  | O => None
  | S fuel =>
      m ← aref map type_id;
      if id_mapped m && negb (m =? type_id) then resolve_loop fuel map m else Some type_id
  end.
Definition resolve_type_id (d : btf_dedup) (type_id : Z) : option Z := resolve_loop (S (length (dd_map d))) (dd_map d) type_id.

Definition resolve_fwd_id (d : btf_dedup) (type_id : Z) : option Z :=
  t ← btf__type_by_id (dd_btf d) type_id;
  if negb (btf_is_fwd t) then Some type_id
  else
    id ← resolve_type_id d type_id;
    t ← btf__type_by_id (dd_btf d) id;
    Some (if negb (btf_is_fwd t) then id else type_id).

Definition btf_fwd_kind (t : btf_type) : Z := if btf_kflag t then BTF_KIND_UNION else BTF_KIND_STRUCT.

(** * Equivalence of type graphs *)

Definition btf_dedup_identical_arrays (d : btf_dedup) (id1 id2 : Z) : option bool :=
  t1 ← btf_type_by_id (dd_btf d) id1;
  t2 ← btf_type_by_id (dd_btf d) id2;
  if negb (btf_is_array t1) || negb (btf_is_array t2) then Some false else btf_equal_array t1 t2.

Definition btf_dedup_identical_structs (d : btf_dedup) (id1 id2 : Z) : option bool :=
  t1 ← btf_type_by_id (dd_btf d) id1;
  t2 ← btf_type_by_id (dd_btf d) id2;
  if negb (btf_is_composite t1) || negb (btf_kind t1 =? btf_kind t2) then Some false
  else
    e ← btf_shallow_equal_struct t1 t2;
    if negb e then Some false
    else items_equal t1 (λ i, m1 ← btf_member_at t1 i; m2 ← btf_member_at t2 i; Some (m_type m1 =? m_type m2)).

(** The list is moved when it is full. *)
Definition btf_dedup_hypot_map_add (d : btf_dedup) (from_id to_id : Z) : option (btf_dedup * Z) :=
  let h := dd_hypot d in
  let full := Z.of_nat (length (hy_list h)) =? hy_cap h in
  let cap := if full then u64 (hy_cap h + Z.max 16 (hy_cap h / 2)) else hy_cap h in
  let '(ok, al) := if full then pop_alloc (dd_alloc d) else (true, dd_alloc d) in
  let d := dd_with_alloc d al in
  if full && negb (bool_decide (is_Some (libbpf_reallocarray ok cap 4))) then
    Some (dd_with_hypot d (mkHypot (hy_map h) (hy_list h) cap (hy_adjust_canon h)), - ENOMEM)
  else
    m ← aset (hy_map h) from_id to_id;
    Some (dd_with_hypot d (mkHypot m (hy_list h ++ [from_id]) cap (hy_adjust_canon h)), 0).

Definition btf_dedup_clear_hypot_map (d : btf_dedup) : option btf_dedup :=
  let h := dd_hypot d in
  m ← foldM (λ m id, aset m id BTF_UNPROCESSED_ID) (hy_map h) (hy_list h);
  Some (dd_with_hypot d (mkHypot m [] (hy_cap h) false)).

Definition set_adjust_canon (d : btf_dedup) : btf_dedup :=
  let h := dd_hypot d in dd_with_hypot d (mkHypot (hy_map h) (hy_list h) (hy_cap h) true).

(** A forward declaration and another kind. *)
Definition fwd_equiv (d : btf_dedup) (cand_type canon_type : btf_type) (canon_id : Z) : btf_dedup * Z :=
  let cand_kind := btf_kind cand_type in
  let canon_kind := btf_kind canon_type in
  if cand_kind =? BTF_KIND_FWD then (d, if btf_fwd_kind cand_type =? canon_kind then 1 else 0)
  else
    let same := btf_fwd_kind canon_type =? cand_kind in
    (if same && (canon_id <? b_start_id (dd_btf d)) then set_adjust_canon d else d, if same then 1 else 0).

Definition bool_eq (e : bool) : Z := if e then 1 else 0.

Section equiv.
Context (is_equiv : btf_dedup → Z → Z → option (btf_dedup * Z)).

(** The loops over the items of two types. *)
Fixpoint equiv_items (n : nat) (i : Z) (ids : Z → option (Z * Z)) (d : btf_dedup) : option (btf_dedup * Z) :=
  match n with
  | O => Some (d, 1)
  | S n =>
      '(cand, canon) ← ids i;
      '(d, eq) ← is_equiv d cand canon;
      if eq <=? 0 then Some (d, eq) else equiv_items n (i + 1) ids d
  end.

(** The [switch]: the types are of the same kind. *)
Definition equiv_types (d : btf_dedup) (cand_type canon_type : btf_type) : option (btf_dedup * Z) :=
  let k := btf_kind cand_type in
  let n := Z.to_nat (btf_vlen cand_type) in
  if k =? BTF_KIND_INT then e ← btf_equal_int_tag cand_type canon_type; Some (d, bool_eq e)
  else if k =? BTF_KIND_ENUM then e ← btf_compat_enum cand_type canon_type; Some (d, bool_eq e)
  else if k =? BTF_KIND_ENUM64 then e ← btf_compat_enum64 cand_type canon_type; Some (d, bool_eq e)
  else if (k =? BTF_KIND_FWD) || (k =? BTF_KIND_FLOAT) then Some (d, bool_eq (btf_equal_common cand_type canon_type))
  else if (k =? BTF_KIND_CONST) || (k =? BTF_KIND_VOLATILE) || (k =? BTF_KIND_RESTRICT) || (k =? BTF_KIND_PTR) ||
          (k =? BTF_KIND_TYPEDEF) || (k =? BTF_KIND_FUNC) || (k =? BTF_KIND_TYPE_TAG) then
    if negb (bt_info cand_type =? bt_info canon_type) then Some (d, 0)
    else is_equiv d (bt_type cand_type) (bt_type canon_type)
  else if k =? BTF_KIND_ARRAY then
    e ← btf_compat_array cand_type canon_type;
    if negb e then Some (d, 0)
    else
      cand_arr ← btf_array_of cand_type;
      canon_arr ← btf_array_of canon_type;
      '(d, eq) ← is_equiv d (a_index_type cand_arr) (a_index_type canon_arr);
      if eq <=? 0 then Some (d, eq) else is_equiv d (a_type cand_arr) (a_type canon_arr)
  else if (k =? BTF_KIND_STRUCT) || (k =? BTF_KIND_UNION) then
    e ← btf_shallow_equal_struct cand_type canon_type;
    if negb e then Some (d, 0)
    else equiv_items n 0 (λ i, m1 ← btf_member_at cand_type i; m2 ← btf_member_at canon_type i; Some (m_type m1, m_type m2)) d
  else if k =? BTF_KIND_FUNC_PROTO then
    e ← btf_compat_fnproto cand_type canon_type;
    if negb e then Some (d, 0)
    else
      '(d, eq) ← is_equiv d (bt_type cand_type) (bt_type canon_type);
      if eq <=? 0 then Some (d, eq)
      else equiv_items n 0 (λ i, p1 ← btf_param_at cand_type i; p2 ← btf_param_at canon_type i; Some (p_type p1, p_type p2)) d
  else Some (d, - EINVAL).
End equiv.

(** Positive: equivalent.  Every nested call has put an entry into the hypothetical map,
    which was not there, so its length bounds the depth. *)
Fixpoint btf_dedup_is_equiv_from (fuel : nat) (d : btf_dedup) (cand_id canon_id : Z) : option (btf_dedup * Z) :=
  match fuel with
  | O => None
  | S fuel =>
      cand_root ← resolve_type_id d cand_id;
      canon_root ← resolve_type_id d canon_id;
      if cand_root =? canon_root then Some (d, 1)
      else
        canon_id ← resolve_fwd_id d canon_id;
        hypot_type_id ← aref (hy_map (dd_hypot d)) canon_id;
        if id_mapped hypot_type_id then
          if hypot_type_id =? cand_id then Some (d, 1)
          else
            e ← btf_dedup_identical_arrays d hypot_type_id cand_id;
            if e : bool then Some (d, 1)
            else e ← btf_dedup_identical_structs d hypot_type_id cand_id; Some (d, bool_eq e)
        else
          '(d, err) ← btf_dedup_hypot_map_add d canon_id cand_id;
          if negb (err =? 0) then Some (d, - ENOMEM)
          else
            cand_type ← btf_type_by_id (dd_btf d) cand_id;
            canon_type ← btf_type_by_id (dd_btf d) canon_id;
            let cand_kind := btf_kind cand_type in
            let canon_kind := btf_kind canon_type in
            if negb (bt_name_off cand_type =? bt_name_off canon_type) then Some (d, 0)
            else if ((cand_kind =? BTF_KIND_FWD) || (canon_kind =? BTF_KIND_FWD)) && negb (cand_kind =? canon_kind) then
              Some (fwd_equiv d cand_type canon_type canon_id)
            else if negb (cand_kind =? canon_kind) then Some (d, 0)
            else equiv_types (btf_dedup_is_equiv_from fuel) d cand_type canon_type
  end.

Definition btf_dedup_is_equiv (d : btf_dedup) (cand_id canon_id : Z) : option (btf_dedup * Z) :=
  btf_dedup_is_equiv_from (S (length (dd_map d))) d cand_id canon_id.

(** The step of [btf_dedup_merge_hypot_map] for an id of the list. *)
Definition merge_one (d : btf_dedup) (canon_type_id : Z) : option btf_dedup :=
  targ_type_id ← aref (hy_map (dd_hypot d)) canon_type_id;
  t_id ← resolve_type_id d targ_type_id;
  c_id ← resolve_type_id d canon_type_id;
  t ← btf__type_by_id (dd_btf d) t_id;
  c ← btf__type_by_id (dd_btf d) c_id;
  d ← (if negb (btf_is_fwd t) && btf_is_fwd c then set_map d c_id t_id else Some d);
  if hy_adjust_canon (dd_hypot d) then Some d
  else
    d ← (if btf_is_fwd t && negb (btf_is_fwd c) then set_map d t_id c_id else Some d);
    if btf_is_composite t && negb (btf_is_fwd c) then
      c_mapped ← is_type_mapped d c_id;
      t_mapped ← is_type_mapped d t_id;
      if c_mapped && negb t_mapped then set_map d t_id c_id else Some d
    else Some d.

Definition btf_dedup_merge_hypot_map (d : btf_dedup) : option btf_dedup := foldM merge_one d (hy_list (dd_hypot d)).

(** * Structs *)

(** The loop over the candidates; [inl] is the new id, [inr] an error. *)
Fixpoint struct_cands (d : btf_dedup) (t : btf_type) (type_id : Z) (cands : list Z) : option (btf_dedup * (Z + Z)) :=
  match cands with
  | [] => Some (d, inl type_id)
  | cand_id :: cands =>
      cand_type ← btf_type_by_id (dd_btf d) cand_id;
      e ← btf_shallow_equal_struct t cand_type;
      if negb e then struct_cands d t type_id cands
      else
        d ← btf_dedup_clear_hypot_map d;
        '(d, eq) ← btf_dedup_is_equiv d type_id cand_id;
        if eq <? 0 then Some (d, inr eq)
        else if eq =? 0 then struct_cands d t type_id cands
        else
          d ← btf_dedup_merge_hypot_map d;
          if hy_adjust_canon (dd_hypot d) then struct_cands d t type_id cands else Some (d, inl cand_id)
  end.

Definition btf_dedup_struct_type (d : btf_dedup) (type_id : Z) : option (btf_dedup * Z) :=
  mapped ← is_type_mapped d type_id;
  if mapped : bool then Some (d, 0)
  else
    t ← btf_type_by_id (dd_btf d) type_id;
    if negb (btf_is_composite t) then Some (d, 0)
    else
      h ← btf_hash_struct t;
      cands ← dedup_cands d h;
      '(d, r) ← struct_cands d t type_id cands;
      match r with inr err => Some (d, err) | inl new_id => set_canonical d h type_id new_id end.

Definition btf_dedup_struct_types : btf_dedup → option (btf_dedup * Z) := own_types btf_dedup_struct_type.

(** * Reference types *)

(** Writing a word of a type of the object itself. *)
Definition put_type_word (d : btf_dedup) (type_id : Z) (p : nat) (w : Z) : option btf_dedup :=
  let b := dd_btf d in
  if type_id <? b_start_id b then None
  else
    t ← b_types b !! Z.to_nat (type_id - b_start_id b);
    Some (dd_with_btf d (b_with_types b (<[Z.to_nat (type_id - b_start_id b) := set_word p w t]> (b_types b)))).

Section ref.
Context (ref_type : btf_dedup → Z → option (btf_dedup * Z)).

(** [ref_type_id = btf_dedup_ref_type(d, w); if (ref_type_id < 0) return ref_type_id;
    w = ref_type_id;] for the words [w] at given positions of a type. *)
Fixpoint dedup_ref_words (d : btf_dedup) (type_id : Z) (ps : list nat) : option (btf_dedup * Z) :=
  match ps with
  | [] => Some (d, 0)
  | p :: ps =>
      t ← btf_type_by_id (dd_btf d) type_id;
      w ← type_words t !! p;
      '(d, ref_type_id) ← ref_type d w;
      if ref_type_id <? 0 then Some (d, ref_type_id)
      else d ← put_type_word d type_id p ref_type_id; dedup_ref_words d type_id ps
  end.
End ref.

(** The words that are resolved, the hash and the comparison of a kind. *)
Definition ref_kind_ops (t : btf_type) : option (list nat * (btf_type → option Z) * (btf_type → btf_type → option bool)) :=
  let k := btf_kind t in
  if (k =? BTF_KIND_CONST) || (k =? BTF_KIND_VOLATILE) || (k =? BTF_KIND_RESTRICT) || (k =? BTF_KIND_PTR) ||
     (k =? BTF_KIND_TYPEDEF) || (k =? BTF_KIND_FUNC) || (k =? BTF_KIND_TYPE_TAG) then
    Some ([2%nat], λ t, Some (btf_hash_common t), λ t1 t2, Some (btf_equal_common t1 t2))
  else if k =? BTF_KIND_DECL_TAG then Some ([2%nat], btf_hash_int_decl_tag, btf_equal_int_tag)
  else if k =? BTF_KIND_ARRAY then Some ([3%nat; 4%nat], btf_hash_array, btf_equal_array)
  else if k =? BTF_KIND_FUNC_PROTO then
    Some (2%nat :: each_pos (Z.to_nat (btf_vlen t)) 2 4, btf_hash_fnproto, btf_equal_fnproto)
  else None.

(** The id, or an error.  A nested call has marked its type as in progress, so the
    length of the map bounds the depth. *)
Fixpoint btf_dedup_ref_type_from (fuel : nat) (d : btf_dedup) (type_id : Z) : option (btf_dedup * Z) :=
  match fuel with
  | O => None
  | S fuel =>
      m ← aref (dd_map d) type_id;
      if m =? BTF_IN_PROGRESS_ID then Some (d, - ELOOP)
      else if id_mapped m then id ← resolve_type_id d type_id; Some (d, s32 id)
      else
        t ← btf_type_by_id (dd_btf d) type_id;
        d ← set_map d type_id BTF_IN_PROGRESS_ID;
        match ref_kind_ops t with
        | None => Some (d, - EINVAL)
        | Some (ps, hash, equal) =>
            '(d, err) ← dedup_ref_words (btf_dedup_ref_type_from fuel) d type_id ps;
            if err <? 0 then Some (d, err)
            else
              t ← btf_type_by_id (dd_btf d) type_id;
              h ← hash t;
              cands ← dedup_cands d h;
              new_id ← equal_cand (dd_btf d) equal t type_id cands;
              '(d, err) ← set_canonical d h type_id new_id;
              Some (d, if negb (err =? 0) then err else s32 new_id)
        end
  end.

Definition btf_dedup_ref_type (d : btf_dedup) (type_id : Z) : option (btf_dedup * Z) :=
  btf_dedup_ref_type_from (S (S (length (dd_map d)))) d type_id.

(** The table is not needed any more. *)
Definition btf_dedup_ref_types (d : btf_dedup) : option (btf_dedup * Z) :=
  '(d, err) ← own_types (λ d id, '(d, err) ← btf_dedup_ref_type d id; Some (d, if err <? 0 then err else 0)) d;
  if err <? 0 then Some (d, err) else Some (dd_with_table d (hashmap__clear (dd_table d)), 0).

(** * Compaction and renumbering *)

(** The loop over the types: [i] is the index of the next one, [next] of where the next
    canonical one goes.  Types are moved down in place. *)
Fixpoint compact_loop (n : nat) (i next : Z) (d : btf_dedup) : option (btf_dedup * Z * Z) :=
  match n with
  | O => Some (d, next, 0)
  | S n =>
      let b := dd_btf d in
      let id := b_start_id b + i in
      m ← aref (dd_map d) id;
      if negb (m =? id) then compact_loop n (i + 1) next d
      else
        t ← btf__type_by_id b id;
        let len := btf_type_size t in
        if len <? 0 then Some (d, next, len)
        else
          let h := dd_hypot d in
          hm ← aset (hy_map h) id (b_start_id b + next);
          let d := dd_with_hypot d (mkHypot hm (hy_list h) (hy_cap h) (hy_adjust_canon h)) in
          let d := dd_with_btf d (b_with_types b (<[Z.to_nat next := t]> (b_types b))) in
          compact_loop n (i + 1) (next + 1) d
  end.

Definition btf_dedup_compact_types (d : btf_dedup) : option (btf_dedup * Z) :=
  let b := dd_btf d in
  let h := dd_hypot d in
  let hm := 0 :: map Z.of_nat (seq 1 (Z.to_nat (b_start_id b) - 1)) ++ replicate (length (b_types b)) BTF_UNPROCESSED_ID in
  let d := dd_with_hypot d (mkHypot hm (hy_list h) (hy_cap h) (hy_adjust_canon h)) in
  '(d, next, err) ← compact_loop (length (b_types b)) 0 0 d;
  if negb (err =? 0) then Some (d, err)
  else
    let d := dd_with_btf d (b_with_types (dd_btf d) (take (Z.to_nat next) (b_types (dd_btf d)))) in
    let '(ok, al) := pop_alloc (dd_alloc d) in
    let d := dd_with_alloc d al in
    Some (d, if negb (next =? 0) && negb ok then - ENOMEM else 0).

Definition btf_dedup_remap_type_id (d : btf_dedup) (type_id : Z) : option (btf_dedup * Z * Z) :=
  resolved_type_id ← resolve_type_id d type_id;
  new_type_id ← aref (hy_map (dd_hypot d)) resolved_type_id;
  Some (if new_type_id >? BTF_MAX_NR_TYPES then (d, type_id, - EINVAL) else (d, new_type_id, 0)).

Definition btf_dedup_remap_types (d : btf_dedup) : option (btf_dedup * Z) :=
  '(d', ts, r) ← visit_types (visit_type_ids btf_dedup_remap_type_id) d (b_types (dd_btf d));
  Some (dd_with_btf d' (b_with_types (dd_btf d') ts), r).

(** * The whole *)

(** [opts_valid] is [OPTS_VALID(opts, ...)], [modifiable_ok] whether the object could be
    made modifiable. *)
Definition btf__dedup (b : btf) (strs_deduped opts_valid : bool) (opts : option dedup_opts) (modifiable_ok : bool)
    (alloc : list bool) : option (btf * Z) :=
  if negb opts_valid then Some (b, - EINVAL)
  else
    d ← btf_dedup_new b opts alloc;
    match d with
    | inr _ => Some (b, - EINVAL)
    | inl d =>
        if negb modifiable_ok then Some (b, - ENOMEM)
        else
          '(d, err) ← next_pass (next_pass (next_pass (next_pass (next_pass (next_pass
                        (btf_dedup_prep d) (btf_dedup_strings strs_deduped)) btf_dedup_prim_types)
                        btf_dedup_struct_types) btf_dedup_ref_types) btf_dedup_compact_types) btf_dedup_remap_types;
          Some (dd_btf d, err)
    end.
