(* ===== verification/BtfSame.v ===== *)
(** When types of BTF say the same: two types agree but for the ids they refer with, or
    one of them is a forward declaration of the other; types are the same when they agree
    and, coinductively, the types that they refer to are the same.  A definition is a type
    that is no forward declaration.

    The theorems of BtfDedupEq.v and BtfDedupOk.v about deduplication are stated with this
    relation, within an object and between two of them. *)
From stdpp Require Import base list sets.
From Stdlib Require Import ZArith Lia.
From S2P Require Import Prelude Bytes Mem Errno Btf BtfRaw BtfFile BtfMerge BtfDedup.

#[local] Open Scope Z_scope.

(** * Types that agree *)

(** [N] relates the words that are names, [R] those that are ids. *)
Definition shape (N R : Z → Z → Prop) (t1 t2 : btf_type) : Prop :=
  bt_info t1 = bt_info t2 ∧ length (bt_rest t1) = length (bt_rest t2) ∧
  ∀ p w1 w2, type_words t1 !! p = Some w1 → type_words t2 !! p = Some w2 →
    if decide (p ∈ str_pos t1) then N w1 w2 else if decide (p ∈ id_pos t1) then R w1 w2 else w1 = w2.

(** What a forward declaration, a struct or a union is the declaration of. *)
Definition tag_kind (t : btf_type) : option Z :=
  if btf_is_fwd t then Some (btf_fwd_kind t) else if btf_is_composite t then Some (btf_kind t) else None.

(** Declarations of the same struct, union or enum. *)
Definition tagged (N : Z → Z → Prop) (t1 t2 : btf_type) : Prop :=
  N (bt_name_off t1) (bt_name_off t2) ∧
  ((is_Some (tag_kind t1) ∧ tag_kind t1 = tag_kind t2) ∨
   (btf_is_any_enum t1 = true ∧ info_no_vlen t1 = info_no_vlen t2 ∧ bt_size t1 = bt_size t2)).

Definition forward (t : btf_type) : bool := btf_is_fwd t || btf_is_enum_fwd t.

(** The id of a type that is no forward declaration. *)
Definition defines (ty : Z → option btf_type) (i : Z) : Prop := ∃ t, ty i = Some t ∧ forward t = false.

Lemma defines_info ty i j t1 t2 : ty i = Some t1 → ty j = Some t2 → btf_kind t1 = btf_kind t2 → btf_vlen t1 = btf_vlen t2 → defines ty i → defines ty j.
Proof.
  intros H1 H2 Hk Hv (t & Ht & Hf). assert (t = t1) as -> by congruence. exists t2. split; [done|]. revert Hf.
  unfold forward, btf_is_enum_fwd, btf_is_fwd, btf_is_any_enum, btf_is_enum, btf_is_enum64. by rewrite Hk, Hv.
Qed.

Lemma defines_same ty i j t : ty i = Some t → ty j = Some t → defines ty i → defines ty j.
Proof. intros H1 H2. by apply (defines_info ty i j t t). Qed.

Lemma forward_not_defines ty i t (P : Prop) : ty i = Some t → forward t = true → defines ty i → P.
Proof. intros H Hf (t' & Ht & Hf'). congruence. Qed.

Definition loc (N R : Z → Z → Prop) (t1 t2 : btf_type) : Prop :=
  shape N R t1 t2 ∨ tagged N t1 t2 ∧ (forward t1 = true ∨ forward t2 = true).

(** A relation between the ids of two objects that relates only types that agree. *)
Definition bisim (ty1 ty2 : Z → option btf_type) (N R : Z → Z → Prop) : Prop :=
  ∀ i j, R i j → ∃ t1 t2, ty1 i = Some t1 ∧ ty2 j = Some t2 ∧ loc N R t1 t2.

Definition same (ty1 ty2 : Z → option btf_type) (N : Z → Z → Prop) (i j : Z) : Prop := ∃ R, bisim ty1 ty2 N R ∧ R i j.

(** * Positions depend on the info only *)

Lemma info_kind t1 t2 : bt_info t1 = bt_info t2 → btf_kind t1 = btf_kind t2.
Proof. unfold btf_kind. by intros ->. Qed.
Lemma info_vlen t1 t2 : bt_info t1 = bt_info t2 → btf_vlen t1 = btf_vlen t2.
Proof. unfold btf_vlen. by intros ->. Qed.
Lemma info_kflag t1 t2 : bt_info t1 = bt_info t2 → btf_kflag t1 = btf_kflag t2.
Proof. unfold btf_kflag. by intros ->. Qed.

Lemma info_tag t1 t2 : bt_info t1 = bt_info t2 → tag_kind t1 = tag_kind t2.
Proof.
  intros E. unfold tag_kind, btf_is_fwd, btf_is_composite, btf_fwd_kind.
  by rewrite (info_kind _ _ E), (info_kflag _ _ E).
Qed.
Lemma info_any_enum t1 t2 : bt_info t1 = bt_info t2 → btf_is_any_enum t1 = btf_is_any_enum t2.
Proof. intros E. unfold btf_is_any_enum, btf_is_enum, btf_is_enum64. by rewrite (info_kind _ _ E). Qed.
Lemma info_forward t1 t2 : bt_info t1 = bt_info t2 → forward t1 = forward t2.
Proof.
  intros E. unfold forward, btf_is_enum_fwd, btf_is_fwd. by rewrite (info_any_enum _ _ E), (info_kind _ _ E), (info_vlen _ _ E).
Qed.

Lemma name_in_pos t : O ∈ str_pos t.
Proof. unfold str_pos. cbn zeta. apply elem_of_cons. by left. Qed.

(** * Algebra of [shape] *)

Lemma shape_refl (N R : Z → Z → Prop) t : (∀ w, N w w) → (∀ p w, p ∈ id_pos t → type_words t !! p = Some w → R w w) → shape N R t t.
Proof.
  intros HN HR. split; [done|]. split; [done|]. intros p w1 w2 H1 H2. rewrite H1 in H2. injection H2 as <-.
  destruct (decide (p ∈ str_pos t)); [done|]. destruct (decide (p ∈ id_pos t)); [by eapply HR|done].
Qed.

(** Positions that one type has the other has, too. *)
Lemma same_length_lookup t1 t2 p w : length (bt_rest t1) = length (bt_rest t2) → type_words t1 !! p = Some w →
  ∃ w', type_words t2 !! p = Some w'.
Proof.
  intros Hl Hp. apply lookup_lt_Some in Hp. cbn [type_words length] in Hp.
  apply lookup_lt_is_Some_2. cbn [type_words length]. lia.
Qed.

Lemma shape_impl (N N' R R' : Z → Z → Prop) t1 t2 : shape N R t1 t2 → (∀ w1 w2, N w1 w2 → N' w1 w2) →
  (∀ p w1 w2, p ∈ id_pos t1 → type_words t1 !! p = Some w1 → type_words t2 !! p = Some w2 → R w1 w2 → R' w1 w2) → shape N' R' t1 t2.
Proof.
  intros (Hi & Hl & Hw) HN HR. split; [done|]. split; [done|]. intros p w1 w2 H1 H2. specialize (Hw p w1 w2 H1 H2).
  destruct (decide (p ∈ str_pos t1)); [by apply HN|]. destruct (decide (p ∈ id_pos t1)); [by eapply HR|done].
Qed.

Lemma shape_sym N R t1 t2 : shape N R t1 t2 → shape (flip N) (flip R) t2 t1.
Proof.
  intros (Hi & Hl & Hw). split; [done|]. split; [done|]. intros p w1 w2 H1 H2. specialize (Hw p w2 w1 H2 H1).
  destruct (pos_info t2 t1 Hi) as [<- <-].
  destruct (decide (p ∈ str_pos t1)); [done|]. by destruct (decide (p ∈ id_pos t1)).
Qed.

(** The composition of two relations. *)
Definition comp (R1 R2 : Z → Z → Prop) (x z : Z) : Prop := ∃ y, R1 x y ∧ R2 y z.

Lemma shape_comp N1 N2 R1 R2 t1 t2 t3 : shape N1 R1 t1 t2 → shape N2 R2 t2 t3 → shape (comp N1 N2) (comp R1 R2) t1 t3.
Proof.
  intros (Hi & Hl & Hw) (Hi' & Hl' & Hw'). split; [congruence|]. split; [congruence|]. intros p w1 w3 H1 H3.
  destruct (same_length_lookup t1 t2 p w1 Hl H1) as [w2 H2]. specialize (Hw p w1 w2 H1 H2). specialize (Hw' p w2 w3 H2 H3).
  destruct (pos_info t1 t2 (eq_sym Hi)) as [E1 E2]. rewrite E1, E2 in Hw'.
  destruct (decide (p ∈ str_pos t1)); [by exists w2|]. destruct (decide (p ∈ id_pos t1)); [by exists w2|congruence].
Qed.

(** * Tags *)

Lemma tagged_sym (N : Z → Z → Prop) t1 t2 : tagged N t1 t2 → tagged (flip N) t2 t1.
Proof.
  intros [HN H]. split; [done|]. destruct H as [[H1 H2]|(H1 & H2 & H3)].
  - left. split; [by rewrite <- H2|done].
  - right. split; [|by split]. revert H1. unfold btf_is_any_enum, btf_is_enum, btf_is_enum64, btf_kind.
    replace (Z.land (Z.shiftr (bt_info t2) 24) 31) with (Z.land (Z.shiftr (bt_info t1) 24) 31); [done|].
    apply (f_equal (λ x, Z.land (Z.shiftr x 24) 31)) in H2. unfold info_no_vlen in H2.
    rewrite !Z.shiftr_land in H2. rewrite <- !Z.land_assoc in H2. exact H2.
Qed.

Lemma enum_no_tag t : btf_is_any_enum t = true → tag_kind t = None.
Proof.
  unfold btf_is_any_enum, btf_is_enum, btf_is_enum64, tag_kind, btf_is_fwd, btf_is_composite.
  intros [E|E]%orb_true_iff; apply Z.eqb_eq in E; by rewrite E.
Qed.

Lemma tagged_comp N1 N2 t1 t2 t3 : tagged N1 t1 t2 → tagged N2 t2 t3 → tagged (comp N1 N2) t1 t3.
Proof.
  intros [HN H] [HN' H']. split; [by exists (bt_name_off t2)|]. destruct H as [[H1 H2]|H].
  - destruct H' as [[H3 H4]|(H3 & _)]; [left; split; congruence|]. apply enum_no_tag in H3. rewrite <- H2 in H3.
    rewrite H3 in H1. by destruct H1.
  - destruct (tagged_sym N1 t1 t2 (conj HN (or_intror H))) as [_ [[H3 _]|(H3 & _)]].
    + destruct (tagged_sym N1 t1 t2 (conj HN (or_intror H))) as [_ [[H4 H5]|(H4 & _)]].
      * destruct H as (H & _). apply enum_no_tag in H. rewrite H5, H in H4. by destruct H4.
      * apply enum_no_tag in H4. rewrite H4 in H3. by destruct H3.
    + destruct H' as [[H4 _]|H']; [apply enum_no_tag in H3; rewrite H3 in H4; by destruct H4|].
      right. destruct H as (? & ? & ?), H' as (_ & ? & ?). split; [done|]. split; congruence.
Qed.

(** Types with a tag that agree have the same tag. *)
Definition taggable (t : btf_type) : Prop := is_Some (tag_kind t) ∨ btf_is_any_enum t = true.

Lemma forward_taggable t : forward t = true → taggable t.
Proof.
  unfold forward, taggable, tag_kind, btf_is_enum_fwd. destruct (btf_is_fwd t); [left; by eexists|].
  intros [??]%andb_true_iff. by right.
Qed.

Lemma tagged_taggable (N : Z → Z → Prop) t1 t2 : tagged N t1 t2 → taggable t1 ∧ taggable t2.
Proof.
  intros H. pose proof (tagged_sym N t1 t2 H) as [_ H']. destruct H as [_ H]. unfold taggable.
  destruct H as [[? ?]|(? & ?)], H' as [[? ?]|(? & ?)]; auto.
Qed.

(** The size of an enum is not an id. *)
Lemma enum_size_pos t : btf_is_any_enum t = true → (2%nat ∉ str_pos t) ∧ (2%nat ∉ id_pos t).
Proof.
  unfold btf_is_any_enum, btf_is_enum, btf_is_enum64, str_pos, id_pos. cbn zeta.
  intros [E|E]%orb_true_iff; apply Z.eqb_eq in E; rewrite E;
    change (BTF_KIND_ENUM =? BTF_KIND_STRUCT) with false; cbn [orb];
    repeat match goal with |- context [(?a =? ?b)%Z] => let v := eval vm_compute in (a =? b)%Z in change (a =? b)%Z with v end;
    cbn [orb]; cbv iota; (split; [|by apply not_elem_of_nil]); rewrite elem_of_cons, elem_of_each_pos; intros [?|(i & _ & ?)]; lia.
Qed.

Lemma shape_tagged N R t1 t2 : shape N R t1 t2 → taggable t1 → tagged N t1 t2.
Proof.
  intros (Hi & Hl & Hw) Ht. split.
  - specialize (Hw 0%nat (bt_name_off t1) (bt_name_off t2) eq_refl eq_refl).
    rewrite decide_True in Hw by apply name_in_pos. done.
  - destruct Ht as [Ht|Ht].
    + left. split; [done|by apply info_tag].
    + right. split; [done|]. split; [unfold info_no_vlen; by rewrite Hi|].
      specialize (Hw 2%nat (bt_size t1) (bt_size t2) eq_refl eq_refl). destruct (enum_size_pos t1 Ht).
      by rewrite !decide_False in Hw.
Qed.

Lemma loc_tagged N R t1 t2 : loc N R t1 t2 → taggable t1 → tagged N t1 t2.
Proof. intros [H|[H _]] Ht; [by eapply shape_tagged|done]. Qed.

Lemma tagged_tag (N : Z → Z → Prop) t1 t2 : tagged N t1 t2 → tag_kind t1 = tag_kind t2.
Proof.
  intros H. pose proof (tagged_sym N t1 t2 H) as [_ H']. destruct H as [_ [[_ H]|(H & _)]]; [done|]. rewrite (enum_no_tag t1 H).
  destruct H' as [[_ H']|(H' & _)]; [|by rewrite (enum_no_tag t2 H')]. by rewrite H', (enum_no_tag t1 H).
Qed.

Lemma loc_tag N R t1 t2 : loc N R t1 t2 → tag_kind t1 = tag_kind t2.
Proof. intros [[H _]|[H _]]; [by apply info_tag|by eapply tagged_tag]. Qed.

(** * Algebra of [loc] *)

Lemma loc_impl (N R R' : Z → Z → Prop) t1 t2 : loc N R t1 t2 →
  (∀ p w1 w2, p ∈ id_pos t1 → type_words t1 !! p = Some w1 → type_words t2 !! p = Some w2 → R w1 w2 → R' w1 w2) → loc N R' t1 t2.
Proof. intros [H|H] HR; [left|by right]. eapply shape_impl; [exact H|done|exact HR]. Qed.

Lemma loc_sym N R t1 t2 : loc N R t1 t2 → loc (flip N) (flip R) t2 t1.
Proof.
  intros [H|[H Hf]]; [left; by apply shape_sym|right]. split; [by apply tagged_sym|tauto].
Qed.

(** A type that agrees with a forward declaration has its tag, and needs nothing more. *)
Lemma loc_forward (N R R' : Z → Z → Prop) t1 t2 : loc N R t1 t2 → forward t1 = true ∨ forward t2 = true → loc N R' t1 t2.
Proof.
  intros H Hf. right. split; [|done]. destruct H as [H|[H _]]; [|done]. apply (shape_tagged N R); [done|].
  destruct Hf as [Hf|Hf]; [by apply forward_taggable|]. apply forward_taggable.
  rewrite (info_forward t1 t2); [done|by destruct H].
Qed.

(** Agreement composes, unless the type in the middle is only a forward declaration. *)
Lemma loc_comp N1 N2 R1 R2 t1 t2 t3 : loc N1 R1 t1 t2 → loc N2 R2 t2 t3 → forward t2 = false →
  loc (comp N1 N2) (comp R1 R2) t1 t3.
Proof.
  intros H1 H2 Hf. destruct (forward t1) eqn:F1.
  - right. split; [|by left]. apply (tagged_comp N1 N2 t1 t2 t3).
    + apply (loc_tagged N1 R1); [done|by apply forward_taggable].
    + apply (loc_tagged N2 R2); [done|]. apply (tagged_taggable N1 t1 t2), (loc_tagged N1 R1); [done|by apply forward_taggable].
  - destruct (forward t3) eqn:F3.
    + right. split; [|by right].
      assert (tagged N2 t2 t3) as Ht.
      { destruct H2 as [H2|[H2 _]]; [|done]. apply (shape_tagged N2 R2); [done|]. apply forward_taggable.
        rewrite (info_forward t2 t3); [done|by destruct H2]. }
      apply (tagged_comp N1 N2 t1 t2 t3); [|done].
      destruct H1 as [H1|[H1 _]]; [|done]. apply (shape_tagged N1 R1); [done|].
      destruct (tagged_taggable N2 t2 t3 Ht) as [[H|H] _]; [left|right].
      * by rewrite (info_tag t1 t2 (proj1 H1)).
      * by rewrite (info_any_enum t1 t2 (proj1 H1)).
    + destruct H1 as [H1|[_ [H1|H1]]]; [|congruence..]. destruct H2 as [H2|[_ [H2|H2]]]; [|congruence..].
      left. by eapply shape_comp.
Qed.

(** * The greatest such relation *)

Lemma same_bisim ty1 ty2 N : bisim ty1 ty2 N (same ty1 ty2 N).
Proof.
  intros i j (R & HR & Hij). destruct (HR i j Hij) as (t1 & t2 & H1 & H2 & Hl). exists t1, t2. split; [done|]. split; [done|].
  eapply loc_impl; [exact Hl|]. intros p w1 w2 _ _ _ Hr. by exists R.
Qed.

Lemma same_inv ty1 ty2 N i j : same ty1 ty2 N i j →
  ∃ t1 t2, ty1 i = Some t1 ∧ ty2 j = Some t2 ∧ loc N (same ty1 ty2 N) t1 t2.
Proof. apply same_bisim. Qed.

(** References to types of the object only. *)
Definition closed (ty : Z → option btf_type) : Prop :=
  ∀ i t p w, ty i = Some t → p ∈ id_pos t → type_words t !! p = Some w → is_Some (ty w).

(** A forward declaration stands for one definition only: types that are the same as it are
    the same. *)
Definition unambiguous (ty : Z → option btf_type) (N : Z → Z → Prop) : Prop :=
  ∀ v1 f v2 t, ty f = Some t → forward t = true → same ty ty N v1 f → same ty ty N f v2 → same ty ty N v1 v2.

(** [H] relates ids that are supposed to be the same; together with what is known ([E]). *)
Definition supposed (E H : Z → Z → Prop) (x y : Z) : Prop := E x y ∨ ∃ a b, E x a ∧ H a b ∧ E b y.

Lemma supposed_mono (E H H' : Z → Z → Prop) x y : (∀ a b, H a b → H' a b) → supposed E H x y → supposed E H' x y.
Proof. intros Hm [Hxy|(a & b & H1 & H2 & H3)]; [by left|right]. exists a, b. auto. Qed.

(** What the search for canonical types needs to know of sameness: it relates ids of types,
    is an equivalence, holds of types that agree, and of what is supposed once every
    supposition is justified by others. *)
Class Sameness (ty : Z → option btf_type) (E : Z → Z → Prop) := {
  sm_dom : ∀ i j, E i j → is_Some (ty i) ∧ is_Some (ty j);
  sm_refl : ∀ i, is_Some (ty i) → E i i;
  sm_sym : ∀ i j, E i j → E j i;
  sm_trans : ∀ i j k, E i j → E j k → E i k;
  sm_tag : ∀ i j t1 t2, ty i = Some t1 → ty j = Some t2 → E i j → tag_kind t1 = tag_kind t2;
  sm_loc : ∀ i j t1 t2, ty i = Some t1 → ty j = Some t2 → loc eq E t1 t2 → E i j;
  sm_justified : ∀ H : Z → Z → Prop,
    (∀ a b, H a b → ∃ ta tb, ty a = Some ta ∧ ty b = Some tb ∧ loc eq (supposed E H) ta tb) → ∀ x y, supposed E H x y → E x y;
}.

(** Types that are declared as the same kind of thing: enough for what does not depend on
    more of the types. *)
Definition same_tag (ty : Z → option btf_type) (i j : Z) : Prop := ∃ t1 t2, ty i = Some t1 ∧ ty j = Some t2 ∧ tag_kind t1 = tag_kind t2.

Lemma same_tag_trans ty i j k : same_tag ty i j → same_tag ty j k → same_tag ty i k.
Proof. intros (t1 & t2 & H1 & H2 & H) (t2' & t3 & H2' & H3 & H'). exists t1, t3. split; [done|]. split; [done|]. congruence. Qed.

#[export] Instance same_tag_sameness ty : Sameness ty (same_tag ty).
Proof.
  split.
  - intros i j (t1 & t2 & -> & -> & _). eauto.
  - intros i [t Ht]. by exists t, t.
  - intros i j (t1 & t2 & H1 & H2 & H). by exists t2, t1.
  - apply same_tag_trans.
  - intros i j t1 t2 H1 H2 (u1 & u2 & U1 & U2 & H). congruence.
  - intros i j t1 t2 H1 H2 Hl. exists t1, t2. split; [done|]. split; [done|]. by eapply loc_tag.
  - intros H Hj x y [Hxy|(a & b & Hx & Hab & Hy)]; [done|]. eapply same_tag_trans; [exact Hx|]. eapply same_tag_trans; [|exact Hy].
    destruct (Hj a b Hab) as (ta & tb & Ha & Hb & Hl). exists ta, tb. split; [done|]. split; [done|]. by eapply loc_tag.
Qed.

Section same.
Context (ty : Z → option btf_type) (N : Z → Z → Prop) `{!Equivalence N} (Hclosed : closed ty).
Abbreviation E := (same ty ty N).

Lemma names_flip w1 w2 : flip N w1 w2 → N w1 w2.
Proof. unfold flip. by symmetry. Qed.
Lemma names_comp w1 w2 : comp N N w1 w2 → N w1 w2.
Proof. intros (w & ? & ?). by etrans. Qed.

Lemma loc_names (N1 : Z → Z → Prop) R t1 t2 : (∀ w1 w2, N1 w1 w2 → N w1 w2) → loc N1 R t1 t2 → loc N R t1 t2.
Proof.
  intros HN [H|[[H1 H2] H3]]; [left; by eapply shape_impl|right]. split; [|done]. split; [by apply HN|done].
Qed.

Lemma same_refl i : is_Some (ty i) → E i i.
Proof.
  intros Hi. exists (λ x y, x = y ∧ is_Some (ty x)). split; [|by split]. intros x y [<- [t Ht]].
  exists t, t. split; [done|]. split; [done|]. left. apply shape_refl; [by intros|]. intros p w Hp Hw. split; [done|].
  by eapply Hclosed.
Qed.

Lemma same_sym i j : E i j → E j i.
Proof.
  intros H. exists (λ x y, E y x). split; [|done]. intros x y Hyx. destruct (same_inv _ _ _ _ _ Hyx) as (t1 & t2 & H1 & H2 & Hl).
  exists t2, t1. split; [done|]. split; [done|]. apply (loc_names (flip N)); [apply names_flip|]. by apply loc_sym in Hl.
Qed.

Lemma same_dom i j : E i j → is_Some (ty i) ∧ is_Some (ty j).
Proof. intros H. destruct (same_inv _ _ _ _ _ H) as (t1 & t2 & -> & -> & _). eauto. Qed.

(** Agreement without references is sameness. *)
Lemma same_shape i j t1 t2 : ty i = Some t1 → ty j = Some t2 → loc N E t1 t2 → E i j.
Proof.
  intros H1 H2 Hl. exists (λ x y, E x y ∨ x = i ∧ y = j). split; [|by right]. intros x y [Hxy|[-> ->]].
  - destruct (same_inv _ _ _ _ _ Hxy) as (u1 & u2 & U1 & U2 & Hu). exists u1, u2. split; [done|]. split; [done|].
    eapply loc_impl; [exact Hu|]. intros. by left.
  - exists t1, t2. split; [done|]. split; [done|]. eapply loc_impl; [exact Hl|]. intros. by left.
Qed.

Lemma same_equal i j t : ty i = Some t → ty j = Some t → E i j.
Proof.
  intros H1 H2. apply (same_shape i j t t H1 H2). left. apply shape_refl; [by intros|]. intros p w Hp Hw. apply same_refl. by eapply Hclosed.
Qed.

Context (Hun : unambiguous ty N).

Lemma same_trans i j k : E i j → E j k → E i k.
Proof.
  intros Hij Hjk. exists (comp E E). split; [|by exists j]. clear i j k Hij Hjk. intros x z (y & Hxy & Hyz).
  destruct (same_inv _ _ _ _ _ Hxy) as (t1 & t2 & H1 & H2 & Hl). destruct (same_inv _ _ _ _ _ Hyz) as (t2' & t3 & H2' & H3 & Hl').
  assert (t2' = t2) as -> by congruence. exists t1, t3. split; [done|]. split; [done|]. destruct (forward t2) eqn:Ff.
  - destruct (same_inv _ _ _ _ _ (Hun x y z t2 H2 Ff Hxy Hyz)) as (u1 & u3 & U1 & U3 & Hu).
    assert (u1 = t1) as -> by congruence. assert (u3 = t3) as -> by congruence.
    eapply loc_impl; [exact Hu|]. intros p w1 w2 Hp Hw1 Hw2 Hr. exists w2. split; [done|]. apply same_refl. by apply same_dom in Hr as [_ ?].
  - apply (loc_names (comp N N)); [apply names_comp|]. by eapply loc_comp.
Qed.

(** * Hypotheses that justify each other *)

Lemma supposed_same H x y z : supposed E H x y → E y z → supposed E H x z.
Proof.
  intros [Hxy|(a & b & H1 & H2 & H3)] Hyz; [left; by eapply same_trans|right]. exists a, b. split; [done|]. split; [done|]. by eapply same_trans.
Qed.
Lemma same_supposed H x y z : E x y → supposed E H y z → supposed E H x z.
Proof.
  intros Hxy [Hyz|(a & b & H1 & H2 & H3)]; [left; by eapply same_trans|right]. exists a, b. split; [by eapply same_trans|done].
Qed.

(** If the types of every pair agree under the suppositions, these hold. *)
Lemma supposed_justified (H : Z → Z → Prop) :
  (∀ a b, H a b → ∃ ta tb, ty a = Some ta ∧ ty b = Some tb ∧ loc N (supposed E H) ta tb) → ∀ x y, supposed E H x y → E x y.
Proof.
  intros Hj x y Hxy. exists (supposed E H). split; [|done]. clear x y Hxy. intros x y Hxy.
  assert (∀ x y, E x y → ∃ t1 t2, ty x = Some t1 ∧ ty y = Some t2 ∧ loc N (supposed E H) t1 t2) as Hknown.
  { intros u v Huv. destruct (same_inv _ _ _ _ _ Huv) as (t1 & t2 & H1 & H2 & Hl). exists t1, t2. split; [done|]. split; [done|].
    eapply loc_impl; [exact Hl|]. intros. by left. }
  destruct Hxy as [Hxy|(a & b & Hxa & Hab & Hby)]; [by apply Hknown|].
  destruct (Hj a b Hab) as (ta & tb & Ha & Hb & Hl).
  destruct (forward ta || forward tb) eqn:Hf.
  - apply Hknown. eapply same_trans; [exact Hxa|]. eapply same_trans; [|exact Hby]. apply (same_shape a b ta tb Ha Hb).
    eapply loc_forward; [exact Hl|by apply orb_true_iff].
  - apply orb_false_iff in Hf as [Fa Fb].
    destruct (same_inv _ _ _ _ _ Hxa) as (tx & ta' & Hx & Ha' & Hlx). assert (ta' = ta) as -> by congruence.
    destruct (same_inv _ _ _ _ _ Hby) as (tb' & ty' & Hb' & Hy & Hly). assert (tb' = tb) as -> by congruence.
    exists tx, ty'. split; [done|]. split; [done|]. pose proof (loc_comp N N _ _ _ _ _ Hlx Hl Fa) as H1.
    pose proof (loc_comp _ N _ _ _ _ _ H1 Hly Fb) as H2.
    eapply loc_impl; [eapply loc_names; [|exact H2]|].
    + intros w1 w2 (w & Hw & Hw'). etrans; [by apply names_comp|done].
    + intros p w1 w2 _ _ _ (w & (v & Hv & Hvw) & Hww). eapply supposed_same; [|exact Hww]. by eapply same_supposed.
Qed.
End same.

Lemma same_sameness ty : closed ty → unambiguous ty eq → Sameness ty (same ty ty eq).
Proof.
  intros Hc Hu. split.
  - apply same_dom.
  - by apply same_refl; [apply _|].
  - by apply same_sym; apply _.
  - by apply same_trans; [apply _|..].
  - intros i j t1 t2 H1 H2 H. destruct (same_inv _ _ _ _ _ H) as (u1 & u2 & U1 & U2 & Hl). apply loc_tag in Hl. congruence.
  - intros i j t1 t2 H1 H2. by apply same_shape.
  - by apply supposed_justified; [apply _|..].
Qed.
