(* ===== verification/BtfDedupEq.v ===== *)
(** The comparisons of types in the deduplication of BTF (BtfDedup.v) decide what they
    should: equality, or agreement but for ids. *)
From stdpp Require Import base list sets.
From Stdlib Require Import ZArith Lia.
From S2P Require Import Prelude Bytes Mem Errno Btf BtfRaw BtfFile BtfMerge BtfDedup BtfSame.

#[local] Open Scope Z_scope.

(** * Words *)

Lemma bt_word_lt t i : 0 ≤ i < Z.of_nat (length (bt_rest t)) → bt_word t i = Some (bt_rest t !!! Z.to_nat i).
Proof.
  intros Hi. unfold bt_word. destruct (Z.leb_spec 0 i); [|lia]. apply list_lookup_lookup_total_lt. lia.
Qed.

Lemma rest_length t n : type_wf t → btf_type_size t = SIZEOF_TYPE + 4 * n → Z.of_nat (length (bt_rest t)) = n.
Proof. intros [_ H] E. rewrite E in H. lia. Qed.

(** The words behind a type, by kind. *)
Definition words_behind (k : Z) (vlen : Z) : Z :=
  if k =? BTF_KIND_INT then 1
  else if k =? BTF_KIND_ENUM then vlen * 2
  else if k =? BTF_KIND_ENUM64 then vlen * 3
  else if k =? BTF_KIND_ARRAY then 3
  else if (k =? BTF_KIND_STRUCT) || (k =? BTF_KIND_UNION) then vlen * 3
  else if k =? BTF_KIND_FUNC_PROTO then vlen * 2
  else if k =? BTF_KIND_VAR then 1
  else if k =? BTF_KIND_DATASEC then vlen * 3
  else if k =? BTF_KIND_DECL_TAG then 1
  else 0.

Lemma wf_item_words t : type_wf t → Z.of_nat (length (bt_rest t)) = words_behind (btf_kind t) (btf_vlen t).
Proof.
  intros Hwf. apply rest_length; [done|]. pose proof (wf_kind t Hwf) as Hk. unfold btf_type_size, words_behind, SIZEOF_TYPE.
  generalize (btf_vlen t) as v. intros v. revert Hk. wf_kinds t Hk; cbn; lia.
Qed.

Lemma vlen_nonneg t : 0 ≤ btf_vlen t.
Proof. unfold btf_vlen. apply Z.land_nonneg. right. lia. Qed.

(** * Loops over items *)

Lemma all_equal_spec n : ∀ i same (g : Z → bool), (∀ j, i ≤ j < i + Z.of_nat n → same j = Some (g j)) →
  ∃ e, all_equal n i same = Some e ∧ (e = true ↔ ∀ j, i ≤ j < i + Z.of_nat n → g j = true).
Proof.
  induction n as [|n IH]; intros i same g Hs; cbn [all_equal].
  - exists true. split; [done|]. split; [lia|done].
  - rewrite Hs by lia. cbn [mbind option_bind]. destruct (g i) eqn:Eg.
    + destruct (IH (i + 1) same g) as (e & -> & He); [intros j Hj; apply Hs; lia|]. exists e. split; [done|]. rewrite He.
      split; intros H j Hj; [|apply H; lia]. destruct (Z.eq_dec j i) as [->|]; [done|]. apply H. lia.
    + exists false. split; [done|]. split; [done|]. intros H. rewrite <- Eg. apply H. lia.
Qed.

Lemma items_equal_spec t same (g : Z → bool) : (∀ j, 0 ≤ j < btf_vlen t → same j = Some (g j)) →
  ∃ e, items_equal t same = Some e ∧ (e = true ↔ ∀ j, 0 ≤ j < btf_vlen t → g j = true).
Proof.
  intros Hs. pose proof (vlen_nonneg t). destruct (all_equal_spec (Z.to_nat (btf_vlen t)) 0 same g) as (e & He & Hi).
  - intros j Hj. apply Hs. lia.
  - exists e. split; [done|]. rewrite Hi. split; intros H' j Hj; apply H'; lia.
Qed.

(** Reading the items of a type of a given kind. *)
Section items.
Context (t : btf_type) (Hwf : type_wf t) (i : Z) (Hi : 0 ≤ i < btf_vlen t).
Let w (j : Z) : Z := bt_rest t !!! Z.to_nat j.

Lemma member_at_words : btf_is_composite t = true → btf_member_at t i = Some (mkMember (w (3 * i)) (w (3 * i + 1)) (w (3 * i + 2))).
Proof.
  intros Hk. pose proof (wf_item_words t Hwf) as Hl.
  assert (words_behind (btf_kind t) (btf_vlen t) = btf_vlen t * 3) as E.
  { unfold btf_is_composite in Hk. apply orb_true_iff in Hk as [Hk|Hk]; apply Z.eqb_eq in Hk; by rewrite Hk. }
  unfold btf_member_at. rewrite !bt_word_lt by lia. done.
Qed.
Lemma param_at_words : btf_kind t = BTF_KIND_FUNC_PROTO → btf_param_at t i = Some (mkParam (w (2 * i)) (w (2 * i + 1))).
Proof.
  intros Hk. pose proof (wf_item_words t Hwf) as Hl. rewrite Hk in Hl. cbn in Hl. unfold btf_param_at. rewrite !bt_word_lt by lia. done.
Qed.
Lemma enum_at_words : btf_kind t = BTF_KIND_ENUM → btf_enum_at t i = Some (mkEnum (w (2 * i)) (s32 (w (2 * i + 1)))).
Proof.
  intros Hk. pose proof (wf_item_words t Hwf) as Hl. rewrite Hk in Hl. cbn in Hl. unfold btf_enum_at. rewrite !bt_word_lt by lia. done.
Qed.
Lemma enum64_at_words : btf_kind t = BTF_KIND_ENUM64 →
  btf_enum64_at t i = Some (mkEnum64 (w (3 * i)) (w (3 * i + 1)) (w (3 * i + 2))).
Proof.
  intros Hk. pose proof (wf_item_words t Hwf) as Hl. rewrite Hk in Hl. cbn in Hl. unfold btf_enum64_at. rewrite !bt_word_lt by lia. done.
Qed.
End items.

Lemma array_of_words t : type_wf t → btf_kind t = BTF_KIND_ARRAY →
  ∃ ty ix n, bt_rest t = [ty; ix; n] ∧ btf_array_of t = Some (mkArray ty ix n).
Proof.
  intros Hwf Hk. pose proof (wf_item_words t Hwf) as Hl. rewrite Hk in Hl. cbn in Hl.
  destruct t as [n i s [|a [|b [|c [|? ?]]]]]; cbn [bt_rest length] in *; try lia. exists a, b, c. split; done.
Qed.
Lemma one_word t : type_wf t → words_behind (btf_kind t) (btf_vlen t) = 1 → ∃ w, bt_rest t = [w] ∧ bt_word t 0 = Some w.
Proof.
  intros Hwf Hl. pose proof (wf_item_words t Hwf) as Hl'. rewrite Hl in Hl'.
  destruct t as [n i s [|a [|? ?]]]; cbn [bt_rest length] in *; try lia. exists a. split; done.
Qed.

(** * Equality *)

Lemma equal_common_spec t1 t2 : btf_equal_common t1 t2 = true ↔
  bt_name_off t1 = bt_name_off t2 ∧ bt_info t1 = bt_info t2 ∧ bt_size t1 = bt_size t2.
Proof. unfold btf_equal_common. rewrite !andb_true_iff, !Z.eqb_eq. tauto. Qed.

Lemma type_eq t1 t2 : btf_equal_common t1 t2 = true → bt_rest t1 = bt_rest t2 → t1 = t2.
Proof. intros (H1 & H2 & H3)%equal_common_spec H4. destruct t1, t2. cbn in *. congruence. Qed.

Lemma common_refl t : btf_equal_common t t = true.
Proof. by apply equal_common_spec. Qed.

Lemma rest_eq t1 t2 (k : nat) : (0 < k)%nat → type_wf t1 → type_wf t2 → bt_info t1 = bt_info t2 →
  Z.of_nat (length (bt_rest t1)) = btf_vlen t1 * Z.of_nat k →
  (∀ i r, 0 ≤ i < btf_vlen t1 → 0 ≤ r < Z.of_nat k →
     bt_rest t1 !!! Z.to_nat (Z.of_nat k * i + r) = bt_rest t2 !!! Z.to_nat (Z.of_nat k * i + r)) →
  bt_rest t1 = bt_rest t2.
Proof.
  intros Hk Hw1 Hw2 Hi Hl Heq. pose proof (wf_rest_length t1 t2 Hw1 Hw2 (eq_sym Hi)) as Hl2.
  apply list_eq_same_length with (length (bt_rest t1)); [done|done|]. intros q w1 w2 Hq H1 H2.
  set (i := Z.of_nat q / Z.of_nat k). set (r := Z.of_nat q mod Z.of_nat k).
  pose proof (Z.div_mod (Z.of_nat q) (Z.of_nat k) ltac:(lia)) as Hdm. pose proof (Z.mod_pos_bound (Z.of_nat q) (Z.of_nat k) ltac:(lia)) as Hr.
  specialize (Heq i r). fold i r in Hdm. assert (0 ≤ i) by (apply Z.div_pos; lia).
  assert (i < btf_vlen t1) by (apply Z.div_lt_upper_bound; lia).
  specialize (Heq ltac:(lia) Hr). rewrite <- Hdm, Nat2Z.id in Heq.
  rewrite (list_lookup_total_correct _ _ _ H1), (list_lookup_total_correct _ _ _ H2) in Heq. done.
Qed.

(** A comparison [equal] of [t1] with any type decides equality. *)
Definition decides (equal : btf_type → btf_type → option bool) (t1 : btf_type) : Prop :=
  ∀ t2, type_wf t2 → equal t1 t2 = Some (bool_decide (t1 = t2)).

Lemma decides_intro equal t1 : (∀ t2, btf_equal_common t1 t2 = false → equal t1 t2 = Some false) →
  (∀ t2, type_wf t2 → btf_equal_common t1 t2 = true → ∃ e, equal t1 t2 = Some e ∧ (e = true ↔ bt_rest t1 = bt_rest t2)) → decides equal t1.
Proof.
  intros Hno Hyes t2 Hw. destruct (btf_equal_common t1 t2) eqn:Ec.
  - destruct (Hyes t2 Hw Ec) as (e & -> & He). f_equal. destruct e; symmetry.
    + apply bool_decide_eq_true. apply type_eq; [done|by apply He].
    + apply bool_decide_eq_false. intros ->. discriminate (proj2 He eq_refl).
  - rewrite Hno by done. f_equal. symmetry. apply bool_decide_eq_false. intros ->. by rewrite common_refl in Ec.
Qed.

Lemma decides_common t1 : type_wf t1 → words_behind (btf_kind t1) (btf_vlen t1) = 0 → decides (λ t1 t2, Some (btf_equal_common t1 t2)) t1.
Proof.
  intros Hw1 Hl. apply decides_intro; intros t2; [by intros ->|]. intros Hw2 Ec. exists true. rewrite Ec. split; [done|]. split; [|done]. intros _.
  apply equal_common_spec in Ec as (_ & Hi & _). pose proof (wf_rest_length t1 t2 Hw1 Hw2 (eq_sym Hi)) as Hl2.
  pose proof (wf_item_words t1 Hw1). destruct (bt_rest t1), (bt_rest t2); cbn in *; try lia. done.
Qed.

Lemma decides_int_tag t1 : type_wf t1 → words_behind (btf_kind t1) (btf_vlen t1) = 1 → decides btf_equal_int_tag t1.
Proof.
  intros Hw1 Hl. unfold btf_equal_int_tag. apply decides_intro; intros t2; [by intros ->|]. intros Hw2 Ec. rewrite Ec. cbn [negb].
  apply equal_common_spec in Ec as (_ & Hi & _). rewrite (info_kind _ _ Hi), (info_vlen _ _ Hi) in Hl.
  destruct (one_word t2 Hw2 Hl) as (w2 & -> & ->). rewrite <- (info_kind _ _ Hi), <- (info_vlen _ _ Hi) in Hl.
  destruct (one_word t1 Hw1 Hl) as (w1 & -> & ->). cbn [mbind option_bind]. eexists. split; [done|]. rewrite Z.eqb_eq.
  split; [by intros ->|by intros [= ->]].
Qed.

Lemma decides_array t1 : type_wf t1 → btf_kind t1 = BTF_KIND_ARRAY → decides btf_equal_array t1.
Proof.
  intros Hw1 Hk. unfold btf_equal_array. apply decides_intro; intros t2; [by intros ->|]. intros Hw2 Ec. rewrite Ec. cbn [negb].
  apply equal_common_spec in Ec as (_ & Hi & _). destruct (array_of_words t1 Hw1 Hk) as (a1 & b1 & c1 & -> & ->).
  rewrite (info_kind _ _ Hi) in Hk. destruct (array_of_words t2 Hw2 Hk) as (a2 & b2 & c2 & -> & ->). cbn [mbind option_bind].
  eexists. split; [done|]. cbn [a_type a_index_type a_nelems]. rewrite !andb_true_iff, !Z.eqb_eq.
  split; [by intros [[-> ->] ->]|by intros [= -> -> ->]].
Qed.

Lemma s32_inj w1 w2 : word_ok w1 → word_ok w2 → s32 w1 = s32 w2 → w1 = w2.
Proof. intros H1 H2 H. apply (f_equal (wrap 32)) in H. rewrite !wrap_swrap in H by lia. by rewrite !wrap_small in H. Qed.

Lemma rest_word_ok t q : type_wf t → (q < length (bt_rest t))%nat → word_ok (bt_rest t !!! q).
Proof.
  intros [Hw _] Hq. unfold words_ok, type_words in Hw. rewrite !Forall_cons in Hw. destruct Hw as (_ & _ & _ & Hw).
  destruct (lookup_lt_is_Some_2 _ _ Hq) as [w Hl]. rewrite (list_lookup_total_correct _ _ _ Hl). by eapply Forall_lookup_1.
Qed.

(** The words of the items are equal when a test of each item says so. *)
Lemma items_rest t1 t2 (k : nat) (g : Z → bool) : (0 < k)%nat → type_wf t1 → type_wf t2 → bt_info t1 = bt_info t2 →
  Z.of_nat (length (bt_rest t1)) = btf_vlen t1 * Z.of_nat k →
  (∀ i, 0 ≤ i < btf_vlen t1 → g i = true ↔ ∀ r, 0 ≤ r < Z.of_nat k →
     bt_rest t1 !!! Z.to_nat (Z.of_nat k * i + r) = bt_rest t2 !!! Z.to_nat (Z.of_nat k * i + r)) →
  (∀ i, 0 ≤ i < btf_vlen t1 → g i = true) ↔ bt_rest t1 = bt_rest t2.
Proof.
  intros Hk Hw1 Hw2 Hi Hl Hg. split.
  - intros H. apply (rest_eq t1 t2 k); try done. intros i r Hir. by apply Hg; [|apply H].
  - intros E i Hir. apply Hg; [done|]. by rewrite E.
Qed.

Lemma three_items (P : Z → Prop) : (∀ r, 0 ≤ r < Z.of_nat 3 → P r) ↔ P 0 ∧ P 1 ∧ P 2.
Proof.
  split; [intros H; split_and!; apply H; lia|]. intros (H0 & H1 & H2) r Hr.
  destruct (Z.eq_dec r 0) as [->|]; [done|]. destruct (Z.eq_dec r 1) as [->|]; [done|]. by replace r with 2 by lia.
Qed.
Lemma two_items (P : Z → Prop) : (∀ r, 0 ≤ r < Z.of_nat 2 → P r) ↔ P 0 ∧ P 1.
Proof.
  split; [intros H; split; apply H; lia|]. intros (H0 & H1) r Hr. destruct (Z.eq_dec r 0) as [->|]; [done|]. by replace r with 1 by lia.
Qed.

Lemma decides_enum t1 : type_wf t1 → btf_kind t1 = BTF_KIND_ENUM → decides btf_equal_enum t1.
Proof.
  intros Hw1 Hk. unfold btf_equal_enum. apply decides_intro; intros t2; [by intros ->|]. intros Hw2 Ec. rewrite Ec. cbn [negb].
  apply equal_common_spec in Ec as (_ & Hi & _).
  pose proof (wf_item_words t1 Hw1) as Hl. rewrite Hk in Hl. cbn in Hl. pose proof (wf_rest_length t1 t2 Hw1 Hw2 (eq_sym Hi)) as Hl2.
  destruct (items_equal_spec t1 (λ i, m1 ← btf_enum_at t1 i; m2 ← btf_enum_at t2 i;
         Some ((e_name_off m1 =? e_name_off m2) && (e_val m1 =? e_val m2)))
    (λ i, (bt_rest t1 !!! Z.to_nat (2 * i) =? bt_rest t2 !!! Z.to_nat (2 * i)) &&
          (s32 (bt_rest t1 !!! Z.to_nat (2 * i + 1)) =? s32 (bt_rest t2 !!! Z.to_nat (2 * i + 1))))) as (e & He & Hiff).
  { intros j Hj. rewrite enum_at_words, enum_at_words by (first [done|by rewrite <- (info_vlen t1 t2)|by rewrite <- (info_kind t1 t2)]). done. }
  exists e. split; [done|]. rewrite Hiff. apply (items_rest t1 t2 2); try done; [lia..|]. intros i Hj. rewrite (two_items (λ r, _)). cbv beta. change (Z.of_nat 2) with 2.
  rewrite andb_true_iff, !Z.eqb_eq. rewrite Z.add_0_r. split; [|by intros [-> ->]]. intros [-> H]. split; [done|].
  apply s32_inj; [apply rest_word_ok; [done|lia]..|done].
Qed.

Lemma decides_enum64 t1 : type_wf t1 → btf_kind t1 = BTF_KIND_ENUM64 → decides btf_equal_enum64 t1.
Proof.
  intros Hw1 Hk. unfold btf_equal_enum64. apply decides_intro; intros t2; [by intros ->|]. intros Hw2 Ec. rewrite Ec. cbn [negb].
  apply equal_common_spec in Ec as (_ & Hi & _).
  pose proof (wf_item_words t1 Hw1) as Hl. rewrite Hk in Hl. cbn in Hl.
  destruct (items_equal_spec t1 (λ i, m1 ← btf_enum64_at t1 i; m2 ← btf_enum64_at t2 i;
         Some ((e64_name_off m1 =? e64_name_off m2) && (e64_val_lo32 m1 =? e64_val_lo32 m2) &&
               (e64_val_hi32 m1 =? e64_val_hi32 m2)))
    (λ i, (bt_rest t1 !!! Z.to_nat (3 * i) =? bt_rest t2 !!! Z.to_nat (3 * i)) &&
          (bt_rest t1 !!! Z.to_nat (3 * i + 1) =? bt_rest t2 !!! Z.to_nat (3 * i + 1)) &&
          (bt_rest t1 !!! Z.to_nat (3 * i + 2) =? bt_rest t2 !!! Z.to_nat (3 * i + 2)))) as (e & He & Hiff).
  { intros j Hj. rewrite enum64_at_words, enum64_at_words by (first [done|by rewrite <- (info_vlen t1 t2)|by rewrite <- (info_kind t1 t2)]). done. }
  exists e. split; [done|]. rewrite Hiff. apply (items_rest t1 t2 3); try done; [lia..|]. intros i Hj. rewrite (three_items (λ r, _)). cbv beta. change (Z.of_nat 3) with 3.
  rewrite !andb_true_iff, !Z.eqb_eq, Z.add_0_r. tauto.
Qed.

Lemma decides_fnproto t1 : type_wf t1 → btf_kind t1 = BTF_KIND_FUNC_PROTO → decides btf_equal_fnproto t1.
Proof.
  intros Hw1 Hk. unfold btf_equal_fnproto. apply decides_intro; intros t2; [by intros ->|]. intros Hw2 Ec. rewrite Ec. cbn [negb].
  apply equal_common_spec in Ec as (_ & Hi & _).
  pose proof (wf_item_words t1 Hw1) as Hl. rewrite Hk in Hl. cbn in Hl.
  destruct (items_equal_spec t1 (λ i, p1 ← btf_param_at t1 i; p2 ← btf_param_at t2 i;
         Some ((p_name_off p1 =? p_name_off p2) && (p_type p1 =? p_type p2)))
    (λ i, (bt_rest t1 !!! Z.to_nat (2 * i) =? bt_rest t2 !!! Z.to_nat (2 * i)) &&
          (bt_rest t1 !!! Z.to_nat (2 * i + 1) =? bt_rest t2 !!! Z.to_nat (2 * i + 1)))) as (e & He & Hiff).
  { intros j Hj. rewrite param_at_words, param_at_words by (first [done|by rewrite <- (info_vlen t1 t2)|by rewrite <- (info_kind t1 t2)]). done. }
  exists e. split; [done|]. rewrite Hiff. apply (items_rest t1 t2 2); try done; [lia..|]. intros i Hj. rewrite (two_items (λ r, _)). cbv beta. change (Z.of_nat 2) with 2.
  rewrite andb_true_iff, !Z.eqb_eq, Z.add_0_r. tauto.
Qed.

(** * Agreement but for ids *)

Abbreviation shallow := (shape eq (λ _ _, True)).

Lemma size_not_str t : type_wf t → 2%nat ∉ str_pos t.
Proof.
  intros Hwf. pose proof (wf_kind t Hwf) as Hk. unfold str_pos. cbv zeta. generalize (Z.to_nat (btf_vlen t)) as n. intros n. revert Hk.
  wf_kinds t Hk; cbn; rewrite ?elem_of_cons, ?elem_of_each_pos, ?elem_of_nil; pos_split.
Qed.

Lemma shape_intro R t1 t2 : type_wf t1 → bt_name_off t1 = bt_name_off t2 → bt_info t1 = bt_info t2 → length (bt_rest t1) = length (bt_rest t2) →
  (if decide (2%nat ∈ id_pos t1) then R (bt_size t1) (bt_size t2) else bt_size t1 = bt_size t2) →
  (∀ q, (q < length (bt_rest t1))%nat → let w1 := bt_rest t1 !!! q in let w2 := bt_rest t2 !!! q in
     w1 = w2 ∨ (3 + q)%nat ∉ str_pos t1 ∧ (3 + q)%nat ∈ id_pos t1 ∧ R w1 w2) →
  (∀ p w, p ∈ id_pos t1 → type_words t1 !! p = Some w → type_words t2 !! p = Some w → R w w) →
  shape eq R t1 t2.
Proof.
  intros Hwf Hn Hi Hl Hs Hr Hid. split; [done|]. split; [done|]. intros p w1 w2 H1 H2.
  destruct p as [|[|[|q]]]; cbn [type_words lookup list_lookup] in H1, H2.
  - simplify_eq. rewrite decide_True by apply name_in_pos. done.
  - simplify_eq. destruct (pos_spec t1 Hwf) as (_ & Hp1 & _ & Hp2). rewrite !decide_False; [done|..].
    + intros H. destruct (Hp2 _ H) as (_ & Hne & _). exact (Hne eq_refl).
    + intros H. destruct (Hp1 _ H) as [_ Hne]. exact (Hne eq_refl).
  - simplify_eq. rewrite decide_False by by apply size_not_str. done.
  - change (bt_rest t1 !! q = Some w1) in H1. change (bt_rest t2 !! q = Some w2) in H2.
    specialize (Hr q (lookup_lt_Some _ _ _ H1)). cbv zeta in Hr.
    rewrite (list_lookup_total_correct _ _ _ H1), (list_lookup_total_correct _ _ _ H2) in Hr.
    destruct Hr as [-> |(Ha & Hb & Hc)].
    + change (S (S (S q))) with (3 + q)%nat. destruct (decide ((3 + q)%nat ∈ str_pos t1)); [done|].
      destruct (decide ((3 + q)%nat ∈ id_pos t1)); [|done]. by apply (Hid (3 + q)%nat).
    + change (S (S (S q))) with (3 + q)%nat. by rewrite decide_False, decide_True.
Qed.

Lemma shallow_intro t1 t2 : type_wf t1 → type_wf t2 → bt_name_off t1 = bt_name_off t2 → bt_info t1 = bt_info t2 →
  (2%nat ∈ id_pos t1 ∨ bt_size t1 = bt_size t2) →
  (∀ q, (q < length (bt_rest t1))%nat → bt_rest t1 !!! q = bt_rest t2 !!! q ∨ (3 + q)%nat ∉ str_pos t1 ∧ (3 + q)%nat ∈ id_pos t1) →
  shallow t1 t2.
Proof.
  intros Hw1 Hw2 Hn Hi Hs Hr. apply shape_intro; [exact Hw1|exact Hn|exact Hi|by rewrite (wf_rest_length t1 t2 Hw1 Hw2 (eq_sym Hi))|..].
  - destruct (decide (2%nat ∈ id_pos t1)) as [|Hno]; [exact I|]. destruct Hs as [Hs|Hs]; [by destruct Hno|exact Hs].
  - intros q Hq. cbv zeta. destruct (Hr q Hq) as [H|[H1 H2]]; [by left|right]. split; [exact H1|]. split; [exact H2|exact I].
  - intros. exact I.
Qed.

(** What a kind's positions are. *)
Ltac kind_pos Hk := unfold str_pos, id_pos; cbv zeta; rewrite Hk; cbn.

Lemma composite_pos t : btf_is_composite t = true →
  str_pos t = O :: each_pos (Z.to_nat (btf_vlen t)) 3 3 ∧ id_pos t = each_pos (Z.to_nat (btf_vlen t)) 3 4 ∧
  words_behind (btf_kind t) (btf_vlen t) = btf_vlen t * 3.
Proof.
  unfold btf_is_composite. intros [Hk|Hk]%orb_true_iff; apply Z.eqb_eq in Hk; unfold words_behind; kind_pos Hk; done.
Qed.

Lemma composite_info t1 t2 : bt_info t1 = bt_info t2 → btf_is_composite t1 = btf_is_composite t2.
Proof. intros E. unfold btf_is_composite. by rewrite (info_kind _ _ E). Qed.

Lemma member_eq_spec (f : btf_member → btf_member → bool) t1 t2 : type_wf t1 → type_wf t2 → btf_is_composite t1 = true → bt_info t1 = bt_info t2 →
  let m (t : btf_type) i := mkMember (bt_rest t !!! Z.to_nat (3 * i)) (bt_rest t !!! Z.to_nat (3 * i + 1)) (bt_rest t !!! Z.to_nat (3 * i + 2)) in
  ∃ e, items_equal t1 (λ i, m1 ← btf_member_at t1 i; m2 ← btf_member_at t2 i; Some (f m1 m2)) = Some e ∧
    (e = true ↔ ∀ i, 0 ≤ i < btf_vlen t1 → f (m t1 i) (m t2 i) = true).
Proof.
  intros Hw1 Hw2 Hk Hi m. apply (items_equal_spec t1 _ (λ i, f (m t1 i) (m t2 i))). intros j Hj.
  rewrite (member_at_words t1 Hw1 j Hj Hk). rewrite (member_at_words t2 Hw2 j); [done| |].
  - by rewrite <- (info_vlen _ _ Hi).
  - by rewrite <- (composite_info _ _ Hi).
Qed.

(** Hashes exist. *)
Lemma hash_items_some n : ∀ i item h, (∀ j, i ≤ j < i + Z.of_nat n → is_Some (item j)) → is_Some (hash_items n i item h).
Proof.
  induction n as [|n IH]; intros i item h Hi; cbn [hash_items]; [by eexists|].
  destruct (Hi i ltac:(lia)) as [[x y] ->]. cbn [mbind option_bind]. apply IH. intros j Hj. apply Hi. lia.
Qed.

Lemma hash_struct_some t : type_wf t → btf_is_composite t = true → is_Some (btf_hash_struct t).
Proof.
  intros Hw Hk. apply hash_items_some. intros j Hj. rewrite (member_at_words t Hw j); [by eexists|lia|done].
Qed.
Lemma hash_fnproto_some t : type_wf t → btf_kind t = BTF_KIND_FUNC_PROTO → is_Some (btf_hash_fnproto t).
Proof.
  intros Hw Hk. apply hash_items_some. intros j Hj. rewrite (param_at_words t Hw j); [by eexists|lia|done].
Qed.
Lemma hash_array_some t : type_wf t → btf_kind t = BTF_KIND_ARRAY → is_Some (btf_hash_array t).
Proof. intros Hw Hk. unfold btf_hash_array. destruct (array_of_words t Hw Hk) as (x & y & n & _ & ->). by eexists. Qed.
Lemma hash_tag_some t : type_wf t → words_behind (btf_kind t) (btf_vlen t) = 1 → is_Some (btf_hash_int_decl_tag t).
Proof. intros Hw Hl. destruct (one_word t Hw Hl) as (w & _ & Hw0). unfold btf_hash_int_decl_tag. rewrite Hw0. by eexists. Qed.

(** A word of an item, by its place. *)
Lemma item_place q k n : (0 < k)%nat → (Z.of_nat q < n * Z.of_nat k) →
  ∃ i r, 0 ≤ i < n ∧ (r < k)%nat ∧ q = Z.to_nat (Z.of_nat k * i + Z.of_nat r).
Proof.
  intros Hk Hq. exists (Z.of_nat q / Z.of_nat k), (Z.to_nat (Z.of_nat q mod Z.of_nat k)).
  pose proof (Z.div_mod (Z.of_nat q) (Z.of_nat k) ltac:(lia)) as Hdm. pose proof (Z.mod_pos_bound (Z.of_nat q) (Z.of_nat k) ltac:(lia)) as Hr.
  split; [|split; lia]. split; [apply Z.div_pos; lia|apply Z.div_lt_upper_bound; lia].
Qed.

Lemma shallow_struct_spec t1 t2 : type_wf t1 → type_wf t2 → btf_is_composite t1 = true →
  ∃ e, btf_shallow_equal_struct t1 t2 = Some e ∧ (e = true → shallow t1 t2).
Proof.
  intros Hw1 Hw2 Hk. unfold btf_shallow_equal_struct. destruct (btf_equal_common t1 t2) eqn:Ec; [cbn [negb]|by exists false].
  apply equal_common_spec in Ec as (Hn & Hi & Hs).
  destruct (member_eq_spec (λ m1 m2, (m_name_off m1 =? m_name_off m2) && (m_offset m1 =? m_offset m2)) t1 t2 Hw1 Hw2 Hk Hi) as (e & He & Hiff).
  cbv beta in He. exists e. split; [exact He|]. intros ->. pose proof (proj1 Hiff eq_refl) as H. cbn [m_name_off m_offset] in H. clear Hiff He.
  destruct (composite_pos t1 Hk) as (Hsp & Hip & Hl). pose proof (wf_item_words t1 Hw1) as Hl'. rewrite Hl in Hl'.
  apply (shallow_intro t1 t2 Hw1 Hw2 Hn Hi); [by right|]. intros q Hq.
  destruct (item_place q 3 (btf_vlen t1) ltac:(lia) ltac:(lia)) as (i & r & Hir & Hr & ->). specialize (H i Hir).
  apply andb_true_iff in H as [H1 H2]. apply Z.eqb_eq in H1, H2.
  destruct r as [|[|[|r]]]; [| | |lia].
  - left. change (Z.of_nat 3 * i + Z.of_nat 0) with (3 * i + 0). by rewrite Z.add_0_r.
  - right. rewrite Hsp, Hip. rewrite elem_of_cons, !elem_of_each_pos. split; [|exists (Z.to_nat i); lia].
    intros [?|(j & ? & ?)]; lia.
  - left. exact H2.
Qed.

Lemma compat_array_spec t1 t2 : type_wf t1 → type_wf t2 → btf_kind t1 = BTF_KIND_ARRAY →
  ∃ e, btf_compat_array t1 t2 = Some e ∧ (e = true → shallow t1 t2).
Proof.
  intros Hw1 Hw2 Hk. unfold btf_compat_array. destruct (btf_equal_common t1 t2) eqn:Ec; [cbn [negb]|by exists false].
  apply equal_common_spec in Ec as (Hn & Hi & Hs). pose proof Hk as Hk2. rewrite (info_kind _ _ Hi) in Hk2.
  destruct (array_of_words t1 Hw1 Hk) as (a1 & b1 & c1 & E1 & ->). destruct (array_of_words t2 Hw2 Hk2) as (a2 & b2 & c2 & E2 & ->).
  cbn [mbind option_bind a_nelems]. eexists. split; [done|]. intros ->%Z.eqb_eq.
  apply (shallow_intro t1 t2 Hw1 Hw2 Hn Hi); [by right|]. rewrite E1, E2. intros q Hq. cbn [length] in Hq.
  destruct q as [|[|[|q]]]; [| | |lia].
  - right. kind_pos Hk. split; [by rewrite elem_of_cons, elem_of_nil; intros [?|?]|by left].
  - right. kind_pos Hk. split; [by rewrite elem_of_cons, elem_of_nil; intros [?|?]|by right; left].
  - by left.
Qed.

Lemma compat_fnproto_spec t1 t2 : type_wf t1 → type_wf t2 → btf_kind t1 = BTF_KIND_FUNC_PROTO →
  ∃ e, btf_compat_fnproto t1 t2 = Some e ∧ (e = true → shallow t1 t2).
Proof.
  intros Hw1 Hw2 Hk. unfold btf_compat_fnproto.
  destruct (Z.eqb_spec (bt_name_off t1) (bt_name_off t2)) as [Hn|]; [|by exists false].
  destruct (Z.eqb_spec (bt_info t1) (bt_info t2)) as [Hi|]; [cbn [andb negb]|by exists false].
  pose proof Hk as Hk2. rewrite (info_kind _ _ Hi) in Hk2.
  destruct (items_equal_spec t1 (λ i, p1 ← btf_param_at t1 i; p2 ← btf_param_at t2 i; Some (p_name_off p1 =? p_name_off p2))
    (λ i, bt_rest t1 !!! Z.to_nat (2 * i) =? bt_rest t2 !!! Z.to_nat (2 * i))) as (e & He & Hiff).
  { intros j Hj. rewrite (param_at_words t1 Hw1 j Hj Hk), (param_at_words t2 Hw2 j) by (first [done|by rewrite <- (info_vlen t1 t2)]). done. }
  exists e. split; [done|]. intros ->. pose proof (proj1 Hiff eq_refl) as H. clear Hiff He.
  pose proof (wf_item_words t1 Hw1) as Hl. rewrite Hk in Hl. cbn in Hl.
  apply (shallow_intro t1 t2 Hw1 Hw2 Hn Hi).
  - left. kind_pos Hk. by left.
  - intros q Hq. destruct (item_place q 2 (btf_vlen t1) ltac:(lia) ltac:(lia)) as (i & r & Hir & Hr & ->).
    specialize (H i Hir). apply Z.eqb_eq in H. destruct r as [|[|r]]; [| |lia].
    + left. change (Z.of_nat 2 * i + Z.of_nat 0) with (2 * i + 0). by rewrite Z.add_0_r.
    + right. kind_pos Hk. rewrite !elem_of_cons, !elem_of_each_pos. split; [|right; exists (Z.to_nat i); lia].
      intros [?|(j & ? & ?)]; lia.
Qed.

(** Kinds with nothing but one id. *)
Definition one_ref_kind (k : Z) : bool :=
  (k =? BTF_KIND_CONST) || (k =? BTF_KIND_VOLATILE) || (k =? BTF_KIND_RESTRICT) || (k =? BTF_KIND_PTR) ||
  (k =? BTF_KIND_TYPEDEF) || (k =? BTF_KIND_FUNC) || (k =? BTF_KIND_TYPE_TAG).

Lemma one_ref_spec t : type_wf t → one_ref_kind (btf_kind t) = true → bt_rest t = [] ∧ id_pos t = [2%nat] ∧ str_pos t = [O].
Proof.
  intros Hwf Hk. pose proof (wf_item_words t Hwf) as Hl. unfold one_ref_kind in Hk. rewrite !orb_true_iff, !Z.eqb_eq in Hk.
  assert (id_pos t = [2%nat] ∧ str_pos t = [O] ∧ words_behind (btf_kind t) (btf_vlen t) = 0) as (? & ? & E).
  { destruct Hk as [[[[[[Hk|Hk]|Hk]|Hk]|Hk]|Hk]|Hk]; unfold words_behind; kind_pos Hk; done. }
  rewrite E in Hl. split; [|done]. destruct (bt_rest t); [done|]. cbn in Hl. lia.
Qed.

Lemma one_ref_shallow t1 t2 : type_wf t1 → type_wf t2 → one_ref_kind (btf_kind t1) = true →
  bt_name_off t1 = bt_name_off t2 → bt_info t1 = bt_info t2 → shallow t1 t2.
Proof.
  intros Hw1 Hw2 Hk Hn Hi. pose proof Hk as Hk2. rewrite (info_kind _ _ Hi) in Hk2.
  destruct (one_ref_spec t1 Hw1 Hk) as (E1 & Hip & _). destruct (one_ref_spec t2 Hw2 Hk2) as (E2 & _ & _).
  apply (shallow_intro t1 t2 Hw1 Hw2 Hn Hi).
  - left. rewrite Hip. by left.
  - rewrite E1. cbn [length]. lia.
Qed.
