(* ===== verification/BtfDedupGraph.v ===== *)
(** The map of canonical types and the comparison of type graphs in the deduplication of
    BTF (BtfDedup.v): following the map ends, and what [btf_dedup_is_equiv] says of two
    types is so. *)
From stdpp Require Import base list sets.
From Stdlib Require Import ZArith Lia.
From S2P Require Import Prelude Bytes Mem Errno Btf BtfRaw BtfFile BtfMerge BtfDedup BtfSame BtfDedupEq.

#[local] Open Scope Z_scope.

(** * Arrays *)

Lemma aref_Some l i v : aref l i = Some v ↔ 0 ≤ i ∧ l !! Z.to_nat i = Some v.
Proof. unfold aref. destruct (Z.leb_spec 0 i); [|split; [by intros [=]|intros [? _]; lia]]. split; [intros Hv; by split|by intros [_ Hv]]. Qed.

Lemma aref_bound l i : is_Some (aref l i) ↔ 0 ≤ i < Z.of_nat (length l).
Proof.
  unfold is_Some. setoid_rewrite aref_Some. split.
  - intros (v & H0 & Hv%lookup_lt_Some). lia.
  - intros Hi. destruct (lookup_lt_is_Some_2 l (Z.to_nat i) ltac:(lia)) as [v Hv]. exists v. split; [lia|exact Hv].
Qed.

Lemma aset_Some l i v : 0 ≤ i < Z.of_nat (length l) → aset l i v = Some (<[Z.to_nat i := v]> l).
Proof. intros Hi. unfold aset. by destruct (proj2 (aref_bound l i) Hi) as [w ->]. Qed.

Lemma aref_set_eq l i v : 0 ≤ i < Z.of_nat (length l) → aref (<[Z.to_nat i := v]> l) i = Some v.
Proof. intros Hi. apply aref_Some. split; [lia|]. apply list_lookup_insert_eq. lia. Qed.
Lemma aref_set_ne l i j v : 0 ≤ i → i ≠ j → aref (<[Z.to_nat i := v]> l) j = aref l j.
Proof.
  intros Hi Hij. unfold aref. destruct (Z.leb_spec 0 j); [|done]. apply list_lookup_insert_ne. lia.
Qed.
Lemma aref_set l i j v : 0 ≤ i < Z.of_nat (length l) → aref (<[Z.to_nat i := v]> l) j = if decide (j = i) then Some v else aref l j.
Proof. intros Hi. destruct (decide (j = i)) as [->|]; [by apply aref_set_eq|apply aref_set_ne; [lia|done]]. Qed.

(** * Roots *)

(** [n] ids from [i] to the end [r] of its chain. *)
Inductive root (m : list Z) : nat → Z → Z → Prop :=
  | root_here i v : aref m i = Some v → id_mapped v = false ∨ v = i → root m 1 i i
  | root_step n i v r : aref m i = Some v → id_mapped v = true → v ≠ i → root m n v r → root m (S n) i r.

Definition rooted (m : list Z) : Prop := ∀ i, is_Some (aref m i) → ∃ n r, root m n i r.

Lemma root_functional m n i r n' r' : root m n i r → root m n' i r' → n = n' ∧ r = r'.
Proof.
  intros H. revert n' r'. induction H as [i v Hv He|n i v r Hv Hm Hne H IH]; intros n' r' H'; inversion H'; simplify_eq.
  - done.
  - by destruct He as [He|He]; [congruence|].
  - match goal with H : _ ∨ _ |- _ => destruct H as [He|He]; [congruence|done] end.
  - match goal with H : root m _ v _ |- _ => destruct (IH _ _ H) as [-> ->] end. done.
Qed.

Lemma root_valid m n i r : root m n i r → is_Some (aref m i) ∧ is_Some (aref m r).
Proof. induction 1 as [i v Hv|n i v r Hv _ _ _ [_ IH]]; by rewrite ?Hv; split. Qed.

Lemma root_end m n i r : root m n i r → root m 1 r r.
Proof. induction 1 as [i v Hv He|]; [by econstructor|done]. Qed.

(** The ids of a chain are different, so there are no more than the map has. *)
Lemma root_ids m n i r : root m n i r → ∃ l, length l = n ∧ NoDup l ∧ ∀ x, x ∈ l → is_Some (aref m x) ∧ ∃ k r', (k ≤ n)%nat ∧ root m k x r'.
Proof.
  induction 1 as [i v Hv He|n i v r Hv Hm Hne H (l & Hl & Hnd & IH)].
  - exists [i]. split; [done|]. split; [apply NoDup_singleton|]. intros x ->%list_elem_of_singleton. split; [by eexists|].
    exists 1%nat, i. split; [lia|by econstructor].
  - exists (i :: l). split; [cbn; lia|]. split.
    + apply NoDup_cons. split; [|done]. intros Hi. destruct (IH i Hi) as (_ & k & r' & Hk & Hr).
      destruct (root_functional _ _ _ _ _ _ Hr (root_step m n i v r Hv Hm Hne H)) as [-> _]. lia.
    + intros x [->|Hx]%elem_of_cons.
      * split; [by eexists|]. exists (S n), r. split; [lia|by eapply root_step].
      * destruct (IH x Hx) as (? & k & r' & ? & ?). split; [done|]. exists k, r'. split; [lia|done].
Qed.

Lemma root_bound m n i r : root m n i r → (n ≤ length m)%nat.
Proof.
  intros H. destruct (root_ids _ _ _ _ H) as (l & <- & Hnd & Hx). rewrite <- (Nat2Z.id (length m)), <- (length_seqZ 0).
  apply submseteq_length, NoDup_submseteq; [done|]. intros x Hl. destruct (Hx x Hl) as (Hb & _). apply aref_bound in Hb.
  apply elem_of_seqZ. lia.
Qed.

Lemma resolve_loop_root m n i r fuel : root m n i r → (n ≤ fuel)%nat → resolve_loop fuel m i = Some r.
Proof.
  intros H. revert fuel. induction H as [i v Hv He|n i v r Hv Hm Hne H IH]; intros [|fuel] Hf; try lia; cbn [resolve_loop]; rewrite Hv; cbn [mbind option_bind].
  - destruct He as [-> | ->]; [done|]. by rewrite Z.eqb_refl, andb_false_r.
  - rewrite Hm, (proj2 (Z.eqb_neq v i) Hne). cbn [andb negb]. apply IH. lia.
Qed.

Lemma resolve_root d n i r : root (dd_map d) n i r → resolve_type_id d i = Some r.
Proof. intros H. apply (resolve_loop_root _ n); [done|]. apply root_bound in H. lia. Qed.

(** ** Changing an entry *)

(** A chain that does not come through [a] stays; one that does goes on from its new value. *)
Lemma root_set m a v n i r : 0 ≤ a < Z.of_nat (length m) → root m n i r →
  (∃ n' r', root (<[Z.to_nat a := v]> m) n' a r') → ∃ n' r', root (<[Z.to_nat a := v]> m) n' i r'.
Proof.
  intros Ha H Hroot. induction H as [i w Hw He|n i w r Hw Hm Hne H IH]; (destruct (decide (i = a)) as [->|Hia]; [exact Hroot|]).
  - exists 1%nat, i. apply (root_here _ i w); [by rewrite aref_set_ne by lia|done].
  - destruct IH as (n' & r' & IH). exists (S n'), r'. apply (root_step _ n' i w); [by rewrite aref_set_ne by lia|done..].
Qed.

Lemma rooted_set m a v : 0 ≤ a < Z.of_nat (length m) → rooted m →
  (∃ n r, root (<[Z.to_nat a := v]> m) n a r) → rooted (<[Z.to_nat a := v]> m).
Proof.
  intros Ha Hm Hroot i Hi. apply aref_bound in Hi. rewrite length_insert in Hi.
  destruct (Hm i (proj2 (aref_bound m i) Hi)) as (n & r & H). by apply (root_set m a v n i r).
Qed.

(** The entry becomes the end of its chain. *)
Lemma rooted_set_end m a v : 0 ≤ a < Z.of_nat (length m) → rooted m → id_mapped v = false ∨ v = a → rooted (<[Z.to_nat a := v]> m).
Proof. intros Ha Hm Hv. apply rooted_set; [done..|]. exists 1%nat, a. apply (root_here _ a v); [by apply aref_set_eq|done]. Qed.

Lemma root_avoid m a v n i r : 0 ≤ a < Z.of_nat (length m) → root m n i r → (∃ k, root m k a a) → r ≠ a → root (<[Z.to_nat a := v]> m) n i r.
Proof.
  intros Ha H [k Hk] Hr. induction H as [i w Hw He|n i w r Hw Hm Hne H IH].
  - apply (root_here _ i w); [by rewrite aref_set_ne by lia|done].
  - apply (root_step _ n i w); [|done|done|by apply IH]. rewrite aref_set_ne; [done|lia|]. intros ->.
    destruct (root_functional _ _ _ _ _ _ Hk (root_step m n i w r Hw Hm Hne H)) as [_ ->]. done.
Qed.

(** An entry goes to an id whose chain ends elsewhere: either that end is where the chain
    begins, or the entry was an end. *)
Lemma rooted_link m a v n r : 0 ≤ a < Z.of_nat (length m) → rooted m → id_mapped v = true → root m n v r → r ≠ a → v ≠ a →
  v = r ∨ (∃ k, root m k a a) → rooted (<[Z.to_nat a := v]> m).
Proof.
  intros Ha Hm Hv Hr Hra Hva Hc. apply rooted_set; [done..|].
  assert (∃ n', root (<[Z.to_nat a := v]> m) n' v r) as [n' Hr'].
  { destruct Hc as [<-|Hc].
    - exists 1%nat. pose proof (root_end _ _ _ _ Hr) as H. clear Hr. inversion H as [x w Hw He|x y w z ? ? ? H0]; subst; [|inversion H0].
      eapply root_here; [rewrite aref_set_ne; [exact Hw|lia|done]|done].
    - exists n. by apply root_avoid. }
  exists (S n'), r. apply (root_step _ n' a v); [by apply aref_set_eq|done..].
Qed.

(** * The object *)

(** An object without a base whose types are well formed and refer to types only. *)
Record whole (b : btf) : Prop := {
  wh_base : b_base b = None; wh_start : b_start_id b = 1; wh_strs : b_start_str_off b = 0;
  wh_cnt : Z.of_nat (length (b_types b)) ≤ BTF_MAX_NR_TYPES;
  wh_types : Forall type_wf (b_types b);
  wh_closed : closed (btf_type_by_id b);
}.

Definition type_cnt (b : btf) : Z := 1 + Z.of_nat (length (b_types b)).

Section whole.
Context (b : btf) (Hb : whole b).
Let ty : Z → option btf_type := btf_type_by_id b.

Lemma whole_type_by_id i : btf_type_by_id b i = if i =? 0 then Some btf_void else if i <? 1 then None else b_types b !! Z.to_nat (i - 1).
Proof. destruct Hb as [H1 H2 _ _ _ _], b as [ts st so strs base ptr]. cbn in *. subst. done. Qed.

Lemma whole_cnt : btf__type_cnt b = type_cnt b.
Proof.
  unfold btf__type_cnt, b_nr_types, type_cnt. rewrite (wh_start b Hb). apply wrap_small. pose proof (wh_cnt b Hb).
  unfold in_u, BTF_MAX_NR_TYPES in *. lia.
Qed.

Lemma ty_valid i : is_Some (ty i) ↔ 0 ≤ i < type_cnt b.
Proof.
  unfold ty, type_cnt. rewrite whole_type_by_id. destruct (Z.eqb_spec i 0) as [->|]; [split; [lia|by eexists]|].
  destruct (Z.ltb_spec i 1); [split; [by intros [? ?]|lia]|]. rewrite lookup_lt_is_Some. lia.
Qed.

Lemma checked_by_id i : 0 ≤ i < type_cnt b → btf__type_by_id b i = btf_type_by_id b i.
Proof. intros Hi. unfold btf__type_by_id. rewrite whole_cnt. destruct (Z.geb_spec i (type_cnt b)); [lia|done]. Qed.

Lemma ty_cases i t : ty i = Some t → i = 0 ∧ t = btf_void ∨ 1 ≤ i < type_cnt b ∧ type_wf t ∧ b_types b !! Z.to_nat (i - 1) = Some t.
Proof.
  intros H. pose proof (proj1 (ty_valid i) ltac:(by eexists)) as Hi. unfold ty in H. rewrite whole_type_by_id in H.
  destruct (Z.eqb_spec i 0) as [->|]; [left; split; [done|congruence]|right].
  destruct (Z.ltb_spec i 1); [done|]. split; [lia|]. split; [|done]. eapply Forall_lookup_1; [apply (wh_types b Hb)|exact H].
Qed.

Lemma valid_mapped i : is_Some (ty i) → id_mapped i = true.
Proof.
  intros Hi%ty_valid. unfold id_mapped. apply Z.leb_le. pose proof (wh_cnt b Hb). unfold type_cnt, BTF_MAX_NR_TYPES in *. lia.
Qed.

(** What an id of a type refers to, by its reading. *)
Lemma ref_valid i t p w : ty i = Some t → p ∈ id_pos t → type_words t !! p = Some w → is_Some (ty w).
Proof. apply (wh_closed b Hb). Qed.

Context (E : Z → Z → Prop) `{!Sameness ty E}.

(** ** The map *)

Record map_ok (m : list Z) : Prop := {
  mo_len : Z.of_nat (length m) = type_cnt b;
  mo_rooted : rooted m;
  mo_sound : ∀ i v, aref m i = Some v → id_mapped v = true → E i v;
  mo_defined : ∀ i v, aref m i = Some v → id_mapped v = true → defines ty i → defines ty v;
}.

Lemma map_valid m i : map_ok m → is_Some (aref m i) ↔ is_Some (ty i).
Proof. intros Hm. rewrite aref_bound, ty_valid, (mo_len m Hm). done. Qed.

Lemma root_same m n i r : map_ok m → root m n i r → E i r.
Proof.
  intros Hm. induction 1 as [i v Hv He|n i v r Hv Hmv Hne H IH].
  - apply sm_refl. apply (map_valid m i Hm). by eexists.
  - eapply sm_trans; [by eapply (mo_sound m Hm)|done].
Qed.

(** A definition does not become a forward declaration. *)
Lemma root_defined m n i r : map_ok m → root m n i r → defines ty i → defines ty r.
Proof. intros Hm. induction 1 as [|n i v r Hv Hmv Hne H IH]; [done|]. intros Hi. by eapply IH, (mo_defined m Hm). Qed.

Lemma resolve_ok d i : map_ok (dd_map d) → is_Some (ty i) → ∃ r n, resolve_type_id d i = Some r ∧ root (dd_map d) n i r ∧ E i r.
Proof.
  intros Hm Hi. apply (map_valid _ i Hm) in Hi. destruct (mo_rooted _ Hm i Hi) as (n & r & Hr). exists r, n.
  split; [by eapply resolve_root|]. split; [done|by eapply root_same].
Qed.

(** The updates of the map. *)
Lemma map_ok_end m a v : map_ok m → 0 ≤ a < type_cnt b → id_mapped v = false ∨ v = a → map_ok (<[Z.to_nat a := v]> m).
Proof.
  intros [Hl Hr Hs Hd] Ha Hv. split; [by rewrite length_insert|apply rooted_set_end; [lia|done..]| |]; intros i w; rewrite aref_set by lia.
  - destruct (decide (i = a)) as [->|]; [|apply Hs]. intros [= <-] Hm. destruct Hv as [Hv| ->]; [congruence|].
    apply sm_refl, ty_valid. lia.
  - destruct (decide (i = a)) as [->|]; [|apply Hd]. intros [= <-] Hm. destruct Hv as [Hv| ->]; [congruence|done].
Qed.

Lemma map_ok_link m a v n r : map_ok m → E a v → (defines ty a → defines ty v) → root m n v r → r ≠ a → v = r ∨ (∃ k, root m k a a) → map_ok (<[Z.to_nat a := v]> m).
Proof.
  intros [Hl Hr Hs Hd] He Hdef Hroot Hra Hc. destruct (sm_dom a v He) as [Ha%ty_valid Hv].
  assert (v ≠ a) as Hva.
  { intros ->. destruct Hc as [->|[k Hk]]; [done|]. by destruct (root_functional _ _ _ _ _ _ Hk Hroot) as [_ ?]. }
  split; [by rewrite length_insert| | |].
  - eapply rooted_link; [lia|done|by apply valid_mapped|done..].
  - intros i w. rewrite aref_set by lia. destruct (decide (i = a)) as [->|]; [|apply Hs]. by intros [= <-] _.
  - intros i w. rewrite aref_set by lia. destruct (decide (i = a)) as [->|]; [|apply Hd]. by intros [= <-] _.
Qed.

Lemma set_map_eq d a v : map_ok (dd_map d) → 0 ≤ a < type_cnt b → set_map d a v = Some (dd_with_map d (<[Z.to_nat a := v]> (dd_map d))).
Proof. intros Hm Ha. unfold set_map. rewrite aset_Some by (rewrite (mo_len _ Hm); lia). done. Qed.

(** ** The hypothetical map *)

Record hypot_ok (h : hypot) : Prop := {
  ho_len : Z.of_nat (length (hy_map h)) = type_cnt b;
  ho_list : ∀ i, i ∈ hy_list h ↔ ∃ v, aref (hy_map h) i = Some v ∧ id_mapped v = true;
  ho_nodup : NoDup (hy_list h);
  ho_valid : ∀ i v, aref (hy_map h) i = Some v → id_mapped v = true → is_Some (ty v);
  ho_cap : Z.of_nat (length (hy_list h)) ≤ hy_cap h ≤ 2 ^ 33;
  ho_adjust : hy_adjust_canon h = false;
}.

(** [a] is the candidate that is supposed to be the canonical type [c]. *)
Definition hyp (h : hypot) (a c : Z) : Prop := aref (hy_map h) c = Some a ∧ id_mapped a = true.

Lemma hypot_list_bound h : hypot_ok h → Z.of_nat (length (hy_list h)) ≤ type_cnt b ∧
  (∀ c, aref (hy_map h) c = None ∨ (∃ a, hyp h a c) ∨ ∃ v, aref (hy_map h) c = Some v ∧ id_mapped v = false ∧ Z.of_nat (length (hy_list h)) < type_cnt b).
Proof.
  intros Hh.
  assert (∀ l, NoDup l → (∀ i, i ∈ l → is_Some (aref (hy_map h) i)) → Z.of_nat (length l) ≤ type_cnt b) as Hbound.
  { intros l Hnd Hl. enough (length l ≤ Z.to_nat (type_cnt b))%nat as H by (unfold type_cnt in *; lia).
    rewrite <- (length_seqZ 0). apply submseteq_length, NoDup_submseteq; [done|]. intros i Hi%Hl.
    apply aref_bound in Hi. rewrite (ho_len h Hh) in Hi. apply elem_of_seqZ. lia. }
  assert (∀ i, i ∈ hy_list h → is_Some (aref (hy_map h) i)) as Hl.
  { intros i Hi. apply (ho_list h Hh) in Hi as (v & -> & _). by eexists. }
  split; [by apply Hbound; [apply (ho_nodup h Hh)|]|]. intros c. destruct (aref (hy_map h) c) as [v|] eqn:Ev; [right|by left].
  destruct (id_mapped v) eqn:Em; [left; by exists v|right]. exists v. split; [done|]. split; [done|].
  specialize (Hbound (c :: hy_list h)). cbn [length] in Hbound. enough (Z.of_nat (S (length (hy_list h))) ≤ type_cnt b) by lia. apply Hbound.
  - apply NoDup_cons. split; [|apply (ho_nodup h Hh)]. rewrite (ho_list h Hh). intros (v' & Hv' & Hm'). congruence.
  - intros i [->|Hi]%elem_of_cons; [by rewrite Ev|by apply Hl].
Qed.

Record dd_ok (d : btf_dedup) : Prop := {
  dk_btf : dd_btf d = b; dk_alloc : dd_alloc d = []; dk_map : map_ok (dd_map d); dk_hypot : hypot_ok (dd_hypot d);
}.

Lemma dd_ok_hypot d h : dd_ok d → hypot_ok h → dd_ok (dd_with_hypot d h).
Proof. intros [? ? ? ?] ?. by split. Qed.
Lemma dd_ok_map d m : dd_ok d → map_ok m → dd_ok (dd_with_map d m).
Proof. intros [? ? ? ?] ?. by split. Qed.

Lemma reallocarray_room cap : 0 ≤ cap ≤ 2 ^ 33 → is_Some (libbpf_reallocarray true cap 4).
Proof. intros Hc. unfold libbpf_reallocarray. destruct (Z.gtb_spec (cap * 4) SIZE_MAX) as [H|]; [unfold SIZE_MAX in H; lia|by eexists]. Qed.

Lemma hypot_add_spec d from to v : dd_ok d → is_Some (ty to) → aref (hy_map (dd_hypot d)) from = Some v → id_mapped v = false →
  ∃ h, btf_dedup_hypot_map_add d from to = Some (dd_with_hypot d h, 0) ∧ hypot_ok h ∧
    length (hy_list h) = S (length (hy_list (dd_hypot d))) ∧ ∀ a c, hyp h a c ↔ hyp (dd_hypot d) a c ∨ a = to ∧ c = from.
Proof.
  intros Hd Hto Hv Hm. pose proof (dk_hypot d Hd) as Hh. destruct (hypot_list_bound _ Hh) as [Hlb _]. pose proof (wh_cnt b Hb) as Hcnt.
  unfold btf_dedup_hypot_map_add. set (h := dd_hypot d) in *. rewrite (dk_alloc d Hd).
  pose proof (ho_cap h Hh) as Hcap. unfold type_cnt, BTF_MAX_NR_TYPES in *.
  set (full := Z.of_nat (length (hy_list h)) =? hy_cap h). set (cap := if full then u64 (hy_cap h + Z.max 16 (hy_cap h / 2)) else hy_cap h).
  assert (Z.of_nat (length (hy_list h)) + 1 ≤ cap ≤ 2 ^ 33) as Hc.
  { subst cap full. destruct (Z.eqb_spec (Z.of_nat (length (hy_list h))) (hy_cap h)); [|lia].
    rewrite wrap_small; [|unfold in_u]; Z.to_euclidean_division_equations; lia. }
  assert ((if full then pop_alloc [] else (true, [])) = (true, [])) as -> by by destruct full.
  destruct (reallocarray_room cap ltac:(lia)) as [x Hx]. rewrite Hx. rewrite bool_decide_true by by eexists. rewrite andb_false_r.
  assert (0 ≤ from < Z.of_nat (length (hy_map h))) as Hf by (apply aref_bound; by eexists). rewrite aset_Some by done. cbn [mbind option_bind].
  exists (mkHypot (<[Z.to_nat from := to]> (hy_map h)) (hy_list h ++ [from]) cap (hy_adjust_canon h)). split_and!.
  - do 2 f_equal. unfold dd_with_hypot, dd_with_alloc. cbn. by rewrite <- (dk_alloc d Hd).
  - assert (from ∉ hy_list h) as Hnew. { rewrite (ho_list h Hh). intros (v' & Hv' & Hm'). congruence. }
    split; cbn [hy_map hy_list hy_cap hy_adjust_canon].
    + rewrite length_insert. apply (ho_len h Hh).
    + intros i. rewrite elem_of_app, list_elem_of_singleton, (ho_list h Hh). rewrite aref_set by done. destruct (decide (i = from)) as [->|Hne].
      * split; [intros _|by right]. exists to. split; [done|by apply valid_mapped].
      * split; [by intros [?|?]|by left].
    + apply NoDup_app. split; [apply (ho_nodup h Hh)|]. split; [|apply NoDup_singleton]. intros i Hi ->%list_elem_of_singleton. done.
    + intros i w. rewrite aref_set by done. destruct (decide (i = from)) as [->|]; [by intros [= <-]|apply (ho_valid h Hh)].
    + rewrite length_app. cbn [length]. lia.
    + apply (ho_adjust h Hh).
  - cbn. rewrite length_app. cbn. lia.
  - intros a c. unfold hyp. cbn [hy_map]. rewrite aref_set by done. destruct (decide (c = from)) as [->|Hne].
    + split; [intros [[= ->] _]; by right|]. intros [[? ?]|[-> _]]; [congruence|]. split; [done|by apply valid_mapped].
    + split; [by left|]. by intros [?|[_ ?]].
Qed.

(** Clearing the map. *)
Lemma clear_loop l : ∀ m, (∀ i, i ∈ l → is_Some (aref m i)) →
  ∃ m', foldM (λ m id, aset m id BTF_UNPROCESSED_ID) m l = Some m' ∧ length m' = length m ∧
    ∀ i, aref m' i = if decide (i ∈ l) then Some BTF_UNPROCESSED_ID else aref m i.
Proof.
  induction l as [|x l IH]; intros m Hl; cbn [foldM]; [by exists m|].
  assert (0 ≤ x < Z.of_nat (length m)) as Hx by (apply aref_bound, Hl; left). rewrite aset_Some by done. cbn [mbind option_bind].
  destruct (IH (<[Z.to_nat x := BTF_UNPROCESSED_ID]> m)) as (m' & Hm' & Hlen & Href).
  { intros i Hi. apply aref_bound. rewrite length_insert. apply aref_bound, Hl. by right. }
  exists m'. split; [done|]. rewrite length_insert in Hlen. split; [done|]. intros i. rewrite Href, aref_set by done.
  destruct (decide (i ∈ l)); [rewrite decide_True by (by right); done|]. destruct (decide (i = x)) as [->|]; [by rewrite decide_True by left|].
  rewrite decide_False; [done|]. by rewrite not_elem_of_cons.
Qed.

Lemma clear_spec d : dd_ok d → ∃ h, btf_dedup_clear_hypot_map d = Some (dd_with_hypot d h) ∧ hypot_ok h ∧ hy_list h = [] ∧ ∀ a c, ¬ hyp h a c.
Proof.
  intros Hd. pose proof (dk_hypot d Hd) as Hh. unfold btf_dedup_clear_hypot_map. set (h := dd_hypot d) in *.
  destruct (clear_loop (hy_list h) (hy_map h)) as (m & Hm & Hlen & Href).
  { intros i (v & -> & _)%(ho_list h Hh). by eexists. }
  rewrite Hm. cbn [mbind option_bind]. exists (mkHypot m [] (hy_cap h) false).
  assert (∀ i v, aref m i = Some v → id_mapped v = false) as Hun.
  { intros i v. rewrite Href. destruct (decide (i ∈ hy_list h)) as [|Hi]; [by intros [= <-]|]. intros Hv.
    destruct (id_mapped v) eqn:Em; [|done]. destruct Hi. apply (ho_list h Hh). by exists v. }
  split; [done|]. split; [|split; [done|]].
  - split; cbn [hy_map hy_list hy_cap hy_adjust_canon].
    + by rewrite Hlen; apply (ho_len h Hh).
    + intros i. split; [by intros ?%elem_of_nil|]. intros (v & Hv & Hmv). by rewrite (Hun i v Hv) in Hmv.
    + apply NoDup_nil_2.
    + intros i v Hv Hmv. by rewrite (Hun i v Hv) in Hmv.
    + cbn. pose proof (ho_cap h Hh). lia.
    + done.
  - intros a c [Hv Hmv]. cbn in Hv. by rewrite (Hun c a Hv) in Hmv.
Qed.

(** ** The comparison *)

(** Types of which the comparison may be asked without an error. *)
Definition plain_id (i : Z) : Prop :=
  ∀ t, ty i = Some t → btf_kind t ≠ BTF_KIND_VAR ∧ btf_kind t ≠ BTF_KIND_DATASEC ∧ btf_kind t ≠ BTF_KIND_DECL_TAG.
Definition plain_refs : Prop :=
  ∀ i t p w, ty i = Some t → plain_id i → p ∈ id_pos t → type_words t !! p = Some w → plain_id w.

Abbreviation sup h := (supposed E (hyp h)).

(** Every supposition of [h'] is one of [h], or the types agree as far as supposed. *)
Definition justifies (h h' : hypot) : Prop :=
  (∀ a c, hyp h a c → hyp h' a c) ∧
  ∀ a c, hyp h' a c → hyp h a c ∨ ∃ ta tc, ty a = Some ta ∧ ty c = Some tc ∧ loc eq (sup h') ta tc.

(** What is kept whatever the answer is. *)
Definition extends (d d' : btf_dedup) (h' : hypot) : Prop :=
  d' = dd_with_hypot d h' ∧ hypot_ok h' ∧ (length (hy_list (dd_hypot d)) ≤ length (hy_list h'))%nat ∧
  ∀ a c, hyp (dd_hypot d) a c → hyp h' a c.

(** The answer [eq]; [P] is what a positive one says. *)
Definition answers (d : btf_dedup) (plain : Prop) (res : option (btf_dedup * Z)) (P : hypot → Prop) : Prop :=
  ∃ d' h' e, res = Some (d', e) ∧ extends d d' h' ∧ (e < 0 → e = - EINVAL) ∧ (plain → plain_refs → 0 ≤ e) ∧
    (0 < e → justifies (dd_hypot d) h' ∧ P h').

Lemma extends_refl d : dd_ok d → extends d d (dd_hypot d).
Proof. intros Hd. split; [by destruct d|]. split; [apply (dk_hypot d Hd)|]. done. Qed.

Lemma justifies_refl h : justifies h h.
Proof. split; [done|]. intros. by left. Qed.

Lemma sup_mono h h' x y : (∀ a c, hyp h a c → hyp h' a c) → sup h x y → sup h' x y.
Proof. apply supposed_mono. Qed.

Lemma justifies_trans h1 h2 h3 : justifies h1 h2 → justifies h2 h3 → justifies h1 h3.
Proof.
  intros [H1 J1] [H2 J2]. split; [auto|]. intros a c Hac. destruct (J2 a c Hac) as [H|H]; [|by right].
  destruct (J1 a c H) as [H'|(ta & tc & Ha & Hc & Hl)]; [by left|right]. exists ta, tc. split; [done|]. split; [done|].
  eapply loc_impl; [exact Hl|]. intros p w1 w2 _ _ _. by apply sup_mono.
Qed.

Lemma answers_now d plain (P : hypot → Prop) : dd_ok d → P (dd_hypot d) → answers d plain (Some (d, 1)) P.
Proof.
  intros Hd HP. exists d, (dd_hypot d), 1. split; [done|]. split; [by apply extends_refl|]. split; [lia|]. split; [lia|].
  intros _. split; [apply justifies_refl|done].
Qed.
Lemma answers_no d plain (P : hypot → Prop) : dd_ok d → answers d plain (Some (d, 0)) P.
Proof.
  intros Hd. exists d, (dd_hypot d), 0. split; [done|]. split; [by apply extends_refl|]. split; [lia|]. split; [lia|]. lia.
Qed.
Lemma answers_bool d plain (P : hypot → Prop) e : dd_ok d → (e = true → P (dd_hypot d)) → answers d plain (Some (d, bool_eq e)) P.
Proof. intros Hd HP. destruct e; [apply answers_now; auto|by apply answers_no]. Qed.
Lemma answers_error d (plain : Prop) (P : hypot → Prop) : dd_ok d → ¬ plain → answers d plain (Some (d, - EINVAL)) P.
Proof.
  intros Hd HP. exists d, (dd_hypot d), (- EINVAL). split; [done|]. split; [by apply extends_refl|]. split; [done|]. split; [tauto|].
  unfold EINVAL. lia.
Qed.

Lemma answers_weaken d (plain plain' : Prop) res (P P' : hypot → Prop) : answers d plain res P → (plain' → plain_refs → plain) →
  (∀ h, (∀ a c, hyp (dd_hypot d) a c → hyp h a c) → P h → P' h) → answers d plain' res P'.
Proof.
  intros (d' & h' & e & Hr & He & Hn & Hpl & Hp) Hplain HP. exists d', h', e. split; [done|]. split; [done|]. split; [done|]. split; [tauto|].
  intros H0. destruct (Hp H0) as [Hj Hph]. split; [done|]. apply HP; [apply Hj|done].
Qed.

(** One comparison, then, when it is positive, another. *)
Lemma answers_bind d (plain1 plain2 : Prop) res (P1 P2 : hypot → Prop) (k : btf_dedup → option (btf_dedup * Z)) : dd_ok d →
  answers d plain1 res P1 →
  (∀ d' h', dd_ok d' → dd_hypot d' = h' → extends d d' h' → P1 h' → answers d' plain2 (k d') P2) →
  answers d (plain1 ∧ plain2) ('(d', e) ← res; if e <=? 0 then Some (d', e) else k d')
    (λ h, P2 h ∧ ∃ h1, P1 h1 ∧ ∀ a c, hyp h1 a c → hyp h a c).
Proof.
  intros Hd (d1 & h1 & e1 & -> & He1 & Hn1 & Hpl1 & Hp1) Hk. cbn [mbind option_bind].
  destruct He1 as (-> & Hh1 & Hlen1 & Hext1). destruct (Z.leb_spec e1 0) as [Hle|Hgt].
  - exists (dd_with_hypot d h1), h1, e1. split; [done|]. split; [by split_and!|]. split; [done|]. split; [tauto|lia].
  - destruct (Hp1 Hgt) as [Hj1 HP1]. destruct (Hk (dd_with_hypot d h1) h1 (dd_ok_hypot d h1 Hd Hh1) eq_refl ltac:(by split_and!) HP1)
      as (d2 & h2 & e2 & -> & (-> & Hh2 & Hlen2 & Hext2) & Hn2 & Hpl2 & Hp2).
    cbn [dd_hypot dd_with_hypot] in *. exists (dd_with_hypot d h2), h2, e2. split; [done|]. split; [split_and!; [done..|lia|auto]|].
    split; [done|]. split; [tauto|]. intros H0. destruct (Hp2 H0) as [Hj2 HP2]. split; [by eapply justifies_trans|]. split; [done|].
    exists h1. split; [done|apply Hj2].
Qed.

(** ** A comparison by means of another *)

Definition calls_ok (f : btf_dedup → Z → Z → option (btf_dedup * Z)) (n : nat) : Prop :=
  ∀ d a c, dd_ok d → is_Some (ty a) → is_Some (ty c) → (Z.to_nat (type_cnt b) < n + length (hy_list (dd_hypot d)))%nat →
    answers d (plain_id a) (f d a c) (λ h, sup h a c).

Lemma extends_ok d d' h' n : dd_ok d → extends d d' h' → (Z.to_nat (type_cnt b) < n + length (hy_list (dd_hypot d)))%nat →
  dd_ok d' ∧ (Z.to_nat (type_cnt b) < n + length (hy_list (dd_hypot d')))%nat ∧ dd_hypot d' = h'.
Proof. intros Hd (-> & Hh & Hl & _) Hn. split; [by apply dd_ok_hypot|]. cbn. split; [lia|done]. Qed.

Lemma equiv_items_ok f n : calls_ok f n → ∀ k i ids d, dd_ok d → (Z.to_nat (type_cnt b) < n + length (hy_list (dd_hypot d)))%nat →
  (∀ j, i ≤ j < i + Z.of_nat k → ∃ a c, ids j = Some (a, c) ∧ is_Some (ty a) ∧ is_Some (ty c)) →
  answers d (∀ j a c, i ≤ j < i + Z.of_nat k → ids j = Some (a, c) → plain_id a) (equiv_items f k i ids d)
    (λ h, ∀ j a c, i ≤ j < i + Z.of_nat k → ids j = Some (a, c) → sup h a c).
Proof.
  intros Hf. induction k as [|k IH]; intros i ids d Hd Hn Hids; cbn [equiv_items].
  - apply answers_now; [done|]. lia.
  - destruct (Hids i ltac:(lia)) as (a & c & Hi & Ha & Hc). rewrite Hi. cbn [mbind option_bind].
    eapply answers_weaken.
    + eapply (answers_bind d (plain_id a)); [done|by apply Hf|]. intros d' h' Hd' <- Hx _.
      destruct (extends_ok _ _ _ n Hd Hx Hn) as (_ & Hn' & _). apply IH; [done|done|]. intros j Hj. apply Hids. lia.
    + intros Hp _. split; [apply (Hp i a c); [lia|done]|]. intros j a' c' Hj. apply Hp. lia.
    + cbv beta. intros h _ (Hrest & h1 & H1 & Hm) j a' c' Hj Hjd. destruct (Z.eq_dec j i) as [->|].
      * rewrite Hi in Hjd. injection Hjd as <- <-. by eapply sup_mono.
      * apply (Hrest j a' c'); [lia|done].
Qed.

Lemma sup_refl h w : is_Some (ty w) → sup h w w.
Proof. intros Hw. left. by apply sm_refl. Qed.

Lemma loc_same h i t : ty i = Some t → loc eq (sup h) t t.
Proof.
  intros Ht. left. apply shape_refl; [done|]. intros p w Hp Hw. apply sup_refl. by eapply ref_valid.
Qed.

Lemma shallow_refs (R : Z → Z → Prop) t1 t2 : shallow t1 t2 →
  (∀ p w1 w2, p ∈ id_pos t1 → type_words t1 !! p = Some w1 → type_words t2 !! p = Some w2 → R w1 w2) → loc eq R t1 t2.
Proof. intros H HR. left. eapply shape_impl; [exact H|done|]. intros p w1 w2 Hp H1 H2 _. by eapply HR. Qed.

(** The reading of a word at a position behind the type. *)
Lemma word_at t q w : type_words t !! (3 + q)%nat = Some w → bt_rest t !!! q = w.
Proof. intros H. change (bt_rest t !! q = Some w) in H. by apply list_lookup_total_correct. Qed.
Lemma at_word t q : (q < length (bt_rest t))%nat → type_words t !! (3 + q)%nat = Some (bt_rest t !!! q).
Proof. intros H. change (bt_rest t !! q = Some (bt_rest t !!! q)). by apply list_lookup_lookup_total_lt. Qed.

Lemma fwd_compat (equal : btf_type → btf_type → option bool) t1 t2 : decides equal t1 → type_wf t2 → btf_is_any_enum t1 = true →
  ∃ e, (if negb (btf_is_enum_fwd t1) && negb (btf_is_enum_fwd t2) then equal t1 t2 else Some (equal_no_vlen t1 t2)) = Some e ∧
    (e = true → t1 = t2 ∨ tagged eq t1 t2 ∧ (btf_is_enum_fwd t1 = true ∨ btf_is_enum_fwd t2 = true)).
Proof.
  intros Hdec Hw2 Hk. destruct (btf_is_enum_fwd t1) eqn:F1; [|destruct (btf_is_enum_fwd t2) eqn:F2]; cbn [negb andb].
  - eexists. split; [done|]. unfold equal_no_vlen. rewrite !andb_true_iff, !Z.eqb_eq. intros [[H1 H2] H3]. right.
    split; [by split; [|right]|by left].
  - eexists. split; [done|]. unfold equal_no_vlen. rewrite !andb_true_iff, !Z.eqb_eq. intros [[H1 H2] H3]. right.
    split; [by split; [|right]|by right].
  - rewrite Hdec by done. eexists. split; [done|]. intros H%bool_decide_eq_true. by left.
Qed.

Section types.
Context (f : btf_dedup → Z → Z → option (btf_dedup * Z)) (n : nat) (Hf : calls_ok f n).
Context (a c : Z) (ta tc : btf_type) (Ha : ty a = Some ta) (Hc : ty c = Some tc) (Hwa : type_wf ta) (Hwc : type_wf tc).
Context (Hkind : btf_kind ta = btf_kind tc).
Context (d : btf_dedup) (Hd : dd_ok d) (Hn : (Z.to_nat (type_cnt b) < n + length (hy_list (dd_hypot d)))%nat).

Lemma kind_composite : btf_is_composite tc = btf_is_composite ta.
Proof. unfold btf_is_composite. by rewrite Hkind. Qed.

Lemma equal_ok equal : decides equal ta → answers d (plain_id a) (e ← equal ta tc; Some (d, bool_eq e)) (λ h, loc eq (sup h) ta tc).
Proof.
  intros Hdec. rewrite Hdec by done. cbn [mbind option_bind]. apply answers_bool; [done|]. intros <-%bool_decide_eq_true. by apply (loc_same _ a).
Qed.

Lemma compat_ok (compat : btf_type → btf_type → option bool) :
  (∃ e, compat ta tc = Some e ∧ (e = true → ta = tc ∨ tagged eq ta tc ∧ (btf_is_enum_fwd ta = true ∨ btf_is_enum_fwd tc = true))) →
  answers d (plain_id a) (e ← compat ta tc; Some (d, bool_eq e)) (λ h, loc eq (sup h) ta tc).
Proof.
  intros (e & -> & He). cbn [mbind option_bind]. apply answers_bool; [done|]. intros [<-|[H Hf0]]%He; [by apply (loc_same _ a)|right]. split; [done|].
  unfold forward. destruct Hf0 as [-> | ->]; rewrite orb_true_r; auto.
Qed.

Lemma plain_ref p w : plain_refs → plain_id a → p ∈ id_pos ta → type_words ta !! p = Some w → plain_id w.
Proof. intros Hp Hpa. by apply (Hp a ta p w Ha Hpa). Qed.

Lemma ref_ok : one_ref_kind (btf_kind ta) = true → bt_name_off ta = bt_name_off tc → bt_info ta = bt_info tc →
  answers d (plain_id a) (f d (bt_type ta) (bt_type tc)) (λ h, loc eq (sup h) ta tc).
Proof.
  intros Hk Hname Hinfo. destruct (one_ref_spec ta Hwa Hk) as (_ & Hip & _). pose proof Hk as Hk'. rewrite Hkind in Hk'.
  destruct (one_ref_spec tc Hwc Hk') as (_ & Hip' & _). eapply answers_weaken.
  - apply Hf; [done| | |done].
    + apply (ref_valid a ta 2 _ Ha); [rewrite Hip; by left|done].
    + apply (ref_valid c tc 2 _ Hc); [rewrite Hip'; by left|done].
  - intros Hp Hpl. apply (plain_ref 2); [done..|rewrite Hip; by left|done].
  - intros h _ H. apply shallow_refs; [by apply one_ref_shallow|]. intros p w1 w2 Hp H1 H2. rewrite Hip in Hp.
    apply list_elem_of_singleton in Hp as ->. cbn in H1, H2. by simplify_eq.
Qed.

Lemma array_ok : btf_kind ta = BTF_KIND_ARRAY → answers d (plain_id a)
  (e ← btf_compat_array ta tc;
   if negb e then Some (d, 0)
   else cand_arr ← btf_array_of ta; canon_arr ← btf_array_of tc;
        '(d, eq) ← f d (a_index_type cand_arr) (a_index_type canon_arr);
        if eq <=? 0 then Some (d, eq) else f d (a_type cand_arr) (a_type canon_arr)) (λ h, loc eq (sup h) ta tc).
Proof.
  intros Hk. destruct (compat_array_spec ta tc Hwa Hwc Hk) as (e & -> & He). cbn [mbind option_bind].
  destruct e; cbn [negb]; [|by apply answers_no]. specialize (He eq_refl). pose proof Hk as Hk'. rewrite Hkind in Hk'.
  destruct (array_of_words ta Hwa Hk) as (t1 & i1 & n1 & E1 & ->). destruct (array_of_words tc Hwc Hk') as (t2 & i2 & n2 & E2 & ->).
  cbn [mbind option_bind a_index_type a_type].
  assert (id_pos ta = [3%nat; 4%nat] ∧ id_pos tc = [3%nat; 4%nat]) as [Hip Hip'] by (split; [kind_pos Hk|kind_pos Hk']; done).
  assert (type_words ta !! 3%nat = Some t1 ∧ type_words ta !! 4%nat = Some i1) as [A1 A2] by (unfold type_words; by rewrite E1).
  assert (type_words tc !! 3%nat = Some t2 ∧ type_words tc !! 4%nat = Some i2) as [C1 C2] by (unfold type_words; by rewrite E2).
  assert (3%nat ∈ [3%nat; 4%nat] ∧ 4%nat ∈ [3%nat; 4%nat]) as [P3 P4] by (split; [by left|by right; left]).
  eapply answers_weaken.
  - eapply (answers_bind d (plain_id i1) (plain_id t1)); [done| |].
    + apply Hf; [done| | |done].
      * apply (ref_valid a ta 4 _ Ha); [by rewrite Hip|done].
      * apply (ref_valid c tc 4 _ Hc); [by rewrite Hip'|done].
    + intros d' h' Hd' <- Hx _. destruct (extends_ok _ _ _ n Hd Hx Hn) as (_ & Hn' & _). apply Hf; [done| | |done].
      * apply (ref_valid a ta 3 _ Ha); [by rewrite Hip|done].
      * apply (ref_valid c tc 3 _ Hc); [by rewrite Hip'|done].
  - intros Hp Hpl. split; [apply (plain_ref 4)|apply (plain_ref 3)]; rewrite ?Hip; done.
  - cbv beta. intros h _ (H1 & h1 & H2 & Hm). apply shallow_refs; [done|]. intros p w1 w2 Hp W1 W2. rewrite Hip in Hp.
    apply elem_of_cons in Hp as [->|Hp]; [by simplify_eq|]. apply list_elem_of_singleton in Hp as ->. simplify_eq. by eapply sup_mono.
Qed.

Lemma struct_ok : btf_is_composite ta = true → answers d (plain_id a)
  (e ← btf_shallow_equal_struct ta tc;
   if negb e then Some (d, 0)
   else equiv_items f (Z.to_nat (btf_vlen ta)) 0 (λ i, m1 ← btf_member_at ta i; m2 ← btf_member_at tc i; Some (m_type m1, m_type m2)) d)
  (λ h, loc eq (sup h) ta tc).
Proof.
  intros Hk. destruct (shallow_struct_spec ta tc Hwa Hwc Hk) as (e & -> & He). cbn [mbind option_bind].
  destruct e; cbn [negb]; [|by apply answers_no]. specialize (He eq_refl). pose proof Hk as Hk'. rewrite <- kind_composite in Hk'.
  destruct (composite_pos ta Hk) as (_ & Hip & Hla). destruct (composite_pos tc Hk') as (_ & Hip' & Hlc).
  pose proof (wf_item_words ta Hwa) as La. pose proof (wf_item_words tc Hwc) as Lc. rewrite Hla in La. rewrite Hlc in Lc.
  pose proof (info_vlen ta tc (proj1 He)) as Hv. pose proof (vlen_nonneg ta) as Hv0.
  set (ids := λ i : Z, m1 ← btf_member_at ta i; m2 ← btf_member_at tc i; Some (m_type m1, m_type m2)).
  assert (∀ j, 0 ≤ j < btf_vlen ta → ids j = Some (bt_rest ta !!! Z.to_nat (3 * j + 1), bt_rest tc !!! Z.to_nat (3 * j + 1))) as Hids.
  { intros j Hj. unfold ids. by rewrite (member_at_words ta Hwa j Hj Hk), (member_at_words tc Hwc j ltac:(lia) Hk'). }
  assert (∀ t j, btf_vlen t = btf_vlen ta → Z.of_nat (length (bt_rest t)) = btf_vlen t * 3 → id_pos t = each_pos (Z.to_nat (btf_vlen t)) 3 4 → 0 ≤ j < btf_vlen ta →
    (4 + 3 * Z.to_nat j)%nat ∈ id_pos t ∧ type_words t !! (4 + 3 * Z.to_nat j)%nat = Some (bt_rest t !!! Z.to_nat (3 * j + 1))) as Hat.
  { intros t j Hvt Hlt Hpt Hj. rewrite Hpt, elem_of_each_pos. split; [exists (Z.to_nat j); lia|].
    replace (4 + 3 * Z.to_nat j)%nat with (3 + Z.to_nat (3 * j + 1))%nat by lia. apply at_word. lia. }
  eapply answers_weaken.
  - apply (equiv_items_ok f n Hf); [done..|]. intros j Hj. eexists _, _. split; [apply Hids; lia|].
    destruct (Hat ta j eq_refl La Hip ltac:(lia)) as [Pa Wa]. destruct (Hat tc j (eq_sym Hv) Lc Hip' ltac:(lia)) as [Pc Wc].
    split; [exact (ref_valid a ta _ _ Ha Pa Wa)|exact (ref_valid c tc _ _ Hc Pc Wc)].
  - intros Hp Hpl j x y Hj Hjd. rewrite Hids in Hjd by lia. injection Hjd as <- _. destruct (Hat ta j eq_refl La Hip ltac:(lia)) as [Pa Wa]. exact (plain_ref _ _ Hpl Hp Pa Wa).
  - cbv beta. intros h _ H. apply shallow_refs; [done|]. intros p w1 w2 Hp W1 W2. rewrite Hip, elem_of_each_pos in Hp. destruct Hp as (i & Hi & ->).
    specialize (H (Z.of_nat i) _ _ ltac:(lia) (Hids (Z.of_nat i) ltac:(lia))).
    replace (4 + i * 3)%nat with (3 + Z.to_nat (3 * Z.of_nat i + 1))%nat in W1, W2 by lia. apply word_at in W1, W2. by rewrite W1, W2 in H.
Qed.

Lemma proto_ok : btf_kind ta = BTF_KIND_FUNC_PROTO → answers d (plain_id a)
  (e ← btf_compat_fnproto ta tc;
   if negb e then Some (d, 0)
   else '(d, eq) ← f d (bt_type ta) (bt_type tc);
        if eq <=? 0 then Some (d, eq)
        else equiv_items f (Z.to_nat (btf_vlen ta)) 0 (λ i, p1 ← btf_param_at ta i; p2 ← btf_param_at tc i; Some (p_type p1, p_type p2)) d)
  (λ h, loc eq (sup h) ta tc).
Proof.
  intros Hk. destruct (compat_fnproto_spec ta tc Hwa Hwc Hk) as (e & -> & He). cbn [mbind option_bind].
  destruct e; cbn [negb]; [|by apply answers_no]. specialize (He eq_refl). pose proof Hk as Hk'. rewrite Hkind in Hk'.
  assert (id_pos ta = 2%nat :: each_pos (Z.to_nat (btf_vlen ta)) 2 4) as Hip by (kind_pos Hk; done).
  assert (id_pos tc = 2%nat :: each_pos (Z.to_nat (btf_vlen tc)) 2 4) as Hip' by (kind_pos Hk'; done).
  pose proof (wf_item_words ta Hwa) as La. rewrite Hk in La. cbn in La. pose proof (wf_item_words tc Hwc) as Lc. rewrite Hk' in Lc. cbn in Lc.
  pose proof (info_vlen ta tc (proj1 He)) as Hv. pose proof (vlen_nonneg ta) as Hv0.
  set (ids := λ i : Z, p1 ← btf_param_at ta i; p2 ← btf_param_at tc i; Some (p_type p1, p_type p2)).
  assert (∀ j, 0 ≤ j < btf_vlen ta → ids j = Some (bt_rest ta !!! Z.to_nat (2 * j + 1), bt_rest tc !!! Z.to_nat (2 * j + 1))) as Hids.
  { intros j Hj. unfold ids. by rewrite (param_at_words ta Hwa j Hj Hk), (param_at_words tc Hwc j ltac:(lia) Hk'). }
  assert (∀ t j, btf_vlen t = btf_vlen ta → Z.of_nat (length (bt_rest t)) = btf_vlen t * 2 → id_pos t = 2%nat :: each_pos (Z.to_nat (btf_vlen t)) 2 4 → 0 ≤ j < btf_vlen ta →
    (4 + 2 * Z.to_nat j)%nat ∈ id_pos t ∧ type_words t !! (4 + 2 * Z.to_nat j)%nat = Some (bt_rest t !!! Z.to_nat (2 * j + 1))) as Hat.
  { intros t j Hvt Hlt Hpt Hj. rewrite Hpt, elem_of_cons, elem_of_each_pos. split; [right; exists (Z.to_nat j); lia|].
    replace (4 + 2 * Z.to_nat j)%nat with (3 + Z.to_nat (2 * j + 1))%nat by lia. apply at_word. lia. }
  assert (2%nat ∈ id_pos ta ∧ 2%nat ∈ id_pos tc) as [P2 P2'] by (rewrite Hip, Hip'; split; by left).
  eapply answers_weaken.
  - eapply (answers_bind d (plain_id (bt_type ta))); [done| |].
    + apply Hf; [done|by apply (ref_valid a ta 2)|by apply (ref_valid c tc 2)|done].
    + intros d' h' Hd' <- Hx _. destruct (extends_ok _ _ _ n Hd Hx Hn) as (_ & Hn' & _).
      apply (equiv_items_ok f n Hf); [done..|]. intros j Hj. eexists _, _. split; [apply Hids; lia|].
      destruct (Hat ta j eq_refl La Hip ltac:(lia)) as [Pa Wa]. destruct (Hat tc j (eq_sym Hv) Lc Hip' ltac:(lia)) as [Pc Wc].
    split; [exact (ref_valid a ta _ _ Ha Pa Wa)|exact (ref_valid c tc _ _ Hc Pc Wc)].
  - intros Hp Hpl. split; [by apply (plain_ref 2)|]. intros j x y Hj Hjd. rewrite Hids in Hjd by lia. injection Hjd as <- _.
    destruct (Hat ta j eq_refl La Hip ltac:(lia)) as [Pa Wa]. exact (plain_ref _ _ Hpl Hp Pa Wa).
  - cbv beta. intros h _ (H & h1 & H2 & Hm). apply shallow_refs; [done|]. intros p w1 w2 Hp W1 W2. rewrite Hip, elem_of_cons, elem_of_each_pos in Hp.
    destruct Hp as [->|(i & Hi & ->)]; [cbn in W1, W2; simplify_eq; by eapply sup_mono|].
    specialize (H (Z.of_nat i) _ _ ltac:(lia) (Hids (Z.of_nat i) ltac:(lia))).
    replace (4 + i * 2)%nat with (3 + Z.to_nat (2 * Z.of_nat i + 1))%nat in W1, W2 by lia. apply word_at in W1, W2. by rewrite W1, W2 in H.
Qed.

Lemma decides_one : btf_kind ta = BTF_KIND_INT → decides btf_equal_int_tag ta.
Proof. intros Hk. apply decides_int_tag; [done|by rewrite Hk]. Qed.

Lemma equiv_types_ok : bt_name_off ta = bt_name_off tc → answers d (plain_id a) (equiv_types f d ta tc) (λ h, loc eq (sup h) ta tc).
Proof.
  intros Hname. unfold equiv_types. cbv zeta.
  destruct (Z.eqb_spec (btf_kind ta) BTF_KIND_INT) as [Hk|N1]; [by apply equal_ok, decides_one|].
  destruct (Z.eqb_spec (btf_kind ta) BTF_KIND_ENUM) as [Hk|N2].
  { apply (compat_ok btf_compat_enum), fwd_compat; [by apply decides_enum|done|]. unfold btf_is_any_enum, btf_is_enum. by rewrite Hk. }
  destruct (Z.eqb_spec (btf_kind ta) BTF_KIND_ENUM64) as [Hk|N3].
  { apply (compat_ok btf_compat_enum64), fwd_compat; [by apply decides_enum64|done|]. unfold btf_is_any_enum, btf_is_enum, btf_is_enum64. by rewrite Hk. }
  destruct ((btf_kind ta =? BTF_KIND_FWD) || (btf_kind ta =? BTF_KIND_FLOAT)) eqn:Hk4.
  { assert (words_behind (btf_kind ta) (btf_vlen ta) = 0) as H0.
    { apply orb_true_iff in Hk4 as [Hk|Hk]; apply Z.eqb_eq in Hk; by rewrite Hk. }
    exact (equal_ok (λ t1 t2, Some (btf_equal_common t1 t2)) (decides_common ta Hwa H0)). }
  fold (one_ref_kind (btf_kind ta)). destruct (one_ref_kind (btf_kind ta)) eqn:Hk5.
  { destruct (Z.eqb_spec (bt_info ta) (bt_info tc)) as [Hi|]; cbn [negb]; [by apply ref_ok|by apply answers_no]. }
  destruct (Z.eqb_spec (btf_kind ta) BTF_KIND_ARRAY) as [Hk|N6]; [by apply array_ok|].
  fold (btf_is_composite ta). destruct (btf_is_composite ta) eqn:Hk7; [by apply struct_ok|].
  destruct (Z.eqb_spec (btf_kind ta) BTF_KIND_FUNC_PROTO) as [Hk|N8]; [by apply proto_ok|].
  apply answers_error; [done|]. intros Hp. destruct (Hp ta Ha) as (P1 & P2 & P3).
  pose proof (wf_kind ta Hwa) as Hk. clear - Hk N1 N2 N3 Hk4 Hk5 N6 Hk7 N8 P1 P2 P3. unfold btf_is_composite in Hk7. revert Hk. revert Hk4 Hk5 Hk7 P1 P2 P3 N1 N2 N3 N6 N8.
  generalize (btf_kind ta) as k. intros k. intros. unfold all_kinds in Hk.
  repeat (apply elem_of_cons in Hk as [->|Hk]; [first [done|by destruct P1|by destruct P2|by destruct P3|by destruct N1|by destruct N2|by destruct N3|by destruct N6|by destruct N8]|]).
  by apply elem_of_nil in Hk.
Qed.
End types.

(** ** The whole comparison *)

Lemma fwd_equiv_ok (a c : Z) ta tc d : ty a = Some ta → ty c = Some tc → dd_ok d → bt_name_off ta = bt_name_off tc →
  (btf_kind ta =? BTF_KIND_FWD) || (btf_kind tc =? BTF_KIND_FWD) = true → btf_kind ta ≠ btf_kind tc →
  answers d (plain_id a) (Some (fwd_equiv d ta tc c)) (λ h, loc eq (sup h) ta tc).
Proof.
  intros Ha Hc Hd Hname Hf Hne.
  assert (∀ t1 t2, btf_kind t1 = BTF_KIND_FWD → btf_kind t2 ≠ BTF_KIND_FWD → btf_fwd_kind t1 = btf_kind t2 → tag_kind t1 = tag_kind t2 ∧ is_Some (tag_kind t1) ∧ forward t1 = true) as Htag.
  { intros t1 t2 K1 K2 K3. unfold tag_kind, forward, btf_is_fwd. rewrite K1, Z.eqb_refl, (proj2 (Z.eqb_neq _ _) K2). cbn [orb].
    assert (btf_is_composite t2 = true) as ->; [|split_and!; [by rewrite K3|by eexists|done]]. unfold btf_is_composite. rewrite <- K3. unfold btf_fwd_kind. by destruct (btf_kflag t1). }
  unfold fwd_equiv. destruct (Z.eqb_spec (btf_kind ta) BTF_KIND_FWD) as [Ka|Ka].
  - apply (answers_bool d (plain_id a) (λ h, loc eq (sup h) ta tc)); [done|]. intros Hk%Z.eqb_eq.
    destruct (Htag ta tc Ka ltac:(congruence) Hk) as (H1 & H2 & H3). right. split; [split; [done|by left]|by left].
  - cbn [orb] in Hf. apply Z.eqb_eq in Hf.
    assert ((if (btf_fwd_kind tc =? btf_kind ta) && (c <? b_start_id (dd_btf d)) then set_adjust_canon d else d) = d) as ->.
    { rewrite (dk_btf d Hd), (wh_start b Hb). destruct (ty_cases c tc Hc) as [[-> ->]|(Hr & _)]; [done|].
      destruct (Z.ltb_spec c 1); [lia|]. by rewrite andb_false_r. }
    apply (answers_bool d (plain_id a) (λ h, loc eq (sup h) ta tc)); [done|]. intros Hk%Z.eqb_eq.
    destruct (Htag tc ta Hf Ka Hk) as (H1 & H2 & H3). right. split; [|by right]. split; [done|]. left. by rewrite <- H1.
Qed.

Lemma resolve_fwd_ok d c : dd_ok d → is_Some (ty c) → ∃ c', resolve_fwd_id d c = Some c' ∧ E c c' ∧ (c' = c ∨ ∃ n, root (dd_map d) n c c').
Proof.
  intros Hd Hc. pose proof (proj1 (ty_valid c) Hc) as Hr. destruct Hc as [t Ht]. unfold resolve_fwd_id. rewrite (dk_btf d Hd), checked_by_id by done.
  fold ty. rewrite Ht. cbn [mbind option_bind]. destruct (btf_is_fwd t); cbn [negb]; [|exists c; split; [done|]; split; [apply sm_refl; by eexists|by left]].
  destruct (resolve_ok d c (dk_map d Hd) ltac:(by eexists)) as (r & n & -> & Hr0 & He). cbn [mbind option_bind].
  destruct (sm_dom c r He) as [_ Hr']. rewrite checked_by_id by by apply ty_valid. destruct Hr' as [t' Ht']. fold ty. rewrite Ht'. cbn [mbind option_bind].
  destruct (negb (btf_is_fwd t')); [exists r; split_and!; [done..|right; by exists n]|]. exists c. split; [done|]. split; [apply sm_refl; by eexists|by left].
Qed.

Lemma identical_ok d x y : dd_ok d → is_Some (ty x) → is_Some (ty y) →
  ∃ e1 e2, btf_dedup_identical_arrays d x y = Some e1 ∧ btf_dedup_identical_structs d x y = Some e2 ∧ (e1 = true ∨ e2 = true → E x y).
Proof.
  intros Hd [t1 H1] [t2 H2]. unfold btf_dedup_identical_arrays, btf_dedup_identical_structs. rewrite (dk_btf d Hd). fold ty. rewrite H1, H2. cbn [mbind option_bind].
  assert (t1 = t2 → E x y) as Heq.
  { intros <-. apply (sm_loc x y t1 t1 H1 H2). left. apply shape_refl; [done|]. intros p w Hp Hw. apply sm_refl. exact (ref_valid x t1 p w H1 Hp Hw). }
  destruct (ty_cases x t1 H1) as [[_ ->]|(_ & W1 & _)].
  { exists false, false. cbn. split; [done|]. split; [done|]. by intros [|]. }
  destruct (ty_cases y t2 H2) as [[_ ->]|(_ & W2 & _)].
  { assert (btf_is_composite t1 && (btf_kind t1 =? btf_kind btf_void) = false) as E0.
    { destruct (Z.eqb_spec (btf_kind t1) (btf_kind btf_void)) as [E0|]; [|by rewrite andb_false_r]. unfold btf_is_composite. by rewrite E0. }
    exists false, false. rewrite orb_true_r. split; [done|]. destruct (btf_is_composite t1); cbn [negb orb andb] in *; [rewrite E0; cbn [negb]|]; split; try done; by intros [|]. }
  assert (∃ e1, (if negb (btf_is_array t1) || negb (btf_is_array t2) then Some false else btf_equal_array t1 t2) = Some e1 ∧ (e1 = true → t1 = t2)) as (e1 & -> & He1).
  { destruct (btf_is_array t1) eqn:A1; cbn [negb orb]; [|by exists false]. destruct (negb (btf_is_array t2)); [by exists false|].
    rewrite (decides_array t1 W1) by (by (unfold btf_is_array in A1; apply Z.eqb_eq in A1) || done). eexists. split; [done|]. apply bool_decide_eq_true. }
  destruct (btf_is_composite t1) eqn:K1; cbn [negb orb]; [|exists e1, false; split; [done|]; split; [done|]; intros [H|]; [auto|done]].
  destruct (btf_kind t1 =? btf_kind t2) eqn:K2; cbn [negb]; [|exists e1, false; split; [done|]; split; [done|]; intros [H|]; [auto|done]].
  destruct (shallow_struct_spec t1 t2 W1 W2 K1) as (e & -> & He). cbn [mbind option_bind].
  destruct e; cbn [negb]; [|exists e1, false; split; [done|]; split; [done|]; intros [H|]; [auto|done]]. specialize (He eq_refl).
  destruct (member_eq_spec (λ m1 m2, m_type m1 =? m_type m2) t1 t2 W1 W2 K1 (proj1 He)) as (e2 & E2 & Hiff). cbv beta in E2. rewrite E2.
  exists e1, e2. split; [done|]. split; [done|]. intros [H|H]; [auto|]. pose proof (proj1 Hiff H) as Hm. cbn [m_type] in Hm.
  apply (sm_loc x y t1 t2 H1 H2), shallow_refs; [done|]. destruct (composite_pos t1 K1) as (_ & Hip & _). intros p w1 w2 Hp Q1 Q2.
  assert (is_Some (ty w1)) as Hv by exact (ref_valid x t1 p w1 H1 Hp Q1).
  rewrite Hip, elem_of_each_pos in Hp. destruct Hp as (i & Hi & ->). specialize (Hm (Z.of_nat i) ltac:(lia)). apply Z.eqb_eq in Hm.
  replace (4 + i * 3)%nat with (3 + Z.to_nat (3 * Z.of_nat i + 1))%nat in Q1, Q2 by lia. apply word_at in Q1, Q2. rewrite Q1, Q2 in Hm.
  subst. by apply sm_refl.
Qed.

Lemma type_kinds i t : ty i = Some t → btf_kind t = 0 → i = 0.
Proof.
  intros Ht Hk. destruct (ty_cases i t Ht) as [[-> _]|(_ & Hw & _)]; [done|]. pose proof (wf_kind t Hw) as H. rewrite Hk in H.
  exfalso. revert H. by apply (bool_decide_unpack (0 ∉ all_kinds)).
Qed.

(** Behind the entry that is added to the map. *)
Lemma equiv_added f n a c ta tc d : calls_ok f n → ty a = Some ta → ty c = Some tc → a ≠ 0 ∨ c ≠ 0 → dd_ok d →
  (Z.to_nat (type_cnt b) < n + length (hy_list (dd_hypot d)))%nat →
  answers d (plain_id a)
    (if negb (bt_name_off ta =? bt_name_off tc) then Some (d, 0)
     else if ((btf_kind ta =? BTF_KIND_FWD) || (btf_kind tc =? BTF_KIND_FWD)) && negb (btf_kind ta =? btf_kind tc) then
       Some (fwd_equiv d ta tc c)
     else if negb (btf_kind ta =? btf_kind tc) then Some (d, 0)
     else equiv_types f d ta tc) (λ h, loc eq (sup h) ta tc).
Proof.
  intros Hf Ha Hc H0 Hd Hn. destruct (Z.eqb_spec (bt_name_off ta) (bt_name_off tc)) as [Hname|]; cbn [negb]; [|by apply answers_no].
  destruct (Z.eqb_spec (btf_kind ta) (btf_kind tc)) as [Hk|Hk]; cbn [negb].
  - rewrite andb_false_r. destruct (ty_cases a ta Ha) as [[-> ->]|(Hra & Hwa & _)].
    { destruct H0 as [H0|H0]; [done|]. destruct H0. by apply (type_kinds c tc Hc). }
    destruct (ty_cases c tc Hc) as [[-> ->]|(_ & Hwc & _)].
    { assert (a = 0) as -> by by apply (type_kinds a ta Ha). lia. }
    by apply (equiv_types_ok f n Hf a c).
  - rewrite andb_true_r. destruct ((btf_kind ta =? BTF_KIND_FWD) || (btf_kind tc =? BTF_KIND_FWD)) eqn:Hfw; [|by apply answers_no].
    by apply fwd_equiv_ok.
Qed.

Lemma is_equiv_ok n : calls_ok (btf_dedup_is_equiv_from n) n.
Proof.
  induction n as [|n IH]; intros d a c Hd Ha Hc Hn.
  { destruct (hypot_list_bound _ (dk_hypot d Hd)) as [H _]. lia. }
  cbn [btf_dedup_is_equiv_from].
  destruct (resolve_ok d a (dk_map d Hd) Ha) as (ra & na & -> & Ra & Ea). destruct (resolve_ok d c (dk_map d Hd) Hc) as (rc & nc & -> & Rc & Ec).
  cbn [mbind option_bind]. destruct (Z.eqb_spec ra rc) as [->|Hroots].
  { apply answers_now; [done|]. left. eapply sm_trans; [exact Ea|]. by apply sm_sym. }
  destruct (resolve_fwd_ok d c Hd Hc) as (c' & -> & Ec' & Hc0). cbn [mbind option_bind]. destruct (sm_dom c c' Ec') as [_ Hc'].
  pose proof (dk_hypot d Hd) as Hh. destruct (hypot_list_bound _ Hh) as [Hb1 Hb2]. destruct (Hb2 c') as [Hno|[(x & Hx & Hm)|(v & Hv & Hm & Hroom)]].
  { apply ty_valid in Hc'. rewrite <- (ho_len _ Hh) in Hc'. apply aref_bound in Hc' as [? ?]. congruence. }
  - rewrite Hx. cbn [mbind option_bind]. rewrite Hm. assert (sup (dd_hypot d) x c) as Hsup.
    { right. exists x, c'. split; [apply sm_refl; by apply (ho_valid _ Hh c')|]. split; [by split|by apply sm_sym]. }
    destruct (Z.eqb_spec x a) as [->|]; [by apply answers_now|].
    destruct (identical_ok d x a Hd (ho_valid _ Hh c' x Hx Hm) Ha) as (e1 & e2 & -> & -> & He). cbn [mbind option_bind].
    assert (e1 = true ∨ e2 = true → sup (dd_hypot d) a c) as He'.
    { intros H%He. right. exists x, c'. split; [by apply sm_sym|]. split; [by split|by apply sm_sym]. }
    destruct e1; [apply answers_now; [done|by apply He'; left]|]. apply answers_bool; [done|]. intros ->. apply He'. by right.
  - rewrite Hv. cbn [mbind option_bind]. rewrite Hm.
    assert (a ≠ 0 ∨ c' ≠ 0) as Hvoid.
    { destruct (decide (a = c')) as [->|Hne]; [|lia]. exfalso. apply Hroots. destruct Hc0 as [->|[k Hk]].
      - by destruct (root_functional _ _ _ _ _ _ Ra Rc).
      - destruct (root_functional _ _ _ _ _ _ Ra (root_end _ _ _ _ Hk)) as [_ ->]. by destruct (root_functional _ _ _ _ _ _ Hk Rc). }
    destruct (hypot_add_spec d c' a v Hd Ha Hv Hm) as (h1 & -> & Hh1 & Hlen & Hhyp). cbn [mbind option_bind]. change (negb (0 =? 0)) with false. cbv iota.
    pose proof (dd_ok_hypot d h1 Hd Hh1) as Hd1. rewrite (dk_btf _ Hd1). fold ty.
    pose proof Ha as [ta Hta]. pose proof Hc' as [tc Htc]. rewrite Hta, Htc. cbn [mbind option_bind]. cbv zeta.
    destruct (equiv_added (btf_dedup_is_equiv_from n) n a c' ta tc (dd_with_hypot d h1) IH Hta Htc Hvoid Hd1 ltac:(cbn; lia))
      as (d2 & h2 & e & -> & (-> & Hh2 & Hlen2 & Hext) & Hneg & Hpl & Hpos). cbn [dd_hypot dd_with_hypot] in *.
    exists (dd_with_hypot d h2), h2, e. split; [done|]. split; [split_and!; [done..|lia|]|].
    { intros x y Hxy. apply Hext, Hhyp. by left. }
    split; [done|]. split; [done|]. intros H0. destruct (Hpos H0) as [[Hm1 Hj] Hl].
    assert (hyp h2 a c') as Hac by (apply Hm1, Hhyp; by right). split; [split|].
    + intros x y Hxy. apply Hm1, Hhyp. by left.
    + intros x y Hxy. destruct (Hj x y Hxy) as [H|H]; [|by right]. apply Hhyp in H as [H|[-> ->]]; [by left|right]. by exists ta, tc.
    + right. exists a, c'. split; [by apply sm_refl|]. split; [done|by apply sm_sym].
Qed.

(** From an empty map: a positive answer is true. *)
Lemma is_equiv_sound d a c : dd_ok d → is_Some (ty a) → is_Some (ty c) → hy_list (dd_hypot d) = [] → (∀ x y, ¬ hyp (dd_hypot d) x y) →
  ∃ h e, btf_dedup_is_equiv d a c = Some (dd_with_hypot d h, e) ∧ hypot_ok h ∧ (e < 0 → e = - EINVAL) ∧
    (plain_id a → plain_refs → 0 ≤ e) ∧ (0 < e → E a c ∧ ∀ x y, hyp h x y → E x y).
Proof.
  intros Hd Ha Hc Hnil Hno. unfold btf_dedup_is_equiv.
  destruct (is_equiv_ok (S (length (dd_map d))) d a c Hd Ha Hc) as (d' & h & e & -> & (-> & Hh & _ & _) & Hneg & Hpl & Hpos).
  { pose proof (mo_len _ (dk_map d Hd)). lia. }
  exists h, e. split; [done|]. split; [done|]. split; [done|]. split; [done|]. intros H0. destruct (Hpos H0) as [[_ Hj] Hs].
  assert (∀ x y, sup h x y → E x y) as Htrue.
  { apply sm_justified. intros x y Hxy. destruct (Hj x y Hxy) as [H|H]; [by destruct (Hno x y)|done]. }
  split; [by apply Htrue|]. intros x y Hxy. apply Htrue. right. destruct (Hj x y Hxy) as [H|(tx & ty' & Hx & Hy & _)]; [by destruct (Hno x y)|].
  exists x, y. split; [apply sm_refl; by eexists|]. split; [done|apply sm_refl; by eexists].
Qed.
End whole.
