(* ===== verification/BtfDedupPass.v ===== *)
(** The passes of the deduplication of BTF (BtfDedup.v) that look for canonical types: the
    table of candidates, primitive types and structs. *)
From stdpp Require Import base list sets.
From Stdlib Require Import ZArith Lia.
From S2P Require Import Prelude Bytes Mem Errno Hashmap Btf BtfRaw BtfFile BtfMerge BtfDedup BtfSame BtfDedupEq BtfDedupGraph.

#[local] Open Scope Z_scope.

(** * The table *)

#[export] Instance dedup_table_key f : HashKey f btf_dedup_equal_fn.
Proof.
  split; unfold btf_dedup_equal_fn; intros *; rewrite ?Z.eqb_eq; [done|done|congruence|congruence].
Qed.

(** Appending, whatever entries there are for the key. *)
Lemma append_spec f (m : hashmap Z Z) k v : hm_ok f m → hm_cap m ≤ 4 + 3 * hm_sz m → hm_sz m < 2 ^ 58 →
  ∃ m', hashmap__insert f btf_dedup_equal_fn true true m k v HASHMAP_APPEND = Some (m', 0, None) ∧ hm_ok f m' ∧
    hm_cap m' ≤ 4 + 3 * hm_sz m' ∧ hashmap_entries m' ≡ₚ (k, v) :: hashmap_entries m.
Proof.
  intros Hok Hcap Hsz. unfold hashmap__insert. rewrite decide_True by done. cbn [mbind option_bind fmap option_fmap option_map].
  pose proof (ok_sz _ _ Hok) as Hs0. pose proof (ok_shape _ _ Hok) as Hsh.
  assert (hm_cap_bits m < 63) as Hbits.
  { destruct (hm_buckets m); [|lia]. destruct Hsh as (Hb & Hc & _). apply (Z.pow_lt_mono_r_iff 2); lia. }
  assert (∃ m1, (if hashmap_needs_to_grow m then hashmap_grow f true m else Some (m, 0)) = Some (m1, 0) ∧ hm_ok f m1 ∧
    hashmap_entries m1 ≡ₚ hashmap_entries m ∧ hm_sz m1 = hm_sz m ∧ hm_cap m1 ≤ 4 + 3 * (hm_sz m + 1) ∧
    is_Some (hm_buckets m1) ∧ (hm_sz m + 1) * 4 / 3 ≤ hm_cap m1) as (m1 & -> & Hok1 & Hp1 & Hsz1 & Hcap1 & [bs Hbs] & Hroom).
  { destruct (hashmap_needs_to_grow m) eqn:Hg.
    - destruct (grow_spec f btf_dedup_equal_fn m true Hok Hbits) as (m1 & -> & Hok1 & Hp1 & Hsz1 & Hload & Hcb & Hbs). exists m1. split_and!; try done.
      by eapply (grow_cap f m m1).
    - exists m. rewrite (needs_to_grow_spec f) in Hg by done. apply orb_false_iff in Hg as [Hg1 Hg2]. apply Z.eqb_neq in Hg1.
      rewrite Z.gtb_ltb in Hg2. apply Z.ltb_ge in Hg2. split_and!; try done; [lia|]. destruct (hm_buckets m); [by eexists|lia]. }
  cbn [mbind option_bind]. change (negb (0 =? 0)) with false. cbn [negb]. cbv iota. rewrite Hbs. cbn [mbind option_bind].
  pose proof (ok_shape _ _ Hok1) as Hsh1. rewrite Hbs in Hsh1. destruct Hsh1 as (Hb1 & Hc1 & Hl1).
  destruct (add_entry_spec f (hm_cap_bits m1) bs (k, v)) as (bs' & Ha & Hlen' & Hhome & Hp'); [lia|lia|intros h c e; by apply (ok_home _ _ Hok1)|].
  cbn [fst] in Ha. rewrite Ha. cbn [mbind option_bind]. pose proof (ok_sz _ _ Hok1) as Hs1. unfold hashmap_entries in Hp1, Hs1. rewrite Hbs in Hp1, Hs1.
  rewrite wrap_small by (unfold in_u; lia). eexists. split; [done|].
  split; [split; cbn|split; [cbn; lia|cbn; by rewrite Hp', Hp1]].
  - split; [done|]. split; [done|lia].
  - intros bs0 h c e [= <-]. apply Hhome.
  - rewrite (Permutation_length Hp'). cbn. lia.
  - by rewrite Hsz1.
Qed.

(** * What the passes keep *)

Section pass.
Context (b : btf) (Hb : whole b).
Let ty : Z → option btf_type := btf_type_by_id b.
Context (E : Z → Z → Prop) `{!Sameness ty E}.

(** Types keep to have a canonical one, and those that are their own, but for forward
    declarations, stay that. *)
Definition map_step (m m' : list Z) : Prop := ∀ i v, aref m i = Some v → ∃ v', aref m' i = Some v' ∧
  if id_mapped v then id_mapped v' = true ∧ (v = i → v' = v ∨ ∃ t, ty i = Some t ∧ forward t = true) else v' = v ∨ id_mapped v' = true.

Lemma map_step_refl m : map_step m m.
Proof. intros i v Hv. exists v. split; [done|]. destruct (id_mapped v) eqn:Hm; [split; [done|]|]; by left. Qed.

Lemma map_step_trans m1 m2 m3 : map_step m1 m2 → map_step m2 m3 → map_step m1 m3.
Proof.
  intros H1 H2 i v Hv. destruct (H1 i v Hv) as (v' & Hv' & H). destruct (H2 i v' Hv') as (v'' & Hv'' & H'). exists v''. split; [done|].
  destruct (id_mapped v).
  - destruct H as [Hm H]. rewrite Hm in H'. destruct H' as [Hm' H']. split; [done|]. intros Hvi. destruct (H Hvi) as [->|]; [by apply H'|by right].
  - destruct H as [->|H]; [|rewrite H in H'; right; by destruct H']. destruct (id_mapped v) eqn:Em; [by destruct H'; right|done].
Qed.

Lemma map_step_set m a v : 0 ≤ a < Z.of_nat (length m) → id_mapped v = true →
  (∀ w, aref m a = Some w → id_mapped w = false ∨ w ≠ a ∨ ∃ t, ty a = Some t ∧ forward t = true) → map_step m (<[Z.to_nat a := v]> m).
Proof.
  intros Ha Hv Hw i w Hiw. rewrite aref_set by done. destruct (decide (i = a)) as [->|]; [|by apply map_step_refl].
  exists v. split; [done|]. destruct (id_mapped w) eqn:Em; [|by right]. split; [done|]. intros ->.
  destruct (Hw a Hiw) as [H|[H|H]]; [congruence|done|by right].
Qed.

Definition mapped_in (m : list Z) (i : Z) : Prop := ∃ v, aref m i = Some v ∧ id_mapped v = true.

Lemma mapped_step m m' i : map_step m m' → mapped_in m i → mapped_in m' i.
Proof. intros H (v & Hv & Hm). destruct (H i v Hv) as (v' & Hv' & H'). rewrite Hm in H'. exists v'. split; [done|apply H']. Qed.

(** A type that is no forward declaration stays its own canonical one. *)
Lemma self_step m m' i t : map_step m m' → ty i = Some t → forward t = false → id_mapped i = true → aref m i = Some i → aref m' i = Some i.
Proof.
  intros H Ht Hf Hm Hi. destruct (H i i Hi) as (v' & Hv' & H'). rewrite Hm in H'. destruct H' as [_ H']. destruct (H' eq_refl) as [->|(t' & Ht' & Hf')]; [done|]. congruence.
Qed.

(** The candidates have different ids, have been mapped, and are filed under their hash;
    but for structs no two are equal. *)
Record table_ok (d : btf_dedup) : Prop := {
  tk_hm : hm_ok (dd_hash_fn d) (dd_table d);
  tk_cap : hm_cap (dd_table d) ≤ 4 + 3 * hm_sz (dd_table d);
  tk_ids : NoDup ((hashmap_entries (dd_table d)).*2);
  tk_types : ∀ k c, (k, c) ∈ hashmap_entries (dd_table d) → ∃ t t0 v h, btf_type_by_id (dd_btf d) c = Some t ∧ type_wf t ∧ ty c = Some t0 ∧
    aref (dd_map d) c = Some v ∧ id_mapped v = true ∧ (forward t0 = false → v = c) ∧ prep_hash t = Some (PrepHash h) ∧ k = u64 h;
  tk_distinct : ∀ k1 k2 c1 c2 t, (k1, c1) ∈ hashmap_entries (dd_table d) → (k2, c2) ∈ hashmap_entries (dd_table d) →
    btf_type_by_id (dd_btf d) c1 = Some t → btf_type_by_id (dd_btf d) c2 = Some t → btf_is_composite t = false → c1 = c2;
}.

Lemma table_ok_map d m : table_ok d → map_step (dd_map d) m → table_ok (dd_with_map d m).
Proof.
  intros [H1 H2 H3 H4 H5] Hs. split; try done. cbn. intros k c Hkc. destruct (H4 k c Hkc) as (t & t0 & v & h & Ht & Hw & Hc & Hv & Hm & Hf & Hh & Hk).
  destruct (Hs c v Hv) as (v' & Hv' & H'). rewrite Hm in H'. destruct H' as [Hm' H']. exists t, t0, v', h. split_and!; try done.
  intros Hft. destruct (H' (Hf Hft)) as [->|(t' & Ht' & Hf')]; [by apply Hf|]. congruence.
Qed.

Lemma table_id d k c : table_ok d → (k, c) ∈ hashmap_entries (dd_table d) → is_Some (ty c).
Proof. intros Ht Hkc. destruct (tk_types d Ht k c Hkc) as (? & t0 & ? & ? & ? & ? & Hc & _). by exists t0. Qed.

Lemma table_count d : table_ok d → hm_sz (dd_table d) ≤ type_cnt b ∧ ∀ c, c ∉ (hashmap_entries (dd_table d)).*2 → is_Some (ty c) → hm_sz (dd_table d) < type_cnt b.
Proof.
  intros Ht.
  assert (∀ l : list Z, NoDup l → (∀ c, c ∈ l → is_Some (ty c)) → Z.of_nat (length l) ≤ type_cnt b) as Hbound.
  { intros l Hnd Hl. enough (length l ≤ Z.to_nat (type_cnt b))%nat by (unfold type_cnt in *; lia). rewrite <- (length_seqZ 0).
    apply submseteq_length, NoDup_submseteq; [done|]. intros i Hi%Hl. apply (ty_valid b Hb) in Hi. apply elem_of_seqZ. lia. }
  assert (∀ c, c ∈ (hashmap_entries (dd_table d)).*2 → is_Some (ty c)) as Hv.
  { intros c ([k c'] & -> & Hkc)%list_elem_of_fmap. exact (table_id d k c' Ht Hkc). }
  rewrite (ok_sz _ _ (tk_hm d Ht)). split.
  - specialize (Hbound _ (tk_ids d Ht) Hv). by rewrite length_fmap in Hbound.
  - intros c Hc Hcv. specialize (Hbound (c :: (hashmap_entries (dd_table d)).*2)). cbn [length] in Hbound. rewrite length_fmap in Hbound.
    enough (Z.of_nat (S (length (hashmap_entries (dd_table d)))) ≤ type_cnt b) by lia. apply Hbound.
    + by apply NoDup_cons; split; [|apply (tk_ids d Ht)].
    + intros x [->|Hx]%elem_of_cons; [done|by apply Hv].
Qed.

Lemma dedup_cands_spec d h : table_ok d → ∃ l, dedup_cands d h = Some l ∧ ∀ c, c ∈ l ↔ (u64 h, c) ∈ hashmap_entries (dd_table d).
Proof.
  intros Ht. unfold dedup_cands. destruct (key_entries_all (dd_hash_fn d) btf_dedup_equal_fn (dd_table d) (u64 h) (tk_hm d Ht)) as [-> _].
  cbn [mbind option_bind]. eexists. split; [done|].
  assert (∀ k c, (k, c) ∈ hashmap_entries (dd_table d) → u32 c = c) as Hsmall.
  { intros k c Hkc. pose proof (table_id d k c Ht Hkc) as Hc. apply (ty_valid b Hb) in Hc. pose proof (wh_cnt b Hb).
    apply wrap_small. unfold in_u, type_cnt, BTF_MAX_NR_TYPES in *. lia. }
  intros c. rewrite list_elem_of_fmap. split.
  - intros ([k x] & -> & Hx). apply list_elem_of_filter in Hx as [Hk%Z.eqb_eq Hx]. cbn [fst snd] in *. subst. by rewrite (Hsmall _ _ Hx).
  - intros Hc. exists (u64 h, c). split; [symmetry; by apply (Hsmall _ _ Hc)|]. apply list_elem_of_filter. split; [by apply Z.eqb_refl|done].
Qed.

(** The first equal candidate. *)
Lemma equal_cand_spec bb equal t type_id cands : decides equal t → (∀ c, c ∈ cands → ∃ tc, btf_type_by_id bb c = Some tc ∧ type_wf tc) →
  ∃ new, equal_cand bb equal t type_id cands = Some new ∧
    ((new = type_id ∧ ∀ c, c ∈ cands → btf_type_by_id bb c ≠ Some t) ∨ (new ∈ cands ∧ btf_type_by_id bb new = Some t)).
Proof.
  intros Hdec. induction cands as [|c cands IH]; intros Hc; cbn [equal_cand].
  - exists type_id. split; [done|]. left. split; [done|]. by intros c ?%elem_of_nil.
  - destruct (Hc c ltac:(left)) as (tc & Htc & Hwc). rewrite Htc. cbn [mbind option_bind]. rewrite (Hdec tc Hwc). cbn [mbind option_bind].
    destruct (bool_decide_reflect (t = tc)) as [->|Hne].
    + exists c. split; [done|]. right. split; [by left|done].
    + destruct IH as (new & Hnew & HP); [intros c' Hc'; apply Hc; by right|]. exists new. split; [done|]. destruct HP as [[-> HP]|[Hin HP]].
      * left. split; [done|]. intros c' [->|Hc']%elem_of_cons; [congruence|by apply HP].
      * right. split; [by right|done].
Qed.

(** ** The state between two types *)

Definition unmapped_in (m : list Z) (i : Z) : Prop := ∃ v, aref m i = Some v ∧ id_mapped v = false.

(** Types that the pass over references is for. *)
Definition ref_type (t : btf_type) : Prop := is_Some (ref_kind_ops t).
Definition var_like (t : btf_type) : bool := btf_is_var t || btf_is_datasec t.

(** A type that is its own canonical one is filed. *)
Definition filed (d : btf_dedup) (m : list Z) : Prop :=
  ∀ i t, ty i = Some t → i ≠ 0 → var_like t = false → aref m i = Some i → i ∈ (hashmap_entries (dd_table d)).*2.

Record pass_ok (d : btf_dedup) : Prop := {
  pa_dd : dd_ok b E d;
  pa_tab : table_ok d;
  pa_zero : aref (dd_map d) 0 = Some 0;
  pa_new : ∀ i v, aref (dd_map d) i = Some v → id_mapped v = false → v = BTF_UNPROCESSED_ID;
  pa_var : ∀ i t, ty i = Some t → var_like t = true → mapped_in (dd_map d) i;
  pa_refs : ∀ i t, ty i = Some t → ref_type t → unmapped_in (dd_map d) i;
  pa_filed : filed d (dd_map d);
}.

Lemma void_step m m' : map_step m m' → aref m 0 = Some 0 → aref m' 0 = Some 0.
Proof. intros H. apply (self_step m m' 0 btf_void H); [|done|done]. unfold ty. by rewrite (whole_type_by_id b Hb). Qed.

(** An entry of the map is set. *)
Section set.
Context (d : btf_dedup) (Hd : pass_ok d) (a v : Z).
Let m : list Z := <[Z.to_nat a := v]> (dd_map d).
Context (Hm : map_ok b E m) (Hs : map_step (dd_map d) m).
Context (Ha : 0 ≤ a < Z.of_nat (length (dd_map d))) (Hk : ∀ t, ty a = Some t → ¬ ref_type t).

Lemma set_new i w : aref m i = Some w → id_mapped w = false → w = BTF_UNPROCESSED_ID.
Proof.
  intros Hiw Hmw. assert (is_Some (aref (dd_map d) i)) as [u Hu].
  { apply (map_valid b Hb E _ i (dk_map b E d (pa_dd d Hd))), (map_valid b Hb E m i Hm). by eexists. }
  destruct (Hs i u Hu) as (w' & Hw' & H'). assert (w' = w) as -> by congruence. destruct (id_mapped u) eqn:Eu; [by destruct H'; congruence|].
  destruct H' as [->|]; [by apply (pa_new d Hd i)|congruence].
Qed.

Lemma set_refs i t : ty i = Some t → ref_type t → unmapped_in m i.
Proof.
  intros Ht Hr. destruct (pa_refs d Hd i t Ht Hr) as (w & Hw & Hmw). exists w. unfold m. rewrite aref_set by done.
  destruct (decide (i = a)) as [->|]; [by destruct (Hk t Ht)|done].
Qed.

Lemma set_ok : v ≠ a → pass_ok (dd_with_map d m).
Proof.
  intros Hne. split; cbn.
  - apply dd_ok_map; [apply (pa_dd d Hd)|done].
  - apply table_ok_map; [apply (pa_tab d Hd)|done].
  - eapply void_step; [exact Hs|apply (pa_zero d Hd)].
  - apply set_new.
  - intros i t Hi Hv. eapply mapped_step; [exact Hs|]. by apply (pa_var d Hd i t).
  - apply set_refs.
  - intros i t Hi H0 Hvar. unfold m. rewrite aref_set by done. destruct (decide (i = a)) as [->|]; [congruence|]. by apply (pa_filed d Hd i t).
Qed.
End set.

Lemma pass_ok_hypot d h : pass_ok d → hypot_ok b h → pass_ok (dd_with_hypot d h).
Proof. intros [Hd [? ? ? ? ?] ? ? ? ? ?] Hh. split; try done. by apply dd_ok_hypot. Qed.

Lemma pass_type d i t : pass_ok d → btf_type_by_id (dd_btf d) i = Some t ↔ ty i = Some t.
Proof. intros Hd. by rewrite (dk_btf b E d (pa_dd d Hd)). Qed.

(** Filing a type that is its own canonical one. *)
Lemma table_add_ok d h i t t0 : table_ok d → dd_alloc d = [] → btf_type_by_id (dd_btf d) i = Some t → type_wf t → ty i = Some t0 →
  prep_hash t = Some (PrepHash h) → aref (dd_map d) i = Some i → i ∉ (hashmap_entries (dd_table d)).*2 →
  (btf_is_composite t = false → ∀ c, (u64 h, c) ∈ hashmap_entries (dd_table d) → btf_type_by_id (dd_btf d) c ≠ Some t) →
  ∃ m', btf_dedup_table_add d h i = Some (dd_with_table d m', 0) ∧ table_ok (dd_with_table d m') ∧
    ∀ k c, (k, c) ∈ hashmap_entries m' ↔ (k, c) = (u64 h, i) ∨ (k, c) ∈ hashmap_entries (dd_table d).
Proof.
  intros Ht Hal Hi Hw Hi0 Hh Hself Hnew Hdist. unfold btf_dedup_table_add. rewrite Hal. cbn [pop_alloc].
  destruct (table_count d Ht) as [Hcnt _]. pose proof (wh_cnt b Hb) as Hbc. unfold type_cnt, BTF_MAX_NR_TYPES in *.
  destruct (append_spec (dd_hash_fn d) (dd_table d) (u64 h) i (tk_hm d Ht) (tk_cap d Ht) ltac:(lia)) as (m' & -> & Hm1 & Hm2 & Hm3).
  cbn [mbind option_bind]. exists m'. split; [do 2 f_equal; unfold dd_with_alloc, dd_with_table; cbn; by rewrite <- Hal|].
  assert (∀ k c, (k, c) ∈ hashmap_entries m' ↔ (k, c) = (u64 h, i) ∨ (k, c) ∈ hashmap_entries (dd_table d)) as Hent.
  { intros k c. by rewrite Hm3, elem_of_cons. }
  assert (∀ k c tc, (k, c) ∈ hashmap_entries (dd_table d) → btf_type_by_id (dd_btf d) c = Some tc → tc = t → btf_is_composite t = false → False) as Hno.
  { intros k c tc Hkc Hc -> Hcomp. destruct (tk_types d Ht k c Hkc) as (t' & _ & _ & h' & Ht' & _ & _ & _ & _ & _ & Hh' & ->).
    assert (t' = t) as -> by congruence. assert (h' = h) as -> by congruence. by apply (Hdist Hcomp c Hkc). }
  split; [|exact Hent]. split; cbn [dd_hash_fn dd_table dd_btf dd_map dd_with_table]; [done|done| | |].
  - rewrite Hm3. cbn. apply NoDup_cons. split; [done|apply (tk_ids d Ht)].
  - intros k c [[= -> ->]|Hkc]%Hent; [|exact (tk_types d Ht k c Hkc)].
    exists t, t0, i, h. split_and!; try done. apply (valid_mapped b Hb). by eexists.
  - intros k1 k2 c1 c2 t1 [[= -> ->]|H1]%Hent [[= -> ->]|H2]%Hent T1 T2 Hc; [done| | |].
    + exfalso. eapply (Hno k2 c2 t1); [done|done|congruence|]. by replace t with t1 by congruence.
    + exfalso. eapply (Hno k1 c1 t1); [done|done|congruence|]. by replace t with t1 by congruence.
    + by apply (tk_distinct d Ht k1 k2 c1 c2 t1 H1 H2).
Qed.

Lemma not_filed d i : table_ok d → (∃ v, aref (dd_map d) i = Some v ∧ id_mapped v = false) → i ∉ (hashmap_entries (dd_table d)).*2.
Proof.
  intros Ht (v & Hv & Hm) ([k c] & -> & Hkc)%list_elem_of_fmap.
  destruct (tk_types d Ht k c Hkc) as (? & ? & v' & ? & ? & ? & ? & Hv' & ? & _). cbn in *. congruence.
Qed.

(** Types that are hashed are no void. *)
Lemma set_self d h i t : pass_ok d → ty i = Some t → type_wf t → prep_hash t = Some (PrepHash h) → ¬ ref_type t → unmapped_in (dd_map d) i →
  (btf_is_composite t = false → ∀ c, (u64 h, c) ∈ hashmap_entries (dd_table d) → ty c ≠ Some t) →
  ∃ d', set_canonical d h i i = Some (d', 0) ∧ pass_ok d' ∧ dd_map d' = <[Z.to_nat i := i]> (dd_map d) ∧ map_step (dd_map d) (dd_map d') ∧ dd_btf d' = b.
Proof.
  intros Hd Hi Hw Hh Hnr Hun Hdist. pose proof (pa_dd d Hd) as Hdd. pose proof (dk_map b E d Hdd) as Hmap.
  assert (0 ≤ i < type_cnt b) as Hr by (apply (ty_valid b Hb); by eexists). unfold set_canonical. rewrite (set_map_eq b E d i i Hmap Hr). cbn [mbind option_bind].
  rewrite Z.eqb_refl. assert (0 ≤ i < Z.of_nat (length (dd_map d))) as Hl by by rewrite (mo_len b E _ Hmap).
  assert (map_step (dd_map d) (<[Z.to_nat i := i]> (dd_map d))) as Hs.
  { apply map_step_set; [done|apply (valid_mapped b Hb); by eexists|]. destruct Hun as (v & Hv & Hm). intros w Hw'. left. congruence. }
  assert (map_ok b E (<[Z.to_nat i := i]> (dd_map d))) as Hmap' by (apply map_ok_end; [done..|by right]).
  assert (∀ t', ty i = Some t' → ¬ ref_type t') as Hnr' by (intros t' Ht'; congruence).
  destruct (table_add_ok (dd_with_map d (<[Z.to_nat i := i]> (dd_map d))) h i t t) as (m' & -> & Htab & Hent); cbn [dd_alloc dd_btf dd_map dd_table dd_with_map].
  - by apply table_ok_map; [apply (pa_tab d Hd)|].
  - apply (dk_alloc b E d Hdd).
  - by apply (pass_type d).
  - done.
  - done.
  - done.
  - by apply aref_set_eq.
  - apply not_filed; [apply (pa_tab d Hd)|exact Hun].
  - intros Hc c Hkc. rewrite (pass_type d c t Hd). by apply Hdist.
  - cbn [mbind option_bind]. eexists. split; [done|]. split; [|split; [done|split; [done|apply (dk_btf b E d Hdd)]]].
    split; cbn [dd_map dd_with_table dd_with_map].
    + destruct Hdd as [? ? ? ?]. by split.
    + done.
    + eapply void_step; [exact Hs|apply (pa_zero d Hd)].
    + by apply set_new.
    + intros j tj Hj Hv. eapply mapped_step; [exact Hs|]. by apply (pa_var d Hd j tj).
    + by apply set_refs.
    + intros j tj Hj H0 Hvar. cbn [dd_table dd_with_table]. rewrite aref_set by done. rewrite list_elem_of_fmap. destruct (decide (j = i)) as [->|].
      * intros _. exists (u64 h, i). split; [done|]. apply Hent. by left.
      * intros Hjj. pose proof (pa_filed d Hd j tj Hj H0 Hvar Hjj) as Hf. apply list_elem_of_fmap in Hf as (e & -> & He). exists e. split; [done|].
        destruct e. apply Hent. by right.
Qed.

(** Another type is canonical. *)
Lemma set_other d h i t new n r : pass_ok d → ty i = Some t → ¬ ref_type t → i ≠ new → E i new → (defines ty i → defines ty new) → unmapped_in (dd_map d) i →
  root (dd_map d) n new r → r ≠ i →
  ∃ d', set_canonical d h i new = Some (d', 0) ∧ pass_ok d' ∧ dd_map d' = <[Z.to_nat i := new]> (dd_map d) ∧ map_step (dd_map d) (dd_map d') ∧ dd_btf d' = b.
Proof.
  intros Hd Ht Hnr Hne He Hdef (v & Hv & Hm) Hr Hri. pose proof (pa_dd d Hd) as Hdd. pose proof (dk_map b E d Hdd) as Hmap.
  destruct (sm_dom i new He) as [Hi Hnew]. apply (ty_valid b Hb) in Hi. unfold set_canonical. rewrite (set_map_eq b E d i new Hmap Hi). cbn [mbind option_bind].
  destruct (Z.eqb_spec i new) as [|_]; [done|]. eexists. split; [done|].
  assert (0 ≤ i < Z.of_nat (length (dd_map d))) as Hl by by rewrite (mo_len b E _ Hmap).
  assert (map_step (dd_map d) (<[Z.to_nat i := new]> (dd_map d))) as Hs.
  { apply map_step_set; [done|by apply (valid_mapped b Hb)|]. intros w Hw. left. congruence. }
  split; [|split; [done|split; [done|apply (dk_btf b E d Hdd)]]]. apply set_ok; [done| |done|done| |done].
  - apply (map_ok_link b Hb E _ i new n r Hmap He Hdef Hr Hri). right. exists 1%nat. apply (root_here _ i v); [done|by left].
  - intros t' Ht'. congruence.
Qed.

(** ** Kinds *)

Definition prim_kind (k : Z) : bool :=
  (k =? BTF_KIND_INT) || (k =? BTF_KIND_ENUM) || (k =? BTF_KIND_ENUM64) || (k =? BTF_KIND_FWD) || (k =? BTF_KIND_FLOAT).

Lemma prim_not_ref t : prim_kind (btf_kind t) = true → ¬ ref_type t.
Proof.
  unfold prim_kind. rewrite !orb_true_iff, !Z.eqb_eq. unfold ref_type, ref_kind_ops. cbv zeta.
  intros [[[[-> | ->]| ->]| ->]| ->] [? ?]; discriminate.
Qed.
Lemma composite_not_ref t : btf_is_composite t = true → ¬ ref_type t.
Proof.
  unfold btf_is_composite. rewrite orb_true_iff, !Z.eqb_eq. unfold ref_type, ref_kind_ops. cbv zeta. intros [-> | ->] [? ?]; discriminate.
Qed.
Lemma enum_prim t : btf_is_any_enum t = true → prim_kind (btf_kind t) = true.
Proof. unfold btf_is_any_enum, btf_is_enum, btf_is_enum64. rewrite orb_true_iff, !Z.eqb_eq. by intros [-> | ->]. Qed.
Lemma fwd_prim t : btf_is_fwd t = true → prim_kind (btf_kind t) = true.
Proof. unfold btf_is_fwd. rewrite Z.eqb_eq. by intros ->. Qed.
Lemma enum_fwd_prim t : btf_is_enum_fwd t = true → prim_kind (btf_kind t) = true.
Proof. unfold btf_is_enum_fwd. intros [? _]%andb_true_iff. by apply enum_prim. Qed.

(** ** Primitive types *)

(** Mapped ids are mapped to mapped ids. *)
Definition mapped_targets (m : list Z) : Prop := ∀ x v, aref m x = Some v → id_mapped v = true → mapped_in m v.

Lemma targets_root m n i r : mapped_targets m → root m n i r → mapped_in m i → mapped_in m r.
Proof.
  intros Ht H. induction H as [i v Hv He|n i v r Hv Hm Hne H IH]; [done|]. intros _. apply IH. by eapply Ht.
Qed.

Lemma tagged_sym_eq t1 t2 : tagged eq t1 t2 → tagged eq t2 t1.
Proof. intros H. destruct (tagged_sym eq t1 t2 H) as [H1 H2]. split; [by symmetry|done]. Qed.

Definition compat_spec (compat : btf_type → btf_type → option bool) (t : btf_type) : Prop :=
  ∀ t2, type_wf t2 → ∃ e, compat t t2 = Some e ∧ (e = true → t = t2 ∨ tagged eq t t2 ∧ (btf_is_enum_fwd t = true ∨ btf_is_enum_fwd t2 = true)).

Lemma enum_fwd_forward t : btf_is_enum_fwd t = true → forward t = true.
Proof. unfold forward. intros ->. apply orb_true_r. Qed.

Section enum.
Context (equal compat : btf_type → btf_type → option bool) (t : btf_type) (i : Z).
Context (Hi : ty i = Some t) (Hdec : decides equal t) (Hcompat : compat_spec compat t).

Definition in_table (d : btf_dedup) (cands : list Z) : Prop := ∀ c, c ∈ cands → ∃ k, (k, c) ∈ hashmap_entries (dd_table d).

Lemma cand_type d c : pass_ok d → in_table d [c] → ∃ tc, ty c = Some tc ∧ type_wf tc ∧ mapped_in (dd_map d) c.
Proof.
  intros Hd Hc. destruct (Hc c ltac:(by left)) as [k Hk]. destruct (tk_types d (pa_tab d Hd) k c Hk) as (tc & _ & v & _ & Htc & Hw & _ & Hv & Hm & _).
  exists tc. rewrite <- (pass_type d c tc Hd). split; [done|]. split; [done|]. by exists v.
Qed.

Lemma enum_fwd_cands cands d : pass_ok d → btf_is_enum_fwd t = true → in_table d cands →
  ∃ new, enum_cands equal compat d t i cands = Some (d, new) ∧
    ((new = i ∧ ∀ c, c ∈ cands → ty c ≠ Some t) ∨ new ∈ cands ∧ E i new).
Proof.
  intros Hd Hf. induction cands as [|c cands IH]; intros Hc; cbn [enum_cands].
  { exists i. split; [done|]. left. split; [done|]. by intros c ?%elem_of_nil. }
  destruct (cand_type d c Hd) as (tc & Htc & Hwc & _); [intros x ->%list_elem_of_singleton; apply Hc; by left|].
  rewrite (proj2 (pass_type d c tc Hd) Htc). cbn [mbind option_bind]. rewrite (Hdec tc Hwc). cbn [mbind option_bind].
  destruct (bool_decide_reflect (t = tc)) as [->|Hne].
  { exists c. split; [done|]. right. split; [by left|]. apply (sm_loc i c tc tc Hi Htc). left. apply shape_refl; [done|].
    intros p w Hp Hw. apply sm_refl. exact (ref_valid b Hb i tc p w Hi Hp Hw). }
  destruct (Hcompat tc Hwc) as (e & -> & He). cbn [mbind option_bind]. rewrite Hf. destruct e.
  - exists c. split; [done|]. right. split; [by left|]. destruct (He eq_refl) as [|[Htag _]]; [done|].
    apply (sm_loc i c t tc Hi Htc). right. split; [done|]. left. by apply enum_fwd_forward.
  - destruct IH as (new & -> & HP); [intros x Hx; apply Hc; by right|]. exists new. split; [done|]. destruct HP as [[-> HP]|[Hin HP]].
    + left. split; [done|]. intros x [->|Hx]%elem_of_cons; [congruence|by apply HP].
    + right. split; [by right|done].
Qed.

(** What the loop does to the map: forward declarations among the candidates go to [i]. *)
Record moved_to (m m' : list Z) : Prop := {
  mt_step : map_step m m';
  mt_new : ∀ x v, aref m' x = Some v → id_mapped v = true → aref m x = Some v ∨ v = i;
  mt_keep : ∀ x, unmapped_in m x → aref m' x = aref m x;
}.

Lemma enum_full_cands cands : ∀ d, pass_ok d → btf_is_enum_fwd t = false → unmapped_in (dd_map d) i → in_table d cands →
  ∃ d' new, enum_cands equal compat d t i cands = Some (d', new) ∧ pass_ok d' ∧ moved_to (dd_map d) (dd_map d') ∧ dd_table d' = dd_table d ∧
    ((new = i ∧ ∀ c, c ∈ cands → ty c ≠ Some t) ∨ new ∈ cands ∧ ty new = Some t).
Proof.
  induction cands as [|c cands IH]; intros d Hd Hf Hun Hc; cbn [enum_cands].
  { exists d, i. split; [done|]. split; [done|]. split; [split; [apply map_step_refl|by left|done]|]. split; [done|]. left. split; [done|]. by intros c ?%elem_of_nil. }
  destruct (cand_type d c Hd) as (tc & Htc & Hwc & Hmc); [intros x ->%list_elem_of_singleton; apply Hc; by left|].
  rewrite (proj2 (pass_type d c tc Hd) Htc). cbn [mbind option_bind]. rewrite (Hdec tc Hwc). cbn [mbind option_bind].
  destruct (bool_decide_reflect (t = tc)) as [->|Hne].
  { exists d, c. split; [done|]. split; [done|]. split; [split; [apply map_step_refl|by left|done]|]. split; [done|]. right. split; [by left|done]. }
  destruct (Hcompat tc Hwc) as (e & -> & He). cbn [mbind option_bind]. rewrite Hf.
  assert (∀ d', pass_ok d' → moved_to (dd_map d) (dd_map d') → dd_table d' = dd_table d →
    ∃ d'' new, enum_cands equal compat d' t i cands = Some (d'', new) ∧ pass_ok d'' ∧ moved_to (dd_map d) (dd_map d'') ∧ dd_table d'' = dd_table d ∧
      ((new = i ∧ ∀ x, x ∈ c :: cands → ty x ≠ Some t) ∨ new ∈ c :: cands ∧ ty new = Some t)) as Hgo.
  { intros d' Hd' [S1 S2 S3] Htab. destruct Hun as (u & Hu & Hmu).
    destruct (IH d' Hd' Hf) as (d'' & new & -> & Hd'' & [T1 T2 T3] & Htab' & HP).
    - exists u. by rewrite S3 by by exists u.
    - intros x Hx. rewrite Htab. apply Hc. by right.
    - exists d'', new. split; [done|]. split; [done|]. split; [split; [by eapply map_step_trans| |]|].
      + intros x v Hv Hm. destruct (T2 x v Hv Hm) as [H|H]; [by apply S2|by right].
      + intros x Hx. rewrite T3; [by apply S3|]. destruct Hx as (w & Hw & Hm). exists w. by rewrite S3 by by exists w.
      + split; [congruence|]. destruct HP as [[-> HP]|[Hin HP]]; [left|right; split; [by right|done]]. split; [done|].
        intros x [->|Hx]%elem_of_cons; [congruence|by apply HP]. }
  destruct e; [|apply Hgo; [done|split; [apply map_step_refl|by left|done]|done]].
  destruct (He eq_refl) as [|[Htag [Hf'|Hf']]]; [done|congruence|]. pose proof (dk_map b E d (pa_dd d Hd)) as Hmap.
  assert (E c i) as Hci.
  { apply (sm_loc c i tc t Htc Hi). right. split; [by apply tagged_sym_eq|]. left. by apply enum_fwd_forward. }
  assert (0 ≤ c < type_cnt b) as Hr by (apply (ty_valid b Hb); by eexists). rewrite (set_map_eq b E d c i Hmap Hr). cbn [mbind option_bind].
  destruct Hmc as (vc & Hvc & Hmc). destruct Hun as (u & Hu & Hmu). assert (i ≠ c) as Hic by congruence.
  assert (0 ≤ c < Z.of_nat (length (dd_map d))) as Hlen by by rewrite (mo_len b E _ Hmap).
  assert (id_mapped i = true) as Him by (apply (valid_mapped b Hb); by eexists).
  assert (map_step (dd_map d) (<[Z.to_nat c := i]> (dd_map d))) as Hs.
  { apply map_step_set; [done..|]. intros w Hw. right. right. exists tc. split; [done|by apply enum_fwd_forward]. }
  apply Hgo; [|split|done].
  - apply set_ok; [done| |done|done| |done].
    + apply (map_ok_link b Hb E _ c i 1 i Hmap Hci); [by apply (forward_not_defines ty c tc), enum_fwd_forward|apply (root_here _ i u); [done|by left]|done|by left].
    + intros t' Ht'. assert (t' = tc) as -> by congruence. by apply prim_not_ref, enum_fwd_prim.
  - done.
  - cbn. intros x v. rewrite aref_set by done. destruct (decide (x = c)); [intros [= <-]; by right|by left].
  - cbn. intros x (w & Hw & Hm). rewrite aref_set_ne; [done|lia|]. congruence.
Qed.
End enum.

(** What the step for type [i] has done. *)
Definition prim_done (d d'' : btf_dedup) (i : Z) : Prop :=
  pass_ok d'' ∧ mapped_targets (dd_map d'') ∧ mapped_in (dd_map d'') i ∧ map_step (dd_map d) (dd_map d'') ∧
  ∀ j, j ≠ i → unmapped_in (dd_map d) j → aref (dd_map d'') j = aref (dd_map d) j.

Section step.
Context (d d' : btf_dedup) (i : Z) (t : btf_type) (h : Z).
Context (Hd : pass_ok d) (Htar : mapped_targets (dd_map d)) (Hun : unmapped_in (dd_map d) i) (Hi : ty i = Some t) (Hp : prim_kind (btf_kind t) = true).
Context (Hd' : pass_ok d') (Hmt : moved_to i (dd_map d) (dd_map d')).

Lemma step_unmapped : unmapped_in (dd_map d') i.
Proof. destruct Hun as (v & Hv & Hm). exists v. by rewrite (mt_keep _ _ _ Hmt) by by exists v. Qed.

(** The canonical type has been set. *)
Lemma prim_finish new d'' : dd_map d'' = <[Z.to_nat i := new]> (dd_map d') → pass_ok d'' → map_step (dd_map d') (dd_map d'') →
  new = i ∨ mapped_in (dd_map d') new → prim_done d d'' i.
Proof.
  intros E1 Hd'' Hs Hnew. pose proof (dk_map b E d' (pa_dd d' Hd')) as Hmap. assert (0 ≤ i < type_cnt b) as Hr by (apply (ty_valid b Hb); by eexists).
  assert (0 ≤ i < Z.of_nat (length (dd_map d'))) as Hl by by rewrite (mo_len b E _ Hmap).
  assert (id_mapped new = true) as Hmn.
  { destruct Hnew as [->|(v & Hv & _)]; [apply (valid_mapped b Hb); by eexists|]. apply (valid_mapped b Hb), (map_valid b Hb E _ new Hmap). by eexists. }
  assert (mapped_in (dd_map d'') i) as Hmi. { exists new. rewrite E1, aref_set_eq by done. done. }
  split; [done|]. split; [|split; [done|split; [eapply map_step_trans; [apply (mt_step _ _ _ Hmt)|done]|]]].
  - intros x v Hv Hm. rewrite E1, aref_set in Hv by done. destruct (decide (x = i)) as [->|Hne].
    + injection Hv as <-. destruct Hnew as [->|Hnew]; [done|by eapply mapped_step].
    + destruct (mt_new _ _ _ Hmt x v Hv Hm) as [H| ->]; [|done]. eapply mapped_step; [exact Hs|]. eapply mapped_step; [apply (mt_step _ _ _ Hmt)|]. by eapply Htar.
  - intros j Hne Hj. rewrite E1, aref_set_ne by (done || lia). by apply (mt_keep _ _ _ Hmt).
Qed.

Lemma prim_self : type_wf t → prep_hash t = Some (PrepHash h) →
  (btf_is_composite t = false → ∀ c, (u64 h, c) ∈ hashmap_entries (dd_table d') → ty c ≠ Some t) →
  ∃ d'', set_canonical d' h i i = Some (d'', 0) ∧ prim_done d d'' i.
Proof.
  intros Hw Hh Hdist. destruct (set_self d' h i t Hd' Hi Hw Hh (prim_not_ref t Hp) step_unmapped Hdist) as (d'' & -> & Hd'' & Em & Hs & _).
  exists d''. split; [done|]. apply (prim_finish i); auto.
Qed.

Lemma prim_other new n r : E i new → (defines ty i → defines ty new) → root (dd_map d') n new r → r ≠ i → mapped_in (dd_map d') new →
  ∃ d'', set_canonical d' h i new = Some (d'', 0) ∧ prim_done d d'' i.
Proof.
  intros He Hdef Hr Hne Hm. assert (i ≠ new) as Hin.
  { intros <-. destruct step_unmapped as (v & Hv & Hmv). destruct Hm as (w & Hw & Hmw). congruence. }
  destruct (set_other d' h i t new n r Hd' Hi (prim_not_ref t Hp) Hin He Hdef step_unmapped Hr Hne) as (d'' & -> & Hd'' & Em & Hs & _).
  exists d''. split; [done|]. apply (prim_finish new); auto.
Qed.
End step.

Lemma moved_to_refl i m : moved_to i m m.
Proof. split; [apply map_step_refl|by left|done]. Qed.

(** A mapped id is not resolved to one that is not. *)
Lemma mapped_root d i new : pass_ok d → mapped_targets (dd_map d) → unmapped_in (dd_map d) i → mapped_in (dd_map d) new →
  ∃ n r, root (dd_map d) n new r ∧ r ≠ i.
Proof.
  intros Hd Ht (u & Hu & Hmu) Hm. pose proof (dk_map b E d (pa_dd d Hd)) as Hmap. destruct Hm as (v & Hv & Hmv).
  destruct (mo_rooted b E _ Hmap new ltac:(by eexists)) as (n & r & Hr). exists n, r. split; [done|]. intros ->.
  destruct (targets_root _ _ _ _ Ht Hr) as (w & Hw & Hmw); [by exists v|congruence].
Qed.

(** Kinds without anything special. *)
Lemma prim_equal equal d i t h : pass_ok d → mapped_targets (dd_map d) → unmapped_in (dd_map d) i → ty i = Some t → type_wf t →
  prim_kind (btf_kind t) = true → decides equal t → prep_hash t = Some (PrepHash h) →
  ∃ cands new d'', dedup_cands d h = Some cands ∧ equal_cand (dd_btf d) equal t i cands = Some new ∧
    set_canonical d h i new = Some (d'', 0) ∧ prim_done d d'' i.
Proof.
  intros Hd Ht Hun Hi Hw Hp Hdec Hh. destruct (dedup_cands_spec d h (pa_tab d Hd)) as (cands & Hc & Hin).
  assert (in_table d cands) as Htab by (intros c Hcc; exists (u64 h); by apply Hin).
  destruct (equal_cand_spec (dd_btf d) equal t i cands Hdec) as (new & Hnew & HP).
  { intros c [k Hk]%Htab. destruct (tk_types d (pa_tab d Hd) k c Hk) as (tc & _ & _ & _ & ? & ? & _). by exists tc. }
  exists cands, new. destruct HP as [[-> HP]|[Hcn HP]].
  - destruct (prim_self d d i t h Ht Hun Hi Hp Hd (moved_to_refl _ _) Hw Hh) as (d'' & Hs & Hdone); [|by exists d''].
    intros _ c Hkc. rewrite <- (pass_type d c t Hd). by apply HP, Hin.
  - assert (in_table d [new]) as Hn1 by (intros x ->%list_elem_of_singleton; by apply Htab).
    destruct (cand_type d new Hd Hn1) as (tn & Htn & _ & Hmn). rewrite (pass_type d new t Hd) in HP.
    destruct (mapped_root d i new Hd Ht Hun Hmn) as (n & r & Hr & Hne).
    destruct (prim_other d d i t h Ht Hun Hi Hp Hd (moved_to_refl _ _) new n r) as (d'' & Hs & Hdone);
      [|by apply (defines_same ty i new t)|done..|by exists d''].
    apply (sm_loc i new t t Hi HP). left. apply shape_refl; [done|]. intros p w Hpp Hw'. apply sm_refl. exact (ref_valid b Hb i t p w Hi Hpp Hw').
Qed.

Lemma prim_enum equal compat d i t : pass_ok d → mapped_targets (dd_map d) → unmapped_in (dd_map d) i → ty i = Some t → type_wf t →
  decides equal t → compat_spec compat t → prep_hash t = Some (PrepHash (btf_hash_enum t)) → btf_is_any_enum t = true →
  ∃ cands d' new d'', dedup_cands d (btf_hash_enum t) = Some cands ∧ enum_cands equal compat d t i cands = Some (d', new) ∧
    set_canonical d' (btf_hash_enum t) i new = Some (d'', 0) ∧ prim_done d d'' i.
Proof.
  intros Hd Ht Hun Hi Hw Hdec Hcompat Hh Hany. pose proof (enum_prim t Hany) as Hp. set (h := btf_hash_enum t) in *.
  destruct (dedup_cands_spec d h (pa_tab d Hd)) as (cands & Hc & Hin).
  assert (in_table d cands) as Htab by (intros c Hcc; exists (u64 h); by apply Hin). exists cands.
  destruct (btf_is_enum_fwd t) eqn:Hf.
  - destruct (enum_fwd_cands equal compat t i Hi Hdec Hcompat cands d Hd Hf Htab) as (new & Hnew & HP). exists d, new. destruct HP as [[-> HP]|[Hcn He]].
    + destruct (prim_self d d i t h Ht Hun Hi Hp Hd (moved_to_refl _ _) Hw Hh) as (d'' & Hs & Hdone); [|by exists d'']. intros _ c Hkc. by apply HP, Hin.
    + assert (in_table d [new]) as Hn1 by (intros x ->%list_elem_of_singleton; by apply Htab).
      destruct (cand_type d new Hd Hn1) as (tn & Htn & _ & Hmn). destruct (mapped_root d i new Hd Ht Hun Hmn) as (n & r & Hr & Hne).
      destruct (prim_other d d i t h Ht Hun Hi Hp Hd (moved_to_refl _ _) new n r) as (d'' & Hs & Hdone);
        [done|by apply (forward_not_defines ty i t), enum_fwd_forward|done..|by exists d''].
  - destruct (enum_full_cands equal compat t i Hi Hdec Hcompat cands d Hd Hf Hun Htab) as (d' & new & Hnew & Hd' & Hmt & Htb & HP). exists d', new.
    destruct HP as [[-> HP]|[Hcn Htn]].
    + destruct (prim_self d d' i t h Ht Hun Hi Hp Hd' Hmt Hw Hh) as (d'' & Hs & Hdone); [|by exists d'']. rewrite Htb. intros _ c Hkc. by apply HP, Hin.
    + destruct (Htab new Hcn) as [k Hk]. rewrite <- Htb in Hk. destruct (tk_types d' (pa_tab d' Hd') k new Hk) as (tn & t0 & v & _ & _ & _ & Ht0 & Hv & Hm & Hself & _).
      assert (t0 = t) as -> by (unfold ty in *; congruence). assert (forward t = false) as Hff.
      { unfold forward. rewrite Hf, orb_false_r. unfold btf_is_fwd. unfold btf_is_any_enum, btf_is_enum, btf_is_enum64 in Hany.
        apply orb_true_iff in Hany as [Hany|Hany]; apply Z.eqb_eq in Hany; by rewrite Hany. }
      specialize (Hself Hff) as ->. pose proof (step_unmapped d d' i Hun Hmt) as (u & Hu & Hmu).
      destruct (prim_other d d' i t h Ht Hun Hi Hp Hd' Hmt new 1 new) as (d'' & Hs & Hdone); [|by apply (defines_same ty i new t)| |congruence|by exists new|by exists d''].
      * apply (sm_loc i new t t Hi Ht0). left. apply shape_refl; [done|]. intros p w Hpp Hw'. apply sm_refl. exact (ref_valid b Hb i t p w Hi Hpp Hw').
      * apply (root_here _ new new); [done|by right].
Qed.

Lemma prim_type_ok d i t : pass_ok d → mapped_targets (dd_map d) → ty i = Some t → type_wf t → (var_like t = false → unmapped_in (dd_map d) i) →
  ∃ d', btf_dedup_prim_type d i = Some (d', 0) ∧ if prim_kind (btf_kind t) then prim_done d d' i else d' = d.
Proof.
  intros Hd Ht Hi Hw Hun. unfold btf_dedup_prim_type. rewrite (proj2 (pass_type d i t Hd) Hi). cbn [mbind option_bind]. cbv zeta.
  assert (prim_kind (btf_kind t) = true → unmapped_in (dd_map d) i) as Hun'.
  { intros Hk. apply Hun. unfold var_like, btf_is_var, btf_is_datasec. unfold prim_kind in Hk. rewrite !orb_true_iff, !Z.eqb_eq in Hk.
    destruct Hk as [[[[-> | ->]| ->]| ->]| ->]; done. }
  pose proof (wf_kind t Hw) as Hkind.
  destruct (Z.eqb_spec (btf_kind t) BTF_KIND_INT) as [Hk|N1].
  { rewrite Hk in Hun' |- *. change (∃ d', (h ← btf_hash_int_decl_tag t; cands ← dedup_cands d h;
      new_id ← equal_cand (dd_btf d) btf_equal_int_tag t i cands; set_canonical d h i new_id) = Some (d', 0) ∧ prim_done d d' i).
    assert (words_behind (btf_kind t) (btf_vlen t) = 1) as Hl by by rewrite Hk. destruct (one_word t Hw Hl) as (w & _ & Hw0).
    assert (∃ h, btf_hash_int_decl_tag t = Some h) as [h Hh] by (unfold btf_hash_int_decl_tag; rewrite Hw0; by eexists).
    destruct (prim_equal btf_equal_int_tag d i t h Hd Ht (Hun' eq_refl) Hi Hw ltac:(by rewrite Hk) (decides_int_tag t Hw Hl)) as (cands & new & d'' & H1 & H2 & H3 & H4).
    { unfold prep_hash. rewrite Hk. change (PrepHash <$> btf_hash_int_decl_tag t = Some (PrepHash h)). by rewrite Hh. }
    exists d''. rewrite Hh. cbn [mbind option_bind]. rewrite H1. cbn [mbind option_bind]. rewrite H2. done. }
  destruct (Z.eqb_spec (btf_kind t) BTF_KIND_ENUM) as [Hk|N2].
  { rewrite Hk in Hun' |- *. change (∃ d', (cands ← dedup_cands d (btf_hash_enum t);
      '(d, new_id) ← enum_cands btf_equal_enum btf_compat_enum d t i cands; set_canonical d (btf_hash_enum t) i new_id) = Some (d', 0) ∧ prim_done d d' i).
    assert (btf_is_any_enum t = true) as Hany by (unfold btf_is_any_enum, btf_is_enum; by rewrite Hk).
    destruct (prim_enum btf_equal_enum btf_compat_enum d i t Hd Ht (Hun' eq_refl) Hi Hw (decides_enum t Hw Hk)) as (cands & d' & new & d'' & H1 & H2 & H3 & H4); [|by unfold prep_hash; rewrite Hk|done|].
    { intros t2 Hw2. apply fwd_compat; [by apply decides_enum|done..]. }
    exists d''. rewrite H1. cbn [mbind option_bind]. rewrite H2. done. }
  destruct (Z.eqb_spec (btf_kind t) BTF_KIND_ENUM64) as [Hk|N3].
  { rewrite Hk in Hun' |- *. change (∃ d', (cands ← dedup_cands d (btf_hash_enum t);
      '(d, new_id) ← enum_cands btf_equal_enum64 btf_compat_enum64 d t i cands; set_canonical d (btf_hash_enum t) i new_id) = Some (d', 0) ∧ prim_done d d' i).
    assert (btf_is_any_enum t = true) as Hany by (unfold btf_is_any_enum, btf_is_enum, btf_is_enum64; by rewrite Hk).
    destruct (prim_enum btf_equal_enum64 btf_compat_enum64 d i t Hd Ht (Hun' eq_refl) Hi Hw (decides_enum64 t Hw Hk)) as (cands & d' & new & d'' & H1 & H2 & H3 & H4); [|by unfold prep_hash; rewrite Hk|done|].
    { intros t2 Hw2. apply fwd_compat; [by apply decides_enum64|done..]. }
    exists d''. rewrite H1. cbn [mbind option_bind]. rewrite H2. done. }
  destruct ((btf_kind t =? BTF_KIND_FWD) || (btf_kind t =? BTF_KIND_FLOAT)) eqn:Hk4.
  { assert (words_behind (btf_kind t) (btf_vlen t) = 0 ∧ prim_kind (btf_kind t) = true ∧ prep_hash t = Some (PrepHash (btf_hash_common t))) as (Hl & Hp & Hh).
    { apply orb_true_iff in Hk4 as [Hk|Hk]; apply Z.eqb_eq in Hk; unfold prep_hash; rewrite Hk; by split_and!. }
    destruct (prim_equal (λ t1 t2, Some (btf_equal_common t1 t2)) d i t (btf_hash_common t) Hd Ht (Hun' Hp) Hi Hw Hp (decides_common t Hw Hl) Hh)
      as (cands & new & d'' & H1 & H2 & H3 & H4).
    exists d''. rewrite Hp, H1. cbn [mbind option_bind]. rewrite H2. cbn [mbind option_bind]. rewrite H3. split; [|done].
    apply orb_true_iff in Hk4 as [Hk|Hk]; apply Z.eqb_eq in Hk; by rewrite Hk. }
  exists d. assert (prim_kind (btf_kind t) = false) as ->.
  { unfold prim_kind. apply orb_false_iff in Hk4 as [-> ->]. by rewrite (proj2 (Z.eqb_neq _ _) N1), (proj2 (Z.eqb_neq _ _) N2), (proj2 (Z.eqb_neq _ _) N3). }
  split; [|done]. revert Hkind Hk4 N1 N2 N3. clear. wf_kinds t Hkind; cbn; intros; done.
Qed.

(** ** Passes *)

Lemma each_type_ok (I : Z → btf_dedup → Prop) (Err : Z → Prop) f n : (∀ e, Err e → e ≠ 0) → ∀ i d, I i d →
  (∀ j d, i ≤ j < i + Z.of_nat n → I j d → ∃ d' e, f d j = Some (d', e) ∧ (e = 0 ∧ I (j + 1) d' ∨ Err e)) →
  ∃ d' e, each_type f n i d = Some (d', e) ∧ (e = 0 ∧ I (i + Z.of_nat n) d' ∨ Err e).
Proof.
  intros HErr. induction n as [|n IH]; intros i d Hd Hf; cbn [each_type].
  - exists d, 0. split; [done|]. left. split; [done|]. by rewrite Z.add_0_r.
  - destruct (Hf i d ltac:(lia) Hd) as (d' & e & -> & [[-> Hd']|He]); cbn [mbind option_bind].
    + change (negb (0 =? 0)) with false. cbv iota. destruct (IH (i + 1) d' Hd') as (d'' & e & -> & H); [intros j dj Hj; apply Hf; lia|].
      exists d'', e. split; [done|]. replace (i + 1 + Z.of_nat n) with (i + Z.of_nat (S n)) in H by lia. done.
    + rewrite (proj2 (Z.eqb_neq e 0) (HErr e He)). cbn [negb]. exists d', e. split; [done|]. by right.
Qed.

Lemma own_type i : 1 ≤ i < 1 + Z.of_nat (length (b_types b)) → ∃ t, ty i = Some t ∧ type_wf t.
Proof.
  intros Hi. destruct (proj2 (ty_valid b Hb i) ltac:(unfold type_cnt; lia)) as [t Ht]. exists t. split; [done|].
  destruct (ty_cases b Hb i t Ht) as [[-> _]|(_ & ? & _)]; [lia|done].
Qed.

Record prim_inv (i : Z) (d : btf_dedup) : Prop := {
  pi_ok : pass_ok d; pi_tar : mapped_targets (dd_map d);
  pi_todo : ∀ j t, i ≤ j → ty j = Some t → var_like t = false → unmapped_in (dd_map d) j;
  pi_done : ∀ j t, j < i → ty j = Some t → prim_kind (btf_kind t) = true → mapped_in (dd_map d) j;
}.

Lemma prim_types_ok d : prim_inv 1 d → ∃ d', btf_dedup_prim_types d = Some (d', 0) ∧ prim_inv (type_cnt b) d'.
Proof.
  intros Hd. unfold btf_dedup_prim_types, own_types. rewrite (dk_btf b E d (pa_dd d (pi_ok 1 d Hd))), (wh_start b Hb).
  destruct (each_type_ok prim_inv (λ _, False) btf_dedup_prim_type (length (b_types b)) ltac:(done) 1 d Hd) as (d' & e & He & [[-> H]|[]]); [|by exists d'].
  clear d Hd. intros j d Hj Hd. destruct (own_type j ltac:(lia)) as (t & Ht & Hw). destruct Hd as [Hok Htar Htodo Hdone].
  destruct (prim_type_ok d j t Hok Htar Ht Hw) as (d' & -> & H); [by apply (Htodo j t)|]. exists d', 0. split; [done|]. left. split; [done|].
  destruct (prim_kind (btf_kind t)) eqn:Hp.
  - destruct H as (Hok' & Htar' & Hm & Hs & Hkeep). split; [done|done| |].
    + intros k tk Hk Htk Hv. destruct (Htodo k tk ltac:(lia) Htk Hv) as (v & Hv0 & Hmv). exists v. rewrite Hkeep; [done|lia|by exists v].
    + intros k tk Hk Htk Hpk. destruct (decide (k = j)) as [->|]; [done|]. eapply mapped_step; [exact Hs|]. apply (Hdone k tk); [lia|done..].
  - subst d'. split; [done|done| |].
    + intros k tk Hk. apply Htodo. lia.
    + intros k tk Hk Htk Hpk. destruct (decide (k = j)) as [->|]; [congruence|]. apply (Hdone k tk); [lia|done..].
Qed.
End pass.
