(* ===== verification/BtfDedupStruct.v ===== *)
(** The deduplication of BTF (BtfDedup.v), from the creation of its state to the end of
    the pass over structs: which error there may be, and that every primitive type and
    every struct has a canonical one, which is the same. *)
From stdpp Require Import base list sets.
From Stdlib Require Import ZArith Lia.
From S2P Require Import Prelude Bytes Mem Errno Hashmap Btf BtfRaw BtfFile BtfMerge BtfDedup BtfSame BtfDedupEq BtfDedupGraph BtfDedupPass.

#[local] Open Scope Z_scope.

Section struct.
Context (b : btf) (Hb : whole b).
Let ty : Z → option btf_type := btf_type_by_id b.
Context (E : Z → Z → Prop) `{!Sameness ty E}.

(** * The state at the beginning *)

Lemma ref_not_var t : ref_type t → var_like t = false.
Proof.
  intros [r Hr]. destruct (var_like t) eqn:Hk; [|done]. exfalso. revert Hr. unfold var_like, btf_is_var, btf_is_datasec in Hk.
  unfold ref_kind_ops. cbv zeta. apply orb_true_iff in Hk as [K|K]; apply Z.eqb_eq in K; rewrite K; discriminate.
Qed.

Lemma initial_map_spec : ∃ m, initial_map b = Some m ∧ Z.of_nat (length m) = type_cnt b ∧ aref m 0 = Some 0 ∧
  ∀ i t, ty i = Some t → i ≠ 0 → aref m i = Some (if var_like t then i else BTF_UNPROCESSED_ID).
Proof.
  unfold initial_map. rewrite (whole_cnt b Hb). unfold type_cnt. replace (Z.to_nat (1 + Z.of_nat (length (b_types b))) - 1)%nat with (length (b_types b)) by lia.
  set (f := λ i : nat, _). set (ids := seq 1 (length (b_types b))).
  assert (is_Some (mapM f ids)) as [l Hl].
  { apply mapM_is_Some. apply Forall_forall. intros i Hi%elem_of_seq. subst f. unfold compose. cbv beta.
    destruct (proj2 (ty_valid b Hb (Z.of_nat i)) ltac:(unfold type_cnt; lia)) as [t ->]. cbn. by eexists. }
  rewrite Hl. cbn [mbind option_bind]. exists (0 :: l). split; [done|]. apply mapM_Some in Hl.
  pose proof (Forall2_length _ _ _ Hl) as Hlen. subst ids. rewrite length_seq in Hlen. split; [cbn [length]; lia|]. split; [done|].
  intros i t Ht Hi. pose proof (proj1 (ty_valid b Hb i) ltac:(by eexists)) as Hr. unfold type_cnt in Hr.
  destruct (Forall2_lookup_l _ _ _ (Z.to_nat (i - 1)) (Z.to_nat i) Hl) as (v & Hv & Hf).
  { rewrite lookup_seq. split; lia. }
  subst f. cbv beta in Hf. rewrite Z2Nat.id in Hf by lia. fold ty in Hf. rewrite Ht in Hf. cbn [mbind option_bind] in Hf.
  apply aref_Some. split; [lia|]. replace (Z.to_nat i) with (S (Z.to_nat (i - 1))) by lia. cbn [lookup list_lookup].
  change (l !! Z.to_nat (i - 1) = Some (if var_like t then i else BTF_UNPROCESSED_ID)). rewrite Hv. by rewrite <- Hf.
Qed.

Lemma unmapped_unprocessed : id_mapped BTF_UNPROCESSED_ID = false.
Proof. done. Qed.

Lemma dedup_new_ok opts : ∃ d, btf_dedup_new b opts [] = Some (inl d) ∧ prim_inv b E 1 d.
Proof.
  unfold btf_dedup_new. cbn [pop_alloc hashmap__new negb]. destruct initial_map_spec as (m & -> & Hlen & H0 & Hm). cbn [mbind option_bind].
  eexists. split; [done|].
  assert (∀ i v, aref m i = Some v → v = i ∧ is_Some (ty i) ∨ v = BTF_UNPROCESSED_ID) as Hv.
  { intros i v Hi. assert (is_Some (ty i)) as [t Ht] by (apply (ty_valid b Hb); rewrite <- Hlen; apply aref_bound; by eexists).
    destruct (decide (i = 0)) as [->|Hi0]; [left; split; [congruence|by eexists]|]. rewrite (Hm i t Ht Hi0) in Hi. apply (inj Some) in Hi. subst v.
    destruct (var_like t); [left; split; [done|by eexists]|by right]. }
  assert (map_ok b E m) as Hmap.
  { split; [done| | |].
    - intros i [v Hi]. exists 1%nat, i. apply (root_here _ i v); [done|]. destruct (Hv i v Hi) as [[? _]| ->]; [by right|by left].
    - intros i v Hi Hmv. destruct (Hv i v Hi) as [[-> ?]| ->]; [by apply sm_refl|done].
    - intros i v Hi Hmv. by destruct (Hv i v Hi) as [[-> ?]| ->]. }
  assert (∀ n i v, aref (replicate n BTF_UNPROCESSED_ID) i = Some v → v = BTF_UNPROCESSED_ID) as Hrep.
  { intros n i v Hi. apply aref_Some in Hi as [_ Hi]. by apply lookup_replicate in Hi as [-> _]. }
  split; cbn [dd_map].
  - split; cbn [dd_map].
    + split; cbn [dd_btf dd_alloc dd_map dd_hypot]; try done. split; cbn [hy_map hy_list hy_cap hy_adjust_canon]; try done.
      * rewrite length_replicate, (whole_cnt b Hb). unfold type_cnt. lia.
      * intros i. split; [by intros ?%elem_of_nil|]. intros (v & Hi & Hmv). by rewrite (Hrep _ _ _ Hi) in Hmv.
      * apply NoDup_nil_2.
      * intros i v Hi Hmv. by rewrite (Hrep _ _ _ Hi) in Hmv.
    + split; cbn [dd_table hashmap__init hashmap_entries hm_buckets fmap list_fmap]; try done.
      * apply NoDup_nil_2.
      * by intros k c ?%elem_of_nil.
      * by intros k1 k2 c1 c2 t ?%elem_of_nil.
    + done.
    + intros i v Hi Hmv. destruct (Hv i v Hi) as [[-> ?]|?]; [|done]. rewrite (valid_mapped b Hb) in Hmv; done.
    + intros i t Ht Hk. destruct (decide (i = 0)) as [->|Hi0]; [by exists 0|]. exists i. rewrite (Hm i t Ht Hi0), Hk.
      split; [done|]. apply (valid_mapped b Hb). by eexists.
    + intros i t Ht Hr. destruct (decide (i = 0)) as [->|Hi0].
      * unfold ty in Ht. rewrite (whole_type_by_id b Hb) in Ht. cbn in Ht. apply (inj Some) in Ht. subst t. by destruct Hr as [? ?].
      * exists BTF_UNPROCESSED_ID. split; [|done]. rewrite (Hm i t Ht Hi0). by rewrite (ref_not_var t Hr).
    + intros i t Ht Hi0 Hvar Hi. rewrite (Hm i t Ht Hi0), Hvar in Hi. apply (inj Some) in Hi. exfalso.
      pose proof (valid_mapped b Hb i ltac:(by eexists)) as Him. by rewrite <- Hi in Him.
  - intros i v Hi Hmv. destruct (Hv i v Hi) as [[-> ?]| ->]; [by exists i|done].
  - intros j t Hj Ht Hvar. exists BTF_UNPROCESSED_ID. split; [|done]. rewrite (Hm j t Ht ltac:(lia)). by rewrite Hvar.
  - intros j t Hj Ht Hk. exfalso. pose proof (proj1 (ty_valid b Hb j) ltac:(by eexists)) as Hr. assert (j = 0) as -> by lia.
    unfold ty in Ht. rewrite (whole_type_by_id b Hb) in Ht. cbn in Ht. injection Ht as <-. done.
Qed.

(** * Merging the hypothetical map *)

(** Mapped ids go to mapped ids or to structs, which the pass comes to. *)
Definition struct_targets (m : list Z) : Prop :=
  ∀ x v, aref m x = Some v → id_mapped v = true → mapped_in m v ∨ ∃ t, ty v = Some t ∧ btf_is_composite t = true.

Lemma targets_struct m : mapped_targets m → struct_targets m.
Proof. intros H x v Hx Hv. left. by eapply H. Qed.

(** What changes of the map keep. *)
Record merged (d d' : btf_dedup) : Prop := {
  mg_ok : pass_ok b E d'; mg_tar : struct_targets (dd_map d'); mg_step : map_step b (dd_map d) (dd_map d');
  mg_hypot : dd_hypot d' = dd_hypot d; mg_table : dd_table d' = dd_table d;
  mg_self : ∀ x, aref (dd_map d') x = Some x → aref (dd_map d) x = Some x;
}.

Lemma merged_refl d : pass_ok b E d → struct_targets (dd_map d) → merged d d.
Proof. intros Hd Ht. split; try done. apply map_step_refl. Qed.

Lemma merged_trans d1 d2 d3 : merged d1 d2 → merged d2 d3 → merged d1 d3.
Proof. intros [_ _ S1 H1 T1 F1] [? ? S2 H2 T2 F2]. split; [done|done|by eapply map_step_trans|congruence|congruence|auto]. Qed.

(** An id goes to the end of a chain. *)
Lemma link_ok d a v : pass_ok b E d → struct_targets (dd_map d) → E a v → (defines ty a → defines ty v) → root (dd_map d) 1 v v → v ≠ a → (∀ t, ty a = Some t → ¬ ref_type t) →
  (∀ w, aref (dd_map d) a = Some w → id_mapped w = false ∨ w ≠ a ∨ ∃ t, ty a = Some t ∧ forward t = true) →
  (mapped_in (dd_map d) v ∨ ∃ t, ty v = Some t ∧ btf_is_composite t = true) →
  ∃ d', set_map d a v = Some d' ∧ merged d d' ∧ dd_map d' = <[Z.to_nat a := v]> (dd_map d).
Proof.
  intros Hd Htar He Hdef Hr Hne Hnr Hw Hv. pose proof (dk_map b E d (pa_dd b E d Hd)) as Hmap. destruct (sm_dom a v He) as [Ha Hvv]. apply (ty_valid b Hb) in Ha.
  rewrite (set_map_eq b E d a v Hmap Ha). eexists. split; [done|]. split; [|done].
  assert (0 ≤ a < Z.of_nat (length (dd_map d))) as Hl by by rewrite (mo_len b E _ Hmap).
  assert (map_step b (dd_map d) (<[Z.to_nat a := v]> (dd_map d))) as Hs.
  { apply map_step_set; [done|by apply (valid_mapped b Hb)|done]. }
  split; cbn; try done.
  - apply set_ok; [done..| |done|done|done|done]. apply (map_ok_link b Hb E _ a v 1 v Hmap He Hdef Hr Hne). by left.
  - intros x u. rewrite aref_set by done. destruct (decide (x = a)) as [->|].
    + intros [= <-] _. destruct Hv as [Hv|Hv]; [left|by right]. by eapply mapped_step.
    + intros Hx Hu. destruct (Htar x u Hx Hu) as [H|H]; [left|by right]. by eapply mapped_step.
  - intros x. rewrite aref_set by done. destruct (decide (x = a)) as [->|]; [congruence|done].
Qed.

Lemma tag_composite t c : tag_kind t = tag_kind c → btf_is_fwd c = true → btf_is_fwd t = false → btf_is_composite t = true.
Proof. unfold tag_kind. intros H Hc Ht. rewrite Hc, Ht in H. by destruct (btf_is_composite t). Qed.

Lemma tag_composite2 t c : tag_kind t = tag_kind c → btf_is_composite t = true → btf_is_fwd c = false → btf_is_composite c = true.
Proof.
  unfold tag_kind. intros H Ht Hc. rewrite Hc, Ht in H. destruct (btf_is_composite c); [done|]. by destruct (btf_is_fwd t).
Qed.

Lemma composite_not_forward t : btf_is_composite t = true → forward t = false.
Proof.
  unfold btf_is_composite, forward, btf_is_fwd, btf_is_enum_fwd, btf_is_any_enum, btf_is_enum, btf_is_enum64.
  intros [Hk|Hk]%orb_true_iff; apply Z.eqb_eq in Hk; by rewrite Hk.
Qed.

Lemma fwd_forward t : btf_is_fwd t = true → forward t = true.
Proof. unfold forward. by intros ->. Qed.

Lemma merge_one_ok d a c : pass_ok b E d → struct_targets (dd_map d) → hyp (dd_hypot d) a c → E a c →
  ∃ d', merge_one d c = Some d' ∧ merged d d'.
Proof.
  intros Hd Htar [Hac Hm] He. pose proof (pa_dd b E d Hd) as Hdd. pose proof (dk_map b E d Hdd) as Hmap. destruct (sm_dom a c He) as [Ha Hc].
  unfold merge_one. rewrite Hac. cbn [mbind option_bind].
  destruct (resolve_ok b Hb E d a Hmap Ha) as (ti & nt & -> & Rt & Et). destruct (resolve_ok b Hb E d c Hmap Hc) as (ci & nc & -> & Rc & Ec).
  apply root_end in Rt, Rc. cbn [mbind option_bind].
  assert (E ti ci) as Etc. { eapply sm_trans; [apply sm_sym; exact Et|]. eapply sm_trans; [exact He|exact Ec]. } assert (E ci ti) as Ect by by apply sm_sym.
  destruct (sm_dom ti ci Etc) as [[t Ht] [u Hu]]. pose proof (sm_tag ti ci t u Ht Hu Etc) as Htag.
  rewrite (dk_btf b E d Hdd), !(checked_by_id b Hb) by (apply (ty_valid b Hb); by eexists). fold ty. rewrite Ht, Hu. cbn [mbind option_bind].
  pose proof (ho_adjust b _ (dk_hypot b E d Hdd)) as Hadj.
  destruct (btf_is_fwd t) eqn:Ft, (btf_is_fwd u) eqn:Fu; cbn [negb andb]; rewrite ?andb_false_r; cbn [mbind option_bind].
  - rewrite Hadj. exists d. split; [done|by apply merged_refl].
  - rewrite Hadj. destruct (link_ok d ti ci Hd Htar Etc ltac:(by apply (forward_not_defines ty ti t), fwd_forward) Rc) as (d' & Hs & Hd' & _); [congruence| | |right; exists u; split; [done|by apply (tag_composite u t)]|].
    { intros t' Ht'. assert (t' = t) as -> by congruence. by apply prim_not_ref, fwd_prim. }
    { intros w _. right. right. exists t. split; [done|by apply fwd_forward]. }
    rewrite Hs. cbn [mbind option_bind]. assert (btf_is_composite t = false) as ->; [|by exists d'].
    unfold btf_is_fwd in Ft. apply Z.eqb_eq in Ft. unfold btf_is_composite. by rewrite Ft.
  - destruct (link_ok d ci ti Hd Htar Ect ltac:(by apply (forward_not_defines ty ci u), fwd_forward) Rt) as (d' & Hs & Hd' & _); [congruence| | |right; exists t; split; [done|by apply (tag_composite t u)]|].
    { intros t' Ht'. assert (t' = u) as -> by congruence. by apply prim_not_ref, fwd_prim. }
    { intros w _. right. right. exists u. split; [done|by apply fwd_forward]. }
    rewrite Hs. cbn [mbind option_bind]. rewrite (mg_hypot _ _ Hd'), Hadj. exists d'. by split.
  - rewrite Hadj. destruct (btf_is_composite t) eqn:Kt; [|exists d; split; [done|by apply merged_refl]].
    unfold is_type_mapped. destruct (root_valid _ _ _ _ Rt) as [[vt Hvt] _]. destruct (root_valid _ _ _ _ Rc) as [[vc Hvc] _]. rewrite Hvt, Hvc.
    cbn [fmap option_fmap option_map mbind option_bind]. destruct (id_mapped vc) eqn:Mc; cbn [andb]; [|exists d; split; [done|by apply merged_refl]].
    destruct (id_mapped vt) eqn:Mt; cbn [negb]; [exists d; split; [done|by apply merged_refl]|].
    destruct (link_ok d ti ci Hd Htar Etc ltac:(intros _; exists u; split; [done|]; by apply composite_not_forward, (tag_composite2 t u)) Rc) as (d' & Hs & Hd' & _); [congruence| | |left; by exists vc|by exists d'].
    + intros t' Ht'. assert (t' = t) as -> by congruence. by apply composite_not_ref.
    + intros w Hw. left. congruence.
Qed.

Lemma merge_ok d : pass_ok b E d → struct_targets (dd_map d) → (∀ a c, hyp (dd_hypot d) a c → E a c) →
  ∃ d', btf_dedup_merge_hypot_map d = Some d' ∧ merged d d'.
Proof.
  intros Hd Htar He. unfold btf_dedup_merge_hypot_map.
  assert (∀ c, c ∈ hy_list (dd_hypot d) → ∃ a, hyp (dd_hypot d) a c) as Hl.
  { intros c (v & ? & ?)%(ho_list b _ (dk_hypot b E d (pa_dd b E d Hd))). by exists v. }
  enough (∀ l d1, (∀ c, c ∈ l → ∃ a, hyp (dd_hypot d) a c) → merged d d1 → ∃ d', foldM merge_one d1 l = Some d' ∧ merged d d') as Hgo.
  { destruct (Hgo (hy_list (dd_hypot d)) d Hl (merged_refl d Hd Htar)) as (d' & -> & H). by exists d'. }
  clear Hl. induction l as [|c l IH]; intros d1 Hl H1; cbn [foldM]; [by exists d1|].
  destruct (Hl c ltac:(by left)) as [a Hac]. destruct H1 as [P1 P2 P3 P4 P5 P6].
  destruct (merge_one_ok d1 a c P1 P2) as (d2 & -> & H2); [by rewrite P4|by apply He|]. cbn [mbind option_bind].
  apply IH; [intros x Hx; apply Hl; by right|]. eapply merged_trans; [|exact H2]. by split.
Qed.

(** * The pass over structs *)

(** Candidates for a struct are their own canonical types. *)
Lemma struct_cand_self d c tc : pass_ok b E d → in_table d [c] → ty c = Some tc → btf_is_composite tc = true →
  aref (dd_map d) c = Some c ∧ id_mapped c = true.
Proof.
  intros Hd Hc Htc Hk. destruct (Hc c ltac:(by left)) as [k Hin].
  destruct (tk_types b d (pa_tab b E d Hd) k c Hin) as (t & t0 & v & h & _ & _ & Ht0 & Hv & Hm & Hself & _).
  assert (t0 = tc) as -> by (unfold ty in Htc; congruence). rewrite (Hself (composite_not_forward tc Hk)) in Hv, Hm. done.
Qed.

(** What a step of the pass keeps. *)
Record struct_kept (d d' : btf_dedup) : Prop := {
  kp_ok : pass_ok b E d'; kp_tar : struct_targets (dd_map d'); kp_step : map_step b (dd_map d) (dd_map d');
}.

Section cands.
Context (i : Z) (t : btf_type) (Hi : ty i = Some t) (Hw : type_wf t) (Hk : btf_is_composite t = true).

Lemma struct_plain : plain_id b i.
Proof.
  intros t' Ht'. fold ty in Ht'. assert (t' = t) as -> by congruence. unfold btf_is_composite in Hk.
  apply orb_true_iff in Hk as [K|K]; apply Z.eqb_eq in K; by rewrite K.
Qed.

Lemma struct_cands_ok cands : ∀ d, pass_ok b E d → struct_targets (dd_map d) → unmapped_in (dd_map d) i → in_table d cands →
  ∃ d' r, struct_cands d t i cands = Some (d', r) ∧
    ((r = inr (- EINVAL) ∧ ¬ plain_refs b) ∨
     (struct_kept d d' ∧ ((r = inl i ∧ dd_map d' = dd_map d) ∨
        ∃ new, r = inl new ∧ E i new ∧ (defines ty i → defines ty new) ∧ new ≠ i ∧ aref (dd_map d') new = Some new ∧ aref (dd_map d') i ≠ Some i))).
Proof.
  induction cands as [|c cands IH]; intros d Hd Htar Hun Hc; cbn [struct_cands].
  { exists d, (inl i). split; [done|]. right. split; [split; [done|done|apply map_step_refl]|]. by left. }
  assert (in_table d [c]) as Hc1 by (intros x ->%list_elem_of_singleton; apply Hc; by left).
  assert (in_table d cands) as Hcs by (intros x Hx; apply Hc; by right).
  destruct (cand_type b E d c Hd Hc1) as (tc & Htc & Hwc & _).
  rewrite (proj2 (pass_type b E d c tc Hd) Htc). cbn [mbind option_bind].
  destruct (shallow_struct_spec t tc Hw Hwc Hk) as (e & -> & He). cbn [mbind option_bind]. destruct e; cbn [negb]; [|by apply IH].
  pose proof (He eq_refl) as Hsh. destruct (clear_spec b E d (pa_dd b E d Hd)) as (h0 & -> & Hh0 & Hnil & Hno). cbn [mbind option_bind].
  pose proof (pass_ok_hypot b E d h0 Hd Hh0) as Hd0.
  destruct (is_equiv_sound b Hb E (dd_with_hypot d h0) i c (pa_dd b E _ Hd0) ltac:(by eexists) ltac:(by eexists) Hnil Hno) as (h & eq & -> & Hh & Hneg & Hpl & Hpos).
  cbn [mbind option_bind]. change (dd_with_hypot (dd_with_hypot d h0) h) with (dd_with_hypot d h).
  pose proof (pass_ok_hypot b E d h Hd Hh) as Hd1. destruct (Z.ltb_spec eq 0) as [Hlt|Hge].
  { exists (dd_with_hypot d h), (inr eq). split; [done|]. left. split; [by rewrite (Hneg Hlt)|]. intros Hp. specialize (Hpl struct_plain Hp). lia. }
  destruct (Z.eqb_spec eq 0) as [->|H0].
  { destruct (IH (dd_with_hypot d h) Hd1 Htar Hun Hcs) as (d' & r & -> & H). exists d', r. split; [done|].
    destruct H as [H|[[K1 K2 K3] H]]; [by left|right]. by split. }
  destruct (Hpos ltac:(lia)) as [Heq Hall]. destruct (merge_ok (dd_with_hypot d h) Hd1 Htar Hall) as (d2 & -> & [M1 M2 M3 M4 M5 M6]). cbn [mbind option_bind].
  rewrite M4. cbn [dd_hypot dd_with_hypot]. rewrite (ho_adjust b h Hh). exists d2, (inl c). split; [done|]. right. split; [by split|]. right. exists c.
  split; [done|]. split; [done|].
  assert (btf_is_composite tc = true) as Kc by (rewrite <- (composite_info t tc); [done|apply Hsh]).
  destruct Hun as (u & Hu & Hmu). split_and!.
  - intros _. exists tc. split; [done|]. by apply composite_not_forward.
  - intros ->. destruct (struct_cand_self d i tc Hd Hc1 Htc Kc) as [Hs Hms]. congruence.
  - apply (struct_cand_self d2 c tc M1); [|done|done]. intros x Hx. rewrite M5. by apply Hc1.
  - intros Hs%M6. cbn in Hs. assert (u = i) as -> by congruence. rewrite (valid_mapped b Hb i) in Hmu; [done|]. by exists t.
Qed.
End cands.

Lemma struct_kept_trans d1 d2 d3 : struct_kept d1 d2 → struct_kept d2 d3 → struct_kept d1 d3.
Proof. intros [_ _ H1] [? ? H2]. split; [done|done|by eapply map_step_trans]. Qed.

(** The canonical type of a struct is another one. *)
Lemma set_struct d h i new : pass_ok b E d → struct_targets (dd_map d) → E i new → (defines ty i → defines ty new) → new ≠ i → aref (dd_map d) new = Some new →
  (∀ t, ty i = Some t → btf_is_composite t = true) → aref (dd_map d) i ≠ Some i →
  ∃ d', set_canonical d h i new = Some (d', 0) ∧ struct_kept d d' ∧ mapped_in (dd_map d') i.
Proof.
  intros Hd Htar He Hdef Hne Hnew Hk Hself. destruct (sm_dom i new He) as [Hi Hvn]. assert (id_mapped new = true) as Hmn by by apply (valid_mapped b Hb).
  assert (root (dd_map d) 1 new new) as Hr by (apply (root_here _ new new); [done|by right]).
  destruct (link_ok d i new Hd Htar He Hdef Hr Hne) as (d' & Hs & [M1 M2 M3 _ _ _] & Hmap).
  - intros t Ht. by apply composite_not_ref, Hk.
  - intros w Hw. right. left. congruence.
  - left. by exists new.
  - unfold set_canonical. rewrite Hs. cbn [mbind option_bind]. rewrite (proj2 (Z.eqb_neq i new)) by congruence.
    exists d'. split; [done|]. split; [by split|]. exists new. rewrite Hmap, aref_set_eq; [done|]. apply (ty_valid b Hb) in Hi.
    by rewrite (mo_len b E _ (dk_map b E d (pa_dd b E d Hd))).
Qed.

Lemma struct_type_ok d i t : pass_ok b E d → struct_targets (dd_map d) → ty i = Some t → type_wf t →
  ∃ d' e, btf_dedup_struct_type d i = Some (d', e) ∧
    ((e = - EINVAL ∧ ¬ plain_refs b) ∨ (e = 0 ∧ struct_kept d d' ∧ (btf_is_composite t = true → mapped_in (dd_map d') i))).
Proof.
  intros Hd Htar Hi Hw. pose proof (dk_map b E d (pa_dd b E d Hd)) as Hmap. unfold btf_dedup_struct_type, is_type_mapped.
  destruct (proj2 (map_valid b Hb E _ i Hmap) ltac:(by eexists)) as [v Hv]. rewrite Hv. cbn [fmap option_fmap option_map mbind option_bind].
  assert (struct_kept d d) as Hrefl by (split; [done|done|apply map_step_refl]).
  destruct (id_mapped v) eqn:Hm; [exists d, 0; split; [done|]; right; split; [done|]; split; [done|]; intros _; by exists v|].
  assert (unmapped_in (dd_map d) i) as Hun by by exists v.
  rewrite (proj2 (pass_type b E d i t Hd) Hi). cbn [mbind option_bind]. destruct (btf_is_composite t) eqn:Hk; cbn [negb]; [|exists d, 0; split; [done|]; by right].
  assert (∃ h, btf_hash_struct t = Some h ∧ prep_hash t = Some (PrepHash h)) as (h & -> & Hh).
  { destruct (hash_struct_some t Hw Hk) as [h Hh]. exists h. split; [done|]. unfold prep_hash. unfold btf_is_composite in Hk.
    apply orb_true_iff in Hk as [K|K]; apply Z.eqb_eq in K; rewrite K; change (PrepHash <$> btf_hash_struct t = Some (PrepHash h)); by rewrite Hh. }
  cbn [mbind option_bind]. destruct (dedup_cands_spec b Hb d h (pa_tab b E d Hd)) as (cands & -> & Hin). cbn [mbind option_bind].
  destruct (struct_cands_ok i t Hi Hw Hk cands d Hd Htar Hun) as (d1 & r & -> & H); [intros c Hc; exists (u64 h); by apply Hin|].
  cbn [mbind option_bind]. destruct H as [[-> Hp]|([K1 K2 K3] & [[-> Hsame]|(new & -> & He & Hdef & Hne & Hself & Hii)])].
  - exists d1, (- EINVAL). split; [done|]. by left.
  - destruct (set_self b Hb E d1 h i t K1 Hi Hw Hh (composite_not_ref t Hk)) as (d2 & -> & Hd2 & Em & Hs & _); [by rewrite Hsame; exists v|congruence|].
    exists d2, 0. split; [done|]. right. split; [done|].
    assert (0 ≤ i < Z.of_nat (length (dd_map d1))) as Hl.
    { rewrite (mo_len b E _ (dk_map b E d1 (pa_dd b E d1 K1))). apply (ty_valid b Hb). by eexists. }
    assert (mapped_in (dd_map d2) i) as Hmi.
    { exists i. rewrite Em, aref_set_eq by done. split; [done|]. apply (valid_mapped b Hb). by eexists. }
    split; [|done]. apply (struct_kept_trans d d1 d2); [by split|]. split; [done| |done]. intros x u. rewrite Em, aref_set by done.
    destruct (decide (x = i)) as [->|]; [intros [= <-] _; left; by rewrite <- Em|]. intros Hx Hu. rewrite <- Em.
    destruct (K2 x u Hx Hu) as [H|H]; [left|by right]. by eapply mapped_step.
  - destruct (set_struct d1 h i new K1 K2 He Hdef Hne Hself) as (d2 & -> & Hd2 & Hm2); [intros t' Ht'; congruence|done|].
    exists d2, 0. split; [done|]. right. split; [done|]. split; [|done]. by apply (struct_kept_trans d d1 d2).
Qed.

Record struct_inv (i : Z) (d : btf_dedup) : Prop := {
  si_ok : pass_ok b E d; si_tar : struct_targets (dd_map d);
  si_prim : ∀ j t, ty j = Some t → prim_kind (btf_kind t) = true → mapped_in (dd_map d) j;
  si_done : ∀ j t, j < i → ty j = Some t → btf_is_composite t = true → mapped_in (dd_map d) j;
}.

Lemma struct_types_ok d : struct_inv 1 d → ∃ d' e, btf_dedup_struct_types d = Some (d', e) ∧
  (e = 0 ∧ struct_inv (type_cnt b) d' ∨ e = - EINVAL ∧ ¬ plain_refs b).
Proof.
  intros Hd. unfold btf_dedup_struct_types, own_types. rewrite (dk_btf b E d (pa_dd b E d (si_ok 1 d Hd))), (wh_start b Hb).
  apply (each_type_ok struct_inv (λ e, e = - EINVAL ∧ ¬ plain_refs b) btf_dedup_struct_type (length (b_types b))); [by intros e [-> _]|done|].
  clear d Hd. intros j d Hj [Hok Htar Hprim Hdone]. destruct (own_type b Hb j ltac:(lia)) as (t & Ht & Hw).
  destruct (struct_type_ok d j t Hok Htar Ht Hw) as (d' & e & -> & [He|(-> & [K1 K2 K3] & Hm)]); exists d'; eexists; (split; [done|]); [by right|left].
  split; [done|]. split; [done|done| |].
  - intros k tk Htk Hk. eapply mapped_step; [exact K3|]. by apply (Hprim k tk).
  - intros k tk Hk Htk Hc. destruct (decide (k = j)) as [->|].
    + assert (tk = t) as -> by (unfold ty in *; congruence). by apply Hm.
    + eapply mapped_step; [exact K3|]. apply (Hdone k tk); [lia|done..].
Qed.

(** Types that the pass over references is for. *)
Lemma left_kinds t : type_wf t → prim_kind (btf_kind t) = false → btf_is_composite t = false → var_like t = false → ref_type t.
Proof.
  intros Hw. pose proof (wf_kind t Hw) as Hk. unfold prim_kind, btf_is_composite, var_like, btf_is_var, btf_is_datasec, ref_type, ref_kind_ops. cbv zeta.
  generalize (btf_vlen t) as n. intros n. revert Hk. wf_kinds t Hk; intros; first [discriminate|by eexists].
Qed.

(** The state before the pass over references. *)
Record searched (d : btf_dedup) : Prop := {
  se_ok : pass_ok b E d; se_tar : mapped_targets (dd_map d);
  se_left : ∀ i t, ty i = Some t → unmapped_in (dd_map d) i → type_wf t ∧ ref_type t;
}.

(** From the creation of the state to there. *)
Lemma search_ok opts : ∃ d d0 d1 e, btf_dedup_new b opts [] = Some (inl d) ∧ btf_dedup_prim_types d = Some (d0, 0) ∧
  btf_dedup_struct_types d0 = Some (d1, e) ∧ dd_btf d = b ∧ (e = 0 ∧ searched d1 ∨ e = - EINVAL ∧ ¬ plain_refs b).
Proof.
  destruct (dedup_new_ok opts) as (d & Hnew & Hd). destruct (prim_types_ok b Hb E d Hd) as (d0 & Hprim & [P1 P2 P3 P4]).
  destruct (struct_types_ok d0) as (d1 & e & Hst & H).
  { split; [done|by apply targets_struct| |].
    - intros j t Ht Hk. pose proof (proj1 (ty_valid b Hb j) ltac:(by eexists)) as Hj. apply (P4 j t); [lia|done..].
    - intros j t Hj Ht Hk. pose proof (proj1 (ty_valid b Hb j) ltac:(by eexists)) as Hr. assert (j = 0) as -> by lia.
      exists 0. split; [|done]. apply (pa_zero b E d0 P1). }
  exists d, d0, d1, e. split; [done|]. split; [done|]. split; [done|].
  split; [apply (dk_btf b E d (pa_dd b E d (pi_ok b E 1 d Hd)))|]. destruct H as [[-> [Q1 Q2 Q3 Q4]]|H]; [left|by right]. split; [done|].
  assert (∀ j t, ty j = Some t → btf_is_composite t = true → mapped_in (dd_map d1) j) as Hcomp.
  { intros j t Ht Hk. pose proof (proj1 (ty_valid b Hb j) ltac:(by eexists)) as Hj. apply (Q4 j t); [lia|done..]. }
  split; [done| |].
  - intros x v Hx Hv. destruct (Q2 x v Hx Hv) as [H|(t & Ht & Hk)]; [done|by apply (Hcomp v t)].
  - intros i t Hi (v & Hv & Hm). assert (∀ P : Prop, mapped_in (dd_map d1) i → P) as Hno by (intros P (w & Hw & Hmw); congruence).
    destruct (ty_cases b Hb i t Hi) as [[-> ->]|(_ & Hw & _)].
    + apply Hno. exists 0. split; [|done]. apply (pa_zero b E d1 Q1).
    + split; [done|]. apply left_kinds; [done| | |].
      * destruct (prim_kind (btf_kind t)) eqn:Hk; [|done]. by apply Hno, (Q3 i t).
      * destruct (btf_is_composite t) eqn:Hk; [|done]. by apply Hno, (Hcomp i t).
      * destruct (var_like t) eqn:Hk; [|done]. by apply Hno, (pa_var b E d1 Q1 i t).
Qed.
End struct.
