(* ===== verification/BtfDedupRef.v ===== *)
(** The pass over references in the deduplication of BTF (BtfDedup.v): it ends, with a
    canonical type that is the same for every type, or with [-ELOOP] when types refer to
    themselves without a struct between. *)
From stdpp Require Import base list sets.
From Stdlib Require Import ZArith Lia.
From S2P Require Import Prelude Bytes Mem Errno Hashmap Btf BtfRaw BtfFile BtfMerge BtfDump BtfDedup BtfSame BtfDedupEq BtfDedupGraph BtfDedupPass BtfDedupStruct.

#[local] Open Scope Z_scope.

(** * Writing a word *)

Lemma set_word_words p w t : type_words (set_word p w t) = <[p := w]> (type_words t).
Proof. unfold set_word, type_words. by destruct p as [|[|[|p]]]. Qed.

Lemma set_word_info p w t : p ≠ 1%nat → bt_info (set_word p w t) = bt_info t.
Proof. unfold set_word, type_words. by destruct p as [|[|[|p]]]. Qed.

Lemma set_word_length p w t : length (bt_rest (set_word p w t)) = length (bt_rest t).
Proof. unfold set_word, type_words. destruct p as [|[|[|p]]]; try done. apply length_insert. Qed.

Lemma info_size t1 t2 : bt_info t1 = bt_info t2 → btf_type_size t1 = btf_type_size t2.
Proof. intros E. unfold btf_type_size. by rewrite (info_kind _ _ E), (info_vlen _ _ E). Qed.

Lemma set_word_wf p w t : p ≠ 1%nat → word_ok w → type_wf t → type_wf (set_word p w t).
Proof.
  intros Hp Hw [H1 H2]. split.
  - rewrite set_word_words. by apply Forall_insert.
  - rewrite (info_size _ t) by by apply set_word_info. by rewrite set_word_length.
Qed.

Lemma shape_set (R : Z → Z → Prop) t t' p w : type_wf t → shape eq R t t' → p ∈ id_pos t →
  (∀ w0, type_words t !! p = Some w0 → R w0 w) → shape eq R t (set_word p w t').
Proof.
  intros Hw (Hi & Hl & Hs) Hp HR. destruct (pos_spec t Hw) as (_ & _ & _ & Hids). destruct (Hids p Hp) as (Hlt & H1 & Hns).
  split; [by rewrite set_word_info|]. split; [by rewrite set_word_length|]. intros q w1 w2 H1' H2'. rewrite set_word_words in H2'.
  destruct (decide (q = p)) as [->|Hne].
  - rewrite list_lookup_insert_eq in H2'; [|apply lookup_lt_Some in H1'; cbn [type_words length] in *; lia]. injection H2' as <-.
    rewrite decide_False by done. rewrite decide_True by done. by apply HR.
  - rewrite list_lookup_insert_ne in H2' by done. by apply Hs.
Qed.

(** * Kinds that refer *)

Lemma info_ref_ops t1 t2 : bt_info t1 = bt_info t2 → ref_kind_ops t1 = ref_kind_ops t2.
Proof. intros E. unfold ref_kind_ops. by rewrite (info_kind _ _ E), (info_vlen _ _ E). Qed.

Lemma ref_not_forward t : ref_type t → forward t = false.
Proof.
  intros H. destruct (forward t) eqn:Hf; [|done]. exfalso. revert H. unfold forward in Hf.
  apply orb_true_iff in Hf as [Hf|Hf]; apply prim_not_ref; [by apply fwd_prim|by apply enum_fwd_prim].
Qed.

(** The operations of such a kind. *)
Lemma ref_ops_spec t ps hash equal : type_wf t → ref_kind_ops t = Some (ps, hash, equal) →
  ps = id_pos t ∧ decides equal t ∧ btf_is_composite t = false ∧ ∃ h, hash t = Some h ∧ prep_hash t = Some (PrepHash h).
Proof.
  intros Hw. unfold ref_kind_ops. cbv zeta. fold (one_ref_kind (btf_kind t)). destruct (one_ref_kind (btf_kind t)) eqn:H1.
  - intros H. apply (inj Some) in H. apply pair_eq in H as [H <-]. apply pair_eq in H as [<- <-].
    destruct (one_ref_spec t Hw H1) as (Hr & Hid & _). split; [done|].
    assert (words_behind (btf_kind t) (btf_vlen t) = 0) as H0 by by rewrite <- (wf_item_words t Hw), Hr.
    split; [by apply decides_common|].
    pose proof (wf_kind t Hw) as Hk. unfold one_ref_kind in H1. unfold btf_is_composite, prep_hash. cbv zeta.
    rewrite !orb_true_iff, !Z.eqb_eq in H1. destruct H1 as [[[[[[K|K]|K]|K]|K]|K]|K]; rewrite K; (split; [done|]); by eexists.
  - destruct (Z.eqb_spec (btf_kind t) BTF_KIND_DECL_TAG) as [K|_].
    { intros H. apply (inj Some) in H. apply pair_eq in H as [H <-]. apply pair_eq in H as [<- <-].
      split; [unfold id_pos; cbv zeta; by rewrite K|].
      assert (words_behind (btf_kind t) (btf_vlen t) = 1) as Hl by by rewrite K. split; [by apply decides_int_tag|].
      unfold btf_is_composite, prep_hash. cbv zeta. rewrite K. split; [done|]. destruct (hash_tag_some t Hw Hl) as [h Hh]. exists h. split; [done|].
      change (PrepHash <$> btf_hash_int_decl_tag t = Some (PrepHash h)). by rewrite Hh. }
    destruct (Z.eqb_spec (btf_kind t) BTF_KIND_ARRAY) as [K|_].
    { intros H. apply (inj Some) in H. apply pair_eq in H as [H <-]. apply pair_eq in H as [<- <-].
      split; [unfold id_pos; cbv zeta; by rewrite K|]. split; [by apply decides_array|].
      unfold btf_is_composite, prep_hash. cbv zeta. rewrite K. split; [done|]. destruct (hash_array_some t Hw K) as [h Hh]. exists h. split; [done|].
      change (PrepHash <$> btf_hash_array t = Some (PrepHash h)). by rewrite Hh. }
    destruct (Z.eqb_spec (btf_kind t) BTF_KIND_FUNC_PROTO) as [K|_]; [|done].
    intros H. apply (inj Some) in H. apply pair_eq in H as [H <-]. apply pair_eq in H as [<- <-].
    split; [unfold id_pos; cbv zeta; by rewrite K|]. split; [by apply decides_fnproto|].
    unfold btf_is_composite, prep_hash. cbv zeta. rewrite K. split; [done|]. destruct (hash_fnproto_some t Hw K) as [h Hh]. exists h. split; [done|].
    change (PrepHash <$> btf_hash_fnproto t = Some (PrepHash h)). by rewrite Hh.
Qed.

(** * The state of the pass *)

Lemma with_types_by_id b ts i : b_base b = None → b_start_id b = 1 →
  btf_type_by_id (b_with_types b ts) i = if i =? 0 then Some btf_void else if i <? 1 then None else ts !! Z.to_nat (i - 1).
Proof. destruct b as [ts0 st so strs base ptr]. cbn. by intros -> ->. Qed.

(** The types without a mark. *)
Definition todo (m : list Z) : nat := length (filter (λ v, v = BTF_UNPROCESSED_ID) m).

Lemma todo_mono m m' : length m = length m' → (∀ i, m' !! i = Some BTF_UNPROCESSED_ID → m !! i = Some BTF_UNPROCESSED_ID) → (todo m' ≤ todo m)%nat.
Proof.
  unfold todo. revert m'. induction m as [|v m IH]; intros [|v' m'] Hl H; try done. rewrite !filter_cons.
  specialize (IH m' ltac:(by injection Hl) (λ i, H (S i))). destruct (decide (v' = BTF_UNPROCESSED_ID)) as [->|].
  - specialize (H 0%nat eq_refl). injection H as ->. rewrite decide_True by done. cbn [length]. lia.
  - destruct (decide (v = BTF_UNPROCESSED_ID)); cbn [length]; lia.
Qed.

Lemma todo_mark m i v : m !! i = Some BTF_UNPROCESSED_ID → v ≠ BTF_UNPROCESSED_ID → todo m = S (todo (<[i := v]> m)).
Proof.
  intros Hi Hv. unfold todo. revert i Hi. induction m as [|u m IH]; intros [|i] Hi; try done.
  - change (<[0%nat := v]> (u :: m)) with (v :: m). rewrite !filter_cons. injection Hi as ->. rewrite decide_True by done. by rewrite decide_False by done.
  - change (<[S i := v]> (u :: m)) with (u :: <[i := v]> m). rewrite !filter_cons. specialize (IH i Hi). destruct (decide (u = BTF_UNPROCESSED_ID)); cbn [length]; lia.
Qed.

Lemma todo_bound m : (todo m ≤ length m)%nat.
Proof. unfold todo. apply length_filter. Qed.

Section ref.
Context (b : btf) (Hb : whole b).
Let ty : Z → option btf_type := btf_type_by_id b.
Context (E : Z → Z → Prop) `{!Sameness ty E}.

(** A type of the object as it is now. *)
Definition cur (d : btf_dedup) (i : Z) : option btf_type := btf_type_by_id (dd_btf d) i.

(** Every id of such a type is the one that the type was written with, or the canonical
    one that this leads to; and the type that is canonical for it has the same words. *)
Definition leads (m : list Z) (w w' : Z) : Prop := aref m w' = Some w' ∧ ∃ n, root m n w w'.

Definition exact (d : btf_dedup) : Prop := ∀ i t t', ty i = Some t → ref_type t → cur d i = Some t' →
  (∀ p w w', p ∈ id_pos t → type_words t !! p = Some w → type_words t' !! p = Some w' → w' = w ∨ leads (dd_map d) w w') ∧
  ∀ v, aref (dd_map d) i = Some v → id_mapped v = true → cur d v = Some t'.

Lemma leads_self m w : aref m w = Some w → leads m w w.
Proof. intros H. split; [done|]. exists 1%nat. apply (root_here _ w w); [done|by right]. Qed.

Lemma leads_two m i v : id_mapped v = true → aref m i = Some v → aref m v = Some v → leads m i v.
Proof.
  intros Hm Hi Hv. destruct (decide (v = i)) as [->|Hne]; [by apply leads_self|]. destruct (leads_self m v Hv) as [_ [n Hn]].
  split; [done|]. exists (S n). by apply (root_step _ n i v).
Qed.

Lemma leads_keep m m' w w' : (∀ j v, aref m j = Some v → id_mapped v = true → aref m' j = Some v) → id_mapped w' = true → leads m w w' → leads m' w w'.
Proof.
  intros Hk Hm [Hw [n H]]. split; [by apply Hk|]. exists n. induction H as [i v Hv He|n i v r Hv Hmv Hne H IH].
  - apply (root_here _ i i); [by apply Hk|by right].
  - apply (root_step _ n i v); [by apply Hk|done..|by apply IH].
Qed.

Record ref_ok (d : btf_dedup) : Prop := {
  rf_btf : ∃ ts, dd_btf d = b_with_types b ts ∧ length ts = length (b_types b);
  rf_types : ∀ i t, ty i = Some t → ∃ t', cur d i = Some t' ∧ (i ≠ 0 → type_wf t') ∧ shape eq E t t';
  rf_alloc : dd_alloc d = [];
  rf_map : map_ok b E (dd_map d);
  rf_zero : aref (dd_map d) 0 = Some 0;
  rf_table : table_ok b d;
  rf_filed : filed b d (dd_map d);
  rf_tar : mapped_targets (dd_map d);
  rf_new : ∀ i v, aref (dd_map d) i = Some v → id_mapped v = false → v = BTF_UNPROCESSED_ID ∨ v = BTF_IN_PROGRESS_ID;
  rf_left : ∀ i t, ty i = Some t → unmapped_in (dd_map d) i → type_wf t ∧ ref_type t;
  rf_keep : ∀ i t, ty i = Some t → ¬ ref_type t → cur d i = Some t;
  rf_same : ∀ i, aref (dd_map d) i = Some BTF_UNPROCESSED_ID → cur d i = ty i;
  rf_done : ∀ i t t' p w, ty i = Some t → ref_type t → mapped_in (dd_map d) i → cur d i = Some t' →
    p ∈ id_pos t → type_words t' !! p = Some w → aref (dd_map d) w = Some w;
  rf_exact : exact d;
}.

Lemma leads_mapped d w w' : ref_ok d → leads (dd_map d) w w' → id_mapped w' = true.
Proof. intros Hd [Hw _]. apply (valid_mapped b Hb), (map_valid b Hb E _ w' (rf_map d Hd)). by eexists. Qed.

Lemma searched_ref d : searched b E d → ref_ok d.
Proof.
  intros [[Hdd Htab H0 Hn Hv Hrefs Hfiled] Ht Hl]. pose proof (dk_btf b E d Hdd) as Hbtf.
  assert (∀ i, cur d i = ty i) as Hcur by (intros i; unfold cur; by rewrite Hbtf).
  split; try done.
  - exists (b_types b). split; [|done]. rewrite Hbtf. by destruct b.
  - intros i t Hi. exists t. rewrite Hcur. split; [done|]. split.
    + intros Hi0. by destruct (ty_cases b Hb i t Hi) as [[? _]|(_ & ? & _)].
    + apply shape_refl; [done|]. intros p w Hp Hw. apply sm_refl. exact (ref_valid b Hb i t p w Hi Hp Hw).
  - apply (dk_alloc b E d Hdd).
  - apply (dk_map b E d Hdd).
  - intros i v Hi Hm. left. by apply (Hn i).
  - intros i t Hi _. by rewrite Hcur.
  - intros i t t' p w Hi Hr (v & Hiv & Hm). destruct (Hrefs i t Hi Hr) as (u & Hu & Hmu). congruence.
  - intros i t t' Hi Hr Hc. rewrite Hcur in Hc. split; [intros p w w' _ Hw Hw'; left; congruence|].
    intros v Hiv Hm. destruct (Hrefs i t Hi Hr) as (u & Hu & Hmu). congruence.
Qed.

(** What the steps keep: only types without a mark get one, and their words change; and
    those of [x]. *)
Definition step_but (x : Z) (d d' : btf_dedup) : Prop :=
  (∀ i v, aref (dd_map d) i = Some v → v ≠ BTF_UNPROCESSED_ID → aref (dd_map d') i = Some v ∧ (i ≠ x → cur d' i = cur d i)) ∧
  (∀ i v, aref (dd_map d') i = Some v → id_mapped v = false → aref (dd_map d) i = Some v).

Lemma step_refl x d : step_but x d d.
Proof. split; intros i v Hi _; done. Qed.

Lemma step_trans x d1 d2 d3 : step_but x d1 d2 → step_but x d2 d3 → step_but x d1 d3.
Proof.
  intros [A1 B1] [A2 B2]. split; intros i v Hi Hv.
  - destruct (A1 i v Hi Hv) as [H1 C1]. destruct (A2 i v H1 Hv) as [H2 C2]. split; [done|]. intros Hx. by rewrite C2, C1.
  - apply B1; [by apply B2|done].
Qed.

Lemma step_weaken x d d' : step_but (-1) d d' → step_but x d d'.
Proof.
  intros [A B]. split; [|done]. intros i v Hi Hv. destruct (A i v Hi Hv) as [H C]. split; [done|]. intros _. apply C.
  apply aref_Some in Hi as [? _]. lia.
Qed.

Lemma step_mapped x d d' i v : step_but x d d' → aref (dd_map d) i = Some v → id_mapped v = true → aref (dd_map d') i = Some v.
Proof. intros [A _] Hi Hm. apply (A i v Hi). by intros ->. Qed.

Lemma step_todo x d d' : ref_ok d → ref_ok d' → step_but x d d' → (todo (dd_map d') ≤ todo (dd_map d))%nat.
Proof.
  intros Hd Hd' [_ B]. apply todo_mono.
  - pose proof (mo_len b E _ (rf_map d Hd)). pose proof (mo_len b E _ (rf_map d' Hd')). lia.
  - intros i Hi. assert (aref (dd_map d') (Z.of_nat i) = Some BTF_UNPROCESSED_ID) as H by (apply aref_Some; rewrite Nat2Z.id; split; [lia|done]).
    apply B, aref_Some in H as [_ H]; [|done]. by rewrite Nat2Z.id in H.
Qed.

(** What is filed stays so as long as it is not touched. *)
Lemma table_keep d d' : table_ok b d → dd_table d' = dd_table d → dd_hash_fn d' = dd_hash_fn d →
  (∀ i v, aref (dd_map d) i = Some v → id_mapped v = true → aref (dd_map d') i = Some v ∧ cur d' i = cur d i) → table_ok b d'.
Proof.
  intros [H1 H2 H3 H4 H5] Et Ef Hk. unfold cur in Hk. split; rewrite Et, ?Ef; [done|done|done| |].
  - intros k c Hkc. destruct (H4 k c Hkc) as (t & t0 & v & h & Ht & Hw & Hc & Hv & Hm & Hrest). destruct (Hk c v Hv Hm) as [Hv' Hc'].
    exists t, t0, v, h. rewrite Hc'. split_and!; try done; apply Hrest.
  - intros k1 k2 c1 c2 t K1 K2. destruct (H4 k1 c1 K1) as (_ & _ & v1 & _ & _ & _ & _ & V1 & M1 & _). destruct (H4 k2 c2 K2) as (_ & _ & v2 & _ & _ & _ & _ & V2 & M2 & _).
    rewrite (proj2 (Hk c1 v1 V1 M1)), (proj2 (Hk c2 v2 V2 M2)). by apply H5 with k1 k2.
Qed.

(** An entry is set. *)
Section set.
Context (d : btf_dedup) (Hd : ref_ok d) (i v : Z) (Hun : unmapped_in (dd_map d) i).
Let m : list Z := <[Z.to_nat i := v]> (dd_map d).
Context (Hm : map_ok b E m) (Hv : id_mapped v = false ∧ v = BTF_IN_PROGRESS_ID ∨ v = i ∨ aref (dd_map d) v = Some v).

Lemma set_lt : 0 ≤ i < Z.of_nat (length (dd_map d)).
Proof. apply aref_bound. destruct Hun as (u & -> & _). by eexists. Qed.

Lemma set_keep j w : aref (dd_map d) j = Some w → id_mapped w = true → aref m j = Some w.
Proof.
  intros Hj Hw. unfold m. rewrite aref_set_ne; [done|apply set_lt|]. intros <-. destruct Hun as (u & Hu & Hmu). congruence.
Qed.

Lemma set_table : table_ok b (dd_with_map d m).
Proof. apply (table_keep d); [apply (rf_table d Hd)|done|done|]. intros j w Hj Hw. split; [by apply set_keep|done]. Qed.

Lemma entry_state tab : table_ok b (dd_with_table (dd_with_map d m) tab) → filed b (dd_with_table (dd_with_map d m) tab) m →
  (id_mapped v = true → ∀ t t' p w, ty i = Some t → cur d i = Some t' → p ∈ id_pos t → type_words t' !! p = Some w → aref (dd_map d) w = Some w) →
  (id_mapped v = true → cur d v = cur d i) →
  ref_ok (dd_with_table (dd_with_map d m) tab).
Proof.
  intros Htab Hfiled Hw Hcv.
  assert (∀ j w, aref m j = Some w → j = i ∧ w = v ∨ j ≠ i ∧ aref (dd_map d) j = Some w) as Hm'.
  { intros j w. unfold m. rewrite aref_set by apply set_lt. destruct (decide (j = i)) as [->|]; [left; split; congruence|by right]. }
  assert (∀ j, aref (dd_map d) j = Some j → aref m j = Some j) as Hself.
  { intros j Hj. apply set_keep; [done|]. apply (valid_mapped b Hb), (map_valid b Hb E _ j (rf_map d Hd)). by eexists. }
  destruct Hd as [R1 R2 R3 R4 R0 R5 R6 R7 R8 R9 R9' R10 R11 R12]. split; cbn [dd_alloc dd_map dd_with_table dd_with_map]; try done.
  - by apply Hself.
  - intros x u Hx Hu. destruct (Hm' x u Hx) as [[-> ->]|[_ Hx']].
    + destruct Hv as [[? _]|[->|Hvv]]; [congruence|by exists i|]. exists v. split; [by apply Hself|done].
    + destruct (R7 x u Hx' Hu) as (w & Hw1 & Hw2). exists w. split; [by apply set_keep|done].
  - intros j w Hj Hmw. destruct (Hm' j w Hj) as [[-> ->]|[_ Hj']]; [|by apply (R8 j)].
    destruct Hv as [[_ ->]|[->|Hvv]]; [by right| |].
    + rewrite (valid_mapped b Hb) in Hmw; [done|]. apply (ty_valid b Hb). rewrite <- (mo_len b E _ R4). apply set_lt.
    + rewrite (valid_mapped b Hb) in Hmw; [done|]. apply (map_valid b Hb E _ v R4). by eexists.
  - intros j t Hj (w & Hjw & Hmw). destruct (Hm' j w Hjw) as [[-> ->]|[_ Hj']]; [by apply (R9 i t)|]. apply (R9 j t Hj). by exists w.
  - intros j Hj. destruct (Hm' j _ Hj) as [[-> <-]|[_ Hj']]; [|by apply R10]. exfalso.
    destruct Hv as [[_ Hx]|[Hx|Hvv]]; [done| |].
    + pose proof set_lt as Hlt. rewrite (mo_len b E _ R4) in Hlt. pose proof (valid_mapped b Hb i ltac:(by apply (ty_valid b Hb))) as Hmi. by rewrite <- Hx in Hmi.
    + pose proof (valid_mapped b Hb BTF_UNPROCESSED_ID (proj1 (map_valid b Hb E _ BTF_UNPROCESSED_ID R4) ltac:(by eexists))) as Hmi. done.
  - intros j t t' p w Hj Hr (u & Hju & Hmu) Hc Hp Hpw. apply Hself. destruct (Hm' j u Hju) as [[-> ->]|[_ Hj']].
    + by apply (Hw Hmu t t' p w).
    + apply (R11 j t t' p w); try done. by exists u.
  - intros j t t' Hj Hr Hc. destruct (R12 j t t' Hj Hr Hc) as [X1 X2]. split.
    + intros p w w' Hp H1 H2. destruct (X1 p w w' Hp H1 H2) as [?|Hl]; [by left|right]. apply (leads_keep (dd_map d)); [apply set_keep|by apply (leads_mapped d w)|done].
    + intros u Hju Hmu. change (cur d u = Some t'). destruct (Hm' j u Hju) as [[-> ->]|[_ Hj']]; [|by apply X2]. by rewrite (Hcv Hmu).
Qed.
End set.

Lemma map_ok_mark d i : ref_ok d → is_Some (ty i) → map_ok b E (<[Z.to_nat i := BTF_IN_PROGRESS_ID]> (dd_map d)).
Proof. intros Hd Hi. apply map_ok_end; [done|done|apply (rf_map d Hd)|by apply (ty_valid b Hb)|by left]. Qed.

Lemma mark_ok d i : ref_ok d → is_Some (ty i) → aref (dd_map d) i = Some BTF_UNPROCESSED_ID →
  let d' := dd_with_map d (<[Z.to_nat i := BTF_IN_PROGRESS_ID]> (dd_map d)) in
  set_map d i BTF_IN_PROGRESS_ID = Some d' ∧ ref_ok d' ∧ todo (dd_map d) = S (todo (dd_map d')).
Proof.
  intros Hd Hi Hu d'. assert (unmapped_in (dd_map d) i) as Hun by by exists BTF_UNPROCESSED_ID.
  split; [apply (set_map_eq b E); [apply (rf_map d Hd)|by apply (ty_valid b Hb)]|]. split.
  - apply (entry_state d Hd i BTF_IN_PROGRESS_ID Hun (map_ok_mark d i Hd Hi) ltac:(by left) (dd_table d)).
    + apply (set_table d Hd i _ Hun).
    + intros j t Hj H0 Hvar. rewrite aref_set by by apply set_lt. destruct (decide (j = i)) as [->|]; [|by apply (rf_filed d Hd j t)].
      intros Hx. apply (inj Some) in Hx. pose proof (valid_mapped b Hb i Hi) as Hmi. by rewrite <- Hx in Hmi.
    + done.
    + done.
  - apply todo_mark; [|done]. by apply aref_Some in Hu as [_ ?].
Qed.

(** ** Writing an id *)

Lemma ref_type_id i t : ty i = Some t → ref_type t → 1 ≤ i < type_cnt b.
Proof.
  intros Hi Hr. destruct (ty_cases b Hb i t Hi) as [[_ ->]|(? & _)]; [by destruct Hr as [? ?]|done].
Qed.

Lemma put_ok d i t p w : ref_ok d → ty i = Some t → aref (dd_map d) i = Some BTF_IN_PROGRESS_ID → p ∈ id_pos t →
  (∀ w0, type_words t !! p = Some w0 → E w0 w ∧ leads (dd_map d) w0 w) → is_Some (ty w) →
  ∃ d' t', put_type_word d i p w = Some d' ∧ ref_ok d' ∧ step_but i d d' ∧ dd_map d' = dd_map d ∧
    cur d i = Some t' ∧ cur d' i = Some (set_word p w t').
Proof.
  intros Hd Hi Hip Hp Hw Hvw. assert (unmapped_in (dd_map d) i) as Hun by by exists BTF_IN_PROGRESS_ID.
  destruct (rf_left d Hd i t Hi Hun) as [Hwf Hr]. pose proof (ref_type_id i t Hi Hr) as Hri.
  destruct (rf_types d Hd i t Hi) as (t' & Ht' & Hwf' & Hsh). destruct (rf_btf d Hd) as (ts & Hbtf & Hlen).
  assert (∀ j, cur d j = if j =? 0 then Some btf_void else if j <? 1 then None else ts !! Z.to_nat (j - 1)) as Hcur.
  { intros j. unfold cur. rewrite Hbtf. apply with_types_by_id; [apply (wh_base b Hb)|apply (wh_start b Hb)]. }
  assert (ts !! Z.to_nat (i - 1) = Some t') as Hts.
  { rewrite Hcur in Ht'. rewrite (proj2 (Z.eqb_neq i 0)) in Ht' by lia. destruct (Z.ltb_spec i 1); [lia|done]. }
  set (ts' := <[Z.to_nat (i - 1) := set_word p w t']> ts). exists (dd_with_btf d (b_with_types b ts')), t'.
  assert (∀ j, cur (dd_with_btf d (b_with_types b ts')) j = if decide (j = i) then Some (set_word p w t') else cur d j) as Hcur'.
  { intros j. unfold cur at 1. cbn [dd_btf dd_with_btf]. rewrite with_types_by_id; [|apply (wh_base b Hb)|apply (wh_start b Hb)]. rewrite Hcur.
    subst ts'. apply lookup_lt_Some in Hts. destruct (decide (j = i)) as [->|Hne].
    - rewrite (proj2 (Z.eqb_neq i 0)) by lia. destruct (Z.ltb_spec i 1); [lia|]. by apply list_lookup_insert_eq.
    - destruct (Z.eqb_spec j 0); [done|]. destruct (Z.ltb_spec j 1); [done|]. apply list_lookup_insert_ne. lia. }
  split; [|split; [|split; [|split; [done|split; [done|]]]]].
  - unfold put_type_word. rewrite Hbtf. cbn [b_start_id b_types b_with_types]. rewrite (wh_start b Hb).
    destruct (Z.ltb_spec i 1); [lia|]. by rewrite Hts.
  - assert (∀ j v, aref (dd_map d) j = Some v → v ≠ BTF_IN_PROGRESS_ID → cur (dd_with_btf d (b_with_types b ts')) j = cur d j) as Hkeep.
    { intros j v Hj Hv. rewrite Hcur'. rewrite decide_False; [done|]. intros ->. congruence. }
    destruct Hd as [R1 R2 R3 R4 R0 R5 R6 R7 R8 R9 R9' R10 R11 R12]. split; cbn [dd_alloc dd_map dd_with_btf]; try done.
    + exists ts'. split; [done|]. subst ts'. by rewrite length_insert.
    + intros j tj Hj. rewrite Hcur'. destruct (decide (j = i)) as [->|]; [|by apply R2].
      assert (tj = t) as -> by congruence. exists (set_word p w t'). split; [done|].
      destruct (pos_spec t Hwf) as (_ & _ & _ & Hids). destruct (Hids p Hp) as (_ & H1 & _). split.
      * intros H0. apply set_word_wf; [done| |by apply Hwf']. apply (ty_valid b Hb) in Hvw. pose proof (wh_cnt b Hb).
        unfold word_ok, in_u, type_cnt, BTF_MAX_NR_TYPES in *. lia.
      * apply shape_set; try done. intros w0 Hw0. by apply Hw.
    + apply (table_keep d); [done..|]. intros j v Hj Hv. split; [done|]. apply (Hkeep j v Hj). by intros ->.
    + intros j tj Hj Hnr. rewrite Hcur'. rewrite decide_False; [by apply R9'|]. intros ->. by assert (tj = t) as -> by congruence.
    + intros j Hj. rewrite (Hkeep j _ Hj) by done. by apply R10.
    + intros j tj t'' q u Hj Hr' (v & Hjv & Hm) Hc. rewrite (Hkeep j v Hjv) in Hc by (by intros ->). apply (R11 j tj t'' q u); try done. by exists v.
    + intros j tj t'' Hj Hr' Hc. rewrite Hcur' in Hc. destruct (decide (j = i)) as [->|Hne].
      * injection Hc as <-. assert (tj = t) as -> by congruence. destruct (R12 i t t' Hi Hr Ht') as [X1 _]. split.
        -- intros q u u' Hq H1 H2. rewrite set_word_words in H2. destruct (decide (q = p)) as [->|Hqp].
           ++ apply list_lookup_insert_Some in H2 as [(_ & -> & _)|[? _]]; [|done]. right. by apply Hw.
           ++ rewrite list_lookup_insert_ne in H2 by done. by apply (X1 q).
        -- intros v Hv Hm. change (aref (dd_map d) i = Some v) in Hv. assert (v = BTF_IN_PROGRESS_ID) as -> by congruence. done.
      * destruct (R12 j tj t'' Hj Hr' Hc) as [X1 X2]. split; [done|]. intros v Hjv Hm. destruct (R7 j v Hjv Hm) as (u & Hvu & Hmu).
        rewrite (Hkeep v u Hvu) by (by intros ->). by apply X2.
  - split; [|done]. intros j v Hj _. split; [done|]. intros Hne. rewrite Hcur'. by rewrite decide_False.
  - rewrite Hcur'. by rewrite decide_True.
Qed.

(** * The recursion *)

(** References of such types to such types go to lower ones. *)
Definition ranks (rank : Z → nat) : Prop :=
  ∀ i t p w t', ty i = Some t → ref_type t → p ∈ id_pos t → type_words t !! p = Some w → ty w = Some t' → ref_type t' → (rank w < rank i)%nat.

(** The types being resolved are above. *)
Definition below (rank : Z → nat) (d : btf_dedup) (i : Z) : Prop :=
  ∀ t j, ty i = Some t → ref_type t → aref (dd_map d) j = Some BTF_IN_PROGRESS_ID → (rank i < rank j)%nat.

Definition looped (d : btf_dedup) (i e : Z) : Prop := e = - ELOOP ∧ ∀ rank, ranks rank → ¬ below rank d i.

Definition ref_spec (f : btf_dedup → Z → option (btf_dedup * Z)) (n : nat) : Prop :=
  ∀ d i, ref_ok d → is_Some (ty i) → (todo (dd_map d) < n)%nat →
    ∃ d' e, f d i = Some (d', e) ∧
      (looped d i e ∨ ref_ok d' ∧ step_but (-1) d d' ∧ E i e ∧ leads (dd_map d') i e ∧ mapped_in (dd_map d') i).

Lemma valid_nonneg i : is_Some (ty i) → 0 ≤ i < 2 ^ 31.
Proof. intros Hi%(ty_valid b Hb). pose proof (wh_cnt b Hb). unfold type_cnt, BTF_MAX_NR_TYPES in *. lia. Qed.

Lemma valid_s32 i : is_Some (ty i) → s32 i = i.
Proof. intros Hi%valid_nonneg. apply swrap_small; lia. Qed.

Section words.
Context (f : btf_dedup → Z → option (btf_dedup * Z)) (n : nat) (Hf : ref_spec f n) (i : Z) (t : btf_type) (Hi : ty i = Some t) (Hr : ref_type t).

Lemma ref_words_ok ps : NoDup ps → ∀ d, (∀ p, p ∈ ps → p ∈ id_pos t) → ref_ok d → aref (dd_map d) i = Some BTF_IN_PROGRESS_ID → (todo (dd_map d) < n)%nat →
  (∀ t' p, cur d i = Some t' → p ∈ ps → type_words t' !! p = type_words t !! p) →
  ∃ d' e, dedup_ref_words f d i ps = Some (d', e) ∧
    ((e = - ELOOP ∧ ∀ rank, ranks rank → ¬ ∀ j, aref (dd_map d) j = Some BTF_IN_PROGRESS_ID → (rank i ≤ rank j)%nat) ∨
     (e = 0 ∧ ref_ok d' ∧ step_but i d d' ∧
      ∀ t' t'' q w, cur d i = Some t' → cur d' i = Some t'' → type_words t'' !! q = Some w →
        if decide (q ∈ ps) then aref (dd_map d') w = Some w else type_words t' !! q = Some w)).
Proof.
  induction ps as [|p ps IH]; intros Hnd d Hps Hd Hip Hn Hsame; cbn [dedup_ref_words].
  { exists d, 0. split; [done|]. right. split; [done|]. split; [done|]. split; [apply step_refl|]. intros t' t'' q w H1 H2 Hq.
    rewrite decide_False by (by apply not_elem_of_nil). congruence. }
  apply NoDup_cons in Hnd as [Hnew Hnd]. assert (p ∈ id_pos t) as Hp by (apply Hps; by left).
  destruct (rf_types d Hd i t Hi) as (t0 & Ht0 & _ & _). assert (unmapped_in (dd_map d) i) as Hun by by exists BTF_IN_PROGRESS_ID.
  destruct (rf_left d Hd i t Hi Hun) as [Hwf _]. destruct (pos_spec t Hwf) as (_ & _ & _ & Hids). destruct (Hids p Hp) as (Hlt & _).
  destruct (lookup_lt_is_Some_2 _ _ Hlt) as [w Hw]. unfold cur in Ht0. rewrite Ht0. fold (cur d i) in Ht0. cbn [mbind option_bind].
  rewrite (Hsame t0 p Ht0 ltac:(by left)), Hw. cbn [mbind option_bind].
  assert (is_Some (ty w)) as Hvw by exact (ref_valid b Hb i t p w Hi Hp Hw).
  destruct (Hf d w Hd Hvw Hn) as (d1 & e & -> & H). cbn [mbind option_bind]. destruct H as [[-> Hl]|(Hd1 & Hs1 & He & Hled & _)].
  { exists d1, (- ELOOP). split; [done|]. left. split; [done|]. intros rank Hrank Hall. apply (Hl rank Hrank). intros tw j Htw Hrw Hj.
    specialize (Hrank i t p w tw Hi Hr Hp Hw Htw Hrw). specialize (Hall j Hj). lia. }
  destruct (sm_dom w e He) as [_ Hve]. pose proof (valid_nonneg e Hve) as Hge. destruct (Z.ltb_spec e 0) as [|_]; [lia|].
  pose proof Hs1 as [A1 B1]. destruct (A1 i _ Hip ltac:(done)) as [Hip1 Hc1]. specialize (Hc1 ltac:(apply (ref_type_id i t) in Hr; [lia|done])).
  destruct (put_ok d1 i t p e Hd1 Hi Hip1 Hp) as (d2 & t0' & -> & Hd2 & Hs2 & Hm2 & Ht1 & Ht2); [intros w0 Hw0; assert (w0 = w) as -> by congruence; done|done|]. pose proof (proj1 Hled) as Hself.
  assert (t0' = t0) as -> by congruence. cbn [mbind option_bind].
  destruct (IH Hnd d2) as (d3 & e3 & -> & H).
  - intros q Hq. apply Hps. by right.
  - done.
  - by rewrite Hm2.
  - rewrite Hm2. pose proof (step_todo _ d d1 Hd Hd1 Hs1). lia.
  - intros t' q Ht' Hq. assert (t' = set_word p e t0) as -> by congruence. rewrite set_word_words, list_lookup_insert_ne; [|by intros ->].
    apply Hsame; [done|by right].
  - exists d3, e3. split; [done|]. destruct H as [[-> Hl]|(-> & Hd3 & Hs3 & Hwords)]; [left|right].
    + split; [done|]. intros rank Hrank Hall. apply (Hl rank Hrank). intros j Hj. rewrite Hm2 in Hj. apply Hall, B1; done.
    + split; [done|]. split; [done|]. split; [apply (step_trans i d d1 d3); [by apply step_weaken|by apply (step_trans i d1 d2 d3)]|].
      intros t' t'' q u Ht' Ht'' Hq. assert (t' = t0) as -> by congruence. specialize (Hwords _ t'' q u Ht2 Ht'' Hq).
      destruct (decide (q ∈ ps)) as [Hin|Hin]; [by rewrite decide_True by (by right)|].
      rewrite set_word_words in Hwords. destruct (decide (q = p)) as [->|Hqp].
      * rewrite decide_True by by left. apply list_lookup_insert_Some in Hwords as [(_ & -> & _)|[? _]]; [|done].
        apply (step_mapped i d2 d3 u u Hs3); [by rewrite Hm2|by apply (valid_mapped b Hb)].
      * rewrite list_lookup_insert_ne in Hwords by done. rewrite decide_False; [done|]. by rewrite not_elem_of_cons.
Qed.
End words.

(** ** The canonical type *)

(** Types that are equal now are the same. *)
Lemma equal_now_same d i j t tj t' : ref_ok d → ty i = Some t → ty j = Some tj → cur d i = Some t' → cur d j = Some t' → E i j.
Proof.
  intros Hd Hi Hj Ci Cj. destruct (rf_types d Hd i t Hi) as (ti & Hti & _ & Si). destruct (rf_types d Hd j tj Hj) as (tj' & Htj & _ & Sj).
  assert (ti = t') as -> by congruence. assert (tj' = t') as -> by congruence. apply (sm_loc i j t tj Hi Hj). left.
  eapply shape_impl; [eapply shape_comp; [exact Si|apply shape_sym; exact Sj]| |].
  - intros w1 w2 (w & -> & Hw). by symmetry.
  - intros p w1 w2 _ _ _ (w & H1 & H2). eapply sm_trans; [exact H1|]. by apply sm_sym.
Qed.

(** What is known when a canonical type has been set. *)
Definition canonical (d d' : btf_dedup) (i new : Z) : Prop :=
  ref_ok d' ∧ E i new ∧ aref (dd_map d') new = Some new ∧ aref (dd_map d') i = Some new ∧
  (∀ j, j ≠ i → aref (dd_map d') j = aref (dd_map d) j) ∧ ∀ j, cur d' j = cur d j.

Section canon.
Context (d : btf_dedup) (Hd : ref_ok d) (i : Z) (t t' : btf_type) (Hi : ty i = Some t) (Hr : ref_type t).
Context (Hip : aref (dd_map d) i = Some BTF_IN_PROGRESS_ID) (Ht' : cur d i = Some t').
Context (Hwords : ∀ p w, p ∈ id_pos t → type_words t' !! p = Some w → aref (dd_map d) w = Some w).

Lemma canon_words : ∀ u u' p w, ty i = Some u → cur d i = Some u' → p ∈ id_pos u → type_words u' !! p = Some w → aref (dd_map d) w = Some w.
Proof. intros u u' p w Hu Hu' Hp Hw. assert (u = t) as -> by congruence. assert (u' = t') as -> by congruence. by apply (Hwords p). Qed.

Lemma canon_unmapped : unmapped_in (dd_map d) i.
Proof. by exists BTF_IN_PROGRESS_ID. Qed.

Lemma canon_lt : 0 ≤ i < Z.of_nat (length (dd_map d)).
Proof. apply (set_lt d i canon_unmapped). Qed.

Lemma canon_self h : type_wf t' → prep_hash t' = Some (PrepHash h) →
  (∀ c, (u64 h, c) ∈ hashmap_entries (dd_table d) → cur d c ≠ Some t') →
  ∃ d', set_canonical d h i i = Some (d', 0) ∧ canonical d d' i i.
Proof.
  intros Hwf Hh Hdist. set (m := <[Z.to_nat i := i]> (dd_map d)). pose proof canon_lt as Hl. pose proof canon_unmapped as Hun.
  assert (0 ≤ i < type_cnt b) as Hri by (apply (ty_valid b Hb); by eexists).
  assert (map_ok b E m) as Hm by (apply map_ok_end; [done|done|apply (rf_map d Hd)|done|by right]).
  assert (aref m i = Some i) as Hself by by apply aref_set_eq.
  destruct (table_add_ok b Hb (dd_with_map d m) h i t' t (set_table d Hd i i Hun) (rf_alloc d Hd) Ht' Hwf Hi Hh Hself) as (tab & Hadd & Htab & Hent).
  { apply (not_filed b d i); [apply (rf_table d Hd)|exact Hun]. }
  { intros _. exact Hdist. }
  unfold set_canonical. rewrite (set_map_eq b E d i i (rf_map d Hd) Hri). cbn [mbind option_bind]. rewrite Z.eqb_refl. fold m. rewrite Hadd. cbn [mbind option_bind].
  eexists. split; [done|]. split; [|split; [apply sm_refl; by eexists|split; [done|split; [done|split; [|done]]]]].
  - apply (entry_state d Hd i i Hun Hm); [by right; left|done| |intros _; apply canon_words|done].
    intros j tj Hj H0 Hvar. cbn [dd_table dd_with_table]. rewrite list_elem_of_fmap. unfold m. rewrite aref_set by done. destruct (decide (j = i)) as [->|].
    + intros _. exists (u64 h, i). split; [done|]. apply Hent. by left.
    + intros Hjj. pose proof (rf_filed d Hd j tj Hj H0 Hvar Hjj) as Hf. apply list_elem_of_fmap in Hf as ([k c] & -> & He). exists (k, c). split; [done|].
      apply Hent. by right.
  - intros j Hj. cbn. apply aref_set_ne; [lia|done].
Qed.

Lemma canon_other h new : E i new → (defines ty i → defines ty new) → cur d new = Some t' → aref (dd_map d) new = Some new → ∃ d', set_canonical d h i new = Some (d', 0) ∧ canonical d d' i new.
Proof.
  intros He Hdef Hcn Hnew. pose proof canon_lt as Hl. pose proof canon_unmapped as Hun. destruct (sm_dom i new He) as [_ Hvn].
  pose proof (valid_mapped b Hb new Hvn) as Hmn. assert (new ≠ i) as Hne.
  { intros ->. destruct Hun as (u & Hu & Hmu). congruence. }
  assert (0 ≤ i < type_cnt b) as Hri by (apply (ty_valid b Hb); by eexists).
  assert (map_ok b E (<[Z.to_nat i := new]> (dd_map d))) as Hm.
  { apply (map_ok_link b Hb E _ i new 1 new (rf_map d Hd) He Hdef); [apply (root_here _ new new); [done|by right]|done|by left]. }
  unfold set_canonical. rewrite (set_map_eq b E d i new (rf_map d Hd) Hri). cbn [mbind option_bind]. rewrite (proj2 (Z.eqb_neq i new)) by congruence.
  eexists. split; [done|]. split; [|split; [done|split; [|split; [by apply aref_set_eq|split; [|done]]]]].
  - apply (entry_state d Hd i new Hun Hm ltac:(by right; right) (dd_table d)).
    + apply (set_table d Hd i new Hun).
    + intros j tj Hj H0 Hvar. rewrite aref_set by done. destruct (decide (j = i)) as [->|]; [congruence|]. by apply (rf_filed d Hd j tj).
    + intros _. apply canon_words.
    + intros _. by rewrite Hcn.
  - cbn. rewrite aref_set_ne; [done|lia|congruence].
  - intros j Hj. cbn. apply aref_set_ne; [lia|congruence].
Qed.

Lemma canon_ok ps hash equal : ref_kind_ops t' = Some (ps, hash, equal) →
  ∃ h cands new d', hash t' = Some h ∧ dedup_cands d h = Some cands ∧ equal_cand (dd_btf d) equal t' i cands = Some new ∧
    set_canonical d h i new = Some (d', 0) ∧ canonical d d' i new.
Proof.
  intros Hops. pose proof (ref_type_id i t Hi Hr) as Hri. destruct (rf_types d Hd i t Hi) as (t0 & Ht0 & Hwf & _).
  assert (t0 = t') as -> by congruence. specialize (Hwf ltac:(lia)).
  destruct (ref_ops_spec t' ps hash equal Hwf Hops) as (_ & Hdec & Hcomp & h & Hh & Hprep).
  destruct (dedup_cands_spec b Hb d h (rf_table d Hd)) as (cands & Hc & Hin).
  destruct (equal_cand_spec (dd_btf d) equal t' i cands Hdec) as (new & Hnew & HP).
  { intros c Hcc%Hin. destruct (tk_types b d (rf_table d Hd) _ c Hcc) as (tc & _ & _ & _ & ? & ? & _). by exists tc. }
  exists h, cands, new. destruct HP as [[-> HP]|[Hcn HP]].
  - destruct (canon_self h Hwf Hprep) as (d' & Hs & Hcan); [|by exists d']. intros c Hkc. apply HP. by apply Hin.
  - apply Hin in Hcn. destruct (tk_types b d (rf_table d Hd) _ new Hcn) as (tn & tn0 & v & _ & Htn & _ & Hn0 & Hv & _ & Hself & _).
    destruct (rf_types d Hd new tn0 Hn0) as (tn' & Htn' & _ & Sn). assert (tn' = t') as -> by (unfold cur in Htn'; congruence).
    assert (ref_type tn0) as Hrn by (unfold ref_type; rewrite (info_ref_ops tn0 t' (proj1 Sn)); by eexists).
    specialize (Hself (ref_not_forward tn0 Hrn)) as ->.
    destruct (canon_other h new) as (d' & Hs & Hcan); [by apply (equal_now_same d i new t tn0 t')|intros _; exists tn0; split; [done|by apply ref_not_forward]|done|done|by exists d'].
Qed.
End canon.

(** ** The whole recursion *)

Lemma ref_type_ok n : ref_spec (btf_dedup_ref_type_from n) n.
Proof.
  induction n as [|n IH]; intros d i Hd Hi Hn; [lia|]. cbn [btf_dedup_ref_type_from].
  destruct (proj2 (map_valid b Hb E _ i (rf_map d Hd)) Hi) as [m Hm]. rewrite Hm. cbn [mbind option_bind].
  destruct (Z.eqb_spec m BTF_IN_PROGRESS_ID) as [->|Hnp].
  { exists d, (- ELOOP). split; [done|]. left. split; [done|]. intros rank _ Hlow. destruct Hi as [t Ht].
    destruct (rf_left d Hd i t Ht) as [_ Hr]; [by exists BTF_IN_PROGRESS_ID|]. specialize (Hlow t i Ht Hr Hm). lia. }
  destruct (id_mapped m) eqn:Hmm.
  { destruct (resolve_ok b Hb E d i (rf_map d Hd) Hi) as (r & k & -> & Hroot & He). cbn [mbind option_bind].
    destruct (sm_dom i r He) as [_ Hvr]. rewrite (valid_s32 r Hvr).
    destruct (targets_root _ _ _ _ (rf_tar d Hd) Hroot) as (v & Hv & Hmv); [by exists m|].
    assert (aref (dd_map d) r = Some r) as Hself.
    { apply root_end in Hroot. inversion Hroot as [x u Hu [Hmu|Hux]|x u v0 r0 Hu Hmu Hne H0]; subst; [congruence|congruence|inversion H0]. }
    exists d, r. split; [done|]. right. split; [done|]. split; [apply step_refl|]. split; [done|]. split; [split; [done|by eexists]|]. by exists m. }
  destruct (rf_new d Hd i m Hm Hmm) as [->|]; [|done]. destruct Hi as [t Ht]. pose proof (rf_same d Hd i Hm) as Hcur.
  unfold cur in Hcur. rewrite Hcur, Ht. cbn [mbind option_bind]. destruct (mark_ok d i Hd ltac:(by eexists) Hm) as (-> & Hd1 & Htodo).
  set (d1 := dd_with_map d _) in *. cbn [mbind option_bind].
  destruct (rf_left d Hd i t Ht) as [Hwf Hr]; [by exists BTF_UNPROCESSED_ID|]. destruct Hr as [[[ps hash] equal] Hops]. rewrite Hops.
  assert (ref_type t) as Hr by (by eexists). destruct (ref_ops_spec t ps hash equal Hwf Hops) as (Hps & _).
  destruct (pos_spec t Hwf) as (_ & _ & Hnd & Hids). pose proof (ref_type_id i t Ht Hr) as Hri.
  assert (0 ≤ i < Z.of_nat (length (dd_map d))) as Hl by (rewrite (mo_len b E _ (rf_map d Hd)); lia).
  assert (aref (dd_map d1) i = Some BTF_IN_PROGRESS_ID) as Hip by by apply aref_set_eq.
  assert (∀ j, j ≠ i → aref (dd_map d1) j = aref (dd_map d) j) as Hother by (intros j Hj; apply aref_set_ne; [lia|congruence]).
  assert (∀ j, cur d1 j = cur d j) as Hcur1 by done. rewrite <- Hps in Hnd.
  destruct (ref_words_ok (btf_dedup_ref_type_from n) n IH i t Ht Hr ps Hnd d1) as (d2 & e & -> & H); [by rewrite Hps|done|done|lia| |].
  { intros t' p Ht' _. rewrite Hcur1 in Ht'. unfold cur in Ht'. rewrite Hcur, Ht in Ht'. by injection Ht' as <-. }
  cbn [mbind option_bind]. destruct H as [[-> Hl2]|(-> & Hd2 & Hs2 & Hwords)].
  { exists d2, (- ELOOP). split; [done|]. left. split; [done|]. intros rank Hrank Hlow. apply (Hl2 rank Hrank). intros j Hj.
    destruct (decide (j = i)) as [->|Hji]; [lia|]. rewrite (Hother j Hji) in Hj. specialize (Hlow t j Ht Hr Hj). lia. }
  change (0 <? 0) with false. cbv iota. destruct Hs2 as [A2 B2]. destruct (A2 i _ Hip ltac:(done)) as [Hip2 _].
  destruct (rf_types d2 Hd2 i t Ht) as (t2 & Ht2 & _ & S2). unfold cur in Ht2. rewrite Ht2. cbn [mbind option_bind].
  assert (cur d1 i = Some t) as Hc1 by (rewrite Hcur1; unfold cur; by rewrite Hcur).
  destruct (canon_ok d2 Hd2 i t t2 Ht Hr Hip2 Ht2) with (ps := ps) (hash := hash) (equal := equal) as (h & cands & new & d3 & -> & H1 & H2 & H3 & Hd3 & He & Hself & Hinew & Hkeep & Hcur3).
  - intros p w Hp Hw. specialize (Hwords t t2 p w Hc1 Ht2 Hw). rewrite decide_True in Hwords by by rewrite Hps. done.
  - rewrite <- Hops. symmetry. apply info_ref_ops. by destruct S2.
  - cbn [mbind option_bind]. rewrite H1. cbn [mbind option_bind]. rewrite H2. cbn [mbind option_bind]. rewrite H3. cbn [mbind option_bind].
    destruct (sm_dom i new He) as [_ Hvn]. rewrite (valid_s32 new Hvn).
    exists d3, new. split; [done|]. right. split; [done|]. split; [|split; [done|split; [apply leads_two; [by apply (valid_mapped b Hb)|done..]|]]].
    + split.
      * intros j v Hj Hv. assert (j ≠ i) as Hji by congruence. rewrite <- (Hother j Hji) in Hj. destruct (A2 j v Hj Hv) as [Hj2 Hc2].
        rewrite (Hkeep j Hji), Hcur3. split; [done|]. intros _. rewrite (Hc2 Hji). apply Hcur1.
      * intros j v Hj Hv. destruct (decide (j = i)) as [->|Hji].
        { rewrite Hinew in Hj. injection Hj as <-. by rewrite (valid_mapped b Hb) in Hv. }
        rewrite (Hkeep j Hji) in Hj. rewrite <- (Hother j Hji). by apply B2.
    + exists new. split; [done|]. by apply (valid_mapped b Hb).
Qed.

(** ** The pass *)

Definition none_open (d : btf_dedup) : Prop := ∀ j, aref (dd_map d) j ≠ Some BTF_IN_PROGRESS_ID.

Record ref_inv (i : Z) (d : btf_dedup) : Prop := {
  ri_ok : ref_ok d; ri_open : none_open d; ri_done : ∀ j, j < i → is_Some (ty j) → mapped_in (dd_map d) j;
}.

(** The table is cleared at the end. *)
Definition refs_resolved (d : btf_dedup) : Prop :=
  ∃ d0, d = dd_with_table d0 (hashmap__clear (dd_table d0)) ∧ ref_ok d0 ∧ ∀ i, is_Some (ty i) → mapped_in (dd_map d0) i.

Lemma ref_types_ok d : ref_inv 1 d → ∃ d' e, btf_dedup_ref_types d = Some (d', e) ∧
  (e = 0 ∧ refs_resolved d' ∨ e = - ELOOP ∧ ∀ rank, ¬ ranks rank).
Proof.
  intros Hd. unfold btf_dedup_ref_types, own_types. destruct (rf_btf d (ri_ok 1 d Hd)) as (ts & Hbtf & Hlen). rewrite Hbtf.
  cbn [b_types b_start_id b_with_types]. rewrite Hlen, (wh_start b Hb).
  set (f := λ d id, _). destruct (each_type_ok ref_inv (λ e, e = - ELOOP ∧ ∀ rank, ¬ ranks rank) f (length (b_types b)) ltac:(by intros e [-> _]) 1 d Hd) as (d' & e & -> & H).
  - subst f. clear d Hd ts Hbtf Hlen. intros j d Hj [Hok Hopen Hdone]. destruct (own_type b Hb j ltac:(lia)) as (t & Ht & _). cbv beta. unfold btf_dedup_ref_type.
    destruct (ref_type_ok (S (S (length (dd_map d)))) d j Hok ltac:(by eexists)) as (d' & e & -> & H); [pose proof (todo_bound (dd_map d)); lia|].
    cbn [mbind option_bind]. destruct H as [[-> Hl]|(Hd' & Hs & He & _ & Hm)].
    + exists d', (- ELOOP). split; [done|]. right. split; [done|]. intros rank Hrank. apply (Hl rank Hrank). intros t' k _ _ Hk. by destruct (Hopen k).
    + destruct (sm_dom j e He) as [_ Hve]. pose proof (valid_nonneg e Hve). destruct (Z.ltb_spec e 0); [lia|].
      exists d', 0. split; [done|]. left. split; [done|]. split; [done| |].
      * intros k Hk. apply (Hopen k). by apply Hs.
      * intros k Hk Hvk. destruct (decide (k = j)) as [->|]; [done|]. destruct (Hdone k ltac:(lia) Hvk) as (v & Hv & Hmv). exists v. split; [|done].
        by apply (step_mapped (-1) d).
  - cbn [mbind option_bind]. destruct H as [[-> [Hok _ Hdone]]|[-> Hl]].
    + change (0 <? 0) with false. cbv iota. eexists _, 0. split; [done|]. left. split; [done|]. exists d'. split; [done|]. split; [done|].
      intros i Hi. apply Hdone; [|done]. apply (ty_valid b Hb) in Hi. unfold type_cnt in Hi. lia.
    + exists d', (- ELOOP). split; [done|]. by right.
Qed.

Lemma searched_inv d : searched b E d → ref_inv 1 d.
Proof.
  intros Hd. pose proof (searched_ref d Hd) as Hok. destruct Hd as [Hp _ _]. split; [done| |].
  - intros j Hj. by pose proof (pa_new b E d Hp j _ Hj ltac:(done)).
  - intros j Hj Hv. apply (ty_valid b Hb) in Hv. assert (j = 0) as -> by lia. exists 0. split; [|done]. apply (pa_zero b E d Hp).
Qed.
End ref.
