(* ===== verification/BtfDedupVisit.v ===== *)
(** Visiting the words of the types of an object one after the other (BtfDedup.v): what
    a visitor does with a word, [visit_words] does with every word it is called for, and
    nothing else changes. *)
From stdpp Require Import base list sets.
From Stdlib Require Import ZArith Lia.
From S2P Require Import Prelude Bytes Mem Errno Btf BtfRaw BtfFile BtfMerge BtfDedup BtfSame BtfDedupRef.

#[local] Open Scope Z_scope.

Section visits.
Context {S : Type} (visit : S → Z → option (S * Z * Z)).
(** What holds of the state while an amount of room is left, how states grow, and how a
    word is related to its new one. *)
Context (Inv : Z → S → Prop) (le : S → S → Prop) `{!PreOrder le} (R : S → Z → Z → Prop).
Context (cost : Z → Z) (okw : Z → Prop) (Hcost : ∀ w, 0 ≤ cost w).
Context (Hmono : ∀ s s' w w', R s w w' → le s s' → R s' w w').
Context (Hvisit : ∀ s w b, okw w → 0 ≤ b → Inv (cost w + b) s →
  ∃ s' w', visit s w = Some (s', w', 0) ∧ Inv b s' ∧ le s s' ∧ word_ok w' ∧ R s' w w').

(** The words at [ps] are new, the others the same. *)
Definition changed (ps : list nat) (s : S) (t t' : btf_type) : Prop :=
  bt_info t = bt_info t' ∧ length (bt_rest t) = length (bt_rest t') ∧
  ∀ q w w', type_words t !! q = Some w → type_words t' !! q = Some w' → if decide (q ∈ ps) then R s w w' else w = w'.

Lemma changed_mono ps s s' t t' : changed ps s t t' → le s s' → changed ps s' t t'.
Proof.
  intros (Hi & Hl & Hw) Hle. split; [done|]. split; [done|]. intros q w w' H1 H2. specialize (Hw q w w' H1 H2).
  destruct (decide (q ∈ ps)); [by eapply Hmono|done].
Qed.

Definition visitable (ps : list nat) (t : btf_type) : Prop :=
  NoDup ps ∧ ∀ p, p ∈ ps → (p < length (type_words t))%nat ∧ p ≠ 1%nat ∧ ∀ w, type_words t !! p = Some w → okw w.

Lemma visit_words_ok ps : ∀ s t b, visitable ps t → type_wf t → 0 ≤ b → Inv (cost_at cost ps (type_words t) + b) s →
  ∃ s' t', visit_words visit ps s t = Some (s', t', 0) ∧ Inv b s' ∧ le s s' ∧ type_wf t' ∧ changed ps s' t t'.
Proof.
  induction ps as [|p ps IH]; intros s t b [Hnd Hps] Hwf Hb Hinv; cbn [visit_words].
  { exists s, t. split; [done|]. split; [done|]. split; [done|]. split; [done|]. split; [done|]. split; [done|]. intros q w w' H1 H2.
    rewrite decide_False by (by apply not_elem_of_nil). congruence. }
  apply NoDup_cons in Hnd as [Hnew Hnd]. destruct (Hps p ltac:(by left)) as (Hlt & H1 & Hok).
  destruct (lookup_lt_is_Some_2 _ _ Hlt) as [w Hw]. rewrite Hw. cbn [mbind option_bind].
  cbn [cost_at foldr] in Hinv. fold (cost_at cost ps (type_words t)) in Hinv. rewrite (list_lookup_total_correct _ _ _ Hw), <- Z.add_assoc in Hinv.
  pose proof (cost_at_nonneg cost Hcost ps (type_words t)) as Hnn.
  destruct (Hvisit s w (cost_at cost ps (type_words t) + b) (Hok w Hw) ltac:(lia) Hinv) as (s1 & w1 & -> & Hinv1 & Hle1 & Hw1 & HR1). cbn [mbind option_bind].
  change (negb (0 =? 0)) with false. cbv iota.
  rewrite <- (cost_at_insert cost ps (type_words t) p w1) in Hinv1 by done. rewrite <- set_word_words in Hinv1.
  destruct (IH s1 (set_word p w1 t) b) as (s2 & t2 & -> & Hinv2 & Hle2 & Hwf2 & Hi2 & Hl2 & Hc2); [|by apply set_word_wf|done|done|].
  { split; [done|]. intros q Hq. destruct (Hps q ltac:(by right)) as (? & ? & Hokq). rewrite set_word_words, length_insert. split; [done|]. split; [done|].
    intros u. rewrite list_lookup_insert_ne; [by apply Hokq|]. by intros ->. }
  exists s2, t2. split; [done|]. split; [done|]. split; [by etrans|]. split; [done|]. rewrite set_word_info in Hi2 by done. rewrite set_word_length in Hl2.
  split; [done|]. split; [done|]. intros q u u' Hu Hu'. specialize (Hc2 q). rewrite set_word_words in Hc2. destruct (decide (q = p)) as [->|Hne].
  - rewrite decide_True by by left. assert (u = w) as -> by congruence. specialize (Hc2 w1 u' (list_lookup_insert_eq _ _ _ Hlt) Hu').
    rewrite decide_False in Hc2 by done. subst u'. by apply (Hmono s1).
  - rewrite list_lookup_insert_ne in Hc2 by done. specialize (Hc2 u u' Hu Hu'). destruct (decide (q ∈ ps)).
    + by rewrite decide_True by by right.
    + rewrite decide_False; [done|]. by rewrite not_elem_of_cons.
Qed.

(** All types. *)
Context (pos : btf_type → list nat) (visit_type : S → btf_type → option (S * btf_type * Z)).

Definition total_cost (ts : list btf_type) : Z := foldr (λ t n, cost_at cost (pos t) (type_words t) + n) 0 ts.

Lemma visit_types_ok ts : (∀ s t, t ∈ ts → visit_type s t = visit_words visit (pos t) s t) →
  Forall (λ t, type_wf t ∧ visitable (pos t) t) ts → ∀ s b, 0 ≤ b → Inv (total_cost ts + b) s →
  ∃ s' ts', visit_types visit_type s ts = Some (s', ts', 0) ∧ Inv b s' ∧ le s s' ∧ Forall2 (λ t t', type_wf t' ∧ changed (pos t) s' t t') ts ts'.
Proof.
  induction ts as [|t ts IH]; intros Hvt Hts s b Hb Hinv; cbn [visit_types].
  { exists s, []. split; [done|]. split; [done|]. split; [done|]. constructor. }
  apply Forall_cons in Hts as [[Hwf Hv] Hts]. rewrite Hvt by by left. cbn [total_cost foldr] in Hinv. fold (total_cost ts) in Hinv. rewrite <- Z.add_assoc in Hinv.
  assert (0 ≤ total_cost ts) as Hnn.
  { clear - Hcost. induction ts as [|t ts IH]; cbn; [done|]. fold (total_cost ts). pose proof (cost_at_nonneg cost Hcost (pos t) (type_words t)). lia. }
  destruct (visit_words_ok (pos t) s t (total_cost ts + b) Hv Hwf ltac:(lia) Hinv) as (s1 & t1 & -> & Hinv1 & Hle1 & Hwf1 & Hc1). cbn [mbind option_bind].
  change (negb (0 =? 0)) with false. cbv iota.
  destruct (IH ltac:(intros; apply Hvt; by right) Hts s1 b Hb Hinv1) as (s2 & ts2 & -> & Hinv2 & Hle2 & Hall). cbn [mbind option_bind].
  exists s2, (t1 :: ts2). split; [done|]. split; [done|]. split; [by etrans|]. constructor; [|done]. split; [done|]. by eapply changed_mono.
Qed.
End visits.

Lemma changed_shape_ids {S} (R : S → Z → Z → Prop) (s : S) t t' : type_wf t → changed R (id_pos t) s t t' → shape eq (R s) t t'.
Proof.
  intros Hw (Hi & Hl & Hc). split; [done|]. split; [done|]. intros p w w' H1 H2. specialize (Hc p w w' H1 H2).
  destruct (pos_spec t Hw) as (_ & _ & _ & Hids). destruct (decide (p ∈ id_pos t)) as [Hp|]; [|by destruct (decide (p ∈ str_pos t))].
  destruct (Hids p Hp) as (_ & _ & Hn). by rewrite decide_False.
Qed.

Lemma changed_shape_strs {S} (R : S → Z → Z → Prop) (s : S) t t' : changed R (str_pos t) s t t' → shape (R s) eq t t'.
Proof.
  intros (Hi & Hl & Hc). split; [done|]. split; [done|]. intros p w w' H1 H2. specialize (Hc p w w' H1 H2).
  destruct (decide (p ∈ str_pos t)); [done|]. by destruct (decide (p ∈ id_pos t)).
Qed.
