(* ===== verification/BtfDedupOut.v ===== *)
(** The end of the deduplication of BTF (BtfDedup.v): canonical types are moved together
    in their order, get new ids, and refer to each other by these. *)
From stdpp Require Import base list sets.
From Stdlib Require Import ZArith Lia.
From S2P Require Import Prelude Bytes Mem Errno Hashmap Btf BtfRaw BtfFile BtfMerge BtfDump BtfDedup BtfSame BtfDedupEq BtfDedupGraph BtfDedupPass BtfDedupStruct BtfDedupRef BtfDedupVisit.

#[local] Open Scope Z_scope.

(** * Counting canonical types *)

Definition canonical_at (m : list Z) (i : nat) : Prop := aref m (Z.of_nat i) = Some (Z.of_nat i).
#[export] Instance canonical_at_dec m i : Decision (canonical_at m i).
Proof. unfold canonical_at. apply _. Defined.

(** The canonical ids from 1 to [k]. *)
Fixpoint ncanon (m : list Z) (k : nat) : nat :=
  match k with O => O | S k' => if decide (canonical_at m k) then S (ncanon m k') else ncanon m k' end.

Lemma ncanon_le m k : (ncanon m k ≤ k)%nat.
Proof. induction k as [|k IH]; cbn [ncanon]; [done|]. destruct (decide _); lia. Qed.

Lemma ncanon_mono m i j : (i ≤ j)%nat → (ncanon m i ≤ ncanon m j)%nat.
Proof. induction 1 as [|j Hj IH]; cbn [ncanon]; [done|]. destruct (decide _); lia. Qed.

Lemma ncanon_lt m i j : (i < j)%nat → canonical_at m j → (ncanon m i < ncanon m j)%nat.
Proof. intros Hij Hj. destruct j as [|j]; [lia|]. cbn [ncanon]. rewrite decide_True by done. pose proof (ncanon_mono m i j ltac:(lia)). lia. Qed.

Lemma ncanon_pos m i : (1 ≤ i)%nat → canonical_at m i → (1 ≤ ncanon m i)%nat.
Proof. intros Hi Hc. pose proof (ncanon_lt m 0 i ltac:(lia) Hc). cbn [ncanon] in *. lia. Qed.

Lemma ncanon_inj m i j : canonical_at m i → canonical_at m j → ncanon m i = ncanon m j → i = j.
Proof.
  intros Hi Hj He. destruct (Nat.lt_trichotomy i j) as [H|[H|H]]; [|done|].
  - pose proof (ncanon_lt m i j H Hj). lia.
  - pose proof (ncanon_lt m j i H Hi). lia.
Qed.

Lemma ncanon_surj m k x : (1 ≤ x ≤ ncanon m k)%nat → ∃ c, (1 ≤ c ≤ k)%nat ∧ canonical_at m c ∧ ncanon m c = x.
Proof.
  induction k as [|k IH]; intros Hx; cbn [ncanon] in Hx; [lia|]. destruct (decide (canonical_at m (S k))) as [Hc|Hc].
  - destruct (decide (x = S (ncanon m k))) as [->|].
    + exists (S k). split; [lia|]. split; [done|]. cbn [ncanon]. by rewrite decide_True.
    + destruct IH as (c & ? & ? & ?); [lia|]. exists c. split; [lia|done].
  - destruct IH as (c & ? & ? & ?); [lia|]. exists c. split; [lia|done].
Qed.

(** * Compaction *)

Section compact.
Context (b : btf) (Hb : whole b) (m : list Z) (ts0 : list btf_type) (Hts0 : length ts0 = length (b_types b)).
Context (Hlen : length m = S (length ts0)) (Hwf : Forall type_wf ts0).

(** After the first [i] types. *)
Record compacted (i : nat) (d : btf_dedup) (ts : list btf_type) : Prop := {
  cp_map : dd_map d = m; cp_btf : dd_btf d = b_with_types b ts; cp_alloc : dd_alloc d = []; cp_len : length ts = length ts0;
  cp_rest : ∀ k, (i ≤ k)%nat → ts !! k = ts0 !! k;
  cp_hlen : length (hy_map (dd_hypot d)) = S (length ts0); cp_zero : aref (hy_map (dd_hypot d)) 0 = Some 0;
  cp_new : ∀ c, (1 ≤ c ≤ i)%nat → canonical_at m c →
    ts !! (ncanon m c - 1)%nat = ts0 !! (c - 1)%nat ∧ aref (hy_map (dd_hypot d)) (Z.of_nat c) = Some (Z.of_nat (ncanon m c));
}.

Lemma with_types_get ts i : length ts = length (b_types b) → (i < length ts)%nat → btf__type_by_id (b_with_types b ts) (1 + Z.of_nat i) = ts !! i.
Proof.
  intros Hl Hi. unfold btf__type_by_id.
  assert (btf__type_cnt (b_with_types b ts) = type_cnt b) as ->.
  { rewrite <- (whole_cnt b Hb). unfold btf__type_cnt, b_nr_types, b_with_types. cbn. by rewrite Hl. }
  unfold type_cnt. destruct (Z.geb_spec (1 + Z.of_nat i) (1 + Z.of_nat (length (b_types b)))); [lia|].
  rewrite with_types_by_id; [|apply (wh_base b Hb)|apply (wh_start b Hb)]. rewrite (proj2 (Z.eqb_neq _ 0)) by lia.
  destruct (Z.ltb_spec (1 + Z.of_nat i) 1); [lia|]. f_equal. lia.
Qed.

Lemma compact_loop_ok k : ∀ i d ts, (i + k = length ts0)%nat → compacted i d ts →
  ∃ d' ts', compact_loop k (Z.of_nat i) (Z.of_nat (ncanon m i)) d = Some (d', Z.of_nat (ncanon m (length ts0)), 0) ∧ compacted (length ts0) d' ts'.
Proof.
  induction k as [|k IH]; intros i d ts Hik Hc; cbn [compact_loop].
  { assert (i = length ts0) as -> by lia. by exists d, ts. }
  pose proof Hc as [C1 C2 C3 C4 C5 C6 C7 C8]. rewrite C2. cbn [b_start_id b_with_types]. rewrite (wh_start b Hb), C1.
  destruct (proj2 (aref_bound m (1 + Z.of_nat i)) ltac:(lia)) as [v Hv]. rewrite Hv. cbn [mbind option_bind].
  assert (canonical_at m (S i) ↔ v = 1 + Z.of_nat i) as Hcan.
  { unfold canonical_at. replace (Z.of_nat (S i)) with (1 + Z.of_nat i) by lia. rewrite Hv. split; [by intros [= ->]|by intros ->]. }
  replace (Z.of_nat i + 1) with (Z.of_nat (S i)) by lia. destruct (Z.eqb_spec v (1 + Z.of_nat i)) as [Hvi|Hvi]; cbn [negb].
  - apply Hcan in Hvi. destruct (lookup_lt_is_Some_2 ts0 i ltac:(lia)) as [t Ht].
    fold (b_with_types b ts). rewrite with_types_get, (C5 i), Ht by lia. cbn [mbind option_bind].
    assert (type_wf t) as Hwt by (eapply Forall_lookup_1; [exact Hwf|exact Ht]). rewrite (proj2 Hwt).
    destruct (Z.ltb_spec (SIZEOF_TYPE + 4 * Z.of_nat (length (bt_rest t))) 0) as [Hneg|_]; [unfold SIZEOF_TYPE in Hneg; lia|].
    rewrite aset_Some by (rewrite C6; lia). cbn [mbind option_bind].
    replace (Z.of_nat (ncanon m i) + 1) with (Z.of_nat (ncanon m (S i))) by (cbn [ncanon]; rewrite decide_True by done; lia).
    pose proof (ncanon_le m i) as Hni.
    apply (IH (S i) _ (<[Z.to_nat (Z.of_nat (ncanon m i)) := t]> ts)); [lia|]. rewrite Nat2Z.id. split; cbn [dd_map dd_btf dd_alloc dd_hypot dd_with_hypot dd_with_btf hy_map]; try done.
    + by rewrite length_insert.
    + intros j Hj. rewrite list_lookup_insert_ne by lia. apply C5. lia.
    + by rewrite length_insert.
    + rewrite aref_set_ne by lia. done.
    + intros c Hcr Hcc. rewrite aref_set by lia. destruct (decide (Z.of_nat c = 1 + Z.of_nat i)) as [Hci|Hci].
      * assert (c = S i) as -> by lia. cbn [ncanon]. rewrite decide_True by done. cbn [Nat.sub]. rewrite !Nat.sub_0_r.
        rewrite list_lookup_insert_eq by lia. rewrite Ht. split; [done|]. f_equal. lia.
      * pose proof (ncanon_lt m (c - 1) c ltac:(lia) Hcc). pose proof (ncanon_mono m c i ltac:(lia)).
        rewrite list_lookup_insert_ne by lia. apply C8; [lia|done].
  - assert (¬ canonical_at m (S i)) as Hno by (intros H; by apply Hcan in H).
    assert (ncanon m i = ncanon m (S i)) as -> by (cbn [ncanon]; by rewrite decide_False).
    apply (IH (S i) d ts); [lia|]. split; try done.
    + intros j Hj. apply C5. lia.
    + intros c Hcr Hcc. destruct (decide (c = S i)) as [->|]; [done|]. apply C8; [lia|done].
Qed.

Lemma compact_ok d : dd_map d = m → dd_btf d = b_with_types b ts0 → dd_alloc d = [] →
  ∃ d' ts1, btf_dedup_compact_types d = Some (d', 0) ∧ dd_map d' = m ∧ dd_btf d' = b_with_types b ts1 ∧ length ts1 = ncanon m (length ts0) ∧
    aref (hy_map (dd_hypot d')) 0 = Some 0 ∧
    ∀ c, (1 ≤ c ≤ length ts0)%nat → canonical_at m c →
      ts1 !! (ncanon m c - 1)%nat = ts0 !! (c - 1)%nat ∧ aref (hy_map (dd_hypot d')) (Z.of_nat c) = Some (Z.of_nat (ncanon m c)).
Proof.
  intros Hm Hbtf Hal. unfold btf_dedup_compact_types. rewrite Hbtf. cbn [b_start_id b_types b_with_types]. rewrite (wh_start b Hb).
  change (seq 1 (Z.to_nat 1 - 1)) with ([] : list nat). cbn [map app].
  set (d1 := dd_with_hypot d _). destruct (compact_loop_ok (length ts0) 0 d1 ts0) as (d2 & ts2 & Hloop & C); [done| |].
  { split; try done.
    - cbn. by rewrite length_replicate.
    - intros c Hc. lia. }
  cbn [ncanon] in Hloop. change (Z.of_nat 0) with 0 in Hloop. rewrite Hloop. cbn [mbind option_bind]. change (negb (0 =? 0)) with false. cbv iota.
  destruct C as [C1 C2 C3 C4 C5 C6 C7 C8]. cbn [dd_alloc dd_with_btf]. rewrite C3, C2. cbn [pop_alloc negb]. rewrite andb_false_r.
  eexists _, (take (ncanon m (length ts0)) ts2). split; [done|]. cbn [dd_map dd_btf dd_hypot dd_with_alloc dd_with_btf b_types b_with_types]. rewrite Nat2Z.id.
  split; [done|]. split; [done|]. split; [rewrite length_take; pose proof (ncanon_le m (length ts0)); lia|]. split; [done|].
  intros c Hc Hcan. destruct (C8 c ltac:(lia) Hcan) as [H1 H2]. split; [|done]. rewrite lookup_take_lt; [done|].
  pose proof (ncanon_mono m c (length ts0) ltac:(lia)). pose proof (ncanon_pos m c ltac:(lia) Hcan). lia.
Qed.
End compact.

(** * Renumbering *)

(** The new id of a type. *)
Definition new_id (m : list Z) (i : Z) : Z :=
  match resolve_loop (S (length m)) m i with Some r => Z.of_nat (ncanon m (Z.to_nat r)) | None => 0 end.

Section out.
Context (b : btf) (Hb : whole b).
Let ty : Z → option btf_type := btf_type_by_id b.
Context (E : Z → Z → Prop) `{!Sameness ty E}.
Context (d0 : btf_dedup) (Hd : ref_ok b E d0) (Hall : ∀ i, is_Some (ty i) → mapped_in (dd_map d0) i).
Let m : list Z := dd_map d0.
Let f : Z → Z := new_id m.

Lemma map_length : length m = S (length (b_types b)).
Proof. pose proof (mo_len b E _ (rf_map b E d0 Hd)) as H. unfold type_cnt in H. unfold m. lia. Qed.

(** The end of the chain of an id is canonical. *)
Lemma canonical_root i : is_Some (ty i) → ∃ r, resolve_loop (S (length m)) m i = Some r ∧ aref m r = Some r ∧ E i r ∧ is_Some (ty r) ∧
  f i = Z.of_nat (ncanon m (Z.to_nat r)) ∧ (defines ty i → defines ty r).
Proof.
  intros Hi. destruct (resolve_ok b Hb E d0 i (rf_map b E d0 Hd) Hi) as (r & k & Hr & Hroot & He). unfold resolve_type_id in Hr. fold m in Hr.
  destruct (sm_dom i r He) as [_ Hvr]. exists r. split; [done|]. split; [|split; [done|split; [done|split; [unfold f, new_id; by rewrite Hr|by apply (root_defined b E _ _ _ _ (rf_map b E d0 Hd) Hroot)]]]].
  destruct (targets_root _ _ _ _ (rf_tar b E d0 Hd) Hroot (Hall i Hi)) as (v & Hv & Hmv).
  apply root_end in Hroot. inversion Hroot as [x u Hu [Hmu|Hux]|x u v0 r0 Hu Hmu Hne H0]; subst; [|done|inversion H0].
  assert (u = v) as -> by congruence. congruence.
Qed.

Lemma canonical_new c : aref m c = Some c → 0 ≤ c → f c = Z.of_nat (ncanon m (Z.to_nat c)).
Proof.
  intros Hc H0. unfold f, new_id. rewrite (resolve_loop_root m 1 c c); [done| |lia]. apply (root_here _ c c); [done|by right].
Qed.

Lemma new_same i j : is_Some (ty i) → is_Some (ty j) → f i = f j → E i j.
Proof.
  intros Hi Hj Hf. destruct (canonical_root i Hi) as (r & _ & Cr & Er & Vr & Fi & _). destruct (canonical_root j Hj) as (s & _ & Cs & Es & Vs & Fj & _).
  apply (ty_valid b Hb) in Vr, Vs. assert (Z.to_nat r = Z.to_nat s) as Hrs.
  { apply (ncanon_inj m); unfold canonical_at; rewrite ?Z2Nat.id by lia; [done|done|]. lia. }
  assert (r = s) as -> by lia. eapply sm_trans; [exact Er|]. by apply sm_sym.
Qed.

Lemma new_leads w w' : leads m w w' → f w = f w'.
Proof.
  intros [Hs [n Hr]]. unfold f, new_id. rewrite (resolve_loop_root m n w w'); [|done|apply root_bound in Hr; lia].
  rewrite (resolve_loop_root m 1 w' w'); [done|by eapply root_end|lia].
Qed.

(** A type that only refers to others has the words of its canonical type. *)
Lemma exact_root n i r t t' : root m n i r → ty i = Some t → ref_type t → cur d0 i = Some t' → cur d0 r = Some t'.
Proof.
  intros H. revert t. induction H as [i v Hv He|n i v r Hv Hmv Hne H IH]; [done|]. intros t Hi Hr Hc.
  destruct (rf_exact b E d0 Hd i t t' Hi Hr Hc) as [_ Hcv]. specialize (Hcv v Hv Hmv).
  destruct (rf_types b E d0 Hd i t Hi) as (u & Hu & _ & Su). assert (u = t') as -> by congruence.
  destruct (proj2 (sm_dom i v (mo_sound b E _ (rf_map b E d0 Hd) i v Hv Hmv))) as (tv & Htv). destruct (rf_types b E d0 Hd v tv Htv) as (u & Hu' & _ & Sv).
  assert (u = t') as -> by congruence. assert (bt_info tv = bt_info t) as Hinfo by (by rewrite (proj1 Sv), (proj1 Su)).
  apply (IH tv); [done| |done]. unfold ref_type. by rewrite (info_ref_ops tv t Hinfo).
Qed.

(** Its words lead to canonical ones. *)
Lemma exact_words i t t' : ty i = Some t → ref_type t → cur d0 i = Some t' → shape eq (leads m) t t'.
Proof.
  intros Hi Hr Hc. destruct (rf_types b E d0 Hd i t Hi) as (u & Hu & _ & Su). assert (u = t') as -> by congruence.
  eapply shape_impl; [exact Su|done|]. intros p w w' Hp H1 H2 _. destruct (rf_exact b E d0 Hd i t t' Hi Hr Hc) as [Hx _].
  destruct (Hx p w w' Hp H1 H2) as [->|]; [|done]. apply leads_self. apply (rf_done b E d0 Hd i t t' p w Hi Hr); try done. apply Hall. by eexists.
Qed.

(** What the types of the result are. *)
Record renumbered (b' : btf) : Prop := {
  rn_base : b_base b' = None; rn_start : b_start_id b' = 1; rn_strs : b_strs b' = b_strs b; rn_str_off : b_start_str_off b' = 0;
  rn_le : (length (b_types b') ≤ length (b_types b))%nat;
  rn_wf : Forall type_wf (b_types b');
  rn_zero : f 0 = 0;
  rn_range : ∀ i, is_Some (ty i) → 0 ≤ f i ≤ Z.of_nat (length (b_types b'));
  rn_onto : ∀ x, 1 ≤ x ≤ Z.of_nat (length (b_types b')) → ∃ c t t', 1 ≤ c ∧ aref m c = Some c ∧ f c = x ∧
    ty c = Some t ∧ cur d0 c = Some t' ∧ ∃ t'', btf_type_by_id b' x = Some t'' ∧ shape eq (λ w w', w' = f w) t' t'';
  rn_types : ∀ i, is_Some (ty i) → ∃ r t t'', E i r ∧ (defines ty i → defines ty r) ∧ ty r = Some t ∧ btf_type_by_id b' (f i) = Some t'' ∧
    shape eq (λ w w', ∃ u, E w u ∧ w' = f u) t t'';
  rn_exact : ∀ i t, ty i = Some t → ref_type t → ∃ t'', btf_type_by_id b' (f i) = Some t'' ∧ shape eq (λ w w', w' = f w) t t'';
}.

(** ** The types now *)

Lemma cur_types ts0 c : dd_btf d0 = b_with_types b ts0 → 1 ≤ c → cur d0 c = ts0 !! Z.to_nat (c - 1).
Proof.
  intros Hbtf Hc. unfold cur. rewrite Hbtf, with_types_by_id; [|apply (wh_base b Hb)|apply (wh_start b Hb)].
  rewrite (proj2 (Z.eqb_neq c 0)) by lia. by destruct (Z.ltb_spec c 1); [lia|].
Qed.

(** What words of the types now refer to are types. *)
Lemma cur_words c t' p w : cur d0 c = Some t' → p ∈ id_pos t' → type_words t' !! p = Some w → is_Some (ty w) ∧
  ∃ t w0, ty c = Some t ∧ type_words t !! p = Some w0 ∧ E w0 w.
Proof.
  intros Hc Hp Hw. assert (is_Some (ty c)) as [t Ht].
  { apply (ty_valid b Hb). destruct (rf_btf b E d0 Hd) as (ts0 & Hbtf & Hl). unfold cur in Hc. rewrite Hbtf, with_types_by_id in Hc; [|apply (wh_base b Hb)|apply (wh_start b Hb)].
    unfold type_cnt. destruct (Z.eqb_spec c 0) as [->|]; [lia|]. destruct (Z.ltb_spec c 1); [done|]. apply lookup_lt_Some in Hc. lia. }
  destruct (rf_types b E d0 Hd c t Ht) as (u & Hu & Hwfu & Hi & Hl & Hs). assert (u = t') as -> by congruence.
  destruct (same_length_lookup t' t p w (eq_sym Hl) Hw) as [w0 Hw0]. specialize (Hs p w0 w Hw0 Hw).
  destruct (decide (c = 0)) as [->|H0].
  { exfalso. unfold cur in Hc. destruct (rf_btf b E d0 Hd) as (ts0 & Hbtf & _). rewrite Hbtf, with_types_by_id in Hc; [|apply (wh_base b Hb)|apply (wh_start b Hb)].
    cbn in Hc. injection Hc as <-. revert Hp. unfold id_pos. cbn. by intros ?%elem_of_nil. }
  destruct (pos_spec t' (Hwfu H0)) as (_ & _ & _ & Hids). destruct (Hids p Hp) as (_ & _ & Hns).
  destruct (pos_info t' t Hi) as [E1 E2]. rewrite E1, E2 in Hs. rewrite decide_False in Hs by done. rewrite decide_True in Hs by done.
  split; [by apply sm_dom in Hs as [_ ?]|]. by exists t, w0.
Qed.

Lemma ids_ok c t' : 1 ≤ c → cur d0 c = Some t' → type_wf t' → visitable (λ w, is_Some (ty w)) (id_pos t') t'.
Proof.
  intros Hc1 Hc Hwf. destruct (pos_spec t' Hwf) as (_ & _ & Hnd & Hids). split; [done|]. intros p Hp. destruct (Hids p Hp) as (? & ? & _).
  split; [done|]. split; [done|]. intros w Hw. by apply (cur_words c t' p w).
Qed.

Lemma new_bound i : is_Some (ty i) → 0 ≤ f i ≤ Z.of_nat (ncanon m (length (b_types b))).
Proof.
  intros Hi. destruct (canonical_root i Hi) as (r & _ & _ & _ & Vr & -> & _). apply (ty_valid b Hb) in Vr. unfold type_cnt in Vr.
  pose proof (ncanon_mono m (Z.to_nat r) (length (b_types b)) ltac:(lia)). lia.
Qed.

(** ** Compaction and renumbering *)

Lemma remap_id_ok d : dd_map d = m → aref (hy_map (dd_hypot d)) 0 = Some 0 →
  (∀ c, (1 ≤ c ≤ length (b_types b))%nat → canonical_at m c → aref (hy_map (dd_hypot d)) (Z.of_nat c) = Some (Z.of_nat (ncanon m c))) →
  ∀ w, is_Some (ty w) → btf_dedup_remap_type_id d w = Some (d, f w, 0) ∧ word_ok (f w).
Proof.
  intros Hm H0 Hh w Hw. destruct (canonical_root w Hw) as (r & Hr & Cr & _ & Vr & Hf & _). pose proof (new_bound w Hw) as Hbd.
  pose proof (ncanon_le m (length (b_types b))). pose proof (wh_cnt b Hb) as Hcnt. unfold BTF_MAX_NR_TYPES in Hcnt.
  split; [|unfold word_ok, in_u; lia]. unfold btf_dedup_remap_type_id, resolve_type_id. rewrite Hm, Hr. cbn [mbind option_bind].
  apply (ty_valid b Hb) in Vr. unfold type_cnt in Vr.
  assert (aref (hy_map (dd_hypot d)) r = Some (f w)) as ->.
  { destruct (decide (r = 0)) as [->|]; [rewrite H0, Hf; done|]. replace r with (Z.of_nat (Z.to_nat r)) by lia. rewrite Hh; [by rewrite Hf|lia|].
    unfold canonical_at. by rewrite Z2Nat.id by lia. }
  cbn [mbind option_bind]. unfold BTF_MAX_NR_TYPES. destruct (Z.gtb_spec (f w) 0x7fffffff); [lia|done].
Qed.

Lemma out_ok tab : ∃ d, next_pass (btf_dedup_compact_types (dd_with_table d0 tab)) btf_dedup_remap_types = Some (d, 0) ∧ renumbered (dd_btf d).
Proof.
  destruct (rf_btf b E d0 Hd) as (ts0 & Hbtf & Hl0). pose proof map_length as Hml.
  assert (∀ c t', 1 ≤ c → cur d0 c = Some t' → is_Some (ty c) ∧ type_wf t') as Hcur.
  { intros c t' Hc Ht'. assert (is_Some (ty c)) as [t Ht].
    { apply (ty_valid b Hb). unfold type_cnt. rewrite (cur_types ts0 c Hbtf Hc) in Ht'. apply lookup_lt_Some in Ht'. lia. }
    split; [by eexists|]. destruct (rf_types b E d0 Hd c t Ht) as (u & Hu & Hw & _). assert (u = t') as -> by congruence. apply Hw. lia. }
  assert (Forall type_wf ts0) as Hwf0.
  { apply Forall_lookup_2. intros k t Hk. apply (Hcur (1 + Z.of_nat k) t); [lia|]. rewrite (cur_types ts0) by (done || lia). rewrite <- Hk. f_equal. lia. }
  destruct (compact_ok b Hb m ts0 Hl0 ltac:(by rewrite Hl0) Hwf0 (dd_with_table d0 tab) eq_refl Hbtf (rf_alloc b E d0 Hd))
    as (d1 & ts1 & Hcomp & M1 & B1 & L1 & Z1 & N1).
  rewrite Hl0 in L1, N1.
  assert (∀ k t, ts1 !! k = Some t → ∃ c, (1 ≤ c ≤ length (b_types b))%nat ∧ canonical_at m c ∧ ncanon m c = S k ∧ cur d0 (Z.of_nat c) = Some t) as Hts1.
  { intros k t Hk. pose proof (lookup_lt_Some _ _ _ Hk) as Hlt. rewrite L1 in Hlt.
    destruct (ncanon_surj m (length (b_types b)) (S k) ltac:(lia)) as (c & Hc & Hcan & Hnc). exists c. split; [done|]. split; [done|]. split; [done|].
    destruct (N1 c Hc Hcan) as [Hget _]. rewrite (cur_types ts0) by (done || lia). rewrite Hnc in Hget. cbn [Nat.sub] in Hget. rewrite Nat.sub_0_r in Hget.
    rewrite <- Hk, Hget. f_equal. lia. }
  assert (∀ w, is_Some (ty w) → btf_dedup_remap_type_id d1 w = Some (d1, f w, 0) ∧ word_ok (f w)) as Hremap.
  { apply remap_id_ok; [done|done|]. intros c Hc Hcan. by apply N1. }
  destruct (visit_types_ok btf_dedup_remap_type_id (λ _ s, s = d1) eq (λ _ w w', w' = f w) (λ _, 0) (λ w, is_Some (ty w)) ltac:(done) ltac:(by intros)
    ltac:(intros s w bb Hw _ ->; destruct (Hremap w Hw); by exists d1, (f w)) id_pos (visit_type_ids btf_dedup_remap_type_id) ts1) with (s := d1) (b := 0)
    as (d2 & ts2 & Hvis & -> & _ & Hall2).
  { intros s t Ht. apply list_elem_of_lookup in Ht as (k & Hk). destruct (Hts1 k t Hk) as (c & Hc & _ & _ & Hcc). destruct (Hcur (Z.of_nat c) t ltac:(lia) Hcc) as [_ Hw].
    unfold visit_type_ids. rewrite decide_True; [done|by apply wf_kind]. }
  { apply Forall_lookup_2. intros k t Hk. destruct (Hts1 k t Hk) as (c & Hc & _ & _ & Hcc). destruct (Hcur (Z.of_nat c) t ltac:(lia) Hcc) as [_ Hw]. split; [done|].
    by apply (ids_ok (Z.of_nat c)); [lia|..]. }
  { done. }
  { done. }
  exists (dd_with_btf d1 (b_with_types b ts2)). split.
  { unfold next_pass. rewrite Hcomp. cbn [mbind option_bind]. change (negb (0 =? 0)) with false. cbv iota. unfold btf_dedup_remap_types.
    rewrite B1. cbn [b_types b_with_types]. rewrite Hvis. cbn [mbind option_bind]. by rewrite B1. }
  pose proof (Forall2_length _ _ _ Hall2) as L2.
  assert (∀ x, btf_type_by_id (b_with_types b ts2) x = if x =? 0 then Some btf_void else if x <? 1 then None else ts2 !! Z.to_nat (x - 1)) as Hget.
  { intros x. apply with_types_by_id; [apply (wh_base b Hb)|apply (wh_start b Hb)]. }
  assert (∀ c, (1 ≤ c ≤ length (b_types b))%nat → canonical_at m c → ∃ t t' t'', ty (Z.of_nat c) = Some t ∧ cur d0 (Z.of_nat c) = Some t' ∧ shape eq E t t' ∧
    btf_type_by_id (b_with_types b ts2) (Z.of_nat (ncanon m c)) = Some t'' ∧ shape eq (λ w w', w' = f w) t' t'') as Hnew.
  { intros c Hc Hcan. destruct (N1 c Hc Hcan) as [Hg _]. pose proof (ncanon_pos m c ltac:(lia) Hcan) as Hp.
    destruct (lookup_lt_is_Some_2 ts1 (ncanon m c - 1)) as [t' Ht'].
    { rewrite L1. pose proof (ncanon_mono m c (length (b_types b)) ltac:(lia)). lia. }
    assert (cur d0 (Z.of_nat c) = Some t') as Hc'.
    { rewrite (cur_types ts0) by (done || lia). rewrite <- Ht', Hg. f_equal. lia. }
    destruct (Hcur (Z.of_nat c) t' ltac:(lia) Hc') as [[t Ht] Hwt]. destruct (rf_types b E d0 Hd _ t Ht) as (u & Hu & _ & Hsh). assert (u = t') as -> by congruence.
    destruct (Forall2_lookup_l _ _ _ _ _ Hall2 Ht') as (t'' & Ht'' & _ & Hch). exists t, t', t''. split; [done|]. split; [done|]. split; [done|]. split.
    - rewrite Hget. rewrite (proj2 (Z.eqb_neq _ 0)) by lia. destruct (Z.ltb_spec (Z.of_nat (ncanon m c)) 1); [lia|]. rewrite <- Ht''. f_equal. lia.
    - by apply (changed_shape_ids (λ _ w w', w' = f w) d1). }
  assert (f 0 = 0) as Hf0.
  { by rewrite (canonical_new 0 (rf_zero b E d0 Hd)). }
  split; cbn [dd_btf dd_with_btf b_with_types b_base b_start_id b_strs b_start_str_off b_types].
  - apply (wh_base b Hb).
  - apply (wh_start b Hb).
  - done.
  - apply (wh_strs b Hb).
  - rewrite <- L2, L1. apply ncanon_le.
  - apply Forall_lookup_2. intros k t Hk. destruct (Forall2_lookup_r _ _ _ _ _ Hall2 Hk) as (u & _ & ? & _). done.
  - done.
  - intros i Hi. rewrite <- L2, L1. by apply new_bound.
  - intros x Hx. rewrite <- L2, L1 in Hx. destruct (ncanon_surj m (length (b_types b)) (Z.to_nat x) ltac:(lia)) as (c & Hc & Hcan & Hnc).
    destruct (Hnew c Hc Hcan) as (t & t' & t'' & T1 & T2 & _ & T3 & T4). exists (Z.of_nat c), t, t'. split; [lia|]. split; [done|].
    rewrite canonical_new by (done || lia). rewrite Nat2Z.id. split; [lia|]. split; [done|]. split; [done|]. exists t''. split; [|done]. rewrite <- T3. f_equal. lia.
  - intros i Hi. destruct (canonical_root i Hi) as (r & _ & Cr & Er & Vr & Hf & Hdef). pose proof (proj1 (ty_valid b Hb r) Vr) as Hr. unfold type_cnt in Hr.
    destruct (decide (r = 0)) as [->|Hr0].
    + exists 0, btf_void, btf_void. rewrite Hf. cbn [Z.to_nat ncanon]. split; [done|]. split; [done|]. split; [unfold ty; by rewrite (whole_type_by_id b Hb)|].
      split; [by rewrite Hget|]. apply shape_refl; [done|]. intros p w Hp. revert Hp. unfold id_pos. cbn. by intros ?%elem_of_nil.
    + destruct (Hnew (Z.to_nat r)) as (t & t' & t'' & T1 & T2 & T3 & T4 & T5); [lia|unfold canonical_at; by rewrite Z2Nat.id by lia|].
      rewrite Z2Nat.id in T1, T2 by lia. exists r, t, t''. split; [done|]. split; [done|]. split; [done|]. split; [by rewrite Hf|].
      eapply shape_impl; [eapply shape_comp; [exact T3|exact T5]| |].
      * by intros w1 w2 (w & -> & ->).
      * intros p w1 w2 _ _ _ H. exact H.
  - intros i t Hi Hr. destruct (resolve_ok b Hb E d0 i (rf_map b E d0 Hd) ltac:(by eexists)) as (r & k & _ & Hroot & He).
    destruct (canonical_root i ltac:(by eexists)) as (r' & Hr' & Cr & _). fold m in Hroot.
    rewrite (resolve_loop_root m k i r) in Hr' by first [exact Hroot|apply root_bound in Hroot; lia].
    injection Hr' as <-. rewrite (new_leads i r) by (split; [done|by eexists]).
    destruct (rf_types b E d0 Hd i t Hi) as (t' & Ht' & _). pose proof (exact_root k i r t t' Hroot Hi Hr Ht') as Hcr.
    assert (r ≠ 0) as Hr0.
    { intros ->. destruct (rf_types b E d0 Hd i t Hi) as (u & Hu & _ & Su). assert (u = t') as -> by congruence.
      destruct (rf_types b E d0 Hd 0 btf_void) as (u & Hu' & _ & S0); [unfold ty; by rewrite (whole_type_by_id b Hb)|]. assert (u = t') as -> by congruence.
      assert (bt_info t = bt_info btf_void) as Hinfo by (by rewrite (proj1 Su), (proj1 S0)).
      unfold ref_type in Hr. rewrite (info_ref_ops t btf_void Hinfo) in Hr. by destruct Hr. }
    pose proof (proj1 (ty_valid b Hb r) (proj2 (sm_dom i r He))) as Hrr. unfold type_cnt in Hrr.
    destruct (Hnew (Z.to_nat r)) as (_ & u & t'' & _ & T2 & _ & T4 & T5); [lia|unfold canonical_at; by rewrite Z2Nat.id by lia|].
    rewrite Z2Nat.id in T2 by lia. assert (u = t') as -> by congruence. rewrite (canonical_new r Cr) by lia. exists t''. split; [done|].
    eapply shape_impl; [eapply shape_comp; [exact (exact_words i t t' Hi Hr Ht')|exact T5]| |].
    + by intros w1 w2 (w & -> & ->).
    + intros p w1 w2 _ _ _ (w & Hw & ->). symmetry. by apply new_leads.
Qed.

(** ** No two types of the result are equal, but for structs and variables *)

Lemma shape_equal t1 t2 : shape eq eq t1 t2 → t1 = t2.
Proof.
  intros (Hi & Hl & Hw). assert (type_words t1 = type_words t2) as He.
  { apply list_eq_same_length with (n := length (type_words t1)); [cbn [type_words length]; lia|done|]. intros p w1 w2 _ H1 H2. specialize (Hw p w1 w2 H1 H2).
    destruct (decide (p ∈ str_pos t1)); [done|]. by destruct (decide (p ∈ id_pos t1)). }
  destruct t1, t2. cbn in He. by simplify_eq.
Qed.

(** Forward declarations have no type, as the format says. *)
Definition fwd_untyped : Prop := ∀ i t, ty i = Some t → btf_is_fwd t = true → bt_type t = 0.

Lemma prim_ids t : prim_kind (btf_kind t) = true → id_pos t = [] ∨ btf_is_fwd t = true ∧ id_pos t = [2%nat].
Proof.
  unfold prim_kind, btf_is_fwd. rewrite !orb_true_iff, !Z.eqb_eq. intros [[[[K|K]|K]|K]|K]; unfold id_pos; cbv zeta; rewrite K; [by left..|by right|by left].
Qed.

Lemma info_var t1 t2 : bt_info t1 = bt_info t2 → var_like t1 = var_like t2.
Proof. intros E'. unfold var_like, btf_is_var, btf_is_datasec. by rewrite (info_kind _ _ E'). Qed.

(** Words of such types are canonical already. *)
Lemma cur_canonical c t t' p w : fwd_untyped → 1 ≤ c → aref m c = Some c → ty c = Some t → cur d0 c = Some t' → btf_is_composite t' = false → var_like t' = false →
  p ∈ id_pos t' → type_words t' !! p = Some w → aref m w = Some w.
Proof.
  intros Hfwd Hc Hcc Ht Ht' Hcomp Hvar Hp Hw. destruct (rf_types b E d0 Hd c t Ht) as (u & Hu & Hwf & Hi & _). assert (u = t') as -> by congruence.
  specialize (Hwf ltac:(lia)). destruct (prim_kind (btf_kind t')) eqn:Hk.
  { destruct (prim_ids t' Hk) as [H|[Hf H]]; rewrite H in Hp; [by apply elem_of_nil in Hp|apply list_elem_of_singleton in Hp as ->].
    assert (cur d0 c = Some t) as Hct. { apply (rf_keep b E d0 Hd c t Ht). apply prim_not_ref. by rewrite (info_kind t t' Hi). }
    assert (t' = t) as -> by congruence. cbn in Hw. apply (inj Some) in Hw. rewrite <- Hw. change (bt_size t) with (bt_type t). rewrite (Hfwd c t Ht Hf).
    apply (rf_zero b E d0 Hd). }
  destruct (left_kinds t' Hwf Hk Hcomp Hvar) as [ops Hops]. destruct (pos_info t' t Hi) as [_ E2]. rewrite <- E2 in Hp.
  apply (rf_done b E d0 Hd c t t' p w Ht); [|exists c; split; [done|]|done..].
  - unfold ref_type. rewrite (info_ref_ops t t' Hi). by eexists.
  - apply (valid_mapped b Hb). by eexists.
Qed.

(** A definition that is no struct, variable or section refers to others by ids only, or
    to none. *)
Lemma direct_cases i t : ty i = Some t → forward t = false → btf_is_composite t = false → var_like t = false → ref_type t ∨ id_pos t = [].
Proof.
  intros Hi Hf Hcomp Hvar. destruct (ty_cases b Hb i t Hi) as [[_ ->]|(_ & Hw & _)]; [by right|].
  destruct (prim_kind (btf_kind t)) eqn:Hk; [|left; by apply left_kinds].
  destruct (prim_ids t Hk) as [H|[Hfwd _]]; [by right|]. unfold forward in Hf. by rewrite Hfwd in Hf.
Qed.

Lemma distinct_ok b' x y t : fwd_untyped → renumbered b' → 1 ≤ x ≤ Z.of_nat (length (b_types b')) → 1 ≤ y ≤ Z.of_nat (length (b_types b')) →
  btf_type_by_id b' x = Some t → btf_type_by_id b' y = Some t → btf_is_composite t = false → var_like t = false → x = y.
Proof.
  intros Hfwd Hr Hx Hy Tx Ty Hcomp Hvar. destruct (rn_onto b' Hr x Hx) as (c & tc & tc' & Hc & Cc & Fc & T1 & T1' & u & Hu & S1).
  destruct (rn_onto b' Hr y Hy) as (e & te & te' & He & Ce & Fe & T2 & T2' & v & Hv & S2).
  assert (u = t) as -> by congruence. assert (v = t) as -> by congruence. clear Hu Hv.
  assert (bt_info tc' = bt_info t ∧ bt_info te' = bt_info t) as [I1 I2] by (split; [apply S1|apply S2]).
  assert (∀ t', bt_info t' = bt_info t → btf_is_composite t' = false ∧ var_like t' = false) as Hk.
  { intros t' Hi. by rewrite (composite_info _ _ Hi), (info_var _ _ Hi). }
  destruct (Hk tc' I1) as [K1 V1]. destruct (Hk te' I2) as [K2 V2].
  assert (tc' = te') as <-.
  { apply shape_equal. eapply shape_impl; [eapply shape_comp; [exact S1|apply shape_sym; exact S2]| |].
    - intros w1 w2 (w & -> & Hw). by symmetry.
    - intros p w1 w2 Hp W1 W2 (w & -> & Hw). unfold flip in Hw.
      pose proof (cur_canonical c tc tc' p w1 Hfwd Hc Cc T1 T1' K1 V1 Hp W1) as Cw1.
      assert (p ∈ id_pos te') as Hp' by (destruct (pos_info te' tc' ltac:(congruence)) as [_ <-]; done).
      pose proof (cur_canonical e te te' p w2 Hfwd He Ce T2 T2' K2 V2 Hp' W2) as Cw2.
      pose proof (proj1 (aref_Some m w1 w1) Cw1) as [P1 _]. pose proof (proj1 (aref_Some m w2 w2) Cw2) as [P2 _].
      rewrite (canonical_new w1 Cw1 P1), (canonical_new w2 Cw2 P2) in Hw.
      assert (Z.to_nat w1 = Z.to_nat w2) as E'; [|lia]. apply (ncanon_inj m); unfold canonical_at; rewrite ?Z2Nat.id by lia; [done|done|lia]. }
  destruct (rf_types b E d0 Hd c tc T1) as (u & Hu & _ & J1 & _). assert (u = tc') as -> by congruence.
  destruct (rf_types b E d0 Hd e te T2) as (v & Hv & _ & J2 & _). assert (v = tc') as -> by congruence.
  assert (var_like tc = false ∧ var_like te = false) as [V3 V4] by (split; by rewrite ?(info_var _ _ J1), ?(info_var _ _ J2)).
  pose proof (rf_filed b E d0 Hd c tc T1 ltac:(lia) V3 Cc) as F1. pose proof (rf_filed b E d0 Hd e te T2 ltac:(lia) V4 Ce) as F2.
  apply list_elem_of_fmap in F1 as ([k1 c1] & -> & F1). apply list_elem_of_fmap in F2 as ([k2 c2] & -> & F2). cbn [snd] in *.
  assert (c1 = c2) as -> by exact (tk_distinct b d0 (rf_table b E d0 Hd) k1 k2 c1 c2 tc' F1 F2 T1' T2' K1). congruence.
Qed.
End out.
