(* ===== verification/BtfDedupStrs.v ===== *)
(** The strings in the deduplication of BTF (BtfDedup.v): every name becomes the offset of
    its first occurrence in the new string section, so that equal names have equal
    offsets, and nothing else of the types changes. *)
From stdpp Require Import base list sets.
From Stdlib Require Import ZArith Lia.
From S2P Require Import Prelude Bytes Mem Errno Hashmap Strset Btf BtfRaw BtfFile BtfMerge BtfDump BtfDedup BtfSame BtfDedupGraph BtfDedupRef BtfDedupVisit.

#[local] Open Scope Z_scope.

Lemma cstr_nonul l : nonul (cstr l).
Proof. induction l as [|c l IH]; cbn; [constructor|]. destruct (Z.eqb_spec c 0); [constructor|by constructor]. Qed.

Lemma strs_bytes_inj ss : ∀ ss', Forall nonul ss → Forall nonul ss' → strs_bytes ss = strs_bytes ss' → ss = ss'.
Proof.
  assert (∀ s s' r r', nonul s → nonul s' → (s ++ [0]) ++ r = (s' ++ [0]) ++ r' → s = s' ∧ r = r') as Hcut.
  { intros s s' r r' Hs Hs' He. rewrite <- !app_assoc in He. cbn [app] in He. assert (s = s') as <-.
    { rewrite <- (cstr_app s r Hs), <- (cstr_app s' r' Hs'). by rewrite He. }
    split; [done|]. apply app_inv_head in He. congruence. }
  induction ss as [|s ss IH]; intros [|s' ss'] H1 H2 He; [done| | |].
  - symmetry in He. by destruct s'.
  - by destruct s.
  - apply Forall_cons in H1 as [Hs H1], H2 as [Hs' H2]. cbn [strs_bytes flat_map] in He. fold (strs_bytes ss) in He. fold (strs_bytes ss') in He.
    destruct (Hcut _ _ _ _ Hs Hs' He) as [-> He']. f_equal. by apply IH.
Qed.

(** A set holds one sequence of strings. *)
Lemma strset_rel_det set ss ss' : strset_rel set ss → strset_rel set ss' → ss = ss'.
Proof.
  intros [N1 _ L1 [j1 D1] _ _] [N2 _ L2 [j2 D2] _ _]. apply strs_bytes_inj; [done|done|].
  assert (length (strs_bytes ss) = length (strs_bytes ss')) as Hl by lia.
  rewrite D1 in D2. apply app_inj_1 in D2 as [? _]; done.
Qed.

Lemma str_off_prefix ss ss' s o : ss `prefix_of` ss' → str_off ss s = Some o → str_off ss' s = Some o.
Proof.
  intros [more ->]. revert o. induction ss as [|s' ss IH]; intros o; cbn; [done|]. destruct (decide (s' = s)); [done|].
  destruct (str_off ss s) as [o'|]; [|done]. by rewrite (IH o' eq_refl).
Qed.

(** * The step for a word *)

Definition strs_state : Type := strset * list bool.

(** The set has room for [n] more bytes; the empty string is the first. *)
Definition strs_inv (n : Z) (s : strs_state) : Prop :=
  s.2 = [] ∧ strs_data_max_len s.1 = BTF_MAX_STR_OFFSET ∧ strs_data_len s.1 + n ≤ BTF_MAX_STR_OFFSET ∧
  ∃ ss, strset_rel s.1 ss ∧ head ss = Some [].

Definition strs_le (s s' : strs_state) : Prop := ∀ ss, strset_rel s.1 ss → ∃ ss', strset_rel s'.1 ss' ∧ ss `prefix_of` ss'.

#[export] Instance strs_le_preorder : PreOrder strs_le.
Proof.
  split.
  - intros s ss Hs. by exists ss.
  - intros s1 s2 s3 H1 H2 ss Hs. destruct (H1 ss Hs) as (ss' & Hs' & P1). destruct (H2 ss' Hs') as (ss'' & Hs'' & P2). exists ss''. split; [done|]. by etrans.
Qed.

Definition str_cost (strs : list Z) (w : Z) : Z := if w =? 0 then 0 else Z.of_nat (length (cstr_at strs w)) + 1.

(** The name at [w] is at its first occurrence in [ss]. *)
Definition interned (b : btf) (ss : list (list Z)) (w w' : Z) : Prop := ∃ s, btf__str_by_offset b w = Some s ∧ str_off ss s = Some w'.

(** The new word is the offset of the string. *)
Definition str_new (b : btf) (s : strs_state) (w w' : Z) : Prop := ∃ ss, strset_rel s.1 ss ∧ interned b ss w w'.

Lemma str_new_mono b s s' w w' : str_new b s w w' → strs_le s s' → str_new b s' w w'.
Proof.
  intros (ss & Hs & t & Ht & Ho) Hle. destruct (Hle ss Hs) as (ss' & Hs' & Hp). exists ss'. split; [done|]. exists t. split; [done|].
  by eapply str_off_prefix.
Qed.

Lemma str_by_offset b w : whole b → 0 ≤ w < Z.of_nat (length (b_strs b)) → btf__str_by_offset b w = Some (cstr_at (b_strs b) w).
Proof.
  intros Hb Hw. pose proof (wh_strs b Hb) as H0. destruct b as [ts st so strs base ptr]. cbn in *. subst so. destruct (Z.ltb_spec w 0); [lia|]. rewrite Z.sub_0_r.
  destruct (Z.ltb_spec w (Z.of_nat (length strs))); [done|lia].
Qed.

Section strs.
Context (b : btf) (Hb : whole b) (Hstrs : strs_ok false (b_strs b)).

Lemma first_empty ss : head ss = Some [] → interned b ss 0 0.
Proof.
  intros Hhead. destruct Hstrs as [[? _]|(Hne & _ & _ & Hfirst)]; [done|]. specialize (Hfirst eq_refl). exists []. split.
  - destruct (b_strs b) as [|c strs] eqn:Es; [done|]. rewrite (str_by_offset b 0 Hb) by (rewrite Es; cbn [length]; lia). rewrite Es.
    cbn in Hfirst. by injection Hfirst as ->.
  - destruct ss as [|s0 ss]; [done|]. cbn in Hhead. by injection Hhead as ->.
Qed.

Lemma remap_str_ok s w n : word_ok w ∧ w < Z.of_nat (length (b_strs b)) → 0 ≤ n → strs_inv (str_cost (b_strs b) w + n) s →
  ∃ s' w', strs_dedup_remap_str_off b s w = Some (s', w', 0) ∧ strs_inv n s' ∧ strs_le s s' ∧ word_ok w' ∧ str_new b s' w w'.
Proof.
  intros [Hw Hlt] Hn (Hal & Hmax & Hroom & ss & Hss & Hhead). destruct s as [set al]. cbn [fst snd] in *. subst al.
  destruct Hstrs as [[? _]|(Hne & Hlen & _ & Hfirst)]; [done|]. specialize (Hfirst eq_refl).
  unfold strs_dedup_remap_str_off, str_cost in *. rewrite (wh_strs b Hb). revert Hroom. destruct (Z.eqb_spec w 0) as [->|Hw0]; intros Hroom; cbn [orb].
  - exists (set, []), 0. split; [done|]. split; [split_and!; [done|done|cbn; lia|by exists ss]|]. split; [done|]. split; [done|].
    exists ss. split; [done|]. by apply first_empty.
  - unfold word_ok, in_u in Hw. destruct (Z.ltb_spec w 0); [lia|].
    rewrite (str_by_offset b w Hb) by lia.
    cbn [mbind option_bind]. rewrite (wh_base b Hb). cbn [mbind option_bind]. change (- ENOENT >=? 0) with false. change (negb (- ENOENT =? - ENOENT)) with false. cbv iota. cbn [pop_alloc].
    set (t := cstr_at (b_strs b) w) in *. destruct (add_str_rel set ss t Hss (cstr_nonul _)) as (set' & -> & Hrel & Hmax' & Hlen'); [lia|].
    cbn [mbind option_bind]. set (off := default (strs_data_len set) (str_off ss t)).
    assert (0 ≤ off < 2 ^ 31 ∧ str_off (if decide (t ∈ ss) then ss else ss ++ [t]) t = Some off) as [Hoff Hin].
    { unfold off. destruct (str_off ss t) as [o|] eqn:Ho; cbn [default from_option id].
      - pose proof (str_off_bound ss t o Ho). destruct (strset_rel_small set ss Hss) as [_ ?]. rewrite decide_True; [split; [lia|done]|].
        destruct (decide (t ∈ ss)) as [|Hno]; [done|]. apply str_off_None in Hno. congruence.
      - rewrite decide_False by (by apply str_off_None). rewrite str_off_snoc, Ho, decide_True by done. rewrite (sr_len _ _ Hss).
        destruct (strset_rel_small set ss Hss) as [_ ?]. split; [lia|done]. }
    destruct (Z.ltb_spec off 0); [lia|]. rewrite Z.add_0_l, (wrap_small 32) by (unfold in_u; lia).
    exists (set', []), off. split; [done|]. split; [split_and!; [done|cbn; congruence|cbn; lia|]|].
    { eexists. split; [exact Hrel|]. destruct (decide (t ∈ ss)); [done|]. by destruct ss. }
    split; [|split; [unfold word_ok, in_u; lia|eexists; split; [exact Hrel|]; exists t; split; [apply (str_by_offset b w Hb); lia|done]]]. intros ss2 Hss2. assert (ss2 = ss) as -> by by eapply strset_rel_det.
    eexists. split; [exact Hrel|]. destruct (decide (t ∈ ss)); [done|]. by exists [t].
Qed.

(** * The pass *)

(** Names are offsets of the string section, and there is room for all of them. *)
Record names_fit : Prop := {
  nm_names : ∀ t p w, t ∈ b_types b → p ∈ str_pos t → type_words t !! p = Some w → w < Z.of_nat (length (b_strs b));
  nm_room : 1 + total_cost (str_cost (b_strs b)) str_pos (b_types b) ≤ BTF_MAX_STR_OFFSET;
}.

Lemma str_cost_nonneg strs w : 0 ≤ str_cost strs w.
Proof. unfold str_cost. destruct (w =? 0); lia. Qed.

Context (Hn : names_fit).

(** The object with the new strings. *)
Record rewritten (b1 : btf) (ss : list (list Z)) : Prop := {
  rw_whole : whole b1; rw_nonul : Forall nonul ss; rw_strs : b_strs b1 = strs_bytes ss;
  rw_len : length (b_types b1) = length (b_types b);
  rw_types : ∀ i t, btf_type_by_id b i = Some t → ∃ t1, btf_type_by_id b1 i = Some t1 ∧ shape (interned b ss) eq t t1;
}.

Lemma empty_set_ok : ∃ set, strset__add_str (true, true, true) (mkStrset [] 0 0 BTF_MAX_STR_OFFSET hashmap__init) [] = Some (set, 0) ∧
  strset_rel set [[]] ∧ strs_data_max_len set = BTF_MAX_STR_OFFSET ∧ strs_data_len set ≤ 1.
Proof.
  destruct (add_str_rel (mkStrset [] 0 0 BTF_MAX_STR_OFFSET hashmap__init) [] []) as (set & Hadd & Hrel & Hmax & Hlen).
  - apply strset_empty_rel. unfold BTF_MAX_STR_OFFSET, INT_MAX. lia.
  - constructor.
  - unfold BTF_MAX_STR_OFFSET. cbn. lia.
  - exists set. split; [exact Hadd|]. rewrite decide_False in Hrel by (by apply not_elem_of_nil). split; [exact Hrel|]. split; [done|]. cbn in Hlen. lia.
Qed.

Lemma visitable_strs t : t ∈ b_types b → type_wf t → visitable (λ w, word_ok w ∧ w < Z.of_nat (length (b_strs b))) (str_pos t) t.
Proof.
  intros Ht Hwf. destruct (pos_spec t Hwf) as (Hnd & Hps & _). split; [done|]. intros p Hp. destruct (Hps p Hp) as [? ?].
  split; [done|]. split; [done|]. intros w Hw. split; [|by apply (nm_names Hn t p)]. destruct Hwf as [Hok _]. eapply Forall_lookup_1; [exact Hok|exact Hw].
Qed.

Lemma strings_ok d : dd_btf d = b → dd_alloc d = [] → ∃ b1 ss, rewritten b1 ss ∧
  btf_dedup_strings false d = Some (mkDedup b1 (dd_hash_fn d) (dd_table d) (dd_map d) (dd_hypot d) [], 0).
Proof.
  intros Hbtf Hal. unfold btf_dedup_strings. rewrite Hal, Hbtf. cbn [pop_alloc strset__new hashmap__new negb mbind option_bind].
  rewrite (wh_base b Hb). destruct empty_set_ok as (set0 & Hadd & Hrel0 & Hmax0 & Hlen0). rewrite Hadd. cbn [mbind option_bind].
  change (0 <? 0) with false. change (negb (0 =? 0)) with false. cbv iota.
  destruct (visit_types_ok (strs_dedup_remap_str_off b) strs_inv strs_le (str_new b) (str_cost (b_strs b))
    (λ w, word_ok w ∧ w < Z.of_nat (length (b_strs b))) (str_cost_nonneg _) (str_new_mono _) remap_str_ok str_pos
    (visit_str_offs (strs_dedup_remap_str_off b)) (b_types b)) with (s := (set0, [] : list bool)) (b := 0) as ([set al] & ts1 & -> & Hinv & Hle & Hall).
  - done.
  - apply Forall_forall. intros t Ht. pose proof (proj1 (Forall_forall _ _) (wh_types b Hb) t Ht) as Hwf. split; [done|]. by apply visitable_strs.
  - done.
  - split; [done|]. split; [done|]. cbn. split; [pose proof (nm_room Hn); lia|]. by exists [[]].
  - cbn [mbind option_bind]. change (negb (0 =? 0)) with false. cbv iota.
    destruct Hinv as (Hal' & _ & _ & ss & Hss & Hhead). cbn [fst snd] in *. subst al.
    assert (take (Z.to_nat (strset__data_size set)) (strset__data set) = strs_bytes ss) as ->.
    { destruct Hss as [_ _ Hl [junk Hj] _ _]. unfold strset__data_size, strset__data. rewrite Hl, Hj, Nat2Z.id. by apply take_app_length. }
    pose proof (Forall2_length _ _ _ Hall) as Hlen.
    assert (∀ i t, btf_type_by_id b i = Some t → ∃ t1, btf_type_by_id (b_with_types b ts1) i = Some t1 ∧ shape (interned b ss) eq t t1 ∧ (i ≠ 0 → type_wf t1)) as Htypes.
    { intros i t Hi. rewrite with_types_by_id; [|apply (wh_base b Hb)|apply (wh_start b Hb)]. rewrite (whole_type_by_id b Hb) in Hi.
      destruct (Z.eqb_spec i 0) as [->|H0].
      - injection Hi as <-. exists btf_void. split; [done|]. split; [|done]. split; [done|]. split; [done|]. intros p w1 w2 H1 H2. rewrite H1 in H2.
        injection H2 as <-. destruct (decide (p ∈ str_pos btf_void)) as [Hp|]; [|by destruct (decide (p ∈ id_pos btf_void))].
        assert (w1 = 0) as -> by (destruct p as [|[|[|p]]]; [by injection H1 as <-..|by destruct p]). by apply first_empty.
      - destruct (Z.ltb_spec i 1); [done|]. destruct (Forall2_lookup_l _ _ _ _ _ Hall Hi) as (t1 & Ht1 & Hwf1 & Hch). exists t1. split; [done|]. split; [|done].
        apply changed_shape_strs in Hch. eapply shape_impl; [exact Hch| |done]. intros w1 w2 (ss' & Hss' & Ho).
        by rewrite (strset_rel_det set ss' ss Hss' Hss) in Ho. }
    exists (b_with_strs (b_with_types b ts1) (strs_bytes ss)), ss. split; [|done].
    assert (∀ i, btf_type_by_id (b_with_strs (b_with_types b ts1) (strs_bytes ss)) i = btf_type_by_id (b_with_types b ts1) i) as Hsame by done.
    split; [|apply (sr_nonul _ _ Hss)|done|by cbn; rewrite <- Hlen|intros i t Hi; rewrite Hsame; destruct (Htypes i t Hi) as (t1 & ? & ? & _); by exists t1].
    split; cbn [b_base b_start_id b_start_str_off b_types b_with_strs b_with_types].
    + apply (wh_base b Hb).
    + apply (wh_start b Hb).
    + apply (wh_strs b Hb).
    + rewrite <- Hlen. apply (wh_cnt b Hb).
    + apply Forall_lookup_2. intros k t1 Hk. by destruct (Forall2_lookup_r _ _ _ _ _ Hall Hk) as (t & _ & ? & _).
    + intros i t1 p w Hi Hp Hw. rewrite Hsame in Hi |- *. assert (is_Some (btf_type_by_id b i)) as [t Ht].
      { apply (ty_valid b Hb). rewrite with_types_by_id in Hi; [|apply (wh_base b Hb)|apply (wh_start b Hb)]. unfold type_cnt.
        destruct (Z.eqb_spec i 0) as [->|]; [lia|]. destruct (Z.ltb_spec i 1); [done|]. apply lookup_lt_Some in Hi. lia. }
      destruct (Htypes i t Ht) as (u & Hu & (Hinfo & Hl & Hs) & Hwf1). assert (u = t1) as -> by congruence.
      destruct (same_length_lookup t1 t p w (eq_sym Hl) Hw) as [w0 Hw0]. specialize (Hs p w0 w Hw0 Hw). destruct (pos_info t t1 (eq_sym Hinfo)) as [E1 E2].
      rewrite E2 in Hp. assert (w0 = w) as <-.
      { destruct (decide (i = 0)) as [->|H0].
        { exfalso. rewrite (whole_type_by_id b Hb) in Ht. cbn in Ht. injection Ht as <-. revert Hp. unfold id_pos. cbn. by intros ?%elem_of_nil. }
        rewrite decide_False in Hs.
        - by destruct (decide (p ∈ id_pos t)).
        - destruct (pos_spec t1 (Hwf1 H0)) as (_ & _ & _ & Hids). rewrite <- E1. apply (Hids p). by rewrite E2. }
      destruct (wh_closed b Hb i t p w0 Ht Hp Hw0) as [v Hv]. destruct (Htypes w0 v Hv) as (v1 & Hv1 & _). by exists v1.
Qed.
End strs.
