(* ===== verification/BtfDedupOk.v ===== *)
(** [btf__dedup] (BtfDedup.v) as a whole: it ends; when it reports success, every definition
    becomes one that agrees with it in all but the ids, which stand for the same types; no
    two types of the result are equal, but for structs, unions, variables and sections. *)
From stdpp Require Import base list sets strings.
From Stdlib Require Import ZArith Lia.
From S2P Require Import Prelude Bytes Mem Errno Hashmap Strset Btf BtfRaw BtfFile BtfMerge BtfDump BtfDedup BtfSame BtfDedupEq BtfDedupGraph BtfDedupPass BtfDedupStruct BtfDedupRef BtfDedupVisit BtfDedupOut BtfDedupStrs.

#[local] Open Scope Z_scope.

(** * The passes after the strings *)

Definition graph_passes (d : btf_dedup) : option (btf_dedup * Z) :=
  next_pass (next_pass (next_pass (next_pass (btf_dedup_prim_types d) btf_dedup_struct_types) btf_dedup_ref_types)
    btf_dedup_compact_types) btf_dedup_remap_types.

Lemma next_pass_assoc r f g : next_pass (next_pass r f) g = next_pass r (λ d, next_pass (f d) g).
Proof.
  unfold next_pass. destruct r as [[d e]|]; cbn [mbind option_bind]; [|done]. destruct (negb (e =? 0)) eqn:He; cbn [mbind option_bind]; [by rewrite He|done].
Qed.

(** What is known when all have succeeded. *)
Definition deduped (b : btf) (E : Z → Z → Prop) (b' : btf) : Prop :=
  ∃ d0, ref_ok b E d0 ∧ (∀ i, is_Some (btf_type_by_id b i) → mapped_in (dd_map d0) i) ∧ renumbered b E d0 b'.

Lemma graph_passes_ok b E `{!Sameness (btf_type_by_id b) E} opts : whole b → ∃ d d' e, btf_dedup_new b opts [] = Some (inl d) ∧
  graph_passes d = Some (d', e) ∧ dd_btf d = b ∧
  (e = 0 ∧ deduped b E (dd_btf d') ∨ e = - EINVAL ∧ ¬ plain_refs b ∨ e = - ELOOP ∧ ∀ rank, ¬ ranks b rank).
Proof.
  intros Hb. destruct (search_ok b Hb E opts) as (d & d1 & d2 & e & Hnew & H1 & H2 & Hbtf & H).
  exists d. unfold graph_passes. rewrite !next_pass_assoc. unfold next_pass at 1. rewrite H1. cbn [mbind option_bind]. change (negb (0 =? 0)) with false. cbv iota.
  unfold next_pass at 1. rewrite H2. cbn [mbind option_bind]. destruct H as [[-> Hs]|[-> Hp]].
  - change (negb (0 =? 0)) with false. cbv iota. destruct (ref_types_ok b Hb E d2 (searched_inv b Hb E d2 Hs)) as (d3 & e & Hr & H).
    unfold next_pass at 1. rewrite Hr. cbn [mbind option_bind]. destruct H as [[-> (d0 & -> & Hd0 & Hall)]|[-> Hl]].
    + change (negb (0 =? 0)) with false. cbv iota. destruct (out_ok b Hb E d0 Hd0 Hall (hashmap__clear (dd_table d0))) as (d4 & Ho & Hr4).
      exists d4, 0. split; [done|]. split; [exact Ho|]. split; [done|]. left. split; [done|]. by exists d0.
    + exists d3, (- ELOOP). split; [done|]. split; [done|]. split; [done|]. right. by right.
  - exists d2, (- EINVAL). split; [done|]. split; [done|]. split; [done|]. right. by left.
Qed.

(** The state at the beginning does not depend on the names. *)
Lemma initial_map_same b b1 : whole b → whole b1 → length (b_types b1) = length (b_types b) →
  (∀ i t, btf_type_by_id b i = Some t → ∃ t1, btf_type_by_id b1 i = Some t1 ∧ bt_info t = bt_info t1) → initial_map b1 = initial_map b.
Proof.
  intros Hb Hb1 Hl Ht. destruct (initial_map_spec b Hb) as (m & -> & Hlm & H0 & Hm). destruct (initial_map_spec b1 Hb1) as (m1 & -> & Hlm1 & H01 & Hm1).
  f_equal. unfold type_cnt in *. apply list_eq_same_length with (n := length m); [done|lia|]. intros k x y Hk Hx Hy.
  assert (aref m1 (Z.of_nat k) = Some x) as Ax by (apply aref_Some; rewrite Nat2Z.id; split; [lia|done]).
  assert (aref m (Z.of_nat k) = Some y) as Ay by (apply aref_Some; rewrite Nat2Z.id; split; [lia|done]).
  destruct (decide (Z.of_nat k = 0)) as [Ek|Hk0]; [rewrite Ek in Ax, Ay; congruence|].
  destruct (proj2 (ty_valid b Hb (Z.of_nat k)) ltac:(unfold type_cnt; lia)) as [t Hkt]. destruct (Ht _ t Hkt) as (t1 & Hkt1 & Hi).
  rewrite (Hm _ t Hkt Hk0) in Ay. rewrite (Hm1 _ t1 Hkt1 Hk0) in Ax. apply (inj Some) in Ax, Ay. rewrite <- Ax, <- Ay. by rewrite (info_var t t1 Hi).
Qed.

Lemma new_same_state b b1 opts d : whole b → whole b1 → length (b_types b1) = length (b_types b) →
  (∀ i t, btf_type_by_id b i = Some t → ∃ t1, btf_type_by_id b1 i = Some t1 ∧ bt_info t = bt_info t1) →
  btf_dedup_new b opts [] = Some (inl d) →
  dd_btf d = b ∧ dd_alloc d = [] ∧ btf_dedup_new b1 opts [] = Some (inl (mkDedup b1 (dd_hash_fn d) (dd_table d) (dd_map d) (dd_hypot d) [])).
Proof.
  intros Hb Hb1 Hl Ht. unfold btf_dedup_new. cbn [pop_alloc hashmap__new negb]. rewrite (initial_map_same b b1 Hb Hb1 Hl Ht).
  destruct (initial_map b) as [m|]; cbn [mbind option_bind]; [|done]. intros [= <-]. split; [done|]. split; [done|].
  cbn [dd_hash_fn dd_table dd_map dd_hypot]. rewrite (whole_cnt b Hb), (whole_cnt b1 Hb1). unfold type_cnt. by rewrite Hl.
Qed.

(** * Objects that differ in their names only *)

Record relabeled (b b1 : btf) (I : Z → Z → Prop) : Prop := {
  rl_whole : whole b; rl_whole1 : whole b1; rl_len : length (b_types b1) = length (b_types b);
  rl_types : ∀ i t, btf_type_by_id b i = Some t → ∃ t1, btf_type_by_id b1 i = Some t1 ∧ shape I eq t t1;
}.

Section relabeled.
Context (b b1 : btf) (I : Z → Z → Prop) (Hr : relabeled b b1 I).
Abbreviation ty := (btf_type_by_id b).
Abbreviation ty1 := (btf_type_by_id b1).

Lemma relabeled_inv i t1 : ty1 i = Some t1 → ∃ t, ty i = Some t ∧ shape I eq t t1.
Proof.
  intros H1. assert (is_Some (ty i)) as [t Ht].
  { apply (ty_valid b (rl_whole _ _ _ Hr)). assert (is_Some (ty1 i)) as Hv by by eexists. apply (ty_valid b1 (rl_whole1 _ _ _ Hr)) in Hv.
    unfold type_cnt in *. by rewrite <- (rl_len _ _ _ Hr). }
  destruct (rl_types _ _ _ Hr i t Ht) as (u & Hu & Hs). exists t. split; [done|]. congruence.
Qed.

(** Ids are the same. *)
Lemma relabeled_word i t t1 p w : ty i = Some t → shape I eq t t1 → p ∈ id_pos t → type_words t !! p = Some w ↔ type_words t1 !! p = Some w.
Proof.
  intros Ht (Hi & Hl & Hs) Hp.
  assert (p ∉ str_pos t) as Hn.
  { destruct (ty_cases b (rl_whole _ _ _ Hr) i t Ht) as [[_ ->]|(_ & Hw & _)]; [by unfold id_pos in Hp; cbn in Hp; apply elem_of_nil in Hp|].
    destruct (pos_spec t Hw) as (_ & _ & _ & Hids). by apply (Hids p). }
  assert (∀ w w', type_words t !! p = Some w → type_words t1 !! p = Some w' → w = w') as Heq.
  { intros u u' H1 H2. specialize (Hs p u u' H1 H2). rewrite decide_False in Hs by done. by rewrite decide_True in Hs. }
  split; intros Hw.
  - destruct (same_length_lookup t t1 p w Hl Hw) as [w' Hw']. by rewrite (Heq w w' Hw Hw').
  - destruct (same_length_lookup t1 t p w (eq_sym Hl) Hw) as [w' Hw']. by rewrite <- (Heq w' w Hw' Hw).
Qed.

Lemma relabeled_plain_id i : plain_id b i ↔ plain_id b1 i.
Proof.
  split; intros H t Ht.
  - destruct (relabeled_inv i t Ht) as (u & Hu & Hs). rewrite <- (info_kind u t (proj1 Hs)). by apply H.
  - destruct (rl_types _ _ _ Hr i t Ht) as (u & Hu & Hs). rewrite (info_kind t u (proj1 Hs)). by apply H.
Qed.

Lemma relabeled_plain : plain_refs b → plain_refs b1.
Proof.
  intros H i t1 p w Ht1 Hpl Hp Hw. destruct (relabeled_inv i t1 Ht1) as (t & Ht & Hs). destruct (pos_info t t1 (eq_sym (proj1 Hs))) as [_ E2]. rewrite E2 in Hp.
  apply relabeled_plain_id. apply (H i t p w Ht); [by apply relabeled_plain_id|done|]. by apply (relabeled_word i t t1 p w).
Qed.

Lemma relabeled_ref t t1 : shape I eq t t1 → ref_type t ↔ ref_type t1.
Proof. intros [Hi _]. unfold ref_type. by rewrite (info_ref_ops t t1 Hi). Qed.

Lemma relabeled_ranks rank : ranks b rank → ranks b1 rank.
Proof.
  intros H i t1 p w t1' Ht1 Hrt Hp Hw Ht1' Hrt'. destruct (relabeled_inv i t1 Ht1) as (t & Ht & Hs). destruct (relabeled_inv w t1' Ht1') as (t' & Ht' & Hs').
  destruct (pos_info t t1 (eq_sym (proj1 Hs))) as [_ E2]. rewrite E2 in Hp.
  apply (H i t p w t' Ht); [by apply (relabeled_ref t t1)|done|by apply (relabeled_word i t t1 p w)|done|by apply (relabeled_ref t' t1')].
Qed.

Lemma relabeled_untyped : fwd_untyped b → fwd_untyped b1.
Proof.
  intros H i t1 Ht1 Hf. destruct (relabeled_inv i t1 Ht1) as (t & Ht & Hs). unfold btf_is_fwd in Hf. rewrite <- (info_kind t t1 (proj1 Hs)) in Hf.
  assert (type_words t1 !! 2%nat = Some 0) as Hz.
  { apply (relabeled_word i t t1 2 0 Ht Hs).
    - unfold id_pos. cbv zeta. apply Z.eqb_eq in Hf. rewrite Hf. by left.
    - by rewrite <- (H i t Ht Hf). }
  cbn in Hz. by injection Hz.
Qed.

(** ** Sameness *)

Lemma loc_shape_comp N1 N2 R1 R2 t1 t2 t3 : loc N1 R1 t1 t2 → shape N2 R2 t2 t3 → loc (comp N1 N2) (comp R1 R2) t1 t3.
Proof.
  intros [H|[H Hf]] Hs; [left; by eapply shape_comp|right]. split.
  - eapply tagged_comp; [exact H|]. apply (shape_tagged N2 R2); [done|]. by apply (tagged_taggable N1 t1 t2).
  - by rewrite <- (info_forward t2 t3 (proj1 Hs)).
Qed.

Lemma shape_loc_comp N1 N2 R1 R2 t1 t2 t3 : shape N1 R1 t1 t2 → loc N2 R2 t2 t3 → loc (comp N1 N2) (comp R1 R2) t1 t3.
Proof.
  intros Hs [H|[H Hf]]; [left; by eapply shape_comp|right]. assert (taggable t1) as Ht.
  { destruct (tagged_taggable N2 t2 t3 H) as [[Ht|Ht] _]; [left; by rewrite (info_tag t1 t2 (proj1 Hs))|right; by rewrite (info_any_enum t1 t2 (proj1 Hs))]. }
  split.
  - eapply tagged_comp; [|exact H]. by apply (shape_tagged N1 R1).
  - by rewrite (info_forward t1 t2 (proj1 Hs)).
Qed.

(** Types of the one are the same as types of the other are. *)
Lemma relabeled_same (N : Z → Z → Prop) i j : (∀ w w' v v', I w v → I w' v' → v = v' → N w w') → same ty1 ty1 eq i j → same ty ty N i j.
Proof.
  intros HN H. exists (same ty1 ty1 eq). split; [|done]. clear i j H. intros i j H. destruct (same_inv _ _ _ _ _ H) as (t1 & u1 & Ht1 & Hu1 & Hl).
  destruct (relabeled_inv i t1 Ht1) as (t & Ht & St). destruct (relabeled_inv j u1 Hu1) as (u & Hu & Su). exists t, u. split; [done|]. split; [done|].
  pose proof (loc_shape_comp _ _ _ _ _ _ _ (shape_loc_comp _ _ _ _ _ _ _ St Hl) (shape_sym _ _ _ _ Su)) as Hc.
  eapply loc_impl; [eapply loc_names; [|exact Hc]|].
  - intros w w' (v' & (v & Hv & ->) & Hv'). by apply (HN w w' v' v').
  - intros p w w' _ _ _ (v' & (v & -> & Hvv) & Hv'). unfold flip in Hv'. by subst.
Qed.

Lemma relabeled_same_inv (N : Z → Z → Prop) i j : (∀ w w' v v', I w v → I w' v' → N w w' → v = v') → same ty ty N i j → same ty1 ty1 eq i j.
Proof.
  intros HN H. exists (same ty ty N). split; [|done]. clear i j H. intros i j H. destruct (same_inv _ _ _ _ _ H) as (t & u & Ht & Hu & Hl).
  destruct (rl_types _ _ _ Hr i t Ht) as (t1 & Ht1 & St). destruct (rl_types _ _ _ Hr j u Hu) as (u1 & Hu1 & Su). exists t1, u1. split; [done|]. split; [done|].
  pose proof (loc_shape_comp _ _ _ _ _ _ _ (shape_loc_comp _ _ _ _ _ _ _ (shape_sym _ _ _ _ St) Hl) Su) as Hc.
  eapply loc_impl; [eapply loc_names; [|exact Hc]|].
  - intros v v' (w' & (w & Hw & Hww) & Hv'). by apply (HN w w' v v').
  - intros p w w' _ _ _ (v' & (v & Hv & Hvv) & Hv'). unfold flip in Hv. by subst.
Qed.
End relabeled.

(** * The whole *)

(** The strings are interned already, or can be. *)
Definition names_ready (strs_deduped : bool) (b : btf) : Prop := strs_deduped = true ∨ strs_ok false (b_strs b) ∧ names_fit b.

Lemma dedup_unfold b sd opts d d1 : btf_dedup_new b opts [] = Some (inl d) → dd_btf d = b → b_base b = None →
  btf_dedup_strings sd d = Some (d1, 0) →
  btf__dedup b sd true opts true [] = '(d', e) ← graph_passes d1; Some (dd_btf d', e).
Proof.
  intros Hnew Hbtf Hbase Hs. unfold btf__dedup. rewrite Hnew. cbn [negb mbind option_bind]. unfold btf_dedup_prep. rewrite Hbtf, Hbase.
  unfold graph_passes. rewrite !next_pass_assoc. unfold next_pass at 1. cbn [mbind option_bind]. change (negb (0 =? 0)) with false. cbv iota.
  unfold next_pass at 1. rewrite Hs. cbn [mbind option_bind]. change (negb (0 =? 0)) with false. by cbv iota.
Qed.

(** The object with interned strings, and what becomes of it. *)
Definition outcome (b1 : btf) (E : Z → Z → Prop) (r : option (btf * Z)) : Prop :=
  ∃ b' e, r = Some (b', e) ∧ (e = 0 ∧ deduped b1 E b' ∨ e = - EINVAL ∧ ¬ plain_refs b1 ∨ e = - ELOOP ∧ ∀ rank, ¬ ranks b1 rank).

Lemma dedup_outcome b b1 I sd opts d : relabeled b b1 I → btf_dedup_new b opts [] = Some (inl d) →
  btf_dedup_strings sd d = Some (mkDedup b1 (dd_hash_fn d) (dd_table d) (dd_map d) (dd_hypot d) [], 0) →
  ∀ E, Sameness (btf_type_by_id b1) E → outcome b1 E (btf__dedup b sd true opts true []).
Proof.
  intros [Hb Hb1 Hl Ht] Hnew Hs E HE.
  destruct (new_same_state b b1 opts d Hb Hb1 Hl) as (Hbtf & _ & Hnew1); [|done|].
  { intros i t Hi. destruct (Ht i t Hi) as (t1 & ? & ? & _). by exists t1. }
  destruct (graph_passes_ok b1 E opts Hb1) as (d1 & d' & e & Hnew1' & Hg & _ & H). rewrite Hnew1 in Hnew1'. injection Hnew1' as <-.
  exists (dd_btf d'), e. split; [|done]. rewrite (dedup_unfold b sd opts d _ Hnew Hbtf (wh_base b Hb) Hs). by rewrite Hg.
Qed.

Lemma dedup_interned b opts : whole b → strs_ok false (b_strs b) → names_fit b → ∃ b1 ss, relabeled b b1 (interned b ss) ∧ rewritten b b1 ss ∧
  ∀ E, Sameness (btf_type_by_id b1) E → outcome b1 E (btf__dedup b false true opts true []).
Proof.
  intros Hb Hso Hn. destruct (graph_passes_ok b (same_tag (btf_type_by_id b)) opts Hb) as (d & _ & _ & Hnew & _).
  destruct (new_same_state b b opts d Hb Hb eq_refl) as (Hbtf & Hal & _); [by intros i t ->; exists t|done|].
  destruct (strings_ok b Hb Hso Hn d Hbtf Hal) as (b1 & ss & Hw & Hs). exists b1, ss.
  assert (relabeled b b1 (interned b ss)) as Hr by by destruct Hw.
  split; [done|]. split; [done|]. by apply (dedup_outcome b b1 (interned b ss) false opts d).
Qed.

Lemma dedup_ready b sd opts : whole b → names_ready sd b → ∃ b1 I, relabeled b b1 I ∧
  ∀ E, Sameness (btf_type_by_id b1) E → outcome b1 E (btf__dedup b sd true opts true []).
Proof.
  intros Hb. destruct sd.
  - intros _. exists b, eq. assert (relabeled b b eq) as Hr.
    { split; [done|done|done|]. intros i t Ht. exists t. split; [done|]. by apply shape_refl. }
    split; [done|]. destruct (graph_passes_ok b (same_tag (btf_type_by_id b)) opts Hb) as (d & _ & _ & Hnew & _).
    destruct (new_same_state b b opts d Hb Hb eq_refl) as (Hbtf & Hal & Hnew'); [by intros i t ->; exists t|done|].
    apply (dedup_outcome b b eq true opts d Hr Hnew). cbn [btf_dedup_strings]. do 2 f_equal. rewrite Hnew in Hnew'. by injection Hnew'.
  - intros [|[Hso Hn]]; [done|]. destruct (dedup_interned b opts Hb Hso Hn) as (b1 & ss & Hr & _ & H). by exists b1, (interned b ss).
Qed.

(** C23. [btf__dedup] ends on every well-formed object without a base when memory is to be
    had: following the map of canonical types comes to an end, and so does the comparison of
    types however they refer to each other.  It succeeds or reports [-EINVAL] or [-ELOOP]; and
    it succeeds when no struct leads to a variable, a section or a tag, and types refer to
    themselves only by way of a struct. *)
Theorem dedup_ends b strs_deduped opts : whole b → names_ready strs_deduped b →
  ∃ b' e, btf__dedup b strs_deduped true opts true [] = Some (b', e) ∧ (e = 0 ∨ e = - EINVAL ∨ e = - ELOOP) ∧
    (plain_refs b → (∃ rank, ranks b rank) → e = 0).
Proof.
  intros Hb Hn. destruct (dedup_ready b strs_deduped opts Hb Hn) as (b1 & I & Hr & Hout).
  destruct (Hout _ (same_tag_sameness _)) as (b' & e & He & H). exists b', e. split; [done|].
  destruct H as [[-> _]|[[-> Hp]|[-> Hl]]]; [auto|split; [auto|]..].
  - intros Hpl. destruct Hp. by apply (relabeled_plain b b1 I Hr).
  - intros _ [rank Hrank]. by destruct (Hl rank (relabeled_ranks b b1 I Hr rank Hrank)).
Qed.

(** Names that read the same. *)
Definition same_name (b b' : btf) (w w' : Z) : Prop := btf__str_by_offset b w = btf__str_by_offset b' w'.

#[export] Instance same_name_equiv b : Equivalence (same_name b b).
Proof. split; [done|by intros x y ?; symmetry|]. intros x y z H1 H2. unfold same_name in *. by rewrite H1. Qed.

(** The type [f i] of the result says what the type [i] said.  A definition stays one: its
    words are what they were, but for the ids; these are the new ids of the types that it
    refers to, and in a struct, a variable or a section, of types that are the same. *)
Record preserves (b b' : btf) (f : Z → Z) : Prop := {
  pv_void : f 0 = 0;
  pv_same : ∀ i, is_Some (btf_type_by_id b i) → same (btf_type_by_id b) (btf_type_by_id b') (same_name b b') i (f i);
  pv_defined : ∀ i t, btf_type_by_id b i = Some t → forward t = false → ∃ t', btf_type_by_id b' (f i) = Some t' ∧
    shape (same_name b b') (λ w w', ∃ u, same (btf_type_by_id b) (btf_type_by_id b) (same_name b b) w u ∧ w' = f u) t t';
  pv_direct : ∀ i t, btf_type_by_id b i = Some t → forward t = false → btf_is_composite t = false → var_like t = false →
    ∃ t', btf_type_by_id b' (f i) = Some t' ∧ shape (same_name b b') (λ w w', w' = f w) t t';
  pv_merged : ∀ i j, is_Some (btf_type_by_id b i) → is_Some (btf_type_by_id b j) → f i = f j →
    same (btf_type_by_id b) (btf_type_by_id b) (same_name b b) i j;
  pv_onto : ∀ x, 1 ≤ x ≤ Z.of_nat (length (b_types b')) → ∃ i, is_Some (btf_type_by_id b i) ∧ f i = x;
  pv_wf : Forall type_wf (b_types b'); pv_fewer : (length (b_types b') ≤ length (b_types b))%nat;
}.

Lemma interned_inj b ss w w' v v' : Forall nonul ss → interned b ss w v → interned b ss w' v' → v = v' → same_name b b w w'.
Proof.
  intros Hnn (s & Hs & Ho) (s' & Hs' & Ho') <-. unfold same_name. rewrite Hs, Hs'. f_equal. by eapply str_off_inj.
Qed.
Lemma interned_fun b ss w w' v v' : interned b ss w v → interned b ss w' v' → same_name b b w w' → v = v'.
Proof. intros (s & Hs & Ho) (s' & Hs' & Ho') He. unfold same_name in He. congruence. Qed.

(** A new offset reads the same. *)
Lemma interned_read b b' ss w v : Forall nonul ss → b_strs b' = strs_bytes ss → b_start_str_off b' = 0 → interned b ss w v → same_name b b' w v.
Proof.
  intros Hnn Hs H0 (s & Hw & Ho). unfold same_name. rewrite Hw. destruct (str_off_cstr ss s v [] Hnn Ho) as [Hc Hv]. rewrite app_nil_r in Hc.
  pose proof (str_off_bound ss s v Ho) as Hbd. destruct b' as [ts st so strs base ptr]. cbn in *. subst so strs.
  destruct (Z.ltb_spec v 0); [lia|]. rewrite Z.sub_0_r, Hc. by destruct (Z.ltb_spec v (Z.of_nat (length (strs_bytes ss)))); [|lia].
Qed.

Section kept.
Context (b b1 b' : btf) (ss : list (list Z)) (Hr : relabeled b b1 (interned b ss)) (Hw : rewritten b b1 ss).
Context (Hun : unambiguous (btf_type_by_id b) (same_name b b)).
Abbreviation E := (same (btf_type_by_id b1) (btf_type_by_id b1) eq).
Abbreviation same_in := (same (btf_type_by_id b) (btf_type_by_id b) (same_name b b)).
Context (d0 : btf_dedup) (Hd0 : ref_ok b1 E d0) (Hall : ∀ i, is_Some (btf_type_by_id b1 i) → mapped_in (dd_map d0) i) (R : renumbered b1 E d0 b').
Abbreviation f := (new_id (dd_map d0)).

Lemma kept_same_in i j : E i j ↔ same_in i j.
Proof.
  pose proof (rw_nonul b b1 ss Hw) as Hnn.
  split; [apply (relabeled_same b b1 _ Hr)|apply (relabeled_same_inv b b1 _ Hr)]; [intros; by eapply interned_inj|intros; by eapply interned_fun].
Qed.

Lemma kept_unambiguous : unambiguous (btf_type_by_id b1) eq.
Proof.
  intros v1 x v2 t1 Ht1 Hf H1 H2. apply kept_same_in. destruct (relabeled_inv b b1 _ Hr x t1 Ht1) as (t & Ht & Hs).
  apply (Hun v1 x v2 t Ht); [by rewrite (info_forward t t1 (proj1 Hs))|by apply kept_same_in..].
Qed.

Lemma kept_sameness : Sameness (btf_type_by_id b1) E.
Proof. exact (same_sameness _ (wh_closed b1 (rw_whole b b1 ss Hw)) kept_unambiguous). Qed.

Lemma kept_read w w' : interned b ss w w' → same_name b b' w w'.
Proof.
  intros Hi. apply (interned_read b b' ss w w' (rw_nonul b b1 ss Hw)); [|apply (rn_str_off b1 E d0 b' R)|done].
  rewrite (rn_strs b1 E d0 b' R). apply (rw_strs b b1 ss Hw).
Qed.

Lemma kept_valid i : is_Some (btf_type_by_id b i) → is_Some (btf_type_by_id b1 i).
Proof. intros [t Ht]. destruct (rl_types _ _ _ Hr i t Ht) as (t1 & ? & _). by exists t1. Qed.

Lemma kept_same i : is_Some (btf_type_by_id b i) → same (btf_type_by_id b) (btf_type_by_id b') (same_name b b') i (f i).
Proof.
  pose proof kept_sameness as HE. intros Hi. exists (λ i j, ∃ x, E i x ∧ j = f x). split; [|exists i; split; [by apply sm_refl, kept_valid|done]].
  clear i Hi. intros i j (x & Hix & ->). destruct (sm_dom i x Hix) as [_ Hx].
  destruct (rn_types b1 E d0 b' R x Hx) as (r & tr & t'' & Hxr & _ & Htr & Ht'' & Sr).
  assert (E i r) as Hir by by eapply sm_trans. destruct (same_inv _ _ _ _ _ Hir) as (t1 & tr' & Ht1 & Htr' & Hl). assert (tr' = tr) as -> by congruence.
  destruct (relabeled_inv b b1 _ Hr i t1 Ht1) as (t & Ht & St). exists t, t''. split; [done|]. split; [done|].
  pose proof (loc_shape_comp _ _ _ _ _ _ _ (shape_loc_comp _ _ _ _ _ _ _ St Hl) Sr) as Hc.
  eapply loc_impl; [eapply loc_names; [|exact Hc]|].
  - intros w w' (v' & (v & Hv & ->) & ->). by apply kept_read.
  - intros p w w' _ _ _ (v' & (v & -> & Hvv) & u & Hu & ->). exists u. split; [|done]. by eapply sm_trans.
Qed.

Lemma kept_defined i t : btf_type_by_id b i = Some t → forward t = false → ∃ t', btf_type_by_id b' (f i) = Some t' ∧
  shape (same_name b b') (λ w w', ∃ u, same_in w u ∧ w' = f u) t t'.
Proof.
  pose proof kept_sameness as HE. intros Ht Hf. destruct (rl_types _ _ _ Hr i t Ht) as (t1 & Ht1 & St). rewrite (info_forward t t1 (proj1 St)) in Hf.
  destruct (rn_types b1 E d0 b' R i ltac:(by eexists)) as (r & tr & t'' & Hir & Hdef & Htr & Ht'' & Sr). exists t''. split; [done|].
  destruct Hdef as (tr' & Htr' & Hfr); [by exists t1|]. assert (tr' = tr) as -> by congruence.
  destruct (same_inv _ _ _ _ _ Hir) as (t1' & tr' & Ht1' & Htr'' & Hl). assert (t1' = t1) as -> by congruence. assert (tr' = tr) as -> by congruence.
  destruct Hl as [Hl|[_ [Hl|Hl]]]; [|congruence..].
  eapply shape_impl; [eapply shape_comp; [exact St|eapply shape_comp; [exact Hl|exact Sr]]| |].
  - intros w w' (v & Hv & v' & -> & ->). by apply kept_read.
  - intros p w w' _ _ _ (v & -> & v' & Hvv & u & Hu & ->). exists u. split; [|done]. apply kept_same_in. by eapply sm_trans.
Qed.

Lemma kept_direct i t : btf_type_by_id b i = Some t → forward t = false → btf_is_composite t = false → var_like t = false →
  ∃ t', btf_type_by_id b' (f i) = Some t' ∧ shape (same_name b b') (λ w w', w' = f w) t t'.
Proof.
  intros Ht Hf Hcomp Hvar. destruct (direct_cases b (rl_whole _ _ _ Hr) i t Ht Hf Hcomp Hvar) as [Hrt|Hnone].
  - destruct (rl_types _ _ _ Hr i t Ht) as (t1 & Ht1 & St).
    destruct (rn_exact b1 E d0 b' R i t1 Ht1 (proj1 (relabeled_ref _ t t1 St) Hrt)) as (t'' & Ht'' & Sr). exists t''. split; [done|].
    eapply shape_impl; [eapply shape_comp; [exact St|exact Sr]| |].
    + intros w w' (v & Hv & ->). by apply kept_read.
    + by intros p w w' _ _ _ (v & -> & ->).
  - destruct (kept_defined i t Ht Hf) as (t'' & Ht'' & S). exists t''. split; [done|]. eapply shape_impl; [exact S|done|].
    intros p w w' Hp. rewrite Hnone in Hp. by apply elem_of_nil in Hp.
Qed.

Lemma kept_all : preserves b b' f.
Proof.
  pose proof kept_sameness as HE. split.
  - apply (rn_zero b1 E d0 b' R).
  - exact kept_same.
  - exact kept_defined.
  - exact kept_direct.
  - intros i j Hi Hj Hf. apply kept_same_in. by apply (new_same b1 (rw_whole b b1 ss Hw) E d0 Hd0 Hall i j); [apply kept_valid..|].
  - intros x Hx. destruct (rn_onto b1 E d0 b' R x Hx) as (c & t1 & _ & Hc & _ & Hf & Ht1 & _). exists c. split; [|done].
    destruct (relabeled_inv b b1 _ Hr c t1 Ht1) as (t & Ht & _). by exists t.
  - apply (rn_wf b1 E d0 b' R).
  - rewrite <- (rl_len _ _ _ Hr). apply (rn_le b1 E d0 b' R).
Qed.
End kept.

(** C4. When [btf__dedup] succeeds, no type is lost: there is a map from the old ids to the new
    ones such that every definition (whatever is no forward declaration) becomes one that
    agrees with it in everything, names compared as strings, but for the ids.  Those of
    pointers, typedefs, arrays, functions and tags are exactly the new ids of the types
    that they had; those of structs, unions, variables and sections are new ids of types
    that are the same as those.  A forward declaration becomes one of the same name and
    kind, or its definition.  Types are the same, coinductively, up to forward
    declarations, only such types are merged, and nothing is added.  (As long as each
    forward declaration stands for one definition only.) *)
Theorem dedup_preserves b opts b' : whole b → strs_ok false (b_strs b) → names_fit b →
  unambiguous (btf_type_by_id b) (same_name b b) → btf__dedup b false true opts true [] = Some (b', 0) → ∃ f, preserves b b' f.
Proof.
  intros Hb Hso Hn Hun Hd. destruct (dedup_interned b opts Hb Hso Hn) as (b1 & ss & Hr & Hw & Hout).
  destruct (Hout _ (kept_sameness b b1 ss Hr Hw Hun)) as (b'' & e & He & H). rewrite Hd in He. injection He as <- <-.
  destruct H as [[_ (d0 & Hd0 & Hall & R)]|[[He _]|[He _]]]; [|done..]. eexists. by apply (kept_all b b1 b' ss).
Qed.

(** C10. When [btf__dedup] succeeds on an object whose forward declarations refer to no type,
    as the format says, no two types of the result are equal, but for structs and unions
    (that the order of comparisons can keep apart), variables and sections (that are not
    deduplicated). *)
Theorem dedup_irredundant b strs_deduped opts b' x y t : whole b → names_ready strs_deduped b → fwd_untyped b →
  btf__dedup b strs_deduped true opts true [] = Some (b', 0) →
  btf_is_composite t = false → var_like t = false →
  1 ≤ x ≤ Z.of_nat (length (b_types b')) → 1 ≤ y ≤ Z.of_nat (length (b_types b')) →
  btf_type_by_id b' x = Some t → btf_type_by_id b' y = Some t → x = y.
Proof.
  intros Hb Hn Hfwd Hd Hc Hv Hx Hy Tx Ty. destruct (dedup_ready b strs_deduped opts Hb Hn) as (b1 & I & Hr & Hout).
  destruct (Hout _ (same_tag_sameness _)) as (b'' & e & He & H). rewrite Hd in He. injection He as <- <-.
  destruct H as [[_ (d0 & Hd0 & Hall & R)]|[[He _]|[He _]]]; [|done..].
  apply (distinct_ok b1 (rl_whole1 _ _ _ Hr) (same_tag (btf_type_by_id b1)) d0 Hd0 b' x y t); try done. by apply (relabeled_untyped b b1 I Hr).
Qed.

(** * Examples *)

(** An executable check of [whole]. *)
Definition wholeb (b : btf) : bool :=
  (match b_base b with None => true | Some _ => false end) && (b_start_id b =? 1) && (b_start_str_off b =? 0) &&
  (Z.of_nat (length (b_types b)) <=? BTF_MAX_NR_TYPES) &&
  forallb (λ t, forallb (λ w, bool_decide (word_ok w)) (type_words t) &&
                (btf_type_size t =? SIZEOF_TYPE + 4 * Z.of_nat (length (bt_rest t))) &&
                forallb (λ p, match type_words t !! p with Some w => (0 <=? w) && (w <? type_cnt b) | None => true end) (id_pos t)) (b_types b).

Lemma wholeb_ok b : wholeb b = true → whole b.
Proof.
  unfold wholeb. rewrite !andb_true_iff, !Z.eqb_eq, Z.leb_le, forallb_forall. intros ((((H1 & H2) & H3) & H4) & H5).
  assert (b_base b = None) as Hbase by by destruct (b_base b).
  assert (∀ t, t ∈ b_types b → type_wf t ∧ ∀ p w, p ∈ id_pos t → type_words t !! p = Some w → 0 ≤ w < type_cnt b) as Ht.
  { intros t Ht%list_elem_of_In. specialize (H5 t Ht). rewrite !andb_true_iff, Z.eqb_eq, !forallb_forall in H5. destruct H5 as ((W & S) & I).
    split; [split; [|done]|].
    - apply Forall_forall. intros w Hw%list_elem_of_In. by apply (proj1 (bool_decide_eq_true _)), W.
    - intros p w Hp%list_elem_of_In Hw. specialize (I p Hp). rewrite Hw in I. lia. }
  assert (∀ i, btf_type_by_id b i = if i =? 0 then Some btf_void else if i <? 1 then None else b_types b !! Z.to_nat (i - 1)) as Hget.
  { intros i. rewrite <- (with_types_by_id b (b_types b) i Hbase H2). by destruct b. }
  split; [done..| |].
  - apply Forall_forall. intros t Hin. by apply Ht.
  - intros i t p w Hi Hp Hw. rewrite Hget in Hi |- *. destruct (Z.eqb_spec i 0) as [->|].
    { injection Hi as <-. unfold id_pos in Hp. cbn in Hp. by apply elem_of_nil in Hp. }
    destruct (Z.ltb_spec i 1); [done|]. apply list_elem_of_lookup_2 in Hi. destruct (Ht t Hi) as [_ Hw']. specialize (Hw' p w Hp Hw). unfold type_cnt in Hw'.
    destruct (Z.eqb_spec w 0); [by eexists|]. destruct (Z.ltb_spec w 1); [lia|]. apply lookup_lt_is_Some_2. lia.
Qed.

(** [int]; [struct a;] and [struct a { int x; }]; pointers to both; two [struct s] whose
    member is the one and the other pointer; [int] again. *)
Definition dedup_demo_names : list Z :=
  0 :: str_bytes "int"%string ++ [0] ++ str_bytes "a"%string ++ [0] ++ str_bytes "x"%string ++ [0] ++ str_bytes "int"%string ++ [0] ++ str_bytes "s"%string ++ [0].
Definition dedup_demo_types : list btf_type :=
  [mkType 1 0x01000000 4 [32]; mkType 5 0x07000000 0 []; mkType 5 0x04000001 4 [7; 1; 0]; mkType 0 0x02000000 2 []; mkType 0 0x02000000 3 [];
   mkType 13 0x04000001 8 [7; 4; 0]; mkType 13 0x04000001 8 [7; 5; 0]; mkType 9 0x01000000 4 [32]].
Definition dedup_demo : btf := mkBtf dedup_demo_types 1 0 dedup_demo_names None 8.

(** One [int], one [struct a], one pointer, one [struct s]; the names once. *)
Definition demo_result : btf :=
  mkBtf [mkType 1 0x01000000 4 [32]; mkType 5 0x04000001 4 [7; 1; 0]; mkType 0 0x02000000 2 []; mkType 9 0x04000001 8 [7; 3; 0]] 1 0
    (0 :: str_bytes "int"%string ++ [0] ++ str_bytes "a"%string ++ [0] ++ str_bytes "x"%string ++ [0] ++ str_bytes "s"%string ++ [0]) None 8.

Example demo_dedup : btf__dedup dedup_demo false true None true [] = Some (demo_result, 0).
Proof. vm_compute. reflexivity. Qed.

Definition namedb (b : btf) : bool :=
  forallb (λ t, forallb (λ p, match type_words t !! p with Some w => w <? Z.of_nat (length (b_strs b)) | None => true end) (str_pos t)) (b_types b) &&
  (1 + total_cost (str_cost (b_strs b)) str_pos (b_types b) <=? BTF_MAX_STR_OFFSET).

Lemma namedb_ok b : namedb b = true → names_fit b.
Proof.
  unfold namedb. rewrite andb_true_iff, forallb_forall, Z.leb_le. intros [H1 H2]. split; [|done]. intros t p w Ht%list_elem_of_In Hp%list_elem_of_In Hw.
  specialize (H1 t Ht). rewrite forallb_forall in H1. specialize (H1 p Hp). rewrite Hw in H1. by apply Z.ltb_lt.
Qed.

Lemma demo_whole : whole dedup_demo.
Proof. apply wholeb_ok. vm_compute. reflexivity. Qed.
Lemma demo_strs_ok : strs_ok false dedup_demo_names.
Proof. right. split; [done|]. split; [|done]. vm_compute. discriminate. Qed.
Lemma demo_named : names_fit dedup_demo.
Proof. apply namedb_ok. vm_compute. reflexivity. Qed.

(** The ids of types that a forward declaration stands for. *)
Lemma demo_tagged i t : btf_type_by_id dedup_demo i = Some t → tag_kind t = Some BTF_KIND_STRUCT →
  same_name dedup_demo dedup_demo (bt_name_off t) 5 → i = 2 ∨ i = 3.
Proof.
  intros Hi Hk Hn. pose proof (proj1 (ty_valid dedup_demo demo_whole i) ltac:(by eexists)) as Hr. change (type_cnt dedup_demo) with 9 in Hr.
  assert (i = 0 ∨ i = 1 ∨ i = 2 ∨ i = 3 ∨ i = 4 ∨ i = 5 ∨ i = 6 ∨ i = 7 ∨ i = 8) as Hc by lia.
  destruct Hc as [->|[->|[->|[->|[->|[->|[->|[->| ->]]]]]]]]; injection Hi as <-;
    first [by left|by right|vm_compute in Hk; discriminate|vm_compute in Hn; discriminate].
Qed.

Lemma demo_unambiguous : unambiguous (btf_type_by_id dedup_demo) (same_name dedup_demo dedup_demo).
Proof.
  set (ty := btf_type_by_id dedup_demo). set (N := same_name dedup_demo dedup_demo). intros v1 x v2 t Ht Hf H1 H2.
  assert (∀ i, is_Some (ty i) → same ty ty N i i) as Hrefl.
  { intros i Hi. apply same_refl; [apply _|apply (wh_closed dedup_demo demo_whole)|done]. }
  assert (x = 2) as ->.
  { pose proof (proj1 (ty_valid dedup_demo demo_whole x) ltac:(by eexists)) as Hr. change (type_cnt dedup_demo) with 9 in Hr.
    assert (x = 0 ∨ x = 1 ∨ x = 2 ∨ x = 3 ∨ x = 4 ∨ x = 5 ∨ x = 6 ∨ x = 7 ∨ x = 8) as Hc by lia.
    destruct Hc as [->|[->|[->|[->|[->|[->|[->|[->| ->]]]]]]]]; injection Ht as <-; done. }
  injection Ht as <-.
  assert (∀ i, same ty ty N i 2 → i = 2 ∨ i = 3) as Hin.
  { intros i H. destruct (same_inv _ _ _ _ _ H) as (t1 & t2 & T1 & T2 & Hl). injection T2 as <-. apply (demo_tagged i t1 T1).
    - by rewrite (loc_tag _ _ _ _ Hl).
    - destruct Hl as [(_ & _ & Hs)|[[Hnm _] _]]; [|exact Hnm]. specialize (Hs 0%nat _ _ eq_refl eq_refl). by rewrite decide_True in Hs by apply name_in_pos. }
  assert (same ty ty N 2 3) as H23.
  { apply (same_shape ty N 2 3 (mkType 5 0x07000000 0 []) (mkType 5 0x04000001 4 [7; 1; 0]) eq_refl eq_refl). right. split; [|by left].
    split; [done|]. left. split; [by eexists|done]. }
  assert (same ty ty N v2 2) as H2' by (apply same_sym; [apply _|done]).
  destruct (Hin v1 H1) as [->| ->], (Hin v2 H2') as [->| ->]; [by apply Hrefl|done|by apply same_sym; [apply _|]|by apply Hrefl].
Qed.

Lemma dedup_ends_witness : whole dedup_demo ∧ names_ready false dedup_demo ∧
  ∃ b' e, btf__dedup dedup_demo false true None true [] = Some (b', e) ∧ (e = 0 ∨ e = - EINVAL ∨ e = - ELOOP) ∧
    (plain_refs dedup_demo → (∃ rank, ranks dedup_demo rank) → e = 0).
Proof.
  assert (names_ready false dedup_demo) as Hn by (right; split; [exact demo_strs_ok|exact demo_named]).
  split; [exact demo_whole|]. split; [exact Hn|]. exact (dedup_ends dedup_demo false None demo_whole Hn).
Defined.

Lemma dedup_preserves_witness : unambiguous (btf_type_by_id dedup_demo) (same_name dedup_demo dedup_demo) ∧ ∃ f, preserves dedup_demo demo_result f.
Proof.
  split; [exact demo_unambiguous|].
  exact (dedup_preserves dedup_demo None demo_result demo_whole demo_strs_ok demo_named demo_unambiguous demo_dedup).
Defined.

Lemma demo_untyped : fwd_untyped dedup_demo.
Proof.
  intros i t Ht Hf. destruct (decide (i = 2)) as [->|Hne]; [injection Ht as <-; reflexivity|]. exfalso.
  pose proof (proj1 (ty_valid dedup_demo demo_whole i) (ex_intro _ t Ht)) as Hr. change (type_cnt dedup_demo) with 9 in Hr.
  assert (i = 0 ∨ i = 1 ∨ i = 3 ∨ i = 4 ∨ i = 5 ∨ i = 6 ∨ i = 7 ∨ i = 8) as Hc by lia.
  destruct Hc as [->|[->|[->|[->|[->|[->|[->| ->]]]]]]]; injection Ht as <-; discriminate.
Qed.

(** The two [int] and the two pointers of the example have become one each: whatever ids
    of the result have these types, they are 1 and 3. *)
Lemma dedup_irredundant_witness :
  btf__dedup dedup_demo false true None true [] = Some (demo_result, 0) ∧
  (btf_type_by_id dedup_demo 1 = Some (mkType 1 0x01000000 4 [32]) ∧ btf_type_by_id dedup_demo 8 = Some (mkType 9 0x01000000 4 [32])) ∧
  (∀ x, 1 ≤ x ≤ 4 → btf_type_by_id demo_result x = Some (mkType 1 0x01000000 4 [32]) → x = 1) ∧
  (∀ x, 1 ≤ x ≤ 4 → btf_type_by_id demo_result x = Some (mkType 0 0x02000000 2 []) → x = 3).
Proof.
  assert (names_ready false dedup_demo) as Hn by (right; split; [exact demo_strs_ok|exact demo_named]).
  split; [exact demo_dedup|]. split; [split; reflexivity|]. split; intros x Hx Hxt.
  - apply (dedup_irredundant dedup_demo false None demo_result x 1 (mkType 1 0x01000000 4 [32]) demo_whole Hn demo_untyped demo_dedup); try reflexivity;
      [exact Hx|vm_compute; split; discriminate|exact Hxt].
  - apply (dedup_irredundant dedup_demo false None demo_result x 3 (mkType 0 0x02000000 2 []) demo_whole Hn demo_untyped demo_dedup); try reflexivity;
      [exact Hx|vm_compute; split; discriminate|exact Hxt].
Defined.

(** ** What is not so without the condition on forward declarations *)

(** [struct x;] stands for [struct x { int a; }] (type 7) and [struct x { int a; int n; }]
    (type 11): the second is merged with the first, and so with another struct. *)
Definition demo2_names : list Z :=
  0 :: str_bytes "int"%string ++ [0] ++ str_bytes "s"%string ++ [0] ++ str_bytes "a"%string ++ [0] ++ str_bytes "n"%string ++ [0] ++ str_bytes "x"%string ++ [0].
Definition demo2_btf : btf := mkBtf
  [mkType 1 0x01000000 4 [32]; mkType 11 0x07000000 0 []; mkType 0 0x02000000 2 []; mkType 5 0x04000001 8 [7; 3; 0];
   mkType 0 0x02000000 11 []; mkType 5 0x04000001 8 [7; 5; 0]; mkType 11 0x04000001 4 [7; 1; 0]; mkType 0 0x02000000 7 [];
   mkType 7 0x04000001 8 [9; 8; 0]; mkType 7 0x04000001 8 [9; 3; 0]; mkType 11 0x04000002 8 [7; 1; 0; 9; 1; 32]] 1 0 demo2_names None 8.

(** No struct of the result has two members: the definition is lost. *)
Example definition_lost : whole demo2_btf ∧ (btf_vlen <$> b_types demo2_btf !! 10%nat) = Some 2 ∧
  ∃ b', btf__dedup demo2_btf false true None true [] = Some (b', 0) ∧ forallb (λ t, btf_vlen t <=? 1) (b_types b') = true ∧ ∀ f, ¬ preserves demo2_btf b' f.
Proof.
  split; [apply wholeb_ok; vm_compute; reflexivity|]. split; [reflexivity|].
  destruct (btf__dedup demo2_btf false true None true []) as [[b' e]|] eqn:Hd; [|vm_compute in Hd; discriminate].
  assert (forallb (λ t, btf_vlen t <=? 1) (b_types b') = true ∧ e = 0 ∧ b_base b' = None ∧ b_start_id b' = 1) as (Hv & -> & Hb & Hs).
  { vm_compute in Hd. injection Hd as <- <-. vm_compute. by split_and!. }
  exists b'. split; [done|]. split; [done|]. intros f Hf. destruct (pv_defined _ _ _ Hf 11 _ eq_refl eq_refl) as (t' & Ht' & Hi & _).
  assert (btf_vlen t' = 2) as Hl by (unfold btf_vlen; by rewrite <- Hi).
  assert (btf_type_by_id b' (f 11) = if f 11 =? 0 then Some btf_void else if f 11 <? 1 then None else b_types b' !! Z.to_nat (f 11 - 1)) as Hg.
  { rewrite <- (with_types_by_id b' (b_types b') _ Hb Hs). by destruct b'. }
  rewrite Hg in Ht'. destruct (f 11 =? 0); [injection Ht' as <-; vm_compute in Hl; discriminate|]. destruct (f 11 <? 1); [discriminate|].
  apply list_elem_of_lookup_2, list_elem_of_In in Ht'. rewrite forallb_forall in Hv. specialize (Hv t' Ht'). cbv beta in Hv. lia.
Qed.

(** [enum e;] (type 1) stands for [enum e { a }] (type 3) and [enum e { n }] (type 4); the
    struct with the first (type 5) becomes the one with the second. *)
Definition dedup_demo3 : btf := mkBtf
  [mkType 11 0x06000000 4 []; mkType 5 0x04000001 4 [7; 1; 0]; mkType 11 0x06000001 4 [7; 0]; mkType 11 0x06000001 4 [9; 0];
   mkType 5 0x04000001 4 [7; 3; 0]] 1 0 demo2_names None 8.

Example enum_exchanged : whole dedup_demo3 ∧ ∃ b', btf__dedup dedup_demo3 true true None true [] = Some (b', 0) ∧
  b_types b' = [mkType 5 0x04000001 4 [7; 3; 0]; mkType 11 0x06000001 4 [7; 0]; mkType 11 0x06000001 4 [9; 0]].
Proof.
  split; [apply wholeb_ok; vm_compute; reflexivity|]. eexists. split; [vm_compute; reflexivity|reflexivity].
Qed.

(** No memory for the state, and an invalid argument is reported. *)
Example no_memory_invalid : btf__dedup dedup_demo false true None true [false] = Some (dedup_demo, - EINVAL).
Proof. vm_compute. reflexivity. Qed.
