(* ===== verification/Subprog.v ===== *)
(** Linking the functions of an object into its programs (src/libbpf/src/libbpf.c lines
    4079-4108 and 5744-6400): every call of a subprogram appends the code of the
    subprogram to the main program, once, and is set to jump there; then maps,
    variables and kernel symbols are put into the instructions.

    A program is named by its index in [obj->programs], so that a program that is both
    the main program and the callee is one program, as in the code.  [alloc] says, in
    turn, which reallocations succeed. *)
From stdpp Require Import base list sets.
From Stdlib Require Import ZArith Lia.
From S2P Require Import Prelude RelocCalc RelocPatch.

#[local] Open Scope Z_scope.

(** * Data *)

Inductive reloc_type :=
  | RELO_LD64 | RELO_CALL | RELO_DATA | RELO_EXTERN_VAR | RELO_EXTERN_FUNC | RELO_SUBPROG_ADDR | RELO_CORE.

#[export] Instance reloc_type_eq_dec : EqDecision reloc_type.
Proof. solve_decision. Defined.

Record reloc_desc := mkRelo { rd_type : reloc_type; rd_insn_idx : Z; rd_map_idx : Z; rd_sym_off : Z }.

(** A record of the func or line info: its instruction offset and the rest of it; a
    section of them with the index of the ELF section they are about. *)
Record ext_rec := mkRec { er_insn_off : Z; er_rest : list Z }.
Record btf_ext_info := mkExtInfo { ei_rec_size : Z; ei_secs : list (Z * list ext_rec) }.

(** [None]: a null pointer. *)
Record prog_info := mkInfo { pi_recs : option (list ext_rec); pi_rec_size : Z }.

Record bpf_program := mkProg {
  pg_sec_idx : Z; pg_sec_insn_off : Z; pg_sec_insn_cnt : Z; pg_sub_insn_off : Z;
  pg_insns : list bpf_insn; pg_insns_cnt : Z; pg_relocs : list reloc_desc; pg_autoload : bool;
  pg_func_info : prog_info; pg_line_info : prog_info;
}.

Record bpf_map := mkMap { m_autocreate : bool; m_fd : Z }.

Inductive extern_kind :=
  | EXT_KCFG (data_off : Z)
  | EXT_KSYM (addr kernel_btf_obj_fd kernel_btf_id type_id btf_fd_idx : Z).
Record extern_desc := mkExtern { ext_kind : extern_kind; ext_is_set : bool }.

(** What stays as it is while programs are linked. *)
Record bpf_object := mkObject {
  ob_text_shndx : Z; ob_btf_ext : option (btf_ext_info * btf_ext_info); ob_btf_func_ok : bool;
  ob_gen_loader : bool; ob_maps : list bpf_map; ob_externs : list extern_desc; ob_kconfig_map_idx : Z;
}.

(** [obj->programs] and the allocations to come. *)
Record progs_state := mkState { st_progs : list bpf_program; st_alloc : list bool }.

Definition BPF_PSEUDO_MAP_FD : Z := 1.
Definition BPF_PSEUDO_MAP_IDX : Z := 5.
Definition BPF_PSEUDO_MAP_VALUE : Z := 2.
Definition BPF_PSEUDO_MAP_IDX_VALUE : Z := 6.
Definition BPF_PSEUDO_BTF_ID : Z := 3.
Definition BPF_PSEUDO_FUNC : Z := 4.
Definition BPF_PSEUDO_CALL : Z := 1.
Definition BPF_PSEUDO_KFUNC_CALL : Z := 2.
Definition BPF_INSN_SZ : Z := 8.
Definition LIBBPF_ERRNO__RELOC : Z := 4005.
Definition BPF_OP (code : Z) : Z := Z.land code 0xf0.

Definition set_src (i : bpf_insn) (src : Z) : bpf_insn := mkInsn (i_code i) (i_dst i) src (i_off i) (i_imm i).

Definition insn_is_subprog_call (insn : bpf_insn) : bool :=
  (BPF_CLASS (i_code insn) =? BPF_JMP) && (BPF_OP (i_code insn) =? BPF_CALL) && (BPF_SRC (i_code insn) =? BPF_K) &&
  (i_src insn =? BPF_PSEUDO_CALL) && (i_dst insn =? 0) && (i_off insn =? 0).

Definition insn_is_pseudo_func (insn : bpf_insn) : bool := is_ldimm64_insn insn && (i_src insn =? BPF_PSEUDO_FUNC).

(** * Finding *)

Definition prog_contains_insn (p : bpf_program) (insn_idx : Z) : bool :=
  (pg_sec_insn_off p <=? insn_idx) && (insn_idx <? u64 (pg_sec_insn_off p + pg_sec_insn_cnt p)).

(** The loop keeps [l] and [r]; [fuel] bounds its rounds. *)
Fixpoint find_prog_loop (fuel : nat) (progs : list bpf_program) (sec_idx insn_idx l r : Z) : option Z :=
  match fuel with
  | O => None
  | S fuel =>
      if l <? r then
        let m := l + (r - l + 1) / 2 in
        prog ← progs !! Z.to_nat m;
        if (pg_sec_idx prog <? sec_idx) || ((pg_sec_idx prog =? sec_idx) && (pg_sec_insn_off prog <=? insn_idx))
        then find_prog_loop fuel progs sec_idx insn_idx m r
        else find_prog_loop fuel progs sec_idx insn_idx l (m - 1)
      else Some l
  end.

(** [Some None]: [NULL]; else the index of the program. *)
Definition find_prog_by_sec_insn (progs : list bpf_program) (sec_idx insn_idx : Z) : option (option nat) :=
  l ← find_prog_loop (S (length progs)) progs sec_idx insn_idx 0 (Z.of_nat (length progs) - 1);
  prog ← progs !! Z.to_nat l;
  Some (if (pg_sec_idx prog =? sec_idx) && prog_contains_insn prog insn_idx then Some (Z.to_nat l) else None).

Definition cmp_relo_by_insn_idx (insn_idx : Z) (relo : reloc_desc) : Z :=
  if insn_idx =? u64 (rd_insn_idx relo) then 0 else if insn_idx <? u64 (rd_insn_idx relo) then -1 else 1.

(** The C library's [bsearch]. *)
Fixpoint bsearch {K A} (fuel : nat) (cmp : K → A → Z) (key : K) (base : list A) (l u : nat) : option A :=
  match fuel with
  | O => None
  | S fuel =>
      if (l <? u)%nat then
        let idx := ((l + u) / 2)%nat in
        x ← base !! idx;
        let c := cmp key x in
        if c <? 0 then bsearch fuel cmp key base l idx
        else if c >? 0 then bsearch fuel cmp key base (S idx) u
        else Some x
      else None
  end.

Definition find_prog_insn_relo (p : bpf_program) (insn_idx : Z) : option reloc_desc :=
  if Z.of_nat (length (pg_relocs p)) =? 0 then None
  else bsearch (S (length (pg_relocs p))) cmp_relo_by_insn_idx insn_idx (pg_relocs p) 0 (length (pg_relocs p)).

(** * Func and line info *)

(** The records copied: from the first one inside the program to the last one before
    the first beyond it. *)
Fixpoint ext_copy (p : bpf_program) (recs pending : list ext_rec) (copied : option (list ext_rec)) : option (list ext_rec) :=
  match recs with
  | [] => copied
  | r :: recs =>
      let insn_off := er_insn_off r / BPF_INSN_SZ in
      if insn_off <? pg_sec_insn_off p then
        ext_copy p recs (match copied with Some _ => pending ++ [r] | None => [] end) copied
      else if u64 (pg_sec_insn_off p + pg_sec_insn_cnt p) <=? insn_off then copied
      else ext_copy p recs [] (Some (default [] copied ++ pending ++ [r]))
  end.

Definition next_alloc (alloc : list bool) : bool * list bool :=
  match alloc with [] => (true, []) | b :: alloc => (b, alloc) end.

(** The info of the main program, the error, and the allocations left. *)
Definition adjust_prog_btf_ext_info (p : bpf_program) (ext : btf_ext_info) (info : prog_info) (alloc : list bool)
    : prog_info * Z * list bool :=
  match list_find (λ s, s.1 = pg_sec_idx p) (ei_secs ext) with
  | None => (info, - ENOENT, alloc)
  | Some (_, (_, recs)) =>
      match ext_copy p recs [] None with
      | None => (info, - ENOENT, alloc)
      | Some copy =>
          let '(ok, alloc) := next_alloc alloc in
          if negb ok then (info, - ENOMEM, alloc)
          else
            let off_adj := s32 (pg_sub_insn_off p - pg_sec_insn_off p) in
            let adjust r := mkRec (u32 (er_insn_off r / BPF_INSN_SZ + off_adj)) (er_rest r) in
            (mkInfo (Some (default [] (pi_recs info) ++ map adjust copy)) (ei_rec_size ext), 0, alloc)
      end
  end.

Definition set_prog (progs : list bpf_program) (i : nat) (p : bpf_program) : list bpf_program := <[i := p]> progs.

Definition with_infos (p : bpf_program) (func line : prog_info) : bpf_program :=
  mkProg (pg_sec_idx p) (pg_sec_insn_off p) (pg_sec_insn_cnt p) (pg_sub_insn_off p) (pg_insns p) (pg_insns_cnt p)
    (pg_relocs p) (pg_autoload p) func line.

Definition is_set_info (i : prog_info) : bool := bool_decide (is_Some (pi_recs i)).

(** One of the two infos: the error is ignored when nothing was found at all. *)
Definition reloc_one_info (same : bool) (p : bpf_program) (ext : btf_ext_info) (info : prog_info) (alloc : list bool)
    : prog_info * Z * list bool :=
  if negb same && negb (is_set_info info) then (info, 0, alloc)
  else
    let '(info, err, alloc) := adjust_prog_btf_ext_info p ext info alloc in
    if (err =? 0) || ((err =? - ENOENT) && negb (is_set_info info)) then (info, 0, alloc) else (info, err, alloc).

Definition reloc_prog_func_and_line_info (obj : bpf_object) (st : progs_state) (main_prog prog : nat)
    : option (progs_state * Z) :=
  match ob_btf_ext obj with
  | None => Some (st, 0)
  | Some (func_ext, line_ext) =>
      if negb (ob_btf_func_ok obj) then Some (st, 0)
      else
        m ← st_progs st !! main_prog;
        p ← st_progs st !! prog;
        let same := bool_decide (main_prog = prog) in
        let '(func, err, alloc) := reloc_one_info same p func_ext (pg_func_info m) (st_alloc st) in
        if negb (err =? 0) then
          Some (mkState (set_prog (st_progs st) main_prog (with_infos m func (pg_line_info m))) alloc, err)
        else
          let '(line, err, alloc) := reloc_one_info same p line_ext (pg_line_info m) alloc in
          Some (mkState (set_prog (st_progs st) main_prog (with_infos m func line)) alloc, err)
  end.

(** * Calls *)

Definition with_insns (p : bpf_program) (insns : list bpf_insn) (cnt : Z) : bpf_program :=
  mkProg (pg_sec_idx p) (pg_sec_insn_off p) (pg_sec_insn_cnt p) (pg_sub_insn_off p) insns cnt
    (pg_relocs p) (pg_autoload p) (pg_func_info p) (pg_line_info p).
Definition with_relocs (p : bpf_program) (relocs : list reloc_desc) : bpf_program :=
  mkProg (pg_sec_idx p) (pg_sec_insn_off p) (pg_sec_insn_cnt p) (pg_sub_insn_off p) (pg_insns p) (pg_insns_cnt p)
    relocs (pg_autoload p) (pg_func_info p) (pg_line_info p).
Definition with_sub_off (p : bpf_program) (off : Z) : bpf_program :=
  mkProg (pg_sec_idx p) (pg_sec_insn_off p) (pg_sec_insn_cnt p) off (pg_insns p) (pg_insns_cnt p)
    (pg_relocs p) (pg_autoload p) (pg_func_info p) (pg_line_info p).

Definition shift_relo (off : Z) (r : reloc_desc) : reloc_desc :=
  mkRelo (rd_type r) (s32 (rd_insn_idx r + off)) (rd_map_idx r) (rd_sym_off r).

Definition append_subprog_relos (st : progs_state) (main_prog subprog : nat) : option (progs_state * Z) :=
  if bool_decide (main_prog = subprog) then Some (st, 0)
  else
    let '(ok, alloc) := next_alloc (st_alloc st) in
    if negb ok then Some (mkState (st_progs st) alloc, - ENOMEM)
    else
      m ← st_progs st !! main_prog;
      s ← st_progs st !! subprog;
      let relos := pg_relocs m ++ map (shift_relo (pg_sub_insn_off s)) (pg_relocs s) in
      Some (mkState (set_prog (st_progs st) main_prog (with_relocs m relos)) alloc, 0).

(** The instruction of the section that is called: [inr] an error. *)
Definition called_insn (p : bpf_program) (insn_idx : Z) (insn : bpf_insn) (relo : option reloc_desc) : Z + Z :=
  match relo with
  | Some r =>
      match rd_type r with
      | RELO_CALL => inl (u64 (u64 (rd_sym_off r) / BPF_INSN_SZ + i_imm insn + 1))
      | RELO_SUBPROG_ADDR => inl (u64 (s32 (rd_sym_off r + i_imm insn)) / BPF_INSN_SZ)
      | _ => inr (- LIBBPF_ERRNO__RELOC)
      end
  | None =>
      if insn_is_pseudo_func insn then inr (- LIBBPF_ERRNO__RELOC)
      else inl (u64 (pg_sec_insn_off p + insn_idx + i_imm insn + 1))
  end.

(** Copying the code of the subprogram behind the main program; [None]: a copy that
    reads or writes outside the instructions. *)
Definition append_subprog_insns (st : progs_state) (main_prog subprog : nat) : option (progs_state * Z) :=
  m ← st_progs st !! main_prog;
  let off := pg_insns_cnt m in
  s ← st_progs st !! subprog;
  let progs := set_prog (st_progs st) subprog (with_sub_off s off) in
  m ← progs !! main_prog;
  s ← progs !! subprog;
  let new_cnt := u64 (pg_insns_cnt m + pg_insns_cnt s) in
  let '(ok, alloc) := next_alloc (st_alloc st) in
  if negb ok then Some (mkState progs alloc, - ENOMEM)
  else
    let room := replicate (Z.to_nat new_cnt - length (pg_insns m)) (mkInsn 0 0 0 0 0) in
    let progs := set_prog progs main_prog (with_insns m (pg_insns m ++ room) new_cnt) in
    s ← progs !! subprog;
    m ← progs !! main_prog;
    let n := Z.to_nat (pg_insns_cnt s) in
    if (length (pg_insns s) <? n)%nat || (length (pg_insns m) <? Z.to_nat off + n)%nat then None
    else
      let insns := take (Z.to_nat off) (pg_insns m) ++ take n (pg_insns s) ++ drop (Z.to_nat off + n) (pg_insns m) in
      Some (mkState (set_prog progs main_prog (with_insns m insns (pg_insns_cnt m))) alloc, 0).

(** [insn->imm] of the instruction at [idx] of the main program. *)
Definition set_imm_at (st : progs_state) (main_prog : nat) (idx imm : Z) : option progs_state :=
  m ← st_progs st !! main_prog;
  insn ← pg_insns m !! Z.to_nat idx;
  Some (mkState (set_prog (st_progs st) main_prog
                   (with_insns m (<[Z.to_nat idx := set_imm insn imm]> (pg_insns m)) (pg_insns_cnt m))) (st_alloc st)).

(** [bpf_object__reloc_code] from the instruction [insn_idx] of [prog] on; a subprogram
    is begun by [reloc_enter]. *)
Fixpoint reloc_loop (fuel : nat) (obj : bpf_object) (main_prog prog : nat) (insn_idx : Z) (st : progs_state)
    : option (progs_state * Z) :=
  match fuel with
  | O => None
  | S fuel =>
      p ← st_progs st !! prog;
      if negb (insn_idx <? pg_sec_insn_cnt p) then Some (st, 0)
      else
        m ← st_progs st !! main_prog;
        insn ← pg_insns m !! Z.to_nat (pg_sub_insn_off p + insn_idx);
        if negb (insn_is_subprog_call insn) && negb (insn_is_pseudo_func insn) then
          reloc_loop fuel obj main_prog prog (insn_idx + 1) st
        else
          let relo := find_prog_insn_relo p insn_idx in
          if bool_decide (rd_type <$> relo = Some RELO_EXTERN_FUNC) then
            reloc_loop fuel obj main_prog prog (insn_idx + 1) st
          else
            match called_insn p insn_idx insn relo with
            | inr err => Some (st, err)
            | inl sub_insn_idx =>
                found ← find_prog_by_sec_insn (st_progs st) (ob_text_shndx obj) sub_insn_idx;
                match found with
                | None => Some (st, - LIBBPF_ERRNO__RELOC)
                | Some subprog =>
                    s ← st_progs st !! subprog;
                    '(st, err) ←
                      (if pg_sub_insn_off s =? 0 then
                         '(st, err) ← append_subprog_insns st main_prog subprog;
                         if negb (err =? 0) then Some (st, err)
                         else
                           '(st, err) ← append_subprog_relos st main_prog subprog;
                           if negb (err =? 0) then Some (st, err)
                           else
                             '(st, err) ← reloc_prog_func_and_line_info obj st main_prog subprog;
                             if negb (err =? 0) then Some (st, err)
                             else reloc_loop fuel obj main_prog subprog 0 st
                       else Some (st, 0));
                    if negb (err =? 0) then Some (st, err)
                    else
                      p ← st_progs st !! prog;
                      s ← st_progs st !! subprog;
                      let pos := pg_sub_insn_off p + insn_idx in
                      st ← set_imm_at st main_prog pos (pg_sub_insn_off s - pos - 1);
                      reloc_loop fuel obj main_prog prog (insn_idx + 1) st
                end
            end
  end.

Definition bpf_object__reloc_code (fuel : nat) (obj : bpf_object) (main_prog prog : nat) (st : progs_state)
    : option (progs_state * Z) :=
  '(st, err) ← reloc_prog_func_and_line_info obj st main_prog prog;
  if negb (err =? 0) then Some (st, err) else reloc_loop fuel obj main_prog prog 0 st.

Definition prog_is_subprog (obj : bpf_object) (progs : list bpf_program) (p : bpf_program) : bool :=
  (pg_sec_idx p =? ob_text_shndx obj) && (1 <? Z.of_nat (length progs)).

(** Every nested call begins a subprogram that was not begun: the rounds of all of them. *)
Definition reloc_fuel (progs : list bpf_program) : nat :=
  S (sum_list_with (λ p, S (Z.to_nat (pg_sec_insn_cnt p))) progs).

Definition bpf_object__relocate_calls (obj : bpf_object) (prog : nat) (st : progs_state) : option (progs_state * Z) :=
  let reset p := if prog_is_subprog obj (st_progs st) p then with_sub_off p 0 else p in
  let st := mkState (map reset (st_progs st)) (st_alloc st) in
  bpf_object__reloc_code (reloc_fuel (st_progs st)) obj prog prog st.

(** * Data *)

Definition MAP_LDIMM64_POISON_BASE : Z := 2001000000.

Definition poison_map_ldimm64 (map_idx : Z) : bpf_insn :=
  mkInsn (Z.lor BPF_JMP BPF_CALL) 0 0 0 (s32 (MAP_LDIMM64_POISON_BASE + map_idx)).

(** The two instructions of the load after the relocation; [inr] an error. *)
Definition relocate_one (obj : bpf_object) (relo : reloc_desc) (i0 i1 : bpf_insn) : option ((bpf_insn * bpf_insn) + Z) :=
  match rd_type relo with
  | RELO_LD64 =>
      map ← ob_maps obj !! Z.to_nat (rd_map_idx relo);
      Some (inl (if ob_gen_loader obj then (set_imm (set_src i0 BPF_PSEUDO_MAP_IDX) (rd_map_idx relo), i1)
                 else if m_autocreate map then (set_imm (set_src i0 BPF_PSEUDO_MAP_FD) (m_fd map), i1)
                 else (poison_map_ldimm64 (rd_map_idx relo), poison_map_ldimm64 (rd_map_idx relo))))
  | RELO_DATA =>
      map ← ob_maps obj !! Z.to_nat (rd_map_idx relo);
      let i1 := set_imm i1 (i_imm i0 + rd_sym_off relo) in
      Some (inl (if ob_gen_loader obj then (set_imm (set_src i0 BPF_PSEUDO_MAP_IDX_VALUE) (rd_map_idx relo), i1)
                 else if m_autocreate map then (set_imm (set_src i0 BPF_PSEUDO_MAP_VALUE) (m_fd map), i1)
                 else (poison_map_ldimm64 (rd_map_idx relo), poison_map_ldimm64 (rd_map_idx relo))))
  | RELO_EXTERN_VAR =>
      ext ← ob_externs obj !! Z.to_nat (rd_sym_off relo);
      match ext_kind ext with
      | EXT_KCFG data_off =>
          if ob_gen_loader obj then
            Some (inl (set_imm (set_src i0 BPF_PSEUDO_MAP_IDX_VALUE) (ob_kconfig_map_idx obj), set_imm i1 data_off))
          else
            map ← ob_maps obj !! Z.to_nat (ob_kconfig_map_idx obj);
            Some (inl (set_imm (set_src i0 BPF_PSEUDO_MAP_VALUE) (m_fd map), set_imm i1 data_off))
      | EXT_KSYM addr obj_fd btf_id type_id _ =>
          Some (inl (if negb (type_id =? 0) && ext_is_set ext
                     then (set_imm (set_src i0 BPF_PSEUDO_BTF_ID) btf_id, set_imm i1 obj_fd)
                     else (set_imm i0 (u32 addr), set_imm i1 (Z.shiftr addr 32))))
      end
  | RELO_EXTERN_FUNC =>
      ext ← ob_externs obj !! Z.to_nat (rd_sym_off relo);
      let i0 := set_src i0 BPF_PSEUDO_KFUNC_CALL in
      match ext_kind ext with
      | EXT_KSYM _ _ btf_id _ fd_idx =>
          Some (inl (if ext_is_set ext then (set_off (set_imm i0 btf_id) fd_idx, i1) else (set_off (set_imm i0 0) 0, i1)))
      | EXT_KCFG _ => None
      end
  | RELO_SUBPROG_ADDR => Some (if negb (i_src i0 =? BPF_PSEUDO_FUNC) then inr (- EINVAL) else inl (i0, i1))
  | RELO_CALL | RELO_CORE => Some (inl (i0, i1))
  end.

(** Only a load has a second instruction. *)
Definition has_second (relo : reloc_desc) : bool :=
  match rd_type relo with RELO_LD64 | RELO_DATA | RELO_EXTERN_VAR => true | _ => false end.

Fixpoint relocate_data (obj : bpf_object) (relos : list reloc_desc) (insns : list bpf_insn) : option (list bpf_insn * Z) :=
  match relos with
  | [] => Some (insns, 0)
  | relo :: relos =>
      let idx := Z.to_nat (rd_insn_idx relo) in
      i0 ← insns !! idx;
      i1 ← (if has_second relo then insns !! S idx else Some i0);
      r ← relocate_one obj relo i0 i1;
      match r with
      | inr err => Some (insns, err)
      | inl (i0, i1) => relocate_data obj relos (if has_second relo then <[S idx := i1]> (<[idx := i0]> insns) else <[idx := i0]> insns)
      end
  end.

Definition bpf_object__relocate_data (obj : bpf_object) (st : progs_state) (prog : nat) : option (progs_state * Z) :=
  p ← st_progs st !! prog;
  '(insns, err) ← relocate_data obj (pg_relocs p) (pg_insns p);
  Some (mkState (set_prog (st_progs st) prog (with_insns p insns (pg_insns_cnt p))) (st_alloc st), err).

(** * All programs *)

(** Marking the loads of the address of a function. *)
Fixpoint mark_pseudo_funcs (relos : list reloc_desc) (insns : list bpf_insn) : option (list bpf_insn) :=
  match relos with
  | [] => Some insns
  | relo :: relos =>
      let idx := Z.to_nat (rd_insn_idx relo) in
      insn ← insns !! idx;
      mark_pseudo_funcs relos (if decide (rd_type relo = RELO_SUBPROG_ADDR) then <[idx := set_src insn BPF_PSEUDO_FUNC]> insns else insns)
  end.

Definition mark_prog (p : bpf_program) : option bpf_program :=
  insns ← mark_pseudo_funcs (pg_relocs p) (pg_insns p); Some (with_insns p insns (pg_insns_cnt p)).

(** A step for every program that is loaded and is no subprogram. *)
Fixpoint for_each_main (obj : bpf_object) (step : nat → progs_state → option (progs_state * Z)) (ids : list nat)
    (st : progs_state) : option (progs_state * Z) :=
  match ids with
  | [] => Some (st, 0)
  | i :: ids =>
      p ← st_progs st !! i;
      if prog_is_subprog obj (st_progs st) p || negb (pg_autoload p) then for_each_main obj step ids st
      else
        '(st, err) ← step i st;
        if negb (err =? 0) then Some (st, err) else for_each_main obj step ids st
  end.

(** [bpf_object__relocate] behind the CO-RE relocations and the sorting. *)
Definition bpf_object__relocate (obj : bpf_object) (st : progs_state) : option (progs_state * Z) :=
  progs ← mapM mark_prog (st_progs st);
  let ids := seq 0 (length progs) in
  '(st, err) ← for_each_main obj (bpf_object__relocate_calls obj) ids (mkState progs (st_alloc st));
  if negb (err =? 0) then Some (st, err) else for_each_main obj (λ i st, bpf_object__relocate_data obj st i) ids st.
