(* ===== verification/SubprogData.v ===== *)
(** Putting maps, variables and kernel symbols into the instructions of a program
    (bpf_object__relocate_data of src/libbpf/src/libbpf.c): what a relocation asks an
    instruction to refer to, what an instruction refers to, and that they are the same. *)
From stdpp Require Import base list sets sorting.
From Stdlib Require Import ZArith Lia.
From S2P Require Import Prelude RelocCalc RelocPatch Subprog.

#[local] Open Scope Z_scope.

(** The instructions of a relocation: one, or the two of a load. *)
Definition relo_width (r : reloc_desc) : Z := if has_second r then 2 else 1.

Definition apart (relos : list reloc_desc) : Prop :=
  StronglySorted (λ a b, rd_insn_idx a + relo_width a ≤ rd_insn_idx b) relos.

(** The instruction [n] is one of those of [r]. *)
Definition covers (r : reloc_desc) (n : nat) : Prop := rd_insn_idx r ≤ Z.of_nat n < rd_insn_idx r + relo_width r.

(** ** What the instructions refer to

    The kernel reads what a load refers to off the source register and the two immediate
    values (include/uapi/linux/bpf.h). *)
Inductive reference :=
  | RefMap (fd : Z)
  | RefMapIdx (idx : Z)
  | RefValue (fd off : Z)
  | RefValueIdx (idx off : Z)
  | RefBtf (id obj_fd : Z)
  | RefAddr (addr : Z)
  | RefKfunc (id fd_idx : Z)
  | RefNone (map_idx : Z)
  | RefKept.

(** A reference to the map, or at [off] into its value: by its index for the loader
    program, by its file descriptor if it has one. *)
Definition map_ref (obj : bpf_object) (idx : Z) (off : option Z) (needed : bool) : option reference :=
  map ← ob_maps obj !! Z.to_nat idx;
  Some (match ob_gen_loader obj, m_autocreate map || needed, off with
        | true, _, None => RefMapIdx idx
        | true, _, Some o => RefValueIdx idx o
        | false, true, None => RefMap (m_fd map)
        | false, true, Some o => RefValue (m_fd map) o
        | false, false, _ => RefNone idx
        end).

(** What a relocation refers to; [addend] is in the instruction. *)
Definition reference_of (obj : bpf_object) (r : reloc_desc) (addend : Z) : option reference :=
  match rd_type r with
  | RELO_LD64 => map_ref obj (rd_map_idx r) None false
  | RELO_DATA => map_ref obj (rd_map_idx r) (Some (addend + rd_sym_off r)) false
  | RELO_EXTERN_VAR =>
      ext ← ob_externs obj !! Z.to_nat (rd_sym_off r);
      match ext_kind ext with
      | EXT_KCFG off =>
          if ob_gen_loader obj then Some (RefValueIdx (ob_kconfig_map_idx obj) off)
          else map_ref obj (ob_kconfig_map_idx obj) (Some off) true
      | EXT_KSYM addr obj_fd id type_id _ =>
          Some (if decide (type_id ≠ 0 ∧ ext_is_set ext = true) then RefBtf id obj_fd else RefAddr addr)
      end
  | RELO_EXTERN_FUNC =>
      ext ← ob_externs obj !! Z.to_nat (rd_sym_off r);
      match ext_kind ext with
      | EXT_KSYM _ _ id _ fd_idx => Some (if ext_is_set ext then RefKfunc id fd_idx else RefKfunc 0 0)
      | EXT_KCFG _ => None
      end
  | RELO_SUBPROG_ADDR | RELO_CALL | RELO_CORE => Some RefKept
  end.

(** The instruction with another source register and immediate value. *)
Definition load_of (i : bpf_insn) (src v : Z) : bpf_insn := mkInsn (i_code i) (i_dst i) src (i_off i) (s32 v).

(** [j0] and [j1] are [i0] and [i1] but for what they refer to; a map that does not exist
    makes both a call of no function, with the index of the map in its number. *)
Definition refers (ref : reference) (i0 i1 j0 j1 : bpf_insn) : Prop :=
  match ref with
  | RefMap fd => j0 = load_of i0 1 fd ∧ j1 = i1
  | RefMapIdx idx => j0 = load_of i0 5 idx ∧ j1 = i1
  | RefValue fd off => j0 = load_of i0 2 fd ∧ j1 = load_of i1 (i_src i1) off
  | RefValueIdx idx off => j0 = load_of i0 6 idx ∧ j1 = load_of i1 (i_src i1) off
  | RefBtf id obj_fd => j0 = load_of i0 3 id ∧ j1 = load_of i1 (i_src i1) obj_fd
  | RefAddr addr => imm_only i0 j0 ∧ imm_only i1 j1 ∧ imm64 j0 j1 = u64 addr
  | RefKfunc id fd_idx => j0 = mkInsn (i_code i0) (i_dst i0) 2 (swrap 16 fd_idx) (s32 id)
  | RefNone idx => j0 = mkInsn 0x85 0 0 0 (s32 (2001000000 + idx)) ∧ j1 = j0
  | RefKept => j0 = i0
  end.

(** The relocation [r] has been made from [old] to [new]. *)
Definition relocated (obj : bpf_object) (old new : list bpf_insn) (r : reloc_desc) : Prop :=
  let idx := Z.to_nat (rd_insn_idx r) in
  ∃ i0 i1 j0 j1 ref, old !! idx = Some i0 ∧ (if has_second r then old !! S idx = Some i1 else i1 = i0) ∧
    reference_of obj r (i_imm i0) = Some ref ∧ refers ref i0 i1 j0 j1 ∧
    new !! idx = Some j0 ∧ (has_second r = true → new !! S idx = Some j1).

(** What of the object and the program the relocation [r] needs. *)
Definition relo_defined (obj : bpf_object) (insns : list bpf_insn) (r : reloc_desc) : Prop :=
  let idx := Z.to_nat (rd_insn_idx r) in
  0 ≤ rd_insn_idx r ∧ ∃ i0, insns !! idx = Some i0 ∧ (has_second r = true → is_Some (insns !! S idx)) ∧
    is_Some (reference_of obj r (i_imm i0)) ∧ (rd_type r = RELO_SUBPROG_ADDR → i_src i0 = BPF_PSEUDO_FUNC).

Lemma addr_imms a i0 i1 : imm64 (set_imm i0 (u32 a)) (set_imm i1 (Z.shiftr a 32)) = u64 a.
Proof.
  unfold imm64. cbn [i_imm set_imm]. rewrite <- (imm64_split (u64 a)) by (apply wrap_range; lia). f_equal.
  - f_equal. apply swrap_ext. apply Z.bits_inj'. intros i Hi. rewrite !wrap_testbit by lia.
    destruct (Z.ltb_spec i 32), (Z.ltb_spec i 64); cbn; try lia; done.
  - do 3 f_equal. apply swrap_ext. apply Z.bits_inj'. intros i Hi. rewrite !wrap_testbit, !Z.shiftr_spec, wrap_testbit by lia.
    destruct (Z.ltb_spec i 32), (Z.ltb_spec (i + 32) 64); cbn; try lia; done.
Qed.

(** The switch makes the instructions refer to what the relocation is about. *)
Lemma relocate_one_refers obj r i0 i1 ref :
  reference_of obj r (i_imm i0) = Some ref → (rd_type r = RELO_SUBPROG_ADDR → i_src i0 = BPF_PSEUDO_FUNC) →
  ∃ j0 j1, relocate_one obj r i0 i1 = Some (inl (j0, j1)) ∧ refers ref i0 i1 j0 j1.
Proof.
  unfold reference_of, relocate_one, map_ref. intros H Hs. destruct (rd_type r).
  - destruct (ob_maps obj !! _) as [map|]; cbn [mbind option_bind] in H |- *; [|done]. simplify_eq.
    destruct (ob_gen_loader obj), (m_autocreate map); cbn [orb]; by eexists _, _.
  - simplify_eq. by eexists _, _.
  - destruct (ob_maps obj !! _) as [map|]; cbn [mbind option_bind] in H |- *; [|done]. simplify_eq.
    destruct (ob_gen_loader obj), (m_autocreate map); cbn [orb]; by eexists _, _.
  - destruct (ob_externs obj !! _) as [ext|]; cbn [mbind option_bind] in H |- *; [|done]. destruct (ext_kind ext) as [off|addr fd id ty fdi].
    + destruct (ob_gen_loader obj); [simplify_eq; by eexists _, _|].
      destruct (ob_maps obj !! _) as [map|]; cbn [mbind option_bind] in H |- *; [|done]. simplify_eq.
      rewrite orb_true_r. by eexists _, _.
    + assert (ref = RefAddr addr → ∃ j0 j1, Some (inl (set_imm i0 (u32 addr), set_imm i1 (Z.shiftr addr 32))) = Some (inl (j0, j1) : _ + Z) ∧
        refers ref i0 i1 j0 j1) as Ha.
      { intros ->. eexists _, _. split; [reflexivity|]. split; [repeat split|]. split; [repeat split|]. apply addr_imms. }
      case_decide as Hd; simplify_eq.
      * destruct Hd as [Hty ->]. destruct (Z.eqb_spec ty 0); [done|]. eexists _, _. split; [reflexivity|]. by split.
      * assert (negb (ty =? 0) && ext_is_set ext = false) as ->; [|by apply Ha].
        destruct (Z.eqb_spec ty 0), (ext_is_set ext); [reflexivity..| |reflexivity]. by destruct Hd.
  - destruct (ob_externs obj !! _) as [ext|]; cbn [mbind option_bind] in H |- *; [|done]. destruct (ext_kind ext); [done|].
    destruct (ext_is_set ext); simplify_eq; by eexists _, _.
  - rewrite (Hs eq_refl). simplify_eq. by eexists _, _.
  - simplify_eq. by eexists _, _.
Qed.

(** Whether there is something to refer to does not depend on the addend. *)
Lemma reference_addend obj r a a' : is_Some (reference_of obj r a) → is_Some (reference_of obj r a').
Proof. unfold reference_of, map_ref. destruct (rd_type r); try done. destruct (ob_maps obj !! _); cbn; [by eexists|by intros [? ?]]. Qed.

Lemma relo_defined_ext obj old new r : (∀ n, covers r n → old !! n = new !! n) → relo_defined obj old r → relo_defined obj new r.
Proof.
  intros Heq (H0 & i0 & H1 & H2 & H3). split; [done|]. exists i0. unfold covers, relo_width in Heq.
  split; [rewrite <- Heq; [done|destruct (has_second r); lia]|]. split; [|done].
  destruct (has_second r); [|done]. rewrite <- Heq; [done|lia].
Qed.

Lemma relocated_ext obj old old' new r : 0 ≤ rd_insn_idx r → (∀ n, covers r n → old !! n = old' !! n) → relocated obj old new r → relocated obj old' new r.
Proof.
  intros H0 Heq (i0 & i1 & j0 & j1 & ref & H1 & H2 & H3). exists i0, i1, j0, j1, ref. unfold covers, relo_width in Heq.
  split; [rewrite <- Heq; [done|destruct (has_second r); lia]|]. split; [|done].
  destruct (has_second r); [|done]. rewrite <- Heq; [done|lia].
Qed.

(** The instructions after one relocation. *)
Definition put (r : reloc_desc) (j : bpf_insn * bpf_insn) (insns : list bpf_insn) : list bpf_insn :=
  let idx := Z.to_nat (rd_insn_idx r) in
  if has_second r then <[S idx := j.2]> (<[idx := j.1]> insns) else <[idx := j.1]> insns.

Lemma put_other r j insns n : 0 ≤ rd_insn_idx r → ¬ covers r n → put r j insns !! n = insns !! n.
Proof.
  unfold covers, relo_width, put. intros H0 Hn. destruct (has_second r); rewrite ?list_lookup_insert_ne by lia; done.
Qed.

Lemma length_put r j insns : length (put r j insns) = length insns.
Proof. unfold put. destruct (has_second r); by rewrite ?length_insert. Qed.

(** Every relocation is made, from the instructions as they were, and no other
    instruction changes. *)
Lemma relocate_data_ok obj relos insns : apart relos → Forall (relo_defined obj insns) relos →
  ∃ insns', relocate_data obj relos insns = Some (insns', 0) ∧ length insns' = length insns ∧
    Forall (relocated obj insns insns') relos ∧
    ∀ n, (∀ r, r ∈ relos → ¬ covers r n) → insns' !! n = insns !! n.
Proof.
  revert insns. induction relos as [|r relos IH]; intros insns Hs Hd; [by exists insns|].
  apply StronglySorted_cons in Hs as [Hr Hs]. apply Forall_cons in Hd as [(H0 & i0 & H1 & H2 & [ref Href] & Hsub) Hd].
  cbn [relocate_data]. rewrite H1. cbn [mbind option_bind].
  assert (∃ i1, (if has_second r then insns !! S (Z.to_nat (rd_insn_idx r)) else Some i0) = Some i1 ∧
    if has_second r then insns !! S (Z.to_nat (rd_insn_idx r)) = Some i1 else i1 = i0) as (i1 & -> & H3).
  { destruct (has_second r); [destruct (H2 eq_refl) as [i1 H3]|]; eauto. }
  destruct (relocate_one_refers obj r i0 i1 ref Href Hsub) as (j0 & j1 & E1 & Hj).
  cbn [mbind option_bind]. rewrite E1. cbn [mbind option_bind].
  assert (∀ q n, q ∈ relos → covers q n → ¬ covers r n) as Hap.
  { intros q n Hq. rewrite Forall_forall in Hr. specialize (Hr q Hq). unfold covers. lia. }
  destruct (IH (put r (j0, j1) insns) Hs) as (insns' & E & Hl & Hdone & Hkeep).
  { rewrite Forall_forall in Hd |- *. intros q Hq. eapply relo_defined_ext; [|by apply Hd].
    intros n Hn. by rewrite put_other by (done || by eapply Hap). }
  exists insns'. split; [exact E|]. split; [by rewrite Hl, length_put|]. split.
  - assert (∀ n, covers r n → insns' !! n = put r (j0, j1) insns !! n) as Hn by (intros n Hn; apply Hkeep; intros q Hq Hqn; by eapply Hap).
    unfold covers, relo_width in Hn. constructor.
    + exists i0, i1, j0, j1, ref. split_and!; [done..| |].
      * rewrite Hn by (destruct (has_second r); lia). unfold put. apply lookup_lt_Some in H1. destruct (has_second r).
        -- rewrite list_lookup_insert_ne by lia. by apply list_lookup_insert_eq.
        -- by apply list_lookup_insert_eq.
      * intros Hsec. rewrite Hsec in *. rewrite Hn by lia. unfold put. rewrite Hsec. apply list_lookup_insert_eq.
        rewrite length_insert. by apply lookup_lt_Some in H3.
    + rewrite Forall_forall in Hdone, Hd |- *. intros q Hq. eapply relocated_ext; [by apply (Hd q Hq)| |by apply Hdone].
      intros n Hnq. apply put_other; [done|]. by eapply Hap.
  - intros n Hn. rewrite Hkeep by (intros q Hq; apply Hn; set_solver). apply put_other; [done|]. apply Hn. set_solver.
Qed.
