(* ===== verification/SubprogFind.v ===== *)
(** Finding while functions are linked: the relocation of an instruction, and the program
    that has an instruction of a section (bsearch and find_prog_by_sec_insn of
    src/libbpf/src/libbpf.c). *)
From stdpp Require Import base list sets relations sorting.
From Stdlib Require Import ZArith Lia.
From S2P Require Import Prelude RelocCalc RelocPatch Subprog.

#[local] Open Scope Z_scope.

(** * Searching *)

(** Relocations in the order of their instructions, one each. *)
Definition relos_sorted (l : list reloc_desc) : Prop := StronglySorted (λ a b, rd_insn_idx a < rd_insn_idx b) l.

Lemma sorted_lookup l i j a b : relos_sorted l → (i < j)%nat → l !! i = Some a → l !! j = Some b → rd_insn_idx a < rd_insn_idx b.
Proof.
  intros Hs. revert i j. induction Hs as [|x l Hs IH Hx]; intros [|i] [|j] Hij Ha Hb; try done; try lia; cbn in *.
  - simplify_eq. rewrite Forall_forall in Hx. apply Hx. by eapply list_elem_of_lookup_2.
  - by apply (IH i j); [lia|..].
Qed.

(** What [bsearch] finds between [l] and [u]. *)
Lemma bsearch_spec fuel key base l u : relos_sorted base → Forall (λ r, 0 ≤ rd_insn_idx r < 2 ^ 64) base →
  (l ≤ u ≤ length base)%nat → (u - l < fuel)%nat →
  match bsearch fuel cmp_relo_by_insn_idx key base l u with
  | Some r => r ∈ base ∧ rd_insn_idx r = key
  | None => ∀ i r, (l ≤ i < u)%nat → base !! i = Some r → rd_insn_idx r ≠ key
  end.
Proof.
  intros Hs Hr. revert l u. induction fuel as [|fuel IH]; intros l u Hlu Hf; [lia|]. cbn [bsearch].
  destruct (Nat.ltb_spec l u) as [Hlt|]; [|intros i r Hi; lia].
  assert (l ≤ (l + u) / 2 < u)%nat as Hm by (split; [apply Nat.div_le_lower_bound|apply Nat.Div0.div_lt_upper_bound]; lia).
  set (k := ((l + u) / 2)%nat) in *. destruct (lookup_lt_is_Some_2 base k) as [x Hx]; [lia|]. rewrite Hx.
  cbn [mbind option_bind]. unfold cmp_relo_by_insn_idx.
  assert (0 ≤ rd_insn_idx x < 2 ^ 64) as Hxr by (rewrite Forall_forall in Hr; apply Hr; by eapply list_elem_of_lookup_2).
  rewrite wrap_small by (unfold in_u; lia).
  destruct (Z.eqb_spec key (rd_insn_idx x)) as [->|Hne]; [cbn [Z.ltb Z.gtb Z.compare]; split; [by eapply list_elem_of_lookup_2|done]|].
  destruct (Z.ltb_spec key (rd_insn_idx x)) as [Hk|Hk]; cbn [Z.ltb Z.gtb Z.compare].
  - specialize (IH l k ltac:(lia) ltac:(lia)). destruct (bsearch fuel _ key base l k); [done|].
    intros i r Hi Hir. destruct (decide (i < k)%nat); [apply (IH i r); [lia|done]|].
    destruct (decide (i = k)) as [->|]; [simplify_eq; lia|].
    pose proof (sorted_lookup base k i x r Hs ltac:(lia) Hx Hir). lia.
  - specialize (IH (S k) u ltac:(lia) ltac:(lia)). destruct (bsearch fuel _ key base (S k) u); [done|].
    intros i r Hi Hir. destruct (decide (k < i)%nat); [apply (IH i r); [lia|done]|].
    destruct (decide (i = k)) as [->|]; [simplify_eq; lia|].
    pose proof (sorted_lookup base i k r x Hs ltac:(lia) Hir Hx). lia.
Qed.

Lemma find_relo_spec p key : relos_sorted (pg_relocs p) → Forall (λ r, 0 ≤ rd_insn_idx r < 2 ^ 64) (pg_relocs p) →
  match find_prog_insn_relo p key with
  | Some r => r ∈ pg_relocs p ∧ rd_insn_idx r = key
  | None => ∀ r, r ∈ pg_relocs p → rd_insn_idx r ≠ key
  end.
Proof.
  intros Hs Hr. unfold find_prog_insn_relo. destruct (Z.eqb_spec (Z.of_nat (length (pg_relocs p))) 0) as [E|].
  - destruct (pg_relocs p); [|cbn in E; lia]. by intros r ?%elem_of_nil.
  - pose proof (bsearch_spec (S (length (pg_relocs p))) key (pg_relocs p) 0 (length (pg_relocs p)) Hs Hr ltac:(lia) ltac:(lia)) as H.
    destruct (bsearch _ _ _ _ _ _); [done|]. intros r [i Hi]%list_elem_of_lookup. apply (H i r); [|done].
    split; [lia|]. by eapply lookup_lt_Some.
Qed.

(** Programs in the order of their sections and of their places there, apart. *)
Definition before (p q : bpf_program) : Prop :=
  pg_sec_idx p < pg_sec_idx q ∨ pg_sec_idx p = pg_sec_idx q ∧ pg_sec_insn_off p + pg_sec_insn_cnt p ≤ pg_sec_insn_off q.
Definition progs_sorted (progs : list bpf_program) : Prop :=
  ∀ i j p q, (i < j)%nat → progs !! i = Some p → progs !! j = Some q → before p q.

Definition in_sec (p : bpf_program) (sec_idx insn_idx : Z) : Prop :=
  pg_sec_idx p = sec_idx ∧ pg_sec_insn_off p ≤ insn_idx < pg_sec_insn_off p + pg_sec_insn_cnt p.

Definition prog_range (p : bpf_program) : Prop :=
  0 ≤ pg_sec_insn_off p ∧ 0 < pg_sec_insn_cnt p ∧ pg_sec_insn_off p + pg_sec_insn_cnt p < 2 ^ 63.

(** The test of the search. *)
Definition starts_before (p : bpf_program) (sec_idx insn_idx : Z) : bool :=
  (pg_sec_idx p <? sec_idx) || ((pg_sec_idx p =? sec_idx) && (pg_sec_insn_off p <=? insn_idx)).

Lemma find_prog_loop_spec fuel progs sec_idx insn_idx l r :
  (∀ i j p q, (i < j)%nat → progs !! i = Some p → progs !! j = Some q →
    starts_before q sec_idx insn_idx = true → starts_before p sec_idx insn_idx = true) →
  0 ≤ l ≤ r → r < Z.of_nat (length progs) → (Z.to_nat (r - l) < fuel)%nat →
  (∀ i p, Z.of_nat i > r → progs !! i = Some p → starts_before p sec_idx insn_idx = false) →
  (∀ i p, Z.of_nat i ≤ l → (0 < i)%nat → progs !! i = Some p → starts_before p sec_idx insn_idx = true) →
  ∃ k, find_prog_loop fuel progs sec_idx insn_idx l r = Some (Z.of_nat k) ∧ (k < length progs)%nat ∧
    (∀ i p, (k < i)%nat → progs !! i = Some p → starts_before p sec_idx insn_idx = false) ∧
    (∀ i p, (0 < i ≤ k)%nat → progs !! i = Some p → starts_before p sec_idx insn_idx = true).
Proof.
  intros Hmono. revert l r. induction fuel as [|fuel IH]; intros l r Hl Hr Hf Hhi Hlo; [lia|]. cbn [find_prog_loop].
  destruct (Z.ltb_spec l r) as [Hlt|].
  - set (m := l + (r - l + 1) / 2). assert (l < m ≤ r) as Hm by (unfold m; Z.to_euclidean_division_equations; lia).
    destruct (lookup_lt_is_Some_2 progs (Z.to_nat m)) as [p Hp]; [lia|]. rewrite Hp. cbn [mbind option_bind].
    fold (starts_before p sec_idx insn_idx). destruct (starts_before p sec_idx insn_idx) eqn:Ep.
    + apply IH; try lia; [done|]. intros i q Hi Hi0 Hq. destruct (decide (i = Z.to_nat m)) as [->|]; [congruence|].
      by apply (Hmono i (Z.to_nat m) q p); [lia|..].
    + apply IH; try lia; [|done]. intros i q Hi Hq. destruct (decide (i = Z.to_nat m)) as [->|]; [congruence|].
      destruct (starts_before q sec_idx insn_idx) eqn:Eq; [|done]. rewrite <- Ep. symmetry.
      by apply (Hmono (Z.to_nat m) i p q); [lia|..].
  - exists (Z.to_nat l). assert (l = r) as <- by lia. split; [by rewrite Z2Nat.id by lia|]. split; [lia|]. split.
    + intros i p Hi. apply Hhi. lia.
    + intros i p Hi. apply Hlo; lia.
Qed.

(** The search finds the program that has the instruction, and nothing when there is none. *)
Lemma find_prog_spec progs sec_idx insn_idx : progs_sorted progs → Forall prog_range progs → progs ≠ [] →
  ∃ r, find_prog_by_sec_insn progs sec_idx insn_idx = Some r ∧
    match r with
    | Some k => ∃ p, progs !! k = Some p ∧ in_sec p sec_idx insn_idx
    | None => ∀ k p, progs !! k = Some p → ¬ in_sec p sec_idx insn_idx
    end.
Proof.
  intros Hs Hr Hne. unfold find_prog_by_sec_insn. assert (0 < length progs)%nat as Hlen by (destruct progs; cbn; [done|lia]).
  assert (∀ i p, progs !! i = Some p → prog_range p) as Hrange.
  { intros i p Hp. rewrite Forall_forall in Hr. apply Hr. by eapply list_elem_of_lookup_2. }
  destruct (find_prog_loop_spec (S (length progs)) progs sec_idx insn_idx 0 (Z.of_nat (length progs) - 1)) as (k & E & Hk & Hhi & Hlo); try lia.
  { intros i j p q Hij Hp Hq. pose proof (Hs i j p q Hij Hp Hq) as Hb. pose proof (Hrange i p Hp) as (? & ? & _).
    unfold starts_before, before in *. destruct (Z.ltb_spec (pg_sec_idx q) sec_idx), (Z.ltb_spec (pg_sec_idx p) sec_idx),
      (Z.eqb_spec (pg_sec_idx q) sec_idx), (Z.eqb_spec (pg_sec_idx p) sec_idx), (Z.leb_spec (pg_sec_insn_off q) insn_idx),
      (Z.leb_spec (pg_sec_insn_off p) insn_idx); cbn; try done; lia. }
  { intros i p Hi Hp. apply lookup_lt_Some in Hp. lia. }
  rewrite E. cbn [mbind option_bind]. rewrite Nat2Z.id. destruct (lookup_lt_is_Some_2 progs k Hk) as [p Hp]. rewrite Hp.
  cbn [mbind option_bind]. eexists. split; [done|]. pose proof (Hrange k p Hp) as (H1 & H2 & H3).
  assert ((pg_sec_idx p =? sec_idx) && prog_contains_insn p insn_idx = true ↔ in_sec p sec_idx insn_idx) as Hiff.
  { unfold prog_contains_insn, in_sec. rewrite wrap_small by (unfold in_u; lia).
    rewrite !andb_true_iff, Z.eqb_eq, Z.leb_le, Z.ltb_lt. done. }
  destruct ((pg_sec_idx p =? sec_idx) && prog_contains_insn p insn_idx); [exists p; split; [done|]; by apply Hiff|].
  intros j q Hq [Hsec Hin]. assert (¬ in_sec p sec_idx insn_idx) as Hn by (rewrite <- Hiff; done).
  destruct (lt_eq_lt_dec j k) as [[Hlt| ->]|Hgt].
  - assert (starts_before p sec_idx insn_idx = true) as Hb by (apply (Hlo k p); [lia|done]).
    pose proof (Hs j k q p Hlt Hq Hp) as [?|[E1 ?]]; unfold starts_before in Hb;
      destruct (Z.ltb_spec (pg_sec_idx p) sec_idx), (Z.eqb_spec (pg_sec_idx p) sec_idx), (Z.leb_spec (pg_sec_insn_off p) insn_idx);
      cbn in Hb; try done; lia.
  - simplify_eq. by apply Hn.
  - pose proof (Hhi j q Hgt Hq) as Hb. unfold starts_before in Hb.
    destruct (Z.ltb_spec (pg_sec_idx q) sec_idx), (Z.eqb_spec (pg_sec_idx q) sec_idx), (Z.leb_spec (pg_sec_insn_off q) insn_idx);
      cbn in Hb; try done; lia.
Qed.

(** The search for the program of an instruction ends and reads no program outside
    the list; it gives the program that has the instruction, which is the only one, and
    nothing when there is none. *)
Theorem find_prog_by_sec_insn_correct progs sec_idx insn_idx : progs_sorted progs → Forall prog_range progs → progs ≠ [] →
  ∃ r, find_prog_by_sec_insn progs sec_idx insn_idx = Some r ∧
    ∀ k, r = Some k ↔ ∃ p, progs !! k = Some p ∧ in_sec p sec_idx insn_idx.
Proof.
  intros Hs Hr Hne. destruct (find_prog_spec progs sec_idx insn_idx Hs Hr Hne) as (r & E & H). exists r. split; [done|].
  destruct r as [k|]; [|intros k; split; [done|]; intros (p & Hp & Hin); by destruct (H k p Hp)].
  destruct H as (p & Hp & Hin). intros k'. split; [intros [= <-]; by exists p|]. intros (p' & Hp' & Hin'). f_equal.
  unfold in_sec in *. destruct (lt_eq_lt_dec k k') as [[Hlt|?]|Hgt]; [|done|].
  - destruct (Hs k k' p p' Hlt Hp Hp') as [?|[??]]; lia.
  - destruct (Hs k' k p' p Hgt Hp' Hp) as [?|[??]]; lia.
Qed.

Definition search_demo : list bpf_program :=
  let prog sec off cnt := mkProg sec off cnt 0 [] cnt [] true (mkInfo None 0) (mkInfo None 0) in
  [prog 1 0 3; prog 1 3 4; prog 3 0 5].

Lemma find_prog_by_sec_insn_correct_witness :
  ∃ r, find_prog_by_sec_insn search_demo 1 5 = Some r ∧ ∀ k, r = Some k ↔ ∃ p, search_demo !! k = Some p ∧ in_sec p 1 5.
Proof.
  apply (find_prog_by_sec_insn_correct search_demo 1 5); [|by repeat constructor; cbn; lia|done].
  intros i j p q Hij Hp Hq. unfold before. do 3 (destruct i as [|i]; [do 3 (destruct j as [|j]; [cbn in *; simplify_eq; cbn; lia|]); done|]); done.
Defined.
