(* ===== verification/SubprogLink.v ===== *)
(** Linking functions into a program: which instructions the linked program has, where
    its calls go, which relocations and infos come with them, and that linking ends
    (bpf_object__relocate_calls of src/libbpf/src/libbpf.c). *)
From stdpp Require Import base list sets relations sorting.
From Stdlib Require Import ZArith Lia.
From S2P Require Import Prelude RelocCalc RelocPatch Subprog SubprogFind.

#[local] Open Scope Z_scope.

(** * The specification *)

(** The program that the instruction [insn] at [idx] of [p] calls, or whose address it
    loads: [Some None] when it is no such instruction, [None] when nothing is found. *)
Definition resolve (obj : bpf_object) (P : list bpf_program) (p : bpf_program) (idx : nat) (insn : bpf_insn)
    : option (option nat) :=
  if negb (insn_is_subprog_call insn) && negb (insn_is_pseudo_func insn) then Some None
  else
    let relo := find_prog_insn_relo p (Z.of_nat idx) in
    if bool_decide (rd_type <$> relo = Some RELO_EXTERN_FUNC) then Some None
    else
      match called_insn p (Z.of_nat idx) insn relo with
      | inr _ => None
      | inl s => found ← find_prog_by_sec_insn P (ob_text_shndx obj) s; k ← found; Some (Some k)
      end.

Definition calls (obj : bpf_object) (P : list bpf_program) (j k : nat) : Prop :=
  ∃ p idx insn, P !! j = Some p ∧ pg_insns p !! idx = Some insn ∧ resolve obj P p idx insn = Some (Some k).

Definition cnt (P : list bpf_program) (j : nat) : Z := from_option pg_sec_insn_cnt 0 (P !! j).

(** The instructions of the programs of [js], together. *)
Definition size (P : list bpf_program) (js : list nat) : Z := foldr (λ j, Z.add (cnt P j)) 0 js.

(** Where the program [k] begins when those of [js] are laid one behind the other from
    [base] on; 0 for a program that is not there. *)
Fixpoint off_from (P : list bpf_program) (base : Z) (js : list nat) (k : nat) : Z :=
  match js with
  | [] => 0
  | j :: js => if decide (k = j) then base else off_from P (base + cnt P j) js k
  end.

(** What [f] gives for each program of [js] and where it begins, laid out that way. *)
Fixpoint laid {A} (P : list bpf_program) (f : Z → nat → list A) (base : Z) (js : list nat) : list A :=
  match js with
  | [] => []
  | j :: js => f base j ++ laid P f (base + cnt P j) js
  end.

(** The layout of the program [m] with the subprograms [ord] behind it. *)
Definition off_of (P : list bpf_program) (m : nat) (ord : list nat) : nat → Z := off_from P 0 (m :: ord).

(** An instruction of a program that begins at [off] of the linked program: a call goes
    from where it is to where the callee begins. *)
Definition linked_insn (obj : bpf_object) (P : list bpf_program) (m : nat) (ord : list nat) (off : Z) (p : bpf_program)
    (idx : nat) (insn : bpf_insn) : bpf_insn :=
  match resolve obj P p idx insn with
  | Some (Some k) => set_imm insn (off_of P m ord k - (off + Z.of_nat idx) - 1)
  | _ => insn
  end.

Definition linked_code (obj : bpf_object) (P : list bpf_program) (m : nat) (ord : list nat) : list bpf_insn :=
  laid P (λ off j, match P !! j with Some p => imap (linked_insn obj P m ord off p) (pg_insns p) | None => [] end)
    0 (m :: ord).

Definition moved_relo (off : Z) (r : reloc_desc) : reloc_desc :=
  mkRelo (rd_type r) (rd_insn_idx r + off) (rd_map_idx r) (rd_sym_off r).

(** The relocations of the linked program, at the places of their instructions. *)
Definition linked_relocs (P : list bpf_program) (m : nat) (ord : list nat) : list reloc_desc :=
  laid P (λ off j, map (moved_relo off) (from_option pg_relocs [] (P !! j))) 0 (m :: ord).

(** The records of [ext] that are about [p]. *)
Definition ext_recs (ext : btf_ext_info) (p : bpf_program) : option (list ext_rec) :=
  s ← list_find (λ s, s.1 = pg_sec_idx p) (ei_secs ext); ext_copy p s.2.2 [] None.

Definition moved_rec (off : Z) (p : bpf_program) (r : ext_rec) : ext_rec :=
  mkRec (u32 (er_insn_off r / BPF_INSN_SZ + s32 (off - pg_sec_insn_off p))) (er_rest r).

Definition linked_recs (P : list bpf_program) (m : nat) (ord : list nat) (ext : btf_ext_info) : list ext_rec :=
  laid P (λ off j, match P !! j with
                   | Some p => map (moved_rec off p) (default [] (ext_recs ext p))
                   | None => [] end) 0 (m :: ord).

Definition linked_info (P : list bpf_program) (m : nat) (ord : list nat) (ext : btf_ext_info) (info : prog_info) : prog_info :=
  mkInfo (Some (default [] (pi_recs info) ++ linked_recs P m ord ext)) (ei_rec_size ext).

(** The infos that are linked, when there are. *)
Definition used_ext (obj : bpf_object) : option (btf_ext_info * btf_ext_info) :=
  if ob_btf_func_ok obj then ob_btf_ext obj else None.

(** The main program [M] with the subprograms [ord] behind it. *)
Definition linked_main (obj : bpf_object) (P : list bpf_program) (m : nat) (M : bpf_program) (code : list bpf_insn)
    (ord : list nat) : bpf_program :=
  mkProg (pg_sec_idx M) (pg_sec_insn_off M) (pg_sec_insn_cnt M) 0 code (size P (m :: ord)) (linked_relocs P m ord)
    (pg_autoload M)
    (match used_ext obj with Some (f, _) => linked_info P m ord f (pg_func_info M) | None => pg_func_info M end)
    (match used_ext obj with Some (_, l) => linked_info P m ord l (pg_line_info M) | None => pg_line_info M end).

(** The programs when [m] has been linked: a subprogram keeps where it is in [m], and
    nothing else of another program has changed. *)
Definition linked_progs (obj : bpf_object) (P : list bpf_program) (m : nat) (code : list bpf_insn) (ord : list nat)
    : list bpf_program :=
  imap (λ j p, if decide (j = m) then linked_main obj P m p code ord
               else if prog_is_subprog obj P p then with_sub_off p (off_of P m ord j) else p) P.

(** A program as it comes out of its section, with its relocations sorted. *)
Definition prog_ok (p : bpf_program) : Prop :=
  length (pg_insns p) = Z.to_nat (pg_sec_insn_cnt p) ∧ pg_insns_cnt p = pg_sec_insn_cnt p ∧
  relos_sorted (pg_relocs p) ∧ Forall (λ r, 0 ≤ rd_insn_idx r < pg_sec_insn_cnt p) (pg_relocs p).

(** Programs of which [m] can be linked: it is no subprogram and not linked yet, and
    every call of what it reaches is found, and so are the infos. *)
Record linkable (obj : bpf_object) (P : list bpf_program) (m : nat) (M : bpf_program) : Prop := {
  lk_main : P !! m = Some M;
  lk_entry : pg_sec_idx M ≠ ob_text_shndx obj;
  lk_fresh : pg_sub_insn_off M = 0;
  lk_sorted : progs_sorted P;
  lk_range : Forall prog_range P;
  lk_ok : ∀ j p, P !! j = Some p → rtc (calls obj P) m j → prog_ok p;
  lk_total : size P (seq 0 (length P)) < 2 ^ 31;
  lk_calls : ∀ j p idx insn, rtc (calls obj P) m j → P !! j = Some p → pg_insns p !! idx = Some insn →
    is_Some (resolve obj P p idx insn);
  lk_infos : ∀ f l j p, used_ext obj = Some (f, l) → rtc (calls obj P) m j → P !! j = Some p →
    is_Some (ext_recs f p) ∧ is_Some (ext_recs l p);
}.

(** * Layouts *)

Section layout.
Context (P : list bpf_program).

Lemma size_cons j js : size P (j :: js) = cnt P j + size P js.
Proof. done. Qed.

Lemma size_one j : size P [j] = cnt P j.
Proof. apply Z.add_0_r. Qed.

Lemma size_app a b : size P (a ++ b) = size P a + size P b.
Proof. induction a as [|j a IH]; cbn; [done|]. unfold size in *. lia. Qed.

Lemma laid_app {A} (f : Z → nat → list A) base a b : laid P f base (a ++ b) = laid P f base a ++ laid P f (base + size P a) b.
Proof.
  revert base. induction a as [|j a IH]; intros base; cbn; [by rewrite Z.add_0_r|].
  rewrite IH, app_assoc. do 2 f_equal. unfold size. lia.
Qed.

Lemma off_from_app base a b k :
  off_from P base (a ++ b) k = if decide (k ∈ a) then off_from P base a k else off_from P (base + size P a) b k.
Proof.
  revert base. induction a as [|j a IH]; intros base; cbn.
  - rewrite decide_False by set_solver. by rewrite Z.add_0_r.
  - destruct (decide (k = j)) as [->|Hne]; [by rewrite decide_True by set_solver|]. rewrite IH.
    destruct (decide (k ∈ a)); [by rewrite decide_True by set_solver|]. rewrite decide_False by set_solver.
    f_equal. unfold size. lia.
Qed.

Lemma off_from_notin base a k : k ∉ a → off_from P base a k = 0.
Proof.
  revert base. induction a as [|j a IH]; intros base Hk; cbn; [done|].
  rewrite decide_False by set_solver. apply IH. set_solver.
Qed.

Hypothesis Hrange : Forall prog_range P.

Lemma range_of j p : P !! j = Some p → prog_range p.
Proof. intros. rewrite Forall_forall in Hrange. apply Hrange. by eapply list_elem_of_lookup_2. Qed.

Lemma cnt_nonneg j : 0 ≤ cnt P j.
Proof. unfold cnt. destruct (P !! j) as [p|] eqn:E; cbn; [|done]. destruct (range_of j p E) as (? & ? & ?). lia. Qed.

Lemma cnt_pos j p : P !! j = Some p → cnt P j = pg_sec_insn_cnt p ∧ 0 < cnt P j.
Proof. intros E. unfold cnt. rewrite E. cbn. destruct (range_of j p E) as (? & ? & ?). lia. Qed.

Lemma size_nonneg js : 0 ≤ size P js.
Proof. induction js as [|j js IH]; cbn; [done|]. pose proof (cnt_nonneg j). unfold size in IH. lia. Qed.

Lemma off_from_range base a k : k ∈ a → base ≤ off_from P base a k ∧ off_from P base a k + cnt P k ≤ base + size P a.
Proof.
  revert base. induction a as [|j a IH]; intros base Hk; [by apply elem_of_nil in Hk|]. cbn.
  pose proof (size_nonneg a). pose proof (cnt_nonneg j). unfold size in *.
  destruct (decide (k = j)) as [->|Hne]; [lia|]. apply elem_of_cons in Hk as [?|Hk]; [done|].
  destruct (IH (base + cnt P j) Hk). lia.
Qed.

(** Two programs of a layout do not overlap. *)
Lemma off_from_apart base a j k : NoDup a → j ∈ a → k ∈ a → j ≠ k →
  off_from P base a j + cnt P j ≤ off_from P base a k ∨ off_from P base a k + cnt P k ≤ off_from P base a j.
Proof.
  revert base. induction a as [|x a IH]; intros base Hnd Hj Hk Hne; [by apply elem_of_nil in Hj|]. cbn.
  apply NoDup_cons in Hnd as [Hx Hnd]. rewrite elem_of_cons in Hj, Hk.
  destruct (decide (j = x)) as [->|], (decide (k = x)) as [->|]; try done.
  - left. destruct Hk as [?|Hk]; [done|]. apply (off_from_range (base + cnt P x) a k Hk).
  - right. destruct Hj as [?|Hj]; [done|]. apply (off_from_range (base + cnt P x) a j Hj).
  - destruct Hj as [?|Hj], Hk as [?|Hk]; try done. by apply IH.
Qed.

(** Every place is in one of the programs. *)
Lemma off_from_cover base a n : NoDup a → base ≤ n < base + size P a →
  ∃ k, k ∈ a ∧ off_from P base a k ≤ n < off_from P base a k + cnt P k.
Proof.
  revert base. induction a as [|j a IH]; intros base Hnd Hn; cbn in *; [lia|]. apply NoDup_cons in Hnd as [Hj Hnd].
  destruct (decide (n < base + cnt P j)) as [Hlt|Hge].
  - exists j. rewrite decide_True by done. split; [set_solver|lia].
  - destruct (IH (base + cnt P j) Hnd) as (k & Hk & Hr); [unfold size in *; lia|]. exists k.
    rewrite decide_False by (intros ->; done). split; [set_solver|lia].
Qed.

Lemma size_perm a b : a ≡ₚ b → size P a = size P b.
Proof. unfold size. induction 1; cbn; lia. Qed.

(** What is laid out is no more than all programs. *)
Lemma size_bound a : NoDup a → (∀ j, j ∈ a → is_Some (P !! j)) → size P a ≤ size P (seq 0 (length P)).
Proof.
  intros Hnd Hin. assert (a ⊆+ seq 0 (length P)) as Hs.
  { apply NoDup_submseteq; [done|]. intros j Hj. apply elem_of_seq. apply Hin, lookup_lt_is_Some in Hj. lia. }
  apply submseteq_Permutation in Hs as [b Hb]. rewrite (size_perm _ _ Hb), size_app. pose proof (size_nonneg b). lia.
Qed.

Lemma laid_lookup {A} (f : Z → nat → list A) base a k : 0 ≤ base → NoDup a → k ∈ a →
  (∀ off j, j ∈ a → Z.of_nat (length (f off j)) = cnt P j) →
  ∀ i, (i < length (f (off_from P base a k) k))%nat →
    laid P f base a !! (Z.to_nat (off_from P base a k - base) + i)%nat = f (off_from P base a k) k !! i.
Proof.
  revert base. induction a as [|j a IH]; intros base Hb Hnd Hk Hlen i Hi; [by apply elem_of_nil in Hk|].
  apply NoDup_cons in Hnd as [Hj Hnd]. cbn in *. destruct (decide (k = j)) as [->|Hne].
  - rewrite Z.sub_diag. cbn. by rewrite lookup_app_l.
  - apply elem_of_cons in Hk as [?|Hk]; [done|]. pose proof (cnt_nonneg j).
    destruct (off_from_range (base + cnt P j) a k Hk) as [Hr _].
    pose proof (Hlen base j ltac:(set_solver)) as Hl. rewrite lookup_app_r by lia.
    rewrite <- (IH (base + cnt P j)); [|lia|done|done|intros; apply Hlen; set_solver|done]. f_equal. lia.
Qed.

Lemma length_laid {A} (f : Z → nat → list A) base a :
  (∀ off j, j ∈ a → Z.of_nat (length (f off j)) = cnt P j) → Z.of_nat (length (laid P f base a)) = size P a.
Proof.
  revert base. induction a as [|j a IH]; intros base Hlen; cbn; [done|]. rewrite length_app, Nat2Z.inj_add, Hlen by set_solver.
  rewrite IH; [done|]. intros. apply Hlen. set_solver.
Qed.
End layout.

(** * The linker *)

(** What of a program the searches look at. *)
Definition sec_key (p : bpf_program) : Z * Z * Z := (pg_sec_idx p, pg_sec_insn_off p, pg_sec_insn_cnt p).

Lemma sec_key_lookup (P Q : list bpf_program) (i : nat) : sec_key <$> P = sec_key <$> Q →
  match P !! i, Q !! i with
  | Some p, Some q => pg_sec_idx p = pg_sec_idx q ∧ pg_sec_insn_off p = pg_sec_insn_off q ∧ pg_sec_insn_cnt p = pg_sec_insn_cnt q
  | None, None => True
  | _, _ => False
  end.
Proof.
  intros E. apply (f_equal (lookup i)) in E. rewrite !list_lookup_fmap in E.
  destruct (P !! i), (Q !! i); cbn in E; try done. unfold sec_key in E. by simplify_eq.
Qed.

Lemma find_prog_key (P Q : list bpf_program) sec_idx insn_idx : sec_key <$> P = sec_key <$> Q →
  find_prog_by_sec_insn P sec_idx insn_idx = find_prog_by_sec_insn Q sec_idx insn_idx.
Proof.
  intros E. assert (length P = length Q) as El by (apply (f_equal length) in E; by rewrite !length_fmap in E).
  assert (∀ fuel l r, find_prog_loop fuel P sec_idx insn_idx l r = find_prog_loop fuel Q sec_idx insn_idx l r) as Hl.
  { induction fuel as [|fuel IH]; intros l r; [done|]. cbn. destruct (l <? r); [|done].
    pose proof (sec_key_lookup P Q (Z.to_nat (l + (r - l + 1) / 2)) E) as Hk.
    destruct (P !! _), (Q !! _); try done. cbn.
    destruct Hk as (-> & -> & _). by rewrite !IH. }
  unfold find_prog_by_sec_insn. rewrite Hl, El. destruct (find_prog_loop _ Q _ _ _ _) as [l|]; cbn; [|done].
  pose proof (sec_key_lookup P Q (Z.to_nat l) E) as Hk. destruct (P !! _), (Q !! _); try done. cbn. unfold prog_contains_insn. by destruct Hk as (-> & -> & ->).
Qed.

(** The program that a call reaches is in the section of the subprograms. *)
Lemma resolve_text obj P p idx insn k : progs_sorted P → Forall prog_range P → resolve obj P p idx insn = Some (Some k) →
  ∃ q, P !! k = Some q ∧ pg_sec_idx q = ob_text_shndx obj.
Proof.
  intros Hs Hr. unfold resolve. destruct (negb _ && negb _); [done|]. case_bool_decide; [done|].
  destruct (called_insn _ _ _ _) as [s|]; [|done].
  assert (P ≠ [] ∨ P = []) as [Hne| ->] by (destruct P; auto); [|done].
  destruct (find_prog_spec P (ob_text_shndx obj) s Hs Hr Hne) as (r & -> & Hf). cbn. destruct r as [k'|]; cbn; [|done].
  intros [= ->]. destruct Hf as (q & ? & ? & _). by exists q.
Qed.

(** The fewest rounds that suffice for the subprograms that are not laid out yet. *)
Definition rounds (P : list bpf_program) (js : list nat) : nat :=
  sum_list_with (λ k, if decide (k ∈ js) then O else S (Z.to_nat (cnt P k))) (seq 0 (length P)).

Lemma sum_list_with_le {A} (f g : A → nat) l : (∀ x, x ∈ l → f x ≤ g x)%nat → (sum_list_with f l ≤ sum_list_with g l)%nat.
Proof. induction l as [|x l IH]; intros H; cbn; [done|]. pose proof (H x ltac:(set_solver)). specialize (IH ltac:(set_solver)). lia. Qed.

Lemma sum_list_with_one {A} (f g : A → nat) l x d : NoDup l → x ∈ l → f x = (g x + d)%nat → (∀ y, y ∈ l → y ≠ x → f y = g y) →
  sum_list_with f l = (sum_list_with g l + d)%nat.
Proof.
  induction l as [|y l IH]; intros Hnd Hx Hd He; [by apply elem_of_nil in Hx|]. apply NoDup_cons in Hnd as [Hy Hnd]. cbn.
  assert (∀ z, z ∈ l → z ≠ x → f z = g z) as He' by (intros; apply He; set_solver).
  apply elem_of_cons in Hx as [->|Hx].
  - assert (sum_list_with f l = sum_list_with g l) as ->; [|lia].
    assert (∀ z, z ∈ l → f z = g z) as Hz by (intros z Hz; apply He'; [done|by intros ->]). clear -Hz.
    induction l as [|z l IH]; cbn; [done|]. rewrite (Hz z), IH; set_solver.
  - rewrite IH by done. rewrite (He y); [lia|set_solver|by intros ->].
Qed.

Lemma rounds_app P a b : (rounds P (a ++ b) ≤ rounds P a)%nat.
Proof. apply sum_list_with_le. intros k _. destruct (decide (k ∈ a)); [by rewrite decide_True by set_solver|]. case_decide; lia. Qed.

Lemma rounds_new P a k : k ∉ a → (k < length P)%nat → rounds P a = (rounds P (a ++ [k]) + S (Z.to_nat (cnt P k)))%nat.
Proof.
  intros Hk Hlt. apply (sum_list_with_one _ _ _ k); [apply NoDup_seq|apply elem_of_seq; lia| |].
  - rewrite decide_False by done. by rewrite decide_True by set_solver.
  - intros y _ Hy. destruct (decide (y ∈ a)); [by rewrite decide_True by set_solver|]. by rewrite decide_False by set_solver.
Qed.

Lemma rounds_start P : (rounds P [] < reloc_fuel P)%nat.
Proof.
  unfold rounds, reloc_fuel. enough (sum_list_with (λ k, if decide (k ∈ []) then O else S (Z.to_nat (cnt P k))) (seq 0 (length P))
    = sum_list_with (λ p, S (Z.to_nat (pg_sec_insn_cnt p))) P) as -> by lia.
  induction P as [|p P' IH] using rev_ind; [done|]. rewrite length_app, seq_app, !sum_list_with_app. cbn [length seq sum_list_with].
  f_equal.
  - rewrite <- IH. apply Nat.le_antisymm; apply sum_list_with_le; intros k Hk%elem_of_seq; unfold cnt; by rewrite lookup_app_l by lia.
  - unfold cnt. rewrite lookup_app_r by lia. by rewrite Nat.add_0_l, Nat.sub_diag.
Qed.

Lemma reloc_fuel_map (g : bpf_program → bpf_program) P : (∀ p, pg_sec_insn_cnt (g p) = pg_sec_insn_cnt p) → reloc_fuel (map g P) = reloc_fuel P.
Proof. intros Hg. unfold reloc_fuel. f_equal. induction P as [|p l IH]; cbn; [done|]. by rewrite Hg, IH. Qed.

Lemma prog_eta p : p = mkProg (pg_sec_idx p) (pg_sec_insn_off p) (pg_sec_insn_cnt p) (pg_sub_insn_off p) (pg_insns p) (pg_insns_cnt p)
  (pg_relocs p) (pg_autoload p) (pg_func_info p) (pg_line_info p).
Proof. by destruct p. Qed.

Section link.
Context (obj : bpf_object) (P : list bpf_program) (m : nat) (M : bpf_program) (LK : linkable obj P m M).

Notation reaches := (rtc (calls obj P) m).
Notation off := (off_of P m).

Let Hrange : Forall prog_range P := lk_range _ _ _ _ LK.

Lemma calls_text j k : calls obj P j k → ∃ q, P !! k = Some q ∧ pg_sec_idx q = ob_text_shndx obj.
Proof. intros (p & idx & insn & _ & _ & Hr). eapply resolve_text; [apply LK|apply LK|done]. Qed.

Lemma calls_not_main j k : calls obj P j k → k ≠ m.
Proof. intros (q & Hq & Ht)%calls_text ->. rewrite (lk_main _ _ _ _ LK) in Hq. simplify_eq. by apply (lk_entry _ _ _ _ LK). Qed.

Lemma reaches_some j : reaches j → is_Some (P !! j).
Proof.
  intros Hr. destruct (rtc_inv_r _ _ Hr) as [<-|(k & _ & (q & Hq & _)%calls_text)]; [|by exists q].
  exists M. apply LK.
Qed.

Lemma callee_is_subprog k q : P !! k = Some q → pg_sec_idx q = ob_text_shndx obj → prog_is_subprog obj P q = true.
Proof.
  intros Hq Ht. unfold prog_is_subprog. apply andb_true_iff. split; [by apply Z.eqb_eq|]. apply Z.ltb_lt.
  assert (k ≠ m) by (intros ->; rewrite (lk_main _ _ _ _ LK) in Hq; simplify_eq; by apply (lk_entry _ _ _ _ LK)).
  apply lookup_lt_Some in Hq. pose proof (lookup_lt_Some _ _ _ (lk_main _ _ _ _ LK)). lia.
Qed.

(** The subprograms laid out behind the main program. *)
Definition ord_ok (ord : list nat) : Prop :=
  NoDup (m :: ord) ∧ ∀ k, k ∈ ord → reaches k ∧ ∃ q, P !! k = Some q ∧ pg_sec_idx q = ob_text_shndx obj.

(** [code] is the linked code, of each program [j] up to the instruction [lim j]. *)
Definition code_ok (ord : list nat) (lim : nat → nat) (code : list bpf_insn) : Prop :=
  Z.of_nat (length code) = size P (m :: ord) ∧ (∀ k, k ∉ m :: ord → lim k = O) ∧
  ∀ j p i insn, j ∈ m :: ord → P !! j = Some p → pg_insns p !! i = Some insn →
    code !! (Z.to_nat (off ord j) + i)%nat =
      Some (if (i <? lim j)%nat then linked_insn obj P m ord (off ord j) p i insn else insn) ∧
    ((i < lim j)%nat → ∀ k, resolve obj P p i insn = Some (Some k) → k ∈ ord).

Lemma ord_reaches ord j : ord_ok ord → j ∈ m :: ord → reaches j.
Proof. intros [_ H] [->|Hj]%elem_of_cons; [done|]. by apply H. Qed.

Lemma ord_some ord j : ord_ok ord → j ∈ m :: ord → is_Some (P !! j).
Proof. intros. by eapply reaches_some, ord_reaches. Qed.

Lemma ord_size ord : ord_ok ord → 0 < size P (m :: ord) < 2 ^ 31.
Proof.
  intros Ho. pose proof (size_bound P Hrange (m :: ord) ltac:(apply Ho) (λ j, ord_some ord j Ho)). pose proof (lk_total _ _ _ _ LK).
  destruct (cnt_pos P Hrange m M) as [_ ?]; [apply LK|]. pose proof (size_nonneg P Hrange ord). rewrite size_cons in *. lia.
Qed.

Lemma off_main ord : off ord m = 0.
Proof. unfold off_of. cbn. by rewrite decide_True. Qed.

Lemma off_old ord more j : j ∈ m :: ord → off (ord ++ more) j = off ord j.
Proof. intros Hj. unfold off_of. rewrite app_comm_cons, off_from_app. by rewrite decide_True. Qed.

Lemma off_new ord s : s ∉ m :: ord → off (ord ++ [s]) s = size P (m :: ord).
Proof. intros Hs. unfold off_of. rewrite app_comm_cons, off_from_app. rewrite decide_False by done. cbn. by rewrite decide_True. Qed.

Lemma off_out ord j : j ∉ m :: ord → off ord j = 0.
Proof. apply off_from_notin. Qed.

Lemma off_bounds ord j : ord_ok ord → j ∈ m :: ord → 0 ≤ off ord j ∧ off ord j + cnt P j ≤ size P (m :: ord) ∧ size P (m :: ord) < 2 ^ 31.
Proof. intros Ho Hj. destruct (off_from_range P Hrange 0 (m :: ord) j Hj). pose proof (ord_size ord Ho). unfold off_of. lia. Qed.

(** A subprogram is laid out exactly when its place is not 0. *)
Lemma off_zero ord k : ord_ok ord → k ≠ m → off ord k = 0 ↔ k ∉ ord.
Proof.
  intros Ho Hk. split; [|intros; apply off_out; set_solver]. intros H0 Hin.
  destruct Ho as [Hnd _]. unfold off_of in H0. cbn in H0. rewrite decide_False in H0 by done.
  destruct (off_from_range P Hrange (0 + cnt P m) ord k Hin) as [? _].
  destruct (cnt_pos P Hrange m M) as [_ ?]; [apply LK|]. change (0 + cnt P m) with (cnt P m) in *. lia.
Qed.

(** * Reading the state *)

Notation progs := (linked_progs obj P m).

Lemma progs_lookup code ord j :
  progs code ord !! j = (λ p, if decide (j = m) then linked_main obj P m p code ord
                              else if prog_is_subprog obj P p then with_sub_off p (off ord j) else p) <$> P !! j.
Proof. unfold linked_progs. by rewrite list_lookup_imap. Qed.

Lemma progs_main code ord : progs code ord !! m = Some (linked_main obj P m M code ord).
Proof. rewrite progs_lookup, (lk_main _ _ _ _ LK). cbn. by rewrite decide_True. Qed.

Lemma progs_sub code ord k q : P !! k = Some q → pg_sec_idx q = ob_text_shndx obj →
  progs code ord !! k = Some (with_sub_off q (off ord k)).
Proof.
  intros Hq Ht. rewrite progs_lookup, Hq. cbn. rewrite decide_False, (callee_is_subprog k q) by
    (done || by intros ->; rewrite (lk_main _ _ _ _ LK) in Hq; simplify_eq; apply (lk_entry _ _ _ _ LK)). done.
Qed.

Lemma progs_key code ord : sec_key <$> progs code ord = sec_key <$> P.
Proof.
  apply list_eq. intros j. rewrite !list_lookup_fmap, progs_lookup. destruct (P !! j) as [p|]; cbn; [|done].
  destruct (decide (j = m)); [done|]. by destruct (prog_is_subprog obj P p).
Qed.

Lemma length_progs code ord : length (progs code ord) = length P.
Proof. unfold linked_progs. by rewrite length_imap. Qed.

(** Replacing the linked main program. *)
Lemma progs_set_main code ord code' : set_prog (progs code ord) m (linked_main obj P m M code' ord) = progs code' ord.
Proof.
  apply list_eq. intros j. unfold set_prog. destruct (decide (j = m)) as [->|Hj].
  - rewrite progs_main. apply list_lookup_insert_eq. rewrite length_progs. eapply lookup_lt_Some, LK.
  - rewrite list_lookup_insert_ne by done. rewrite !progs_lookup. destruct (P !! j); cbn; [|done]. by rewrite !decide_False by done.
Qed.
(** * Relocations *)

Lemma ord_ok_prog ord j p : ord_ok ord → j ∈ m :: ord → P !! j = Some p → prog_ok p.
Proof. intros Ho Hj Hp. apply (lk_ok _ _ _ _ LK j p Hp). by eapply ord_reaches. Qed.

(** The relocations laid out are sorted and stay where their programs are. *)
Lemma laid_relocs base js : (∀ j p, j ∈ js → P !! j = Some p → prog_ok p) →
  let l := laid P (λ off j, map (moved_relo off) (from_option pg_relocs [] (P !! j))) base js in
  relos_sorted l ∧ Forall (λ r, base ≤ rd_insn_idx r < base + size P js) l.
Proof.
  revert base. induction js as [|j js IH]; intros base Hok; cbn [laid]; [split; constructor|].
  destruct (IH (base + cnt P j)) as [Hs Hb]; [intros j' p Hj' Hp; apply (Hok j' p); [set_solver|done]|].
  assert (relos_sorted (map (moved_relo base) (from_option pg_relocs [] (P !! j))) ∧
          Forall (λ r, base ≤ rd_insn_idx r < base + cnt P j) (map (moved_relo base) (from_option pg_relocs [] (P !! j)))) as [Hs1 Hb1].
  { destruct (P !! j) as [p|] eqn:Hp; cbn [from_option map]; [|split; constructor].
    destruct (Hok j p ltac:(set_solver) Hp) as (_ & _ & Hsp & Hbp). destruct (cnt_pos P Hrange j p Hp) as [-> _]. split.
    - clear -Hsp. induction Hsp as [|x l Hl IHl Hx]; cbn; constructor; [done|]. apply Forall_map.
      eapply Forall_impl; [done|]. cbn. intros. lia.
    - apply Forall_map. eapply Forall_impl; [done|]. cbn. intros. lia. }
  pose proof (cnt_nonneg P Hrange j). pose proof (size_nonneg P Hrange js). rewrite size_cons. split.
  - apply StronglySorted_app_2; [|done..]. intros x y Hx Hy. rewrite Forall_forall in Hb, Hb1.
    specialize (Hb y Hy). specialize (Hb1 x Hx). cbn in *. lia.
  - apply Forall_app. split; (eapply Forall_impl; [done|]); cbn; intros; lia.
Qed.

Lemma sorted_find p key r : relos_sorted (pg_relocs p) → Forall (λ r, 0 ≤ rd_insn_idx r < 2 ^ 64) (pg_relocs p) →
  r ∈ pg_relocs p → rd_insn_idx r = key → find_prog_insn_relo p key = Some r.
Proof.
  intros Hs Hb Hr Hk. pose proof (find_relo_spec p key Hs Hb) as H. destruct (find_prog_insn_relo p key) as [r'|]; [|by eapply H in Hr].
  destruct H as [Hr' Hk']. f_equal. apply list_elem_of_lookup in Hr as [i Hi]. apply list_elem_of_lookup in Hr' as [i' Hi'].
  destruct (lt_eq_lt_dec i i') as [[Hlt| ->]|Hgt]; [|congruence|].
  - pose proof (sorted_lookup _ _ _ _ _ Hs Hlt Hi Hi'). lia.
  - pose proof (sorted_lookup _ _ _ _ _ Hs Hgt Hi' Hi). lia.
Qed.

Lemma moved_relo_0 l : map (moved_relo 0) l = l.
Proof. induction l as [|r l IH]; cbn; [done|]. rewrite IH. unfold moved_relo. rewrite Z.add_0_r. by destruct r. Qed.

(** The relocations appended are about later instructions. *)
Lemma main_relo code ord i : ord_ok ord → 0 ≤ i < cnt P m →
  find_prog_insn_relo (linked_main obj P m M code ord) i = find_prog_insn_relo M i.
Proof.
  intros Ho Hi. destruct (laid_relocs 0 (m :: ord)) as [Hs Hb]; [intros; by eapply ord_ok_prog|].
  destruct (laid_relocs (0 + cnt P m) ord) as [_ Hlate]; [intros j p Hj Hp; apply (ord_ok_prog ord j p Ho); [set_solver|done]|].
  pose proof (ord_size ord Ho) as Hsz. destruct (ord_ok_prog ord m M Ho ltac:(set_solver) (lk_main _ _ _ _ LK)) as (_ & _ & HsM & HbM).
  assert (linked_relocs P m ord = pg_relocs M ++ laid P (λ off j, map (moved_relo off) (from_option pg_relocs [] (P !! j))) (0 + cnt P m) ord) as E.
  { unfold linked_relocs. cbn [laid]. rewrite (lk_main _ _ _ _ LK). cbn [from_option]. by rewrite moved_relo_0. }
  assert (Forall (λ r, 0 ≤ rd_insn_idx r < 2 ^ 64) (pg_relocs (linked_main obj P m M code ord))) as Hb64.
  { eapply Forall_impl; [apply Hb|]. intros r Hr. cbv beta in Hr. lia. }
  pose proof (find_relo_spec M i HsM) as HM. destruct (find_prog_insn_relo M i) as [r|].
  - destruct HM as [Hr Hri].
    { eapply Forall_impl; [apply HbM|]. cbn. destruct (cnt_pos P Hrange m M) as [<- _]; [apply LK|]. rewrite size_cons in Hsz.
      pose proof (size_nonneg P Hrange ord). intros. lia. }
    apply sorted_find; [done..| |done]. change (r ∈ linked_relocs P m ord). rewrite E. set_solver.
  - pose proof (find_relo_spec (linked_main obj P m M code ord) i Hs Hb64) as HL.
    destruct (find_prog_insn_relo (linked_main obj P m M code ord) i) as [r|]; [|done]. destruct HL as [Hr Hri]. exfalso.
    change (r ∈ linked_relocs P m ord) in Hr. rewrite E in Hr. apply elem_of_app in Hr as [Hr|Hr].
    + eapply HM; [|done..]. eapply Forall_impl; [apply HbM|]. cbn. destruct (cnt_pos P Hrange m M) as [<- _]; [apply LK|].
      rewrite size_cons in Hsz. pose proof (size_nonneg P Hrange ord). intros. lia.
    + rewrite Forall_forall in Hlate. specialize (Hlate r Hr). cbv beta in Hlate. lia.
Qed.

(** What the loop reads of a program that is laid out. *)
Lemma progs_read code ord j p : ord_ok ord → j ∈ m :: ord → P !! j = Some p →
  ∃ p', progs code ord !! j = Some p' ∧ pg_sub_insn_off p' = off ord j ∧ pg_sec_insn_cnt p' = pg_sec_insn_cnt p ∧
    pg_sec_insn_off p' = pg_sec_insn_off p ∧
    ∀ i, 0 ≤ i < pg_sec_insn_cnt p → find_prog_insn_relo p' i = find_prog_insn_relo p i.
Proof.
  intros Ho Hj Hp. apply elem_of_cons in Hj as [->|Hj].
  - rewrite (lk_main _ _ _ _ LK) in Hp. injection Hp as <-. eexists. split; [apply progs_main|]. rewrite off_main.
    split_and!; try done. intros i Hi. apply main_relo; [done|]. destruct (cnt_pos P Hrange m M) as [-> _]; [apply LK|done].
  - destruct (proj2 Ho j Hj) as (_ & q & Hq & Ht). simplify_eq. eexists. split; [by apply progs_sub|]. done.
Qed.
(** * Infos *)

Lemma ext_recs_sub ext p o : ext_recs ext (with_sub_off p o) = ext_recs ext p.
Proof.
  unfold ext_recs. change (pg_sec_idx (with_sub_off p o)) with (pg_sec_idx p).
  destruct (list_find _ _) as [[i [x l]]|]; [|done]. cbn.
  generalize (@None (list ext_rec)). generalize (@nil ext_rec). induction l as [|r l IH]; intros pend c; cbn; [done|].
  by rewrite !IH.
Qed.

Definition add_info (ext : btf_ext_info) (p : bpf_program) (info : prog_info) : prog_info :=
  mkInfo (Some (default [] (pi_recs info) ++ map (moved_rec (pg_sub_insn_off p) p) (default [] (ext_recs ext p)))) (ei_rec_size ext).

Lemma adjust_found p ext info : is_Some (ext_recs ext p) → adjust_prog_btf_ext_info p ext info [] = (add_info ext p info, 0, []).
Proof.
  unfold adjust_prog_btf_ext_info, add_info, ext_recs. intros [recs Hr].
  destruct (list_find _ (ei_secs ext)) as [[i [x l]]|]; [|done]. cbn in Hr |- *. by rewrite Hr.
Qed.

Lemma reloc_one_found same p ext info : is_Some (ext_recs ext p) → same = true ∨ is_set_info info = true →
  reloc_one_info same p ext info [] = (add_info ext p info, 0, []).
Proof. intros Hr Hs. unfold reloc_one_info. rewrite adjust_found by done. destruct Hs as [->| ->]; cbn; [done|by rewrite andb_false_r]. Qed.

Lemma infos_found st k mp p : st_progs st !! m = Some mp → st_progs st !! k = Some p → st_alloc st = [] →
  (∀ f l, used_ext obj = Some (f, l) → is_Some (ext_recs f p) ∧ is_Some (ext_recs l p) ∧
    (k = m ∨ is_set_info (pg_func_info mp) = true ∧ is_set_info (pg_line_info mp) = true)) →
  reloc_prog_func_and_line_info obj st m k =
    Some (mkState (match used_ext obj with
                   | Some (f, l) => set_prog (st_progs st) m (with_infos mp (add_info f p (pg_func_info mp)) (add_info l p (pg_line_info mp)))
                   | None => st_progs st end) [], 0).
Proof.
  destruct st as [progs alloc]. cbn [st_progs st_alloc]. intros Hm Hk -> Hi. unfold reloc_prog_func_and_line_info, used_ext in *.
  destruct (ob_btf_ext obj) as [[f l]|]; [|by destruct (ob_btf_func_ok obj)]. destruct (ob_btf_func_ok obj); [|done].
  cbn [negb st_progs st_alloc]. rewrite Hm, Hk. cbn [mbind option_bind].
  destruct (Hi f l eq_refl) as (Hf & Hl & Hs).
  rewrite (reloc_one_found _ p f) by (done || (destruct Hs as [->|[? _]]; [left; by rewrite bool_decide_true|by right])). cbn [Z.eqb negb].
  rewrite (reloc_one_found _ p l) by (done || (destruct Hs as [->|[_ ?]]; [left; by rewrite bool_decide_true|by right])). done.
Qed.

(** * A subprogram behind the others *)

Lemma linked_recs_new ord s q ext : s ∉ m :: ord → P !! s = Some q →
  linked_recs P m (ord ++ [s]) ext = linked_recs P m ord ext ++ map (moved_rec (size P (m :: ord)) q) (default [] (ext_recs ext q)).
Proof. intros Hs Hq. unfold linked_recs. rewrite app_comm_cons, laid_app. f_equal. cbn [laid]. by rewrite Hq, app_nil_r. Qed.

Lemma linked_relocs_new ord s q : s ∉ m :: ord → P !! s = Some q →
  linked_relocs P m (ord ++ [s]) = linked_relocs P m ord ++ map (moved_relo (size P (m :: ord))) (pg_relocs q).
Proof. intros Hs Hq. unfold linked_relocs. rewrite app_comm_cons, laid_app. f_equal. cbn [laid]. by rewrite Hq, app_nil_r. Qed.

Lemma ord_ok_new ord s q : ord_ok ord → s ∉ m :: ord → reaches s → P !! s = Some q → pg_sec_idx q = ob_text_shndx obj → ord_ok (ord ++ [s]).
Proof.
  intros [Hnd Hin] Hs Hr Hq Ht. split.
  - rewrite app_comm_cons. apply NoDup_app. split; [done|]. split; [set_solver|]. apply NoDup_singleton.
  - intros k [Hk|Hk]%elem_of_app; [by apply Hin|]. apply list_elem_of_singleton in Hk as ->. split; [done|]. by exists q.
Qed.

(** The programs after a subprogram has been laid out. *)
Lemma progs_new code code' ord s q : s ∉ m :: ord → P !! s = Some q → pg_sec_idx q = ob_text_shndx obj →
  set_prog (set_prog (linked_progs obj P m code ord) s (with_sub_off q (size P (m :: ord)))) m
    (linked_main obj P m M code' (ord ++ [s])) = linked_progs obj P m code' (ord ++ [s]).
Proof.
  intros Hs Hq Ht. unfold set_prog. apply list_eq. intros j. destruct (decide (j = m)) as [->|Hj].
  - rewrite progs_main. apply list_lookup_insert_eq. rewrite length_insert, length_progs. eapply lookup_lt_Some, LK.
  - rewrite list_lookup_insert_ne by done. destruct (decide (j = s)) as [->|Hjs].
    + rewrite list_lookup_insert_eq by (rewrite length_progs; by eapply lookup_lt_Some). rewrite (progs_sub _ _ _ q) by done. by rewrite off_new.
    + rewrite list_lookup_insert_ne by done. rewrite !progs_lookup. destruct (P !! j); cbn [fmap option_fmap option_map]; [|done].
      rewrite !decide_False by done. destruct (decide (j ∈ ord)); [by rewrite off_old by set_solver|].
      rewrite !off_out; [done| |]; rewrite ?not_elem_of_cons, ?not_elem_of_app, ?list_elem_of_singleton; set_solver.
Qed.
Lemma append_insns code ord s q : ord_ok ord → s ∉ m :: ord → P !! s = Some q → pg_sec_idx q = ob_text_shndx obj → prog_ok q →
  ord_ok (ord ++ [s]) → Z.of_nat (length code) = size P (m :: ord) →
  append_subprog_insns (mkState (linked_progs obj P m code ord) []) m s =
    Some (mkState (set_prog (set_prog (linked_progs obj P m code ord) s (with_sub_off q (size P (m :: ord)))) m
      (with_insns (linked_main obj P m M code ord) (code ++ pg_insns q) (size P (m :: ord ++ [s])))) [], 0).
Proof.
  intros Ho Hs Hq Ht (Hl & Hc & _) Ho' Hcode. unfold append_subprog_insns. cbn [st_progs st_alloc].
  pose proof (ord_size _ Ho') as Hsz'. pose proof (ord_size _ Ho) as Hsz.
  rewrite app_comm_cons, size_app, size_one in *.
  destruct (cnt_pos P Hrange s q Hq) as [Hcq ?].
  rewrite progs_main. cbn [mbind option_bind]. rewrite (progs_sub _ _ _ q Hq Ht). cbn [mbind option_bind].
  change (pg_insns_cnt (linked_main obj P m M code ord)) with (size P (m :: ord)).
  change (with_sub_off (with_sub_off q (off_of P m ord s)) ?o) with (with_sub_off q o).
  set (L := set_prog (linked_progs obj P m code ord) s (with_sub_off q (size P (m :: ord)))).
  assert (s ≠ m) as Hsm by set_solver.
  assert (m < length L)%nat as HmL by (unfold L, set_prog; rewrite length_insert, length_progs; eapply lookup_lt_Some, LK).
  assert (L !! m = Some (linked_main obj P m M code ord)) as Em by (unfold L, set_prog; by rewrite list_lookup_insert_ne, progs_main).
  assert (L !! s = Some (with_sub_off q (size P (m :: ord)))) as Es
    by (unfold L, set_prog; rewrite list_lookup_insert_eq; [done|rewrite length_progs; by eapply lookup_lt_Some]).
  rewrite Em, Es. cbn [mbind option_bind next_alloc negb].
  change (pg_insns_cnt (linked_main obj P m M code ord)) with (size P (m :: ord)). cbn [pg_insns_cnt with_sub_off pg_insns linked_main].
  rewrite Hc, <- Hcq. rewrite wrap_small by (unfold in_u; lia). set (new := size P (m :: ord) + cnt P s) in *.
  set (room := replicate _ _). assert (length room = Z.to_nat (cnt P s)) as Hroom by (unfold room; rewrite length_replicate; lia).
  clearbody L. unfold set_prog. rewrite (list_lookup_insert_ne L m s) by done. rewrite Es. cbn [mbind option_bind].
  rewrite list_lookup_insert_eq by done. cbn [mbind option_bind pg_insns pg_insns_cnt with_sub_off with_insns].
  rewrite Hc, <- Hcq, Hl, <- Hcq, length_app, Hroom. rewrite Nat.ltb_irrefl.
  destruct (Nat.ltb_spec (length code + Z.to_nat (cnt P s)) (Z.to_nat (size P (m :: ord)) + Z.to_nat (cnt P s))) as [|_]; [lia|]. cbn [orb].
  rewrite list_insert_insert_eq. replace (Z.to_nat (size P (m :: ord))) with (length code) by lia.
  rewrite take_app_length, (take_ge (pg_insns q)) by lia. rewrite drop_ge by (rewrite length_app; lia). rewrite app_nil_r.
  done.
Qed.

Lemma shifted_relos ord s q : ord_ok ord → ord_ok (ord ++ [s]) → P !! s = Some q → prog_ok q →
  map (shift_relo (size P (m :: ord))) (pg_relocs q) = map (moved_relo (size P (m :: ord))) (pg_relocs q).
Proof.
  intros Ho Ho' Hq (_ & _ & _ & Hb). apply map_ext_in. intros r Hr%list_elem_of_In. unfold shift_relo, moved_relo. f_equal.
  rewrite Forall_forall in Hb. specialize (Hb r Hr). pose proof (ord_size _ Ho') as Hsz.
  rewrite app_comm_cons, size_app, size_one in Hsz. destruct (cnt_pos P Hrange s q Hq). pose proof (ord_size _ Ho).
  apply swrap_small; lia.
Qed.

Lemma enter code ord s q : ord_ok ord → s ∉ m :: ord → P !! s = Some q → pg_sec_idx q = ob_text_shndx obj → reaches s →
  Z.of_nat (length code) = size P (m :: ord) →
  ∃ st1 st2, append_subprog_insns (mkState (linked_progs obj P m code ord) []) m s = Some (st1, 0) ∧
    append_subprog_relos st1 m s = Some (st2, 0) ∧
    reloc_prog_func_and_line_info obj st2 m s = Some (mkState (linked_progs obj P m (code ++ pg_insns q) (ord ++ [s])) [], 0).
Proof.
  intros Ho Hs Hq Ht Hr Hcode. pose proof (lk_ok _ _ _ _ LK s q Hq Hr) as Hqok.
  pose proof (ord_ok_new ord s q Ho Hs Hr Hq Ht) as Ho'. eexists. eexists. split; [by apply append_insns|].
  assert (s ≠ m) as Hsm by set_solver. set (L := set_prog (linked_progs obj P m code ord) s (with_sub_off q (size P (m :: ord)))).
  assert (m < length L)%nat as HmL by (unfold L, set_prog; rewrite length_insert, length_progs; eapply lookup_lt_Some, LK).
  assert (∀ mp, set_prog L m mp !! m = Some mp) as Em by (intros; by apply list_lookup_insert_eq).
  assert (∀ mp, set_prog L m mp !! s = Some (with_sub_off q (size P (m :: ord)))) as Es.
  { intros mp. unfold set_prog, L. rewrite list_lookup_insert_ne by done. apply list_lookup_insert_eq. rewrite length_progs. by eapply lookup_lt_Some. }
  set (main2 := with_infos (linked_main obj P m M (code ++ pg_insns q) (ord ++ [s]))
    (pg_func_info (linked_main obj P m M code ord)) (pg_line_info (linked_main obj P m M code ord))).
  assert (append_subprog_relos (mkState (set_prog L m (with_insns (linked_main obj P m M code ord) (code ++ pg_insns q)
    (size P (m :: ord ++ [s])))) []) m s = Some (mkState (set_prog L m main2) [], 0)) as Hrel.
  { unfold append_subprog_relos. rewrite bool_decide_false by done. cbn [st_progs st_alloc next_alloc negb].
    rewrite Em. cbn [mbind option_bind]. rewrite Es. cbn [mbind option_bind]. unfold set_prog. rewrite list_insert_insert_eq.
    unfold main2, with_relocs, with_insns, linked_main, with_infos, with_sub_off.
    cbn [pg_sec_idx pg_sec_insn_off pg_sec_insn_cnt pg_sub_insn_off pg_insns pg_insns_cnt pg_relocs pg_autoload pg_func_info pg_line_info].
    by rewrite (linked_relocs_new ord s q), (shifted_relos ord s q) by done. }
  split; [exact Hrel|]. erewrite infos_found; [|apply Em|apply Es|done|].
  - f_equal. f_equal. f_equal. cbn [st_progs]. rewrite <- (progs_new code) with (q := q) by done. fold L. unfold main2.
    destruct (used_ext obj) as [[f l]|] eqn:Eu.
    + unfold set_prog. rewrite list_insert_insert_eq. f_equal. unfold linked_main, with_infos, add_info, linked_info. rewrite Eu.
      cbn [pg_func_info pg_line_info pi_recs default from_option id pg_sub_insn_off with_sub_off].
      rewrite !ext_recs_sub, !(linked_recs_new ord s q) by done. unfold linked_info. cbn [pi_recs from_option id]. by rewrite <- !app_assoc.
    + f_equal. unfold with_infos, linked_main. by rewrite Eu.
  - intros f l Hu. rewrite !ext_recs_sub. destruct (lk_infos _ _ _ _ LK f l s q Hu Hr Hq) as [??]. split; [done|]. split; [done|].
    right. unfold main2, with_infos, linked_main. rewrite Hu. done.
Qed.
(** * The loop *)

Lemma linked_insn_app ord more o p i insn : (∀ k, resolve obj P p i insn = Some (Some k) → k ∈ ord) →
  linked_insn obj P m (ord ++ more) o p i insn = linked_insn obj P m ord o p i insn.
Proof.
  intros Hk. unfold linked_insn. destruct (resolve obj P p i insn) as [[k|]|]; try done. by rewrite off_old by (specialize (Hk k eq_refl); set_solver).
Qed.

Lemma insn_place ord j p i : ord_ok ord → j ∈ m :: ord → P !! j = Some p → (i < length (pg_insns p))%nat →
  (Z.to_nat (off ord j) + i < Z.to_nat (size P (m :: ord)))%nat.
Proof.
  intros Ho Hj Hp Hi. destruct (off_bounds ord j Ho Hj) as (? & ? & ?). destruct (ord_ok_prog ord j p Ho Hj Hp) as (Hl & _).
  destruct (cnt_pos P Hrange j p Hp) as [Hc ?]. lia.
Qed.

Lemma code_ok_enter ord lim code s q : ord_ok ord → ord_ok (ord ++ [s]) → code_ok ord lim code → s ∉ m :: ord → P !! s = Some q →
  code_ok (ord ++ [s]) lim (code ++ pg_insns q).
Proof.
  intros Ho Ho' (Hl & H0 & Hc) Hs Hq. split; [|split].
  - rewrite length_app, app_comm_cons, size_app, size_one, Nat2Z.inj_add, Hl. f_equal.
    destruct (ord_ok_prog _ s q Ho' ltac:(set_solver) Hq) as (-> & _). destruct (cnt_pos P Hrange s q Hq). lia.
  - intros k Hk. apply H0. set_solver.
  - intros j p i insn Hj Hp Hi. rewrite app_comm_cons, elem_of_app, list_elem_of_singleton in Hj.
    destruct Hj as [Hj| ->].
    + destruct (Hc j p i insn Hj Hp Hi) as [Hcode Hin]. rewrite off_old by done.
      rewrite lookup_app_l by (pose proof (insn_place ord j p i Ho Hj Hp (lookup_lt_Some _ _ _ Hi)); lia). rewrite Hcode. split.
      * destruct (Nat.ltb_spec i (lim j)); [|done]. by rewrite linked_insn_app by (intros; by apply Hin).
      * intros Hlt k Hk. apply elem_of_app. left. by eapply Hin.
    + simplify_eq. rewrite (H0 s) by done. split; [|lia]. rewrite off_new by done.
      rewrite lookup_app_r by lia. rewrite <- Hl, Nat2Z.id. by replace (length code + i - length code)%nat with i by lia.
Qed.

Definition bump (lim : nat → nat) (j : nat) : nat → nat := λ k, if decide (k = j) then S (lim j) else lim k.

Lemma code_ok_set ord lim code j p insn : ord_ok ord → code_ok ord lim code → j ∈ m :: ord → P !! j = Some p →
  pg_insns p !! lim j = Some insn → (∀ k, resolve obj P p (lim j) insn = Some (Some k) → k ∈ ord) →
  code_ok ord (bump lim j) (<[(Z.to_nat (off ord j) + lim j)%nat := linked_insn obj P m ord (off ord j) p (lim j) insn]> code).
Proof.
  intros Ho (Hl & H0 & Hc) Hj Hp Hi Hin. pose proof (insn_place ord j p (lim j) Ho Hj Hp (lookup_lt_Some _ _ _ Hi)) as Hplace.
  split; [by rewrite length_insert|]. split; [intros k Hk; unfold bump; rewrite decide_False by (by intros ->); by apply H0|].
  intros j' p' i' insn' Hj' Hp' Hi'. destruct (Hc j' p' i' insn' Hj' Hp' Hi') as [Hcode Hin']. unfold bump.
  destruct (decide (j' = j)) as [->|Hne].
  - simplify_eq. destruct (decide (i' = lim j)) as [->|Hii].
    + simplify_eq. rewrite list_lookup_insert_eq by lia. destruct (Nat.ltb_spec (lim j) (S (lim j))); [done|lia].
    + rewrite list_lookup_insert_ne by lia. rewrite Hcode.
      destruct (Nat.ltb_spec i' (lim j)), (Nat.ltb_spec i' (S (lim j))); try lia; (split; [done|]); intros; try lia. by eapply Hin'.
  - rewrite list_lookup_insert_ne; [done|]. destruct (ord_ok_prog _ j p Ho Hj Hp) as (Hlp & _). destruct (ord_ok_prog _ j' p' Ho Hj' Hp') as (Hlp' & _).
    apply lookup_lt_Some in Hi, Hi'. destruct (cnt_pos P Hrange j p Hp), (cnt_pos P Hrange j' p' Hp').
    destruct (off_bounds ord j Ho Hj), (off_bounds ord j' Ho Hj').
    destruct (off_from_apart P Hrange 0 (m :: ord) j j' (proj1 Ho) Hj Hj' ltac:(done)); fold (off ord j) (off ord j') in *; unfold off_of in *; lia.
Qed.

(** What the loop does for a call of the subprogram [k]. *)
Definition visit (fuel : nat) (j k : nat) (i : Z) (st : progs_state) : option (progs_state * Z) :=
  s ← st_progs st !! k;
  '(st, err) ←
    (if pg_sub_insn_off s =? 0 then
       '(st, err) ← append_subprog_insns st m k;
       if negb (err =? 0) then Some (st, err)
       else
         '(st, err) ← append_subprog_relos st m k;
         if negb (err =? 0) then Some (st, err)
         else
           '(st, err) ← reloc_prog_func_and_line_info obj st m k;
           if negb (err =? 0) then Some (st, err)
           else reloc_loop fuel obj m k 0 st
     else Some (st, 0));
  if negb (err =? 0) then Some (st, err)
  else
    p ← st_progs st !! j;
    s ← st_progs st !! k;
    let pos := pg_sub_insn_off p + i in
    st ← set_imm_at st m pos (pg_sub_insn_off s - pos - 1);
    reloc_loop fuel obj m j (i + 1) st.

Lemma loop_round fuel code ord j p i insn t : ord_ok ord → j ∈ m :: ord → P !! j = Some p → pg_insns p !! i = Some insn →
  code !! (Z.to_nat (off ord j) + i)%nat = Some insn → resolve obj P p i insn = Some t →
  reloc_loop (S fuel) obj m j (Z.of_nat i) (mkState (linked_progs obj P m code ord) []) =
    match t with
    | None => reloc_loop fuel obj m j (Z.of_nat i + 1) (mkState (linked_progs obj P m code ord) [])
    | Some k => visit fuel j k (Z.of_nat i) (mkState (linked_progs obj P m code ord) [])
    end.
Proof.
  intros Ho Hj Hp Hi Hcode Hres. destruct (progs_read code ord j p Ho Hj Hp) as (p' & Hp' & Hoff & Hcnt & Hsec & Hrel).
  destruct (off_bounds ord j Ho Hj) as (? & _). destruct (ord_ok_prog ord j p Ho Hj Hp) as (Hl & _).
  pose proof (lookup_lt_Some _ _ _ Hi) as Hlt. cbn [reloc_loop st_progs]. rewrite Hp'. cbn [mbind option_bind]. rewrite Hcnt.
  destruct (Z.ltb_spec (Z.of_nat i) (pg_sec_insn_cnt p)) as [Hic|]; [|lia]. cbn [negb]. rewrite progs_main. cbn [mbind option_bind].
  change (pg_insns (linked_main obj P m M code ord)) with code. rewrite Hoff, Z2Nat.inj_add, Nat2Z.id by lia. rewrite Hcode. cbn [mbind option_bind].
  unfold resolve in Hres. destruct (negb (insn_is_subprog_call insn) && negb (insn_is_pseudo_func insn)); [by simplify_eq|].
  rewrite Hrel by lia. destruct (bool_decide _); [by simplify_eq|].
  assert (called_insn p' (Z.of_nat i) insn (find_prog_insn_relo p (Z.of_nat i)) = called_insn p (Z.of_nat i) insn (find_prog_insn_relo p (Z.of_nat i))) as ->
    by (unfold called_insn; by rewrite Hsec).
  destruct (called_insn _ _ _ _) as [s|]; [|done]. rewrite (find_prog_key _ P) by apply progs_key.
  destruct (find_prog_by_sec_insn P (ob_text_shndx obj) s) as [[k|]|]; cbn [mbind option_bind] in Hres |- *; by simplify_eq.
Qed.
Lemma set_call fuel code ord j p i insn k : ord_ok ord → j ∈ m :: ord → P !! j = Some p →
  code !! (Z.to_nat (off ord j) + i)%nat = Some insn → resolve obj P p i insn = Some (Some k) → k ∈ ord →
  (p ← linked_progs obj P m code ord !! j;
   s ← linked_progs obj P m code ord !! k;
   let pos := pg_sub_insn_off p + Z.of_nat i in
   st ← set_imm_at (mkState (linked_progs obj P m code ord) []) m pos (pg_sub_insn_off s - pos - 1);
   reloc_loop fuel obj m j (Z.of_nat i + 1) st) =
  reloc_loop fuel obj m j (Z.of_nat (S i))
    (mkState (linked_progs obj P m (<[(Z.to_nat (off ord j) + i)%nat := linked_insn obj P m ord (off ord j) p i insn]> code) ord) []).
Proof.
  intros Ho Hj Hp Hcode Hres Hk. destruct (off_bounds ord j Ho Hj) as (? & _). destruct (proj2 Ho k Hk) as (_ & q & Hq & Ht).
  destruct (progs_read code ord j p Ho Hj Hp) as (p' & Hp' & Hoff & _).
  rewrite Hp'. cbn [mbind option_bind]. rewrite (progs_sub _ _ _ q Hq Ht). cbn [mbind option_bind pg_sub_insn_off with_sub_off].
  rewrite Hoff. unfold set_imm_at. cbn [st_progs st_alloc]. rewrite progs_main. cbn [mbind option_bind].
  change (pg_insns (linked_main obj P m M code ord)) with code. rewrite Z2Nat.inj_add, Nat2Z.id, Hcode by lia. cbn [mbind option_bind].
  change (with_insns (linked_main obj P m M code ord) ?c (pg_insns_cnt (linked_main obj P m M code ord))) with (linked_main obj P m M c ord).
  rewrite progs_set_main. unfold linked_insn. rewrite Hres. by replace (Z.of_nat i + 1) with (Z.of_nat (S i)) by lia.
Qed.

Lemma resolve_calls j p i insn k : reaches j → P !! j = Some p → pg_insns p !! i = Some insn → resolve obj P p i insn = Some (Some k) →
  reaches k ∧ k ≠ m ∧ ∃ q, P !! k = Some q ∧ pg_sec_idx q = ob_text_shndx obj.
Proof.
  intros Hr Hp Hi Hres. assert (calls obj P j k) as Hc by (by exists p, i, insn). split; [by eapply rtc_r|].
  split; [by eapply calls_not_main|by eapply calls_text].
Qed.

(** The rest of a program, and of the subprograms that it is the first to call. *)
Definition loop_ok (fuel : nat) : Prop := ∀ ord lim code j p, ord_ok ord → code_ok ord lim code → j ∈ m :: ord → P !! j = Some p →
  (lim j ≤ length (pg_insns p))%nat → (length (pg_insns p) - lim j + rounds P (m :: ord) < fuel)%nat →
  ∃ more lim' code',
    reloc_loop fuel obj m j (Z.of_nat (lim j)) (mkState (linked_progs obj P m code ord) []) =
      Some (mkState (linked_progs obj P m code' (ord ++ more)) [], 0) ∧
    ord_ok (ord ++ more) ∧ code_ok (ord ++ more) lim' code' ∧ lim' j = length (pg_insns p) ∧
    (∀ k, k ∈ more → lim' k = Z.to_nat (cnt P k)) ∧ (∀ k, k ≠ j → k ∉ more → lim' k = lim k).

(** Appending the subprogram when it is called for the first time. *)
Definition first_call (fuel : nat) (k : nat) (new : bool) (st : progs_state) : option (progs_state * Z) :=
  if new then
    '(st, err) ← append_subprog_insns st m k;
    if negb (err =? 0) then Some (st, err)
    else
      '(st, err) ← append_subprog_relos st m k;
      if negb (err =? 0) then Some (st, err)
      else
        '(st, err) ← reloc_prog_func_and_line_info obj st m k;
        if negb (err =? 0) then Some (st, err)
        else reloc_loop fuel obj m k 0 st
  else Some (st, 0).

Lemma first_call_spec fuel ord lim code k q : loop_ok fuel → ord_ok ord → code_ok ord lim code → reaches k → k ≠ m →
  P !! k = Some q → pg_sec_idx q = ob_text_shndx obj → (rounds P (m :: ord) ≤ fuel)%nat →
  ∃ ord1 lim1 code1,
    first_call fuel k (off ord k =? 0) (mkState (linked_progs obj P m code ord) []) =
      Some (mkState (linked_progs obj P m code1 (ord ++ ord1)) [], 0) ∧
    ord_ok (ord ++ ord1) ∧ code_ok (ord ++ ord1) lim1 code1 ∧ k ∈ ord ++ ord1 ∧
    (∀ x, x ∈ ord1 → lim1 x = Z.to_nat (cnt P x)) ∧ (∀ x, x ∉ ord1 → lim1 x = lim x).
Proof.
  intros IH Ho Hc Hrk Hkm Hq Htext Hf. destruct (Z.eqb_spec (off ord k) 0) as [E0|E0].
  - apply off_zero in E0; [|done..]. assert (k ∉ m :: ord) as Hk by set_solver.
    destruct (enter code ord k q Ho Hk Hq Htext Hrk (proj1 Hc)) as (st1 & st2 & E1 & E2 & E3).
    pose proof (ord_ok_new ord k q Ho Hk Hrk Hq Htext) as Ho'. pose proof (code_ok_enter ord lim code k q Ho Ho' Hc Hk Hq) as Hc'.
    pose proof (proj1 (proj2 Hc) k Hk) as Hlim. pose proof (rounds_new P (m :: ord) k Hk (lookup_lt_Some _ _ _ Hq)) as Hrounds.
    rewrite <- app_comm_cons in Hrounds. destruct (lk_ok _ _ _ _ LK k q Hq Hrk) as (Hlq & _). destruct (cnt_pos P Hrange k q Hq) as [Hcq _].
    destruct (IH (ord ++ [k]) lim (code ++ pg_insns q) k q Ho' Hc' ltac:(set_solver) Hq) as (more & lim' & code' & E & ? & ? & Hk' & Hm & Hother); [lia|lia|].
    exists (k :: more), lim', code'. unfold first_call. rewrite E1. cbn [mbind option_bind Z.eqb negb]. rewrite E2. cbn [mbind option_bind Z.eqb negb].
    rewrite E3. cbn [mbind option_bind Z.eqb negb]. rewrite Hlim in E. rewrite <- app_assoc in *. cbn [app] in *. split; [exact E|].
    split_and!; try done; [set_solver| |intros x Hx; apply Hother; set_solver].
    intros x [->|Hx]%elem_of_cons; [congruence|by apply Hm].
  - exists [], lim, code. rewrite app_nil_r. split_and!; try done; [|set_solver]. destruct (decide (k ∈ ord)) as [|Hn]; [done|].
    exfalso. by apply E0, off_zero.
Qed.

Lemma loop_spec fuel : loop_ok fuel.
Proof.
  induction fuel as [|fuel IH]; intros ord lim code j p Ho Hc Hj Hp Hle Hf; [lia|].
  destruct (ord_ok_prog ord j p Ho Hj Hp) as (Hl & _). destruct (decide (lim j = length (pg_insns p))) as [Hend|Hne].
  { exists [], lim, code. rewrite app_nil_r. destruct (progs_read code ord j p Ho Hj Hp) as (p' & Hp' & _ & Hcnt & _).
    split_and!; try done; [|set_solver]. cbn [reloc_loop st_progs]. rewrite Hp'. cbn [mbind option_bind]. rewrite Hcnt.
    destruct (Z.ltb_spec (Z.of_nat (lim j)) (pg_sec_insn_cnt p)); [lia|done]. }
  destruct (lookup_lt_is_Some_2 (pg_insns p) (lim j)) as [insn Hi]; [lia|].
  pose proof (ord_reaches ord j Ho Hj) as Hreach.
  destruct (lk_calls _ _ _ _ LK j p (lim j) insn Hreach Hp Hi) as [t Ht].
  destruct (proj2 (proj2 Hc) j p (lim j) insn Hj Hp Hi) as [Hcode _]. rewrite Nat.ltb_irrefl in Hcode.
  rewrite (loop_round fuel code ord j p (lim j) insn t) by done. destruct t as [k|].
  2: { pose proof (code_ok_set ord lim code j p insn Ho Hc Hj Hp Hi) as Hset. rewrite Ht in Hset. specialize (Hset ltac:(done)).
    unfold linked_insn in Hset. rewrite Ht, list_insert_id in Hset by done.
    assert (bump lim j j = S (lim j)) as Hb by (unfold bump; by rewrite decide_True).
    destruct (IH ord (bump lim j) code j p) as (more & lim' & code' & E & ? & ? & ? & ? & Hother); [done..| | |]; [lia|lia|].
    rewrite Hb in E. replace (Z.of_nat (lim j) + 1) with (Z.of_nat (S (lim j))) by lia. rewrite E. exists more, lim', code'.
    split_and!; try done. intros k Hk Hkm. rewrite Hother by done. unfold bump. by rewrite decide_False. }
  destruct (resolve_calls j p (lim j) insn k Hreach Hp Hi Ht) as (Hrk & Hkm & q & Hq & Htext).
  unfold visit. cbn [st_progs]. rewrite (progs_sub _ _ _ q Hq Htext). cbn [mbind option_bind pg_sub_insn_off with_sub_off].
  destruct (first_call_spec fuel ord lim code k q IH Ho Hc Hrk Hkm Hq Htext ltac:(lia)) as (ord1 & lim1 & code1 & E1 & Ho1 & Hc1 & Hk1 & Hnew & Hold).
  unfold first_call in E1.
  rewrite E1. cbn [mbind option_bind Z.eqb negb st_progs].
  assert (j ∈ m :: ord ++ ord1) as Hj1 by set_solver.
  assert (j ∉ ord1) as Hjn by (destruct Ho1 as [Hnd _]; rewrite app_comm_cons in Hnd; apply NoDup_app in Hnd; naive_solver).
  assert (lim1 j = lim j) as Hlj by auto.
  destruct (proj2 (proj2 Hc1) j p (lim j) insn Hj1 Hp Hi) as [Hcode1 _]. rewrite Hlj, Nat.ltb_irrefl in Hcode1.
  pose proof (set_call fuel code1 (ord ++ ord1) j p (lim j) insn k Ho1 Hj1 Hp Hcode1 Ht Hk1) as Hsc.
  pose proof (code_ok_set (ord ++ ord1) lim1 code1 j p insn Ho1 Hc1 Hj1 Hp) as Hset. rewrite Hlj in Hset.
  specialize (Hset Hi ltac:(intros; congruence)).
  assert (bump lim1 j j = S (lim j)) as Hb by (unfold bump; rewrite decide_True by done; by rewrite Hlj).
  pose proof (rounds_app P (m :: ord) ord1) as Hrounds. rewrite <- app_comm_cons in Hrounds.
  destruct (IH (ord ++ ord1) (bump lim1 j) _ j p Ho1 Hset Hj1 Hp) as (more & lim' & code' & E & ? & ? & ? & Hm & Hother); [lia|lia|].
  rewrite Hb in E. exists (ord1 ++ more), lim', code'. rewrite app_assoc. split; [exact (eq_trans Hsc E)|]. split_and!; try done.
  - intros x [Hx|Hx]%elem_of_app; [|by apply Hm]. destruct (decide (x ∈ more)); [by apply Hm|].
    rewrite Hother by (done || by intros ->). unfold bump. rewrite decide_False by (by intros ->). by apply Hnew.
  - intros x Hx Hxn. rewrite Hother by (done || set_solver). unfold bump. rewrite decide_False by done. apply Hold. set_solver.
Qed.
(** * The whole *)

Definition reset (p : bpf_program) : bpf_program := if prog_is_subprog obj P p then with_sub_off p 0 else p.

Lemma main_not_subprog : prog_is_subprog obj P M = false.
Proof. unfold prog_is_subprog. apply andb_false_iff. left. apply Z.eqb_neq, LK. Qed.

Lemma main_ok : prog_ok M.
Proof. eapply (lk_ok _ _ _ _ LK m); [apply LK|done]. Qed.

Lemma linked_relocs_main : linked_relocs P m [] = pg_relocs M.
Proof. unfold linked_relocs. cbn [laid]. rewrite (lk_main _ _ _ _ LK). cbn [from_option]. by rewrite moved_relo_0, app_nil_r. Qed.

Lemma size_main : size P [m] = pg_sec_insn_cnt M.
Proof. rewrite size_one. unfold cnt. by rewrite (lk_main _ _ _ _ LK). Qed.

Lemma linked_recs_main ext : linked_recs P m [] ext = map (moved_rec 0 M) (default [] (ext_recs ext M)).
Proof. unfold linked_recs. cbn [laid]. by rewrite (lk_main _ _ _ _ LK), app_nil_r. Qed.

Lemma lookup_reset_main : map reset P !! m = Some M.
Proof. rewrite list_lookup_fmap, (lk_main _ _ _ _ LK). cbn. unfold reset. by rewrite main_not_subprog. Qed.

Lemma progs_start M' : M' = linked_main obj P m M (pg_insns M) [] → set_prog (map reset P) m M' = linked_progs obj P m (pg_insns M) [].
Proof.
  intros ->. unfold set_prog. apply list_eq. intros j. destruct (decide (j = m)) as [->|Hj].
  - rewrite progs_main. apply list_lookup_insert_eq. rewrite length_fmap. eapply lookup_lt_Some, LK.
  - rewrite list_lookup_insert_ne by done. rewrite progs_lookup, list_lookup_fmap. destruct (P !! j); cbn [fmap option_fmap option_map]; [|done].
    rewrite decide_False by done. unfold reset. rewrite off_out; [done|]. by intros [->|?%elem_of_nil]%elem_of_cons.
Qed.

(** The infos of the main program itself. *)
Lemma main_infos : reloc_prog_func_and_line_info obj (mkState (map reset P) []) m m = Some (mkState (linked_progs obj P m (pg_insns M) []) [], 0).
Proof.
  destruct main_ok as (_ & Hcnt & _). erewrite infos_found; [|apply lookup_reset_main..|done|].
  - f_equal. f_equal. f_equal. cbn [st_progs]. destruct (used_ext obj) as [[f l]|] eqn:Eu.
    + apply progs_start. unfold with_infos, linked_main, linked_info, add_info. rewrite Eu, !linked_recs_main, linked_relocs_main, size_main.
      by rewrite (lk_fresh _ _ _ _ LK), Hcnt.
    + rewrite <- (progs_start M).
      * unfold set_prog. rewrite list_insert_id; [done|apply lookup_reset_main].
      * unfold linked_main. rewrite Eu, linked_relocs_main, size_main, <- (lk_fresh _ _ _ _ LK).
        etransitivity; [apply prog_eta|]. by rewrite Hcnt.
  - intros f l Hu. destruct (lk_infos _ _ _ _ LK f l m M Hu ltac:(done) (lk_main _ _ _ _ LK)). split_and!; auto.
Qed.

Lemma ord_ok_nil : ord_ok [].
Proof. split; [apply NoDup_singleton|]. by intros k ?%elem_of_nil. Qed.

Lemma code_ok_start : code_ok [] (λ _, O) (pg_insns M).
Proof.
  destruct main_ok as (Hl & _). split; [rewrite size_main, Hl; destruct (cnt_pos P Hrange m M (lk_main _ _ _ _ LK)); lia|]. split; [done|].
  intros j p i insn [->|Hj]%elem_of_cons Hp Hi; [|by apply elem_of_nil in Hj]. rewrite (lk_main _ _ _ _ LK) in Hp. injection Hp as <-.
  rewrite off_main. cbn. split; [done|lia].
Qed.

(** All of it is linked. *)
Lemma code_ok_done ord lim code : ord_ok ord → code_ok ord lim code → (∀ j, j ∈ m :: ord → lim j = Z.to_nat (cnt P j)) →
  code = linked_code obj P m ord ∧ (∀ k, reaches k → k ∈ m :: ord).
Proof.
  intros Ho (Hl & _ & Hc) Hlim. set (f := λ (off : Z) j, match P !! j with Some p => imap (linked_insn obj P m ord off p) (pg_insns p) | None => [] end).
  assert (∀ j p, j ∈ m :: ord → P !! j = Some p → Z.of_nat (length (pg_insns p)) = cnt P j) as Hlen.
  { intros j p Hj Hp. destruct (ord_ok_prog ord j p Ho Hj Hp) as (-> & _). destruct (cnt_pos P Hrange j p Hp). lia. }
  assert (∀ off j, j ∈ m :: ord → Z.of_nat (length (f off j)) = cnt P j) as Hf.
  { intros o j Hj. destruct (ord_some ord j Ho Hj) as [p Hp]. unfold f. rewrite Hp, length_imap. by apply Hlen. }
  split.
  - apply list_eq_same_length with (length code); [|done|].
    + apply Nat2Z.inj. rewrite Hl. unfold linked_code. by rewrite (length_laid P Hrange f).
    + intros n x y Hn Hx Hy. destruct (off_from_cover P Hrange 0 (m :: ord) (Z.of_nat n) (proj1 Ho)) as (j & Hj & Hr); [lia|].
      fold (off ord j) in Hr. destruct (off_bounds ord j Ho Hj) as (? & _). destruct (ord_some ord j Ho Hj) as [p Hp].
      pose proof (Hlen j p Hj Hp). destruct (lookup_lt_is_Some_2 (pg_insns p) (n - Z.to_nat (off ord j))) as [insn Hi]; [lia|].
      destruct (Hc j p _ insn Hj Hp Hi) as [Hcode _]. rewrite Hlim in Hcode by done.
      pose proof (laid_lookup P Hrange f 0 (m :: ord) j ltac:(lia) (proj1 Ho) Hj Hf (n - Z.to_nat (off ord j))) as Hlaid.
      fold (off ord j) in Hlaid. rewrite Z.sub_0_r in Hlaid.
      replace (Z.to_nat (off ord j) + (n - Z.to_nat (off ord j)))%nat with n in * by lia.
      unfold linked_code in Hy. fold f in Hy. rewrite Hlaid in Hy by (pose proof (Hf (off ord j) j Hj); lia).
      unfold f in Hy. rewrite Hp, list_lookup_imap, Hi in Hy. rewrite Hx in Hcode. cbn in Hy.
      destruct (Nat.ltb_spec (n - Z.to_nat (off ord j)) (Z.to_nat (cnt P j))); [unfold off_of in *; simplify_eq; done|lia].
  - apply (rtc_ind_r (λ k, k ∈ m :: ord) m); [set_solver|]. intros j k _ (p & i & insn & Hp & Hi & Hres) IH.
    apply elem_of_cons. right. apply (Hc j p i insn IH Hp Hi); [|done]. rewrite Hlim by done.
    pose proof (Hlen j p IH Hp). apply lookup_lt_Some in Hi. lia.
Qed.

Lemma link_main : ∃ ord,
  bpf_object__relocate_calls obj m (mkState P []) = Some (mkState (linked_progs obj P m (linked_code obj P m ord) ord) [], 0) ∧
  ord_ok ord ∧ ∀ k, reaches k → k ∈ m :: ord.
Proof.
  unfold bpf_object__relocate_calls, bpf_object__reloc_code. cbn [st_progs st_alloc]. fold reset. rewrite main_infos. cbn [mbind option_bind Z.eqb negb].
  destruct main_ok as (Hl & _). pose proof (rounds_start P) as Hr. pose proof (rounds_app P [] [m]) as Hr'. cbn [app] in Hr'.
  pose proof (rounds_new P [] m ltac:(set_solver) (lookup_lt_Some _ _ _ (lk_main _ _ _ _ LK))) as Hr2. cbn [app] in Hr2.
  assert (reloc_fuel (map reset P) = reloc_fuel P) as ->.
  { apply reloc_fuel_map. intros p. unfold reset. by destruct (prog_is_subprog obj P p). }
  destruct (loop_spec (reloc_fuel P) [] (λ _, O) (pg_insns M) m M ord_ok_nil code_ok_start ltac:(set_solver) (lk_main _ _ _ _ LK))
    as (ord & lim & code & E & Ho & Hc & Hm & Hk & _).
  { lia. }
  { destruct (cnt_pos P Hrange m M (lk_main _ _ _ _ LK)) as [Hcm _]. lia. }
  cbn [app] in *. destruct (code_ok_done ord lim code Ho Hc) as [-> Hreach].
  { intros j [->|Hj]%elem_of_cons; [|by apply Hk]. rewrite Hm, Hl. unfold cnt. by rewrite (lk_main _ _ _ _ LK). }
  exists ord. split; [exact E|]. done.
Qed.
End link.
