(* ===== verification/SubprogAll.v ===== *)
(** Linking all programs of an object: each main program is linked as if it were the only
    one, because the subprograms stay as they are (bpf_object__relocate of
    src/libbpf/src/libbpf.c). *)
From stdpp Require Import base list sets relations sorting.
From Stdlib Require Import ZArith Lia.
From S2P Require Import Prelude RelocCalc RelocPatch Subprog SubprogData SubprogFind SubprogLink.

#[local] Open Scope Z_scope.

(** * Programs that are the same for the linking of [m] *)

Record agree (obj : bpf_object) (P Q : list bpf_program) (m : nat) : Prop := {
  ag_key : sec_key <$> Q = sec_key <$> P;
  ag_main : Q !! m = P !! m;
  ag_sub : ∀ j p, P !! j = Some p → pg_sec_idx p = ob_text_shndx obj → ∃ o, Q !! j = Some (with_sub_off p o);
}.

Lemma progs_sorted_key (P Q : list bpf_program) : sec_key <$> Q = sec_key <$> P → progs_sorted P → progs_sorted Q.
Proof.
  intros E Hs i j p q Hij Hp Hq. pose proof (sec_key_lookup Q P i E) as Hi. pose proof (sec_key_lookup Q P j E) as Hj.
  rewrite Hp in Hi. rewrite Hq in Hj. destruct (P !! i) as [p'|] eqn:Hp'; [|done]. destruct (P !! j) as [q'|] eqn:Hq'; [|done].
  unfold before. destruct Hi as (-> & -> & ->), Hj as (-> & -> & _). by apply (Hs i j).
Qed.

Lemma prog_range_key (P Q : list bpf_program) : sec_key <$> Q = sec_key <$> P → Forall prog_range P → Forall prog_range Q.
Proof.
  rewrite !Forall_lookup. intros E Hr i p Hp. pose proof (sec_key_lookup Q P i E) as Hi. rewrite Hp in Hi.
  destruct (P !! i) as [p'|] eqn:Hp'; [|done]. unfold prog_range. destruct Hi as (_ & -> & ->). by apply (Hr i).
Qed.

Section agree.
Context (obj : bpf_object) (P Q : list bpf_program) (m : nat) (AG : agree obj P Q m).

Lemma cnt_agree j : cnt Q j = cnt P j.
Proof.
  unfold cnt. pose proof (sec_key_lookup Q P j (ag_key _ _ _ _ AG)) as H.
  destruct (Q !! j), (P !! j); try done. cbn. by destruct H as (_ & _ & ->).
Qed.

Lemma size_agree js : size Q js = size P js.
Proof. induction js as [|j js IH]; [done|]. by rewrite !size_cons, cnt_agree, IH. Qed.

Lemma off_from_agree base js k : off_from Q base js k = off_from P base js k.
Proof. revert base. induction js as [|j js IH]; intros base; cbn; [done|]. by rewrite cnt_agree, IH. Qed.

Lemma laid_agree {A} (f g : Z → nat → list A) base js : (∀ off j, j ∈ js → f off j = g off j) → laid Q f base js = laid P g base js.
Proof.
  revert base. induction js as [|j js IH]; intros base H; cbn; [done|]. rewrite cnt_agree, IH; [|intros; apply H; set_solver].
  rewrite (H base j); [done|set_solver].
Qed.

Lemma length_agree : length Q = length P.
Proof. pose proof (f_equal length (ag_key _ _ _ _ AG)) as H. by rewrite !length_fmap in H. Qed.

Lemma resolve_agree p i insn : resolve obj Q p i insn = resolve obj P p i insn.
Proof. unfold resolve. destruct (called_insn _ _ _ _); [|done]. by rewrite (find_prog_key Q P) by apply AG. Qed.

Definition text_prog (j : nat) : Prop := ∃ p, P !! j = Some p ∧ pg_sec_idx p = ob_text_shndx obj.

Lemma lookup_agree j p : P !! j = Some p → j = m ∨ text_prog j → ∃ o, Q !! j = Some (with_sub_off p o).
Proof.
  intros Hp [->|(q & Hq & Ht)]; [|simplify_eq; by eapply ag_sub].
  exists (pg_sub_insn_off p). rewrite (ag_main _ _ _ _ AG), Hp. f_equal. apply prog_eta.
Qed.

Lemma calls_agree j k : j = m ∨ text_prog j → calls obj Q j k ↔ calls obj P j k.
Proof.
  intros Hj. split.
  - intros (q & i & insn & Hq & Hi & Hr). pose proof (sec_key_lookup Q P j (ag_key _ _ _ _ AG)) as H. rewrite Hq in H.
    destruct (P !! j) as [p|] eqn:Hp; [|done]. destruct (lookup_agree j p Hp Hj) as [o Ho]. simplify_eq.
    rewrite resolve_agree in Hr. by exists p, i, insn.
  - intros (p & i & insn & Hp & Hi & Hr). destruct (lookup_agree j p Hp Hj) as [o Ho].
    exists (with_sub_off p o), i, insn. rewrite resolve_agree. done.
Qed.

Context (Hs : progs_sorted P) (Hr : Forall prog_range P).

Lemma calls_text_prog j k : calls obj P j k → text_prog k.
Proof. intros (p & i & insn & _ & _ & H). by apply resolve_text in H. Qed.

Lemma reach_agree k : rtc (calls obj Q) m k → rtc (calls obj P) m k ∧ (k = m ∨ text_prog k).
Proof.
  revert k. apply (rtc_ind_r (λ k, rtc (calls obj P) m k ∧ (k = m ∨ text_prog k)) m); [split; [done|by left]|].
  intros j k _ Hc [IH Hj]. apply calls_agree in Hc; [|done]. split; [by eapply rtc_r|]. right. by eapply calls_text_prog.
Qed.

Lemma reach_agree_l k : rtc (calls obj P) m k → rtc (calls obj Q) m k ∧ (k = m ∨ text_prog k).
Proof.
  revert k. apply (rtc_ind_r (λ k, rtc (calls obj Q) m k ∧ (k = m ∨ text_prog k)) m); [split; [done|by left]|].
  intros j k _ Hc [IH Hj]. split; [eapply rtc_r; [done|by apply calls_agree]|]. right. by eapply calls_text_prog.
Qed.
End agree.

(** What can be linked among [P] can be linked among [Q]. *)
Lemma linkable_agree obj P Q m M : agree obj P Q m → linkable obj P m M → linkable obj Q m M.
Proof.
  intros AG LK. pose proof (lk_sorted _ _ _ _ LK) as Hs. pose proof (lk_range _ _ _ _ LK) as Hr.
  assert (∀ j q, Q !! j = Some q → rtc (calls obj Q) m j → ∃ p o, P !! j = Some p ∧ rtc (calls obj P) m j ∧ q = with_sub_off p o) as Hq.
  { intros j q Hq Hj. destruct (reach_agree obj P Q m AG Hs Hr j Hj) as [Hj' Ht].
    pose proof (sec_key_lookup Q P j (ag_key _ _ _ _ AG)) as H. rewrite Hq in H. destruct (P !! j) as [p|] eqn:Hp; [|done].
    destruct (lookup_agree obj P Q m AG j p Hp Ht) as [o Ho]. exists p, o. by simplify_eq. }
  split.
  - by rewrite (ag_main _ _ _ _ AG), (lk_main _ _ _ _ LK).
  - apply LK.
  - apply LK.
  - eapply progs_sorted_key; [apply AG|done].
  - eapply prog_range_key; [apply AG|done].
  - intros j q Hjq Hj. destruct (Hq j q Hjq Hj) as (p & o & Hp & Hj' & ->). exact (lk_ok _ _ _ _ LK j p Hp Hj').
  - rewrite (size_agree obj P Q m AG), (length_agree obj P Q m AG). apply LK.
  - intros j q i insn Hj Hjq Hi. destruct (Hq j q Hjq Hj) as (p & o & Hp & Hj' & ->). rewrite (resolve_agree obj P Q m AG).
    exact (lk_calls _ _ _ _ LK j p i insn Hj' Hp Hi).
  - intros f l j q Hu Hj Hjq. destruct (Hq j q Hjq Hj) as (p & o & Hp & Hj' & ->). rewrite !ext_recs_sub.
    by apply (lk_infos _ _ _ _ LK f l j p).
Qed.

(** The linked program is the same. *)
Lemma linked_agree obj P Q m M ord : agree obj P Q m → P !! m = Some M → (∀ k, k ∈ ord → text_prog obj P k) →
  linked_main obj Q m M (linked_code obj Q m ord) ord = linked_main obj P m M (linked_code obj P m ord) ord.
Proof.
  intros AG HM Hord.
  assert (∀ j, j ∈ m :: ord → ∃ p o, P !! j = Some p ∧ Q !! j = Some (with_sub_off p o)) as Hj.
  { intros j [->|Hj]%elem_of_cons.
    - destruct (lookup_agree obj P Q m AG m M HM ltac:(by left)) as [o Ho]. by exists M, o.
    - destruct (Hord j Hj) as (p & Hp & Ht). destruct (ag_sub _ _ _ _ AG j p Hp Ht) as [o Ho]. by exists p, o. }
  assert (∀ k, off_of Q m ord k = off_of P m ord k) as Hoff by (intros; apply (off_from_agree obj P Q m AG)).
  assert (linked_code obj Q m ord = linked_code obj P m ord) as ->.
  { unfold linked_code. apply (laid_agree obj P Q m AG). intros off j Hjo. destruct (Hj j Hjo) as (p & o & -> & ->).
    apply imap_ext. intros i insn Hi. unfold linked_insn. rewrite (resolve_agree obj P Q m AG).
    change (resolve obj P (with_sub_off p o) i insn) with (resolve obj P p i insn). destruct (resolve obj P p i insn) as [[k|]|]; [|done..].
    by rewrite Hoff. }
  assert (linked_relocs Q m ord = linked_relocs P m ord) as Hrel.
  { apply (laid_agree obj P Q m AG). intros off j Hjo. by destruct (Hj j Hjo) as (p & o & -> & ->). }
  assert (∀ ext, linked_recs Q m ord ext = linked_recs P m ord ext) as Hrecs.
  { intros ext. apply (laid_agree obj P Q m AG). intros off j Hjo. destruct (Hj j Hjo) as (p & o & -> & ->). by rewrite ext_recs_sub. }
  unfold linked_main, linked_info. rewrite Hrel, (size_agree obj P Q m AG). destruct (used_ext obj) as [[f l]|]; [|done]. by rewrite !Hrecs.
Qed.

(** * All main programs *)

(** The programs that are linked: those that are loaded and are no subprograms. *)
Definition is_main (obj : bpf_object) (P : list bpf_program) (p : bpf_program) : bool :=
  negb (prog_is_subprog obj P p || negb (pg_autoload p)).

(** [ord] is what the main program [m] reaches, in some order. *)
Definition reach_list (obj : bpf_object) (P : list bpf_program) (m : nat) (ord : list nat) : Prop :=
  NoDup (m :: ord) ∧ ∀ k, k ∈ ord ↔ k ≠ m ∧ rtc (calls obj P) m k.

Section all.
Context (obj : bpf_object) (P : list bpf_program).
Context (HP : ∀ i p, P !! i = Some p → is_main obj P p = true → linkable obj P i p).

(** The programs when the main programs before [n] are linked. *)
Definition linked_upto (n : nat) (Q : list bpf_program) : Prop :=
  sec_key <$> Q = sec_key <$> P ∧ ∀ i p, P !! i = Some p →
    if is_main obj P p then
      if (i <? n)%nat then ∃ ord, reach_list obj P i ord ∧ Q !! i = Some (linked_main obj P i p (linked_code obj P i ord) ord)
      else Q !! i = Some p
    else ∃ o, Q !! i = Some (with_sub_off p o).

Lemma upto_length n Q : linked_upto n Q → length Q = length P.
Proof. intros [H _]. apply (f_equal length) in H. by rewrite !length_fmap in H. Qed.

Lemma upto_agree n Q p : linked_upto n Q → P !! n = Some p → is_main obj P p = true → agree obj P Q n.
Proof.
  intros [Hk HQ] Hp Hm. split; [done| |].
  - pose proof (HQ n p Hp) as H. rewrite Hm, Nat.ltb_irrefl in H. congruence.
  - intros j q Hq Ht. pose proof (HQ j q Hq) as H. unfold is_main in H.
    by rewrite (callee_is_subprog obj P n p (HP n p Hp Hm) j q Hq Ht) in H.
Qed.

Lemma reach_list_agree Q m p ord : linkable obj P m p → agree obj P Q m → ord_ok obj Q m ord →
  (∀ k, rtc (calls obj Q) m k → k ∈ m :: ord) → reach_list obj P m ord ∧ ∀ k, k ∈ ord → text_prog obj P k.
Proof.
  intros LK AG [Hnd Hord] Hall. pose proof (lk_sorted _ _ _ _ LK) as Hs. pose proof (lk_range _ _ _ _ LK) as Hr.
  assert (m ∉ ord) as Hm by (by apply NoDup_cons in Hnd as [? _]).
  assert (∀ k, k ∈ ord → k ≠ m) as Hne by (by intros k Hk ->). split; [split; [done|]|].
  - intros k. split.
    + intros Hk. split; [by apply Hne|]. by apply (reach_agree obj P Q m AG Hs Hr), Hord.
    + intros [Hkm Hk]. apply (reach_agree_l obj P Q m AG Hs Hr) in Hk as [Hk _]. apply Hall in Hk. by apply elem_of_cons in Hk as [?|?].
  - intros k Hk. destruct (reach_agree obj P Q m AG Hs Hr k ltac:(by apply Hord)) as [_ [->|Ht]]; [by destruct (Hne m Hk)|done].
Qed.

Lemma upto_step n Q p : linked_upto n Q → P !! n = Some p → is_main obj P p = true →
  ∃ Q', bpf_object__relocate_calls obj n (mkState Q []) = Some (mkState Q' [], 0) ∧ linked_upto (S n) Q'.
Proof.
  intros HQ Hp Hm. pose proof (upto_agree n Q p HQ Hp Hm) as AG. pose proof (HP n p Hp Hm) as LK.
  pose proof (linkable_agree obj P Q n p AG LK) as LKQ. destruct (link_main obj Q n p LKQ) as (ord & E & Ho & Hall).
  destruct (reach_list_agree Q n p ord LK AG Ho Hall) as [Hreach Htext].
  eexists. split; [exact E|]. split; [rewrite progs_key; apply AG|]. intros i q Hq. rewrite progs_lookup.
  pose proof (proj2 HQ i q Hq) as Hi. destruct (decide (i = n)) as [->|Hin].
  - simplify_eq. rewrite (ag_main _ _ _ _ AG), Hp, Hm. cbn [fmap option_fmap option_map].
    destruct (Nat.ltb_spec n (S n)); [|lia]. exists ord. split; [done|]. by rewrite (linked_agree obj P Q n p ord AG Hp Htext).
  - assert (∀ x, prog_is_subprog obj Q x = prog_is_subprog obj P x) as Hsub by (intros x; unfold prog_is_subprog; by rewrite (upto_length n Q HQ)).
    destruct (is_main obj P q) eqn:Hmq.
    + unfold is_main in Hmq. rewrite negb_true_iff, orb_false_iff in Hmq. destruct Hmq as [Hmq _].
      assert ((i <? S n)%nat = (i <? n)%nat) as -> by (destruct (Nat.ltb_spec i (S n)), (Nat.ltb_spec i n); lia).
      destruct (i <? n)%nat.
      * destruct Hi as (ord' & Hr' & ->). exists ord'. split; [done|]. cbn [fmap option_fmap option_map]. rewrite Hsub.
        change (prog_is_subprog obj P (linked_main obj P i q (linked_code obj P i ord') ord')) with (prog_is_subprog obj P q). by rewrite Hmq.
      * rewrite Hi. cbn [fmap option_fmap option_map]. by rewrite Hsub, Hmq.
    + destruct Hi as (o & ->). cbn [fmap option_fmap option_map]. destruct (prog_is_subprog obj Q (with_sub_off q o)); [|by exists o].
      by exists (off_of Q n ord i).
Qed.

Lemma upto_skip n Q p : linked_upto n Q → P !! n = Some p → is_main obj P p = false → linked_upto (S n) Q.
Proof.
  intros [Hk HQ] Hp Hm. split; [done|]. intros i q Hq. pose proof (HQ i q Hq) as Hi. destruct (is_main obj P q) eqn:Hmq; [|done].
  assert (i ≠ n) by congruence. by assert ((i <? S n)%nat = (i <? n)%nat) as -> by (destruct (Nat.ltb_spec i (S n)), (Nat.ltb_spec i n); lia).
Qed.

Lemma upto_main n Q p q : linked_upto n Q → P !! n = Some p → Q !! n = Some q →
  prog_is_subprog obj Q q || negb (pg_autoload q) = negb (is_main obj P p).
Proof.
  intros HQ Hp Hq. pose proof (proj2 HQ n p Hp) as Hn. rewrite Nat.ltb_irrefl in Hn. unfold is_main. rewrite negb_involutive.
  unfold prog_is_subprog. rewrite (upto_length n Q HQ). destruct (is_main obj P p); [by simplify_eq|]. destruct Hn as [o Ho]. by simplify_eq.
Qed.

Lemma upto_loop k n Q : (n + k = length P)%nat → linked_upto n Q →
  ∃ Q', for_each_main obj (bpf_object__relocate_calls obj) (seq n k) (mkState Q []) = Some (mkState Q' [], 0) ∧ linked_upto (length P) Q'.
Proof.
  revert n Q. induction k as [|k IH]; intros n Q Hn HQ; [exists Q; replace (length P) with n by lia; done|]. cbn [seq for_each_main st_progs].
  destruct (lookup_lt_is_Some_2 P n) as [p Hp]; [lia|]. destruct (lookup_lt_is_Some_2 Q n) as [q Hq]; [rewrite (upto_length n Q HQ); lia|].
  rewrite Hq. cbn [mbind option_bind]. rewrite (upto_main n Q p q HQ Hp Hq). destruct (is_main obj P p) eqn:Hm; cbn [negb].
  - destruct (upto_step n Q p HQ Hp Hm) as (Q' & -> & HQ'). cbn [mbind option_bind Z.eqb negb]. apply IH; [lia|done].
  - apply IH; [lia|]. by eapply upto_skip.
Qed.

Lemma upto_start : linked_upto 0 P.
Proof.
  split; [done|]. intros i p Hp. destruct (is_main obj P p); [done|]. exists (pg_sub_insn_off p). rewrite Hp. f_equal. apply prog_eta.
Qed.
End all.

(** Only what a call names in an instruction may change. *)
Definition same_op (a b : bpf_insn) : Prop := b = set_imm a (i_imm b).

Lemma same_op_set a x : same_op a (set_imm a x).
Proof. unfold same_op, set_imm. cbn. f_equal. symmetry. apply swrap_small; [lia|]. by apply (swrap_range 32). Qed.

Lemma linked_insn_same_op obj P m ord off p i insn : - 2 ^ 31 ≤ i_imm insn < 2 ^ 31 → same_op insn (linked_insn obj P m ord off p i insn).
Proof.
  intros Hi. assert (insn = set_imm insn (i_imm insn)) as Hid by (unfold set_imm; rewrite swrap_small by lia; by destruct insn).
  unfold linked_insn. destruct (resolve obj P p i insn) as [[k|]|]; [apply same_op_set|done..].
Qed.

(** Where the instructions of a program are in the linked code. *)
Lemma linked_code_lookup obj P m M ord j p i insn : linkable obj P m M → ord_ok obj P m ord → j ∈ m :: ord → P !! j = Some p →
  pg_insns p !! i = Some insn →
  linked_code obj P m ord !! (Z.to_nat (off_of P m ord j) + i)%nat = Some (linked_insn obj P m ord (off_of P m ord j) p i insn).
Proof.
  intros LK Ho Hj Hp Hi. set (f := λ (off : Z) j, match P !! j with Some p => imap (linked_insn obj P m ord off p) (pg_insns p) | None => [] end).
  assert (∀ off j, j ∈ m :: ord → Z.of_nat (length (f off j)) = cnt P j) as Hf.
  { intros o k Hk. destruct (ord_some obj P m M LK ord k Ho Hk) as [q Hq]. unfold f. rewrite Hq, length_imap.
    destruct (ord_ok_prog obj P m M LK ord k q Ho Hk Hq) as (-> & _). destruct (cnt_pos P (lk_range _ _ _ _ LK) k q Hq). lia. }
  pose proof (laid_lookup P (lk_range _ _ _ _ LK) f 0 (m :: ord) j ltac:(lia) (proj1 Ho) Hj Hf i) as Hl. rewrite Z.sub_0_r in Hl.
  fold (off_of P m ord j) in Hl. unfold linked_code. fold f. rewrite Hl.
  - unfold f. by rewrite Hp, list_lookup_imap, Hi.
  - unfold f. rewrite Hp, length_imap. by eapply lookup_lt_Some.
Qed.

(** * Data *)

(** The relocations of [p] are apart, inside of it, and can be made. *)
Definition data_ok (obj : bpf_object) (p : bpf_program) : Prop :=
  apart (pg_relocs p) ∧ Forall (λ r, rd_insn_idx r + relo_width r ≤ pg_sec_insn_cnt p ∧ relo_defined obj (pg_insns p) r) (pg_relocs p).

Section data.
Context (obj : bpf_object) (P : list bpf_program) (m : nat) (M : bpf_program) (LK : linkable obj P m M).
Context (HD : ∀ j p, P !! j = Some p → rtc (calls obj P) m j →
  data_ok obj p ∧ Forall (λ c, - 2 ^ 31 ≤ i_imm c < 2 ^ 31) (pg_insns p)).
Context (ord : list nat) (Ho : ord_ok obj P m ord).

Lemma data_reach j p : j ∈ m :: ord → P !! j = Some p → data_ok obj p ∧ Forall (λ c, - 2 ^ 31 ≤ i_imm c < 2 ^ 31) (pg_insns p).
Proof. intros Hj Hp. apply (HD j p Hp). by eapply ord_reaches. Qed.

Lemma laid_apart base js : (∀ j, j ∈ js → j ∈ m :: ord) →
  let l := laid P (λ off j, map (moved_relo off) (from_option pg_relocs [] (P !! j))) base js in
  apart l ∧ Forall (λ r, base ≤ rd_insn_idx r ∧ rd_insn_idx r + relo_width r ≤ base + size P js) l.
Proof.
  revert base. induction js as [|j js IH]; intros base Hin; cbn [laid]; [split; constructor|].
  destruct (IH (base + cnt P j)) as [Hs Hb]; [intros; apply Hin; set_solver|].
  pose proof (Hin j ltac:(set_solver)) as Hj. destruct (ord_some obj P m M LK ord j Ho Hj) as [p Hp]. rewrite Hp. cbn [from_option].
  destruct (data_reach j p Hj Hp) as [[Hap Hd] _]. destruct (cnt_pos P (lk_range _ _ _ _ LK) j p Hp) as [Hc _].
  pose proof (size_nonneg P (lk_range _ _ _ _ LK) js). rewrite size_cons.
  assert (Forall (λ r, base ≤ rd_insn_idx r ∧ rd_insn_idx r + relo_width r ≤ base + cnt P j) (map (moved_relo base) (pg_relocs p))) as Hb1.
  { apply Forall_map. eapply Forall_impl; [exact Hd|]. intros r [Hr1 [Hr2 _]].
    change (base ≤ rd_insn_idx r + base ∧ rd_insn_idx r + base + relo_width r ≤ base + cnt P j). lia. }
  assert (∀ r, 0 < relo_width r) as Hw by (intros r; unfold relo_width; destruct (has_second r); lia).
  split.
  - apply StronglySorted_app_2; [|clear -Hap|done].
    + intros x y Hx Hy. rewrite Forall_forall in Hb, Hb1. specialize (Hb y Hy). specialize (Hb1 x Hx). cbv beta in *. lia.
    + induction Hap as [|x l Hl IHl Hx]; cbn; constructor; [done|]. apply Forall_map. eapply Forall_impl; [exact Hx|].
      intros r Hr. cbv beta in Hr. change (rd_insn_idx x + base + relo_width x ≤ rd_insn_idx r + base). lia.
  - apply Forall_app. split; (eapply Forall_impl; [done|]); intros r Hr; cbv beta in *; pose proof (cnt_nonneg P (lk_range _ _ _ _ LK) j); lia.
Qed.

Lemma in_laid {A} (f : Z → nat → list A) base js x : NoDup js → x ∈ laid P f base js → ∃ j, j ∈ js ∧ x ∈ f (off_from P base js j) j.
Proof.
  revert base. induction js as [|j js IH]; intros base Hnd Hx; cbn in Hx; [by apply elem_of_nil in Hx|]. apply NoDup_cons in Hnd as [Hj Hnd].
  apply elem_of_app in Hx as [Hx|Hx].
  - exists j. cbn. rewrite decide_True by done. split; [set_solver|done].
  - destruct (IH _ Hnd Hx) as (k & Hk & Hxk). exists k. cbn. rewrite decide_False by (intros ->; done). split; [set_solver|done].
Qed.

Lemma linked_defined : Forall (relo_defined obj (linked_code obj P m ord)) (linked_relocs P m ord).
Proof.
  apply Forall_forall. intros r' Hr'. apply in_laid in Hr' as (j & Hj & Hr'); [|apply Ho]. fold (off_of P m ord j) in Hr'.
  destruct (ord_some obj P m M LK ord j Ho Hj) as [p Hp]. rewrite Hp in Hr'. cbn [from_option] in Hr'.
  apply list_elem_of_fmap in Hr' as (r & -> & Hr). destruct (data_reach j p Hj Hp) as [[_ Hd] Himm].
  rewrite Forall_forall in Hd. rewrite Forall_forall in Himm. destruct (Hd r Hr) as (_ & H0 & i0 & H1 & H2 & H3 & H4).
  destruct (off_bounds obj P m M LK ord j Ho Hj) as (Hoff & _).
  assert (∀ i c, pg_insns p !! i = Some c → linked_code obj P m ord !! (Z.to_nat (off_of P m ord j) + i)%nat =
    Some (linked_insn obj P m ord (off_of P m ord j) p i c)) as Hl by (intros; by eapply linked_code_lookup).
  assert (same_op i0 (linked_insn obj P m ord (off_of P m ord j) p (Z.to_nat (rd_insn_idx r)) i0)) as Hop.
  { apply linked_insn_same_op, Himm. by eapply list_elem_of_lookup_2. }
  split; [change (0 ≤ rd_insn_idx r + off_of P m ord j); lia|]. eexists. change (has_second (moved_relo _ r)) with (has_second r).
  cbn [rd_insn_idx moved_relo]. rewrite Z.add_comm, Z2Nat.inj_add by lia. split; [by apply Hl|]. split; [|split].
  - intros Hsec. destruct (H2 Hsec) as [i1 Hi1]. rewrite plus_n_Sm. eexists. by apply Hl.
  - change (reference_of obj (moved_relo ?o r)) with (reference_of obj r). by eapply reference_addend.
  - intros Ht. rewrite Hop. by apply H4.
Qed.

(** Making the relocations of a linked program. *)
Lemma linked_data : ∃ insns, relocate_data obj (linked_relocs P m ord) (linked_code obj P m ord) = Some (insns, 0) ∧
  length insns = length (linked_code obj P m ord) ∧
  Forall (relocated obj (linked_code obj P m ord) insns) (linked_relocs P m ord) ∧
  ∀ n, (∀ r, r ∈ linked_relocs P m ord → ¬ covers r n) → insns !! n = linked_code obj P m ord !! n.
Proof. apply relocate_data_ok; [|exact linked_defined]. by apply (laid_apart 0 (m :: ord)). Qed.
End data.

(** [q] is the main program [m] with the subprograms [ord] behind it, calls set and
    relocations made. *)
Definition relocated_main (obj : bpf_object) (P : list bpf_program) (m : nat) (M : bpf_program) (ord : list nat) (q : bpf_program) : Prop :=
  let code := linked_code obj P m ord in
  let relocs := linked_relocs P m ord in
  ∃ insns, q = linked_main obj P m M insns ord ∧ length insns = length code ∧ Forall (relocated obj code insns) relocs ∧
    ∀ n, (∀ r, r ∈ relocs → ¬ covers r n) → insns !! n = code !! n.

Section data_all.
Context (obj : bpf_object) (P : list bpf_program).
Context (HP : ∀ i p, P !! i = Some p → is_main obj P p = true → linkable obj P i p).
Context (HD : ∀ i p, P !! i = Some p → is_main obj P p = true → ∀ j q, P !! j = Some q → rtc (calls obj P) i j →
  data_ok obj q ∧ Forall (λ c, - 2 ^ 31 ≤ i_imm c < 2 ^ 31) (pg_insns q)).

(** The programs when the relocations of the main programs before [n] are made. *)
Definition data_upto (n : nat) (R : list bpf_program) : Prop :=
  length R = length P ∧ ∀ i p, P !! i = Some p →
    if is_main obj P p then ∃ ord q, reach_list obj P i ord ∧ R !! i = Some q ∧
      if (i <? n)%nat then relocated_main obj P i p ord q else q = linked_main obj P i p (linked_code obj P i ord) ord
    else ∃ o, R !! i = Some (with_sub_off p o).

Lemma reach_list_ok i p ord : linkable obj P i p → reach_list obj P i ord → ord_ok obj P i ord.
Proof.
  intros LK [Hnd Hin]. split; [done|]. intros k Hk. apply Hin in Hk as [Hki Hk]. split; [done|].
  destruct (rtc_inv_r _ _ Hk) as [<-|(j & _ & Hc)]; [done|]. by eapply calls_text.
Qed.

Lemma data_start Q : linked_upto obj P (length P) Q → data_upto 0 Q.
Proof.
  intros HQ. split; [by eapply upto_length|]. intros i p Hp. pose proof (proj2 HQ i p Hp) as Hi.
  destruct (is_main obj P p); [|done]. assert (i < length P)%nat as Hlt by (by eapply lookup_lt_Some).
  destruct (Nat.ltb_spec i (length P)) as [_|]; [|lia]. destruct Hi as (ord & Hr & Hi). by eexists ord, _.
Qed.

Lemma data_main n R p q : data_upto n R → P !! n = Some p → R !! n = Some q →
  prog_is_subprog obj R q || negb (pg_autoload q) = negb (is_main obj P p).
Proof.
  intros [Hlen HR] Hp Hq. pose proof (HR n p Hp) as Hn. rewrite Nat.ltb_irrefl in Hn. unfold is_main. rewrite negb_involutive.
  unfold prog_is_subprog. rewrite Hlen. destruct (is_main obj P p).
  - destruct Hn as (ord & q' & _ & Hq' & ->). by simplify_eq.
  - destruct Hn as [o Ho]. by simplify_eq.
Qed.

Lemma data_step n R p : data_upto n R → P !! n = Some p → is_main obj P p = true →
  ∃ R', bpf_object__relocate_data obj (mkState R []) n = Some (mkState R' [], 0) ∧ data_upto (S n) R'.
Proof.
  intros [Hlen HR] Hp Hm. pose proof (HR n p Hp) as Hn. rewrite Hm, Nat.ltb_irrefl in Hn. destruct Hn as (ord & q & Hreach & Hq & ->).
  pose proof (HP n p Hp Hm) as LK. destruct (linked_data obj P n p LK (HD n p Hp Hm) ord (reach_list_ok n p ord LK Hreach)) as (insns & E & Hl & Hr & Hk).
  unfold bpf_object__relocate_data. cbn [st_progs st_alloc]. rewrite Hq. cbn [mbind option_bind pg_relocs pg_insns linked_main].
  rewrite E. cbn [mbind option_bind]. eexists. split; [reflexivity|]. unfold set_prog. split; [by rewrite length_insert|].
  intros i p' Hp'. destruct (decide (i = n)) as [->|Hin].
  - simplify_eq. rewrite Hm. exists ord. eexists. split; [done|]. split; [apply list_lookup_insert_eq; by eapply lookup_lt_Some|].
    destruct (Nat.ltb_spec n (S n)); [|lia]. by exists insns.
  - rewrite list_lookup_insert_ne by done. assert ((i <? S n)%nat = (i <? n)%nat) as -> by (destruct (Nat.ltb_spec i (S n)), (Nat.ltb_spec i n); lia).
    by apply HR.
Qed.

Lemma data_loop k n R : (n + k = length P)%nat → data_upto n R →
  ∃ R', for_each_main obj (λ i st, bpf_object__relocate_data obj st i) (seq n k) (mkState R []) = Some (mkState R' [], 0) ∧ data_upto (length P) R'.
Proof.
  revert n R. induction k as [|k IH]; intros n R Hn HR; [exists R; replace (length P) with n by lia; done|]. cbn [seq for_each_main st_progs].
  destruct (lookup_lt_is_Some_2 P n) as [p Hp]; [lia|]. destruct (lookup_lt_is_Some_2 R n) as [q Hq]; [rewrite (proj1 HR); lia|].
  rewrite Hq. cbn [mbind option_bind]. rewrite (data_main n R p q HR Hp Hq). destruct (is_main obj P p) eqn:Hm; cbn [negb].
  - destruct (data_step n R p HR Hp Hm) as (R' & -> & HR'). cbn [mbind option_bind Z.eqb negb]. apply IH; [lia|done].
  - apply IH; [lia|]. split; [apply HR|]. intros i p' Hp'. pose proof (proj2 HR i p' Hp') as Hi. destruct (is_main obj P p') eqn:Hm'; [|done].
    assert (i ≠ n) by congruence. by assert ((i <? S n)%nat = (i <? n)%nat) as -> by (destruct (Nat.ltb_spec i (S n)), (Nat.ltb_spec i n); lia).
Qed.
End data_all.

(** C3. Linking and relocating an object: for programs [P0] that are [P] once the loads
    of function addresses are marked, and whose main programs can be linked and have
    relocations that can be made, relocating succeeds, and does not depend on the order
    in which main programs come: each of them ends up as its own instructions followed
    by those of every subprogram that it reaches, each exactly once, every call set to
    jump from where it is to where the callee begins, the relocations and the func and
    line infos of all of them at their new places.  After a relocation the instructions
    refer to what it is about: the map, its value at the addend plus the offset of the
    symbol, the kernel's variable by its address or BTF id, the kernel's function, or
    a call that the verifier rejects if the map does not exist.  Every other instruction
    is as it was, and a subprogram keeps its instructions. *)
Theorem relocate_object obj P0 P :
  mapM mark_prog P0 = Some P →
  (∀ i p, P !! i = Some p → is_main obj P p = true → linkable obj P i p) →
  (∀ i p, P !! i = Some p → is_main obj P p = true → ∀ j q, P !! j = Some q → rtc (calls obj P) i j →
    data_ok obj q ∧ Forall (λ c, - 2 ^ 31 ≤ i_imm c < 2 ^ 31) (pg_insns q)) →
  ∃ R, bpf_object__relocate obj (mkState P0 []) = Some (mkState R [], 0) ∧ length R = length P ∧
    ∀ i p, P !! i = Some p →
      if is_main obj P p then ∃ ord q, reach_list obj P i ord ∧ R !! i = Some q ∧ relocated_main obj P i p ord q
      else ∃ o, R !! i = Some (with_sub_off p o).
Proof.
  intros Hmark HP HD. unfold bpf_object__relocate. cbn [st_progs st_alloc]. rewrite Hmark. cbn [mbind option_bind].
  destruct (upto_loop obj P HP (length P) 0 P eq_refl (upto_start obj P)) as (Q & -> & HQ). cbn [mbind option_bind Z.eqb negb].
  destruct (data_loop obj P HP HD (length P) 0 Q eq_refl (data_start obj P Q HQ)) as (R & -> & [Hl HR]).
  exists R. split; [done|]. split; [done|]. intros i p Hp. pose proof (HR i p Hp) as Hi. destruct (is_main obj P p); [|done].
  apply lookup_lt_Some in Hp. by destruct (Nat.ltb_spec i (length P)); [|lia].
Qed.

(** C6. A call of a linked program lands: whatever program that is reached has the call,
    the instruction at its place in the main program jumps to the first instruction of
    the copy of the callee, whose instructions follow there unchanged but for what they
    call themselves. *)
Theorem linked_call_lands obj P m M j p i insn k :
  linkable obj P m M → rtc (calls obj P) m j → P !! j = Some p → pg_insns p !! i = Some insn →
  resolve obj P p i insn = Some (Some k) →
  ∃ st main q pos target call,
    bpf_object__relocate_calls obj m (mkState P []) = Some (st, 0) ∧ st_progs st !! m = Some main ∧ P !! k = Some q ∧
    pg_insns main !! pos = Some call ∧ same_op insn call ∧ Z.of_nat pos + 1 + i_imm call = Z.of_nat target ∧
    ∀ n c, pg_insns q !! n = Some c → - 2 ^ 31 ≤ i_imm c < 2 ^ 31 →
      ∃ c', pg_insns main !! (target + n)%nat = Some c' ∧ same_op c c'.
Proof.
  intros LK Hj Hp Hi Hres. destruct (link_main obj P m M LK) as (ord & E & Ho & Hall).
  pose proof (resolve_calls obj P m M LK j p i insn k Hj Hp Hi Hres) as (Hk & _ & q & Hq & _).
  pose proof (Hall j Hj) as Hjo. pose proof (Hall k Hk) as Hko.
  destruct (off_bounds obj P m M LK ord j Ho Hjo) as (Hj0 & Hj1 & _). destruct (off_bounds obj P m M LK ord k Ho Hko) as (Hk0 & Hk1 & Hk2).
  destruct (ord_ok_prog obj P m M LK ord j p Ho Hjo Hp) as (Hlp & _). destruct (cnt_pos P (lk_range _ _ _ _ LK) j p Hp) as [Hcj _].
  destruct (cnt_pos P (lk_range _ _ _ _ LK) k q Hq) as [_ Hck]. pose proof (lookup_lt_Some _ _ _ Hi) as Hlt.
  pose proof (linked_code_lookup obj P m M ord j p i insn LK Ho Hjo Hp Hi) as Hcall.
  eexists. eexists. exists q, (Z.to_nat (off_of P m ord j) + i)%nat, (Z.to_nat (off_of P m ord k)).
  eexists. split; [exact E|]. split; [by apply progs_main|]. split; [done|]. split; [exact Hcall|].
  unfold linked_insn. rewrite Hres. cbn [i_imm set_imm]. rewrite swrap_small by lia. split; [|split; [lia|]].
  - apply same_op_set.
  - intros n c Hc Himm. eexists. split; [by apply (linked_code_lookup obj P m M ord k q n c)|]. by apply linked_insn_same_op.
Qed.

(** * A concrete object *)

Lemma progs_sorted_of P : StronglySorted before P → progs_sorted P.
Proof.
  intros Hs. induction Hs as [|p l Hs IH Hp]; intros [|i] [|j] a b Hij Ha Hb; try done; try lia; cbn in *.
  - simplify_eq. rewrite Forall_forall in Hp. apply Hp. by eapply list_elem_of_lookup_2.
  - by apply (IH i j); [lia|..].
Qed.

(** Programs that all can be linked. *)
Lemma linkable_all obj P m M : P !! m = Some M → pg_sec_idx M ≠ ob_text_shndx obj → pg_sub_insn_off M = 0 →
  StronglySorted before P → Forall prog_range P → Forall prog_ok P → size P (seq 0 (length P)) < 2 ^ 31 →
  Forall (λ p, Forall is_Some (imap (resolve obj P p) (pg_insns p))) P →
  (∀ f l, used_ext obj = Some (f, l) → Forall (λ p, is_Some (ext_recs f p) ∧ is_Some (ext_recs l p)) P) → linkable obj P m M.
Proof.
  rewrite !Forall_lookup. intros HM He H0 Hs Hr Hok Hsz Hcalls Hinfo. split; try done.
  - by apply progs_sorted_of.
  - by rewrite Forall_lookup.
  - intros j p Hp _. by eapply Hok.
  - intros j p i insn _ Hp Hi. specialize (Hcalls j p Hp). rewrite Forall_lookup in Hcalls. apply (Hcalls i).
    by rewrite list_lookup_imap, Hi.
  - intros f l j p Hu _ Hp. specialize (Hinfo f l Hu). rewrite Forall_lookup in Hinfo. by eapply Hinfo.
Qed.

(** Two main programs (sections 3 and 4) and two subprograms that call each other (in
    section 1): the first main program calls both and takes the address of the second
    subprogram, the other main program calls the second one, which loads the address of a
    variable 12 bytes into the value of a map. *)
Definition demo_nop : bpf_insn := mkInsn 0xb7 0 0 0 1.
Definition demo_call (imm : Z) : bpf_insn := mkInsn 0x85 0 BPF_PSEUDO_CALL 0 imm.
Definition demo_ret : bpf_insn := mkInsn 0x95 0 0 0 0.
Definition demo_addr (imm : Z) : bpf_insn := mkInsn 0x18 1 BPF_PSEUDO_FUNC 0 imm.

(** A load of what is 8 bytes behind a symbol, and the second half of a load. *)
Definition demo_load : bpf_insn := mkInsn 0x18 2 0 0 8.
Definition demo_half : bpf_insn := mkInsn 0 0 0 0 0.

Definition demo_prog (sec off : Z) (insns : list bpf_insn) (relocs : list reloc_desc) : bpf_program :=
  mkProg sec off (Z.of_nat (length insns)) 0 insns (Z.of_nat (length insns)) relocs true (mkInfo None 0) (mkInfo None 0).

Definition demo_main : bpf_program :=
  demo_prog 3 0 [demo_call (-1); demo_call (-1); demo_addr 0; demo_half; demo_ret]
    [mkRelo RELO_CALL 0 0 0; mkRelo RELO_CALL 1 0 24; mkRelo RELO_SUBPROG_ADDR 2 0 24].

Definition demo_progs : list bpf_program :=
  [ demo_prog 1 0 [demo_nop; demo_call 1; demo_ret] [];
    demo_prog 1 3 [demo_call (-4); demo_load; demo_half; demo_ret] [mkRelo RELO_DATA 1 0 4];
    demo_main;
    demo_prog 4 0 [demo_nop; demo_call 2; demo_ret] [mkRelo RELO_CALL 1 0 0] ].

(** Before the load of an address is marked. *)
Definition demo_start : list bpf_program :=
  [ demo_prog 1 0 [demo_nop; demo_call 1; demo_ret] [];
    demo_prog 1 3 [demo_call (-4); demo_load; demo_half; demo_ret] [mkRelo RELO_DATA 1 0 4];
    demo_prog 3 0 [demo_call (-1); demo_call (-1); mkInsn 0x18 1 0 0 0; demo_half; demo_ret]
      [mkRelo RELO_CALL 0 0 0; mkRelo RELO_CALL 1 0 24; mkRelo RELO_SUBPROG_ADDR 2 0 24];
    demo_prog 4 0 [demo_nop; demo_call 2; demo_ret] [mkRelo RELO_CALL 1 0 0] ].

Definition demo_ext : btf_ext_info :=
  mkExtInfo 8 [(1, [mkRec 0 [10]; mkRec 24 [11]]); (3, [mkRec 0 [12]]); (4, [mkRec 0 [13]])].

Definition demo_obj : bpf_object := mkObject 1 (Some (demo_ext, demo_ext)) true false [mkMap true 7] [] 0.

Lemma demo_linkable i p : demo_progs !! i = Some p → is_main demo_obj demo_progs p = true → linkable demo_obj demo_progs i p.
Proof.
  intros Hp Hm. apply linkable_all; [done|..].
  - intros Ht. unfold is_main, prog_is_subprog in Hm. rewrite Ht in Hm. done.
  - by do 4 (destruct i as [|i]; [by injection Hp as <-|]).
  - unfold demo_progs. repeat constructor; unfold before; cbn; lia.
  - unfold demo_progs. repeat constructor; cbn; lia.
  - unfold demo_progs, prog_ok, relos_sorted. repeat constructor; cbn; lia.
  - by vm_compute.
  - apply (bool_decide_unpack _). by vm_compute.
  - intros f l [= <- <-]. apply (bool_decide_unpack _). by vm_compute.
Qed.

Lemma demo_data_ok j q : demo_progs !! j = Some q → data_ok demo_obj q ∧ Forall (λ c, - 2 ^ 31 ≤ i_imm c < 2 ^ 31) (pg_insns q).
Proof.
  intros Hq. unfold data_ok, apart. destruct j as [|[|[|[|j]]]]; [injection Hq as <-..|done]; cbn [pg_relocs pg_insns demo_prog].
  all: split; [split|]; repeat first [apply Forall_nil_2 | apply Forall_cons_2 | apply SSorted_nil | apply SSorted_cons]; cbn; try lia.
  all: split; [lia|]; split; [done|]; eexists; split; [done|]; split; [first [done|intros _; by eexists]|]; split; [by eexists|done].
Qed.

(** The instructions of the first main program: the calls, the load of the address of the
    subprogram at 8, and in it the load from the map with descriptor 7 at offset 12. *)
Definition demo_linked : list bpf_insn :=
  [ demo_call 4; demo_call 6; demo_addr 5; demo_half; demo_ret;
    demo_nop; demo_call 1; demo_ret;
    demo_call (-4); mkInsn 0x18 2 2 0 7; mkInsn 0 0 0 0 12; demo_ret ].

Lemma relocate_object_witness : ∃ R ord q,
  bpf_object__relocate demo_obj (mkState demo_start []) = Some (mkState R [], 0) ∧
  reach_list demo_obj demo_progs 2 ord ∧ R !! 2%nat = Some q ∧ relocated_main demo_obj demo_progs 2 demo_main ord q ∧
  pg_insns q = demo_linked.
Proof.
  destruct (relocate_object demo_obj demo_start demo_progs) as (R & H1 & _ & H3).
  - reflexivity.
  - exact demo_linkable.
  - intros i p _ _ j q Hq _. by apply demo_data_ok with j.
  - destruct (H3 2%nat demo_main eq_refl) as (ord & q & Hr & Hq & Hm). exists R, ord, q. split; [exact H1|].
    split; [exact Hr|]. split; [exact Hq|]. split; [exact Hm|]. clear -H1 Hq. vm_compute in H1. injection H1 as <-.
    vm_compute in Hq. injection Hq as <-. reflexivity.
Defined.

Lemma linked_call_lands_witness : ∃ st main q pos target c,
  bpf_object__relocate_calls demo_obj 2 (mkState demo_progs []) = Some (st, 0) ∧ st_progs st !! 2%nat = Some main ∧
  demo_progs !! 1%nat = Some q ∧ pg_insns main !! pos = Some c ∧ same_op (demo_call 1) c ∧ Z.of_nat pos + 1 + i_imm c = Z.of_nat target ∧
  ∀ n c, pg_insns q !! n = Some c → - 2 ^ 31 ≤ i_imm c < 2 ^ 31 → ∃ c', pg_insns main !! (target + n)%nat = Some c' ∧ same_op c c'.
Proof.
  apply (linked_call_lands demo_obj demo_progs 2 demo_main 0 (demo_prog 1 0 [demo_nop; demo_call 1; demo_ret] []) 1 (demo_call 1) 1).
  - by apply demo_linkable.
  - eapply rtc_once. by exists demo_main, 0%nat, (demo_call (-1)).
  - done.
  - done.
  - by vm_compute.
Defined.

(** * A program in the section of the subprograms that calls itself *)

Definition self_prog : bpf_program := demo_prog 1 0 [demo_nop; demo_call (-2); demo_nop; demo_ret] [].

(** The only program of an object is a main program in whatever section it is. When it
    calls itself it is appended to itself: the count of instructions that is copied is
    then the one that has just been raised, and the copy ends behind the array. *)
Lemma self_call_overflow : bpf_object__relocate_calls demo_obj 0 (mkState [self_prog] []) = None.
Proof. by vm_compute. Qed.
